(* ===== verification/_CoqProject ===== *)
-Q . S2P
Prelude.v
Ids.v
Heaps.v
Requests.v
NxBase.v
NxDag.v
NxDagFacts.v
NxDagGraph.v
NxDagSearch.v
NxDagPath.v
NxEnclave.v
NxMessages.v
NxReplica.v
NxEnclaveFacts.v
NxCommit.v
NxDagBuilt.v
NxDecide.v
NxOrder.v
NxReplicaFacts.v
NxInvariant.v
NxLog.v
NxExamples.v
NxTheorems.v
BaseTheorems.v
NxRunTheorems.v
Triple.v
DamBase.v
DamEnclave.v
DamEnclaveFacts.v
DamBlockstore.v
DamReplica.v
DamInvariant.v
DamRun.v
DamExamples.v
DamTheorems.v
MbUsig.v
MbBase.v
MbMessages.v
MbOrder.v
MbCollectors.v
MbBatcher.v
MbRequests.v
MbReplica.v
MbOrderFacts.v
MbCertFacts.v
MbCollectFacts.v
MbRequestFacts.v
MbInvariant.v
MbRun.v
MbExamples.v
MbTheorems.v
MbPartTheorems.v
Wrapper.v
WrapperFacts.v
WrapperTheorems.v
WrapNx.v
WrapDam.v
WrapMb.v
RuntimeNet.v
RuntimeMb.v
RuntimeNx.v
RuntimeDam.v
Sgx.v
SgxExamples.v
DamTee.v
DamTeeFacts.v
DamTeeTheorems.v
NxTee.v
NxTeeFacts.v
NxTeeTheorems.v
MbTee.v
MbTeeTheorems.v
SmrClient.v
Maas.v
MaasTee.v
MaasExamples.v
MaasTheorems.v
MaasServer.v
WebServer.v
SpliteeMath.v
