(* ===== verification/Prelude.v ===== *)
(** * Atomic broadcast of abcperf: NxBFT, Damysus and MinBFT

    The repository measures Byzantine fault tolerant atomic broadcast.  Its core
    are replicas of three protocols, each a state machine without I/O: a handler
    takes a message, a client request or a timeout, changes the state and returns
    an output (messages to send, timeouts to set, transactions delivered).  This
    library models the three, NxBFT, Damysus and MinBFT, with the crates they
    are built on, the runtime that schedules a replica and connects it to the
    network and the application, the SGX enclaves that hold the trusted
    components, the clients and servers around a replicated service, and an
    application of it, and proves that they order requests correctly, keep their
    invariants and terminate, and where they do not.

    ** How Rust code is modelled

    This file.  A function that can panic returns an [Outcome]: [Val], [Panic]
    ([assert!], [unwrap] of [None], an index out of range, checked overflow) or
    [NoFuel], for a loop or recursion that is not structural and whose fuel is
    used up.  A method with a mutable receiver is a [St], an [Outcome]-valued
    state transformer, with [self], [modify] ([<~], [<~>]), [inspect], [update]
    and [zoom] for reads, writes and calls on a field; a record update is
    [s.[f := v]].  [Result] is a value.  A [u64] is an [N] whose operations
    ([u64_add], [u64_sub], ...) wrap, or panic, as the build profile says
    ([Profile]).  A [HashMap] is a [gmap], a [Vec] a list read and written by
    [index_u64] and [assign_u64].  Third-party code is a class with its
    documented laws: [BitSet], [Digests], [Rand], [RangeInclusiveMap],
    [UnstableSort], [SignatureScheme], [SgxRuntime], [Bincode], [Ecc],
    [NxCrypto] and [MaasCrypto] for SGX, and [HashOrder] for the order in which a hash map is
    iterated; each has an instance on which the examples run.  Time
    is a function from the number of clock readings so far to the time read.

    ** Files, and the code they model

    - [Prelude], [Triple]: the above, and Hoare triples that also exclude
      running out of fuel.
    - [Ids]: [src/other/shared-ids] ([id_type!], [IdMap]) and
      [src/other/id-set] ([IdSet], refined to [gset]).
    - [Heaps]: [src/other/heaps] ([HeapBuffer], [CursoredHeap],
      [PendingClientRequests]), on the binary heap of the standard library as it
      is: a vector with sifting up and down, which decides the order of equal keys.
    - [Requests]: the deduplication of client requests the replicas share,
      and [src/other/transaction-trait].
    - [NxBase], [NxEnclave]: [src/atomic-broadcast/nxbft/nxbft-base] (vertices and
      their serialisation; the automaton [EnclaveAutomata] of the trusted
      component with its handshake, counters, coin, export and recovery, and
      [SimpleEnclave]).  [NxEnclaveFacts] proves the automaton's
      invariant and discharges the interface [CommonCoin] the replica's theorems
      are proved against.
    - [NxDag]: [src/atomic-broadcast/nxbft/nxbft/src/consensus_dag].
      [NxDagFacts], [NxDagGraph], [NxDagSearch], [NxDagPath], [NxDagBuilt] read
      the DAG as a graph and prove its operations and searches against it.
    - [NxMessages], [NxReplica]: [message.rs], [output.rs], [util.rs] and
      [lib.rs] of [src/atomic-broadcast/nxbft/nxbft/src]: the state [NxBft] and
      every handler, handshake and recovery included.  [NxCommit], [NxDecide],
      [NxOrder], [NxReplicaFacts], [NxInvariant], [NxLog] lead to
      the theorems on runs.
    - [DamBase], [DamEnclave]: [src/atomic-broadcast/damysus/damysus-base] (views,
      commitments, the automaton of the trusted component) and the
      [NoopEnclave] of [damysus/src/enclave.rs].  [DamEnclaveFacts]
      proves what it guarantees and the interface [DamEnclaveLaws].
    - [DamBlockstore], [DamReplica]: [blockstore.rs],
      [message.rs], [output.rs] and [lib.rs] of
      [src/atomic-broadcast/damysus/damysus/src]: the state [Damysus] and every
      handler.  [DamInvariant], [DamRun] prove the invariant and
      termination of every handler and carry them over runs.
    - [MbUsig]: [src/atomic-broadcast/minbft/usig], the trait [Usig] of the
      trusted counter with its laws, and its implementations [UsigNoOp] and
      [UsigSignature].
    - [MbBase], [MbMessages], [MbOrder], [MbCollectors], [MbBatcher],
      [MbRequests], [MbReplica]:
      [src/atomic-broadcast/minbft/minbft/src], in this order the configuration,
      requests, timeouts and errors; [peer_message] (every message, the bytes it
      signs, its validation); [usig_msg_order_enforcer.rs]; the collectors of
      [peer_message_processor]; [request_batcher] with its three batchers;
      [output.rs] and [request_processor]; and [lib.rs] with the message
      processors: the state [MinBft] and every handler, with view changes,
      checkpoints and recovery.  [MbOrderFacts], [MbCertFacts],
      [MbCollectFacts], [MbRequestFacts] and [MbBatcher] prove what the
      components promise, [MbInvariant] the invariant and the termination of
      every handler, [MbRun] carries them over runs.
    - [NxExamples], [DamExamples], [MbExamples]: networks of three NxBFT, two
      Damysus and three MinBFT replicas, executable, on which the theorems are
      witnessed.
    - [NxTheorems], [NxRunTheorems], [BaseTheorems], [DamTheorems],
      [MbTheorems], [MbPartTheorems]: the properties; the main ones, here and in
      the files below, are numbered C1 and up.
    - [Wrapper]: [src/atomic-broadcast/abcperf-abcwrapper], the runtime.  Its three
      tasks and the bounded channels between them are a step function per task on
      the state [System]; a run is any list of [Action]s, so every interleaving
      with every environment is one.  The protocol is the class [AbcWrapper].
      [WrapperFacts], [WrapperTheorems] prove it against the
      protocol alone.
    - [WrapNx], [WrapDam], [WrapMb]: the adapters [abcperf-nxbft],
      [abcperf-damysus] and [abcperf-minbft], instances of [AbcWrapper].
      [RuntimeNx], [RuntimeDam], [RuntimeMb] compose them with the runtime and the
      theorems of the protocols, on networks of runtimes ([RuntimeNet]).
    - [Sgx]: [src/other/sgx-utils], [enclave-result] and
      [remote-attestation-shared]: the call of a function in an enclave, which the
      runtime may refuse and whose panic ends the enclave, parameters and results
      as they cross the boundary, keys and signatures.  [SgxExamples] has a
      serializer and keys to run it on.
    - [DamTee], [NxTee], [MbTee]: [damysus-tee*], [nxbft-tee*] and [usig-tee*]: the
      code in the enclave, the functions it exports, and the host's side, an
      instance of the class the replica is built on.  [DamTeeFacts],
      [NxTeeFacts] prove that it satisfies that class's laws; [DamTeeTheorems],
      [NxTeeTheorems], [MbTeeTheorems] what holds whatever the host does, and for
      replicas on the enclaves.
    - [SmrClient]: the clients of a replicated service,
      [src/abcperf/abcperf/src/application/smr_client].  A future is a function of
      the answers, timers and cancellations since it was started.
    - [WebServer]: the pairing of requests and responses at a
      replica, [src/abcperf/abcperf/src/replica/webserver.rs].
    - [Maas], [MaasTee], [MaasServer]: [src/application/maas], mobility as a
      service: the data base of trips ([db.rs]); the enclave that keeps it, with the
      agreement on a key and the host's side ([maas-tee*]); the tasks of a server
      and the loop of a client ([abcperf-maas]).  Each proves what it keeps:
      [Maas] the invariant of the data base, [MaasTee] that any property the basic
      changes keep is kept by every call.  [MaasTheorems] and the end of [MaasServer]
      have the properties, [MaasExamples] a concrete system.
    - [SpliteeMath]: [math.rs] and [util.rs] of [src/splitee/splitee-crypto/src], over
      the prime fields and polynomials of MathComp.

    ** What the theorems show

    NxBFT.  Any two trusted runs of two replicas deliver prefixes of one another
    ([nx_total_order]); what is delivered is the deduplicated history of the
    committed leaders, whatever the schedule ([nx_delivers_log]); no request
    twice ([nx_exactly_once]); the replica's invariant ([nx_replica_invariant],
    [nx_recovered_invariant]); the commit rule and why a decided leader stays
    ([nx_commit_rule], [nx_decided_leader_reached], [nx_leader_agreement]); the
    coin ([nx_coin_agreement], [nx_seed_agreement], [nx_recover_roundtrip]); the
    DAG operations against graph reachability ([Dag_...]).  The hypotheses on a
    run are that the two DAGs have no two different vertices at one address,
    which the counters of the trusted component are for, that the vertices in
    recovery commits of peers, which the code adopts unchecked, are valid, that the
    replica does not recover itself ([nx_trusted_run]), and overflow checks.

    Damysus.  The trusted component signs one commitment per view and its
    accumulators are backed by a quorum ([dam_usig_unique],
    [dam_accumulate_sound], [dam_prepare_spec]); the replica's invariant, that
    its deliveries are the deduplicated transactions of the executed blocks, each
    once and after the block that justifies it, the rule by which blocks are
    executed, and that every handler returns ([dam_replica_invariant],
    [dam_delivers_log], [dam_three_chain_rule], [dam_handlers_terminate]).  The
    hypothesis on a run is [dam_trusted]: a received commitment refers to no
    later view than its own.  [dam_proposal_forgeable] shows that the signatures
    do not guarantee it, and [dam_execute_diverges] what happens without it.

    MinBFT.  Over any run, with any messages, the answers and the storage of a
    replica are those of a journal: prepares of its view, in the order of their
    counters, with messages of more than [t] replicas for the view and counter, and
    new views with the prepares of their view changes, all of them received, or sent
    in an output of the run ([mb_refines_journal]); each
    client's requests once and in order ([mb_exactly_once]); its USIG's counters
    are used without a gap ([mb_counters_sent]), so that its view changes are
    acceptable to others ([mb_view_change_acceptable]); the handlers return
    ([mb_handlers_terminate]; with overflow checks, see
    [mb_new_view_update_diverges]).  Its parts: the order enforcer against its
    specification, one message per counter in the order of the counters
    ([mb_order_enforcer]), the quorums ([mb_commit_quorum],
    [mb_checkpoint_certificate], [mb_new_view_certificate]), the state of a new
    view ([mb_new_view_prepares]), the USIG ([mb_usig_roundtrip]) and the AESC
    batcher ([mb_aesc_bounds]).  The runs are those of a replica that was not
    started for recovery and whose USIG starts at zero.  The theorems say what
    a replica did, not that two replicas did the same: agreement would need that
    the prepares of a primary are authentic, which [mb_forged_prepare_executed]
    refutes.

    The runtime.  However the tasks interleave, what is delivered and sent is
    what the protocol alone decides on the commands it was given, in its order
    ([wr_refines_protocol]); the tasks do not block each other, and at rest all is
    done where the environment keeps none waiting: the network and the application
    may make the output handler wait at any time ([wr_rest], [env_ready]), unless an
    output has more than a thousand timeouts ([wr_deadlock]); once the environment
    has closed its channels they take finitely many steps, and all three end where
    nothing keeps them waiting and no handler runs for ever ([wr_shutdown]); the list of timeouts is a map ([wr_timeout_list]).  With the
    protocols: [nx_runtime_total_order], [mb_runtime_exactly_once],
    [dam_runtime_rest], and [mb_client_timeout_starved],
    [mb_runtime_never_recovers].

    SGX.  A host that calls the exported functions in any order, with any
    pointers and bytes, gets signatures with distinct counters or views
    ([dam_tee_usig_unique], [nx_tee_counter_unique], [mb_tee_sequential]); the
    host's side returns what the automaton returns ([dam_tee_refines_automaton]);
    signatures and sealed shares survive the way ([nx_tee_sign_verify],
    [nx_tee_seal_roundtrip], [mb_tee_sign_verify]); the theorems of the protocols
    hold on the enclaves ([nx_tee_total_order], [dam_tee_replica],
    [mb_tee_replica]).  What the host or a peer can do all the same:
    [nx_tee_export_reveals_coin], [nx_tee_replace_diverges],
    [nx_tee_bad_key_crashes], [dam_tee_unknown_creator_panics].

    Clients and servers.  What a client that compares answers returns was given by
    a replica that is not faulty ([smr_bft_sound]), and it returns when enough
    correct ones answer ([smr_bft_returns]); the one that asks in turn
    returns the first response, fails when all have failed, and waits otherwise
    ([smr_fallback_returns]); clients of different workers have different numbers
    ([smr_client_ids_disjoint]).  At a replica, replies and requests match whatever
    happens, and a request is answered in either order of request and response as
    long as the task of the responses runs ([web_replies_match], [web_answered]);
    requests of one client can be passed on out of order
    ([web_requests_reordered]), and the greatest request number ends that task
    ([web_greatest_number_stops_responses]).

    Mobility as a service.  Whatever the host of an enclave does, its data base
    keeps its invariant ([maas_enclave_invariant]); servers that are ready use one
    key, over a network that may lose, repeat and reorder ([maas_servers_agree],
    [maas_key_agreement]); a request other than a [PreRegister] takes effect as
    the client sent it and is answered to it, if encryption and the calls of the host
    do not fail ([maas_end_to_end]); one log gives one data base
    ([maas_replicas_agree]); the requests of the emulated clients are all accepted
    ([maas_clients_accepted]).

    Splitee.  Combining shares gives the secret up to a sign ([splitee_combine]); the
    coefficients from tables are the direct ones for consecutive parties
    ([splitee_optimized_coefficients]) and not otherwise ([splitee_gap_wrong]).

    Errors.  Inputs on which a replica panics, stops or is misled:
    [nx_failed_toss_blocks], [nx_recovered_commit_panics],
    [nx_round_zero_panics], [nx_vertex_request_panics],
    [dam_conflicting_block_panics], [dam_execute_diverges],
    [Dag_has_path_stale], [mb_forged_prepare_executed],
    [mb_new_view_unchecked], [mb_log_hole_accepted],
    [mb_batch_signature_reused], [mb_unknown_origin_panics],
    [mb_new_view_drops_prepare], [mb_new_view_update_drops],
    [mb_new_view_update_diverges], [mb_commit_counts_counters],
    [mb_newer_checkpoint_rejected], [mb_ema_update_panics],
    [mb_aesc_update_panics], [smr_bft_one_liar], [web_duplicate_response_lost],
    [web_requests_reordered], [web_greatest_number_stops_responses].

    ** Fuel and bounds

    The searches of the DAG run on [search_fuel], one more than vertices plus
    edges, the walk of [try_execute_from] on the length of the block store, the
    round transitions of Damysus on the number of stored blocks and commitments,
    the recovery of the coin on the number of tosses to make up; each is proved
    to be enough.  The nesting of reflection (a replica processing its own
    messages) is a parameter of the entry points; [nx_reflection_fuel] shows that
    more of it does not change a result.  In MinBFT [process_usig_message]
    recurses once, from a new view to its view changes, and is unfolded;
    [process_peer_message] is nested twice at most; the loop of
    [update_in_new_view] runs on the difference of the counters ([update_fuel]); the
    loops over a heap run on its length.
    Theorems that need checked arithmetic assume [overflow_checks = true], the
    dev, test and prerelease profiles; the release profile has them off.

    ** Not modelled

    Of MinBFT, [BackoffMultiplier], which is not used, and
    [request_processor/request_batcher.rs], which is not compiled, are left out.
    The rest of [src/abcperf] (orchestrator, workers, connections, load generator,
    statistics), [abcperf-debug] and [abcperf-noop] move messages over sockets with
    tokio, start processes, compute with [f64] or read system data; [netem],
    [remote-attestation] and the build helpers call external programs and services.
    The rest of [src/splitee] is unfinished: it rests on functions that are
    [unimplemented!()], and on curve points of crates that are not part of the
    sources.  Of the servers of the MaaS application the shutdown is left out, of the
    clients the measured times.  Failures of [sgx_crypto] on which Damysus and
    MinBFT unwrap, log macros, [Debug] and [Display] output beyond what is hashed
    are left out. *)

From Stdlib Require Import ZArith Lia.
From stdpp Require Import sorting base list gmap sets numbers option relations.

(** ** Running Rust code

    A Rust function either returns, or panics ([assert!], [unwrap], an index
    out of range, arithmetic overflow where it is checked), or, for the loops
    and recursions that are modelled with fuel, has not returned yet. *)

Inductive Outcome (A : Type) : Type :=
| Val (a : A)
| Panic
| NoFuel.
Arguments Val {A} a.
Arguments Panic {A}.
Arguments NoFuel {A}.

#[export] Instance Outcome_ret : MRet Outcome := @Val.
#[export] Instance Outcome_bind : MBind Outcome := fun A B f m =>
  match m with
  | Val a => f a
  | Panic => Panic
  | NoFuel => NoFuel
  end.
#[export] Instance Outcome_fmap : FMap Outcome := fun A B f m =>
  match m with
  | Val a => Val (f a)
  | Panic => Panic
  | NoFuel => NoFuel
  end.

(** [Result<T, E>] of the standard library, an ordinary value. *)
Inductive Result (T E : Type) : Type :=
| Ok (t : T)
| Err (e : E).
Arguments Ok {T E} t.
Arguments Err {T E} e.

(** [assert!(b)] *)
Definition rust_assert (b : bool) : Outcome () := if b then Val () else Panic.

(** [o.unwrap()] / [o.expect(..)] *)
Definition unwrap {A} (o : option A) : Outcome A :=
  match o with Some a => Val a | None => Panic end.

(** ** Build profile

    The workspace's release profile switches [overflow-checks] and
    [debug-assertions] off, the dev, test and prerelease profiles leave them
    on.  Every operation whose behaviour depends on the profile takes it as an
    implicit argument, so that a theorem says for which profiles it holds. *)

Class Profile := {
  overflow_checks : bool;
  debug_assertions : bool;
}.

Definition release : Profile := {| overflow_checks := false; debug_assertions := false |}.
Definition prerelease : Profile := {| overflow_checks := true; debug_assertions := true |}.

(** ** u64 *)

Abbreviation u64 := N (only parsing).

Definition u64_max : N := (2 ^ 64 - 1)%N.
Definition is_u64 (a : N) : Prop := (a < 2 ^ 64)%N.

Section u64.
  Context {P : Profile}.
  Local Open Scope N_scope.

Definition u64_add (a b : N) : Outcome N :=
  if a + b <? 2 ^ 64 then Val (a + b)
  else if overflow_checks then Panic else Val ((a + b) mod 2 ^ 64).

Definition u64_sub (a b : N) : Outcome N :=
  if b <=? a then Val (a - b)
  else if overflow_checks then Panic else Val (a + 2 ^ 64 - b).

Definition u64_mul (a b : N) : Outcome N :=
  if a * b <? 2 ^ 64 then Val (a * b)
  else if overflow_checks then Panic else Val ((a * b) mod 2 ^ 64).

Definition debug_assert (b : bool) : Outcome () :=
  if debug_assertions then rust_assert b else Val ().

Lemma u64_add_Val a b : a + b < 2 ^ 64 -> u64_add a b = Val (a + b).
Proof. intros H. unfold u64_add. by rewrite (proj2 (N.ltb_lt _ _) H). Qed.

Lemma u64_sub_Val a b : b <= a -> u64_sub a b = Val (a - b).
Proof. intros H. unfold u64_sub. by rewrite (proj2 (N.leb_le _ _) H). Qed.

Lemma u64_mul_Val a b : a * b < 2 ^ 64 -> u64_mul a b = Val (a * b).
Proof. intros H. unfold u64_mul. by rewrite (proj2 (N.ltb_lt _ _) H). Qed.

End u64.

Definition checked_add (a b : N) : option N :=
  if (a + b <? 2 ^ 64)%N then Some (a + b)%N else None.
Definition checked_sub (a b : N) : option N :=
  if (b <=? a)%N then Some (a - b)%N else None.

(** ** Slices and vectors indexed by u64 *)

Definition nth_u64 {A} (l : list A) (i : N) : option A :=
  if (i <? N.of_nat (length l))%N then l !! N.to_nat i else None.

(** [l[i]] *)
Definition index_u64 {A} (l : list A) (i : N) : Outcome A := unwrap (nth_u64 l i).

(** [l[i] = a] *)
Definition assign_u64 {A} (l : list A) (i : N) (a : A) : Outcome (list A) :=
  if (i <? N.of_nat (length l))%N then Val (<[N.to_nat i := a]> l) else Panic.

(** The half-open range [a..b]. *)
Definition range (a b : N) : list N :=
  (fun k => (a + N.of_nat k)%N) <$> seq 0 (N.to_nat (b - a)).
(** The closed range [a..=b]. *)
Definition range_incl (a b : N) : list N := range a (b + 1).

(** ** Orders

    [Ord] of the standard library for the key types of the program: a
    comparison function with the laws the trait documents. *)

Class Ord (K : Type) := ord_cmp : K -> K -> comparison.

Definition ord_ltb {K} `{Ord K} (a b : K) : bool :=
  match ord_cmp a b with Lt => true | _ => false end.
Definition ord_leb {K} `{Ord K} (a b : K) : bool :=
  match ord_cmp a b with Gt => false | _ => true end.

Class OrdLaws (K : Type) `{Ord K} : Prop := {
  ord_eq : forall a b : K, ord_cmp a b = Eq <-> a = b;
  ord_antisym : forall a b : K, ord_cmp b a = CompOpp (ord_cmp a b);
  ord_trans : forall a b c : K, ord_cmp a b = Lt -> ord_cmp b c = Lt -> ord_cmp a c = Lt;
}.

#[export] Instance N_Ord : Ord N := N.compare.
#[export] Instance N_OrdLaws : OrdLaws N.
Proof.
  split; unfold ord_cmp, N_Ord.
  - apply N.compare_eq_iff.
  - intros. apply N.compare_antisym.
  - intros a b c. rewrite !N.compare_lt_iff. lia.
Qed.

(** The derived lexicographic order of a pair. *)
#[export] Instance prod_Ord {A B} `{Ord A, Ord B} : Ord (A * B) := fun x y =>
  match ord_cmp x.1 y.1 with
  | Eq => ord_cmp x.2 y.2
  | c => c
  end.

Section prod_ord.
  Context {A B : Type} `{OrdLaws A, OrdLaws B}.

Lemma prod_cmp (x y : A * B) :
  ord_cmp x y = match ord_cmp x.1 y.1 with Eq => ord_cmp x.2 y.2 | c => c end.
Proof. done. Qed.

#[export] Instance prod_OrdLaws : OrdLaws (A * B).
Proof.
  split.
  - intros [a1 b1] [a2 b2]. rewrite prod_cmp; simpl.
    destruct (ord_cmp a1 a2) eqn:E.
    + apply ord_eq in E as ->. rewrite ord_eq. split; congruence.
    + split; [done|]. intros [= -> ->].
      by rewrite (proj2 (ord_eq a2 a2) eq_refl) in E.
    + split; [done|]. intros [= -> ->].
      by rewrite (proj2 (ord_eq a2 a2) eq_refl) in E.
  - intros [a1 b1] [a2 b2]. rewrite !prod_cmp; simpl. rewrite (ord_antisym a1 a2).
    destruct (ord_cmp a1 a2); simpl; [apply ord_antisym|done..].
  - intros [a1 b1] [a2 b2] [a3 b3]. rewrite !prod_cmp; simpl.
    destruct (ord_cmp a1 a2) eqn:E12; [| |done].
    + apply ord_eq in E12 as ->. destruct (ord_cmp a2 a3); [|done..]. apply ord_trans.
    + destruct (ord_cmp a2 a3) eqn:E23; [| |done].
      * apply ord_eq in E23 as ->. by rewrite E12.
      * by rewrite (ord_trans _ _ _ E12 E23).
Qed.
End prod_ord.

Section ord.
  Context {K : Type} `{OrdLaws K}.

Lemma ord_cmp_refl (a : K) : ord_cmp a a = Eq.
Proof. by apply ord_eq. Qed.

Lemma ord_leb_refl (a : K) : ord_leb a a = true.
Proof. unfold ord_leb. by rewrite ord_cmp_refl. Qed.

Lemma ord_leb_total (a b : K) : ord_leb a b = false -> ord_leb b a = true.
Proof.
  unfold ord_leb. rewrite (ord_antisym a b).
  by destruct (ord_cmp a b).
Qed.

Lemma ord_leb_trans (a b c : K) : ord_leb a b = true -> ord_leb b c = true -> ord_leb a c = true.
Proof.
  unfold ord_leb. destruct (ord_cmp a b) eqn:E1; try done.
  - by apply ord_eq in E1 as ->.
  - destruct (ord_cmp b c) eqn:E2; try done.
    + apply ord_eq in E2 as ->. by rewrite E1.
    + by rewrite (ord_trans _ _ _ E1 E2).
Qed.

Lemma ord_leb_antisym (a b : K) : ord_leb a b = true -> ord_leb b a = true -> a = b.
Proof.
  unfold ord_leb. rewrite (ord_antisym a b).
  destruct (ord_cmp a b) eqn:E; try done. by apply ord_eq in E.
Qed.

Lemma ord_ltb_leb (a b : K) : ord_ltb a b = negb (ord_leb b a).
Proof.
  unfold ord_leb, ord_ltb. rewrite (ord_antisym a b).
  by destruct (ord_cmp a b).
Qed.
End ord.

(** ** Functional record update

    [r .[ f := v ]] is the record [r] with field [f] set to [v].  [Eta R]
    rebuilds a record from its projections; the setter of a field is obtained
    from it by abstracting over that field's projection. *)

Class Eta (R : Type) := eta_expand : R -> R.
Class Setter {R T : Type} (f : R -> T) := set_field : (T -> T) -> R -> R.
Arguments set_field {R T} f {_} _ _ /.

Ltac derive_setter :=
  match goal with
  | |- @Setter ?R ?T ?f =>
      let inst := constr:(_ : Eta R) in
      let g := fresh "g" in
      let r := fresh "r" in
      unfold Setter; intros g r;
      let body := eval hnf in (@eta_expand R inst r) in
      let body := eval pattern (f r) in body in
      match body with
      | ?F _ => let t := eval cbv beta in (F (g (f r))) in exact t
      end
  end.

#[export] Hint Extern 1 (Setter _) => derive_setter : typeclass_instances.

Declare Scope update_scope.
Open Scope update_scope.
Notation "r .[ f := v ]" := (set_field f (fun _ => v) r)
  (at level 1, left associativity, f at level 9, v at level 200,
   format "r .[ f  :=  v ]") : update_scope.
Notation "r .[ f ::= g ]" := (set_field f g r)
  (at level 1, left associativity, f at level 9, g at level 200,
   format "r .[ f  ::=  g ]") : update_scope.

(** ** Loops over a list

    [for x in xs { body }] with the loop's state passed explicitly. *)

Fixpoint for_each {A S} (xs : list A) (s : S) (body : S -> A -> Outcome S) : Outcome S :=
  match xs with
  | [] => Val s
  | x :: xs => s ← body s x; for_each xs s body
  end.

Lemma for_each_app {A S} (xs ys : list A) (s : S) body :
  for_each (xs ++ ys) s body = s ← for_each xs s body; for_each ys s body.
Proof.
  revert s. induction xs as [|x xs IH]; intros s; [done|]. simpl.
  destruct (body s x); simpl; [apply IH|done..].
Qed.

(** A loop whose body always succeeds and is the pure function [f]. *)
Lemma for_each_pure {A S} (f : S -> A -> S) body (xs : list A) (s : S) (I : S -> Prop) :
  (forall s x, x ∈ xs -> I s -> body s x = Val (f s x) /\ I (f s x)) ->
  I s -> for_each xs s body = Val (foldl f s xs) /\ I (foldl f s xs).
Proof.
  revert s. induction xs as [|x xs IH]; intros s Hb Hs; [done|]. simpl.
  destruct (Hb s x) as [-> Hs']; [set_solver|done|]. simpl. apply IH; [|done].
  intros s' y Hy. apply Hb. set_solver.
Qed.

(** ** Methods with a mutable receiver

    [St S A] is the meaning of a method of [S] with result type [A]: it reads
    and updates the state and may panic. *)

Definition St (S A : Type) : Type := S -> Outcome (A * S).

#[export] Instance St_ret S : MRet (St S) := fun A a s => Val (a, s).
#[export] Instance St_bind S : MBind (St S) := fun A B f m s =>
  match m s with
  | Val (a, s) => f a s
  | Panic => Panic
  | NoFuel => NoFuel
  end.

(** A computation that does not touch the state. *)
Definition lift {S A} (o : Outcome A) : St S A := fun s => a ← o; Val (a, s).
(** Reading a field of [self]. *)
Definition self {S A} (f : S -> A) : St S A := fun s => Val (f s, s).
(** Updating [self]. *)
Definition modify {S} (f : S -> S) : St S () := fun s => Val ((), f s).
(** Reading with a computation that may panic. *)
Definition inspect {S A} (f : S -> Outcome A) : St S A := fun s => a ← f s; Val (a, s).
(** Updating with a computation that may panic. *)
Definition update {S} (f : S -> Outcome S) : St S () := fun s => s ← f s; Val ((), s).
(** Running a method of a field of [self]. *)
Definition zoom {S T A} (get : S -> T) (put : S -> T -> S) (m : St T A) : St S A := fun s =>
  r ← m (get s); Val (r.1, put s r.2).

(** [self.f = v] *)
Notation "f <~ v" := (modify (fun s => s.[f := v])) (at level 90, v at level 90) : update_scope.
(** [self.f = g(self.f)] *)
Notation "f <~> g" := (modify (fun s => s.[f ::= g])) (at level 90, g at level 90) : update_scope.

(** [for x in xs { body }] *)
Fixpoint st_for {S A} (xs : list A) (body : A -> St S ()) : St S () :=
  match xs with
  | [] => mret ()
  | x :: xs => body x ;; st_for xs body
  end.

(** ** Facts about indexing *)

Lemma nth_u64_lookup {A} (l : list A) i : nth_u64 l i = l !! N.to_nat i.
Proof.
  unfold nth_u64. destruct (N.ltb_spec i (N.of_nat (length l))) as [Hi|Hi]; [done|].
  symmetry. apply lookup_ge_None. lia.
Qed.

Lemma index_u64_Val {A} (l : list A) i a : l !! N.to_nat i = Some a -> index_u64 l i = Val a.
Proof. intros Hl. unfold index_u64. by rewrite nth_u64_lookup, Hl. Qed.

Lemma assign_u64_Val {A} (l : list A) i a :
  (i < N.of_nat (length l))%N -> assign_u64 l i a = Val (<[N.to_nat i := a]> l).
Proof. intros Hi. unfold assign_u64. by rewrite (proj2 (N.ltb_lt _ _) Hi). Qed.

Lemma length_range a b : length (range a b) = N.to_nat (b - a).
Proof. unfold range. by rewrite length_fmap, length_seq. Qed.

Lemma omap_id_insert {A} (l : list (option A)) i a :
  l !! i = Some None -> length (omap id (<[i := Some a]> l)) = S (length (omap id l)).
Proof.
  revert i. induction l as [|o l IH]; intros [|i] Hi; simplify_eq/=; [done|].
  destruct o; simpl; by rewrite IH.
Qed.

Lemma omap_id_update {A} (l : list (option A)) i a b :
  l !! i = Some (Some a) -> length (omap id (<[i := Some b]> l)) = length (omap id l).
Proof.
  revert i. induction l as [|o l IH]; intros [|i] Hi; simplify_eq/=; [done|].
  destruct o; simpl; by rewrite IH.
Qed.

Lemma length_omap_id_le {A} (l : list (option A)) : length (omap id l) <= length l.
Proof. induction l as [|[a|] l IH]; csimpl; lia. Qed.

Lemma length_omap_id_lt {A} (l : list (option A)) i :
  l !! i = Some None -> length (omap id l) < length l.
Proof.
  revert i. induction l as [|o l IH]; intros [|i] Hi; simplify_eq/=.
  - pose proof (length_omap_id_le l). lia.
  - apply IH in Hi. destruct o; simpl; lia.
Qed.

Lemma list_sum_insert {A} (w : A -> nat) (l : list A) i x y :
  l !! i = Some x -> list_sum (w <$> <[i := y]> l) + w x = list_sum (w <$> l) + w y.
Proof.
  revert i. induction l as [|z l IH]; intros [|i] Hi; simplify_eq/=; [lia|].
  apply IH in Hi. lia.
Qed.

Lemma list_sum_le {A} (w w' : A -> nat) (l : list A) :
  (forall x, w x <= w' x) -> list_sum (w <$> l) <= list_sum (w' <$> l).
Proof. intros Hw. induction l as [|x l IH]; csimpl; [lia|]. specialize (Hw x). lia. Qed.

(** A set that contains the start and is closed under a relation contains
    everything reachable. *)
Lemma rtc_closed {A} (R : relation A) (X : A -> Prop) x y :
  (forall a b, X a -> R a b -> X b) -> X x -> rtc R x y -> X y.
Proof. intros Hcl Hx Hr. induction Hr; eauto. Qed.

Lemma rtc_equiv {A} (R S : relation A) x y :
  (forall a b, R a b <-> S a b) -> rtc R x y <-> rtc S x y.
Proof.
  intros Heq. split; intros Hr; (eapply rtc_congruence with (f := id); [|exact Hr]); firstorder.
Qed.

(** Collecting, in order, the images that pass a test on the front of a list. *)
Lemma elem_of_foldl_push {A E} (p : A -> bool) (f : E -> A) (es : list E) (s : list A) b :
  b ∈ foldl (fun s e => if p (f e) then f e :: s else s) s es
  <-> b ∈ s \/ exists e, e ∈ es /\ b = f e /\ p b = true.
Proof.
  revert s. induction es as [|e es IH]; intros s; simpl.
  - split; [by left|]. intros [?|(e & He & _)]; [done|]. by apply not_elem_of_nil in He.
  - rewrite IH. destruct (p (f e)) eqn:Hp; set_unfold; naive_solver congruence.
Qed.

Lemma length_foldl_push {A E} (p : A -> bool) (f : E -> A) (es : list E) (s : list A) :
  length (foldl (fun s e => if p (f e) then f e :: s else s) s es) <= length es + length s.
Proof.
  revert s. induction es as [|e es IH]; intros s; simpl; [lia|].
  etrans; [apply IH|]. destruct (p (f e)); simpl; lia.
Qed.

Lemma foldl_push_ext {A E} (p q : A -> bool) (f : E -> A) (es : list E) (s : list A) :
  (forall e, e ∈ es -> p (f e) = q (f e)) ->
  foldl (fun s e => if p (f e) then f e :: s else s) s es
  = foldl (fun s e => if q (f e) then f e :: s else s) s es.
Proof.
  revert s. induction es as [|e es IH]; intros s Hpq; [done|]. simpl.
  rewrite (Hpq e) by set_solver. apply IH. set_solver.
Qed.

(** The same for any way of adding one element to a list. *)
Lemma elem_of_foldl_add {A E} (p : A -> bool) (f : E -> A) (add : E -> list A -> list A)
    (es : list E) (s : list A) b :
  (forall e s b, b ∈ add e s <-> b = f e \/ b ∈ s) ->
  b ∈ foldl (fun s e => if p (f e) then add e s else s) s es
  <-> b ∈ s \/ exists e, e ∈ es /\ b = f e /\ p b = true.
Proof.
  intros Hadd. revert s. induction es as [|e es IH]; intros s; simpl.
  - split; [by left|]. intros [?|(e & He & _)]; [done|]. by apply not_elem_of_nil in He.
  - rewrite IH. destruct (p (f e)) eqn:Hp; rewrite ?Hadd; set_unfold; naive_solver congruence.
Qed.

Lemma length_foldl_add {A E} (p : A -> bool) (f : E -> A) (add : E -> list A -> list A)
    (es : list E) (s : list A) :
  (forall e s, length (add e s) = S (length s)) ->
  length (foldl (fun s e => if p (f e) then add e s else s) s es) <= length es + length s.
Proof.
  intros Hadd. revert s. induction es as [|e es IH]; intros s; simpl; [lia|].
  etrans; [apply IH|]. destruct (p (f e)); rewrite ?Hadd; lia.
Qed.

Lemma size_list_to_set_le {A} `{Countable A} (l : list A) :
  size (list_to_set l : gset A) <= length l.
Proof.
  induction l as [|x l IH]; [done|]. cbn [list_to_set length].
  pose proof (size_union_alt ({[x]} : gset A) (list_to_set l)) as Hu. rewrite Hu, size_singleton.
  assert (size ((list_to_set l : gset A) ∖ {[x]}) <= size (list_to_set l : gset A))
    by (apply subseteq_size; set_solver). lia.
Qed.

Lemma size_difference_insert {A} `{Countable A} (X Y : gset A) x :
  x ∈ X -> x ∉ Y -> size (X ∖ Y) = S (size (X ∖ ({[x]} ∪ Y))).
Proof.
  intros Hx Hy. assert (X ∖ Y = {[x]} ∪ (X ∖ ({[x]} ∪ Y))) as Heq.
  { apply set_eq. intros c. destruct (decide (c = x)); set_solver. }
  rewrite Heq at 1. rewrite size_union by set_solver. by rewrite size_singleton.
Qed.

(** A list filtered by [f] has no duplicates when [f] tells positions apart. *)
Lemma NoDup_omap_lookup {A B} (f : A -> option B) (l : list A) :
  (forall i j x y b, l !! i = Some x -> l !! j = Some y -> f x = Some b -> f y = Some b -> i = j) ->
  NoDup (omap f l).
Proof.
  induction l as [|x l IH]; intros Hf; csimpl; [constructor|].
  assert (NoDup (omap f l)) as Hl.
  { apply IH. intros i j y z b Hi Hj Hy Hz. specialize (Hf (S i) (S j) y z b Hi Hj Hy Hz). lia. }
  destruct (f x) as [b|] eqn:Hx; [|done]. apply list.NoDup_cons. split; [|done].
  rewrite list_elem_of_omap. intros (y & Hy & Hb). apply list_elem_of_lookup in Hy as [j Hj].
  specialize (Hf 0 (S j) x y b eq_refl Hj Hx Hb). lia.
Qed.

(** ** Running methods *)

Lemma st_bind_Val {S A B} (m : St S A) (f : A -> St S B) s a s' :
  m s = Val (a, s') -> (m ≫= f) s = f a s'.
Proof. intros Hm. unfold mbind, St_bind. by rewrite Hm. Qed.

Lemma lift_Val {S A} (o : Outcome A) (s : S) a : o = Val a -> lift o s = Val (a, s).
Proof. by intros ->. Qed.

Lemma inspect_Val {S A} (f : S -> Outcome A) s a : f s = Val a -> inspect f s = Val (a, s).
Proof. intros Hf. unfold inspect. by rewrite Hf. Qed.

Lemma update_Val {S} (f : S -> Outcome S) s s' : f s = Val s' -> update f s = Val ((), s').
Proof. intros Hf. unfold update. by rewrite Hf. Qed.

Lemma zoom_Val {S T A} (get : S -> T) put (m : St T A) s a t :
  m (get s) = Val (a, t) -> zoom get put m s = Val (a, put s t).
Proof. intros Hm. unfold zoom. by rewrite Hm. Qed.

(** The steps of a run that returns. *)
Lemma st_bind_inv {S A B} (m : St S A) (f : A -> St S B) s r :
  (m ≫= f) s = Val r -> exists a s', m s = Val (a, s') /\ f a s' = Val r.
Proof. unfold mbind, St_bind. destruct (m s) as [[a s']| |]; try done. eauto. Qed.

Lemma bind_inspect_inv {S A B} (g : S -> Outcome A) (f : A -> St S B) s r :
  (inspect g ≫= f) s = Val r -> exists a, g s = Val a /\ f a s = Val r.
Proof. unfold mbind, St_bind, inspect. destruct (g s) as [a| |]; try done. eauto. Qed.

Lemma bind_lift_inv {S A B} (o : Outcome A) (f : A -> St S B) s r :
  (lift o ≫= f) s = Val r -> exists a, o = Val a /\ f a s = Val r.
Proof. unfold mbind, St_bind, lift. destruct o as [a| |]; try done. eauto. Qed.

Lemma bind_update_inv {S B} (g : S -> Outcome S) (f : () -> St S B) s r :
  (update g ≫= f) s = Val r -> exists s', g s = Val s' /\ f () s' = Val r.
Proof. unfold mbind, St_bind, update. destruct (g s) as [a| |]; try done. eauto. Qed.

Lemma outcome_bind_inv {A B} (o : Outcome A) (f : A -> Outcome B) b :
  (o ≫= f) = Val b -> exists a, o = Val a /\ f a = Val b.
Proof. destruct o; try done. simpl. eauto. Qed.

Lemma assert_inv {B} (b : bool) (f : () -> Outcome B) r :
  (rust_assert b ≫= f) = Val r -> b = true /\ f () = Val r.
Proof. by destruct b. Qed.

(** ** What a method does to the state

    [st_rel R m]: every run of [m] that returns relates the state before and
    after by [R].  The lemmas below reduce it to the updates of [m]. *)

Definition st_rel {S A} (R : relation S) (m : St S A) : Prop :=
  forall s a s', m s = Val (a, s') -> R s s'.

Create HintDb st_rel.

Lemma st_rel_apply {S A} (R : relation S) (m : St S A) s a s' : m s = Val (a, s') -> st_rel R m -> R s s'.
Proof. intros Hm HR. by eapply HR. Qed.

Section st_rel.
  Context {S : Type} (R : relation S) `{!PreOrder R}.

Lemma st_rel_ret {A} (a : A) : st_rel R (mret a).
Proof. intros s x s' [= _ <-]. reflexivity. Qed.

Lemma st_rel_bind {A B} (m : St S A) (f : A -> St S B) :
  st_rel R m -> (forall a, st_rel R (f a)) -> st_rel R (m ≫= f).
Proof.
  intros Hm Hf s b s' Hr. unfold mbind, St_bind in Hr. destruct (m s) as [[a s1]| |] eqn:E; try done.
  transitivity s1; [by eapply Hm|by eapply Hf].
Qed.

Lemma st_rel_lift {A} (o : Outcome A) : st_rel R (lift o).
Proof. intros s x s'. unfold lift. destruct o; simpl; try done. intros [= _ <-]. reflexivity. Qed.

Lemma st_rel_self {A} (f : S -> A) : st_rel R (self f).
Proof. intros s x s' [= _ <-]. reflexivity. Qed.

Lemma st_rel_inspect {A} (f : S -> Outcome A) : st_rel R (inspect f).
Proof. intros s x s'. unfold inspect. destruct (f s); simpl; try done. intros [= _ <-]. reflexivity. Qed.

Lemma st_rel_modify (f : S -> S) : (forall s, R s (f s)) -> st_rel R (modify f).
Proof. intros Hf s x s' [= _ <-]. apply Hf. Qed.

Lemma st_rel_update (f : S -> Outcome S) : (forall s s', f s = Val s' -> R s s') -> st_rel R (update f).
Proof.
  intros Hf s x s'. unfold update. destruct (f s) eqn:E; simpl; try done. intros [= _ <-]. by apply Hf.
Qed.

Lemma st_rel_zoom {T A} (get : S -> T) put (m : St T A) :
  (forall s a t, m (get s) = Val (a, t) -> R s (put s t)) -> st_rel R (zoom get put m).
Proof.
  intros Hm s x s'. unfold zoom. destruct (m (get s)) as [[a t]| |] eqn:E; simpl; try done.
  intros [= _ <-]. by eapply Hm.
Qed.

Lemma st_rel_if {A} (b : bool) (m1 m2 : St S A) :
  st_rel R m1 -> st_rel R m2 -> st_rel R (if b then m1 else m2).
Proof. by destruct b. Qed.

Lemma st_rel_for {A} (xs : list A) (body : A -> St S ()) :
  (forall x, st_rel R (body x)) -> st_rel R (st_for xs body).
Proof.
  intros Hb. induction xs as [|x xs IH]; simpl; [apply st_rel_ret|].
  by apply st_rel_bind.
Qed.
End st_rel.

#[export] Hint Resolve st_rel_ret st_rel_lift st_rel_self st_rel_inspect st_rel_for st_rel_if : st_rel.

(** ** Evaluating a test on a result *)

Definition holds {A} (o : Outcome A) (test : A -> bool) : bool :=
  match o with Val a => test a | _ => false end.

Lemma holds_Val {A} (o : Outcome A) test : holds o test = true -> exists a, o = Val a /\ test a = true.
Proof. destruct o; simpl; [eauto|done|done]. Qed.
