(* ===== verification/Ids.v ===== *)
(** * Identifiers, replica sets and replica maps

    Models [src/other/shared-ids] ([id_type!], [IdIter], [IdMap]) and
    [src/other/id-set] ([IdSet]).  Every type declared with [id_type!] is a
    newtype around [u64] and is modelled by the number itself.

    The bit set of the [bit-set] crate is not part of the repository: it is the
    parameter [BitSet], with its documented behaviour in [BitSetLaws].  The
    instance on binary numbers at the end of the file shows that the laws can
    hold and is what the concrete examples run on. *)

From Stdlib Require Import ZArith Lia Sorting.
From stdpp Require Import sorting base list gmap sets numbers option.
From S2P Require Import Prelude.

Abbreviation ReplicaId := N (only parsing).
Abbreviation ClientId := N (only parsing).
Abbreviation RequestId := N (only parsing).

(** ** [IdType] arithmetic *)

Section id_type.
  Context {P : Profile}.

Definition from_u64 (id : N) : N := id.
Definition as_u64 (id : N) : N := id.
Definition id_add (id rhs : N) : Outcome N := u64_add (as_u64 id) rhs.
Definition id_add_assign (id rhs : N) : Outcome N := u64_add id rhs.
Definition id_sub (id rhs : N) : Outcome N := u64_sub (as_u64 id) rhs.
Definition id_sub_assign (id rhs : N) : Outcome N := u64_sub id rhs.
Definition id_diff (id rhs : N) : Outcome N := u64_sub (as_u64 id) (as_u64 rhs).
Definition id_checked_add (id rhs : N) : option N := from_u64 <$> checked_add id rhs.
Definition id_checked_sub (id rhs : N) : option N := from_u64 <$> checked_sub id rhs.
End id_type.

(** [u64::to_le_bytes], the encoding [Hashbar for id_type!] feeds to a hasher. *)
Fixpoint le_bytes (k : nat) (a : N) : list N :=
  match k with
  | O => []
  | S k => (a mod 256)%N :: le_bytes k (a / 256)%N
  end.
Definition to_le_bytes (a : N) : list N := le_bytes 8 a.

Fixpoint of_le_bytes (bs : list N) : N :=
  match bs with
  | [] => 0
  | b :: bs => b + 256 * of_le_bytes bs
  end%N.

Lemma of_le_bytes_le_bytes k a : of_le_bytes (le_bytes k a) = (a mod 256 ^ N.of_nat k)%N.
Proof.
  revert a. induction k as [|k IH]; intros a; cbn [le_bytes of_le_bytes].
  - by rewrite N.mod_1_r.
  - rewrite IH, Nat2N.inj_succ, N.pow_succ_r'.
    rewrite N.Div0.mod_mul_r. done.
Qed.

Lemma length_le_bytes k a : length (le_bytes k a) = k.
Proof. revert a; induction k; intros a; simpl; auto. Qed.

Lemma to_le_bytes_inj a b : is_u64 a -> is_u64 b -> to_le_bytes a = to_le_bytes b -> a = b.
Proof.
  intros Ha Hb H. apply (f_equal of_le_bytes) in H. unfold to_le_bytes in H.
  rewrite !of_le_bytes_le_bytes in H. unfold is_u64 in *.
  rewrite !N.mod_small in H by (change (256 ^ N.of_nat 8)%N with (2 ^ 64)%N; lia). done.
Qed.

(** ** Hashing

    [Hashbar::hash] feeds a value to a hasher as bytes: [hash_bytes] is the list
    of them.  The digests of the crates [sha2] and [blake2] are parameters. *)

Class Hashbar (T : Type) := hash_bytes : T -> list N.
Class Digests := {
  sha256 : list N -> list N;
  blake2b512 : list N -> list N;
}.

(** ** [IdIter] *)

(** [next] returns the current id and advances, or returns [None] (leaving
    the state alone) when the id after it would not fit. *)
Definition IdIter_next (next : N) : option N * N :=
  let ret := next in
  match id_checked_add next 1 with
  | Some next' => (Some ret, next')
  | None => (None, next)
  end.

(** [IdIter.zip(xs)] from a given position of the id iterator: the id side is
    asked first, and the pairing stops with the first side that ends. *)
Fixpoint IdIter_zip {T} (next : N) (xs : list T) : list (N * T) :=
  match IdIter_next next with
  | (Some i, next') =>
      match xs with
      | [] => []
      | x :: xs => (i, x) :: IdIter_zip next' xs
      end
  | (None, _) => []
  end.

(** ** [IdMap] *)

Section IdMap.
  Context {T : Type}.

Definition IdMap_new (dflt : T) (size : N) : list T := (fun _ => dflt) <$> range 0 size.
Definition IdMap_iter (m : list T) : list (N * T) := IdIter_zip 0 m.
Definition IdMap_index (m : list T) (i : N) : Outcome T := index_u64 m i.
Definition IdMap_index_mut (m : list T) (i : N) (t : T) : Outcome (list T) := assign_u64 m i t.
End IdMap.

Section IdMap_option.
  Context {T : Type}.

Definition IdMap_iter_some (m : list (option T)) : list (N * T) :=
  omap (fun '(id, o) => (fun t => (id, t)) <$> o) (IdMap_iter m).
Definition IdMap_values_some (m : list (option T)) : list T := omap id m.
Definition IdMap_keys_some (m : list (option T)) : list N := (IdMap_iter_some m).*1.
Definition IdMap_clear_some (m : list (option T)) : list (option T) := (fun _ => None) <$> m.

(** [drain_lazy_some], consumed to its end: the pairs it yields and the map it leaves. *)
Definition IdMap_drain_lazy_some (m : list (option T)) : list (N * T) * list (option T) :=
  (IdMap_iter_some m,
   (fun '(k, o) => if (N.of_nat k <? u64_max)%N then None else o) <$> zip (seq 0 (length m)) m).
End IdMap_option.

Lemma IdIter_zip_elem {T} next (xs : list T) i x : (i, x) ∈ IdIter_zip next xs -> x ∈ xs.
Proof.
  revert next. induction xs as [|y xs IH]; intros next; simpl;
    destruct (IdIter_next next) as [[k|] next']; try (by intros ?%not_elem_of_nil).
  intros [[= -> ->]|Hin]%elem_of_cons; [set_solver|]. apply elem_of_cons. right. by eapply IH.
Qed.

Lemma IdMap_drain_elem {T} (m : list (option T)) :
  (forall x, x ∈ (IdMap_drain_lazy_some m).1.*2 -> Some x ∈ m)
  /\ (forall x, Some x ∈ (IdMap_drain_lazy_some m).2 -> Some x ∈ m).
Proof.
  split; intros x; simpl.
  - intros ([i y] & -> & Hy)%list_elem_of_fmap. unfold IdMap_iter_some in Hy.
    apply list_elem_of_omap in Hy as ([j [z|]] & Hz & Heq); simplify_eq/=.
    by apply IdIter_zip_elem in Hz.
  - intros ([k o] & Ho & Hin)%list_elem_of_fmap. destruct (_ <? _)%N; [done|]. subst o.
    by apply elem_of_zip_r in Hin.
Qed.

(** ** [BitSet] (third-party) and [IdSet] *)

Class BitSet (B : Type) := {
  bs_default : B;
  bs_insert : B -> N -> bool * B;
  bs_remove : B -> N -> bool * B;
  bs_contains : B -> N -> bool;
  bs_union_with : B -> B -> B;
  bs_len : B -> N;
  bs_is_empty : B -> bool;
  bs_iter : B -> list N;
  bs_clear : B -> B;
}.

Class BitSetLaws (B : Type) `{BitSet B} : Prop := {
  bs_contains_default : forall x, bs_contains bs_default x = false;
  bs_insert_new : forall b x, (bs_insert b x).1 = negb (bs_contains b x);
  bs_contains_insert : forall b x y,
    bs_contains (bs_insert b x).2 y = (x =? y)%N || bs_contains b y;
  bs_remove_old : forall b x, (bs_remove b x).1 = bs_contains b x;
  bs_contains_remove : forall b x y,
    bs_contains (bs_remove b x).2 y = negb (x =? y)%N && bs_contains b y;
  bs_contains_union : forall b c y,
    bs_contains (bs_union_with b c) y = bs_contains b y || bs_contains c y;
  bs_elem_of_iter : forall b x, x ∈ bs_iter b <-> bs_contains b x = true;
  bs_iter_sorted : forall b, StronglySorted N.lt (bs_iter b);
  bs_len_iter : forall b, bs_len b = N.of_nat (length (bs_iter b));
  bs_is_empty_len : forall b, bs_is_empty b = (bs_len b =? 0)%N;
  bs_contains_clear : forall b x, bs_contains (bs_clear b) x = false;
}.

Section IdSet.
  Context {B : Type} `{BitSet B}.

Record IdSet := mkIdSet { set : B }.

Definition IdSet_default : IdSet := mkIdSet bs_default.
(** [with_capacity] reserves room, which is not observable through the other methods. *)
Definition IdSet_with_capacity (size : N) : IdSet := mkIdSet bs_default.
Definition IdSet_insert (s : IdSet) (id : N) : bool * IdSet :=
  let '(b, set') := bs_insert (set s) id in (b, mkIdSet set').
Definition IdSet_remove (s : IdSet) (id : N) : bool * IdSet :=
  let '(b, set') := bs_remove (set s) id in (b, mkIdSet set').
Definition IdSet_contains (s : IdSet) (id : N) : bool := bs_contains (set s) id.
Definition IdSet_merge (s other : IdSet) : IdSet := mkIdSet (bs_union_with (set s) (set other)).
Definition IdSet_len (s : IdSet) : N := bs_len (set s).
Definition IdSet_is_empty (s : IdSet) : bool := bs_is_empty (set s).
Definition IdSet_iter (s : IdSet) : list N := bs_iter (set s).
Definition IdSet_clear (s : IdSet) : IdSet := mkIdSet (bs_clear (set s)).
End IdSet.
Arguments IdSet B : clear implicits.
Arguments mkIdSet {B} _.
Arguments set {B} _.

#[export] Instance IdSet_eq_dec {B} `{EqDecision B} : EqDecision (IdSet B).
Proof. solve_decision. Defined.

(** ** [IdSet] as a finite set

    The abstract value of an [IdSet] is the set of the ids it contains; every
    method is the corresponding set operation on it. *)

Section IdSet_spec.
  Context {B : Type} `{BitSetLaws B}.

Definition to_gset (s : IdSet B) : gset N := list_to_set (IdSet_iter s).

Lemma elem_of_to_gset s x : x ∈ to_gset s <-> IdSet_contains s x = true.
Proof. unfold to_gset. rewrite elem_of_list_to_set. apply bs_elem_of_iter. Qed.

Lemma IdSet_elem_of_iter s x : x ∈ IdSet_iter s <-> IdSet_contains s x = true.
Proof. apply bs_elem_of_iter. Qed.

Lemma IdSet_iter_NoDup (s : IdSet B) : NoDup (IdSet_iter s).
Proof.
  unfold IdSet_iter. generalize (bs_iter_sorted (set s)).
  induction 1 as [|a l _ IH Ha]; constructor; [|done].
  intros Hin. rewrite list.Forall_forall in Ha. specialize (Ha _ Hin). lia.
Qed.

Lemma IdSet_contains_spec s x : IdSet_contains s x = bool_decide (x ∈ to_gset s).
Proof.
  destruct (IdSet_contains s x) eqn:E; symmetry.
  - apply bool_decide_eq_true_2. by apply elem_of_to_gset.
  - apply bool_decide_eq_false_2. rewrite elem_of_to_gset. by rewrite E.
Qed.

Lemma to_gset_eq s X : (forall x, IdSet_contains s x = true <-> x ∈ X) -> to_gset s = X.
Proof. intros Hx. apply set_eq. intros x. by rewrite elem_of_to_gset. Qed.

Lemma to_gset_with_capacity k : to_gset (IdSet_with_capacity k : IdSet B) = ∅.
Proof.
  apply to_gset_eq. intros x. unfold IdSet_contains; simpl.
  rewrite bs_contains_default. set_solver.
Qed.

Lemma IdSet_insert_spec s x :
  (IdSet_insert s x).1 = bool_decide (x ∉ to_gset s)
  /\ to_gset (IdSet_insert s x).2 = {[x]} ∪ to_gset s.
Proof.
  unfold IdSet_insert. destruct (bs_insert (set s) x) as [b s'] eqn:E.
  pose proof (bs_insert_new (set s) x) as H1.
  pose proof (bs_contains_insert (set s) x) as H2. rewrite E in H1, H2. simpl in *.
  split.
  - rewrite H1. change (bs_contains (set s) x) with (IdSet_contains s x).
    by rewrite IdSet_contains_spec, bool_decide_not.
  - apply to_gset_eq. intros y. unfold IdSet_contains; simpl. rewrite H2.
    rewrite orb_true_iff, N.eqb_eq, elem_of_union, elem_of_singleton, elem_of_to_gset.
    unfold IdSet_contains. clear. intuition congruence.
Qed.

Lemma IdSet_remove_spec s x :
  (IdSet_remove s x).1 = bool_decide (x ∈ to_gset s)
  /\ to_gset (IdSet_remove s x).2 = to_gset s ∖ {[x]}.
Proof.
  unfold IdSet_remove. destruct (bs_remove (set s) x) as [b s'] eqn:E.
  pose proof (bs_remove_old (set s) x) as H1.
  pose proof (bs_contains_remove (set s) x) as H2. rewrite E in H1, H2. simpl in *.
  split.
  - rewrite H1. change (bs_contains (set s) x) with (IdSet_contains s x).
    apply IdSet_contains_spec.
  - apply to_gset_eq. intros y. unfold IdSet_contains; simpl. rewrite H2.
    rewrite andb_true_iff, negb_true_iff, N.eqb_neq, elem_of_difference, elem_of_singleton,
      elem_of_to_gset. unfold IdSet_contains. clear. intuition congruence.
Qed.

Lemma IdSet_merge_spec s t : to_gset (IdSet_merge s t) = to_gset s ∪ to_gset t.
Proof.
  apply to_gset_eq. intros y. unfold IdSet_contains; simpl.
  rewrite bs_contains_union, orb_true_iff, elem_of_union, !elem_of_to_gset. done.
Qed.

Lemma IdSet_clear_spec s : to_gset (IdSet_clear s) = ∅.
Proof.
  apply to_gset_eq. intros y. unfold IdSet_contains; simpl.
  rewrite bs_contains_clear. set_solver.
Qed.

Lemma IdSet_len_spec s : IdSet_len s = N.of_nat (size (to_gset s)).
Proof.
  unfold IdSet_len. rewrite bs_len_iter. f_equal. unfold to_gset.
  rewrite size_list_to_set; [done|]. apply IdSet_iter_NoDup.
Qed.

Lemma IdSet_is_empty_spec s : IdSet_is_empty s = bool_decide (to_gset s = ∅).
Proof.
  unfold IdSet_is_empty. rewrite bs_is_empty_len.
  change (bs_len (set s)) with (IdSet_len s). rewrite IdSet_len_spec.
  destruct (N.eqb_spec (N.of_nat (size (to_gset s))) 0) as [E|E]; symmetry.
  - apply bool_decide_eq_true_2. apply leibniz_equiv, size_empty_inv. lia.
  - apply bool_decide_eq_false_2. intros Hs. by rewrite Hs, size_empty in E.
Qed.

End IdSet_spec.

Create Rewrite HintDb idset.
#[export] Hint Rewrite @elem_of_to_gset @IdSet_merge_spec @IdSet_clear_spec
  @to_gset_with_capacity @IdSet_contains_spec : idset.

(** ** A bit set on binary numbers *)

Definition Nbits_iter (b : N) : list N :=
  base.filter (fun i => N.testbit b i = true) (range 0 (N.size b)).

#[export] Instance Nbits : BitSet N := {|
  bs_default := 0%N;
  bs_insert b x := (negb (N.testbit b x), N.setbit b x);
  bs_remove b x := (N.testbit b x, N.clearbit b x);
  bs_contains b x := N.testbit b x;
  bs_union_with b c := N.lor b c;
  bs_len b := N.of_nat (length (Nbits_iter b));
  bs_is_empty b := (b =? 0)%N;
  bs_iter b := Nbits_iter b;
  bs_clear b := 0%N;
|}.

Lemma elem_of_range a b x : x ∈ range a b <-> (a <= x < b)%N.
Proof.
  unfold range. rewrite list_elem_of_fmap. split.
  - intros (k & -> & Hk). apply elem_of_seq in Hk. lia.
  - intros Hx. exists (N.to_nat (x - a)). split; [lia|]. apply elem_of_seq. lia.
Qed.

Lemma range_sorted a b : StronglySorted N.lt (range a b).
Proof.
  unfold range. generalize 0%nat as s. generalize (N.to_nat (b - a)) as k.
  induction k as [|k IH]; intros s; simpl; constructor; [apply IH|].
  apply list.Forall_forall. intros x Hx. apply list_elem_of_fmap in Hx as (j & -> & Hj).
  apply elem_of_seq in Hj. lia.
Qed.

Lemma StronglySorted_filter' {A} (R : A -> A -> Prop) (Q : A -> Prop)
    `{forall x, Decision (Q x)} l : StronglySorted R l -> StronglySorted R (base.filter Q l).
Proof.
  induction 1 as [|x l Hl IH Hx]; [constructor|].
  rewrite filter_cons. case_decide; [|done]. constructor; [done|].
  rewrite list.Forall_forall in *. intros y Hy. apply list_elem_of_filter in Hy as [_ Hy]. auto.
Qed.

Lemma elem_of_Nbits_iter b x : x ∈ Nbits_iter b <-> N.testbit b x = true.
Proof.
  unfold Nbits_iter. rewrite list_elem_of_filter, elem_of_range. split; [by intros [? _]|].
  intros Hx. split; [done|]. split; [lia|].
  destruct (N.lt_ge_cases x (N.size b)) as [Hlt|Hge]; [done|].
  rewrite N.bits_above_log2 in Hx; [done|].
  destruct (N.eq_dec b 0%N) as [->|Hb]; [by rewrite N.bits_0 in Hx|].
  rewrite N.size_log2 in Hge by done. lia.
Qed.

#[export] Instance Nbits_laws : BitSetLaws N.
Proof.
  split; simpl.
  - intros x. exact (N.bits_0 x).
  - done.
  - intros. by rewrite N.setbit_eqb.
  - done.
  - intros. by rewrite N.clearbit_eqb, andb_comm.
  - intros. apply N.lor_spec.
  - intros. apply elem_of_Nbits_iter.
  - intros. apply StronglySorted_filter', range_sorted.
  - done.
  - intros b. destruct (N.eqb_spec b 0%N) as [->|Hb]; [done|]. symmetry. apply N.eqb_neq.
    intros Hl. assert (N.log2 b ∈ Nbits_iter b) as Hin.
    { apply elem_of_Nbits_iter. by apply N.bit_log2. }
    destruct (Nbits_iter b); [by apply not_elem_of_nil in Hin|done].
  - intros b x. exact (N.bits_0 x).
Qed.
