(* ===== verification/Heaps.v ===== *)
(** * Heaps and pending client requests

    Models [src/other/heaps]: [Keyable], [HeapBuffer], [CursoredHeap] with its
    [Cursor], and [PendingClientRequests].

    [MinHeap<HeapWrapper<V>>] is the standard library's [BinaryHeap] under
    [Reverse].  It is modelled by its vector, in which the children of position
    [p] are at [2 * p + 1] and [2 * p + 2], with the library's own [push] ([sift_up]),
    [pop] ([sift_down_to_bottom]) and conversion from a vector ([rebuild]), so
    that values of equal key leave the heap as they do in the library, which is
    not in the order of their arrival.  The theorems do not depend on that order:
    they say of [pop] only that a smallest value leaves the heap. *)

From Stdlib Require Import ZArith Lia Sorting.
From stdpp Require Import sorting base list gmap sets numbers option.
From S2P Require Import Prelude.

Class Keyable (V K : Type) := key : V -> K.

Section MinHeap.
  Context {V K : Type} `{OrdLaws K, Keyable V K}.

(** The order of [HeapWrapper]: by key. *)
Definition HeapWrapper_leb (a b : V) : bool := ord_leb (key a) (key b).
Definition HeapWrapper_cmp (a b : V) : comparison := ord_cmp (key a) (key b).
Definition HeapWrapper_eqb (a b : V) : bool :=
  match HeapWrapper_cmp a b with Eq => true | _ => false end.

(** [Hole::move_to]: the element in the hole and the one at [j] change places. *)
Definition swap_at (h : list V) (i j : nat) : list V :=
  match h !! i, h !! j with
  | Some a, Some b => <[i := b]> (<[j := a]> h)
  | _, _ => h
  end.

(** [sift_up(0, pos)]: the element moves up while it is smaller than its parent.
    [pos] turns are enough. *)
Fixpoint sift_up (fuel : nat) (h : list V) (pos : nat) : list V :=
  match fuel with
  | O => h
  | S fuel =>
      if pos =? 0 then h else
      let parent := (pos - 1) / 2 in
      match h !! pos, h !! parent with
      | Some element, Some above =>
          if HeapWrapper_leb above element then h else sift_up fuel (swap_at h pos parent) parent
      | _, _ => h
      end
  end.

(** The child the element is exchanged with: of two equal ones the right one. *)
Definition smaller_child (h : list V) (child : nat) : nat :=
  match h !! child, h !! (child + 1) with
  | Some l, Some r => if HeapWrapper_leb r l then child + 1 else child
  | _, _ => child
  end.

(** The first half of [sift_down_to_bottom(pos)]: the element moves down to a
    leaf, whatever its key.  With the leaf's position. *)
Fixpoint sink (fuel : nat) (h : list V) (pos : nat) : list V * nat :=
  match fuel with
  | O => (h, pos)
  | S fuel =>
      let child := 2 * pos + 1 in
      if child <=? length h - 2 then
        let child := smaller_child h child in sink fuel (swap_at h pos child) child
      else if child =? length h - 1 then (swap_at h pos child, child)
      else (h, pos)
  end.

Definition sift_down_to_bottom (h : list V) (pos : nat) : list V :=
  let '(h, pos) := sink (length h) h pos in sift_up pos h pos.

(** [sift_down(pos)]: the element moves down while a child is smaller. *)
Fixpoint sift_down (fuel : nat) (h : list V) (pos : nat) : list V :=
  match fuel with
  | O => h
  | S fuel =>
      let child := 2 * pos + 1 in
      if child <=? length h - 2 then
        let child := smaller_child h child in
        match h !! pos, h !! child with
        | Some element, Some below =>
            if HeapWrapper_leb element below then h else sift_down fuel (swap_at h pos child) child
        | _, _ => h
        end
      else if child =? length h - 1 then
        match h !! pos, h !! child with
        | Some element, Some below =>
            if HeapWrapper_leb element below then h else swap_at h pos child
        | _, _ => h
        end
      else h
  end.

(** [rebuild]: [sift_down] on every inner position, the last one first. *)
Fixpoint rebuild (n : nat) (h : list V) : list V :=
  match n with
  | O => h
  | S n => rebuild n (sift_down (length h) h n)
  end.

Definition MinHeap_push (h : list V) (v : V) : list V := sift_up (length h) (h ++ [v]) (length h).

(** [pop]: the last element takes the place of the first. *)
Definition MinHeap_pop (h : list V) : option V * list V :=
  match list.last h with
  | None => (None, [])
  | Some item =>
      let data := removelast h in
      match data with
      | [] => (Some item, [])
      | root :: rest => (Some root, sift_down_to_bottom (item :: rest) 0)
      end
  end.

Definition MinHeap_peek (h : list V) : option V := head h.

(** [BinaryHeap::from(vec)] *)
Definition MinHeap_from (vs : list V) : list V := rebuild (length vs / 2) vs.

(** [while let Some(v) = heap.pop()]: the values in the order of the turns. *)
Fixpoint MinHeap_pops (fuel : nat) (h : list V) : list V :=
  match fuel with
  | O => []
  | S fuel =>
      match MinHeap_pop h with
      | (None, _) => []
      | (Some v, h) => v :: MinHeap_pops fuel h
      end
  end.
Definition MinHeap_drain (h : list V) : list V := MinHeap_pops (length h) h.

Definition heap_le (a b : V) : Prop := ord_leb (key a) (key b) = true.

(** [i] is a child of [p]. *)
Definition child_of (p i : nat) : Prop := i = 2 * p + 1 \/ i = 2 * p + 2.

(** The element at [i] is at most the one at [j], if both are there. *)
Definition at_le (h : list V) (i j : nat) : Prop :=
  forall a b, h !! i = Some a -> h !! j = Some b -> heap_le a b.

Definition MinHeap_wf (h : list V) : Prop := forall p i, child_of p i -> at_le h p i.

(** *** Moving an element keeps the values *)

Lemma swap_at_lookup h i j k :
  i < length h -> j < length h ->
  swap_at h i j !! k = h !! (if k =? i then j else if k =? j then i else k).
Proof.
  intros Hi Hj. unfold swap_at.
  destruct (lookup_lt_is_Some_2 h i Hi) as [a Ha], (lookup_lt_is_Some_2 h j Hj) as [b Hb]. rewrite Ha, Hb.
  destruct (Nat.eqb_spec k i) as [->|Hki].
  { by rewrite list_lookup_insert_eq by (by rewrite length_insert). }
  rewrite list_lookup_insert_ne by done.
  destruct (Nat.eqb_spec k j) as [->|Hkj]; [by rewrite list_lookup_insert_eq|by rewrite list_lookup_insert_ne].
Qed.

Lemma length_swap_at h i j : length (swap_at h i j) = length h.
Proof. unfold swap_at. destruct (h !! i), (h !! j); by rewrite ?length_insert. Qed.

Lemma swap_at_Permutation h i j : swap_at h i j ≡ₚ h.
Proof.
  destruct (decide (i < length h /\ j < length h)) as [[Hi Hj]|Hout].
  - apply Permutation_inj. split; [apply length_swap_at|].
    exists (fun k => if k =? i then j else if k =? j then i else k). split; [|by intros k; apply swap_at_lookup].
    intros x y. destruct (Nat.eqb_spec x i), (Nat.eqb_spec x j), (Nat.eqb_spec y i), (Nat.eqb_spec y j); lia.
  - unfold swap_at. destruct (h !! i) eqn:Hi, (h !! j) eqn:Hj; try done.
    apply lookup_lt_Some in Hi. apply lookup_lt_Some in Hj. tauto.
Qed.

Lemma sift_up_Permutation fuel : forall h pos, sift_up fuel h pos ≡ₚ h.
Proof.
  induction fuel as [|fuel IH]; intros h pos; [done|]. cbn [sift_up]. destruct (pos =? 0); [done|].
  repeat case_match; try done. by rewrite IH, swap_at_Permutation.
Qed.

Lemma sink_Permutation fuel : forall h pos, (sink fuel h pos).1 ≡ₚ h.
Proof.
  induction fuel as [|fuel IH]; intros h pos; [done|]. cbn [sink].
  repeat case_match; cbn [fst]; [by rewrite IH, swap_at_Permutation|by rewrite swap_at_Permutation|done].
Qed.

Lemma sift_down_Permutation fuel : forall h pos, sift_down fuel h pos ≡ₚ h.
Proof.
  induction fuel as [|fuel IH]; intros h pos; [done|]. cbn [sift_down].
  repeat case_match; try done; by rewrite ?IH, swap_at_Permutation.
Qed.

Lemma rebuild_Permutation n : forall h, rebuild n h ≡ₚ h.
Proof. induction n as [|n IH]; intros h; [done|]. cbn. by rewrite IH, sift_down_Permutation. Qed.

Lemma sift_down_to_bottom_Permutation h pos : sift_down_to_bottom h pos ≡ₚ h.
Proof.
  unfold sift_down_to_bottom. pose proof (sink_Permutation (length h) h pos) as Hs.
  destruct (sink _ _ _) as [h' pos']. cbn in Hs. by rewrite sift_up_Permutation.
Qed.

Lemma MinHeap_push_Permutation h v : MinHeap_push h v ≡ₚ v :: h.
Proof. unfold MinHeap_push. rewrite sift_up_Permutation. symmetry. apply Permutation_cons_append. Qed.

Lemma MinHeap_from_Permutation vs : MinHeap_from vs ≡ₚ vs.
Proof. apply rebuild_Permutation. Qed.

Lemma foldl_push_Permutation vs h : foldl MinHeap_push h vs ≡ₚ vs ++ h.
Proof.
  revert h. induction vs as [|v vs IH]; intros h; simpl; [done|].
  rewrite IH, MinHeap_push_Permutation. by rewrite Permutation_middle.
Qed.

(** A heap is empty, or [pop] takes its first element. *)
Lemma MinHeap_pop_cases h :
  (h = [] /\ MinHeap_pop h = (None, []))
  \/ exists v rest h', h = v :: rest /\ MinHeap_pop h = (Some v, h') /\ h ≡ₚ v :: h'.
Proof.
  destruct h as [|item h _] using rev_ind; [by left|right]. unfold MinHeap_pop.
  rewrite last_snoc, removelast_last. destruct h as [|root rest].
  - exists item, [], []. done.
  - exists root, (rest ++ [item]), (sift_down_to_bottom (item :: rest) 0). split_and!; [done|done|].
    rewrite sift_down_to_bottom_Permutation. cbn. constructor. symmetry. apply Permutation_cons_append.
Qed.

Lemma MinHeap_pop_peek h : (MinHeap_pop h).1 = MinHeap_peek h.
Proof. destruct (MinHeap_pop_cases h) as [[-> ->]|(v & rest & h' & -> & -> & _)]; done. Qed.

Lemma MinHeap_pop_Some h v h' : MinHeap_pop h = (Some v, h') -> h ≡ₚ v :: h' /\ MinHeap_peek h = Some v.
Proof.
  intros Hp. destruct (MinHeap_pop_cases h) as [[-> He]|(w & rest & h'' & -> & He & Hperm)]; rewrite He in Hp; [done|].
  by injection Hp as -> ->.
Qed.

Lemma MinHeap_pop_None h : (MinHeap_pop h).1 = None <-> h = [].
Proof. rewrite MinHeap_pop_peek. by destruct h. Qed.

(** *** Moving an element up *)

(** Heap order everywhere but between [pos] and its parent. *)
Definition up_inv (h : list V) (pos : nat) : Prop :=
  (forall p i, child_of p i -> i <> pos -> at_le h p i)
  /\ (forall p i, child_of p pos -> child_of pos i -> at_le h p i).

Lemma parent_child pos : pos <> 0 -> child_of ((pos - 1) / 2) pos.
Proof.
  intros Hp. unfold child_of. pose proof (Nat.div_mod (pos - 1) 2). pose proof (Nat.mod_upper_bound (pos - 1) 2). lia.
Qed.

Lemma child_of_inj p q i : child_of p i -> child_of q i -> p = q.
Proof. unfold child_of. lia. Qed.

Lemma child_of_lt p i : child_of p i -> p < i.
Proof. unfold child_of. lia. Qed.

Lemma heap_le_trans a b c : heap_le a b -> heap_le b c -> heap_le a c.
Proof. unfold heap_le. apply ord_leb_trans. Qed.

Lemma heap_le_refl a : heap_le a a.
Proof. apply ord_leb_refl. Qed.

Lemma heap_leb_total a b : HeapWrapper_leb a b = false -> heap_le b a.
Proof. unfold HeapWrapper_leb, heap_le. apply ord_leb_total. Qed.

Lemma at_le_swap h i j k l :
  i < length h -> j < length h ->
  at_le h (if k =? i then j else if k =? j then i else k) (if l =? i then j else if l =? j then i else l) ->
  at_le (swap_at h i j) k l.
Proof. intros Hi Hj Hle a b. rewrite !swap_at_lookup by done. apply Hle. Qed.

Lemma up_inv_swap h pos parent element above :
  up_inv h pos -> child_of parent pos -> h !! pos = Some element -> h !! parent = Some above ->
  heap_le element above -> up_inv (swap_at h pos parent) parent.
Proof.
  intros [Ho Hg] Hc He Ha Hle.
  assert (pos < length h) as Hpos by (by eapply lookup_lt_Some).
  assert (parent < length h) as Hpar by (by eapply lookup_lt_Some).
  pose proof (child_of_lt _ _ Hc) as Hlt.
  split; intros p i Hp Hi; apply at_le_swap; try done.
  - pose proof (child_of_lt _ _ Hp). destruct (Nat.eqb_spec i pos) as [->|Hip].
    + rewrite (child_of_inj _ _ _ Hp Hc), Nat.eqb_refl, (proj2 (Nat.eqb_neq parent pos)) by lia.
      intros a b. rewrite He, Ha. by intros [= <-] [= <-].
    + rewrite (proj2 (Nat.eqb_neq i parent)) by done. destruct (Nat.eqb_spec p pos) as [->|Hpp]; [by apply Hg|].
      destruct (Nat.eqb_spec p parent) as [->|]; [|by apply Ho].
      intros a b. rewrite He. intros [= <-] Hb. eapply heap_le_trans; [exact Hle|]. by apply (Ho _ _ Hp Hip).
  - pose proof (child_of_lt _ _ Hp). pose proof (child_of_lt _ _ Hi).
    rewrite (proj2 (Nat.eqb_neq p pos)), (proj2 (Nat.eqb_neq p parent)) by lia.
    assert (at_le h p parent) as Hpp by (apply Ho; [done|lia]).
    destruct (Nat.eqb_spec i pos) as [->|Hip]; [done|].
    rewrite (proj2 (Nat.eqb_neq i parent)) by lia.
    intros a b Hpa Hib. eapply heap_le_trans; [by eapply Hpp|]. by apply (Ho _ _ Hi Hip).
Qed.

Lemma sift_up_wf fuel : forall h pos, pos <= fuel -> up_inv h pos -> MinHeap_wf (sift_up fuel h pos).
Proof.
  assert (forall h, up_inv h 0 -> MinHeap_wf h) as Hroot.
  { intros h [Ho _] p i Hc. apply Ho; [done|]. unfold child_of in Hc. lia. }
  induction fuel as [|fuel IH]; intros h pos Hf Hinv; cbn [sift_up]; [apply Hroot; by replace 0 with pos by lia|].
  destruct (Nat.eqb_spec pos 0) as [->|Hpos]; [by apply Hroot|]. pose proof (parent_child pos Hpos) as Hc.
  set (parent := (pos - 1) / 2) in *. pose proof (child_of_lt _ _ Hc).
  assert (at_le h parent pos -> MinHeap_wf h) as Hdone.
  { intros Hle p i Hp. destruct (decide (i = pos)) as [->|]; [|by apply (proj1 Hinv)]. by rewrite (child_of_inj _ _ _ Hp Hc). }
  destruct (h !! pos) as [element|] eqn:He; [|apply Hdone; intros a b; by rewrite He].
  destruct (h !! parent) as [above|] eqn:Ha; [|apply Hdone; intros a b; by rewrite Ha].
  destruct (HeapWrapper_leb above element) eqn:E.
  - apply Hdone. intros a b. rewrite He, Ha. intros [= <-] [= <-]. exact E.
  - apply IH; [lia|]. eapply up_inv_swap; [done..|]. by apply heap_leb_total.
Qed.

Lemma MinHeap_push_wf h v : MinHeap_wf h -> MinHeap_wf (MinHeap_push h v).
Proof.
  intros Hh. apply sift_up_wf; [done|]. split.
  - intros p i Hc Hi a b Ha Hb. pose proof (child_of_lt _ _ Hc). pose proof (lookup_lt_Some _ _ _ Hb) as Hlen.
    rewrite length_app in Hlen. cbn in Hlen. rewrite lookup_app_l in Ha by lia. rewrite lookup_app_l in Hb by lia.
    by apply (Hh _ _ Hc).
  - intros p i _ Hi a b _ Hb. apply lookup_lt_Some in Hb. rewrite length_app in Hb. apply child_of_lt in Hi. cbn in Hb. lia.
Qed.

Lemma foldl_push_wf vs h : MinHeap_wf h -> MinHeap_wf (foldl MinHeap_push h vs).
Proof. revert h. induction vs; intros h Hh; simpl; auto using MinHeap_push_wf. Qed.

(** *** Moving an element down *)

Lemma smaller_child_spec h pos :
  2 * pos + 1 <= length h - 2 ->
  let c := smaller_child h (2 * pos + 1) in
  child_of pos c /\ c < length h /\ forall i, child_of pos i -> at_le h c i.
Proof.
  intros Hl. unfold smaller_child.
  destruct (lookup_lt_is_Some_2 h (2 * pos + 1)) as [l El]; [lia|].
  destruct (lookup_lt_is_Some_2 h (2 * pos + 1 + 1)) as [r Er]; [lia|]. rewrite El, Er.
  destruct (HeapWrapper_leb r l) eqn:E.
  - split_and!; [unfold child_of; lia|lia|]. intros i Hi a b. rewrite Er. intros [= <-].
    destruct Hi as [->|Hi]; [rewrite El; by intros [= <-]|]. replace i with (2 * pos + 1 + 1) by lia. rewrite Er.
    intros [= <-]. apply heap_le_refl.
  - split_and!; [unfold child_of; lia|lia|]. intros i Hi a b. rewrite El. intros [= <-].
    destruct Hi as [->|Hi]; [rewrite El; intros [= <-]; apply heap_le_refl|]. replace i with (2 * pos + 1 + 1) by lia.
    rewrite Er. intros [= <-]. by apply heap_leb_total.
Qed.

Lemma only_child h pos :
  2 * pos + 1 = length h - 1 -> pos < length h ->
  child_of pos (2 * pos + 1) /\ 2 * pos + 1 < length h /\ forall i, child_of pos i -> at_le h (2 * pos + 1) i.
Proof.
  intros Hl Hpos. split_and!; [unfold child_of; lia|lia|]. intros i Hi a b Ha Hb.
  destruct Hi as [->|Hi]; [|apply lookup_lt_Some in Hb; lia]. rewrite Ha in Hb. injection Hb as <-. apply heap_le_refl.
Qed.

(** Heap order everywhere but around [pos], whose children are above its parent.
    Only positions from [n] on are looked at. *)
Definition hole_inv (n : nat) (h : list V) (pos : nat) : Prop :=
  (forall p i, n <= p -> child_of p i -> p <> pos -> i <> pos -> at_le h p i)
  /\ (forall p i, n <= p -> child_of p pos -> child_of pos i -> at_le h p i).

Lemma hole_inv_swap n h pos c :
  hole_inv n h pos -> n <= pos -> c < length h -> child_of pos c -> (forall i, child_of pos i -> at_le h c i) ->
  hole_inv n (swap_at h pos c) c.
Proof.
  intros [Ho Hg] Hn Hc Hpc Hmin. pose proof (child_of_lt _ _ Hpc).
  split; intros p i Hp Hi.
  - intros Hpne Hine. apply at_le_swap; [lia|done|]. pose proof (child_of_lt _ _ Hi).
    rewrite (proj2 (Nat.eqb_neq p c)), (proj2 (Nat.eqb_neq i c)) by done.
    destruct (Nat.eqb_spec p pos) as [->|], (Nat.eqb_spec i pos) as [->|]; [lia|by apply Hmin|by apply Hg|by apply Ho].
  - intros Hci. apply at_le_swap; [lia|done|]. pose proof (child_of_lt _ _ Hci).
    rewrite (child_of_inj _ _ _ Hi Hpc), Nat.eqb_refl, (proj2 (Nat.eqb_neq i pos)), (proj2 (Nat.eqb_neq i c)) by lia.
    apply Ho; [lia|done|lia|lia].
Qed.

(** [sink] ends at a leaf. *)
Lemma sink_wf fuel : forall h pos, pos < length h -> length h <= fuel + pos -> hole_inv 0 h pos ->
  up_inv (sink fuel h pos).1 (sink fuel h pos).2.
Proof.
  assert (forall h pos, length h <= 2 * pos + 1 -> hole_inv 0 h pos -> up_inv h pos) as Hleaf.
  { intros h pos Hl [Ho Hg]. split; [|intros p i; apply Hg; lia]. intros p i Hc Hi.
    destruct (decide (p = pos)) as [->|]; [|apply Ho; [lia|done..]].
    intros a b _ Hb. apply lookup_lt_Some in Hb. unfold child_of in Hc. lia. }
  induction fuel as [|fuel IH]; intros h pos Hpos Hf Hinv; [lia|]. cbn [sink].
  destruct (Nat.leb_spec (2 * pos + 1) (length h - 2)) as [Hle|Hgt].
  - destruct (smaller_child_spec h pos Hle) as (Hc & Hcl & Hmin). set (c := smaller_child _ _) in *.
    pose proof (child_of_lt _ _ Hc). apply IH; rewrite ?length_swap_at; [done|lia|]. apply hole_inv_swap; done || lia.
  - destruct (Nat.eqb_spec (2 * pos + 1) (length h - 1)) as [He|Hne]; cbn [fst snd].
    + destruct (only_child h pos He Hpos) as (Hc & Hcl & Hmin). apply Hleaf; [rewrite length_swap_at; lia|].
      apply hole_inv_swap; done || lia.
    + apply Hleaf; [lia|done].
Qed.

Lemma sift_down_to_bottom_wf h : hole_inv 0 h 0 -> h <> [] -> MinHeap_wf (sift_down_to_bottom h 0).
Proof.
  intros Hh Hne. unfold sift_down_to_bottom. pose proof (sink_wf (length h) h 0) as Hs.
  destruct (sink _ _ _) as [h' pos]. apply sift_up_wf; [done|]. apply Hs; [|lia|done]. destruct h; [done|cbn; lia].
Qed.

Lemma MinHeap_pop_wf h v h' : MinHeap_wf h -> MinHeap_pop h = (Some v, h') -> MinHeap_wf h'.
Proof.
  intros Hwf. destruct h as [|item h _] using rev_ind; [done|]. unfold MinHeap_pop.
  rewrite last_snoc, removelast_last. destruct h as [|root rest]; [by intros [= <- <-]|]. intros [= <- <-].
  apply sift_down_to_bottom_wf; [|done]. split.
  - intros p i _ Hc Hp Hi a b Ha Hb. destruct p as [|p]; [done|]. destruct i as [|i]; [done|]. cbn in Ha, Hb.
    apply (Hwf _ _ Hc); cbn; by apply lookup_app_l_Some.
  - intros p i _ Hp. unfold child_of in Hp. lia.
Qed.

(** The first element is a smallest one. *)
Lemma MinHeap_wf_root h v : MinHeap_wf h -> MinHeap_peek h = Some v -> forall w, w ∈ h -> heap_le v w.
Proof.
  intros Hwf Hv w [i Hi]%list_elem_of_lookup. revert w Hi. induction i as [i IH] using lt_wf_ind. intros w Hi.
  destruct (decide (i = 0)) as [->|Hi0].
  - destruct h; [done|]. cbn in *. simplify_eq. apply heap_le_refl.
  - pose proof (parent_child i Hi0) as Hc. pose proof (child_of_lt _ _ Hc). pose proof (lookup_lt_Some _ _ _ Hi).
    destruct (lookup_lt_is_Some_2 h ((i - 1) / 2)) as [y Hy]; [lia|].
    eapply heap_le_trans; [by eapply IH|]. by apply (Hwf _ _ Hc).
Qed.

(** What [pop] does on a heap: a smallest element leaves it. *)
Lemma MinHeap_pop_spec h v h' :
  MinHeap_wf h -> MinHeap_pop h = (Some v, h') ->
  h ≡ₚ v :: h' /\ MinHeap_wf h' /\ forall w, w ∈ h -> heap_le v w.
Proof.
  intros Hwf Hp. pose proof (MinHeap_pop_Some _ _ _ Hp) as [Hperm Hpeek].
  split_and!; [done|by eapply MinHeap_pop_wf|by apply MinHeap_wf_root].
Qed.

(** Heap order from [n] on, but for [pos] and its children. *)
Definition down_inv (n : nat) (h : list V) (pos : nat) : Prop :=
  (forall p i, n <= p -> child_of p i -> p <> pos -> at_le h p i)
  /\ (forall p i, n <= p -> child_of p pos -> child_of pos i -> at_le h p i).

Lemma down_inv_swap n h pos c element below :
  down_inv n h pos -> n <= pos -> child_of pos c -> h !! pos = Some element -> h !! c = Some below ->
  (forall i, child_of pos i -> at_le h c i) -> heap_le below element -> down_inv n (swap_at h pos c) c.
Proof.
  intros [Ho Hg] Hn Hpc He Hb Hmin Hle. pose proof (lookup_lt_Some _ _ _ Hb) as Hc. pose proof (child_of_lt _ _ Hpc).
  destruct (hole_inv_swap n h pos c) as [Ho' Hg']; try done. { split; [by auto|done]. }
  split; [|done]. intros p i Hp Hi Hpne. destruct (decide (i = c)) as [->|]; [|by apply Ho'].
  rewrite (child_of_inj _ _ _ Hi Hpc). apply at_le_swap; [lia|done|].
  rewrite Nat.eqb_refl, (proj2 (Nat.eqb_neq c pos)), Nat.eqb_refl by lia. intros a b. rewrite He, Hb. by intros [= <-] [= <-].
Qed.

Lemma sift_down_order n fuel : forall h pos,
  n <= pos -> pos < length h -> length h <= fuel + pos -> down_inv n h pos ->
  forall p i, n <= p -> child_of p i -> at_le (sift_down fuel h pos) p i.
Proof.
  assert (forall h pos, down_inv n h pos -> (forall i, child_of pos i -> at_le h pos i) ->
            forall p i, n <= p -> child_of p i -> at_le h p i) as Hdone.
  { intros h pos [Ho _] Hpos p i Hn Hc. destruct (decide (p = pos)) as [->|]; [by apply Hpos|by apply Ho]. }
  assert (forall h pos c a b, h !! pos = Some a -> h !! c = Some b -> heap_le a b ->
            (forall i, child_of pos i -> at_le h c i) -> forall i, child_of pos i -> at_le h pos i) as Hstop.
  { intros h pos c a b Ha Hb Hle Hmin i Hi x y Hx Hy. rewrite Ha in Hx. injection Hx as <-.
    eapply heap_le_trans; [exact Hle|]. by apply (Hmin i Hi). }
  induction fuel as [|fuel IH]; intros h pos Hn Hpos Hf Hinv p i Hp Hi; [lia|]. cbn [sift_down].
  destruct (lookup_lt_is_Some_2 h pos Hpos) as [element He].
  destruct (Nat.leb_spec (2 * pos + 1) (length h - 2)) as [Hle|Hgt].
  - destruct (smaller_child_spec h pos Hle) as (Hc & Hcl & Hmin). set (c := smaller_child _ _) in *.
    pose proof (child_of_lt _ _ Hc). destruct (lookup_lt_is_Some_2 h c Hcl) as [below Hb]. rewrite He, Hb.
    destruct (HeapWrapper_leb element below) eqn:E; [eapply Hdone; [done| |done..]; by eapply Hstop|].
    apply heap_leb_total in E. apply IH; rewrite ?length_swap_at; [lia|done|lia| |done..]. by eapply down_inv_swap.
  - destruct (Nat.eqb_spec (2 * pos + 1) (length h - 1)) as [Hl|Hne].
    + destruct (only_child h pos Hl Hpos) as (Hc & Hcl & Hmin). destruct (lookup_lt_is_Some_2 h _ Hcl) as [below Hb].
      rewrite He, Hb. destruct (HeapWrapper_leb element below) eqn:E; [eapply Hdone; [done| |done..]; by eapply Hstop|].
      apply heap_leb_total in E. eapply (Hdone _ (2 * pos + 1)); [by eapply down_inv_swap| |done..].
      intros j Hj a b _ Hbj. apply lookup_lt_Some in Hbj. rewrite length_swap_at in Hbj. unfold child_of in Hj. lia.
    + eapply Hdone; [done| |done..]. intros j Hj a b _ Hbj. apply lookup_lt_Some in Hbj. unfold child_of in Hj. lia.
Qed.

Lemma rebuild_wf n : forall h, n <= length h -> (forall p i, n <= p -> child_of p i -> at_le h p i) -> MinHeap_wf (rebuild n h).
Proof.
  induction n as [|n IH]; intros h Hn Hh; cbn [rebuild]; [intros p i; apply Hh; lia|].
  apply IH; [rewrite sift_down_Permutation; lia|]. apply sift_down_order; [done|lia|lia|]. split.
  - intros p i Hp Hc Hne. apply Hh; [lia|done].
  - intros p i Hp Hc. apply child_of_lt in Hc. lia.
Qed.

Lemma MinHeap_from_wf vs : MinHeap_wf (MinHeap_from vs).
Proof.
  apply rebuild_wf; [apply Nat.div_le_upper_bound; lia|]. intros p i Hp Hc a b _ Hb. apply lookup_lt_Some in Hb.
  pose proof (Nat.div_mod (length vs) 2). pose proof (Nat.mod_upper_bound (length vs) 2). unfold child_of in Hc. lia.
Qed.

(** *** Popping everything *)

Lemma MinHeap_pops_spec fuel : forall h, length h <= fuel -> MinHeap_wf h ->
  MinHeap_pops fuel h ≡ₚ h /\ StronglySorted heap_le (MinHeap_pops fuel h).
Proof.
  induction fuel as [|fuel IH]; intros h Hl Hwf; cbn [MinHeap_pops].
  { destruct h; [by repeat constructor|cbn in Hl; lia]. }
  destruct (MinHeap_pop h) as [[v|] h'] eqn:Hp.
  - destruct (MinHeap_pop_spec _ _ _ Hwf Hp) as (Hperm & Hwf' & Hmin).
    destruct (IH h') as [Hp' Hs]; [rewrite Hperm in Hl; cbn in Hl; lia|done|].
    split; [by rewrite Hp', Hperm|]. constructor; [done|]. apply list.Forall_forall. intros w Hw.
    apply Hmin. rewrite Hperm. apply elem_of_cons. right. by rewrite <-Hp'.
  - assert (h = []) as -> by (apply MinHeap_pop_None; by rewrite Hp). by repeat constructor.
Qed.

Lemma MinHeap_drain_spec h :
  MinHeap_wf h -> MinHeap_drain h ≡ₚ h /\ StronglySorted heap_le (MinHeap_drain h).
Proof. by apply MinHeap_pops_spec. Qed.

Lemma MinHeap_wf_nil : MinHeap_wf [].
Proof. by intros p i _ a b. Qed.

Lemma MinHeap_pop_length h : length (MinHeap_pop h).2 = length h - 1.
Proof.
  destruct (MinHeap_pop_cases h) as [[-> ->]|(v & rest & h' & -> & -> & Hp)]; [done|]. apply Permutation_length in Hp.
  cbn in *. lia.
Qed.

Lemma MinHeap_pop_elem h v : v ∈ (MinHeap_pop h).2 -> v ∈ h.
Proof.
  destruct (MinHeap_pop_cases h) as [[-> ->]|(w & rest & h' & -> & -> & Hp)]; [done|]. rewrite Hp. set_solver.
Qed.

Lemma MinHeap_drain_elem h v : v ∈ MinHeap_drain h -> v ∈ h.
Proof.
  unfold MinHeap_drain. generalize (length h) as fuel. intros fuel. revert h.
  induction fuel as [|fuel IH]; intros h; cbn [MinHeap_pops]; [by intros ?%elem_of_nil|].
  pose proof (MinHeap_pop_elem h v) as Hsub. pose proof (MinHeap_pop_Some h) as Hpop.
  destruct (MinHeap_pop h) as [[w|] h']; [|by intros ?%elem_of_nil].
  intros [->|Hv%IH]%elem_of_cons; [|by apply Hsub]. destruct (Hpop w h' eq_refl) as [Hp _]. rewrite Hp. set_solver.
Qed.
End MinHeap.
Arguments MinHeap_push : simpl never.
Arguments MinHeap_pop : simpl never.
Arguments MinHeap_drain : simpl never.
Arguments MinHeap_from : simpl never.

#[export] Hint Resolve MinHeap_push_wf MinHeap_from_wf MinHeap_wf_nil : core.

(** ** [HeapBuffer] *)

Section HeapBuffer.
  Context {P : Profile}.
  Context {V K : Type} `{OrdLaws K, Countable K, Keyable V K}.

Record HeapBuffer := mkHeapBuffer {
  hb_buffer : list V;
  hb_known : gset K;
}.

Definition HeapBuffer_default : HeapBuffer := mkHeapBuffer [] ∅.
Definition HeapBuffer_peek (b : HeapBuffer) : option V := MinHeap_peek (hb_buffer b).
Definition HeapBuffer_knows_key (b : HeapBuffer) (k : K) : bool := bool_decide (k ∈ hb_known b).
Definition HeapBuffer_knows (b : HeapBuffer) (v : V) : bool := HeapBuffer_knows_key b (key v).
Definition HeapBuffer_clear (b : HeapBuffer) : HeapBuffer := mkHeapBuffer [] ∅.
Definition HeapBuffer_find_by_key (b : HeapBuffer) (k : K) : option V :=
  snd <$> list_find (fun v => key v = k) (hb_buffer b).

Definition HeapBuffer_insert (b : HeapBuffer) (v : V) : Outcome HeapBuffer :=
  debug_assert (negb (HeapBuffer_knows b v)) ;;
  Val (mkHeapBuffer (MinHeap_push (hb_buffer b) v) ({[key v]} ∪ hb_known b)).

Definition HeapBuffer_pop (b : HeapBuffer) : option V * HeapBuffer :=
  match MinHeap_pop (hb_buffer b) with
  | (None, buf) => (None, mkHeapBuffer buf (hb_known b))
  | (Some v, buf) => (Some v, mkHeapBuffer buf (hb_known b ∖ {[key v]}))
  end.

End HeapBuffer.
Arguments HeapBuffer V K {_ _}.

(** ** [CursoredHeap] and [Cursor] *)

Section CursoredHeap.
  Context {V K : Type} `{OrdLaws K, Countable K, Keyable V K}.

Record CursoredHeap := mkCursoredHeap {
  ch_heap : list V;
  ch_known : gset K;
}.

Definition CursoredHeap_default : CursoredHeap := mkCursoredHeap [] ∅.
Definition CursoredHeap_insert (h : CursoredHeap) (v : V) : CursoredHeap :=
  mkCursoredHeap (MinHeap_push (ch_heap h) v) ({[key v]} ∪ ch_known h).
Definition CursoredHeap_len (h : CursoredHeap) : N := N.of_nat (length (ch_heap h)).
Definition CursoredHeap_is_empty (h : CursoredHeap) : bool :=
  match ch_heap h with [] => true | _ => false end.
Definition CursoredHeap_knows_key (h : CursoredHeap) (k : K) : bool :=
  bool_decide (k ∈ ch_known h).
Definition CursoredHeap_knows (h : CursoredHeap) (v : V) : bool :=
  CursoredHeap_knows_key h (key v).

(** A cursor holds the heap it was opened on (a mutable borrow) for as long as it lives. *)
Record Cursor := mkCursor {
  cur_current : option V;
  cur_heap : CursoredHeap;
  cur_kept : list V;
  cur_kept_set : gset K;
}.

Definition Cursor_new (h : CursoredHeap) : Cursor := mkCursor None h [] ∅.
Definition CursoredHeap_cursor (h : CursoredHeap) : Cursor := Cursor_new h.

Definition Cursor_keep (c : Cursor) : Outcome Cursor :=
  v ← unwrap (cur_current c);
  Val (mkCursor None (cur_heap c) (cur_kept c ++ [v]) ({[key v]} ∪ cur_kept_set c)).

Definition Cursor_advance (c : Cursor) : Outcome (option V * Cursor) :=
  c ← match cur_current c with
      | Some _ => Cursor_keep c
      | None => Val c
      end;
  let '(v, heap') := MinHeap_pop (ch_heap (cur_heap c)) in
  Val (v, mkCursor v (mkCursoredHeap heap' (ch_known (cur_heap c))) (cur_kept c) (cur_kept_set c)).

Definition Cursor_remove (c : Cursor) : Outcome (V * Cursor) :=
  v ← unwrap (cur_current c);
  Val (v, mkCursor None (cur_heap c) (cur_kept c) (cur_kept_set c)).

(** [while self.advance().is_some() {}]: every turn but the last pops a value. *)
Fixpoint Cursor_drain (fuel : nat) (c : Cursor) : Outcome Cursor :=
  match fuel with
  | O => NoFuel
  | S fuel =>
      '(v, c) ← Cursor_advance c;
      match v with
      | Some _ => Cursor_drain fuel c
      | None => Val c
      end
  end.

Definition Cursor_finalize (c : Cursor) : Outcome CursoredHeap :=
  c ← Cursor_drain (S (length (ch_heap (cur_heap c)))) c;
  let kept := reverse (cur_kept c) in
  Val (mkCursoredHeap (MinHeap_from kept) (cur_kept_set c)).

End CursoredHeap.
Arguments CursoredHeap V K {_ _}.
Arguments Cursor V K {_ _}.

(** ** [PendingClientRequests] *)

Section PendingClientRequests.
  Context {Tx : Type}.

Record PendingClientRequests := mkPending {
  blocks : list (list Tx);
  maximum_block_size : N;
}.

Definition Pending_new (maximum_block_size : N) : PendingClientRequests :=
  mkPending [] maximum_block_size.

Definition Pending_copy_front (p : PendingClientRequests) : list Tx :=
  match blocks p with
  | front :: _ => front
  | [] => []
  end.

Definition Pending_pop_front (p : PendingClientRequests) : list Tx * PendingClientRequests :=
  match blocks p with
  | front :: rest => (front, mkPending rest (maximum_block_size p))
  | [] => ([], p)
  end.

(** The loop ends with the first block that keeps a request. *)
Fixpoint filter_front_loop (retain : Tx -> bool) (bs : list (list Tx)) : list (list Tx) :=
  match bs with
  | [] => []
  | front :: rest =>
      match List.filter retain front with
      | [] => filter_front_loop retain rest
      | front' => front' :: rest
      end
  end.

Definition Pending_filter_front (retain : Tx -> bool) (p : PendingClientRequests)
    : PendingClientRequests :=
  mkPending (filter_front_loop retain (blocks p)) (maximum_block_size p).

(** [back_mut().expect(..).push(tx)] *)
Fixpoint push_to_last (bs : list (list Tx)) (tx : Tx) : Outcome (list (list Tx)) :=
  match bs with
  | [] => Panic
  | [b] => Val [b ++ [tx]]
  | b :: bs => bs' ← push_to_last bs tx; Val (b :: bs')
  end.

Definition Pending_insert (p : PendingClientRequests) (tx : Tx) : Outcome PendingClientRequests :=
  let length_of_last := from_option (fun b => N.of_nat (length b)) u64_max (list.last (blocks p)) in
  let bs := if (maximum_block_size p <=? length_of_last)%N then blocks p ++ [[]] else blocks p in
  bs' ← push_to_last bs tx;
  Val (mkPending bs' (maximum_block_size p)).

Definition Pending_full_block_or_at_least (p : PendingClientRequests) (minium_block_size : N)
    : Outcome bool :=
  rust_assert (0 <? minium_block_size)%N ;;
  match list.last (blocks p) with
  | Some b => Val ((1 <? N.of_nat (length (blocks p))) || (minium_block_size <=? N.of_nat (length b)))%N
  | None => Val false
  end.

End PendingClientRequests.
Arguments PendingClientRequests Tx : clear implicits.

(** ** What the heaps guarantee *)

Section HeapBuffer_facts.
  Context {P : Profile}.
  Context {V K : Type} `{OrdLaws K, Countable K, Keyable V K}.
  Implicit Types b : HeapBuffer V K.

(** The values are in heap order, no key occurs twice, and [known] is the set
    of the keys in the buffer. *)
Definition HeapBuffer_inv (b : HeapBuffer V K) : Prop :=
  MinHeap_wf (hb_buffer b)
  /\ NoDup (key <$> hb_buffer b)
  /\ hb_known b = list_to_set (key <$> hb_buffer b).

Lemma HeapBuffer_default_inv : HeapBuffer_inv HeapBuffer_default.
Proof. split; [apply MinHeap_wf_nil|]. split; constructor. Qed.

Lemma HeapBuffer_clear_inv b : HeapBuffer_inv (HeapBuffer_clear b).
Proof. apply HeapBuffer_default_inv. Qed.

Lemma HeapBuffer_knows_spec b v :
  HeapBuffer_inv b -> HeapBuffer_knows b v = true <-> key v ∈ key <$> hb_buffer b.
Proof.
  intros (_ & _ & Hk). unfold HeapBuffer_knows, HeapBuffer_knows_key.
  by rewrite bool_decide_eq_true, Hk, elem_of_list_to_set.
Qed.

Lemma HeapBuffer_insert_spec b v :
  HeapBuffer_inv b -> HeapBuffer_knows b v = false ->
  exists b', HeapBuffer_insert b v = Val b' /\ HeapBuffer_inv b' /\ hb_buffer b' ≡ₚ v :: hb_buffer b.
Proof.
  intros Hinv Hkn. pose proof Hinv as (Hwf & Hnd & Hk).
  eexists. split; [|split].
  - unfold HeapBuffer_insert. rewrite Hkn. unfold debug_assert. simpl.
    by destruct debug_assertions.
  - assert (key v ∉ key <$> hb_buffer b) as Hnew.
    { rewrite <-(HeapBuffer_knows_spec b v) by done. by rewrite Hkn. }
    split; [|split]; simpl.
    + by apply MinHeap_push_wf.
    + rewrite MinHeap_push_Permutation. simpl. by constructor.
    + rewrite Hk. apply set_eq. intros k.
      rewrite elem_of_union, elem_of_singleton, !elem_of_list_to_set,
        MinHeap_push_Permutation. simpl. by rewrite elem_of_cons.
  - simpl. apply MinHeap_push_Permutation.
Qed.

Lemma HeapBuffer_pop_None b : fst (HeapBuffer_pop b) = None <-> hb_buffer b = [].
Proof.
  rewrite <-MinHeap_pop_None. unfold HeapBuffer_pop. by destruct (MinHeap_pop (hb_buffer b)) as [[v|] buf].
Qed.

Lemma HeapBuffer_pop_peek b : fst (HeapBuffer_pop b) = HeapBuffer_peek b.
Proof.
  unfold HeapBuffer_peek. rewrite <-MinHeap_pop_peek. unfold HeapBuffer_pop.
  by destruct (MinHeap_pop (hb_buffer b)) as [[v|] buf].
Qed.

Lemma HeapBuffer_pop_spec b v b' :
  HeapBuffer_inv b -> HeapBuffer_pop b = (Some v, b') ->
  HeapBuffer_inv b' /\ hb_buffer b ≡ₚ v :: hb_buffer b'
  /\ (forall w, w ∈ hb_buffer b -> ord_leb (key v) (key w) = true)
  /\ HeapBuffer_knows b' v = false.
Proof.
  intros (Hwf & Hnd & Hk). unfold HeapBuffer_pop.
  destruct (MinHeap_pop (hb_buffer b)) as [[w|] buf] eqn:E; [|done]. intros [= -> <-]. cbn [hb_buffer hb_known].
  destruct (MinHeap_pop_spec _ _ _ Hwf E) as (Hperm & Hwf' & Hmin). rewrite Hperm in Hnd. cbn in Hnd.
  apply list.NoDup_cons in Hnd as [Hnew Hnd].
  assert (hb_known b ∖ {[key v]} = list_to_set (key <$> buf)) as Hk'.
  { rewrite Hk. apply set_eq. intros k. rewrite elem_of_difference, !elem_of_list_to_set, Hperm. cbn. set_solver. }
  split_and!; [by repeat split|done|done|].
  unfold HeapBuffer_knows, HeapBuffer_knows_key. simpl. apply bool_decide_eq_false_2. set_solver.
Qed.

Lemma HeapBuffer_find_by_key_spec b k :
  HeapBuffer_inv b ->
  (HeapBuffer_knows_key b k = true <-> exists v, HeapBuffer_find_by_key b k = Some v /\ key v = k)
  /\ (HeapBuffer_knows_key b k = false <-> HeapBuffer_find_by_key b k = None).
Proof.
  intros (_ & _ & Hk). unfold HeapBuffer_knows_key, HeapBuffer_find_by_key. rewrite Hk.
  destruct (list_find (fun v => key v = k) (hb_buffer b)) as [[i v]|] eqn:E; simpl.
  - apply list_find_Some in E as (Hi & Hv & _).
    assert (k ∈ (list_to_set (key <$> hb_buffer b) : gset K)) as Hin.
    { apply elem_of_list_to_set, list_elem_of_fmap. exists v. split; [done|].
      by eapply list_elem_of_lookup_2. }
    rewrite bool_decide_eq_true_2 by done. naive_solver.
  - apply list_find_None in E.
    assert (k ∉ (list_to_set (key <$> hb_buffer b) : gset K)) as Hin.
    { rewrite elem_of_list_to_set, list_elem_of_fmap. intros (v & -> & Hv).
      rewrite list.Forall_forall in E. by apply (E v). }
    rewrite bool_decide_eq_false_2 by done. naive_solver.
Qed.
End HeapBuffer_facts.

Section CursoredHeap_facts.
  Context {V K : Type} `{OrdLaws K, Countable K, Keyable V K}.
  Implicit Types (h : CursoredHeap V K) (c : Cursor V K).

Definition CursoredHeap_inv (h : CursoredHeap V K) : Prop :=
  MinHeap_wf (ch_heap h) /\ ch_known h = list_to_set (key <$> ch_heap h).

Lemma CursoredHeap_default_inv : CursoredHeap_inv CursoredHeap_default.
Proof. split; [apply MinHeap_wf_nil|done]. Qed.

Lemma list_to_set_perm (l1 l2 : list K) :
  l1 ≡ₚ l2 -> (list_to_set l1 : gset K) = list_to_set l2.
Proof. intros Hp. apply set_eq. intros k. by rewrite !elem_of_list_to_set, Hp. Qed.

Lemma CursoredHeap_insert_inv h v :
  CursoredHeap_inv h -> CursoredHeap_inv (CursoredHeap_insert h v).
Proof.
  intros [Hwf Hk]. split; simpl; [by apply MinHeap_push_wf|].
  rewrite Hk. symmetry.
  rewrite (list_to_set_perm _ (key <$> (v :: ch_heap h))); [done|].
  by rewrite MinHeap_push_Permutation.
Qed.

(** All values a cursor holds. *)
Definition Cursor_contents (c : Cursor V K) : list V :=
  cur_kept c ++ option_list (cur_current c) ++ ch_heap (cur_heap c).

Definition Cursor_inv (c : Cursor V K) : Prop :=
  cur_kept_set c = list_to_set (key <$> cur_kept c).

Lemma Cursor_new_inv h : Cursor_inv (Cursor_new h) /\ Cursor_contents (Cursor_new h) = ch_heap h.
Proof. done. Qed.

(** [advance] never panics, keeps every value and moves to the first one of the heap. *)
Lemma Cursor_advance_spec c :
  Cursor_inv c ->
  exists c', Cursor_advance c = Val (head (ch_heap (cur_heap c)), c')
    /\ Cursor_inv c' /\ Cursor_contents c' ≡ₚ Cursor_contents c
    /\ cur_current c' = head (ch_heap (cur_heap c))
    /\ length (ch_heap (cur_heap c')) = length (ch_heap (cur_heap c)) - 1
    /\ cur_kept c' = cur_kept c ++ option_list (cur_current c).
Proof.
  intros Hc. unfold Cursor_advance, Cursor_contents, Cursor_inv in *.
  destruct c as [cur [heap known] kept ks]; cbn in *. subst ks.
  pose proof (MinHeap_pop_length heap) as Hlen.
  assert (option_list (MinHeap_pop heap).1 ++ (MinHeap_pop heap).2 ≡ₚ heap) as Hperm.
  { destruct (MinHeap_pop_cases heap) as [[-> ->]|(v & rest & h' & -> & -> & Hp)]; [done|]. by rewrite Hp. }
  pose proof (MinHeap_pop_peek heap) as Hpeek. unfold MinHeap_peek in Hpeek.
  destruct (MinHeap_pop heap) as [o heap'] eqn:Hpop; cbn in *. subst o.
  destruct cur as [v|]; cbn; rewrite Hpop; (eexists; split; [reflexivity|]); cbn; rewrite ?app_nil_r; split_and!; try done.
  - rewrite fmap_app, list_to_set_app_L; simpl; set_solver.
  - by rewrite Hperm, <-app_assoc.
  - by rewrite Hperm.
Qed.

Lemma Cursor_remove_spec c v :
  Cursor_inv c -> cur_current c = Some v ->
  exists c', Cursor_remove c = Val (v, c') /\ Cursor_inv c'
    /\ Cursor_contents c = cur_kept c ++ v :: ch_heap (cur_heap c)
    /\ Cursor_contents c' = cur_kept c ++ ch_heap (cur_heap c)
    /\ cur_heap c' = cur_heap c /\ cur_kept c' = cur_kept c /\ cur_current c' = None.
Proof.
  intros Hc Hv. unfold Cursor_remove, Cursor_contents. rewrite Hv. simpl. by eexists.
Qed.

Lemma Cursor_drain_spec fuel c :
  Cursor_inv c -> length (ch_heap (cur_heap c)) < fuel ->
  exists c', Cursor_drain fuel c = Val c' /\ Cursor_inv c' /\ cur_kept c' ≡ₚ Cursor_contents c.
Proof.
  revert c. induction fuel as [|fuel IH]; intros c Hc Hf; [lia|]. simpl.
  destruct (Cursor_advance_spec c Hc) as (c' & -> & Hc' & Hcont & Hcur & Hheap & Hkept). simpl.
  destruct (ch_heap (cur_heap c)) as [|v heap] eqn:E; simpl in *.
  - exists c'. split; [done|]. split; [done|]. rewrite Hkept. unfold Cursor_contents.
    by rewrite E, app_nil_r.
  - destruct (IH c') as (c2 & -> & Hc2 & Hk); [done|lia|]. exists c2. split; [done|]. split; [done|]. by rewrite Hk.
Qed.

(** [finalize] terminates and puts every value the cursor still holds back. *)
Lemma Cursor_finalize_spec c :
  Cursor_inv c ->
  exists h, Cursor_finalize c = Val h /\ CursoredHeap_inv h /\ ch_heap h ≡ₚ Cursor_contents c.
Proof.
  intros Hc. unfold Cursor_finalize.
  destruct (Cursor_drain_spec (S (length (ch_heap (cur_heap c)))) c Hc) as (c' & -> & Hc' & Hk);
    [lia|]. simpl. eexists. split; [done|]. split; [split|]; simpl.
  - apply MinHeap_from_wf.
  - unfold Cursor_inv in Hc'. rewrite Hc'. apply list_to_set_perm.
    by rewrite MinHeap_from_Permutation, reverse_Permutation.
  - by rewrite MinHeap_from_Permutation, reverse_Permutation, Hk.
Qed.
End CursoredHeap_facts.

Section Pending_facts.
  Context {Tx : Type}.
  Implicit Types (p : PendingClientRequests Tx) (bs : list (list Tx)).

(** The queue of requests the blocks hold. *)
Definition Pending_queue (p : PendingClientRequests Tx) : list Tx := concat (blocks p).

(** No block is empty or longer than the maximum (one, for a maximum of zero). *)
Definition Pending_inv (p : PendingClientRequests Tx) : Prop :=
  is_u64 (maximum_block_size p)
  /\ Forall (fun b => (0 < N.of_nat (length b) <= N.max 1 (maximum_block_size p))%N) (blocks p).

Lemma push_to_last_snoc bs b tx : push_to_last (bs ++ [b]) tx = Val (bs ++ [b ++ [tx]]).
Proof.
  induction bs as [|c bs IH]; [done|]. simpl. rewrite IH.
  by destruct bs.
Qed.

(** Where [insert] puts the request: into the last block when it has room, into a new one otherwise. *)
Lemma Pending_insert_shape p tx :
  is_u64 (maximum_block_size p) ->
  exists pre b, Pending_insert p tx = Val (mkPending (pre ++ [b ++ [tx]]) (maximum_block_size p))
    /\ ((b = [] /\ pre = blocks p /\
         (forall c, list.last (blocks p) = Some c -> maximum_block_size p <= N.of_nat (length c))%N)
        \/ (blocks p = pre ++ [b] /\ (N.of_nat (length b) < maximum_block_size p)%N)).
Proof.
  intros Hmax. unfold Pending_insert. unfold is_u64 in Hmax.
  destruct (blocks p) as [|b0 bs0 _] eqn:E using rev_ind.
  - simpl. unfold u64_max. rewrite (proj2 (N.leb_le _ _)) by lia. simpl.
    exists [], []. split; [done|]. left. split; [done|]. split; done.
  - rewrite last_snoc. simpl. destruct (N.leb_spec (maximum_block_size p) (N.of_nat (length b0))).
    + exists (bs0 ++ [b0]), []. rewrite push_to_last_snoc. split; [done|].
      left. split; [done|]. split; [done|]. intros c. intros [= ->]. done.
    + exists bs0, b0. rewrite push_to_last_snoc. split; [done|]. right. done.
Qed.

Lemma Pending_insert_spec p tx :
  Pending_inv p ->
  exists p', Pending_insert p tx = Val p' /\ Pending_inv p'
    /\ Pending_queue p' = Pending_queue p ++ [tx]
    /\ maximum_block_size p' = maximum_block_size p.
Proof.
  intros [Hmax Hb].
  destruct (Pending_insert_shape p tx Hmax) as (pre & b & -> & Hcase).
  eexists. split; [done|]. unfold Pending_inv, Pending_queue. simpl.
  destruct Hcase as [(-> & -> & _)|[Hblocks Hlen]].
  - split; [split; [done|]|split; [by rewrite concat_app|done]].
    apply Forall_app. split; [done|]. repeat constructor; simpl; lia.
  - rewrite Hblocks in *. apply Forall_app in Hb as [Hpre _].
    split; [split; [done|]|split; [|done]].
    + apply Forall_app. split; [done|]. constructor; [|constructor].
      rewrite length_app. simpl. lia.
    + rewrite !concat_app. simpl. by rewrite !app_nil_r, app_assoc.
Qed.

Lemma Pending_pop_front_spec p :
  Pending_inv p ->
  let '(front, p') := Pending_pop_front p in
  Pending_inv p' /\ Pending_queue p = front ++ Pending_queue p'
  /\ front = Pending_copy_front p
  /\ (N.of_nat (length front) <= N.max 1 (maximum_block_size p))%N
  /\ (front = [] <-> Pending_queue p = []).
Proof.
  intros [Hmax Hb]. unfold Pending_pop_front, Pending_copy_front, Pending_queue.
  destruct (blocks p) as [|front rest] eqn:E.
  - unfold Pending_inv. rewrite E. simpl. repeat split; try done; lia.
  - inversion Hb as [|? ? Hf Hr]; subst. simpl. repeat split; simpl; try done; try lia.
    + intros ->. simpl in Hf. lia.
    + intros Hnil. destruct front; [done|by simpl in Hnil].
Qed.

Lemma filter_front_loop_spec retain bs :
  exists gone rest,
    bs = gone ++ rest /\ Forall (Forall (fun tx => retain tx = false)) gone
    /\ match rest with
       | [] => filter_front_loop retain bs = []
       | b :: rest' => filter_front_loop retain bs = List.filter retain b :: rest'
                       /\ List.filter retain b <> []
       end.
Proof.
  induction bs as [|b bs (gone & rest & Hbs & Hgone & Hrest)]; [by exists [], []|].
  destruct (List.filter retain b) as [|tx b'] eqn:E.
  - exists (b :: gone), rest. split; [by rewrite Hbs|]. split.
    + constructor; [|done]. apply list.Forall_forall. intros tx Htx.
      destruct (retain tx) eqn:Er; [|done].
      assert (List.In tx (List.filter retain b)) as Hin.
      { apply List.filter_In. split; [by apply list_elem_of_In|done]. }
      by rewrite E in Hin.
    + simpl. by rewrite E.
  - exists [], (b :: bs). split; [done|]. split; [constructor|]. simpl. by rewrite E.
Qed.

(** After [filter_front] the front block holds exactly requests to retain, only
    requests not to retain were dropped, and the rest of the queue is as before. *)
Lemma Pending_filter_front_spec retain p :
  Pending_inv p ->
  let p' := Pending_filter_front retain p in
  Pending_inv p'
  /\ Forall (fun tx => retain tx = true) (Pending_copy_front p')
  /\ (exists dropped front rest,
        Pending_queue p = dropped ++ front ++ rest
        /\ Forall (fun tx => retain tx = false) dropped
        /\ Pending_queue p' = List.filter retain front ++ rest
        /\ Pending_copy_front p' = List.filter retain front)
  /\ (Pending_copy_front p' = [] -> Forall (fun tx => retain tx = false) (Pending_queue p)).
Proof.
  intros [Hmax Hb]. unfold Pending_inv, Pending_copy_front, Pending_queue. simpl.
  destruct (filter_front_loop_spec retain (blocks p)) as (gone & rest & Hbs & Hgone & Hrest).
  assert (Forall (fun tx => retain tx = false) (concat gone)) as Hdrop.
  { apply Forall_concat. done. }
  destruct rest as [|b rest].
  - rewrite Hrest. repeat split; try done.
    + exists (concat gone), [], []. rewrite Hbs, app_nil_r. by rewrite app_nil_r.
    + rewrite Hbs, app_nil_r. done.
  - destruct Hrest as [Hrest Hne]. rewrite Hrest. rewrite Hbs in Hb.
    apply Forall_app in Hb as [_ Hb]. inversion Hb as [|? ? Hbl Hrl]; subst.
    repeat split; try done.
    + constructor; [|done]. split.
      * destruct (List.filter retain b); [done|simpl; lia].
      * pose proof (List.filter_length_le retain b). lia.
    + apply list.Forall_forall. intros tx Htx. apply list_elem_of_In, List.filter_In in Htx. tauto.
    + exists (concat gone), b, (concat rest). rewrite Hbs, concat_app. done.
Qed.

Lemma Pending_full_block_false p k :
  (0 < k)%N -> Pending_full_block_or_at_least p k = Val false ->
  (N.of_nat (length (Pending_queue p)) < k)%N.
Proof.
  intros Hk. unfold Pending_full_block_or_at_least, Pending_queue.
  rewrite (proj2 (N.ltb_lt _ _) Hk). simpl.
  destruct (blocks p) as [|b [|b' bs]] eqn:E; simpl; [lia| |].
  - intros [= Hf]. rewrite app_nil_r. apply N.leb_gt in Hf. lia.
  - destruct (list.last (b' :: bs)) eqn:El; simpl; [|by apply last_None in El].
    intros [= Hf]. exfalso. apply orb_false_iff in Hf as [Hf _]. apply N.ltb_ge in Hf. lia.
Qed.

(** All blocks but the last are full: holds for a queue that was never filtered. *)
Definition Pending_packed (p : PendingClientRequests Tx) : Prop :=
  forall b c pre post, blocks p = pre ++ b :: c :: post -> N.of_nat (length b) = maximum_block_size p.

Lemma Pending_packed_insert p tx p' :
  Pending_inv p -> (0 < maximum_block_size p)%N -> Pending_packed p ->
  Pending_insert p tx = Val p' -> Pending_packed p'.
Proof.
  intros [Hmax Hb] Hpos Hp Hins.
  destruct (Pending_insert_shape p tx Hmax) as (pre & b & Heq & Hcase).
  rewrite Heq in Hins. injection Hins as <-. intros x c pre' post. simpl. intros Hsplit.
  destruct post as [|z post _] using rev_ind.
  - replace (pre' ++ [x; c]) with ((pre' ++ [x]) ++ [c]) in Hsplit by (by rewrite <-app_assoc).
    apply app_inj_tail in Hsplit as [Hpre Hc].
    destruct Hcase as [(-> & Hpb & Hlast)|[Hblocks Hlen]].
    + rewrite Hpb in Hpre. specialize (Hlast x). rewrite Hpre, last_snoc in Hlast.
      specialize (Hlast eq_refl). rewrite Hpre in Hb. apply Forall_app in Hb as [_ Hb].
      inversion Hb; subst. lia.
    + apply (Hp x b pre' []). rewrite Hblocks, Hpre. by rewrite <-app_assoc.
  - replace (pre' ++ x :: c :: post ++ [z]) with ((pre' ++ x :: c :: post) ++ [z]) in Hsplit
      by (by rewrite <-app_assoc).
    apply app_inj_tail in Hsplit as [Hpre _].
    destruct Hcase as [(_ & Hpb & _)|[Hblocks _]].
    + apply (Hp x c pre' post). congruence.
    + apply (Hp x c pre' (post ++ [b])). rewrite Hblocks, Hpre. by rewrite <-app_assoc.
Qed.

(** When the test succeeds on a packed queue, the block taken next is full or has the minimum size. *)
Lemma Pending_full_block_true p k :
  Pending_inv p -> Pending_packed p -> (0 < k)%N ->
  Pending_full_block_or_at_least p k = Val true ->
  (N.min k (maximum_block_size p) <= N.of_nat (length (Pending_copy_front p)))%N.
Proof.
  intros [Hmax Hb] Hp Hk. unfold Pending_full_block_or_at_least, Pending_copy_front.
  rewrite (proj2 (N.ltb_lt _ _) Hk). simpl.
  destruct (blocks p) as [|b [|b' bs]] eqn:E; simpl; [done| |].
  - intros [= Hf]. apply N.leb_le in Hf. lia.
  - intros _. rewrite (Hp b b' [] bs E). lia.
Qed.
End Pending_facts.
