(* ===== verification/Requests.v ===== *)
(** * Client requests

    NxBFT and Damysus deliver a client's request only when its number is above the
    last one delivered for that client, with the same code ([entry] of the map of
    last requests): [wave_ready] of NxBFT and [execute_block] of Damysus.  MinBFT's
    request processor follows the same rule ([MbRequestFacts]).
    [deliver_tx] is that code for one transaction; [dedup] is its iteration, and
    [dedup_increasing] / [increasing_lookup] say what it guarantees. *)

From Stdlib Require Import ZArith Lia.
From stdpp Require Import base list gmap numbers option.
From S2P Require Import Prelude.

(** [transaction-trait] *)
Class Transaction (Tx : Type) := {
  client_id : Tx -> N;
  request_id : Tx -> N;
}.

Section requests.
  Context {Tx : Type} `{Transaction Tx}.

(** The deduplication of client requests, for one transaction. *)
Definition deliver_tx (last : gmap N N) (tx : Tx) : option (gmap N N) :=
  match last !! client_id tx with
  | Some r => if (request_id tx <=? r)%N then None else Some (<[client_id tx := request_id tx]> last)
  | None => Some (<[client_id tx := request_id tx]> last)
  end.

Definition dedup_step (acc : gmap N N * list Tx) (tx : Tx) : gmap N N * list Tx :=
  match deliver_tx acc.1 tx with
  | None => acc
  | Some last => (last, acc.2 ++ [tx])
  end.

(** The map of last requests after [txs], and the transactions delivered. *)
Definition dedup (last : gmap N N) (txs : list Tx) : gmap N N * list Tx :=
  foldl dedup_step (last, []) txs.

Lemma dedup_step_out last out tx :
  foldl dedup_step (last, out) tx
  = ((foldl dedup_step (last, []) tx).1, out ++ (foldl dedup_step (last, []) tx).2).
Proof.
  revert last out. induction tx as [|t tx IH]; intros last out; simpl; [by rewrite app_nil_r|].
  unfold dedup_step at 2 4 6. simpl. destruct (deliver_tx last t) as [last'|]; [|apply IH].
  rewrite IH, (IH last' [t]). simpl. by rewrite <-app_assoc.
Qed.

Lemma dedup_app last txs1 txs2 :
  dedup last (txs1 ++ txs2)
  = ((dedup (dedup last txs1).1 txs2).1, (dedup last txs1).2 ++ (dedup (dedup last txs1).1 txs2).2).
Proof.
  unfold dedup. rewrite foldl_app. destruct (foldl dedup_step (last, []) txs1) as [l out]. simpl.
  apply dedup_step_out.
Qed.

(** The last request of a client, one more than it, or zero when there is none. *)
Definition next_request (last : gmap N N) (c : N) : N := from_option N.succ 0%N (last !! c).

(** The requests of each client are delivered in increasing order, above what was
    delivered before. *)
Fixpoint increasing (last : gmap N N) (txs : list Tx) : Prop :=
  match txs with
  | [] => True
  | tx :: txs => (next_request last (client_id tx) <= request_id tx)%N
                 /\ increasing (<[client_id tx := request_id tx]> last) txs
  end.

Definition last_after (last : gmap N N) (txs : list Tx) : gmap N N :=
  foldl (fun last tx => <[client_id tx := request_id tx]> last) last txs.

Lemma deliver_tx_spec last tx :
  deliver_tx last tx = if (next_request last (client_id tx) <=? request_id tx)%N
                       then Some (<[client_id tx := request_id tx]> last) else None.
Proof.
  unfold deliver_tx, next_request. destruct (last !! client_id tx) as [r|]; simpl;
    [|by rewrite (proj2 (N.leb_le _ _)) by lia].
  destruct (N.leb_spec (request_id tx) r), (N.leb_spec (N.succ r) (request_id tx)); (done || lia).
Qed.

Lemma dedup_cons last tx txs :
  dedup last (tx :: txs)
  = if (next_request last (client_id tx) <=? request_id tx)%N then
      let r := dedup (<[client_id tx := request_id tx]> last) txs in (r.1, tx :: r.2)
    else dedup last txs.
Proof.
  unfold dedup. simpl. unfold dedup_step at 2. rewrite deliver_tx_spec. simpl.
  destruct (_ <=? _)%N; [|done]. by rewrite dedup_step_out.
Qed.

Lemma dedup_increasing last txs :
  increasing last (dedup last txs).2 /\ (dedup last txs).1 = last_after last (dedup last txs).2.
Proof.
  revert last. induction txs as [|tx txs IH]; intros last; [done|]. rewrite dedup_cons.
  destruct (N.leb_spec (next_request last (client_id tx)) (request_id tx)); [|apply IH].
  simpl. destruct (IH (<[client_id tx := request_id tx]> last)) as [Hinc ->]. done.
Qed.

(** Along an increasing sequence the next request of a client only grows. *)
Lemma last_after_mono last txs c :
  increasing last txs -> (next_request last c <= next_request (last_after last txs) c)%N.
Proof.
  revert last. induction txs as [|tx txs IH]; intros last; simpl; [lia|]. intros [Hle Hinc].
  etransitivity; [|by apply IH]. unfold next_request in *.
  destruct (decide (c = client_id tx)) as [->|Hne].
  - rewrite lookup_insert_eq. simpl. lia.
  - by rewrite lookup_insert_ne.
Qed.

(** Two delivered requests of one client have increasing numbers. *)
Lemma increasing_lookup last txs i j x y :
  increasing last txs -> txs !! i = Some x -> txs !! j = Some y -> i < j ->
  client_id x = client_id y -> (request_id x < request_id y)%N.
Proof.
  revert last i j. induction txs as [|tx txs IH]; intros last i j; [done|]. simpl.
  intros [Hle Hinc] Hi Hj Hij Hc. destruct j as [|j]; [lia|]. simpl in Hj.
  destruct i as [|i]; [|by eapply (IH _ i j); eauto; lia]. simpl in Hi. injection Hi as ->.
  clear IH Hij Hle. revert Hinc Hj.
  assert (N.succ (request_id x) <= next_request (<[client_id x := request_id x]> last) (client_id y))%N as Hn.
  { unfold next_request. rewrite <-Hc, lookup_insert_eq. simpl. lia. }
  revert Hn. generalize (<[client_id x := request_id x]> last) as m. revert j.
  induction txs as [|tx txs IH]; intros j m Hn; [done|]. simpl. intros [Hle Hinc] Hj.
  destruct j as [|j]; simpl in Hj.
  - injection Hj as ->. lia.
  - eapply (IH j); [|exact Hinc|exact Hj]. etransitivity; [exact Hn|].
    unfold next_request in *. destruct (decide (client_id y = client_id tx)) as [Heq|Hne].
    + rewrite Heq in *. rewrite lookup_insert_eq. simpl. lia.
    + by rewrite lookup_insert_ne by done.
Qed.
End requests.
