(* ===== verification/NxBase.v ===== *)
(** * NxBFT: rounds, DAG addresses and vertices

    Models [src/atomic-broadcast/nxbft/nxbft-base/src/lib.rs] and [vertex.rs].

    The hash functions of the [sha2] and [blake2] crates are the parameters
    [sha256] and [blake2b512] of [Digests], functions of the bytes a [Hashbar]
    implementation feeds to the hasher.  The serde data model is reduced to
    what [VertexVisitor] consumes: a sequence of values, or a list of named
    fields. *)

From Stdlib Require Import ZArith Lia.
From stdpp Require Import base list gmap sets numbers option strings.
From S2P Require Import Prelude Ids Heaps.

Abbreviation Round := N (only parsing).

Record DagAddress := mkDagAddress { da_round : N; da_creator : N }.

Definition DagAddress_new (round creator : N) : DagAddress := mkDagAddress round creator.
Definition DagAddress_round (a : DagAddress) : N := da_round a.
Definition DagAddress_creator (a : DagAddress) : N := da_creator a.

#[export] Instance DagAddress_eq_dec : EqDecision DagAddress.
Proof. solve_decision. Defined.
#[export] Instance DagAddress_countable : Countable DagAddress.
Proof.
  refine (inj_countable' (fun a => (da_round a, da_creator a))
                         (fun p => mkDagAddress p.1 p.2) _).
  by intros [].
Defined.

(** Derived [Ord]: by round, then by creator. *)
#[export] Instance DagAddress_Ord : Ord DagAddress := fun a b =>
  ord_cmp (da_round a, da_creator a) (da_round b, da_creator b).
#[export] Instance DagAddress_OrdLaws : OrdLaws DagAddress.
Proof.
  split.
  - intros [] []. unfold ord_cmp, DagAddress_Ord. rewrite ord_eq. simpl. naive_solver.
  - intros. unfold ord_cmp, DagAddress_Ord. apply ord_antisym.
  - intros a b c. unfold ord_cmp, DagAddress_Ord. apply ord_trans.
Qed.

Section vertex.
  Context {B : Type} `{BitSet B} `{Digests}.
  Context {Tx Sig : Type} `{Hashbar Tx}.

Record SignableVertex := mkSignable {
  sv_address : DagAddress;
  sv_transactions_hash : list N;
  sv_edges : IdSet B;
}.

Definition SignableVertex_hash (v : SignableVertex) : list N :=
  to_le_bytes (DagAddress_round (sv_address v))
  ++ to_le_bytes (DagAddress_creator (sv_address v))
  ++ sv_transactions_hash v
  ++ concat (to_le_bytes <$> IdSet_iter (sv_edges v)).

Definition SignableVertex_new (address : DagAddress) (edges : IdSet B) (transactions : list Tx)
    : SignableVertex :=
  mkSignable address (sha256 (concat (hash_bytes <$> transactions))) edges.

Definition SignableVertex_address (v : SignableVertex) : DagAddress := sv_address v.
Definition SignableVertex_edges (v : SignableVertex) : IdSet B := sv_edges v.
Definition SignableVertex_num_edges (v : SignableVertex) : N := IdSet_len (sv_edges v).
Definition SignableVertex_edges_valid (v : SignableVertex) (quorum : N) : bool :=
  (quorum <=? SignableVertex_num_edges v)%N.
Definition SignableVertex_to_hash (v : SignableVertex) : list N :=
  blake2b512 (SignableVertex_hash v).

Record SignedVertex := mkSigned {
  signable_vertex : SignableVertex;
  sv_signature : Sig;
  sv_counter : N;
}.

Record Vertex := mkVertex {
  v_transactions : list Tx;
  v_signed : SignedVertex;
}.

(** The accessors reached through [Deref]. *)
Definition SignedVertex_address (v : SignedVertex) : DagAddress := sv_address (signable_vertex v).
Definition SignedVertex_round (v : SignedVertex) : N := da_round (SignedVertex_address v).
Definition SignedVertex_creator (v : SignedVertex) : N := da_creator (SignedVertex_address v).
Definition SignedVertex_signature (v : SignedVertex) : Sig := sv_signature v.
Definition SignedVertex_counter (v : SignedVertex) : N := sv_counter v.

Definition Vertex_signable (v : Vertex) : SignableVertex := signable_vertex (v_signed v).
Definition Vertex_address (v : Vertex) : DagAddress := SignedVertex_address (v_signed v).
Definition Vertex_round (v : Vertex) : N := SignedVertex_round (v_signed v).
Definition Vertex_creator (v : Vertex) : N := SignedVertex_creator (v_signed v).
Definition Vertex_signature (v : Vertex) : Sig := SignedVertex_signature (v_signed v).
Definition Vertex_counter (v : Vertex) : N := SignedVertex_counter (v_signed v).
Definition Vertex_edges (v : Vertex) : IdSet B := SignableVertex_edges (Vertex_signable v).
Definition Vertex_num_edges (v : Vertex) : N := SignableVertex_num_edges (Vertex_signable v).
Definition Vertex_edges_valid (v : Vertex) (quorum : N) : bool :=
  SignableVertex_edges_valid (Vertex_signable v) quorum.
Definition Vertex_drain (v : Vertex) : list Tx := v_transactions v.

#[export] Instance Vertex_Keyable : Keyable Vertex DagAddress := Vertex_address.

(** [new_with_custom], for a [sign] closure with effects in [M]. *)
Definition Vertex_new_with_custom {M : Type -> Type} `{MRet M, MBind M} {E C : Type}
    (round creator : N) (edges : IdSet B) (transactions : list Tx)
    (sign : SignableVertex -> M (Result (Sig * N * C) E)) : M (Result (Vertex * C) E) :=
  let address := DagAddress_new round creator in
  let signable_vertex := SignableVertex_new address edges transactions in
  r ← sign signable_vertex;
  mret (match r with
        | Ok (signature, counter, custom) =>
            Ok (mkVertex transactions (mkSigned signable_vertex signature counter), custom)
        | Err e => Err e
        end).

Definition Vertex_new {M : Type -> Type} `{MRet M, MBind M} {E : Type}
    (round creator : N) (edges : IdSet B) (transactions : list Tx)
    (sign : SignableVertex -> M (Result (Sig * N) E)) : M (Result Vertex E) :=
  r ← Vertex_new_with_custom round creator edges transactions
        (fun v => r ← sign v;
                  mret (match r with Ok (a, b) => Ok (a, b, ()) | Err e => Err e end));
  mret (match r with Ok (s, tt) => Ok s | Err e => Err e end).

Definition Vertex_new_with_signature (round creator : N) (edges : IdSet B)
    (transactions : list Tx) (signature : Sig) (counter : N) : Vertex :=
  mkVertex transactions
    (mkSigned (SignableVertex_new (DagAddress_new round creator) edges transactions)
              signature counter).

(** ** Serialisation *)

Inductive SerValue :=
| SerU64 (n : N)
| SerSet (s : IdSet B)
| SerTxs (txs : list Tx)
| SerSig (s : Sig).

Inductive SerdeError :=
| invalid_length (k : nat)
| invalid_type
| unknown_field
| duplicate_field (name : string)
| missing_field (name : string).

Definition Vertex_serialize (v : Vertex) : list (string * SerValue) :=
  [("round", SerU64 (Vertex_round v));
   ("creator", SerU64 (Vertex_creator v));
   ("edges", SerSet (Vertex_edges v));
   ("transactions", SerTxs (v_transactions v));
   ("signature", SerSig (Vertex_signature v));
   ("counter", SerU64 (Vertex_counter v))]%string.

Inductive VertexVisitorField :=
| FRound | FCreator | FEdges | FTransactions | FSignature | FCounter.

Definition VertexVisitorField_of (name : string) : option VertexVisitorField :=
  if bool_decide (name = "round")%string then Some FRound
  else if bool_decide (name = "creator")%string then Some FCreator
  else if bool_decide (name = "edges")%string then Some FEdges
  else if bool_decide (name = "transactions")%string then Some FTransactions
  else if bool_decide (name = "signature")%string then Some FSignature
  else if bool_decide (name = "counter")%string then Some FCounter
  else None.

Definition as_u64_value (x : SerValue) : option N :=
  match x with SerU64 n => Some n | _ => None end.
Definition as_set_value (x : SerValue) : option (IdSet B) :=
  match x with SerSet s => Some s | _ => None end.
Definition as_txs_value (x : SerValue) : option (list Tx) :=
  match x with SerTxs t => Some t | _ => None end.
Definition as_sig_value (x : SerValue) : option Sig :=
  match x with SerSig s => Some s | _ => None end.

(** [seq.next_element::<T>()?.ok_or_else(|| invalid_length(k, ..))?] *)
Definition next_element {T} (k : nat) (get : SerValue -> option T) (seq : list SerValue)
    : Result (T * list SerValue) SerdeError :=
  match seq with
  | [] => Err (invalid_length k)
  | x :: seq => match get x with Some t => Ok (t, seq) | None => Err invalid_type end
  end.

Definition res_bind {T U E} (r : Result T E) (f : T -> Result U E) : Result U E :=
  match r with Ok t => f t | Err e => Err e end.

Definition VertexVisitor_visit_seq (seq : list SerValue) : Result Vertex SerdeError :=
  res_bind (next_element 0 as_u64_value seq) (fun '(round, seq) =>
  res_bind (next_element 1 as_u64_value seq) (fun '(creator, seq) =>
  res_bind (next_element 2 as_set_value seq) (fun '(edges, seq) =>
  res_bind (next_element 3 as_txs_value seq) (fun '(transactions, seq) =>
  res_bind (next_element 4 as_sig_value seq) (fun '(signature, seq) =>
  res_bind (next_element 5 as_u64_value seq) (fun '(counter, seq) =>
  Ok (Vertex_new_with_signature round creator edges transactions signature counter))))))).

Record VisitorState := mkVisitor {
  vs_round : option N; vs_creator : option N; vs_edges : option (IdSet B);
  vs_transactions : option (list Tx); vs_signature : option Sig; vs_counter : option N;
}.
#[export] Instance VisitorState_eta : Eta VisitorState := fun s =>
  mkVisitor (vs_round s) (vs_creator s) (vs_edges s) (vs_transactions s) (vs_signature s)
            (vs_counter s).

(** One arm of the [match key]: a field seen before is an error, else its value is read. *)
Definition visit_field {T} (name : string) (seen : option T) (get : SerValue -> option T)
    (value : SerValue) (store : T -> VisitorState) : Result VisitorState SerdeError :=
  match seen with
  | Some _ => Err (duplicate_field name)
  | None => match get value with Some t => Ok (store t) | None => Err invalid_type end
  end.

Fixpoint visit_map_loop (map : list (string * SerValue)) (s : VisitorState)
    : Result VisitorState SerdeError :=
  match map with
  | [] => Ok s
  | (name, value) :: map =>
      match VertexVisitorField_of name with
      | None => Err unknown_field
      | Some k =>
          res_bind
            (match k with
             | FRound => visit_field "round" (vs_round s) as_u64_value value
                           (fun t => s.[vs_round := Some t])
             | FCreator => visit_field "creator" (vs_creator s) as_u64_value value
                           (fun t => s.[vs_creator := Some t])
             | FEdges => visit_field "edges" (vs_edges s) as_set_value value
                           (fun t => s.[vs_edges := Some t])
             | FTransactions => visit_field "transactions" (vs_transactions s) as_txs_value value
                           (fun t => s.[vs_transactions := Some t])
             | FSignature => visit_field "signature" (vs_signature s) as_sig_value value
                           (fun t => s.[vs_signature := Some t])
             | FCounter => visit_field "counter" (vs_counter s) as_u64_value value
                           (fun t => s.[vs_counter := Some t])
             end)
            (visit_map_loop map)
      end
  end.

Definition ok_or_missing {T} (name : string) (o : option T) : Result T SerdeError :=
  match o with Some t => Ok t | None => Err (missing_field name) end.

Definition VertexVisitor_visit_map (map : list (string * SerValue)) : Result Vertex SerdeError :=
  res_bind (visit_map_loop map (mkVisitor None None None None None None)) (fun s =>
  res_bind (ok_or_missing "round" (vs_round s)) (fun round =>
  res_bind (ok_or_missing "creator" (vs_creator s)) (fun creator =>
  res_bind (ok_or_missing "edges" (vs_edges s)) (fun edges =>
  res_bind (ok_or_missing "transactions" (vs_transactions s)) (fun transactions =>
  res_bind (ok_or_missing "signature" (vs_signature s)) (fun signature =>
  res_bind (ok_or_missing "counter" (vs_counter s)) (fun counter =>
  Ok (Vertex_new_with_signature round creator edges transactions signature counter)))))))).

End vertex.
Arguments SignableVertex B : clear implicits.
Arguments SignedVertex B Sig : clear implicits.
Arguments Vertex B Tx Sig : clear implicits.
Arguments SerValue B Tx Sig : clear implicits.
