(* ===== verification/NxDag.v ===== *)
(** * NxBFT: the consensus DAG

    Models [src/atomic-broadcast/nxbft/nxbft/src/consensus_dag]: [VertexWithMeta]
    ([vertex.rs]), [DagRound] ([dag_round.rs]) and [Dag] ([mod.rs]).

    The loops that pop a stack or a queue ([deliver_from] and the two searches
    of [has_path]) run on fuel [search_fuel], one more than the number of
    edges of the DAG plus the number of its vertices, a bound on the number of
    pops that is proved sufficient in [NxDagSearch]. *)

From Stdlib Require Import ZArith Lia.
From stdpp Require Import base list gmap sets numbers option.
From S2P Require Import Prelude Ids Heaps NxBase.

Section dag.
  Context {P : Profile}.
  Context {B : Type} `{BitSet B}.
  Context {Tx Sig : Type}.

(** ** [VertexWithMeta] *)

Record VertexWithMeta := mkVM {
  vm_vertex : Vertex B Tx Sig;
  vm_delivered : bool;
  vm_path_explored : bool;
  vm_reaches : IdSet B;
}.

Definition VertexWithMeta_new (vertex : Vertex B Tx Sig) (reaches : IdSet B) : VertexWithMeta :=
  mkVM vertex false false reaches.
Definition VertexWithMeta_is_delivered (v : VertexWithMeta) : bool := vm_delivered v.
Definition VertexWithMeta_deliver (v : VertexWithMeta) : VertexWithMeta :=
  mkVM (vm_vertex v) true (vm_path_explored v) (vm_reaches v).
Definition VertexWithMeta_is_path_explored (v : VertexWithMeta) : bool := vm_path_explored v.
Definition VertexWithMeta_path_explore (v : VertexWithMeta) : VertexWithMeta :=
  mkVM (vm_vertex v) (vm_delivered v) true (vm_reaches v).
Definition VertexWithMeta_reaches_set (v : VertexWithMeta) : IdSet B := vm_reaches v.
Definition VertexWithMeta_reaches (v : VertexWithMeta) (replica : N) : bool :=
  IdSet_contains (vm_reaches v) replica.

(** ** [DagRound] *)

Record DagRound := mkRound {
  dr_vertices : list (option VertexWithMeta);
  dr_valid_vertice_count : N;
}.

Definition DagRound_new (n : N) : DagRound := mkRound ((fun _ => None) <$> range 0 n) 0.

Definition DagRound_get (r : DagRound) (creator : N) : option VertexWithMeta :=
  match nth_u64 (dr_vertices r) creator with
  | Some (Some v) => Some v
  | _ => None
  end.

(** [get_mut(creator)] followed by the write of [f] through the reference. *)
Definition DagRound_get_mut (r : DagRound) (creator : N) (f : VertexWithMeta -> VertexWithMeta)
    : Outcome DagRound :=
  slot ← unwrap (nth_u64 (dr_vertices r) creator);
  v ← unwrap slot;
  vs ← assign_u64 (dr_vertices r) creator (Some (f v));
  Val (mkRound vs (dr_valid_vertice_count r)).

Definition DagRound_all_valid_addresses (r : DagRound) : list DagAddress :=
  omap (fun o => (fun v => Vertex_address (vm_vertex v)) <$> o) (dr_vertices r).

Definition DagRound_insert (r : DagRound) (vertex : VertexWithMeta) : Outcome DagRound :=
  let creator := Vertex_creator (vm_vertex vertex) in
  vs ← assign_u64 (dr_vertices r) creator (Some vertex);
  c ← u64_add (dr_valid_vertice_count r) 1;
  Val (mkRound vs c).

Definition DagRound_prune (r : DagRound) : list (Vertex B Tx Sig) :=
  vm_vertex <$> List.filter (fun v => negb (VertexWithMeta_is_delivered v)) (omap id (dr_vertices r)).

(** ** [Dag] *)

Record Dag := mkDag {
  dag_n : N;
  dag_offset : N;
  dag_max_round : N;
  dag_rounds : list DagRound;
  dag_explored_from : N;
}.
#[export] Instance Dag_eta : Eta Dag := fun d =>
  mkDag (dag_n d) (dag_offset d) (dag_max_round d) (dag_rounds d) (dag_explored_from d).

Definition Dag_round_to_index (d : Dag) (round : N) : Outcome (option N) :=
  if (round <? dag_offset d)%N || (dag_max_round d <? round)%N then Val None
  else i ← id_diff round (dag_offset d); Val (Some i).

Definition Dag_get_with_meta (d : Dag) (address : DagAddress) : Outcome (option VertexWithMeta) :=
  rust_assert (da_creator address <? dag_n d)%N ;;
  i ← Dag_round_to_index d (da_round address);
  match i with
  | Some index =>
      r ← unwrap (nth_u64 (dag_rounds d) index);
      Val (DagRound_get r (da_creator address))
  | None => Val None
  end.

Definition Dag_get (d : Dag) (address : DagAddress) : Outcome (option (Vertex B Tx Sig)) :=
  v ← Dag_get_with_meta d address; Val (option_map vm_vertex v).

(** [get_mut(address)] followed by the write of [f] through the reference. *)
Definition Dag_get_mut (d : Dag) (address : DagAddress) (f : VertexWithMeta -> VertexWithMeta)
    : Outcome Dag :=
  i ← Dag_round_to_index d (da_round address);
  idx ← unwrap i;
  r ← unwrap (nth_u64 (dag_rounds d) idx);
  r' ← DagRound_get_mut r (da_creator address) f;
  rs ← assign_u64 (dag_rounds d) idx r';
  Val d.[dag_rounds := rs].

Definition Dag_knows (d : Dag) (address : DagAddress) : Outcome bool :=
  v ← Dag_get d address; Val (match v with Some _ => true | None => false end).

Definition Dag_get_round (d : Dag) (round : N) : Outcome (list DagAddress) :=
  i ← Dag_round_to_index d round;
  match i with
  | Some index => r ← index_u64 (dag_rounds d) index; Val (DagRound_all_valid_addresses r)
  | None => Val []
  end.

Definition Dag_get_round_valid_count (d : Dag) (round : N) : Outcome N :=
  i ← Dag_round_to_index d round;
  match i with
  | Some index => r ← index_u64 (dag_rounds d) index; Val (dr_valid_vertice_count r)
  | None => Val 0%N
  end.

Definition Dag_new_round (d : Dag) : Outcome Dag :=
  m ← id_add_assign (dag_max_round d) 1;
  Val d.[dag_rounds := dag_rounds d ++ [DagRound_new (dag_n d)]].[dag_max_round := m].

Definition Dag_new (n : N) : Outcome Dag :=
  Dag_new_round (mkDag n 1 0 [] 0).

(** The set of first-of-wave vertices a new vertex reaches, from its parents. *)
Definition Dag_insert_reaches (d : Dag) (vertex : Vertex B Tx Sig) : Outcome (IdSet B) :=
  let round := Vertex_round vertex in
  let reaches := IdSet_with_capacity (dag_n d) in
  if (round mod 4 =? 3)%N then
    for_each (IdSet_iter (Vertex_edges vertex)) reaches (fun reaches creator =>
      r ← id_sub round 1;
      v ← Dag_get d (DagAddress_new r creator);
      v ← unwrap v;
      Val (IdSet_merge reaches (Vertex_edges v)))
  else if (round mod 4 =? 0)%N then
    for_each (IdSet_iter (Vertex_edges vertex)) reaches (fun reaches creator =>
      r ← id_sub round 1;
      v ← Dag_get_with_meta d (DagAddress_new r creator);
      v ← unwrap v;
      Val (IdSet_merge reaches (VertexWithMeta_reaches_set v)))
  else Val reaches.

Definition Dag_insert (d : Dag) (vertex : Vertex B Tx Sig) : Outcome Dag :=
  k ← Dag_knows d (Vertex_address vertex);
  rust_assert (negb k) ;;
  i ← Dag_round_to_index d (Vertex_round vertex);
  rust_assert (bool_decide (is_Some i)) ;;
  reaches ← Dag_insert_reaches d vertex;
  let vertex := VertexWithMeta_new vertex reaches in
  i ← Dag_round_to_index d (Vertex_round (vm_vertex vertex));
  index ← unwrap i;
  r ← index_u64 (dag_rounds d) index;
  r' ← DagRound_insert r vertex;
  rs ← assign_u64 (dag_rounds d) index r';
  Val d.[dag_rounds := rs].

(** The sum of [w] over the vertices of the DAG, and with it a bound on the
    number of pops of a search. *)
Definition round_weight (w : VertexWithMeta -> nat) (r : DagRound) : nat :=
  list_sum (from_option w 0 <$> dr_vertices r).
Definition dag_weight (w : VertexWithMeta -> nat) (d : Dag) : nat :=
  list_sum (round_weight w <$> dag_rounds d).
Definition edge_weight (v : VertexWithMeta) : nat :=
  S (length (IdSet_iter (Vertex_edges (vm_vertex v)))).
Definition search_fuel (d : Dag) : nat := 2 + dag_weight edge_weight d.

(** The neighbours [deliver_from] pushes for one vertex. *)
Definition deliver_neighbors (d : Dag) (v_a : DagAddress) (max_depth : N) (stack : list DagAddress)
    : Outcome (list DagAddress) :=
  v ← Dag_get d v_a;
  v ← unwrap v;
  for_each (IdSet_iter (Vertex_edges v)) stack (fun stack edge =>
    r ← id_sub (da_round v_a) 1;
    let neighbor := DagAddress_new r edge in
    if (da_round neighbor <? max_depth)%N then Val stack else
    m ← Dag_get_with_meta d neighbor;
    m ← unwrap m;
    if VertexWithMeta_is_delivered m then Val stack else
    k ← Dag_knows d neighbor;
    if negb k then Val stack else
    Val (neighbor :: stack)).

(** The stack is a list with its top first. *)
Fixpoint deliver_loop (fuel : nat) (d : Dag) (max_depth : N) (stack delivered : list DagAddress)
    : Outcome (list DagAddress * Dag) :=
  match fuel with
  | O => NoFuel
  | S fuel =>
      match stack with
      | [] => Val (delivered, d)
      | v_a :: stack =>
          m ← Dag_get_with_meta d v_a;
          m ← unwrap m;
          if VertexWithMeta_is_delivered m then deliver_loop fuel d max_depth stack delivered else
          stack ← deliver_neighbors d v_a max_depth stack;
          d ← Dag_get_mut d v_a VertexWithMeta_deliver;
          deliver_loop fuel d max_depth stack (delivered ++ [v_a])
      end
  end.

Definition Dag_deliver_from (d : Dag) (address : DagAddress) (max_depth : N)
    : Outcome (list DagAddress * Dag) :=
  k ← Dag_knows d address;
  rust_assert k ;;
  rust_assert (max_depth <=? da_round address)%N ;;
  m ← Dag_get_with_meta d address;
  m ← unwrap m;
  if VertexWithMeta_is_delivered m then Val ([], d) else
  deliver_loop (search_fuel d) d max_depth [address] [].

(** [queue.push_front] / [queue.push_back] of a neighbour. *)
Definition enqueue (to : DagAddress) (edge : N) (neighbor : DagAddress) (queue : list DagAddress)
    : list DagAddress :=
  if (edge =? da_creator to)%N then neighbor :: queue else queue ++ [neighbor].

Fixpoint best_first_search_inplace_loop (fuel : nat) (d : Dag) (to : DagAddress)
    (queue : list DagAddress) : Outcome (bool * Dag) :=
  match fuel with
  | O => NoFuel
  | S fuel =>
      match queue with
      | [] => Val (false, d)
      | v_a :: queue =>
          if bool_decide (v_a = to) then Val (true, d) else
          m ← Dag_get_with_meta d v_a;
          m ← unwrap m;
          if VertexWithMeta_is_path_explored m
          then best_first_search_inplace_loop fuel d to queue else
          v ← Dag_get d v_a;
          v ← unwrap v;
          queue ← for_each (IdSet_iter (Vertex_edges v)) queue (fun queue edge =>
            r ← id_sub (da_round v_a) 1;
            let neighbor := DagAddress_new r edge in
            m ← Dag_get_with_meta d neighbor;
            m ← unwrap m;
            if VertexWithMeta_is_path_explored m then Val queue else
            k ← Dag_knows d neighbor;
            if negb k then Val queue else
            Val (enqueue to edge neighbor queue));
          d ← Dag_get_mut d v_a VertexWithMeta_path_explore;
          best_first_search_inplace_loop fuel d to queue
      end
  end.

Definition Dag_best_first_search_inplace (d : Dag) (from to : DagAddress) : Outcome (bool * Dag) :=
  best_first_search_inplace_loop (search_fuel d) d to [from].

Fixpoint best_first_search_expensive_loop (fuel : nat) (d : Dag) (to : DagAddress)
    (queue : list DagAddress) (seen : gset DagAddress) : Outcome bool :=
  match fuel with
  | O => NoFuel
  | S fuel =>
      match queue with
      | [] => Val false
      | v_a :: queue =>
          if bool_decide (v_a = to) then Val true else
          v ← Dag_get d v_a;
          v ← unwrap v;
          qs ← for_each (IdSet_iter (Vertex_edges v)) (queue, seen) (fun '(queue, seen) edge =>
            r ← id_sub (da_round v_a) 1;
            let neighbor := DagAddress_new r edge in
            if bool_decide (neighbor ∈ seen) then Val (queue, seen) else
            k ← Dag_knows d neighbor;
            if negb k then Val (queue, seen) else
            Val (enqueue to edge neighbor queue, {[neighbor]} ∪ seen));
          best_first_search_expensive_loop fuel d to qs.1 qs.2
      end
  end.

Definition Dag_best_first_search_expensive (d : Dag) (from to : DagAddress) : Outcome bool :=
  best_first_search_expensive_loop (search_fuel d) d to [from] {[from]}.

Definition Dag_has_path (d : Dag) (from to : DagAddress) : Outcome (bool * Dag) :=
  k ← Dag_knows d from; rust_assert k ;;
  k ← Dag_knows d to; rust_assert k ;;
  rust_assert (da_round to <? da_round from)%N ;;
  if (dag_explored_from d <? da_round from)%N then
    Dag_best_first_search_inplace d.[dag_explored_from := da_round from] from to
  else
    b ← Dag_best_first_search_expensive d from to; Val (b, d).

Definition Dag_prune (d : Dag) (limit : N) : Outcome (N * N * list (Vertex B Tx Sig) * Dag) :=
  rust_assert ((dag_offset d <=? limit)%N && (limit <=? dag_max_round d)%N) ;;
  k ← id_diff limit (dag_offset d);
  rust_assert (k <=? N.of_nat (length (dag_rounds d)))%N ;;
  let undelivered := concat (DagRound_prune <$> take (N.to_nat k) (dag_rounds d)) in
  let old_offset := dag_offset d in
  let d := d.[dag_rounds := drop (N.to_nat k) (dag_rounds d)].[dag_offset := limit] in
  Val (old_offset, dag_offset d, undelivered, d).

Definition Dag_reaches (d : Dag) (address : DagAddress) (replica : N) : Outcome bool :=
  m ← Dag_get_with_meta d address;
  m ← unwrap m;
  Val (VertexWithMeta_reaches m replica).

(** [dag[idx]] *)
Definition Dag_index (d : Dag) (idx : DagAddress) : Outcome (Vertex B Tx Sig) :=
  v ← Dag_get d idx; unwrap v.

End dag.
Arguments VertexWithMeta B Tx Sig : clear implicits.
Arguments DagRound B Tx Sig : clear implicits.
Arguments Dag B Tx Sig : clear implicits.
Arguments search_fuel : simpl never.
