(* ===== verification/NxDagFacts.v ===== *)
(** * NxBFT: the DAG as a finite map

    The vertices of a [Dag] seen as a partial function of their addresses
    ([present]), the shape invariant of the rounds, and what every operation
    does to [present]. *)

From Stdlib Require Import ZArith Lia.
From stdpp Require Import base list gmap sets numbers option.
From S2P Require Import Prelude Ids Heaps NxBase NxDag.

Section dag_facts.
  Context {P : Profile}.
  Context {B : Type} `{BitSetLaws B}.
  Context {Tx Sig : Type}.
  Implicit Types (d : Dag B Tx Sig) (a b : DagAddress) (v : VertexWithMeta B Tx Sig)
    (r : DagRound B Tx Sig).

Definition present (d : Dag B Tx Sig) (a : DagAddress) : option (VertexWithMeta B Tx Sig) :=
  if bool_decide (dag_offset d <= da_round a)%N then
    match dag_rounds d !! N.to_nat (da_round a - dag_offset d) with
    | Some r => DagRound_get r (da_creator a)
    | None => None
    end
  else None.

Record Dag_shape (d : Dag B Tx Sig) : Prop := {
  shape_offset : (1 <= dag_offset d)%N;
  shape_len : (N.of_nat (length (dag_rounds d)) + dag_offset d = dag_max_round d + 1)%N;
  shape_max_round : is_u64 (dag_max_round d);
  shape_n : is_u64 (dag_n d);
  shape_width : Forall (fun r => N.of_nat (length (dr_vertices r)) = dag_n d) (dag_rounds d);
  shape_count : Forall (fun r => dr_valid_vertice_count r
                                 = N.of_nat (length (omap id (dr_vertices r)))) (dag_rounds d);
  shape_address : forall a v, present d a = Some v -> Vertex_address (vm_vertex v) = a;
}.

Lemma DagRound_get_lookup r c :
  DagRound_get r c = match dr_vertices r !! N.to_nat c with Some (Some v) => Some v | _ => None end.
Proof. unfold DagRound_get. by rewrite nth_u64_lookup. Qed.

Lemma round_to_index_in d x :
  (dag_offset d <= x <= dag_max_round d)%N ->
  Dag_round_to_index d x = Val (Some (x - dag_offset d)%N).
Proof.
  intros Hx. unfold Dag_round_to_index.
  rewrite (proj2 (N.ltb_ge _ _)), (proj2 (N.ltb_ge _ _)) by lia. simpl.
  unfold id_diff. by rewrite u64_sub_Val by (unfold as_u64; lia).
Qed.

Lemma round_to_index_out d x :
  (x < dag_offset d \/ dag_max_round d < x)%N -> Dag_round_to_index d x = Val None.
Proof.
  intros Hx. unfold Dag_round_to_index.
  destruct (N.ltb_spec x (dag_offset d)); [done|].
  destruct (N.ltb_spec (dag_max_round d) x); [done|]. lia.
Qed.

Lemma dag_round_lookup d x :
  Dag_shape d -> (dag_offset d <= x <= dag_max_round d)%N ->
  exists r, dag_rounds d !! N.to_nat (x - dag_offset d) = Some r
    /\ N.of_nat (length (dr_vertices r)) = dag_n d
    /\ dr_valid_vertice_count r = N.of_nat (length (omap id (dr_vertices r))).
Proof.
  intros Hs Hx. destruct (lookup_lt_is_Some_2 (dag_rounds d) (N.to_nat (x - dag_offset d)))
    as [r Hr]; [pose proof (shape_len d Hs); lia|].
  exists r. split; [done|]. split.
  - eapply (list.Forall_lookup_1 _ _ _ _ (shape_width d Hs) Hr).
  - eapply (list.Forall_lookup_1 _ _ _ _ (shape_count d Hs) Hr).
Qed.

Lemma present_in d a v :
  Dag_shape d -> present d a = Some v ->
  (dag_offset d <= da_round a <= dag_max_round d)%N /\ (da_creator a < dag_n d)%N.
Proof.
  intros Hs. unfold present. case_bool_decide as Ho; [|done].
  destruct (dag_rounds d !! _) as [r|] eqn:Hr; [|done].
  rewrite DagRound_get_lookup. intros Hv.
  destruct (dr_vertices r !! N.to_nat (da_creator a)) eqn:Hc; [|done].
  apply lookup_lt_Some in Hc.
  pose proof (list.Forall_lookup_1 _ _ _ _ (shape_width d Hs) Hr) as Hw; simpl in Hw.
  apply lookup_lt_Some in Hr. pose proof (shape_len d Hs). lia.
Qed.

Lemma get_with_meta_present d a :
  Dag_shape d -> (da_creator a < dag_n d)%N -> Dag_get_with_meta d a = Val (present d a).
Proof.
  intros Hs Hc. unfold Dag_get_with_meta, present.
  rewrite (proj2 (N.ltb_lt _ _) Hc). simpl.
  destruct (decide (dag_offset d <= da_round a <= dag_max_round d)%N) as [Hin|Hout].
  - rewrite round_to_index_in by done. simpl. rewrite nth_u64_lookup.
    destruct (dag_round_lookup d (da_round a) Hs Hin) as (r & -> & _). simpl.
    by rewrite bool_decide_eq_true_2 by lia.
  - rewrite round_to_index_out by lia. simpl. case_bool_decide as Ho; [|done].
    destruct (dag_rounds d !! _) eqn:Hr; [|done].
    apply lookup_lt_Some in Hr. pose proof (shape_len d Hs). lia.
Qed.

Lemma get_present d a :
  Dag_shape d -> (da_creator a < dag_n d)%N -> Dag_get d a = Val (option_map vm_vertex (present d a)).
Proof. intros Hs Hc. unfold Dag_get. by rewrite get_with_meta_present. Qed.

Lemma knows_present d a :
  Dag_shape d -> (da_creator a < dag_n d)%N -> Dag_knows d a = Val (bool_decide (is_Some (present d a))).
Proof.
  intros Hs Hc. unfold Dag_knows. rewrite get_present by done. simpl. f_equal.
  by destruct (present d a).
Qed.

(** An address with a creator that is no replica makes every lookup panic. *)
Lemma knows_bad_creator d a : (dag_n d <= da_creator a)%N -> Dag_knows d a = Panic.
Proof.
  intros Hc. unfold Dag_knows, Dag_get, Dag_get_with_meta.
  by rewrite (proj2 (N.ltb_ge _ _) Hc).
Qed.

Lemma get_some d a v :
  Dag_shape d -> present d a = Some v ->
  Dag_get_with_meta d a = Val (Some v) /\ Dag_get d a = Val (Some (vm_vertex v))
  /\ Dag_knows d a = Val true.
Proof.
  intros Hs Hv. destruct (present_in d a v Hs Hv) as [_ Hc].
  rewrite get_with_meta_present, get_present, knows_present, Hv by done.
  by rewrite bool_decide_eq_true_2 by eauto.
Qed.

(** ** Writing one slot *)

(** [d'] is [d] with the slot at [a] holding [v]. *)
Definition dag_set (d d' : Dag B Tx Sig) (a : DagAddress) (v : VertexWithMeta B Tx Sig) : Prop :=
  Dag_shape d' /\ (forall b, present d' b = if decide (b = a) then Some v else present d b)
  /\ dag_n d' = dag_n d /\ dag_offset d' = dag_offset d /\ dag_max_round d' = dag_max_round d
  /\ dag_explored_from d' = dag_explored_from d.

Lemma dag_write_slot d a v k r count :
  Dag_shape d -> Vertex_address (vm_vertex v) = a ->
  dag_rounds d !! k = Some r -> N.to_nat (da_round a - dag_offset d) = k ->
  (dag_offset d <= da_round a)%N -> (da_creator a < dag_n d)%N ->
  count = N.of_nat (length (omap id (<[N.to_nat (da_creator a) := Some v]> (dr_vertices r)))) ->
  dag_set d
    d.[dag_rounds := <[k := mkRound (<[N.to_nat (da_creator a) := Some v]> (dr_vertices r)) count]>
                       (dag_rounds d)] a v.
Proof.
  intros Hs Ha Hr Hk Ho Hc Hcount.
  pose proof (list.Forall_lookup_1 _ _ _ _ (shape_width d Hs) Hr) as Hw; simpl in Hw.
  set (d' := d.[dag_rounds := _]).
  assert (forall b, present d' b = if decide (b = a) then Some v else present d b) as Hp.
  { intros b. unfold present, d'. simpl. case_decide as Hba.
    - subst b. rewrite bool_decide_eq_true_2, Hk by done.
      rewrite list_lookup_insert_eq by (by eapply lookup_lt_Some).
      rewrite DagRound_get_lookup. simpl. by rewrite list_lookup_insert_eq by lia.
    - case_bool_decide as Hob; [|done].
      destruct (decide (N.to_nat (da_round b - dag_offset d) = k)) as [Hkb|Hkb].
      + rewrite Hkb, list_lookup_insert_eq, Hr by (by eapply lookup_lt_Some).
        rewrite !DagRound_get_lookup. simpl. rewrite list_lookup_insert_ne; [done|].
        intros Heq. apply Hba. destruct a, b. simpl in *. f_equal; lia.
      + by rewrite list_lookup_insert_ne by done. }
  split; [|by split].
  destruct Hs as [H1 H2 H3 H4 H5 H6 H7]. split; unfold d' in *; simpl in *; try done.
  - by rewrite length_insert.
  - apply Forall_insert; [done|]. simpl. by rewrite length_insert.
  - by apply Forall_insert.
  - intros b w. rewrite Hp. case_decide; [by intros [= <-]; subst|apply H7].
Qed.

Lemma get_mut_present d a v f :
  Dag_shape d -> present d a = Some v -> vm_vertex (f v) = vm_vertex v ->
  exists d', Dag_get_mut d a f = Val d' /\ dag_set d d' a (f v).
Proof.
  intros Hs Hv Hf. destruct (present_in d a v Hs Hv) as [Hin Hc].
  unfold Dag_get_mut. rewrite round_to_index_in by done. simpl.
  destruct (dag_round_lookup d (da_round a) Hs Hin) as (r & Hr & Hw & Hcount).
  rewrite nth_u64_lookup, Hr. simpl.
  pose proof Hv as Hv'. unfold present in Hv'. rewrite bool_decide_eq_true_2, Hr in Hv' by lia.
  rewrite DagRound_get_lookup in Hv'.
  destruct (dr_vertices r !! N.to_nat (da_creator a)) as [[w|]|] eqn:Hslot; try done.
  injection Hv' as ->.
  unfold DagRound_get_mut. rewrite nth_u64_lookup, Hslot. simpl.
  rewrite assign_u64_Val by lia. simpl.
  rewrite assign_u64_Val by (apply lookup_lt_Some in Hr; lia). simpl.
  eexists. split; [done|]. eapply dag_write_slot; try done; try lia.
  - rewrite Hf. by eapply shape_address.
  - rewrite Hcount. by erewrite omap_id_update.
Qed.

Lemma dag_insert_present d x :
  let a := Vertex_address x in
  Dag_shape d -> present d a = None ->
  (dag_offset d <= da_round a <= dag_max_round d)%N -> (da_creator a < dag_n d)%N ->
  forall reaches, Dag_insert_reaches d x = Val reaches ->
  exists d', Dag_insert d x = Val d' /\ dag_set d d' a (VertexWithMeta_new x reaches).
Proof.
  intros a Hs Hnone Hin Hc reaches Hreach. unfold Dag_insert.
  rewrite knows_present by done. fold a. rewrite Hnone. simpl.
  change (Vertex_round x) with (da_round a). rewrite round_to_index_in by done. simpl.
  rewrite Hreach. simpl.
  destruct (dag_round_lookup d (da_round a) Hs Hin) as (r & Hr & Hw & Hcount).
  rewrite (index_u64_Val _ _ _ Hr). simpl.
  unfold present in Hnone. rewrite bool_decide_eq_true_2, Hr in Hnone by lia.
  rewrite DagRound_get_lookup in Hnone.
  destruct (lookup_lt_is_Some_2 (dr_vertices r) (N.to_nat (da_creator a))) as [o Ho]; [lia|].
  rewrite Ho in Hnone. destruct o; [done|].
  unfold DagRound_insert. simpl. change (Vertex_creator x) with (da_creator a).
  rewrite assign_u64_Val by lia. simpl. rewrite u64_add_Val; simpl.
  2:{ pose proof (length_omap_id_lt _ _ Ho). pose proof (shape_n d Hs). unfold is_u64 in *.
      rewrite Hcount. lia. }
  rewrite assign_u64_Val by (apply lookup_lt_Some in Hr; lia). simpl.
  eexists. split; [done|]. eapply dag_write_slot; try done; try lia.
  erewrite omap_id_insert by done. lia.
Qed.

(** Inserting a vertex whose round is outside the rounds of the DAG panics. *)
Lemma dag_insert_out_of_range d x :
  let a := Vertex_address x in
  Dag_shape d -> (da_creator a < dag_n d)%N ->
  (da_round a < dag_offset d \/ dag_max_round d < da_round a)%N -> Dag_insert d x = Panic.
Proof.
  intros a Hs Hc Hout. unfold Dag_insert. rewrite knows_present by done.
  simpl. destruct (bool_decide _); [done|]. simpl.
  change (Vertex_round x) with (da_round a). by rewrite round_to_index_out.
Qed.

Lemma dag_new_round_present d :
  Dag_shape d -> is_u64 (dag_max_round d + 1) ->
  exists d', Dag_new_round d = Val d' /\ Dag_shape d' /\ (forall b, present d' b = present d b)
    /\ dag_n d' = dag_n d /\ dag_offset d' = dag_offset d
    /\ dag_max_round d' = (dag_max_round d + 1)%N /\ dag_explored_from d' = dag_explored_from d.
Proof.
  intros Hs Hm. unfold Dag_new_round, id_add_assign. unfold is_u64 in Hm.
  rewrite u64_add_Val by done. simpl.
  set (d' := mkDag _ _ _ _ _). exists d'. split; [done|].
  assert (forall b, present d' b = present d b) as Hp.
  { intros b. unfold present, d'. simpl. case_bool_decide; [|done].
    destruct (decide (N.to_nat (da_round b - dag_offset d) < length (dag_rounds d))) as [Hlt|Hge].
    - by rewrite lookup_app_l.
    - rewrite lookup_app_r by lia.
      rewrite (proj2 (lookup_ge_None (dag_rounds d) _)) by lia.
      destruct (N.to_nat (da_round b - dag_offset d) - length (dag_rounds d)) as [|k]; simpl; [|done].
      rewrite DagRound_get_lookup. simpl. rewrite list_lookup_fmap.
      by destruct (range 0 (dag_n d) !! N.to_nat (da_creator b)). }
  split; [|by split].
  destruct Hs as [H1 H2 H3 H4 H5 H6 H7]. split; unfold d' in *; simpl in *; try done.
  - rewrite length_app. simpl. lia.
  - apply Forall_app. split; [done|]. repeat constructor. simpl.
    rewrite length_fmap, length_range. lia.
  - apply Forall_app. split; [done|]. repeat constructor. simpl.
    generalize (range 0 (dag_n d)). induction l; simpl; done.
  - intros b w. rewrite Hp. apply H7.
Qed.

Lemma dag_new_shape n :
  is_u64 n ->
  exists d, Dag_new n = Val d /\ Dag_shape d /\ (forall b, present d b = None)
    /\ dag_n d = n /\ dag_offset d = 1%N /\ dag_max_round d = 1%N /\ dag_explored_from d = 0%N.
Proof.
  intros Hn. unfold Dag_new.
  assert (Dag_shape (mkDag n 1 0 [] 0 : Dag B Tx Sig)) as Hs.
  { split; simpl; try done. intros a v. unfold present. simpl. by case_bool_decide. }
  destruct (dag_new_round_present _ Hs) as (d & -> & Hd & Hp & ? & ? & ? & ?); [done|].
  exists d. repeat split; try done; try apply Hd.
  intros b. rewrite Hp. unfold present. simpl. by case_bool_decide.
Qed.

(** [get_round] lists the addresses of the vertices of a round, and [get_round_valid_count] counts them. *)
Lemma get_round_present d x :
  Dag_shape d ->
  exists l, Dag_get_round d x = Val l
    /\ (forall a, a ∈ l <-> da_round a = x /\ is_Some (present d a))
    /\ Dag_get_round_valid_count d x = Val (N.of_nat (length l)).
Proof.
  intros Hs. unfold Dag_get_round, Dag_get_round_valid_count.
  destruct (decide (dag_offset d <= x <= dag_max_round d)%N) as [Hin|Hout].
  - rewrite round_to_index_in by done. simpl.
    destruct (dag_round_lookup d x Hs Hin) as (r & Hr & Hw & Hcount).
    rewrite (index_u64_Val _ _ _ Hr). simpl. eexists. split; [done|]. split.
    + intros a. unfold DagRound_all_valid_addresses. rewrite list_elem_of_omap. split.
      * intros (o & Ho & Ha). apply list_elem_of_lookup in Ho as [c Hc].
        destruct o as [v|]; simpl in Ha; [|done]. injection Ha as Ha.
        assert (present d (mkDagAddress x (N.of_nat c)) = Some v) as Hv.
        { unfold present. simpl. rewrite bool_decide_eq_true_2, Hr by lia.
          rewrite DagRound_get_lookup. by rewrite Nat2N.id, Hc. }
        rewrite (shape_address d Hs _ _ Hv) in Ha. subst a. simpl. by rewrite Hv.
      * intros [<- [v Hv]]. exists (Some v).
        pose proof (shape_address d Hs _ _ Hv) as Ha. simpl. rewrite Ha. split; [|done].
        unfold present in Hv. rewrite bool_decide_eq_true_2, Hr in Hv by lia.
        rewrite DagRound_get_lookup in Hv.
        destruct (dr_vertices r !! _) as [[w|]|] eqn:Hw'; simplify_eq.
        by eapply list_elem_of_lookup_2.
    + rewrite Hcount. do 2 f_equal. unfold DagRound_all_valid_addresses.
      generalize (dr_vertices r). induction l as [|[w|] l IH]; csimpl; congruence.
  - rewrite round_to_index_out by lia. simpl. exists []. split; [done|]. split; [|done].
    intros a. split; [by intros ?%not_elem_of_nil|]. intros [<- [v Hv]].
    apply present_in in Hv; [|done]. lia.
Qed.

Lemma dag_prune_present d limit :
  Dag_shape d -> (dag_offset d <= limit <= dag_max_round d)%N ->
  exists u d', Dag_prune d limit = Val (dag_offset d, limit, u, d') /\ Dag_shape d'
    /\ (forall a, present d' a = if decide (limit <= da_round a)%N then present d a else None)
    /\ (forall x, x ∈ u <-> exists a v, present d a = Some v /\ (da_round a < limit)%N
                                      /\ vm_delivered v = false /\ vm_vertex v = x).
Proof.
  intros Hs Hlim. unfold Dag_prune.
  rewrite (proj2 (N.leb_le _ _)), (proj2 (N.leb_le _ _)) by lia. simpl.
  unfold id_diff, as_u64. rewrite u64_sub_Val by lia. simpl.
  pose proof (shape_len d Hs) as Hlen.
  rewrite (proj2 (N.leb_le _ _)) by lia. simpl.
  set (k := N.to_nat (limit - dag_offset d)).
  set (d' := mkDag _ _ _ _ _). eexists _, d'. split; [done|].
  assert (forall a, present d' a = if decide (limit <= da_round a)%N then present d a else None) as Hp.
  { intros a. unfold present, d'. simpl. case_decide as Hl.
    - rewrite !bool_decide_eq_true_2 by lia. rewrite lookup_drop.
      replace (k + N.to_nat (da_round a - limit)) with (N.to_nat (da_round a - dag_offset d)) by lia.
      done.
    - by rewrite bool_decide_eq_false_2. }
  split; [|split; [done|]].
  - destruct Hs as [H1 H2 H3 H4 H5 H6 H7]. split; unfold d' in *; simpl in *; try done.
    + lia.
    + rewrite length_drop. lia.
    + by apply Forall_drop.
    + by apply Forall_drop.
    + intros b w. rewrite Hp. case_decide; [apply H7|done].
  - intros x. rewrite list_elem_of_In, in_concat. split.
    + intros (u & Hu & Hx). apply list_elem_of_In, list_elem_of_fmap in Hu as (r & -> & Hr).
      apply list_elem_of_In in Hx. unfold DagRound_prune in Hx.
      apply list_elem_of_fmap in Hx as (v & -> & Hv).
      apply list_elem_of_In, filter_In in Hv as [Hv Hd]. apply list_elem_of_In in Hv.
      apply list_elem_of_omap in Hv as (o & Ho & Hov). simpl in Hov. subst o.
      apply list_elem_of_lookup in Ho as [c Hc]. apply list_elem_of_lookup in Hr as [i Hi].
      apply lookup_take_Some in Hi as [Hi Hik].
      exists (mkDagAddress (dag_offset d + N.of_nat i) (N.of_nat c)), v.
      split; [|split; [|split]]; simpl; try done.
      * unfold present. simpl. rewrite bool_decide_eq_true_2 by lia.
        replace (N.to_nat (dag_offset d + N.of_nat i - dag_offset d)) with i by lia.
        rewrite Hi, DagRound_get_lookup. by rewrite Nat2N.id, Hc.
      * lia.
      * by apply negb_true_iff in Hd.
    + intros (a & v & Hv & Ha & Hd & <-). unfold present in Hv.
      case_bool_decide as Ho; [|done].
      destruct (dag_rounds d !! _) as [r|] eqn:Hr; [|done].
      rewrite DagRound_get_lookup in Hv.
      destruct (dr_vertices r !! _) as [[w|]|] eqn:Hw; simplify_eq.
      exists (DagRound_prune r). split.
      * apply list_elem_of_In, list_elem_of_fmap. exists r. split; [done|].
        eapply list_elem_of_lookup_2. apply lookup_take_Some. split; [exact Hr|lia].
      * apply list_elem_of_In, list_elem_of_fmap. exists v. split; [done|].
        apply list_elem_of_In, filter_In. split; [|unfold VertexWithMeta_is_delivered; by rewrite Hd].
        apply list_elem_of_In, list_elem_of_omap. exists (Some v). split; [|done].
        by eapply list_elem_of_lookup_2.
Qed.

Lemma get_round_nodup d x l : Dag_shape d -> Dag_get_round d x = Val l -> NoDup l.
Proof.
  intros Hs. unfold Dag_get_round.
  destruct (decide (dag_offset d <= x <= dag_max_round d)%N) as [Hin|Hout].
  2:{ rewrite round_to_index_out by lia. intros [= <-]. constructor. }
  rewrite round_to_index_in by done. simpl.
  destruct (dag_round_lookup d x Hs Hin) as (r & Hr & _). rewrite (index_u64_Val _ _ _ Hr). simpl.
  intros [= <-]. unfold DagRound_all_valid_addresses. apply NoDup_omap_lookup.
  assert (forall i v, dr_vertices r !! i = Some (Some v) ->
    Vertex_address (vm_vertex v) = mkDagAddress x (N.of_nat i)) as Haddr.
  { intros i v Hv. apply (shape_address d Hs). unfold present. simpl.
    rewrite bool_decide_eq_true_2, Hr by lia. rewrite DagRound_get_lookup. by rewrite Nat2N.id, Hv. }
  intros i j [v|] [w|] b Hi Hj Hv Hw; simplify_eq/=.
  rewrite (Haddr i v Hi), (Haddr j w Hj) in *. simplify_eq. lia.
Qed.

End dag_facts.

#[export] Hint Resolve shape_offset shape_n shape_max_round : core.
