(* ===== verification/NxDagGraph.v ===== *)
(** * NxBFT: the graph of the DAG and the meaning of [reaches]

    The graph of a [Dag] ([dag_edge]), the invariant that parents are present
    and its preservation by [Dag_new], [Dag_new_round] and [Dag_insert], and the
    meaning of the [reaches] sets [Dag_insert] computes. *)

From Stdlib Require Import ZArith Lia.
From stdpp Require Import base list gmap sets numbers option relations.
From S2P Require Import Prelude Ids Heaps NxBase NxDag NxDagFacts.

Section dag_graph.
  Context {P : Profile}.
  Context {B : Type} `{BitSetLaws B}.
  Context {Tx Sig : Type}.
  Implicit Types (d : Dag B Tx Sig) (a b : DagAddress) (v : VertexWithMeta B Tx Sig).

(** ** The graph *)

Definition has_edge (v : VertexWithMeta B Tx Sig) (c : N) : Prop :=
  IdSet_contains (Vertex_edges (vm_vertex v)) c = true.

(** [a] lists [b] as a parent, and both are in the DAG. *)
Definition dag_edge (d : Dag B Tx Sig) (a b : DagAddress) : Prop :=
  exists v, present d a = Some v /\ has_edge v (da_creator b)
    /\ (da_round b + 1 = da_round a)%N /\ is_Some (present d b).

Definition dag_path (d : Dag B Tx Sig) : relation DagAddress := rtc (dag_edge d).

(** Shape, and: edges name replicas, vertices of round one have none, and the
    parents of every vertex above the pruning limit are present. *)
Record Dag_inv (d : Dag B Tx Sig) : Prop := {
  inv_shape : Dag_shape d;
  inv_edges : forall a v c, present d a = Some v -> has_edge v c ->
    (c < dag_n d)%N /\ (1 < da_round a)%N
    /\ ((dag_offset d < da_round a)%N -> is_Some (present d (mkDagAddress (da_round a - 1) c)));
}.

Lemma has_edge_iter v c : has_edge v c <-> c ∈ IdSet_iter (Vertex_edges (vm_vertex v)).
Proof. unfold has_edge. by rewrite IdSet_elem_of_iter. Qed.

Lemma dag_edge_round d a b : dag_edge d a b -> (da_round b + 1 = da_round a)%N.
Proof. by intros (v & _ & _ & ? & _). Qed.

Lemma dag_path_round d a b : dag_path d a b -> a = b \/ (da_round b < da_round a)%N.
Proof.
  induction 1 as [|a b c He _ IH]; [by left|]. right. apply dag_edge_round in He.
  destruct IH as [->|IH]; lia.
Qed.

Lemma dag_path_present d a b : dag_path d a b -> is_Some (present d a) -> is_Some (present d b).
Proof. induction 1 as [|a b c (v & _ & _ & _ & Hb) _ IH]; auto. Qed.

(** ** [Dag::new], [new_round] and [insert] keep the invariant *)

Lemma Dag_new_inv n : is_u64 n -> exists d, Dag_new n = Val d /\ Dag_inv d /\ dag_n d = n
  /\ dag_offset d = 1%N /\ dag_max_round d = 1%N /\ (forall b, present d b = None)
  /\ dag_explored_from d = 0%N.
Proof.
  intros Hn. destruct (dag_new_shape (B:=B) (Tx:=Tx) (Sig:=Sig) n Hn) as (d & Hd & Hs & Hp & Hdn & Ho & Hm & He).
  exists d. repeat split; try done; try apply Hs. all: rewrite Hp in *; done.
Qed.

Lemma Dag_new_round_inv d :
  Dag_inv d -> is_u64 (dag_max_round d + 1) ->
  exists d', Dag_new_round d = Val d' /\ Dag_inv d' /\ (forall b, present d' b = present d b)
    /\ dag_n d' = dag_n d /\ dag_offset d' = dag_offset d
    /\ dag_max_round d' = (dag_max_round d + 1)%N /\ dag_explored_from d' = dag_explored_from d.
Proof.
  intros [Hs He] Hm. destruct (dag_new_round_present d Hs Hm) as (d' & Hd & Hs' & Hp & Hn & Ho & ? & ?).
  exists d'. repeat split; try done; try apply Hs'; rewrite ?Hp in *; rewrite ?Hn, ?Ho;
    by eapply He.
Qed.

(** What [insert] needs of a new vertex: a free slot of an existing round, and
    every parent in the DAG. *)
Definition insertable (d : Dag B Tx Sig) (x : Vertex B Tx Sig) : Prop :=
  present d (Vertex_address x) = None
  /\ (dag_offset d <= Vertex_round x <= dag_max_round d)%N
  /\ (Vertex_creator x < dag_n d)%N
  /\ (forall c, IdSet_contains (Vertex_edges x) c = true ->
        (c < dag_n d)%N /\ (Vertex_round x <> 0)%N
        /\ is_Some (present d (mkDagAddress (Vertex_round x - 1) c))).

(** The parents' contribution to the [reaches] set of a new vertex. *)
Definition parent_set (d : Dag B Tx Sig) (x : Vertex B Tx Sig) (c : N) : gset N :=
  match present d (mkDagAddress (Vertex_round x - 1) c) with
  | Some v => if (Vertex_round x mod 4 =? 3)%N then to_gset (Vertex_edges (vm_vertex v))
              else to_gset (vm_reaches v)
  | None => ∅
  end.

Lemma for_each_merge (es : list N) (s : IdSet B) (body : IdSet B -> N -> Outcome (IdSet B))
    (X : N -> gset N) :
  (forall s c, c ∈ es -> exists t, body s c = Val t /\ to_gset t = to_gset s ∪ X c) ->
  exists t, for_each es s body = Val t
    /\ (forall l, l ∈ to_gset t <-> l ∈ to_gset s \/ exists c, c ∈ es /\ l ∈ X c).
Proof.
  revert s. induction es as [|c es IH]; intros s Hb; simpl.
  - exists s. split; [done|]. intros l. split; [by left|].
    intros [?|(c & Hc & _)]; [done|by apply not_elem_of_nil in Hc].
  - destruct (Hb s c) as (t & -> & Ht); [set_solver|]. simpl.
    destruct (IH t) as (u & Hu & Hl). { intros. apply Hb. set_solver. }
    exists u. split; [done|]. intros l. rewrite Hl, Ht. set_solver.
Qed.

Lemma Dag_insert_reaches_spec d x :
  Dag_inv d -> insertable d x ->
  exists t, Dag_insert_reaches d x = Val t
    /\ forall l, l ∈ to_gset t <->
         (Vertex_round x mod 4 = 3 \/ Vertex_round x mod 4 = 0)%N
         /\ exists c, IdSet_contains (Vertex_edges x) c = true /\ l ∈ parent_set d x c.
Proof.
  intros [Hs _] (_ & Hr & _ & Hpar). unfold Dag_insert_reaches.
  pose proof (shape_offset d Hs) as Hoff.
  destruct (N.eqb_spec (Vertex_round x mod 4) 3) as [E3|E3];
    [|destruct (N.eqb_spec (Vertex_round x mod 4) 0) as [E0|E0]].
  1,2: edestruct (for_each_merge (IdSet_iter (Vertex_edges x)) (IdSet_with_capacity (dag_n d)))
      with (X := parent_set d x) as (t & Ht & Hl);
    [|eexists; split; [exact Ht|]; intros l; rewrite Hl, to_gset_with_capacity;
      setoid_rewrite IdSet_elem_of_iter; set_solver].
  1,2: intros s c Hc; apply IdSet_elem_of_iter in Hc; destruct (Hpar c Hc) as (Hcn & _ & v & Hv);
    unfold id_sub, as_u64; rewrite u64_sub_Val by lia; simpl; unfold DagAddress_new;
    destruct (get_some d _ v Hs Hv) as (Hg1 & Hg2 & _); rewrite ?Hg1, ?Hg2; simpl;
    eexists; split; [done|]; rewrite IdSet_merge_spec; unfold parent_set; rewrite Hv;
    unfold VertexWithMeta_reaches_set.
  - by rewrite (proj2 (N.eqb_eq _ _) E3).
  - by rewrite (proj2 (N.eqb_neq _ _) E3).
  - eexists. split; [done|]. intros l. rewrite to_gset_with_capacity. set_solver.
Qed.

(** Writing a slot keeps the invariant when the parents of what is written are present. *)
Lemma dag_set_inv d d' a v :
  Dag_inv d -> dag_set d d' a v ->
  (forall c, has_edge v c -> (c < dag_n d)%N /\ (1 < da_round a)%N
     /\ ((dag_offset d < da_round a)%N -> is_Some (present d (mkDagAddress (da_round a - 1) c)))) ->
  Dag_inv d'.
Proof.
  intros [Hs He] (Hs' & Hp & Hn & Ho & _) Hv. split; [done|].
  assert (forall b, is_Some (present d b) -> is_Some (present d' b)) as Hmono.
  { intros b Hb. rewrite Hp. case_decide; eauto. }
  intros b w c. rewrite Hn, Ho, Hp. case_decide as Heq; [intros [= <-]; subst|]; intros.
  - destruct (Hv c) as (? & ? & ?); eauto.
  - destruct (He b w c) as (? & ? & ?); eauto.
Qed.

Lemma Dag_insert_spec d x :
  Dag_inv d -> insertable d x ->
  exists d' t, Dag_insert d x = Val d' /\ Dag_insert_reaches d x = Val t /\ Dag_inv d'
    /\ dag_set d d' (Vertex_address x) (VertexWithMeta_new x t).
Proof.
  intros Hinv Hx. destruct (Dag_insert_reaches_spec d x Hinv Hx) as (t & Ht & _).
  pose proof Hx as (Hnone & Hr & Hc & Hpar).
  destruct (dag_insert_present d x (inv_shape d Hinv) Hnone Hr Hc t Ht) as (d' & Hd & Hset).
  exists d', t. repeat (split; [done|]). split; [|done].
  eapply dag_set_inv; [done..|]. intros c Hedge. destruct (Hpar c Hedge) as (Hcn & _ & Hsome).
  split; [done|]. split; [|by intros _].
  destruct Hsome as [w Hw]. apply present_in in Hw; [|apply Hinv]. simpl in Hw.
  pose proof (shape_offset d (inv_shape d Hinv)).
  change (Vertex_round x) with (da_round (Vertex_address x)) in Hw. lia.
Qed.

(** A new vertex has no children, so paths between older vertices do not change. *)
Lemma dag_edge_insert d d' x t :
  Dag_inv d -> insertable d x -> dag_set d d' (Vertex_address x) (VertexWithMeta_new x t) ->
  forall a b, dag_edge d' a b <->
    dag_edge d a b
    \/ (a = Vertex_address x /\ (da_round b + 1 = da_round a)%N
        /\ IdSet_contains (Vertex_edges x) (da_creator b) = true).
Proof.
  intros Hinv (Hnone & Hr & Hc & Hpar) (Hs' & Hp & Hn & Ho & _) a b. unfold dag_edge.
  rewrite !Hp. split.
  - intros (v & Hv & He & Hrb & Hb).
    destruct (decide (a = Vertex_address x)) as [Heq|Heq]; [injection Hv as <-; by right|].
    left. exists v. repeat (split; [done|]).
    destruct (decide (b = Vertex_address x)) as [Hbx|Hbx]; [|done]. subst b.
    exfalso. destruct (inv_edges d Hinv a v _ Hv He) as (_ & _ & Hpres).
    destruct Hpres as [w Hw]. { change (Vertex_round x) with (da_round (Vertex_address x)) in Hr. lia. }
    replace (da_round a - 1)%N with (da_round (Vertex_address x)) in Hw by lia.
    destruct (Vertex_address x); simpl in *. congruence.
  - intros [(v & Hv & He & Hrb & Hb)|(-> & Hrb & He)].
    + exists v. rewrite decide_False by (intros ->; congruence). repeat (split; [done|]).
      case_decide; eauto.
    + exists (VertexWithMeta_new x t). rewrite decide_True by done. repeat (split; [done|]).
      case_decide; [eauto|]. destruct (Hpar _ He) as (_ & _ & Hb).
      change (Vertex_round x) with (da_round (Vertex_address x)) in Hb.
      replace (da_round (Vertex_address x) - 1)%N with (da_round b) in Hb by lia. by destruct b.
Qed.

Lemma dag_path_insert d d' x t :
  Dag_inv d -> insertable d x -> dag_set d d' (Vertex_address x) (VertexWithMeta_new x t) ->
  forall a b, a <> Vertex_address x -> dag_path d' a b <-> dag_path d a b.
Proof.
  intros Hinv Hx Hset a b Ha. pose proof (dag_edge_insert d d' x t Hinv Hx Hset) as He. split.
  - intros Hp. revert Ha. induction Hp as [|a b c Hab _ IH]; intros Ha; [apply rtc_refl|].
    apply He in Hab as [Hab|(-> & _)]; [|done]. eapply rtc_l; [done|]. apply IH.
    intros ->. destruct Hab as (_ & _ & _ & _ & [w Hw]). destruct Hx as [Hnone _]. congruence.
  - intros Hp. eapply rtc_congruence with (f := id); [|done]. intros. apply He. by left.
Qed.

(** ** What the [reaches] sets mean *)

Lemma dag_path_cons d a b :
  (da_round b < da_round a)%N -> dag_path d a b <-> exists m, dag_edge d a m /\ dag_path d m b.
Proof.
  intros Hr. split; [|intros (m & ? & ?); by eapply rtc_l].
  intros Hp. inversion Hp; subst; [lia|]. eauto.
Qed.

Lemma dag_path_edge d a b : (da_round b + 1 = da_round a)%N -> dag_path d a b <-> dag_edge d a b.
Proof.
  intros Hr. rewrite dag_path_cons by lia. split.
  - intros (m & Hm & Hp). pose proof (dag_edge_round _ _ _ Hm).
    destruct (dag_path_round _ _ _ Hp) as [->|?]; [done|lia].
  - intros He. exists b. split; [done|]. apply rtc_refl.
Qed.

(** In the third and fourth round of a wave, [reaches] is the set of creators
    whose vertex in the wave's first round can be reached. *)
Definition Reach_inv (d : Dag B Tx Sig) : Prop :=
  forall a v l, present d a = Some v ->
    ((da_round a mod 4 = 3)%N ->
       l ∈ to_gset (vm_reaches v) <-> dag_path d a (mkDagAddress (da_round a - 2) l))
    /\ ((da_round a mod 4 = 0)%N ->
       l ∈ to_gset (vm_reaches v) <-> dag_path d a (mkDagAddress (da_round a - 3) l)).

Lemma mod4_3 r : (r mod 4 = 3)%N -> (3 <= r)%N.
Proof. intros Hr. pose proof (N.div_mod r 4). lia. Qed.

Lemma mod4_0 r : (r mod 4 = 0)%N -> (r <> 0)%N -> (4 <= r)%N /\ ((r - 1) mod 4 = 3)%N.
Proof.
  intros Hr Hr0. pose proof (N.div_mod r 4). split; [lia|].
  by rewrite <-(N.mod_unique (r - 1) 4 (r / 4 - 1) 3) by lia.
Qed.

(** A path from a new vertex to a vertex at least two rounds below starts at one of its parents. *)
Lemma new_vertex_path d d' x t b :
  Dag_inv d -> insertable d x -> dag_set d d' (Vertex_address x) (VertexWithMeta_new x t) ->
  (da_round b + 1 < Vertex_round x)%N ->
  dag_path d' (Vertex_address x) b <->
  exists c, IdSet_contains (Vertex_edges x) c = true
            /\ dag_path d (mkDagAddress (Vertex_round x - 1) c) b.
Proof.
  intros Hinv Hx Hset Hb. pose proof (dag_edge_insert d d' x t Hinv Hx Hset) as He.
  pose proof (dag_path_insert d d' x t Hinv Hx Hset) as Hpath. destruct Hx as (Hnone & _).
  change (Vertex_round x) with (da_round (Vertex_address x)) in *.
  set (r := da_round (Vertex_address x)) in *.
  rewrite dag_path_cons by (fold r; lia). split.
  - intros (m & Hm & Hmb). apply He in Hm as [(w & Hw & _)|(_ & Hrm & Hc)]; [congruence|].
    exists (da_creator m). split; [done|]. fold r in Hrm.
    replace (r - 1)%N with (da_round m) by lia.
    rewrite Hpath in Hmb; [by destruct m|]. intros ->. fold r in Hrm. lia.
  - intros (c & Hc & Hcb). exists (mkDagAddress (r - 1) c). split.
    + apply He. right. simpl. fold r. split; [done|]. split; [lia|done].
    + apply Hpath; [|done]. intros Heq. apply (f_equal da_round) in Heq.
      simpl in Heq. fold r in Heq. lia.
Qed.

Lemma parent_set_mod3 d x c l :
  Dag_inv d -> dag_offset d = 1%N -> insertable d x -> (Vertex_round x mod 4 = 3)%N ->
  IdSet_contains (Vertex_edges x) c = true ->
  l ∈ parent_set d x c
  <-> dag_path d (mkDagAddress (Vertex_round x - 1) c) (mkDagAddress (Vertex_round x - 2) l).
Proof.
  intros Hinv Hoff (_ & _ & _ & Hpar) Hmod Hc. destruct (Hpar c Hc) as (_ & _ & w & Hw).
  pose proof (mod4_3 _ Hmod). rewrite dag_path_edge by (simpl; lia).
  unfold parent_set. rewrite Hw, Hmod. simpl. rewrite elem_of_to_gset. split.
  - intros Hl. destruct (inv_edges d Hinv _ _ _ Hw Hl) as (_ & Hr1 & Hpres). simpl in Hr1, Hpres.
    exists w. repeat (split; [done|]). simpl. split; [lia|].
    replace (Vertex_round x - 2)%N with (Vertex_round x - 1 - 1)%N by lia. apply Hpres. lia.
  - intros (w' & Hw' & Hl & _). rewrite Hw in Hw'. by injection Hw' as <-.
Qed.

Lemma parent_set_mod0 d x c l :
  Reach_inv d -> insertable d x -> (Vertex_round x mod 4 = 0)%N -> (Vertex_round x <> 0)%N ->
  IdSet_contains (Vertex_edges x) c = true ->
  l ∈ parent_set d x c
  <-> dag_path d (mkDagAddress (Vertex_round x - 1) c) (mkDagAddress (Vertex_round x - 3) l).
Proof.
  intros Hreach (_ & _ & _ & Hpar) Hmod Hr0 Hc. destruct (Hpar c Hc) as (_ & _ & w & Hw).
  destruct (mod4_0 _ Hmod Hr0) as [H4 H3]. unfold parent_set. rewrite Hw, Hmod. simpl.
  destruct (Hreach _ _ l Hw) as [Hpar3 _]. rewrite Hpar3 by done. simpl.
  by replace (Vertex_round x - 1 - 2)%N with (Vertex_round x - 3)%N by lia.
Qed.

Lemma Reach_inv_insert d d' x t :
  Dag_inv d -> Reach_inv d -> dag_offset d = 1%N -> insertable d x ->
  Dag_insert_reaches d x = Val t ->
  dag_set d d' (Vertex_address x) (VertexWithMeta_new x t) -> Reach_inv d'.
Proof.
  intros Hinv Hreach Hoff Hx Ht Hset a v l Hv.
  pose proof Hset as (_ & Hp & _). rewrite Hp in Hv. case_decide as Ha.
  2:{ rewrite !(dag_path_insert d d' x t) by done. by apply Hreach. }
  injection Hv as <-. subst a. simpl. pose proof Hx as (_ & Hr & _).
  destruct (Dag_insert_reaches_spec d x Hinv Hx) as (t' & Ht' & Hl).
  rewrite Ht in Ht'. injection Ht' as <-. rewrite Hl.
  change (da_round (Vertex_address x)) with (Vertex_round x). split; intros Hmod.
  - pose proof (mod4_3 _ Hmod). rewrite (new_vertex_path d d' x t) by (done || simpl; lia).
    split; [intros (_ & c & Hc & Hlc)|intros (c & Hc & Hlc); split; [by left|]];
      exists c; (split; [done|]); by eapply parent_set_mod3.
  - destruct (mod4_0 _ Hmod) as [H4 _]; [lia|].
    rewrite (new_vertex_path d d' x t) by (done || simpl; lia).
    split; [intros (_ & c & Hc & Hlc)|intros (c & Hc & Hlc); split; [by right|]];
      exists c; (split; [done|]); (eapply parent_set_mod0; [done..|lia|done|done]).
Qed.
End dag_graph.
