(* ===== verification/NxDagSearch.v ===== *)
(** * NxBFT: the searches of the DAG

    Correctness and termination of the depth-first delivery [deliver_from] and
    of the two best-first searches behind [has_path]; the invariant of every
    DAG the replica can build ([dag_built]). *)

From Stdlib Require Import ZArith Lia.
From stdpp Require Import base list gmap sets numbers option relations.
From S2P Require Import Prelude Ids Heaps NxBase NxDag NxDagFacts NxDagGraph.

Section dag_search.
  Context {P : Profile}.
  Context {B : Type} `{BitSetLaws B}.
  Context {Tx Sig : Type}.
  Implicit Types (d : Dag B Tx Sig) (a b : DagAddress) (v : VertexWithMeta B Tx Sig).

(** ** Changes of flags *)

(** [d'] has the same vertices and [reaches] sets as [d]; flags may differ. *)
Record same_graph (d d' : Dag B Tx Sig) : Prop := {
  sg_shape : Dag_shape d';
  sg_n : dag_n d' = dag_n d;
  sg_offset : dag_offset d' = dag_offset d;
  sg_max_round : dag_max_round d' = dag_max_round d;
  sg_present : forall a,
    option_map (fun v => (vm_vertex v, vm_reaches v)) (present d' a)
    = option_map (fun v => (vm_vertex v, vm_reaches v)) (present d a);
}.

Lemma same_graph_refl d : Dag_shape d -> same_graph d d.
Proof. by split. Qed.

Lemma same_graph_trans d1 d2 d3 : same_graph d1 d2 -> same_graph d2 d3 -> same_graph d1 d3.
Proof. intros [] []. split; congruence. Qed.

Lemma same_graph_Some d d' a v :
  same_graph d d' -> present d a = Some v ->
  exists v', present d' a = Some v' /\ vm_vertex v' = vm_vertex v /\ vm_reaches v' = vm_reaches v.
Proof.
  intros Hg Hv. pose proof (sg_present _ _ Hg a) as Hp. rewrite Hv in Hp. simpl in Hp.
  destruct (present d' a) as [v'|]; simplify_eq/=. eauto.
Qed.

Lemma same_graph_Some_inv d d' a v' :
  same_graph d d' -> present d' a = Some v' ->
  exists v, present d a = Some v /\ vm_vertex v' = vm_vertex v /\ vm_reaches v' = vm_reaches v.
Proof.
  intros Hg Hv. pose proof (sg_present _ _ Hg a) as Hp. rewrite Hv in Hp. simpl in Hp.
  destruct (present d a) as [v|]; simplify_eq/=. eauto.
Qed.

Lemma same_graph_is_Some d d' a :
  same_graph d d' -> is_Some (present d' a) <-> is_Some (present d a).
Proof.
  intros Hg. split; intros [v Hv].
  - apply (same_graph_Some_inv d d') in Hv as (? & ? & _); eauto.
  - apply (same_graph_Some d d') in Hv as (? & ? & _); eauto.
Qed.

Lemma same_graph_edge d d' a b : same_graph d d' -> dag_edge d' a b <-> dag_edge d a b.
Proof.
  intros Hg. unfold dag_edge. setoid_rewrite (same_graph_is_Some d d' b Hg).
  split; intros (v & Hv & He & Hrest).
  - apply (same_graph_Some_inv d d') in Hv as (v' & Hv' & Hx & _); [|done].
    exists v'. unfold has_edge in *. by rewrite <-Hx.
  - apply (same_graph_Some d d') in Hv as (v' & Hv' & Hx & _); [|done].
    exists v'. unfold has_edge in *. by rewrite Hx.
Qed.

Lemma same_graph_path d d' a b : same_graph d d' -> dag_path d' a b <-> dag_path d a b.
Proof. intros Hg. apply rtc_equiv. intros. by apply same_graph_edge. Qed.

Lemma same_graph_inv d d' : same_graph d d' -> Dag_inv d -> Dag_inv d'.
Proof.
  intros Hg [Hs He]. split; [apply Hg|]. intros a v c Hv Hc.
  apply (same_graph_Some_inv d d') in Hv as (w & Hw & Hx & _); [|done].
  rewrite (sg_n _ _ Hg), (sg_offset _ _ Hg).
  destruct (He a w c) as (? & ? & ?); [done|unfold has_edge in *; by rewrite <-Hx|].
  repeat split; try done. intros. rewrite same_graph_is_Some by done. auto.
Qed.

Lemma same_graph_Reach d d' : same_graph d d' -> Reach_inv d -> Reach_inv d'.
Proof.
  intros Hg Hr a v l Hv. apply (same_graph_Some_inv d d') in Hv as (w & Hw & _ & ->); [|done].
  rewrite !(same_graph_path d d') by done. by apply Hr.
Qed.

(** ** Weights *)

Lemma get_mut_weight d a v f d' w :
  Dag_shape d -> present d a = Some v -> Dag_get_mut d a f = Val d' ->
  dag_weight w d' + w v = dag_weight w d + w (f v).
Proof.
  intros Hs Hv. destruct (present_in d a v Hs Hv) as [Hin Hc].
  unfold Dag_get_mut. rewrite round_to_index_in by done. simpl.
  destruct (dag_round_lookup d (da_round a) Hs Hin) as (r & Hr & Hw & _).
  rewrite nth_u64_lookup, Hr. simpl.
  unfold present in Hv. rewrite bool_decide_eq_true_2, Hr in Hv by lia.
  rewrite DagRound_get_lookup in Hv.
  destruct (dr_vertices r !! N.to_nat (da_creator a)) as [[x|]|] eqn:Hslot; simplify_eq.
  unfold DagRound_get_mut. rewrite nth_u64_lookup, Hslot. simpl.
  rewrite assign_u64_Val by lia. simpl.
  rewrite assign_u64_Val by (apply lookup_lt_Some in Hr; lia). simpl. intros [= <-].
  unfold dag_weight. simpl. 
  pose proof (list_sum_insert (round_weight w) (dag_rounds d) _ r
    (mkRound (<[N.to_nat (da_creator a) := Some (f v)]> (dr_vertices r)) (dr_valid_vertice_count r)) Hr) as H1.
  pose proof (list_sum_insert (from_option w 0) (dr_vertices r) _ _ (Some (f v)) Hslot) as H2.
  unfold round_weight in H1 at 2 4. simpl in *. lia.
Qed.

(** Flipping a flag of a present vertex is a change of flags. *)
Lemma flag_same_graph d d' a v v' :
  Dag_shape d -> present d a = Some v -> dag_set d d' a v' ->
  vm_vertex v' = vm_vertex v -> vm_reaches v' = vm_reaches v -> same_graph d d'.
Proof.
  intros Hs Hv (Hs' & Hp & Hn & Ho & Hm & _) Hx Hr. split; try done.
  intros b. rewrite Hp. case_decide; [|done]. subst b. rewrite Hv. simpl. congruence.
Qed.

(** ** [deliver_from] *)

Definition deliveredb (d : Dag B Tx Sig) (a : DagAddress) : bool :=
  from_option vm_delivered false (present d a).
Definition exploredb (d : Dag B Tx Sig) (a : DagAddress) : bool :=
  from_option vm_path_explored false (present d a).

Definition undelivered_weight (v : VertexWithMeta B Tx Sig) : nat :=
  if vm_delivered v then 0 else edge_weight v.

(** The parents of [a] that [deliver_from] has not delivered yet and may go down to. *)
Definition deliverable (d : Dag B Tx Sig) (lo : N) (b : DagAddress) : bool :=
  negb (da_round b <? lo)%N && negb (deliveredb d b).

Definition deliver_step (d : Dag B Tx Sig) (lo : N) (a b : DagAddress) : Prop :=
  dag_edge d a b /\ deliverable d lo b = true.

(** The searches look at parents of rounds at or above [lo] only; those are not pruned. *)
Definition depth_ok (d : Dag B Tx Sig) (lo : N) : Prop := dag_offset d = 1%N \/ (dag_offset d <= lo)%N.

Definition pushed (d : Dag B Tx Sig) (lo : N) (a : DagAddress) (v : VertexWithMeta B Tx Sig)
    (stack : list DagAddress) : list DagAddress :=
  foldl (fun s e => if deliverable d lo (mkDagAddress (da_round a - 1) e)
                    then mkDagAddress (da_round a - 1) e :: s else s)
        stack (IdSet_iter (Vertex_edges (vm_vertex v))).

Lemma deliver_neighbors_pushed d a v lo stack :
  Dag_inv d -> depth_ok d lo -> present d a = Some v ->
  deliver_neighbors d a lo stack = Val (pushed d lo a v stack).
Proof.
  intros Hinv Hlo Hv. pose proof (inv_shape d Hinv) as Hs. unfold deliver_neighbors.
  destruct (get_some d a v Hs Hv) as (_ & -> & _). simpl.
  apply (for_each_pure
    (fun s e => if deliverable d lo (mkDagAddress (da_round a - 1) e)
                then mkDagAddress (da_round a - 1) e :: s else s) _ _ _ (fun _ => True)); [|done].
  intros s e He%has_edge_iter _. split; [|done].
  destruct (inv_edges d Hinv a v e Hv He) as (Hen & Hr1 & Hpar).
  unfold id_sub, as_u64. rewrite u64_sub_Val by lia. simpl. unfold deliverable, DagAddress_new. simpl.
  destruct (N.ltb_spec (da_round a - 1) lo) as [Hlt|Hge]; [done|]. simpl.
  destruct Hpar as [w Hw]; [destruct Hlo; lia|].
  destruct (get_some d _ w Hs Hw) as (-> & _ & ->). unfold deliveredb. rewrite Hw. simpl.
  unfold VertexWithMeta_is_delivered. by destruct (vm_delivered w).
Qed.

Lemma elem_of_pushed d a v lo stack b :
  Dag_inv d -> depth_ok d lo -> present d a = Some v ->
  b ∈ pushed d lo a v stack <-> b ∈ stack \/ deliver_step d lo a b.
Proof.
  intros Hinv Hlo Hv. unfold pushed.
  rewrite (elem_of_foldl_push (deliverable d lo) (fun e => mkDagAddress (da_round a - 1) e)).
  unfold deliver_step, dag_edge. split; (intros [?|Hb]; [by left|right]).
  - destruct Hb as (e & He & -> & Hd). apply has_edge_iter in He.
    destruct (inv_edges d Hinv a v e Hv He) as (_ & Hr1 & Hpar).
    split; [|done]. exists v. simpl. repeat (split; [done|]). split; [lia|].
    apply Hpar. unfold deliverable in Hd. simpl in Hd. apply andb_true_iff in Hd as [Hd _].
    apply negb_true_iff, N.ltb_ge in Hd. destruct Hlo; lia.
  - destruct Hb as ((w & Hw & He & Hr & _) & Hd). simplify_eq.
    exists (da_creator b). apply has_edge_iter in He. split; [done|]. split; [|done].
    destruct b; simpl in *. f_equal. lia.
Qed.

Lemma length_pushed d a v lo stack :
  length (pushed d lo a v stack) + 1 <= edge_weight v + length stack.
Proof.
  unfold pushed, edge_weight.
  pose proof (length_foldl_push (deliverable d lo) (fun e => mkDagAddress (da_round a - 1) e)
    (IdSet_iter (Vertex_edges (vm_vertex v))) stack). lia.
Qed.

(** The state of the loop of [deliver_from], started at [start] on [d0]. *)
Record deliver_inv (d0 : Dag B Tx Sig) (lo : N) (start : DagAddress)
    (d : Dag B Tx Sig) (stack out : list DagAddress) : Prop := {
  di_graph : same_graph d0 d;
  di_stack : forall b, b ∈ stack -> rtc (deliver_step d0 lo) start b;
  di_out : forall b, b ∈ out -> rtc (deliver_step d0 lo) start b;
  di_flags : forall b, deliveredb d b = deliveredb d0 b || bool_decide (b ∈ out);
  di_explored : forall b, exploredb d b = exploredb d0 b;
  di_nodup : NoDup out;
  di_closed : forall a b, a ∈ out -> deliver_step d0 lo a b -> b ∈ out \/ b ∈ stack;
  di_start : start ∈ out \/ start ∈ stack;
  di_from : dag_explored_from d = dag_explored_from d0;
}.

Lemma deliver_reach d0 lo start b :
  is_Some (present d0 start) -> deliveredb d0 start = false ->
  rtc (deliver_step d0 lo) start b -> is_Some (present d0 b) /\ deliveredb d0 b = false.
Proof.
  intros Hsome Hd Hr. apply (rtc_closed (deliver_step d0 lo)
    (fun b => is_Some (present d0 b) /\ deliveredb d0 b = false) start); [|done..].
  intros x y _ [(_ & _ & _ & _ & Hy) Hdel]. split; [done|].
  unfold deliverable in Hdel. apply andb_true_iff in Hdel as [_ Hdel]. by apply negb_true_iff in Hdel.
Qed.

(** One turn of the loop on a vertex that is not delivered yet. *)
Lemma deliver_turn d0 lo start d a stack out :
  Dag_inv d0 -> depth_ok d0 lo -> is_Some (present d0 start) -> deliveredb d0 start = false ->
  deliver_inv d0 lo start d (a :: stack) out -> deliveredb d a = false ->
  exists v d', present d a = Some v /\ deliver_neighbors d a lo stack = Val (pushed d lo a v stack)
    /\ Dag_get_mut d a VertexWithMeta_deliver = Val d'
    /\ deliver_inv d0 lo start d' (pushed d lo a v stack) (out ++ [a])
    /\ dag_weight undelivered_weight d' + edge_weight v = dag_weight undelivered_weight d.
Proof.
  intros Hinv0 Hlo Hsome Hnd Hi Ha. pose proof (di_graph _ _ _ _ _ _ Hi) as Hg.
  pose proof (same_graph_inv _ _ Hg Hinv0) as Hinv. pose proof (inv_shape d Hinv) as Hs.
  assert (rtc (deliver_step d0 lo) start a) as Hra by (eapply di_stack; [done|set_solver]).
  destruct (deliver_reach d0 lo start a Hsome Hnd Hra) as [Ha0 Hd0].
  apply (same_graph_is_Some _ _ _ Hg) in Ha0 as [v Hv].
  assert (depth_ok d lo) as Hlo' by (unfold depth_ok in *; by rewrite (sg_offset _ _ Hg)).
  destruct (get_mut_present d a v VertexWithMeta_deliver Hs Hv) as (d' & Hd' & Hset); [done|].
  exists v, d'. split; [done|]. split; [by apply deliver_neighbors_pushed|]. split; [done|].
  pose proof (get_mut_weight d a v _ d' undelivered_weight Hs Hv Hd') as Hw.
  unfold deliveredb in Ha. rewrite Hv in Ha. simpl in Ha.
  unfold undelivered_weight in Hw at 2 4. simpl in Hw. rewrite Ha in Hw. split; [|lia].
  assert (a ∉ out) as Hnew.
  { intros Hin. pose proof (di_flags _ _ _ _ _ _ Hi a) as Hf. unfold deliveredb at 1 in Hf.
    rewrite Hv, bool_decide_eq_true_2, orb_true_r in Hf by done. simpl in Hf. congruence. }
  assert (forall x y, deliver_step d lo x y <-> deliver_step d0 lo x y /\ y ∉ out) as Hstep.
  { intros x y. unfold deliver_step. rewrite (same_graph_edge _ _ _ _ Hg). unfold deliverable.
    rewrite (di_flags _ _ _ _ _ _ Hi). rewrite negb_orb, !andb_true_iff, !negb_true_iff.
    rewrite bool_decide_eq_false. tauto. }
  pose proof (flag_same_graph d d' a v _ Hs Hv Hset eq_refl eq_refl) as Hg'.
  destruct Hset as (Hs' & Hp & _ & _ & _ & Hfrom).
  split.
  - by eapply same_graph_trans.
  - intros b. rewrite elem_of_pushed by done. intros [Hb|Hb]; [eapply di_stack; [done|set_solver]|].
    apply Hstep in Hb as [Hb _]. by eapply rtc_r.
  - intros b [Hb|Hb]%elem_of_app; [by eapply di_out|]. apply list_elem_of_singleton in Hb as ->. done.
  - intros b. unfold deliveredb at 1. rewrite Hp. case_decide as Hb.
    + subst b. simpl. rewrite (bool_decide_eq_true_2 (a ∈ out ++ [a])) by set_solver.
      by rewrite orb_true_r.
    + change (from_option vm_delivered false (present d b)) with (deliveredb d b).
      rewrite (di_flags _ _ _ _ _ _ Hi). f_equal. apply bool_decide_ext. set_solver.
  - intros b. unfold exploredb at 1. rewrite Hp. case_decide as Hb; [|apply Hi].
    subst b. rewrite <-(di_explored _ _ _ _ _ _ Hi). unfold exploredb. by rewrite Hv.
  - apply NoDup_app. split; [apply Hi|]. split; [set_solver|apply NoDup_singleton].
  - intros x y Hx Hxy. rewrite elem_of_app, elem_of_pushed by done.
    destruct (decide (y ∈ out)) as [|Hy]; [tauto|]. apply elem_of_app in Hx as [Hx|Hx].
    + destruct (di_closed _ _ _ _ _ _ Hi x y Hx Hxy) as [|[->|]%elem_of_cons]; set_solver.
    + apply list_elem_of_singleton in Hx as ->. right. right. by apply Hstep.
  - rewrite elem_of_app, elem_of_pushed by done.
    destruct (di_start _ _ _ _ _ _ Hi) as [|[->|]%elem_of_cons]; set_solver.
  - rewrite Hfrom. apply Hi.
Qed.

Lemma deliver_loop_spec fuel d0 lo start d stack out :
  Dag_inv d0 -> depth_ok d0 lo -> is_Some (present d0 start) -> deliveredb d0 start = false ->
  deliver_inv d0 lo start d stack out ->
  dag_weight undelivered_weight d + length stack < fuel ->
  exists out' d', deliver_loop fuel d lo stack out = Val (out', d')
    /\ deliver_inv d0 lo start d' [] out' /\ out `prefix_of` out'.
Proof.
  intros Hinv0 Hlo Hsome Hnd. revert d stack out.
  induction fuel as [|fuel IH]; intros d stack out Hi Hfuel; [lia|]. simpl.
  destruct stack as [|a stack]; [by exists out, d|].
  pose proof (di_graph _ _ _ _ _ _ Hi) as Hg.
  assert (rtc (deliver_step d0 lo) start a) as Hra by (eapply di_stack; [done|set_solver]).
  destruct (deliver_reach d0 lo start a Hsome Hnd Hra) as [Ha0 Hd0].
  apply (same_graph_is_Some _ _ _ Hg) in Ha0 as [w Hw].
  destruct (get_some d a w (sg_shape _ _ Hg) Hw) as (-> & _ & _). simpl.
  unfold VertexWithMeta_is_delivered. destruct (vm_delivered w) eqn:Hdel.
  - apply IH; [|simpl in Hfuel; lia].
    assert (a ∈ out) as Hin.
    { pose proof (di_flags _ _ _ _ _ _ Hi a) as Hf. unfold deliveredb at 1 in Hf.
      rewrite Hw, Hd0 in Hf. simpl in Hf. rewrite Hdel in Hf. symmetry in Hf.
      by apply bool_decide_eq_true in Hf. }
    destruct Hi. split; try done.
    + intros b Hb. apply di_stack0. set_solver.
    + intros x y Hx Hxy. destruct (di_closed0 x y Hx Hxy) as [|[->|]%elem_of_cons]; auto.
    + destruct di_start0 as [|[->|]%elem_of_cons]; auto.
  - destruct (deliver_turn d0 lo start d a stack out) as (v & d' & Hv & Hn & Hm & Hi' & Hwt); try done.
    { unfold deliveredb. by rewrite Hw. }
    rewrite Hn. simpl. rewrite Hm. simpl.
    destruct (IH d' _ _ Hi') as (out' & d'' & Hloop & Hi'' & Hpre).
    { pose proof (length_pushed d a v lo stack). simpl in Hfuel. lia. }
    exists out', d''. repeat (split; [done|]). etrans; [|exact Hpre]. by apply prefix_app_r.
Qed.

Lemma dag_weight_le w w' d : (forall v, w v <= w' v) -> dag_weight w d <= dag_weight w' d.
Proof.
  intros Hw. apply list_sum_le. intros r. apply list_sum_le. intros [v|]; simpl; [apply Hw|done].
Qed.

Lemma undelivered_weight_fuel d : dag_weight undelivered_weight d + 2 <= search_fuel d.
Proof.
  unfold search_fuel. assert (dag_weight undelivered_weight d <= dag_weight edge_weight d); [|lia].
  apply dag_weight_le. intros v. unfold undelivered_weight. destruct (vm_delivered v); lia.
Qed.

Lemma deliver_inv_init d lo a :
  Dag_shape d -> deliver_inv d lo a d [a] [].
Proof.
  intros Hs. split.
  - by apply same_graph_refl.
  - intros b ->%list_elem_of_singleton. apply rtc_refl.
  - by intros b ?%not_elem_of_nil.
  - intros b. rewrite bool_decide_eq_false_2 by set_solver. by rewrite orb_false_r.
  - done.
  - constructor.
  - by intros x y ?%not_elem_of_nil.
  - right. set_solver.
  - done.
Qed.

(** When the loop ends, exactly the vertices reachable from the start were delivered. *)
Lemma deliver_inv_final d0 lo start d out :
  deliver_inv d0 lo start d [] out -> forall b, b ∈ out <-> rtc (deliver_step d0 lo) start b.
Proof.
  intros Hi b. split; [apply Hi|]. intros Hr.
  apply (rtc_closed (deliver_step d0 lo) (fun b => b ∈ out) start); [|..|done].
  - intros x y Hx Hxy. destruct (di_closed _ _ _ _ _ _ Hi x y Hx Hxy) as [|?%not_elem_of_nil]; done.
  - by destruct (di_start _ _ _ _ _ _ Hi) as [|?%not_elem_of_nil].
Qed.

Lemma Dag_deliver_from_spec d a lo :
  Dag_inv d -> depth_ok d lo -> is_Some (present d a) -> (lo <= da_round a)%N ->
  exists out d', Dag_deliver_from d a lo = Val (out, d') /\ same_graph d d' /\ NoDup out
    /\ (forall b, b ∈ out <-> deliveredb d a = false /\ rtc (deliver_step d lo) a b)
    /\ (forall b, deliveredb d' b = deliveredb d b || bool_decide (b ∈ out))
    /\ (forall b, exploredb d' b = exploredb d b)
    /\ dag_explored_from d' = dag_explored_from d.
Proof.
  intros Hinv Hlo [v Hv] Hround. pose proof (inv_shape d Hinv) as Hs.
  unfold Dag_deliver_from. destruct (get_some d a v Hs Hv) as (-> & _ & ->).
  pose proof (undelivered_weight_fuel d) as Hf. revert Hf.
  generalize (search_fuel d) as fuel. intros fuel Hf. simpl.
  rewrite (proj2 (N.leb_le _ _) Hround). simpl. unfold VertexWithMeta_is_delivered.
  assert (deliveredb d a = vm_delivered v) as Hdb by (unfold deliveredb; by rewrite Hv).
  rewrite Hdb. destruct (vm_delivered v) eqn:Hdel.
  - exists [], d. split; [done|]. split; [by apply same_graph_refl|]. split; [constructor|].
    split; [set_solver|]. split; [|done].
    intros b. rewrite bool_decide_eq_false_2 by set_solver. by rewrite orb_false_r.
  - destruct (deliver_loop_spec fuel d lo a d [a] []) as (out & d' & -> & Hi & _);
      eauto using deliver_inv_init.
    { simpl. lia. }
    exists out, d'. split; [done|]. split; [apply Hi|]. split; [apply Hi|].
    split; [|split; [apply Hi|split; [apply Hi|apply Hi]]].
    intros b. rewrite (deliver_inv_final _ _ _ _ _ Hi). naive_solver.
Qed.

(** Everything a delivered vertex reaches is delivered. *)
Definition delivered_closed (d : Dag B Tx Sig) : Prop :=
  forall a b, deliveredb d a = true -> dag_edge d a b -> deliveredb d b = true.

Lemma delivered_closed_path d a b :
  delivered_closed d -> dag_path d a b -> deliveredb d a = true -> deliveredb d b = true.
Proof. intros Hcl Hp Ha. by apply (rtc_closed (dag_edge d) _ a b Hcl). Qed.

(** On a closed DAG the steps of an unbounded delivery are the paths to what is not delivered. *)
Lemma deliver_step_path d a b :
  delivered_closed d -> deliveredb d a = false ->
  rtc (deliver_step d 0) a b <-> dag_path d a b /\ deliveredb d b = false.
Proof.
  intros Hcl Ha. split.
  - intros Hr. split; [eapply rtc_congruence with (f := id); [|exact Hr]; by intros ? ? [? _]|].
    revert Ha. induction Hr as [|x y z [_ Hxy] _ IH]; intros; [done|]. apply IH.
    unfold deliverable in Hxy. apply andb_true_iff in Hxy as [_ Hxy]. by apply negb_true_iff in Hxy.
  - intros [Hp Hb]. revert Hb. clear Ha. induction Hp as [|x y z Hxy Hyz IH]; intros Hz; [apply rtc_refl|].
    eapply rtc_l; [|by apply IH]. split; [done|]. unfold deliverable.
    apply andb_true_iff. split; [by rewrite (proj2 (N.ltb_ge _ _)) by lia|].
    apply negb_true_iff. destruct (deliveredb d y) eqn:Hy; [|done].
    pose proof (delivered_closed_path d y z Hcl Hyz Hy). congruence.
Qed.

(** ** Agreement of deliveries *)

(** Two DAGs hold the same vertices, with the same [delivered] flags, at the addresses of [Q]. *)
Definition agree_on (Q : DagAddress -> Prop) (d1 d2 : Dag B Tx Sig) : Prop :=
  forall b, Q b -> exists v1 v2, present d1 b = Some v1 /\ present d2 b = Some v2
    /\ vm_vertex v1 = vm_vertex v2 /\ vm_delivered v1 = vm_delivered v2.

Lemma pushed_agree (Q : DagAddress -> Prop) d1 d2 lo a v1 v2 stack :
  Dag_inv d1 -> depth_ok d1 lo -> agree_on Q d1 d2 -> Q a ->
  (forall x y, Q x -> dag_edge d1 x y -> Q y) ->
  present d1 a = Some v1 -> vm_vertex v1 = vm_vertex v2 ->
  pushed d1 lo a v1 stack = pushed d2 lo a v2 stack.
Proof.
  intros Hinv Hlo Hag Ha HQ Hv Hx. unfold pushed. rewrite <-Hx.
  apply (foldl_push_ext (deliverable d1 lo) (deliverable d2 lo)
           (fun e => mkDagAddress (da_round a - 1) e)).
  intros e He%has_edge_iter. destruct (inv_edges d1 Hinv a v1 e Hv He) as (Hen & Hr1 & Hpar).
  unfold deliverable. simpl. destruct (N.ltb_spec (da_round a - 1) lo); [done|]. simpl.
  assert (Q (mkDagAddress (da_round a - 1) e)) as HQe.
  { apply (HQ a); [done|]. exists v1. simpl. repeat (split; [done|]). split; [lia|].
    apply Hpar. destruct Hlo; lia. }
  destruct (Hag _ HQe) as (w1 & w2 & Hw1 & Hw2 & _ & Hdel).
  unfold deliveredb. rewrite Hw1, Hw2. simpl. by rewrite Hdel.
Qed.

Lemma deliver_loop_agree (Q : DagAddress -> Prop) lo fuel1 fuel2 d1 d2 stack out o1 e1 o2 e2 :
  Dag_inv d1 -> Dag_inv d2 -> depth_ok d1 lo -> depth_ok d2 lo -> agree_on Q d1 d2 ->
  (forall x y, Q x -> dag_edge d1 x y -> Q y) -> (forall b, b ∈ stack -> Q b) ->
  deliver_loop fuel1 d1 lo stack out = Val (o1, e1) ->
  deliver_loop fuel2 d2 lo stack out = Val (o2, e2) -> o1 = o2 /\ agree_on Q e1 e2.
Proof.
  revert fuel2 d1 d2 stack out. induction fuel1 as [|fuel1 IH]; [done|].
  intros [|fuel2] d1 d2 stack out Hi1 Hi2 Hlo1 Hlo2 Hag HQ Hst; [done|]. simpl.
  destruct stack as [|a stack]; [by intros [= <- <-] [= <- <-]|].
  assert (Q a) as HQa by (apply Hst; set_solver).
  assert (forall b, b ∈ stack -> Q b) as Hst' by set_solver.
  destruct (Hag a HQa) as (v1 & v2 & Hv1 & Hv2 & Hx & Hdel).
  pose proof (inv_shape d1 Hi1) as Hs1. pose proof (inv_shape d2 Hi2) as Hs2.
  destruct (get_some d1 a v1 Hs1 Hv1) as (-> & _ & _), (get_some d2 a v2 Hs2 Hv2) as (-> & _ & _).
  simpl. unfold VertexWithMeta_is_delivered. rewrite <-Hdel. destruct (vm_delivered v1).
  { by apply IH. }
  rewrite (deliver_neighbors_pushed d1 a v1) by done.
  rewrite (deliver_neighbors_pushed d2 a v2) by done. simpl.
  rewrite <-(pushed_agree Q d1 d2 lo a v1 v2) by done.
  destruct (get_mut_present d1 a v1 VertexWithMeta_deliver Hs1 Hv1) as (d1' & -> & Hset1); [done|].
  destruct (get_mut_present d2 a v2 VertexWithMeta_deliver Hs2 Hv2) as (d2' & -> & Hset2); [done|].
  simpl. pose proof (flag_same_graph d1 d1' a v1 _ Hs1 Hv1 Hset1 eq_refl eq_refl) as Hg1.
  pose proof (flag_same_graph d2 d2' a v2 _ Hs2 Hv2 Hset2 eq_refl eq_refl) as Hg2.
  destruct Hset1 as (_ & Hp1 & _), Hset2 as (_ & Hp2 & _).
  apply IH; try (by eapply same_graph_inv);
    try (unfold depth_ok in *; by rewrite (sg_offset _ _ Hg1) || by rewrite (sg_offset _ _ Hg2)).
  - intros b Hb. rewrite Hp1, Hp2. case_decide; [|by apply Hag]. subst b.
    eexists _, _. split; [done|]. split; [done|]. done.
  - intros x y Hqx. rewrite (same_graph_edge _ _ _ _ Hg1). by apply HQ.
  - intros b. rewrite elem_of_pushed by done. intros [|[Hb _]]; eauto.
Qed.

End dag_search.
