(* ===== verification/NxDagPath.v ===== *)
(** * NxBFT: [has_path] *)

From Stdlib Require Import ZArith Lia.
From stdpp Require Import base list gmap sets numbers option relations.
From S2P Require Import Prelude Ids Heaps NxBase NxDag NxDagFacts NxDagGraph NxDagSearch.

Section dag_path.
  Context {P : Profile}.
  Context {B : Type} `{BitSetLaws B}.
  Context {Tx Sig : Type}.
  Implicit Types (d : Dag B Tx Sig) (a b : DagAddress) (v : VertexWithMeta B Tx Sig).

Lemma elem_of_enqueue to e a q b : b ∈ enqueue to e a q <-> b = a \/ b ∈ q.
Proof. unfold enqueue. destruct (_ =? _)%N; set_solver. Qed.

Lemma length_enqueue to e a q : length (enqueue to e a q) = S (length q).
Proof. unfold enqueue. destruct (_ =? _)%N; [done|]. rewrite length_app. simpl. lia. Qed.

(** ** The search that marks what it explores *)

Definition unexplored_weight (v : VertexWithMeta B Tx Sig) : nat :=
  if vm_path_explored v then 0 else edge_weight v.

Definition search_step (d : Dag B Tx Sig) (a b : DagAddress) : Prop :=
  dag_edge d a b /\ exploredb d b = false.

Definition enqueued (d : Dag B Tx Sig) (to a : DagAddress) (v : VertexWithMeta B Tx Sig)
    (queue : list DagAddress) : list DagAddress :=
  foldl (fun q e => if negb (exploredb d (mkDagAddress (da_round a - 1) e))
                    then enqueue to e (mkDagAddress (da_round a - 1) e) q else q)
        queue (IdSet_iter (Vertex_edges (vm_vertex v))).

Lemma inplace_neighbors d to a v queue :
  Dag_inv d -> dag_offset d = 1%N -> present d a = Some v ->
  for_each (IdSet_iter (Vertex_edges (vm_vertex v))) queue (fun queue edge =>
    r ← id_sub (da_round a) 1;
    let neighbor := DagAddress_new r edge in
    m ← Dag_get_with_meta d neighbor;
    m ← unwrap m;
    if VertexWithMeta_is_path_explored m then Val queue else
    k ← Dag_knows d neighbor;
    if negb k then Val queue else
    Val (enqueue to edge neighbor queue)) = Val (enqueued d to a v queue).
Proof.
  intros Hinv Hoff Hv. pose proof (inv_shape d Hinv) as Hs.
  apply (for_each_pure
    (fun q e => if negb (exploredb d (mkDagAddress (da_round a - 1) e))
                then enqueue to e (mkDagAddress (da_round a - 1) e) q else q)
    _ _ _ (fun _ => True)); [|done].
  intros q e He%has_edge_iter _. split; [|done].
  destruct (inv_edges d Hinv a v e Hv He) as (Hen & Hr1 & Hpar).
  unfold id_sub, as_u64. rewrite u64_sub_Val by lia. simpl. unfold DagAddress_new.
  destruct Hpar as [w Hw]; [lia|].
  destruct (get_some d _ w Hs Hw) as (-> & _ & ->). unfold exploredb. rewrite Hw. simpl.
  unfold VertexWithMeta_is_path_explored. by destruct (vm_path_explored w).
Qed.

Lemma elem_of_enqueued d to a v queue b :
  Dag_inv d -> dag_offset d = 1%N -> present d a = Some v ->
  b ∈ enqueued d to a v queue <-> b ∈ queue \/ search_step d a b.
Proof.
  intros Hinv Hoff Hv. unfold enqueued.
  rewrite (elem_of_foldl_add (fun b => negb (exploredb d b)) (fun e => mkDagAddress (da_round a - 1) e)
             (fun e q => enqueue to e (mkDagAddress (da_round a - 1) e) q))
    by (intros; apply elem_of_enqueue).
  unfold search_step, dag_edge. split; (intros [?|Hb]; [by left|right]).
  - destruct Hb as (e & He & -> & Hd). apply has_edge_iter in He.
    destruct (inv_edges d Hinv a v e Hv He) as (_ & Hr1 & Hpar).
    split; [|by apply negb_true_iff in Hd]. exists v. simpl. repeat (split; [done|]).
    split; [lia|]. apply Hpar. lia.
  - destruct Hb as ((w & Hw & He & Hr & _) & Hd). simplify_eq.
    exists (da_creator b). apply has_edge_iter in He. split; [done|].
    split; [|by rewrite Hd]. destruct b; simpl in *. f_equal. lia.
Qed.

Lemma length_enqueued d to a v queue :
  length (enqueued d to a v queue) + 1 <= edge_weight v + length queue.
Proof.
  unfold enqueued, edge_weight.
  pose proof (length_foldl_add (fun b => negb (exploredb d b)) (fun e => mkDagAddress (da_round a - 1) e)
             (fun e q => enqueue to e (mkDagAddress (da_round a - 1) e) q)
             (IdSet_iter (Vertex_edges (vm_vertex v))) queue) as Hl.
  specialize (Hl (fun e s => length_enqueue to e _ s)). lia.
Qed.

(** The state of the search from [start] to [to] on [d0]; [done_] are the addresses explored so far. *)
Record search_inv (d0 : Dag B Tx Sig) (start to : DagAddress)
    (d : Dag B Tx Sig) (queue done_ : list DagAddress) : Prop := {
  si_graph : same_graph d0 d;
  si_queue : forall b, b ∈ queue -> rtc (search_step d0) start b;
  si_done : forall b, b ∈ done_ -> rtc (search_step d0) start b;
  si_flags : forall b, exploredb d b = exploredb d0 b || bool_decide (b ∈ done_);
  si_delivered : forall b, deliveredb d b = deliveredb d0 b;
  si_to : to ∉ done_;
  si_closed : forall a b, a ∈ done_ -> search_step d0 a b -> b ∈ done_ \/ b ∈ queue;
  si_start : start ∈ done_ \/ start ∈ queue;
  si_from : dag_explored_from d = dag_explored_from d0;
}.

Lemma search_reach d0 start b :
  is_Some (present d0 start) -> exploredb d0 start = false ->
  rtc (search_step d0) start b -> is_Some (present d0 b) /\ exploredb d0 b = false.
Proof.
  intros Hsome Hd Hr. apply (rtc_closed (search_step d0)
    (fun b => is_Some (present d0 b) /\ exploredb d0 b = false) start); [|done..].
  by intros x y _ [(_ & _ & _ & _ & Hy) Hdel].
Qed.

(** One turn on a vertex that is neither the goal nor explored. *)
Lemma search_turn d0 start to d a queue done_ :
  Dag_inv d0 -> dag_offset d0 = 1%N -> is_Some (present d0 start) -> exploredb d0 start = false ->
  search_inv d0 start to d (a :: queue) done_ -> exploredb d a = false -> a <> to ->
  exists v d', present d a = Some v
    /\ Dag_get_mut d a VertexWithMeta_path_explore = Val d'
    /\ search_inv d0 start to d' (enqueued d to a v queue) (a :: done_)
    /\ dag_weight unexplored_weight d' + edge_weight v = dag_weight unexplored_weight d.
Proof.
  intros Hinv0 Hoff Hsome Hnd Hi Ha Hto. pose proof (si_graph _ _ _ _ _ _ Hi) as Hg.
  pose proof (same_graph_inv _ _ Hg Hinv0) as Hinv. pose proof (inv_shape d Hinv) as Hs.
  assert (rtc (search_step d0) start a) as Hra by (eapply si_queue; [done|set_solver]).
  destruct (search_reach d0 start a Hsome Hnd Hra) as [Ha0 Hd0].
  apply (same_graph_is_Some _ _ _ Hg) in Ha0 as [v Hv].
  assert (dag_offset d = 1%N) as Hoff' by (by rewrite (sg_offset _ _ Hg)).
  destruct (get_mut_present d a v VertexWithMeta_path_explore Hs Hv) as (d' & Hd' & Hset); [done|].
  exists v, d'. split; [done|]. split; [done|].
  pose proof (get_mut_weight d a v _ d' unexplored_weight Hs Hv Hd') as Hw.
  unfold exploredb in Ha. rewrite Hv in Ha. simpl in Ha.
  unfold unexplored_weight in Hw at 2 4. simpl in Hw. rewrite Ha in Hw. split; [|lia].
  assert (forall x y, search_step d x y <-> search_step d0 x y /\ y ∉ done_) as Hstep.
  { intros x y. unfold search_step. rewrite (same_graph_edge _ _ _ _ Hg).
    rewrite (si_flags _ _ _ _ _ _ Hi), orb_false_iff, bool_decide_eq_false. tauto. }
  pose proof (flag_same_graph d d' a v _ Hs Hv Hset eq_refl eq_refl) as Hg'.
  destruct Hset as (Hs' & Hp & _ & _ & _ & Hfrom).
  split.
  - by eapply same_graph_trans.
  - intros b. rewrite elem_of_enqueued by done. intros [Hb|Hb]; [eapply si_queue; [done|set_solver]|].
    apply Hstep in Hb as [Hb _]. by eapply rtc_r.
  - intros b [->|Hb]%elem_of_cons; [done|by eapply si_done].
  - intros b. unfold exploredb at 1. rewrite Hp. case_decide as Hb.
    + subst b. simpl. rewrite (bool_decide_eq_true_2 (a ∈ a :: done_)) by set_solver.
      by rewrite orb_true_r.
    + change (from_option vm_path_explored false (present d b)) with (exploredb d b).
      rewrite (si_flags _ _ _ _ _ _ Hi). f_equal. apply bool_decide_ext. set_solver.
  - intros b. unfold deliveredb at 1. rewrite Hp. case_decide as Hb; [|apply Hi].
    subst b. rewrite <-(si_delivered _ _ _ _ _ _ Hi). unfold deliveredb. by rewrite Hv.
  - pose proof (si_to _ _ _ _ _ _ Hi). set_solver.
  - intros x y Hx Hxy. rewrite elem_of_cons, elem_of_enqueued by done.
    destruct (decide (y ∈ done_)) as [|Hy]; [tauto|]. apply elem_of_cons in Hx as [->|Hx].
    + right. right. by apply Hstep.
    + destruct (si_closed _ _ _ _ _ _ Hi x y Hx Hxy) as [|[->|]%elem_of_cons]; set_solver.
  - rewrite elem_of_cons, elem_of_enqueued by done.
    destruct (si_start _ _ _ _ _ _ Hi) as [|[->|]%elem_of_cons]; set_solver.
  - rewrite Hfrom. apply Hi.
Qed.

Lemma search_inplace_loop_spec fuel d0 start to d queue done_ :
  Dag_inv d0 -> dag_offset d0 = 1%N -> is_Some (present d0 start) -> exploredb d0 start = false ->
  search_inv d0 start to d queue done_ ->
  dag_weight unexplored_weight d + length queue < fuel ->
  exists r d' queue' done', best_first_search_inplace_loop fuel d to queue = Val (r, d')
    /\ search_inv d0 start to d' queue' done' /\ (r = true <-> rtc (search_step d0) start to).
Proof.
  intros Hinv0 Hoff Hsome Hnd. revert d queue done_.
  induction fuel as [|fuel IH]; intros d queue done_ Hi Hfuel; [lia|]. simpl.
  destruct queue as [|a queue].
  { exists false, d, [], done_. split; [done|]. split; [done|]. split; [done|]. intros Hr.
    exfalso. apply (si_to _ _ _ _ _ _ Hi).
    apply (rtc_closed (search_step d0) (fun b => b ∈ done_) start); [|..|done].
    - intros x y Hx Hxy. destruct (si_closed _ _ _ _ _ _ Hi x y Hx Hxy) as [|?%not_elem_of_nil]; done.
    - by destruct (si_start _ _ _ _ _ _ Hi) as [|?%not_elem_of_nil]. }
  assert (rtc (search_step d0) start a) as Hra by (eapply si_queue; [done|set_solver]).
  case_bool_decide as Hto; [subst a; exists true, d, (to :: queue), done_; by split|].
  pose proof (si_graph _ _ _ _ _ _ Hi) as Hg.
  destruct (search_reach d0 start a Hsome Hnd Hra) as [Ha0 Hd0].
  apply (same_graph_is_Some _ _ _ Hg) in Ha0 as [w Hw].
  destruct (get_some d a w (sg_shape _ _ Hg) Hw) as (-> & -> & _). simpl.
  unfold VertexWithMeta_is_path_explored at 1. destruct (vm_path_explored w) eqn:Hdel.
  - apply (IH d queue done_); [|simpl in Hfuel; lia].
    assert (a ∈ done_) as Hin.
    { pose proof (si_flags _ _ _ _ _ _ Hi a) as Hf. unfold exploredb at 1 in Hf.
      rewrite Hw, Hd0 in Hf. simpl in Hf. rewrite Hdel in Hf. symmetry in Hf.
      by apply bool_decide_eq_true in Hf. }
    destruct Hi. split; try done.
    + intros b Hb. apply si_queue0. set_solver.
    + intros x y Hx Hxy. destruct (si_closed0 x y Hx Hxy) as [|[->|]%elem_of_cons]; auto.
    + destruct si_start0 as [|[->|]%elem_of_cons]; auto.
  - destruct (search_turn d0 start to d a queue done_) as (v & d' & Hv & Hm & Hi' & Hwt); try done.
    { unfold exploredb. by rewrite Hw. }
    rewrite Hw in Hv. injection Hv as <-.
    rewrite inplace_neighbors; [|by eapply same_graph_inv|by rewrite (sg_offset _ _ Hg)|done].
    simpl. rewrite Hm. simpl. apply (IH d' _ _ Hi').
    pose proof (length_enqueued d to a w queue). simpl in Hfuel. lia.
Qed.

Lemma search_inv_init d start to : Dag_shape d -> search_inv d start to d [start] [].
Proof.
  intros Hs. split.
  - by apply same_graph_refl.
  - intros b ->%list_elem_of_singleton. apply rtc_refl.
  - by intros b ?%not_elem_of_nil.
  - intros b. rewrite bool_decide_eq_false_2 by set_solver. by rewrite orb_false_r.
  - done.
  - set_solver.
  - by intros x y ?%not_elem_of_nil.
  - right. set_solver.
  - done.
Qed.

Lemma unexplored_weight_fuel d : dag_weight unexplored_weight d + 2 <= search_fuel d.
Proof.
  unfold search_fuel. assert (dag_weight unexplored_weight d <= dag_weight edge_weight d); [|lia].
  apply dag_weight_le. intros v. unfold unexplored_weight. destruct (vm_path_explored v); lia.
Qed.

(** ** The search with a set of seen addresses *)

Definition addresses (d : Dag B Tx Sig) : gset DagAddress :=
  list_to_set (concat (DagRound_all_valid_addresses <$> dag_rounds d)).

Lemma elem_of_addresses d a : Dag_shape d -> is_Some (present d a) -> a ∈ addresses d.
Proof.
  intros Hs [v Hv]. destruct (present_in d a v Hs Hv) as [Hin _].
  destruct (dag_round_lookup d (da_round a) Hs Hin) as (r & Hr & _).
  destruct (get_round_present d (da_round a) Hs) as (l & Hl & Hel & _).
  unfold Dag_get_round in Hl. rewrite round_to_index_in in Hl by done. simpl in Hl.
  rewrite (index_u64_Val _ _ _ Hr) in Hl. injection Hl as <-.
  unfold addresses. apply elem_of_list_to_set, list_elem_of_In, in_concat.
  exists (DagRound_all_valid_addresses r). split.
  - apply list_elem_of_In, list_elem_of_fmap. exists r. split; [done|]. by eapply list_elem_of_lookup_2.
  - apply list_elem_of_In, Hel. eauto.
Qed.

Lemma size_addresses d : size (addresses d) + 2 <= search_fuel d.
Proof.
  unfold search_fuel, addresses.
  assert (length (concat (DagRound_all_valid_addresses <$> dag_rounds d)) <= dag_weight edge_weight d).
  { unfold dag_weight. induction (dag_rounds d) as [|r rs IH]; csimpl; [lia|].
    rewrite length_app. enough (length (DagRound_all_valid_addresses r) <= round_weight edge_weight r) by lia.
    unfold DagRound_all_valid_addresses, round_weight.
    induction (dr_vertices r) as [|[v|] vs IHv]; csimpl; lia. }
  pose proof (size_list_to_set_le
    (concat (DagRound_all_valid_addresses <$> dag_rounds d))). lia.
Qed.

Definition see (to a : DagAddress) (qs : list DagAddress * gset DagAddress) (e : N)
    : list DagAddress * gset DagAddress :=
  let b := mkDagAddress (da_round a - 1) e in
  if bool_decide (b ∈ qs.2) then qs else (enqueue to e b qs.1, {[b]} ∪ qs.2).

Lemma see_spec to a es q s (all : gset DagAddress) :
  (forall e, e ∈ es -> mkDagAddress (da_round a - 1) e ∈ all) ->
  let qs := foldl (see to a) (q, s) es in
  (forall b, b ∈ qs.2 <-> b ∈ s \/ exists e, e ∈ es /\ b = mkDagAddress (da_round a - 1) e)
  /\ (forall b, b ∈ qs.1 <-> b ∈ q \/ (b ∈ qs.2 /\ b ∉ s))
  /\ length qs.1 + size (all ∖ qs.2) = length q + size (all ∖ s).
Proof.
  revert q s. induction es as [|e es IH]; intros q s Hall; simpl.
  { split; [set_solver|]. split; [set_solver|done]. }
  set (b := mkDagAddress (da_round a - 1) e).
  assert (b ∈ all) as Hb by (apply Hall; set_solver).
  assert (forall c, (exists e', e' ∈ e :: es /\ c = mkDagAddress (da_round a - 1) e')
    <-> c = b \/ exists e', e' ∈ es /\ c = mkDagAddress (da_round a - 1) e') as Hex.
  { intros c. setoid_rewrite elem_of_cons. split.
    - intros (e' & [->|?] & ->); eauto.
    - intros [->|(e' & ? & ->)]; eauto. }
  unfold see at 2 4 6 8 10. simpl. fold b. case_bool_decide as Hs.
  - destruct (IH q s) as (H1 & H2 & H3); [set_solver|]. split; [|by split].
    intros c. rewrite H1, Hex. split; [tauto|]. intros [?|[->| ]]; tauto.
  - destruct (IH (enqueue to e b q) ({[b]} ∪ s)) as (H1 & H2 & H3); [set_solver|].
    split; [intros c; rewrite H1, Hex, elem_of_union, elem_of_singleton; tauto|]. split.
    + intros c. rewrite H2, elem_of_enqueue, elem_of_union, elem_of_singleton, H1,
        elem_of_union, elem_of_singleton.
      destruct (decide (c = b)) as [->|]; tauto.
    + rewrite H3, length_enqueue, (size_difference_insert all s b) by done. lia.
Qed.

Lemma expensive_neighbors d to a v qs :
  Dag_inv d -> dag_offset d = 1%N -> present d a = Some v ->
  for_each (IdSet_iter (Vertex_edges (vm_vertex v))) qs (fun '(queue, seen) edge =>
    r ← id_sub (da_round a) 1;
    let neighbor := DagAddress_new r edge in
    if bool_decide (neighbor ∈ seen) then Val (queue, seen) else
    k ← Dag_knows d neighbor;
    if negb k then Val (queue, seen) else
    Val (enqueue to edge neighbor queue, {[neighbor]} ∪ seen))
  = Val (foldl (see to a) qs (IdSet_iter (Vertex_edges (vm_vertex v)))).
Proof.
  intros Hinv Hoff Hv. pose proof (inv_shape d Hinv) as Hs.
  apply (for_each_pure (see to a) _ _ _ (fun _ => True)); [|done].
  intros [q s] e He%has_edge_iter _. split; [|done].
  destruct (inv_edges d Hinv a v e Hv He) as (Hen & Hr1 & Hpar).
  unfold id_sub, as_u64. rewrite u64_sub_Val by lia. simpl. unfold DagAddress_new, see. simpl.
  case_bool_decide; [done|]. destruct Hpar as [w Hw]; [lia|].
  by destruct (get_some d _ w Hs Hw) as (_ & _ & ->).
Qed.

Record seen_inv (d : Dag B Tx Sig) (start to : DagAddress)
    (queue : list DagAddress) (seen : gset DagAddress) : Prop := {
  se_queue : forall b, b ∈ queue -> dag_path d start b;
  se_seen : forall a, a ∈ seen -> a ∈ queue \/ (a <> to /\ forall b, dag_edge d a b -> b ∈ seen);
  se_start : start ∈ seen;
}.

Lemma search_expensive_loop_spec fuel d start to queue seen :
  Dag_inv d -> dag_offset d = 1%N -> is_Some (present d start) -> seen_inv d start to queue seen ->
  length queue + size (addresses d ∖ seen) < fuel ->
  exists r, best_first_search_expensive_loop fuel d to queue seen = Val r
    /\ (r = true <-> dag_path d start to).
Proof.
  intros Hinv Hoff Hstart. pose proof (inv_shape d Hinv) as Hs. revert queue seen.
  induction fuel as [|fuel IH]; intros queue seen Hi Hfuel; [lia|]. simpl.
  destruct queue as [|a queue].
  { exists false. split; [done|]. split; [done|]. intros Hp. exfalso.
    assert (to ∈ seen) as Hto.
    { apply (rtc_closed (dag_edge d) (fun b => b ∈ seen) start); [|apply Hi|done].
      intros x y Hx Hxy. destruct (se_seen _ _ _ _ _ Hi x Hx) as [Hq|[_ Hcl]]; [by apply not_elem_of_nil in Hq|auto]. }
    destruct (se_seen _ _ _ _ _ Hi to Hto) as [?%not_elem_of_nil|[? _]]; done. }
  assert (dag_path d start a) as Hra by (eapply se_queue; [done|set_solver]).
  case_bool_decide as Hto; [subst a; by exists true|].
  destruct (dag_path_present d start a Hra Hstart) as [v Hv].
  destruct (get_some d a v Hs Hv) as (_ & -> & _). simpl.
  rewrite expensive_neighbors by done. simpl.
  destruct (see_spec to a (IdSet_iter (Vertex_edges (vm_vertex v))) queue seen (addresses d))
    as (Hs1 & Hs2 & Hs3).
  { intros e He%has_edge_iter. apply elem_of_addresses; [done|].
    destruct (inv_edges d Hinv a v e Hv He) as (_ & ? & Hpar). apply Hpar. lia. }
  set (qs := foldl (see to a) (queue, seen) (IdSet_iter (Vertex_edges (vm_vertex v)))) in *.
  assert (forall b, dag_edge d a b -> b ∈ qs.2) as Hedge.
  { intros b (w & Hw & He & Hr & _). simplify_eq. apply Hs1. right. exists (da_creator b).
    apply has_edge_iter in He. split; [done|]. destruct b; simpl in *. f_equal. lia. }
  apply IH; [|simpl in Hfuel; lia]. split.
  - intros b Hb. apply Hs2 in Hb as [Hb|[Hb Hns]]; [eapply se_queue; [done|set_solver]|].
    apply Hs1 in Hb as [|(e & He%has_edge_iter & ->)]; [done|]. eapply rtc_r; [exact Hra|].
    destruct (inv_edges d Hinv a v e Hv He) as (_ & ? & Hpar).
    exists v. simpl. repeat (split; [done|]). split; [lia|]. apply Hpar. lia.
  - intros x Hx. destruct (decide (x = a)) as [->|Hxa]; [by right|].
    destruct (decide (x ∈ seen)) as [Hseen|Hns]; [|left; apply Hs2; by right].
    destruct (se_seen _ _ _ _ _ Hi x Hseen) as [[->|Hq]%elem_of_cons|[? Hcl]]; [done|..].
    + left. apply Hs2. by left.
    + right. split; [done|]. intros b Hb. apply Hs1. left. by apply Hcl.
  - apply Hs1. left. apply Hi.
Qed.

(** ** [has_path] *)

(** What was explored lies at or below the round of the last marking search. *)
Definition explored_bound (d : Dag B Tx Sig) : Prop :=
  forall a, exploredb d a = true -> (da_round a <= dag_explored_from d)%N.

(** Above everything explored, the marking search follows all edges. *)
Lemma search_step_path d a b :
  (forall c, exploredb d c = true -> (da_round c < da_round b)%N) ->
  rtc (search_step d) a b <-> dag_path d a b.
Proof.
  intros Hex. split; [intros Hr; eapply rtc_congruence with (f := id); [|exact Hr]; by intros ? ? [? _]|].
  intros Hp. induction Hp as [|x y z Hxy Hyz IH]; [apply rtc_refl|].
  eapply rtc_l; [|by apply IH]. split; [done|]. destruct (exploredb d y) eqn:Hy; [|done].
  apply Hex in Hy. destruct (dag_path_round _ _ _ Hyz) as [->|]; lia.
Qed.

Lemma set_explored_from_present d x a : present d.[dag_explored_from := x] a = present d a.
Proof. done. Qed.

Lemma set_explored_from_same d x : Dag_shape d -> same_graph d d.[dag_explored_from := x].
Proof. intros []. by repeat split. Qed.

Lemma Dag_has_path_spec d from to :
  Dag_inv d -> dag_offset d = 1%N -> explored_bound d ->
  is_Some (present d from) -> is_Some (present d to) -> (da_round to < da_round from)%N ->
  (dag_explored_from d < da_round to \/ da_round from <= dag_explored_from d)%N ->
  exists r d', Dag_has_path d from to = Val (r, d') /\ (r = true <-> dag_path d from to)
    /\ same_graph d d' /\ explored_bound d' /\ (forall b, deliveredb d' b = deliveredb d b)
    /\ dag_explored_from d' = N.max (dag_explored_from d) (da_round from).
Proof.
  intros Hinv Hoff Hex [vf Hf] [vt Ht] Hlt Hcase. pose proof (inv_shape d Hinv) as Hs.
  unfold Dag_has_path. destruct (get_some d from vf Hs Hf) as (_ & _ & ->).
  destruct (get_some d to vt Hs Ht) as (_ & _ & ->).
  rewrite (proj2 (N.ltb_lt _ _) Hlt). simpl.
  destruct (N.ltb_spec (dag_explored_from d) (da_round from)) as [Hnew|Hold].
  - set (d1 := mkDag _ _ _ _ _). pose proof (set_explored_from_same d (da_round from) Hs) as Hg1.
    change (same_graph d d1) in Hg1.
    assert (exploredb d1 from = false) as Hfrom.
    { destruct (exploredb d1 from) eqn:E; [|done]. apply (Hex from) in E. lia. }
    unfold Dag_best_first_search_inplace.
    destruct (search_inplace_loop_spec (search_fuel d1) d1 from to d1 [from] [])
      as (r & d' & q' & x' & -> & Hi & Hr); try done.
    + by eapply same_graph_inv.
    + by apply search_inv_init, Hg1.
    + pose proof (unexplored_weight_fuel d1). simpl. lia.
    + exists r, d'. split; [done|]. split; [|split; [|split; [|split]]].
      * rewrite Hr, <-(same_graph_path d d1 from to) by done. apply search_step_path.
        intros c Hc. apply (Hex c) in Hc. lia.
      * eapply same_graph_trans; [exact Hg1|apply Hi].
      * intros a Ha. rewrite (si_from _ _ _ _ _ _ Hi). simpl.
        rewrite (si_flags _ _ _ _ _ _ Hi) in Ha. apply orb_true_iff in Ha as [Ha|Ha].
        -- apply (Hex a) in Ha. lia.
        -- apply bool_decide_eq_true in Ha. apply (si_done _ _ _ _ _ _ Hi) in Ha.
           assert (dag_path d1 from a) as Hp.
           { eapply rtc_congruence with (f := id); [|exact Ha]. by intros ? ? [? _]. }
           destruct (dag_path_round _ _ _ Hp) as [->|]; lia.
      * intros b. by rewrite (si_delivered _ _ _ _ _ _ Hi).
      * rewrite (si_from _ _ _ _ _ _ Hi). simpl. lia.
  - unfold Dag_best_first_search_expensive.
    destruct (search_expensive_loop_spec (search_fuel d) d from to [from] {[from]}) as (r & -> & Hr);
      try done.
    + split; [|set_solver..]. intros b ->%list_elem_of_singleton. apply rtc_refl.
    + pose proof (size_addresses d).
      assert (size (addresses d ∖ {[from]}) <= size (addresses d)) by (apply subseteq_size; set_solver).
      simpl. lia.
    + exists r, d. split; [done|]. split; [done|]. split; [by apply same_graph_refl|].
      split; [done|]. split; [done|]. lia.
Qed.

End dag_path.
