(* ===== verification/NxEnclave.v ===== *)
(** * NxBFT: the trusted component

    Models [src/atomic-broadcast/nxbft/nxbft-base/src/enclave/mod.rs] (the traits
    [Enclave] and [EnclaveTrusted] as classes, [EnclaveAutomata] as a state
    record with one definition per method) and [simple.rs] ([SimpleEnclave] as
    an instance of the [Enclave] class).

    Third-party code is a parameter: the interval map of the [rangemap] crate
    ([RangeInclusiveMap] with its documented laws and an executable instance),
    the generator and the uniform distribution of [rand] and [rand_chacha]
    ([Rand]).  The randomness the operating system hands out (the enclave's
    UUID, the result of [getrandom]) is an argument of the call that asks for
    it. *)

From Stdlib Require Import ZArith Lia.
From stdpp Require Import base list gmap sets numbers option.
From S2P Require Import Prelude Ids Heaps NxBase.

(** ** [rangemap::RangeInclusiveMap] *)

Class RangeInclusiveMap (M : Type -> Type) := {
  rim_new : forall V, M V;
  rim_get : forall V, M V -> N -> option V;
  (** [insert(lo..=hi, v)], which panics on an empty range. *)
  rim_insert : forall V, M V -> N -> N -> V -> Outcome (M V);
  (** The last range and its value, as [((lo, hi), v)]. *)
  rim_last_range_value : forall V, M V -> option (N * N * V);
}.
Arguments rim_new {M _ V}.
Arguments rim_get {M _ V} _ _.
Arguments rim_insert {M _ V} _ _ _ _.
Arguments rim_last_range_value {M _ V} _.

Class RangeInclusiveMapLaws (M : Type -> Type) `{RangeInclusiveMap M} : Prop := {
  rim_get_new : forall V k, rim_get (rim_new : M V) k = None;
  rim_insert_empty : forall V (m : M V) lo hi v, (hi < lo)%N -> rim_insert m lo hi v = Panic;
  rim_insert_ok : forall V (m : M V) lo hi v, (lo <= hi)%N ->
    exists m', rim_insert m lo hi v = Val m'
      /\ forall k, rim_get m' k = if bool_decide (lo <= k <= hi)%N then Some v else rim_get m k;
  rim_last_none : forall V (m : M V), rim_last_range_value m = None -> forall k, rim_get m k = None;
  rim_last_some : forall V (m : M V) lo hi v, rim_last_range_value m = Some (lo, hi, v) ->
    (lo <= hi)%N /\ (forall k, (lo <= k <= hi)%N -> rim_get m k = Some v)
    /\ forall k, (hi < k)%N -> rim_get m k = None;
}.

(** An executable interval map: the inserted ranges, newest first. *)
Definition Ranges (V : Type) : Type := list (N * N * V).

Fixpoint ranges_get {V} (m : Ranges V) (k : N) : option V :=
  match m with
  | [] => None
  | (lo, hi, v) :: m => if bool_decide (lo <= k <= hi)%N then Some v else ranges_get m k
  end.

(** The largest key of a non-empty range. *)
Definition ranges_max {V} (m : Ranges V) : N :=
  foldr (fun '(lo, hi, _) x => if bool_decide (lo <= hi)%N then N.max hi x else x) 0%N m.

Definition Ranges_map : RangeInclusiveMap Ranges := {|
  rim_new := fun V => [];
  rim_get := fun V => ranges_get;
  rim_insert := fun V m lo hi v => if bool_decide (lo <= hi)%N then Val ((lo, hi, v) :: m) else Panic;
  rim_last_range_value := fun V m =>
    (fun v => (ranges_max m, ranges_max m, v)) <$> ranges_get m (ranges_max m);
|}.

Lemma ranges_get_above {V} (m : Ranges V) k : (ranges_max m < k)%N -> ranges_get m k = None.
Proof.
  induction m as [|[[lo hi] v] m IH]; csimpl; intros Hk; [done|].
  rewrite bool_decide_eq_false_2; [apply IH|]; case_bool_decide; lia.
Qed.

Lemma ranges_get_max {V} (m : Ranges V) :
  (0 < ranges_max m)%N -> is_Some (ranges_get m (ranges_max m)).
Proof.
  induction m as [|[[lo hi] v] m IH]; csimpl; [lia|]. intros Hk.
  destruct (decide (lo <= hi)%N) as [Hne|Hne].
  - rewrite (bool_decide_eq_true_2 (lo <= hi)%N) in * by done.
    case_bool_decide as Hin; [eauto|]. rewrite N.max_r by lia. apply IH. lia.
  - rewrite (bool_decide_eq_false_2 (lo <= hi)%N) in * by done.
    case_bool_decide as Hin; [eauto|]. by apply IH.
Qed.

Lemma Ranges_laws : @RangeInclusiveMapLaws Ranges Ranges_map.
Proof.
  split; simpl.
  - done.
  - intros. by rewrite bool_decide_eq_false_2 by lia.
  - intros V m lo hi v Hle. eexists. by rewrite bool_decide_eq_true_2.
  - intros V m Hn k. destruct (ranges_get m (ranges_max m)) eqn:Hg; [done|].
    destruct (decide (0 < ranges_max m)%N) as [Hp|Hp].
    + apply ranges_get_max in Hp as [? Hp]. congruence.
    + destruct (decide (k = 0%N)) as [->|]; [|apply ranges_get_above; lia].
      by replace 0%N with (ranges_max m) by lia.
  - intros V m lo hi v Hs. destruct (ranges_get m (ranges_max m)) eqn:Hg; simplify_eq/=.
    split; [done|]. split; [|apply ranges_get_above].
    intros k Hk. by replace k with (ranges_max m) by lia.
Qed.

(** ** [rand] and [rand_chacha] *)

Class Rand := {
  Rng : Type;
  rng_from_seed : list N -> Rng;
  (** [Uniform::from(0..n).sample(&mut rng)] *)
  uniform_sample : N -> Rng -> N * Rng;
}.

Class RandLaws `{Rand} : Prop := {
  uniform_sample_lt : forall n r, (0 < n)%N -> ((uniform_sample n r).1 < n)%N;
}.

(** ** Results of the handshake calls *)

Inductive InitHandshakeResult (Handshake E : Type) :=
| IHR_Ok (h : Handshake)
| IHR_DuplicateHello
| IHR_InvalidAttestation
| IHR_EnclaveError (e : E).
Arguments IHR_Ok {Handshake E} h.
Arguments IHR_DuplicateHello {Handshake E}.
Arguments IHR_InvalidAttestation {Handshake E}.
Arguments IHR_EnclaveError {Handshake E} e.

Inductive HandshakeResult (E : Type) :=
| HR_MissingAttestation
| HR_DuplicateReply
| HR_InvalidHandshakeEncryption
| HR_Ok
| HR_EnclaveError (e : E).
Arguments HR_MissingAttestation {E}.
Arguments HR_DuplicateReply {E}.
Arguments HR_InvalidHandshakeEncryption {E}.
Arguments HR_Ok {E}.
Arguments HR_EnclaveError {E} e.

(** ** The trait [Enclave]

    What a replica uses of its trusted component.  [Entropy] is the randomness
    the calls that need it obtain from the operating system. *)

Class Enclave (B Enc : Type) := {
  Signature : Type;
  EnclaveError : Type;
  Attestation : Type;
  Handshake : Type;
  Export : Type;
  Entropy : Type;
  Signature_eq_dec :: EqDecision Signature;
  Attestation_eq_dec :: EqDecision Attestation;
  Attestation_countable :: Countable Attestation;
  enc_new : Entropy -> N -> Outcome Enc;
  enc_get_n : Enc -> N;
  enc_init : Entropy -> Enc -> Outcome (Result () EnclaveError * Enc);
  enc_get_attestation_certificate : Enc -> Outcome (Result Attestation EnclaveError * Enc);
  enc_verify_attestation : Enc -> Attestation -> Outcome (Result bool EnclaveError);
  enc_init_peer_handshake : Enc -> N -> Attestation ->
    Outcome (InitHandshakeResult Handshake EnclaveError * Enc);
  enc_complete_peer_handshake : Enc -> N -> Handshake ->
    Outcome (HandshakeResult EnclaveError * Enc);
  (** An enclave outside the process can stop working even in a call that only reads. *)
  enc_export : Enc -> Outcome (Result Export EnclaveError * Enc);
  enc_recover : Enc -> Export -> Outcome (Result () EnclaveError * Enc);
  enc_replace_peer : Enc -> N -> Attestation -> N -> Outcome (Result bool EnclaveError * Enc);
  enc_sign : Enc -> SignableVertex B -> Outcome (Result (Signature * N) EnclaveError * Enc);
  enc_toss : Enc -> list (SignedVertex B Signature) -> Outcome (Result N EnclaveError * Enc);
  enc_verify : Enc -> N -> N -> SignableVertex B -> Signature -> Outcome (Result bool EnclaveError);
  enc_is_ready : Enc -> Outcome (bool * Enc);
}.
Arguments Signature {B} Enc {_}.
Arguments EnclaveError {B} Enc {_}.
Arguments Attestation {B} Enc {_}.
Arguments Handshake {B} Enc {_}.
Arguments Export {B} Enc {_}.
Arguments Entropy {B} Enc {_}.

(** ** The trait [EnclaveTrusted]

    Seeds and seed shares ([[u8; 32]]) are lists of bytes. *)

Class EnclaveTrusted (Enc : Type) := {
  et_Attestation : Type;
  et_Error : Type;
  et_Handshake : Type;
  et_Signature : Type;
  et_Entropy : Type;
  et_gen_seed_share : et_Entropy -> Enc -> Result (list N) et_Error;
  et_seal_seed_share : Enc -> et_Attestation -> list N -> Outcome (Result et_Handshake et_Error);
  et_unseal_seed_share : Enc -> et_Handshake -> et_Attestation -> Outcome (Result (list N) et_Error);
  et_sign : Enc -> list N -> N -> Result et_Signature et_Error * Enc;
  et_verify : et_Attestation -> N -> list N -> et_Signature -> Result bool et_Error;
  et_get_attestation_certificate : Enc -> Result et_Attestation et_Error * Enc;
}.
Arguments et_Attestation Enc {_}.
Arguments et_Error Enc {_}.
Arguments et_Handshake Enc {_}.
Arguments et_Signature Enc {_}.
Arguments et_Entropy Enc {_}.

Inductive EnclaveAutomataError (E : Type) :=
| EA_InvalidPeerId
| EA_NotReady
| EA_NotEnoughValidVertices
| EA_InvalidVertexRound
| EA_EnclaveTrusted (e : E).
Arguments EA_InvalidPeerId {E}.
Arguments EA_NotReady {E}.
Arguments EA_NotEnoughValidVertices {E}.
Arguments EA_InvalidVertexRound {E}.
Arguments EA_EnclaveTrusted {E} e.

(** [r?] where the error is wrapped by [From]. *)
Definition map_err {T E} (r : Result T E) : Result T (EnclaveAutomataError E) :=
  match r with Ok t => Ok t | Err e => Err (EA_EnclaveTrusted e) end.

Section automata.
  Context {P : Profile} {B : Type} `{BitSet B} `{Digests} `{Rand}.
  Context {M : Type -> Type} `{RangeInclusiveMap M}.
  Context {Enc : Type} `{EnclaveTrusted Enc}.

Inductive Peer :=
| Peer_None
| Peer_Attested (att : et_Attestation Enc)
| Peer_HandshakeComplete (att : et_Attestation Enc) (old : M (et_Attestation Enc)).

Definition Peer_unwrap_complete (p : Peer) : Outcome (et_Attestation Enc * M (et_Attestation Enc)) :=
  match p with
  | Peer_HandshakeComplete id map => Val (id, map)
  | _ => Panic
  end.

Record EnclaveAutomata := mkAutomata {
  ea_n : N;
  ea_quorum : N;
  ea_peers_added : N;
  ea_c : N;
  ea_peers : list Peer;
  ea_seed : list N;
  ea_seed_share : option (list N);
  ea_rng : option Rng;
  ea_uniform : N;
  ea_next_toss : N;
  ea_enclave : Enc;
}.
#[export] Instance EnclaveAutomata_eta : Eta EnclaveAutomata := fun a =>
  mkAutomata (ea_n a) (ea_quorum a) (ea_peers_added a) (ea_c a) (ea_peers a) (ea_seed a)
    (ea_seed_share a) (ea_rng a) (ea_uniform a) (ea_next_toss a) (ea_enclave a).

Record EnclaveAutomataExport := mkExport {
  ex_seed : list N;
  ex_next_toss : N;
  ex_n : N;
  ex_peers : list Peer;
}.

Abbreviation AErr := (EnclaveAutomataError (et_Error Enc)).

Definition EnclaveAutomata_new (n : N) (enclave : Enc) : Outcome EnclaveAutomata :=
  rust_assert (3 <=? n)%N ;;
  Val (mkAutomata n (n / 2 + 1) 0 0 ((fun _ => Peer_None) <$> range 0 n) (replicate 32 0%N)
         None None n 4 enclave).

Definition EnclaveAutomata_init (ent : et_Entropy Enc) (a : EnclaveAutomata)
    : Outcome (Result () AErr * EnclaveAutomata) :=
  rust_assert (bool_decide (ea_seed_share a = None)) ;;
  match et_gen_seed_share ent (ea_enclave a) with
  | Ok share => Val (Ok (), a.[ea_seed_share := Some share])
  | Err e => Val (Err (EA_EnclaveTrusted e), a)
  end.

Definition EnclaveAutomata_get_n (a : EnclaveAutomata) : N := ea_n a.

Definition EnclaveAutomata_init_peer_handshake (a : EnclaveAutomata) (peer_id : N)
    (attestation : et_Attestation Enc)
    : Outcome (InitHandshakeResult (et_Handshake Enc) AErr * EnclaveAutomata) :=
  rust_assert (bool_decide (ea_seed_share a <> None)) ;;
  if (ea_n a <=? peer_id)%N then Val (IHR_EnclaveError EA_InvalidPeerId, a) else
  p ← index_u64 (ea_peers a) peer_id;
  match p with
  | Peer_None =>
      share ← unwrap (ea_seed_share a);
      sealed ← et_seal_seed_share (ea_enclave a) attestation share;
      match sealed with
      | Ok share =>
          ps ← assign_u64 (ea_peers a) peer_id (Peer_Attested attestation);
          Val (IHR_Ok share, a.[ea_peers := ps])
      | Err e => Val (IHR_EnclaveError (EA_EnclaveTrusted e), a)
      end
  | _ => Val (IHR_DuplicateHello, a)
  end.

Definition EnclaveAutomata_is_ready (a : EnclaveAutomata) : bool :=
  match ea_rng a with Some _ => true | None => false end.

Definition EnclaveAutomata_export (a : EnclaveAutomata) : Outcome (Result EnclaveAutomataExport AErr) :=
  if negb (EnclaveAutomata_is_ready a) then Val (Err EA_NotReady) else
  Val (Ok (mkExport (ea_seed a) (ea_next_toss a) (ea_n a) (ea_peers a))).

Definition EnclaveAutomata_check_ready (a : EnclaveAutomata) : Outcome EnclaveAutomata :=
  rust_assert (match ea_rng a with None => true | Some _ => false end) ;;
  if (ea_peers_added a <? ea_n a)%N then Val a else
  Val a.[ea_rng := Some (rng_from_seed (ea_seed a))].

Definition EnclaveAutomata_rand (a : EnclaveAutomata) : Outcome (N * EnclaveAutomata) :=
  next_toss ← id_add_assign (ea_next_toss a) 4;
  let a := a.[ea_next_toss := next_toss] in
  rng ← unwrap (ea_rng a);
  let '(r, rng) := uniform_sample (ea_uniform a) rng in
  Val (r, a.[ea_rng := Some rng]).

(** [while self.next_toss < next_toss { self.rand(); }] *)
Fixpoint recover_loop (fuel : nat) (next_toss : N) (a : EnclaveAutomata) : Outcome EnclaveAutomata :=
  match fuel with
  | O => NoFuel
  | S fuel =>
      if (ea_next_toss a <? next_toss)%N then
        ra ← EnclaveAutomata_rand a;
        recover_loop fuel next_toss ra.2
      else Val a
  end.

(** Every turn adds four to [next_toss]. *)
Definition recover_fuel (from to : N) : nat := 2 + N.to_nat ((to - from) / 4).

Definition EnclaveAutomata_recover (a : EnclaveAutomata) (export : EnclaveAutomataExport)
    : Outcome (Result () AErr * EnclaveAutomata) :=
  rust_assert (ea_n a =? ex_n export)%N ;;
  let a := a.[ea_peers := ex_peers export].[ea_peers_added := ea_n a].[ea_seed := ex_seed export] in
  a ← EnclaveAutomata_check_ready a;
  a ← recover_loop (recover_fuel (ea_next_toss a) (ex_next_toss export)) (ex_next_toss export) a;
  rust_assert (ea_next_toss a =? ex_next_toss export)%N ;;
  Val (Ok (), a).

Definition EnclaveAutomata_replace_peer (a : EnclaveAutomata) (peer_id : N)
    (attestation : et_Attestation Enc) (max_round : N)
    : Outcome (Result bool AErr * EnclaveAutomata) :=
  if negb (EnclaveAutomata_is_ready a) then Val (Ok false, a) else
  p ← index_u64 (ea_peers a) peer_id;
  match p with
  | Peer_HandshakeComplete id map =>
      let lo := from_option (fun '(_, hi, _) => hi) 0%N (rim_last_range_value map) in
      map ← rim_insert map lo max_round id;
      ps ← assign_u64 (ea_peers a) peer_id (Peer_HandshakeComplete attestation map);
      Val (Ok true, a.[ea_peers := ps])
  | _ => Panic
  end.

(** [for (seed, handshake) in seed.iter_mut().zip(handshake) { *seed ^= handshake; }] *)
Definition xor_seed (seed share : list N) : list N := zip_with N.lxor seed share.

Definition EnclaveAutomata_complete_peer_handshake (a : EnclaveAutomata) (peer_id : N)
    (handshake : et_Handshake Enc) : Outcome (HandshakeResult AErr * EnclaveAutomata) :=
  if (ea_n a <=? peer_id)%N then Val (HR_EnclaveError EA_InvalidPeerId, a) else
  p ← index_u64 (ea_peers a) peer_id;
  match p with
  | Peer_None => Val (HR_MissingAttestation, a)
  | Peer_HandshakeComplete _ _ => Val (HR_DuplicateReply, a)
  | Peer_Attested att =>
      unsealed ← et_unseal_seed_share (ea_enclave a) handshake att;
      match unsealed with
      | Err e => Val (HR_EnclaveError (EA_EnclaveTrusted e), a)
      | Ok handshake =>
          let a := a.[ea_seed := xor_seed (ea_seed a) handshake] in
          added ← u64_add (ea_peers_added a) 1;
          let a := a.[ea_peers_added := added] in
          ps ← assign_u64 (ea_peers a) peer_id (Peer_HandshakeComplete att rim_new);
          let a := a.[ea_peers := ps] in
          a ← EnclaveAutomata_check_ready a;
          Val (HR_Ok, a)
      end
  end.

Definition EnclaveAutomata_sign (a : EnclaveAutomata) (message_hash : list N)
    : Outcome (Result (et_Signature Enc * N) AErr * EnclaveAutomata) :=
  if negb (EnclaveAutomata_is_ready a) then Val (Err EA_NotReady, a) else
  c ← u64_add (ea_c a) 1;
  let a := a.[ea_c := c] in
  k ← u64_sub (ea_c a) 1;
  let '(r, e) := et_sign (ea_enclave a) message_hash k in
  let a := a.[ea_enclave := e] in
  match r with
  | Err e => Val (Err (EA_EnclaveTrusted e), a)
  | Ok sig => k ← u64_sub (ea_c a) 1; Val (Ok (sig, k), a)
  end.

(** The attestation a vertex of [round] is checked against. *)
Definition attestation_for (current_attestation : et_Attestation Enc)
    (old_attestations : M (et_Attestation Enc)) (round : N) : et_Attestation Enc :=
  match rim_get old_attestations round with
  | Some attestation => attestation
  | None => current_attestation
  end.

Definition EnclaveAutomata_verify (a : EnclaveAutomata) (peer_id counter : N)
    (message : SignableVertex B) (signature : et_Signature Enc) : Outcome (Result bool AErr) :=
  let message_hash := SignableVertex_to_hash message in
  if (ea_n a <=? peer_id)%N then Val (Err EA_InvalidPeerId) else
  if negb (EnclaveAutomata_is_ready a) then Val (Err EA_NotReady) else
  p ← index_u64 (ea_peers a) peer_id;
  c ← Peer_unwrap_complete p;
  let attestation := attestation_for c.1 c.2 (da_round (SignableVertex_address message)) in
  Val (map_err (et_verify attestation counter message_hash signature)).

(** The loop of [toss]: the creators seen and the number of valid vertices, or
    the error that ended it. *)
Fixpoint toss_loop (a : EnclaveAutomata) (proof : list (SignedVertex B (et_Signature Enc)))
    (seen : gset N) (valid : N) : Outcome (Result N AErr) :=
  match proof with
  | [] => Val (Ok valid)
  | v :: proof =>
      if bool_decide (SignedVertex_creator v ∈ seen)
         || negb (SignedVertex_round v =? ea_next_toss a)%N
      then toss_loop a proof seen valid else
      r ← EnclaveAutomata_verify a (SignedVertex_creator v) (SignedVertex_counter v)
            (signable_vertex v) (SignedVertex_signature v);
      match r with
      | Ok true =>
          valid ← u64_add valid 1;
          toss_loop a proof ({[SignedVertex_creator v]} ∪ seen) valid
      | Ok false => toss_loop a proof seen valid
      | Err e => Val (Err e)
      end
  end.

Definition EnclaveAutomata_toss (a : EnclaveAutomata)
    (proof : list (SignedVertex B (et_Signature Enc))) : Outcome (Result N AErr * EnclaveAutomata) :=
  r ← toss_loop a proof ∅ 0;
  match r with
  | Err e => Val (Err e, a)
  | Ok valid =>
      if (valid <? ea_quorum a)%N then Val (Err EA_NotEnoughValidVertices, a) else
      ra ← EnclaveAutomata_rand a;
      Val (Ok (from_u64 ra.1), ra.2)
  end.

Definition EnclaveAutomata_get_attestation_certificate (a : EnclaveAutomata)
    : Outcome (Result (et_Attestation Enc) AErr * EnclaveAutomata) :=
  let '(r, e) := et_get_attestation_certificate (ea_enclave a) in
  Val (map_err r, a.[ea_enclave := e]).

End automata.
Arguments recover_fuel : simpl never.
Arguments Peer M Enc {_}.
Arguments EnclaveAutomata {_} M Enc {_}.
Arguments EnclaveAutomataExport M Enc {_}.

(** ** [SimpleEnclave]

    [EnclaveId] is the UUID drawn by [EnclaveId::random] (a number), a
    signature the pair of the enclave's id and the counter.  A failing
    [getrandom] is the error [Random]. *)

Inductive SimpleEnclaveError := Random (code : N).

Record SimpleEnclaveTrusted := mkSimpleTrusted { enclave_id : N }.
Record EnclaveSignature := mkEnclaveSignature { es_id : N; es_counter : N }.

#[export] Instance EnclaveSignature_eq_dec : EqDecision EnclaveSignature.
Proof. solve_decision. Defined.

(** What the operating system returns: a fresh UUID, and the bytes or the error of [getrandom]. *)
Record SimpleEntropy := mkEntropy { ent_uuid : N; ent_random : Result (list N) N }.

#[export] Instance SimpleEnclaveTrusted_impl : EnclaveTrusted SimpleEnclaveTrusted := {|
  et_Attestation := N;
  et_Error := SimpleEnclaveError;
  et_Handshake := list N;
  et_Signature := EnclaveSignature;
  et_Entropy := SimpleEntropy;
  et_gen_seed_share := fun ent _ =>
    match ent_random ent with Ok dest => Ok dest | Err e => Err (Random e) end;
  et_seal_seed_share := fun _ _ share => Val (Ok share);
  et_unseal_seed_share := fun _ handshake _ => Val (Ok handshake);
  et_sign := fun e _ count => (Ok (mkEnclaveSignature (enclave_id e) count), e);
  et_verify := fun attestation counter _ signature =>
    Ok ((counter =? es_counter signature)%N && (attestation =? es_id signature)%N);
  et_get_attestation_certificate := fun e => (Ok (enclave_id e), e);
|}.

Section simple.
  Context {P : Profile} {B : Type} `{BitSet B} `{Digests} `{Rand}.
  Context {M : Type -> Type} `{RangeInclusiveMap M}.

Definition SimpleEnclave : Type := EnclaveAutomata M SimpleEnclaveTrusted.

#[export] Instance SimpleEnclave_impl : Enclave B SimpleEnclave := {|
  Signature := EnclaveSignature;
  EnclaveError := EnclaveAutomataError SimpleEnclaveError;
  Attestation := N;
  Handshake := list N;
  Export := EnclaveAutomataExport M SimpleEnclaveTrusted;
  Entropy := SimpleEntropy;
  enc_new := fun ent n => EnclaveAutomata_new n (mkSimpleTrusted (ent_uuid ent));
  enc_get_n := EnclaveAutomata_get_n;
  enc_init := EnclaveAutomata_init (Enc := SimpleEnclaveTrusted);
  enc_get_attestation_certificate := EnclaveAutomata_get_attestation_certificate;
  enc_verify_attestation := fun _ _ => Val (Ok true);
  enc_init_peer_handshake := EnclaveAutomata_init_peer_handshake (Enc := SimpleEnclaveTrusted);
  enc_complete_peer_handshake := EnclaveAutomata_complete_peer_handshake (Enc := SimpleEnclaveTrusted);
  enc_export := fun a => r ← EnclaveAutomata_export a; Val (r, a);
  enc_recover := EnclaveAutomata_recover;
  enc_replace_peer := EnclaveAutomata_replace_peer (Enc := SimpleEnclaveTrusted);
  enc_sign := fun a message => EnclaveAutomata_sign (Enc := SimpleEnclaveTrusted) a (SignableVertex_to_hash message);
  enc_toss := EnclaveAutomata_toss (Enc := SimpleEnclaveTrusted);
  enc_verify := EnclaveAutomata_verify (Enc := SimpleEnclaveTrusted);
  enc_is_ready := fun a => Val (EnclaveAutomata_is_ready a, a);
|}.
End simple.
