(* ===== verification/NxMessages.v ===== *)
(** * NxBFT: messages and output

    Models [src/atomic-broadcast/nxbft/nxbft/src]: [message.rs] (the messages
    replicas exchange), [output.rs] (what a handler emits, before and after
    reflection), [util.rs] and the [Wave] type of [lib.rs].

    An [Instant] is the number of nanoseconds of the clock, a [Duration] a
    number of nanoseconds. *)

From Stdlib Require Import ZArith Lia.
From stdpp Require Import base list gmap sets numbers option strings pretty.
From S2P Require Import Prelude Ids Heaps NxBase NxEnclave.

Abbreviation Instant := N (only parsing).
Abbreviation Duration := N (only parsing).
Abbreviation Wave := N (only parsing).

(** ** [lib.rs]: [impl From<Round> for Wave], and [util.rs] *)

Definition Wave_from (round : N) : Outcome N :=
  rust_assert (4 <=? as_u64 round)%N ;; Val (from_u64 (as_u64 round / 4)%N).

Section util.
  Context {P : Profile}.

Definition round (wave round_in_wave : N) : Outcome N :=
  rust_assert ((0 <? round_in_wave)%N && (round_in_wave <? 5)%N) ;;
  w ← id_sub wave 1;
  x ← u64_mul 4 (as_u64 w);
  x ← u64_add x round_in_wave;
  Val (from_u64 x).
End util.

(** ** [Display] of ids *)

Definition Id_to_string (name : string) (id : N) : string := name +:+ "(" +:+ pretty id +:+ ")".
Definition DagAddress_debug (a : DagAddress) : string :=
  "DagAddress(" +:+ Id_to_string "Round" (da_round a) +:+ ", "
  +:+ Id_to_string "ReplicaId" (da_creator a) +:+ ")".

Section messages.
  Context {B Tx Enc : Type} `{BitSet B} `{Enclave B Enc}.

Abbreviation Vtx := (Vertex B Tx (Signature Enc)).

(** ** [message.rs] *)

Definition NonEquivocationPayload : Type := Vtx.
Record SignedMessage := mkSignedMessage { sm_payload : NonEquivocationPayload }.

Definition SignedMessage_creator (m : SignedMessage) : N := Vertex_creator (sm_payload m).
Definition SignedMessage_counter (m : SignedMessage) : N := Vertex_counter (sm_payload m).
Definition SignedMessage_signature (m : SignedMessage) : Signature Enc := Vertex_signature (sm_payload m).
Definition SignedMessage_signable (m : SignedMessage) : SignableVertex B := Vertex_signable (sm_payload m).

Definition SignedMessage_hash `{Hashbar (Signature Enc)} (m : SignedMessage) : list N :=
  to_le_bytes (SignedMessage_creator m) ++ to_le_bytes (SignedMessage_counter m)
  ++ hash_bytes (SignedMessage_signature m).

#[export] Instance SignedMessage_Keyable : Keyable SignedMessage N := SignedMessage_counter.

Definition NonEquivocationPayload_to_string (p : NonEquivocationPayload) : string :=
  "Vertex(r: " +:+ Id_to_string "Round" (Vertex_round p) +:+ ", p: "
  +:+ pretty (Vertex_creator p) +:+ ")".

Definition SignedMessage_to_string (m : SignedMessage) : string :=
  "NonEquivocationMessage(" +:+ Id_to_string "ReplicaId" (SignedMessage_creator m) +:+ "): "
  +:+ NonEquivocationPayload_to_string (sm_payload m).

Record RecoveryProposal := mkRecoveryProposal {
  rp_for_id : N;
  rp_for_attestation : Attestation Enc;
  rp_messages : list SignedMessage;
}.

Record RecoveryCommit := mkRecoveryCommit {
  rc_for_id : N;
  rc_for_attestation : Attestation Enc;
  rc_messages : list SignedMessage;
}.

Inductive Message :=
| Hello (att : Attestation Enc)
| HelloEcho (creator : N) (att : Attestation Enc)
| HelloReply (handshake : Handshake Enc)
| Ready
| Signed (msg : SignedMessage)
| VertexRequest (address : DagAddress)
| ReocoveryRequest (att : Attestation Enc)
| RecovertyProposal (proposal : RecoveryProposal)
| RecoveryCommitMsg (commit : RecoveryCommit).

Record PeerMessage := mkPeerMessage { pm_from : N; pm_message : Message }.

Definition PeerMessage_to_string (m : PeerMessage) : string :=
  (match pm_message m with
   | Hello _ => "Hello"
   | HelloReply _ => "HelloReply"
   | HelloEcho creator _ => "HelloEcho(" +:+ pretty (as_u64 creator) +:+ ")"
   | Ready => "Ready"
   | Signed msg => SignedMessage_to_string msg
   | VertexRequest address => "VertexRequest(" +:+ DagAddress_debug address +:+ ")"
   | ReocoveryRequest _ => "ReocoveryRequest"
   | RecoveryCommitMsg _ => "RecoveryCommit"
   | RecovertyProposal _ => "RecoveryProposal"
   end) +:+ " from " +:+ pretty (as_u64 (pm_from m)).

(** ** [output.rs] *)

Inductive VertexTimeout :=
| VT_Set (d : N)
| VT_Cancel
| VT_None.

Inductive Error :=
| EnclaveErr (e : EnclaveError Enc)
| NotReady.

Inductive PeerErrorType :=
| PE_InvalidSignature
| PE_InvalidVertexEdgesRound1
| PE_InvalidVertexEdges
| PE_UnknownVertexRequest
| PE_InvalidAttestation
| PE_DuplicateHelloReply
| PE_InvalidHandshakeEncryption
| PE_DuplicateReady
| PE_DuplicateHello
| PE_AttestationEquivocation (or : N)
| PE_DuplicateHelloEcho
| PE_InvalidFrom
| PE_InvalidRelayCreator (given : N)
| PE_DuplicateRecoveryProposal
| PE_DuplicateRecoveryCommit.

Record PeerError := PeerError_from_type { pe_by : N; pe_error_type : PeerErrorType }.

Inductive Consensus :=
| UnknownWaveLeader
| DirectCommitRuleViolated
| Decided (waves : list N) (leaders order : list DagAddress)
| RoundTransition (new_round : N)
| CatchUp (delayed : N).

Inductive Broadcast := BC_VertexRequest (round creator : N).

Inductive Verbose :=
| ReceivedHello (from : N)
| ReceivedHelloReply (from : N)
| HelloReplyBeforeHello (from : N)
| CachedHelloReply (from : N)
| ReceivedHelloEcho (from creator : N)
| BufferedVertex (vertex : DagAddress)
| NonEquivocationBroadcastReceive (creator : N) (payload : string)
| NonEquivocationBroadcastDeliver (creator : N) (payload : string)
| ReceivedDuplicate (from : N) (vertex : DagAddress)
| VertexAdded (vertex : DagAddress)
| OwnRecoveryIgnore (msg : string)
| PeerRecoveryIgnore (from : N) (msg : string)
| IgnoreOutdatedRecoveryProposal (by_ : N).

Inductive StateMessage :=
| SM_Error (e : Error)
| SM_PeerError (e : PeerError)
| SM_Consensus (c : Consensus)
| SM_Broadcast (b : Broadcast)
| SM_Ready
| SM_Verbose (v : Verbose).

Record Output := mkOutput {
  out_broadcasts : list PeerMessage;
  out_unicasts : list (N * PeerMessage);
  out_state_messages : list StateMessage;
  out_vertex_timeout : VertexTimeout;
  out_delivery : list Tx;
  out_backup_enclave : bool;
  out_decision_times : list N;
}.

Definition is_nil {A} (l : list A) : bool := match l with [] => true | _ => false end.

Definition Output_is_empty (o : Output) : bool :=
  is_nil (out_broadcasts o) && is_nil (out_unicasts o) && is_nil (out_state_messages o)
  && match out_vertex_timeout o with VT_None => true | _ => false end
  && is_nil (out_delivery o) && negb (out_backup_enclave o).

Record UnreflectedOutput := mkUnreflected {
  uo_reflection_messages : list PeerMessage;
  uo_broadcasts : list PeerMessage;
  uo_unicasts : list (N * PeerMessage);
  uo_state_messages : list StateMessage;
  uo_delivery : list Tx;
  uo_vertex_timeout : VertexTimeout;
  uo_me : N;
  uo_backup_enclave : bool;
  uo_decision_times : list N;
}.
#[export] Instance UnreflectedOutput_eta : Eta UnreflectedOutput := fun o =>
  mkUnreflected (uo_reflection_messages o) (uo_broadcasts o) (uo_unicasts o) (uo_state_messages o)
    (uo_delivery o) (uo_vertex_timeout o) (uo_me o) (uo_backup_enclave o) (uo_decision_times o).

Definition UnreflectedOutput_new (me : N) : UnreflectedOutput :=
  mkUnreflected [] [] [] [] [] VT_None me false [].

Definition UnreflectedOutput_broadcast (m : PeerMessage) (o : UnreflectedOutput) : UnreflectedOutput :=
  o.[uo_broadcasts := uo_broadcasts o ++ [m]].[uo_reflection_messages ::= fun l => l ++ [m]].

Definition UnreflectedOutput_unicast (to : N) (m : PeerMessage) (o : UnreflectedOutput)
    : UnreflectedOutput :=
  if (to =? uo_me o)%N then o.[uo_reflection_messages := uo_reflection_messages o ++ [m]]
  else o.[uo_unicasts := uo_unicasts o ++ [(to, m)]].

Definition UnreflectedOutput_state_message (m : StateMessage) (o : UnreflectedOutput)
    : UnreflectedOutput := o.[uo_state_messages := uo_state_messages o ++ [m]].

Definition UnreflectedOutput_append_delivery (tx : Tx) (o : UnreflectedOutput) : UnreflectedOutput :=
  o.[uo_delivery := uo_delivery o ++ [tx]].

Definition UnreflectedOutput_set_timeout (d : N) (o : UnreflectedOutput) : UnreflectedOutput :=
  o.[uo_vertex_timeout := VT_Set d].

Definition UnreflectedOutput_cancel_timeout (o : UnreflectedOutput) : UnreflectedOutput :=
  o.[uo_vertex_timeout := VT_None].

Definition UnreflectedOutput_set_backup_enclave (o : UnreflectedOutput) : UnreflectedOutput :=
  o.[uo_backup_enclave := true].

(** [now] is what [Instant::now()] returns. *)
Definition UnreflectedOutput_log_decision_time (now : N) (o : UnreflectedOutput) : UnreflectedOutput :=
  o.[uo_decision_times := uo_decision_times o ++ [now]].

End messages.
Arguments SignedMessage B Tx Enc {_}.
Arguments RecoveryProposal B Tx Enc {_}.
Arguments RecoveryCommit B Tx Enc {_}.
Arguments Message B Tx Enc {_}.
Arguments PeerMessage B Tx Enc {_}.
Arguments Error B Enc {_}.
Arguments StateMessage B Enc {_}.
Arguments Output B Tx Enc {_}.
Arguments UnreflectedOutput B Tx Enc {_}.

(** ** Decidable equality ([derive(PartialEq, Eq)]) *)

Section eq.
  Context {B Tx Enc : Type} `{BitSet B} `{Enclave B Enc} `{EqDecision B, EqDecision Tx}.

#[export] Instance IdSet_eq_dec : EqDecision (IdSet B).
Proof. solve_decision. Defined.
#[export] Instance SignableVertex_eq_dec : EqDecision (SignableVertex B).
Proof. solve_decision. Defined.
#[export] Instance SignedVertex_eq_dec : EqDecision (SignedVertex B (Signature Enc)).
Proof. solve_decision. Defined.
#[export] Instance Vertex_eq_dec : EqDecision (Vertex B Tx (Signature Enc)).
Proof. solve_decision. Defined.
#[export] Instance SignedMessage_eq_dec : EqDecision (SignedMessage B Tx Enc).
Proof. unfold EqDecision, Decision. decide equality. apply Vertex_eq_dec. Defined.
#[export] Instance RecoveryCommit_eq_dec : EqDecision (RecoveryCommit B Tx Enc).
Proof. solve_decision. Defined.
End eq.
