(* ===== verification/NxReplica.v ===== *)
(** * NxBFT: the replica

    Models [NxBft] of [src/atomic-broadcast/nxbft/nxbft/src/lib.rs]: the state
    record, and every handler as a method of the state monad [St].

    [clock k] is the value of the [k]-th read of [Instant::now()]; the number of
    reads so far is the state component [nx_ticks].  Handlers emit into the
    field [nx_output]; [reflect] empties it and processes the messages the
    replica sent to itself, which is the recursion [reflect] /
    [process_peer_message] of the code, on fuel.  Log output ([debug!], [info!]
    and the file of recovery times) is not modelled. *)

From Stdlib Require Import ZArith Lia.
From stdpp Require Import base list gmap sets numbers option strings.
From S2P Require Import Prelude Ids Heaps Requests NxBase NxDag NxEnclave NxMessages.

Section replica.
  Context {P : Profile} {B Tx Enc : Type}.
  Context `{BitSet B} `{Digests} `{Enclave B Enc} `{Transaction Tx} `{Hashbar Tx}.
  Context `{EqDecision B, EqDecision Tx}.
  (** [Instant::now()] *)
  Context (clock : nat -> N).

Abbreviation Vtx := (Vertex B Tx (Signature Enc)).
Abbreviation SMsg := (SignedMessage B Tx Enc).
Abbreviation PMsg := (PeerMessage B Tx Enc).

Record Backup := mkBackup {
  bk_n : N;
  bk_quorum : N;
  bk_me : N;
  bk_round : N;
  bk_decided_wave : N;
  bk_dag : Dag B Tx (Signature Enc);
  bk_client_last_request : gmap N N;
  bk_expected_counters : list N;
  bk_highest_rounds : list N;
  bk_vertex_buffer : CursoredHeap Vtx DagAddress;
  bk_pending_wave_coins : gmap N N;
  bk_vertex_timeout : N;
  bk_min_vertex_size : N;
  bk_max_vertex_size : N;
  bk_enclave : Export Enc;
  bk_seen_recovery_requests : gset (Attestation Enc);
  bk_successful_recoveries : gset (Attestation Enc);
  bk_recovery_proposal_senders : gmap (Attestation Enc) (IdSet B);
  bk_max_rounds : list N;
}.

Record NxBft := mkNxBft {
  nx_n : N;
  nx_quorum : N;
  nx_me : N;
  nx_round : N;
  nx_decided_wave : N;
  nx_dag : Dag B Tx (Signature Enc);
  nx_hello_reply_count : N;
  nx_ready : bool;
  nx_call_create_vertex : bool;
  nx_in_recovery : bool;
  nx_hello_set : IdSet B;
  nx_ready_set : IdSet B;
  nx_hello_map : gmap N (Attestation Enc * IdSet B);
  nx_pending_client_requests : PendingClientRequests Tx;
  nx_client_last_request : gmap N N;
  nx_expected_counters : list N;
  nx_highest_rounds : list N;
  nx_non_equivocation_message_buffers : list (HeapBuffer SMsg N);
  nx_vertex_buffer : CursoredHeap Vtx DagAddress;
  nx_enclave : Enc;
  nx_pending_wave_coins : gmap N N;
  nx_cached_hello_replies : gmap N (Handshake Enc);
  nx_pending_vertices : gset DagAddress;
  nx_vertex_requests : gmap DagAddress (IdSet B);
  nx_vertex_timeout : N;
  nx_allow_timeout : bool;
  nx_min_vertex_size : N;
  nx_max_vertex_size : N;
  nx_restart_round : N;
  nx_recovery_proposal_senders : gmap (Attestation Enc) (IdSet B);
  nx_longest_recovery_proposal : gmap (Attestation Enc) (list SMsg);
  nx_currently_recovering : IdSet B;
  nx_recovery_commits : gmap (Attestation Enc) (list (option (RecoveryCommit B Tx Enc)));
  nx_seen_recovery_requests : gset (Attestation Enc);
  nx_successful_recoveries : gset (Attestation Enc);
  nx_output : UnreflectedOutput B Tx Enc;
  nx_max_rounds : list N;
  nx_recovery_start : option N;
  nx_last_vertex_created_at : N;
  nx_ticks : nat;
}.
#[export] Instance NxBft_eta : Eta NxBft := fun s => mkNxBft
  (nx_n s) (nx_quorum s) (nx_me s) (nx_round s) (nx_decided_wave s) (nx_dag s)
  (nx_hello_reply_count s) (nx_ready s) (nx_call_create_vertex s) (nx_in_recovery s)
  (nx_hello_set s) (nx_ready_set s) (nx_hello_map s) (nx_pending_client_requests s)
  (nx_client_last_request s) (nx_expected_counters s) (nx_highest_rounds s)
  (nx_non_equivocation_message_buffers s) (nx_vertex_buffer s) (nx_enclave s)
  (nx_pending_wave_coins s) (nx_cached_hello_replies s) (nx_pending_vertices s)
  (nx_vertex_requests s) (nx_vertex_timeout s) (nx_allow_timeout s) (nx_min_vertex_size s)
  (nx_max_vertex_size s) (nx_restart_round s) (nx_recovery_proposal_senders s)
  (nx_longest_recovery_proposal s) (nx_currently_recovering s) (nx_recovery_commits s)
  (nx_seen_recovery_requests s) (nx_successful_recoveries s) (nx_output s) (nx_max_rounds s)
  (nx_recovery_start s) (nx_last_vertex_created_at s) (nx_ticks s).

(** ** Output, clock and enclave *)

Definition broadcast (m : Message B Tx Enc) : St NxBft () :=
  me ← self nx_me;
  nx_output <~> UnreflectedOutput_broadcast (mkPeerMessage me m).
Definition unicast (to : N) (m : Message B Tx Enc) : St NxBft () :=
  me ← self nx_me;
  nx_output <~> UnreflectedOutput_unicast to (mkPeerMessage me m).
Definition state_message (m : StateMessage B Enc) : St NxBft () :=
  nx_output <~> UnreflectedOutput_state_message m.
Definition peer_error (by_ : N) (e : PeerErrorType) : St NxBft () :=
  state_message (SM_PeerError (PeerError_from_type by_ e)).
Definition verbose (v : Verbose) : St NxBft () := state_message (SM_Verbose v).
Definition enclave_error (e : EnclaveError Enc) : St NxBft () := state_message (SM_Error (EnclaveErr e)).

(** [Instant::now()], and [elapsed()] of an earlier instant. *)
Definition now : St NxBft N :=
  k ← self nx_ticks;
  nx_ticks <~ S k ;;
  mret (clock k).
Definition elapsed (since : N) : St NxBft N := t ← now; mret (t - since)%N.

(** A call of the enclave that may change its state. *)
Definition enclave_call {A} (f : Enc -> Outcome (A * Enc)) : St NxBft A :=
  zoom nx_enclave (fun s e => s.[nx_enclave := e]) f.

Definition verify (creator counter : N) (v : SignableVertex B) (sig : Signature Enc)
    : St NxBft (Result bool (EnclaveError Enc)) :=
  inspect (fun s : NxBft => enc_verify (nx_enclave s) creator counter v sig).

(** [self.buffers[i].op()] *)
Definition set_buffer (i : N) (f : HeapBuffer SMsg N -> Outcome (HeapBuffer SMsg N)) : St NxBft () :=
  update (fun s =>
    b ← IdMap_index (nx_non_equivocation_message_buffers s) i;
    b ← f b;
    bs ← IdMap_index_mut (nx_non_equivocation_message_buffers s) i b;
    Val s.[nx_non_equivocation_message_buffers := bs]).

(** [if self.rounds[i] < round { self.rounds[i] = round; }] *)
Definition raise_round (rounds : list N) (i round : N) : Outcome (list N) :=
  r ← IdMap_index rounds i;
  if (r <? round)%N then IdMap_index_mut rounds i round else Val rounds.

(** The loop that drops the buffered vertices of one creator. *)
Fixpoint remove_creator_loop (fuel : nat) (creator : N) (c : Cursor Vtx DagAddress)
    : Outcome (Cursor Vtx DagAddress) :=
  match fuel with
  | O => NoFuel
  | S fuel =>
      vc ← Cursor_advance c;
      match vc.1 with
      | None => Val vc.2
      | Some v =>
          if (Vertex_creator v =? creator)%N
          then rc ← Cursor_remove vc.2; remove_creator_loop fuel creator rc.2
          else remove_creator_loop fuel creator vc.2
      end
  end.

Definition remove_creator (creator : N) (h : CursoredHeap Vtx DagAddress)
    : Outcome (CursoredHeap Vtx DagAddress) :=
  c ← remove_creator_loop (S (length (ch_heap h))) creator (CursoredHeap_cursor h);
  Cursor_finalize c.

(** ** [new] *)

Definition NxBft_new (ent : Entropy Enc) (t0 : nat) (me n vertex_timeout min_vertex_size max_vertex_size : N)
    : Outcome NxBft :=
  rust_assert (3 <=? n)%N ;;
  rust_assert (as_u64 me <? n)%N ;;
  rust_assert (negb (max_vertex_size =? 0)%N) ;;
  rust_assert (min_vertex_size <=? max_vertex_size)%N ;;
  enclave ← enc_new ent n;
  dag ← Dag_new n;
  Val {|
    nx_n := n; nx_quorum := n / 2 + 1; nx_me := me; nx_round := 1; nx_decided_wave := 0;
    nx_dag := dag; nx_hello_reply_count := 0; nx_ready := false; nx_call_create_vertex := false;
    nx_in_recovery := false; nx_hello_set := IdSet_with_capacity n;
    nx_ready_set := IdSet_with_capacity n; nx_hello_map := ∅;
    nx_pending_client_requests := Pending_new max_vertex_size;
    nx_client_last_request := ∅; nx_expected_counters := IdMap_new 0%N n;
    nx_highest_rounds := IdMap_new 0%N n;
    nx_non_equivocation_message_buffers := IdMap_new HeapBuffer_default n;
    nx_vertex_buffer := CursoredHeap_default; nx_enclave := enclave;
    nx_pending_wave_coins := ∅; nx_cached_hello_replies := ∅; nx_pending_vertices := ∅;
    nx_vertex_requests := ∅; nx_vertex_timeout := vertex_timeout; nx_allow_timeout := false;
    nx_min_vertex_size := min_vertex_size; nx_max_vertex_size := max_vertex_size;
    nx_restart_round := 0; nx_recovery_proposal_senders := ∅; nx_longest_recovery_proposal := ∅;
    nx_currently_recovering := IdSet_with_capacity n; nx_recovery_commits := ∅;
    nx_seen_recovery_requests := ∅; nx_successful_recoveries := ∅;
    nx_output := UnreflectedOutput_new me; nx_max_rounds := IdMap_new 0%N n;
    nx_recovery_start := None; nx_last_vertex_created_at := clock t0; nx_ticks := S t0;
  |}.

(** ** Creating a vertex *)

(** [for edge in self.dag.get_round(self.round - 1) { edges.insert(edge.creator()); }] *)
Definition previous_round_edges (s : NxBft) : Outcome (IdSet B) :=
  let edges := IdSet_with_capacity (nx_n s) in
  if (1 <? as_u64 (nx_round s))%N then
    r ← id_sub (nx_round s) 1;
    addresses ← Dag_get_round (nx_dag s) r;
    Val (foldl (fun edges edge => (IdSet_insert edges (da_creator edge)).2) edges addresses)
  else Val edges.

Definition create_vertex (allowed_to_be_empty_or_ahead_of_time : bool) : St NxBft (option Vtx) :=
  r ← self nx_round;
  restart ← self nx_restart_round;
  if (r <? restart)%N then
    c ← self nx_call_create_vertex;
    (if negb c then
       t ← self nx_vertex_timeout;
       nx_output <~> UnreflectedOutput_set_timeout t ;;
       nx_call_create_vertex <~ true ;;
       nx_allow_timeout <~ true
     else mret ()) ;;
    mret None
  else
  full ← inspect (fun s : NxBft => Pending_full_block_or_at_least (nx_pending_client_requests s)
                             (nx_min_vertex_size s));
  let would_break := negb full in
  created ← self nx_last_vertex_created_at;
  e ← elapsed created;
  timeout ← self nx_vertex_timeout;
  let timeout_already_passed := (timeout <? e)%N in
  let execute := negb would_break || timeout_already_passed || allowed_to_be_empty_or_ahead_of_time in
  if execute then
    pending ← self nx_pending_client_requests;
    let '(txs, rest) := Pending_pop_front pending in
    nx_pending_client_requests <~ rest ;;
    edges ← inspect previous_round_edges;
    me ← self nx_me;
    v ← Vertex_new r me edges txs (fun vertex => enclave_call (fun enc => enc_sign enc vertex));
    match v with
    | Err e => enclave_error e ;; mret None
    | Ok vertex =>
        broadcast (Signed (mkSignedMessage vertex)) ;;
        t ← now;
        nx_last_vertex_created_at <~ t ;;
        nx_call_create_vertex <~ false ;;
        nx_output <~> UnreflectedOutput_cancel_timeout ;;
        nx_allow_timeout <~ false ;;
        mret (Some vertex)
    end
  else
    nx_call_create_vertex <~ true ;;
    created ← self nx_last_vertex_created_at;
    e ← elapsed created;
    nx_output <~> UnreflectedOutput_set_timeout (from_option id 0%N (checked_sub timeout e)) ;;
    nx_allow_timeout <~ true ;;
    mret None.

(** ** Deciding a wave *)

(** The walk back over the waves since the last decision: the stack of leaders
    (latest pushed first), the decided waves in the order they are pushed, and
    the DAG with its exploration marks. *)
Fixpoint leaders_loop (fuel : nat) (coins : gmap N N) (decided_wave : N) (d : Dag B Tx (Signature Enc))
    (v : DagAddress) (leaders_stack : list DagAddress) (decided_waves : list N) (wave_prime : N)
    : Outcome (list DagAddress * list N * Dag B Tx (Signature Enc)) :=
  match fuel with
  | O => NoFuel
  | S fuel =>
      if (decided_wave <? wave_prime)%N then
        r ← round wave_prime 1;
        coin ← unwrap (coins !! wave_prime);
        let v_prime := DagAddress_new r coin in
        k ← Dag_knows d v_prime;
        pd ← (if k : bool then Dag_has_path d v v_prime else Val (false, d));
        w ← id_sub_assign wave_prime 1;
        if pd.1 : bool then
          leaders_loop fuel coins decided_wave pd.2 v_prime (v_prime :: leaders_stack)
            (decided_waves ++ [wave_prime]) w
        else leaders_loop fuel coins decided_wave pd.2 v leaders_stack decided_waves w
      else Val (leaders_stack, decided_waves, d)
  end.

Definition deliver_transactions (txs : list Tx) : St NxBft () :=
  st_for txs (fun tx =>
    last ← self nx_client_last_request;
    match deliver_tx last tx with
    | None => mret ()
    | Some last =>
        nx_client_last_request <~ last ;;
        nx_output <~> UnreflectedOutput_append_delivery tx
    end).

(** [while let Some(leader) = leaders_stack.pop()]: the order of delivery. *)
Fixpoint deliver_leaders (leaders_stack : list DagAddress) (order : list DagAddress)
    : St NxBft (list DagAddress) :=
  match leaders_stack with
  | [] => mret order
  | leader :: leaders_stack =>
      vas ← zoom nx_dag (fun (s : NxBft) d => s.[nx_dag := d]) (fun d => Dag_deliver_from d leader 0);
      st_for vas (fun va =>
        x ← inspect (fun s : NxBft => Dag_index (nx_dag s) va);
        deliver_transactions (v_transactions x)) ;;
      deliver_leaders leaders_stack (order ++ vas)
  end.

(** The vertices of a round, for the toss. *)
Fixpoint round_proof (d : Dag B Tx (Signature Enc)) (vas : list DagAddress)
    : Outcome (list (SignedVertex B (Signature Enc))) :=
  match vas with
  | [] => Val []
  | va :: vas => x ← Dag_index d va; l ← round_proof d vas; Val (v_signed x :: l)
  end.

(** How many of the vertices reach [leader]. *)
Definition count_reaching (d : Dag B Tx (Signature Enc)) (vas : list DagAddress) (leader : N)
    : Outcome N :=
  for_each vas 0%N (fun c va => b ← Dag_reaches d va leader; if b : bool then u64_add c 1 else Val c).

(** The part of [wave_ready] after the commit rule: the leaders since the last
    decision are delivered, the oldest first. *)
Definition decide_wave (wave : N) (v : DagAddress) : St NxBft () :=
  t ← now;
  nx_output <~> UnreflectedOutput_log_decision_time t ;;
  wave_prime ← lift (id_sub wave 1);
  coins ← self nx_pending_wave_coins;
  decided ← self nx_decided_wave;
  d ← self nx_dag;
  sw ← lift (leaders_loop (S (N.to_nat wave)) coins decided d v [v] [wave] wave_prime);
  nx_dag <~ sw.2 ;;
  order ← deliver_leaders sw.1.1 [];
  state_message (SM_Consensus (Decided (rev sw.1.2) sw.1.1 order)) ;;
  nx_decided_wave <~ wave ;;
  nx_pending_wave_coins <~ ∅.

(** The part of [wave_ready] after the toss. *)
Definition commit_rule (wave wave_leader : N) : St NxBft () :=
  r1 ← lift (round wave 1);
  k ← inspect (fun s : NxBft => Dag_knows (nx_dag s) (DagAddress_new r1 wave_leader));
  if negb k then state_message (SM_Consensus UnknownWaveLeader) else
  r4 ← lift (round wave 4);
  reaching_leader ← inspect (fun s : NxBft => vas ← Dag_get_round (nx_dag s) r4;
                                      count_reaching (nx_dag s) vas wave_leader);
  quorum ← self nx_quorum;
  if (reaching_leader <? quorum)%N
  then state_message (SM_Consensus DirectCommitRuleViolated)
  else decide_wave wave (DagAddress_new r1 wave_leader).

Definition wave_ready : St NxBft () :=
  r ← self nx_round;
  lift (rust_assert (4 <=? as_u64 r)%N) ;;
  wave ← lift (Wave_from r);
  proof ← inspect (fun s : NxBft => vas ← Dag_get_round (nx_dag s) r; round_proof (nx_dag s) vas);
  toss ← enclave_call (fun e => enc_toss e proof);
  match toss with
  | Err e => enclave_error e
  | Ok wave_leader =>
      nx_pending_wave_coins <~> insert wave wave_leader ;;
      commit_rule wave wave_leader
  end.

(** ** The vertex buffer *)

(** Asking the peers for a vertex that is not known and not asked for yet. *)
Definition request_vertex (address : DagAddress) : St NxBft () :=
  broadcast (VertexRequest address) ;;
  state_message (SM_Broadcast (BC_VertexRequest (da_round address) (da_creator address))) ;;
  nx_pending_vertices <~> union {[address]}.

(** The loop over the edges of a buffered vertex: whether all parents are known.
    (The set [missings] of the code is only written.) *)
Fixpoint check_edges (v_round : N) (edges : list N) (add : bool) : St NxBft bool :=
  match edges with
  | [] => mret add
  | creator :: edges =>
      r ← lift (id_sub v_round 1);
      let edge := DagAddress_new r creator in
      k ← inspect (fun s : NxBft => Dag_knows (nx_dag s) edge);
      if k : bool then check_edges v_round edges add else
      pending ← self nx_pending_vertices;
      if bool_decide (edge ∈ pending) then check_edges v_round edges false else
      request_vertex edge ;;
      check_edges v_round edges false
  end.

(** The walk over the buffer: the cursor where it stopped and the inserted addresses. *)
Fixpoint traverse_loop (fuel : nat) (c : Cursor Vtx DagAddress) (inserts : list DagAddress)
    : St NxBft (Cursor Vtx DagAddress * list DagAddress) :=
  match fuel with
  | O => lift NoFuel
  | S fuel =>
      vc ← lift (Cursor_advance c);
      match vc.1 with
      | None => mret (vc.2, inserts)
      | Some v =>
          r ← self nx_round;
          if (r <? Vertex_round v)%N then mret (vc.2, inserts) else
          add ← check_edges (Vertex_round v) (IdSet_iter (Vertex_edges v)) true;
          if negb add then traverse_loop fuel vc.2 inserts else
          verbose (VertexAdded (Vertex_address v)) ;;
          rc ← lift (Cursor_remove vc.2);
          update (fun s : NxBft => d ← Dag_insert (nx_dag s) rc.1; Val s.[nx_dag := d]) ;;
          traverse_loop fuel rc.2 (inserts ++ [Vertex_address v])
      end
  end.

(** Answering the requests for a vertex that was just inserted. *)
Definition answer_requests (address : DagAddress) : St NxBft () :=
  requests ← self nx_vertex_requests;
  n ← self nx_n;
  nx_vertex_requests <~ delete address requests ;;
  st_for (IdSet_iter (default (IdSet_with_capacity n) (requests !! address))) (fun to =>
    x ← inspect (fun s : NxBft => Dag_index (nx_dag s) address);
    unicast to (Signed (mkSignedMessage x))).

Definition round_complete (s : NxBft) : Outcome bool :=
  k ← Dag_knows (nx_dag s) (DagAddress_new (nx_round s) (nx_me s));
  if negb k then Val false else
  c ← Dag_get_round_valid_count (nx_dag s) (nx_round s);
  Val (nx_quorum s <=? c)%N.

Definition traverse_vertex_buffer : St NxBft () :=
  buffer ← self nx_vertex_buffer;
  ci ← traverse_loop (S (length (ch_heap buffer))) (CursoredHeap_cursor buffer) [];
  buffer ← lift (Cursor_finalize ci.1);
  nx_vertex_buffer <~ buffer ;;
  st_for ci.2 answer_requests ;;
  complete ← inspect round_complete;
  if negb complete then mret () else
  r ← self nx_round;
  (if (as_u64 r mod 4 =? 0)%N then wave_ready else mret ()) ;;
  r ← self nx_round;
  r ← lift (id_add_assign r 1);
  nx_round <~ r ;;
  update (fun s : NxBft => d ← Dag_new_round (nx_dag s); Val s.[nx_dag := d]) ;;
  state_message (SM_Consensus (RoundTransition r)) ;;
  _ ← create_vertex false;
  mret ().

Definition process_vertex (vertex : Vtx) : St NxBft () :=
  buffer ← self nx_vertex_buffer;
  if CursoredHeap_knows buffer vertex then mret () else
  k ← inspect (fun s : NxBft => Dag_knows (nx_dag s) (Vertex_address vertex));
  if k : bool then mret () else
  if (as_u64 (Vertex_round vertex) =? 1)%N && (0 <? Vertex_num_edges vertex)%N
  then peer_error (Vertex_creator vertex) PE_InvalidVertexEdgesRound1 else
  quorum ← self nx_quorum;
  if (1 <? as_u64 (Vertex_round vertex))%N && negb (Vertex_edges_valid vertex quorum)
  then peer_error (Vertex_creator vertex) PE_InvalidVertexEdges else
  update (fun s : NxBft => m ← raise_round (nx_max_rounds s) (Vertex_creator vertex) (Vertex_round vertex);
                   Val s.[nx_max_rounds := m]) ;;
  nx_pending_vertices <~> (fun p => p ∖ {[Vertex_address vertex]}) ;;
  verbose (BufferedVertex (Vertex_address vertex)) ;;
  nx_vertex_buffer <~> (fun b => CursoredHeap_insert b vertex) ;;
  traverse_vertex_buffer.

(** ** Signed messages *)

(** [while let Some(m) = self.buffers[creator].peek()] *)
Fixpoint deliver_signed_loop (fuel : nat) (creator : N) : St NxBft () :=
  match fuel with
  | O => lift NoFuel
  | S fuel =>
      b ← inspect (fun s : NxBft => IdMap_index (nx_non_equivocation_message_buffers s) creator);
      match HeapBuffer_peek b with
      | None => mret ()
      | Some m =>
          expected ← inspect (fun s : NxBft => IdMap_index (nx_expected_counters s) creator);
          if negb (SignedMessage_counter m =? expected)%N then
            r ← lift (id_sub (Vertex_round (sm_payload m)) 1);
            let address := DagAddress_new r (SignedMessage_creator m) in
            pending ← self nx_pending_vertices;
            if bool_decide (address ∈ pending) then mret () else
            request_vertex address
          else
          let '(popped, b) := HeapBuffer_pop b in
          msg ← lift (unwrap popped);
          set_buffer creator (fun _ => Val b) ;;
          verbose (NonEquivocationBroadcastDeliver (SignedMessage_creator msg)
                     (NonEquivocationPayload_to_string (sm_payload msg))) ;;
          process_vertex (sm_payload msg) ;;
          update (fun s : NxBft =>
            e ← IdMap_index (nx_expected_counters s) creator;
            e ← u64_add e 1;
            es ← IdMap_index_mut (nx_expected_counters s) creator e;
            Val s.[nx_expected_counters := es]) ;;
          deliver_signed_loop fuel creator
      end
  end.

Definition process_signed_message (from : N) (msg : SMsg) : St NxBft () :=
  ready ← self nx_ready;
  if negb ready then state_message (SM_Error NotReady) else
  recovering ← self nx_currently_recovering;
  if IdSet_contains recovering (SignedMessage_creator msg) then
    verbose (PeerRecoveryIgnore (SignedMessage_creator msg) (SignedMessage_to_string msg)) else
  let creator := SignedMessage_creator msg in
  n ← self nx_n;
  if (n <=? as_u64 creator)%N then peer_error from (PE_InvalidRelayCreator creator) else
  expected ← inspect (fun s : NxBft => IdMap_index (nx_expected_counters s) creator);
  if (SignedMessage_counter msg <? expected)%N then mret () else
  b ← inspect (fun s : NxBft => IdMap_index (nx_non_equivocation_message_buffers s) creator);
  if HeapBuffer_knows b msg then mret () else
  ok ← verify creator (SignedMessage_counter msg) (SignedMessage_signable msg)
         (SignedMessage_signature msg);
  match ok with
  | Err e => enclave_error e
  | Ok false => mret ()
  | Ok true =>
      verbose (NonEquivocationBroadcastReceive (SignedMessage_creator msg)
                 (NonEquivocationPayload_to_string (sm_payload msg))) ;;
      update (fun s : NxBft =>
        h ← raise_round (nx_highest_rounds s) (Vertex_creator (sm_payload msg))
              (Vertex_round (sm_payload msg));
        Val s.[nx_highest_rounds := h]) ;;
      set_buffer creator (fun b => HeapBuffer_insert b msg) ;;
      in_recovery ← self nx_in_recovery;
      if in_recovery : bool then mret () else
      b ← inspect (fun s : NxBft => IdMap_index (nx_non_equivocation_message_buffers s) creator);
      deliver_signed_loop (S (length (hb_buffer b))) creator
  end.

Definition process_vertex_request (from : N) (address : DagAddress) : St NxBft () :=
  me ← self nx_me;
  if (from =? me)%N then mret () else
  k ← inspect (fun s : NxBft => Dag_knows (nx_dag s) address);
  if k : bool then
    x ← inspect (fun s : NxBft => Dag_index (nx_dag s) address);
    unicast from (Signed (mkSignedMessage x))
  else
    n ← self nx_n;
    nx_vertex_requests <~> (fun rs =>
      <[address := (IdSet_insert (default (IdSet_with_capacity n) (rs !! address)) from).2]> rs).

(** ** Handshake *)

Definition process_hello (from : N) (attestation : Attestation Enc) : St NxBft () :=
  hello_set ← self nx_hello_set;
  if IdSet_contains hello_set from then peer_error from PE_DuplicateHello else
  broadcast (HelloEcho from attestation) ;;
  n ← self nx_n;
  nx_hello_set <~> (fun s => (IdSet_insert s from).2) ;;
  nx_hello_map <~> (fun m => match m !! from with
                             | Some _ => m
                             | None => <[from := (attestation, IdSet_with_capacity n)]> m
                             end) ;;
  verbose (ReceivedHello from).

Definition process_hello_reply (from : N) (handshake : Handshake Enc) : St NxBft () :=
  r ← enclave_call (fun e => enc_complete_peer_handshake e from handshake);
  match r with
  | HR_DuplicateReply => peer_error from PE_DuplicateHelloReply
  | HR_InvalidHandshakeEncryption => peer_error from PE_InvalidHandshakeEncryption
  | HR_MissingAttestation =>
      nx_cached_hello_replies <~> insert from handshake ;;
      verbose (HelloReplyBeforeHello from)
  | HR_Ok =>
      verbose (ReceivedHelloReply from) ;;
      update (fun s : NxBft => c ← u64_add (nx_hello_reply_count s) 1;
                               Val s.[nx_hello_reply_count := c]) ;;
      c ← self nx_hello_reply_count;
      n ← self nx_n;
      if (c =? n)%N then broadcast Ready else mret ()
  | HR_EnclaveError e => enclave_error e
  end.

Definition process_hello_echo (from creator : N) (attestation : Attestation Enc) : St NxBft () :=
  n ← self nx_n;
  if (n <=? as_u64 creator)%N then peer_error from (PE_InvalidRelayCreator creator) else
  m ← self nx_hello_map;
  let entry := default (attestation, IdSet_with_capacity n) (m !! creator) in
  nx_hello_map <~ <[creator := entry]> m ;;
  if negb (bool_decide (entry.1 = attestation))
  then peer_error from (PE_AttestationEquivocation creator) else
  if IdSet_contains entry.2 from then peer_error from PE_DuplicateHelloEcho else
  let echos := (IdSet_insert entry.2 from).2 in
  nx_hello_map <~> insert creator (entry.1, echos) ;;
  if (IdSet_len echos <? n)%N then mret () else
  r ← enclave_call (fun e => enc_init_peer_handshake e creator attestation);
  match r with
  | IHR_DuplicateHello => peer_error from PE_DuplicateHello
  | IHR_InvalidAttestation => peer_error from PE_InvalidAttestation
  | IHR_EnclaveError e => enclave_error e
  | IHR_Ok handshake =>
      verbose (ReceivedHelloEcho from creator) ;;
      unicast creator (HelloReply handshake) ;;
      cached ← self nx_cached_hello_replies;
      match cached !! creator with
      | Some handshake =>
          nx_cached_hello_replies <~ delete creator cached ;;
          verbose (CachedHelloReply creator) ;;
          process_hello_reply creator handshake
      | None => mret ()
      end
  end.

Definition process_ready (from : N) : St NxBft () :=
  ready_set ← self nx_ready_set;
  if IdSet_contains ready_set from then peer_error from PE_DuplicateReady else
  let ready_set := (IdSet_insert ready_set from).2 in
  nx_ready_set <~ ready_set ;;
  n ← self nx_n;
  if (IdSet_len ready_set <? n)%N then mret () else
  nx_ready <~ true ;;
  nx_call_create_vertex <~ true ;;
  nx_allow_timeout <~ true ;;
  t ← self nx_vertex_timeout;
  nx_output <~> UnreflectedOutput_set_timeout t ;;
  nx_output <~> UnreflectedOutput_set_backup_enclave ;;
  state_message SM_Ready.

(** ** Recovery *)

(** What ends the walk over a replica's own vertices: the row [bot..=top] ([top]
    zero for no row), or an enclave error that ends the handler. *)
Inductive RowEnd :=
| Row (bot top : N)
| RowError (e : EnclaveError Enc).

Fixpoint row_loop (fuel : nat) (s : NxBft) (from round_prime top bot : N) : Outcome RowEnd :=
  match fuel with
  | O => NoFuel
  | S fuel =>
      if (round_prime =? 0)%N then Val (Row bot top) else
      v ← Dag_get (nx_dag s) (DagAddress_new round_prime from);
      match v with
      | None =>
          if (top =? 0)%N then
            r ← id_sub_assign round_prime 1; row_loop fuel s from r top bot
          else Val (Row bot top)
      | Some v =>
          ok ← (if (top =? 0)%N
                then enc_verify (nx_enclave s) (Vertex_creator v) (Vertex_counter v)
                       (Vertex_signable v) (Vertex_signature v)
                else Val (Ok true));
          match ok with
          | Err e => Val (RowError e)
          | Ok false => Val (Row bot top)
          | Ok true =>
              let top := if (top =? 0)%N then round_prime else top in
              let bot := round_prime in
              stop ← (if (Vertex_counter v =? 0)%N then Val true else
                      if (round_prime <? top)%N then
                        r1 ← id_add round_prime 1;
                        w ← Dag_get (nx_dag s) (DagAddress_new r1 from);
                        w ← unwrap w;
                        Val (Vertex_counter w <? Vertex_counter v)%N
                      else Val false);
              if stop : bool then Val (Row bot top) else
              r ← id_sub_assign round_prime 1;
              row_loop fuel s from r top bot
          end
      end
  end.

(** The messages of the row. *)
Fixpoint row_messages (d : Dag B Tx (Signature Enc)) (from : N) (rounds : list N)
    : Outcome (list SMsg) :=
  match rounds with
  | [] => Val []
  | r :: rounds =>
      v ← Dag_get d (DagAddress_new r from);
      v ← unwrap v;
      l ← row_messages d from rounds;
      Val (mkSignedMessage v :: l)
  end.

Definition process_recovery_request (from : N) (attestation : Attestation Enc) : St NxBft () :=
  successful ← self nx_successful_recoveries;
  if bool_decide (attestation ∈ successful) then mret () else
  seen ← self nx_seen_recovery_requests;
  if bool_decide (attestation ∈ seen)
  then verbose (PeerRecoveryIgnore from "RecoveryRequest") else
  nx_seen_recovery_requests <~> union {[attestation]} ;;
  ok ← inspect (fun s : NxBft => enc_verify_attestation (nx_enclave s) attestation);
  match ok with
  | Ok false => peer_error from PE_InvalidAttestation
  | Err e => enclave_error e
  | Ok true =>
      in_recovery ← self nx_in_recovery;
      (if in_recovery : bool then
         cert ← enclave_call enc_get_attestation_certificate;
         cert ← lift (match cert with Ok c => Val c | Err _ => Panic end);
         broadcast (ReocoveryRequest cert)
       else mret ()) ;;
      n ← self nx_n;
      inspect (fun s : NxBft => rust_assert (negb (bool_decide (is_Some (nx_recovery_commits s !! attestation))))) ;;
      nx_recovery_commits <~> insert attestation (IdMap_new None n) ;;
      inspect (fun s : NxBft => rust_assert (negb (bool_decide (is_Some (nx_longest_recovery_proposal s !! attestation))))) ;;
      nx_longest_recovery_proposal <~> insert attestation [] ;;
      nx_currently_recovering <~> (fun s => (IdSet_insert s from).2) ;;
      inspect (fun s : NxBft => rust_assert (negb (bool_decide (is_Some (nx_recovery_proposal_senders s !! attestation))))) ;;
      nx_recovery_proposal_senders <~> insert attestation (IdSet_with_capacity n) ;;
      update (fun s : NxBft => h ← remove_creator from (nx_vertex_buffer s); Val s.[nx_vertex_buffer := h]) ;;
      set_buffer from (fun b => Val (HeapBuffer_clear b)) ;;
      row ← inspect (fun s : NxBft => row_loop (S (N.to_nat (nx_round s))) s from (nx_round s) 0 0);
      match row with
      | RowError e => enclave_error e
      | Row bot top =>
          messages ← inspect (fun s : NxBft =>
            if (top =? 0)%N then Val [] else row_messages (nx_dag s) from (range_incl bot top));
          broadcast (RecovertyProposal (mkRecoveryProposal from attestation messages))
      end
  end.

(** The loop that verifies the messages of a proposal: [None] when a signature
    is invalid. *)
Fixpoint verify_messages (e : Enc) (ms : list SMsg)
    : Outcome (Result (option (list Vtx)) (EnclaveError Enc)) :=
  match ms with
  | [] => Val (Ok (Some []))
  | m :: ms =>
      ok ← enc_verify e (SignedMessage_creator m) (SignedMessage_counter m)
             (SignedMessage_signable m) (SignedMessage_signature m);
      match ok with
      | Err e => Val (Err e)
      | Ok false => Val (Ok None)
      | Ok true =>
          r ← verify_messages e ms;
          Val (match r with
               | Ok (Some vs) => Ok (Some (sm_payload m :: vs))
               | r => r
               end)
      end
  end.

(** Whether some vertex of the row is malformed, in the order the code looks at
    them ([prev] is the round of the vertex before). *)
Fixpoint row_invalid (quorum : N) (prev : option N) (vs : list Vtx) : Outcome bool :=
  match vs with
  | [] => Val false
  | v :: vs =>
      gap ← (match prev with
             | Some p => p1 ← id_add p 1; Val (negb (Vertex_round v =? p1)%N)
             | None => Val false
             end);
      if gap
         || ((Vertex_round v =? 1)%N && (0 <? Vertex_num_edges v)%N)
         || ((1 <? Vertex_round v)%N && (Vertex_num_edges v <? quorum)%N)
      then Val true
      else row_invalid quorum (Some (Vertex_round v)) vs
  end.

Definition process_recovery_proposal (from : N) (recovery_proposal : RecoveryProposal B Tx Enc)
    : St NxBft () :=
  let att := rp_for_attestation recovery_proposal in
  process_recovery_request (rp_for_id recovery_proposal) att ;;
  successful ← self nx_successful_recoveries;
  if bool_decide (att ∈ successful) then mret () else
  ok ← inspect (fun s : NxBft => enc_verify_attestation (nx_enclave s) att);
  match ok with
  | Ok false => mret ()
  | Err e => enclave_error e
  | Ok true =>
      senders ← inspect (fun s : NxBft => unwrap (nx_recovery_proposal_senders s !! att));
      if IdSet_contains senders from then mret () else
      let senders := (IdSet_insert senders from).2 in
      nx_recovery_proposal_senders <~> insert att senders ;;
      vs ← inspect (fun s : NxBft => verify_messages (nx_enclave s) (rp_messages recovery_proposal));
      match vs with
      | Err e => enclave_error e
      | Ok None => mret ()
      | Ok (Some vs) =>
          quorum ← self nx_quorum;
          invalid ← lift (row_invalid quorum None vs);
          if invalid : bool then mret () else
          nx_longest_recovery_proposal <~> (fun m =>
            match m !! att with
            | Some msg => if (length msg <? length vs)%nat
                          then <[att := rp_messages recovery_proposal]> m else m
            | None => m
            end) ;;
          n ← self nx_n;
          let senders_length := IdSet_len senders in
          if negb (senders_length =? n)%N then lift (rust_assert (senders_length <? n)%N) else
          messages ← inspect (fun s : NxBft => unwrap (nx_longest_recovery_proposal s !! att));
          nx_longest_recovery_proposal <~> delete att ;;
          broadcast (RecoveryCommitMsg
            (mkRecoveryCommit (rp_for_id recovery_proposal) att messages))
      end
  end.

(** [*proposal_count.entry(commit).or_default() += 1]; the map is kept as an
    association list. *)
Fixpoint count_commit (c : RecoveryCommit B Tx Enc) (m : list (RecoveryCommit B Tx Enc * N))
    : Outcome (list (RecoveryCommit B Tx Enc * N)) :=
  match m with
  | [] => k ← u64_add 0 1; Val [(c, k)]
  | (c', k) :: m =>
      if decide (c' = c) then k ← u64_add k 1; Val ((c', k) :: m)
      else m ← count_commit c m; Val ((c', k) :: m)
  end.

Definition find_quorum (quorum : N) (m : list (RecoveryCommit B Tx Enc * N))
    : option (RecoveryCommit B Tx Enc) :=
  fst <$> head (List.filter (fun ck => (quorum <=? ck.2)%N) m).

(** The loop over the messages of the decided commit; the result is the round
    after the last one. *)
Fixpoint restore_messages (for_id : N) (ms : list SMsg) (r : N) : St NxBft N :=
  match ms with
  | [] => mret r
  | m :: ms =>
      let v := sm_payload m in
      lift (rust_assert (da_creator (Vertex_address v) =? for_id)%N) ;;
      k ← inspect (fun s : NxBft => Dag_knows (nx_dag s) (Vertex_address v));
      (if negb k then
         nx_vertex_buffer <~> (fun b => CursoredHeap_insert b v) ;;
         verbose (BufferedVertex (Vertex_address v))
       else mret ()) ;;
      update (fun s : NxBft => m ← raise_round (nx_max_rounds s) (Vertex_creator v) (Vertex_round v);
                               Val s.[nx_max_rounds := m]) ;;
      r ← lift (id_add (Vertex_round v) 1);
      restore_messages for_id ms r
  end.

(** The part of [process_recovery_commit] after a commit has a quorum. *)
Definition apply_commit (commit : RecoveryCommit B Tx Enc) : St NxBft () :=
  update (fun s : NxBft => h ← remove_creator (rc_for_id commit) (nx_vertex_buffer s);
                           Val s.[nx_vertex_buffer := h]) ;;
  set_buffer (rc_for_id commit) (fun b => Val (HeapBuffer_clear b)) ;;
  r ← restore_messages (rc_for_id commit) (rc_messages commit) 0;
  update (fun s : NxBft => es ← IdMap_index_mut (nx_expected_counters s) (rc_for_id commit) 0%N;
                           Val s.[nx_expected_counters := es]) ;;
  max_round ← inspect (fun s : NxBft => IdMap_index (nx_max_rounds s) (rc_for_id commit));
  res ← enclave_call (fun e => enc_replace_peer e (rc_for_id commit) (rc_for_attestation commit) max_round);
  match res with
  | Err e => enclave_error e
  | Ok _ =>
      me ← self nx_me;
      (if (rc_for_id commit =? me)%N then
         nx_restart_round <~ r ;;
         inspect (fun s : NxBft => rust_assert (nx_round s <=? nx_restart_round s)%N) ;;
         nx_in_recovery <~ false ;;
         nx_call_create_vertex <~ true ;;
         t ← self nx_vertex_timeout;
         nx_output <~> UnreflectedOutput_set_timeout t ;;
         start ← inspect (fun s : NxBft => unwrap (nx_recovery_start s));
         _ ← elapsed start;
         mret ()
       else mret ()) ;;
      nx_output <~> UnreflectedOutput_set_backup_enclave ;;
      nx_seen_recovery_requests <~> (fun x => x ∖ {[rc_for_attestation commit]}) ;;
      nx_longest_recovery_proposal <~> delete (rc_for_attestation commit) ;;
      nx_successful_recoveries <~> union {[rc_for_attestation commit]} ;;
      nx_currently_recovering <~> (fun s => (IdSet_remove s (rc_for_id commit)).2) ;;
      traverse_vertex_buffer
  end.

Definition process_recovery_commit (from : N) (recovery_commit : RecoveryCommit B Tx Enc)
    : St NxBft () :=
  let att := rc_for_attestation recovery_commit in
  process_recovery_request (rc_for_id recovery_commit) att ;;
  successful ← self nx_successful_recoveries;
  if bool_decide (att ∈ successful) then mret () else
  ok ← inspect (fun s : NxBft => enc_verify_attestation (nx_enclave s) att);
  match ok with
  | Ok false => mret ()
  | Err e => enclave_error e
  | Ok true =>
      commits ← inspect (fun s : NxBft => unwrap (nx_recovery_commits s !! att));
      slot ← lift (IdMap_index commits from);
      if bool_decide (is_Some slot) then mret () else
      commits ← lift (IdMap_index_mut commits from (Some recovery_commit));
      nx_recovery_commits <~> insert att commits ;;
      quorum ← self nx_quorum;
      if (N.of_nat (length (IdMap_iter_some commits)) <? quorum)%N then mret () else
      let '(drained, commits) := IdMap_drain_lazy_some commits in
      nx_recovery_commits <~> insert att commits ;;
      counts ← lift (for_each drained.*2 [] (fun m c => count_commit c m));
      match find_quorum quorum counts with
      | None => mret ()
      | Some commit =>
          lift (rust_assert (rc_for_id commit =? rc_for_id recovery_commit)%N) ;;
          lift (rust_assert (bool_decide (rc_for_attestation commit = att))) ;;
          apply_commit commit
      end
  end.

(** ** Dispatch, reflection and the entry points *)

Definition dispatch (m : PMsg) : St NxBft () :=
  n ← self nx_n;
  let from := pm_from m in
  if (n <=? as_u64 from)%N then peer_error from PE_InvalidFrom else
  match pm_message m with
  | Hello attestation => process_hello from attestation
  | HelloEcho creator attestation => process_hello_echo from creator attestation
  | HelloReply handshake => process_hello_reply from handshake
  | Ready => process_ready from
  | Signed msg => process_signed_message from msg
  | VertexRequest address => process_vertex_request from address
  | ReocoveryRequest attestation => process_recovery_request from attestation
  | RecoveryCommitMsg commit => process_recovery_commit from commit
  | RecovertyProposal proposal => process_recovery_proposal from proposal
  end.

Definition unreflected_to_output (o : UnreflectedOutput B Tx Enc) : Output B Tx Enc :=
  mkOutput (uo_broadcasts o) (uo_unicasts o) (uo_state_messages o) (uo_vertex_timeout o)
    (uo_delivery o) (uo_backup_enclave o) (uo_decision_times o).

(** The output so far extended with the output of one reflected message. *)
Definition append_output (o r : Output B Tx Enc) : Output B Tx Enc :=
  mkOutput (out_broadcasts o ++ out_broadcasts r) (out_unicasts o ++ out_unicasts r)
    (out_state_messages o ++ out_state_messages r) (out_vertex_timeout r)
    (out_delivery o ++ out_delivery r) (out_backup_enclave o || out_backup_enclave r)
    (out_decision_times o ++ out_decision_times r).

Fixpoint reflect_messages (process : PMsg -> St NxBft (Output B Tx Enc)) (ms : list PMsg)
    (o : Output B Tx Enc) : St NxBft (Output B Tx Enc) :=
  match ms with
  | [] => mret o
  | to_reflect :: ms => r ← process to_reflect; reflect_messages process ms (append_output o r)
  end.

(** [reflect] with the nesting of reflections bounded by [fuel]. *)
Fixpoint reflect (fuel : nat) : St NxBft (Output B Tx Enc) :=
  match fuel with
  | O => lift NoFuel
  | S fuel =>
      o ← self nx_output;
      me ← self nx_me;
      nx_output <~ UnreflectedOutput_new me ;;
      reflect_messages (fun m => dispatch m ;; reflect fuel) (uo_reflection_messages o)
        (unreflected_to_output o)
  end.

Definition process_peer_message (fuel : nat) (m : PMsg) : St NxBft (Output B Tx Enc) :=
  dispatch m ;; reflect fuel.

Definition init_handshake (fuel : nat) (ent : Entropy Enc) : St NxBft (Output B Tx Enc) :=
  ready ← self nx_ready;
  lift (rust_assert (negb ready)) ;;
  r ← enclave_call (enc_init ent);
  match r with
  | Err e => enclave_error e ;; reflect fuel
  | Ok _ =>
      att ← enclave_call enc_get_attestation_certificate;
      match att with
      | Err e => enclave_error e ;; reflect fuel
      | Ok attestation => broadcast (Hello attestation) ;; reflect fuel
      end
  end.

Definition receive_client_request (fuel : nat) (transaction : Tx) : St NxBft (Output B Tx Enc) :=
  update (fun s : NxBft => p ← Pending_insert (nx_pending_client_requests s) transaction;
                           Val s.[nx_pending_client_requests := p]) ;;
  ready ← self nx_ready;
  in_recovery ← self nx_in_recovery;
  call_create_vertex ← self nx_call_create_vertex;
  (if ready && negb in_recovery && call_create_vertex
   then _ ← create_vertex false; mret () else mret ()) ;;
  reflect fuel.

Definition process_vertex_timeout (fuel : nat) : St NxBft (Output B Tx Enc) :=
  ready ← self nx_ready;
  in_recovery ← self nx_in_recovery;
  allow_timeout ← self nx_allow_timeout;
  (if ready && negb in_recovery && allow_timeout
   then _ ← create_vertex true; mret () else mret ()) ;;
  reflect fuel.

Definition backup_enclave : St NxBft (Result Backup (EnclaveError Enc)) :=
  e ← enclave_call enc_export;
  enclave ← lift (match e with Ok x => Val x | Err _ => Panic end);
  self (fun s : NxBft => Ok {|
    bk_n := nx_n s; bk_quorum := nx_quorum s; bk_me := nx_me s; bk_round := nx_round s;
    bk_decided_wave := nx_decided_wave s; bk_dag := nx_dag s;
    bk_client_last_request := nx_client_last_request s;
    bk_expected_counters := nx_expected_counters s; bk_highest_rounds := nx_highest_rounds s;
    bk_vertex_buffer := nx_vertex_buffer s; bk_pending_wave_coins := nx_pending_wave_coins s;
    bk_vertex_timeout := nx_vertex_timeout s; bk_min_vertex_size := nx_min_vertex_size s;
    bk_max_vertex_size := nx_max_vertex_size s; bk_enclave := enclave;
    bk_seen_recovery_requests := nx_seen_recovery_requests s;
    bk_successful_recoveries := nx_successful_recoveries s;
    bk_recovery_proposal_senders := nx_recovery_proposal_senders s;
    bk_max_rounds := nx_max_rounds s;
  |}).

(** The replica rebuilt from a backup, with the enclave [enc]. *)
Definition recovered_state (t0 : nat) (b : Backup) (enc : Enc) : NxBft := {|
  nx_n := bk_n b; nx_quorum := bk_quorum b; nx_me := bk_me b; nx_round := bk_round b;
  nx_decided_wave := bk_decided_wave b; nx_dag := bk_dag b; nx_hello_reply_count := bk_n b;
  nx_ready := true; nx_call_create_vertex := false; nx_in_recovery := true;
  nx_hello_set := IdSet_with_capacity (bk_n b); nx_ready_set := IdSet_with_capacity (bk_n b);
  nx_hello_map := ∅; nx_pending_client_requests := Pending_new (bk_max_vertex_size b);
  nx_client_last_request := bk_client_last_request b;
  nx_expected_counters := bk_expected_counters b; nx_highest_rounds := bk_highest_rounds b;
  nx_non_equivocation_message_buffers := IdMap_new HeapBuffer_default (bk_n b);
  nx_vertex_buffer := bk_vertex_buffer b; nx_enclave := enc;
  nx_pending_wave_coins := bk_pending_wave_coins b; nx_cached_hello_replies := ∅;
  nx_pending_vertices := ∅; nx_vertex_requests := ∅; nx_vertex_timeout := bk_vertex_timeout b;
  nx_allow_timeout := false; nx_min_vertex_size := bk_min_vertex_size b;
  nx_max_vertex_size := bk_max_vertex_size b; nx_restart_round := 0;
  nx_recovery_proposal_senders := bk_recovery_proposal_senders b;
  nx_longest_recovery_proposal := ∅; nx_currently_recovering := IdSet_with_capacity (bk_n b);
  nx_recovery_commits := ∅; nx_seen_recovery_requests := bk_seen_recovery_requests b;
  nx_successful_recoveries := bk_successful_recoveries b;
  nx_output := UnreflectedOutput_new (bk_me b); nx_max_rounds := bk_max_rounds b;
  nx_recovery_start := Some (clock t0); nx_last_vertex_created_at := clock (S t0);
  nx_ticks := S (S t0);
|}.

Definition init_recovery (fuel : nat) (ent : Entropy Enc) (t0 : nat) (b : Backup)
    : Outcome (Result (NxBft * Output B Tx Enc) (EnclaveError Enc)) :=
  enc ← enc_new ent (bk_n b);
  re ← enc_recover enc (bk_enclave b);
  match re.1 with
  | Err e => Val (Err e)
  | Ok _ =>
      ae ← enc_get_attestation_certificate re.2;
      match ae.1 with
      | Err e => Val (Err e)
      | Ok attestation =>
          os ← (broadcast (ReocoveryRequest attestation) ;; reflect fuel) (recovered_state t0 b ae.2);
          Val (Ok (os.2, os.1))
      end
  end.
End replica.
Arguments NxBft B Tx Enc {_}.
Arguments Backup B Tx Enc {_}.
