(* ===== verification/NxEnclaveFacts.v ===== *)
(** * NxBFT: facts about the trusted component

    The invariant of [EnclaveAutomata] along any sequence of calls, the common
    coin, the counters of [sign], the seed agreed on by the handshakes, export
    and recovery, and the attestation a vertex is checked against after a peer
    was replaced. *)

From Stdlib Require Import ZArith Lia.
From stdpp Require Import base list gmap sets numbers option relations.
From S2P Require Import Prelude Ids Heaps NxBase NxEnclave.

Section enclave_facts.
  Context {P : Profile} {B : Type} `{BitSetLaws B} `{Digests} `{RandLaws}.
  Context {M : Type -> Type} `{RangeInclusiveMapLaws M}.
  Context {Enc : Type} `{EnclaveTrusted Enc}.
  Implicit Types (a : EnclaveAutomata M Enc).

(** The generator of a seed after [k] tosses. *)
Definition tosses (n : N) (seed : list N) (k : nat) : Rng :=
  Nat.iter k (fun r => (uniform_sample n r).2) (rng_from_seed seed).

Definition peer_complete (p : Peer M Enc) : bool :=
  match p with Peer_HandshakeComplete _ _ => true | _ => false end.

Definition completed (ps : list (Peer M Enc)) : nat := length (List.filter peer_complete ps).

(** [k] is the number of tosses so far. *)
Record ea_inv (a : EnclaveAutomata M Enc) (k : nat) : Prop := {
  ea_inv_n : (3 <= ea_n a)%N /\ is_u64 (ea_n a);
  ea_inv_quorum : ea_quorum a = (ea_n a / 2 + 1)%N;
  ea_inv_uniform : ea_uniform a = ea_n a;
  ea_inv_peers : N.of_nat (length (ea_peers a)) = ea_n a;
  ea_inv_added : ea_peers_added a = N.of_nat (completed (ea_peers a));
  ea_inv_next : ea_next_toss a = (4 + 4 * N.of_nat k)%N /\ is_u64 (ea_next_toss a);
  ea_inv_rng : ea_rng a = if (ea_peers_added a <? ea_n a)%N then None
                          else Some (tosses (ea_n a) (ea_seed a) k);
  ea_inv_start : ea_rng a = None -> k = 0;
}.

Lemma completed_insert ps i p q :
  ps !! i = Some p ->
  completed (<[i := q]> ps) + (if peer_complete p then 1 else 0)
  = completed ps + (if peer_complete q then 1 else 0).
Proof.
  unfold completed. revert i. induction ps as [|r ps IH]; intros [|i] Hi; simplify_eq/=.
  - destruct (peer_complete p), (peer_complete q); simpl; lia.
  - specialize (IH i Hi). destruct (peer_complete r); simpl; lia.
Qed.

Lemma completed_le ps : completed ps <= length ps.
Proof. unfold completed. apply List.filter_length_le. Qed.

Lemma completed_lt ps i p : ps !! i = Some p -> peer_complete p = false -> completed ps < length ps.
Proof.
  unfold completed. revert i. induction ps as [|r ps IH]; intros [|i] Hi Hp; simplify_eq/=.
  - rewrite Hp. pose proof (completed_le ps). unfold completed in *. lia.
  - specialize (IH i Hi Hp). destruct (peer_complete r); simpl; lia.
Qed.

Lemma is_ready_iff a k : ea_inv a k -> EnclaveAutomata_is_ready a = (ea_n a <=? ea_peers_added a)%N.
Proof.
  intros Hi. unfold EnclaveAutomata_is_ready. rewrite (ea_inv_rng a k Hi).
  destruct (N.ltb_spec (ea_peers_added a) (ea_n a)), (N.leb_spec (ea_n a) (ea_peers_added a)); (done || lia).
Qed.

Lemma is_ready_rng a k :
  ea_inv a k -> EnclaveAutomata_is_ready a = true -> ea_rng a = Some (tosses (ea_n a) (ea_seed a) k).
Proof.
  intros Hi Hr. rewrite (is_ready_iff a k Hi) in Hr. rewrite (ea_inv_rng a k Hi).
  apply N.leb_le in Hr. by rewrite (proj2 (N.ltb_ge _ _)).
Qed.

(** In a ready automaton every peer has completed its handshake. *)
Lemma ready_peer a k i :
  ea_inv a k -> EnclaveAutomata_is_ready a = true -> (i < ea_n a)%N ->
  exists att old, ea_peers a !! N.to_nat i = Some (Peer_HandshakeComplete att old).
Proof.
  intros Hi Hr Hn. rewrite (is_ready_iff a k Hi), (ea_inv_added a k Hi) in Hr. apply N.leb_le in Hr.
  pose proof (ea_inv_peers a k Hi) as Hp.
  destruct (lookup_lt_is_Some_2 (ea_peers a) (N.to_nat i)) as [p Hl]; [lia|].
  destruct p as [|att|att old]; [| |by exists att, old];
    (apply completed_lt in Hl; [lia|done]).
Qed.

(** ** The calls *)

Lemma EnclaveAutomata_new_spec n e :
  is_u64 n ->
  if (3 <=? n)%N then exists a, EnclaveAutomata_new n e = Val a /\ ea_inv a 0 /\ ea_n a = n /\ ea_c a = 0%N
    /\ EnclaveAutomata_is_ready a = false /\ ea_seed a = replicate 32 0%N /\ ea_seed_share a = None
  else EnclaveAutomata_new (M := M) n e = Panic.
Proof.
  intros Hn. unfold EnclaveAutomata_new. destruct (N.leb_spec 3 n) as [Hn3|Hn3]; [|done].
  eexists. split; [done|].
  assert (completed ((fun _ => Peer_None) <$> range 0 n : list (Peer M Enc)) = 0) as Hc.
  { unfold completed. induction (range 0 n); [done|]. done. }
  split; [|done]. split; simpl; try done.
  - by rewrite length_fmap, length_range, N.sub_0_r, N2Nat.id.
  - by rewrite Hc.
  - by rewrite (proj2 (N.ltb_lt _ _)) by lia.
Qed.

Lemma EnclaveAutomata_init_spec ent a k :
  ea_inv a k -> ea_seed_share a = None ->
  match et_gen_seed_share ent (ea_enclave a) with
  | Ok share => EnclaveAutomata_init ent a = Val (Ok (), a.[ea_seed_share := Some share])
  | Err e => EnclaveAutomata_init ent a = Val (Err (EA_EnclaveTrusted e), a)
  end.
Proof.
  intros Hi Hs. unfold EnclaveAutomata_init. rewrite Hs. simpl.
  by destruct (et_gen_seed_share ent (ea_enclave a)).
Qed.

(** Calls that leave the fields of the invariant alone keep it. *)
Lemma ea_inv_frame a a' k :
  ea_inv a k -> ea_n a' = ea_n a -> ea_quorum a' = ea_quorum a -> ea_uniform a' = ea_uniform a ->
  length (ea_peers a') = length (ea_peers a) -> completed (ea_peers a') = completed (ea_peers a) ->
  ea_peers_added a' = ea_peers_added a -> ea_next_toss a' = ea_next_toss a ->
  ea_rng a' = ea_rng a -> ea_seed a' = ea_seed a -> ea_inv a' k.
Proof.
  intros [] Hn Hq Hu Hl Hc Ha Ht Hr Hs. split; rewrite ?Hn, ?Hq, ?Hu, ?Hl, ?Hc, ?Ha, ?Ht, ?Hr, ?Hs; done.
Qed.

Lemma EnclaveAutomata_init_peer_handshake_inv a k i att r a' :
  ea_inv a k -> EnclaveAutomata_init_peer_handshake a i att = Val (r, a') ->
  ea_inv a' k /\ ea_n a' = ea_n a /\ ea_seed a' = ea_seed a /\ ea_c a' = ea_c a.
Proof.
  intros Hi. unfold EnclaveAutomata_init_peer_handshake.
  destruct (bool_decide _); [|done]. simpl.
  destruct (N.leb_spec (ea_n a) i) as [|Hlt]; [by intros [= <- <-]|].
  pose proof (ea_inv_peers a k Hi).
  destruct (lookup_lt_is_Some_2 (ea_peers a) (N.to_nat i)) as [p Hp]; [lia|].
  rewrite (index_u64_Val _ _ _ Hp). simpl. destruct p; [|by intros [= <- <-]..].
  destruct (ea_seed_share a); [|done]. simpl.
  destruct (et_seal_seed_share _ _ _) as [[sealed|e]| |]; simpl; [|by intros [= <- <-]|done..].
  rewrite assign_u64_Val by lia. simpl. intros [= <- <-]. split; [|done].
  eapply ea_inv_frame; [done|..]; simpl; try done; [by rewrite length_insert|].
  pose proof (completed_insert (ea_peers a) _ _ (Peer_Attested att) Hp). simpl in *. lia.
Qed.

(** A handshake that completes mixes the share into the seed and, when it is the
    last one, starts the generator. *)
Lemma EnclaveAutomata_complete_spec a i att h share :
  ea_inv a 0 -> (i < ea_n a)%N -> ea_peers a !! N.to_nat i = Some (Peer_Attested att) ->
  et_unseal_seed_share (ea_enclave a) h att = Val (Ok share) ->
  exists a', EnclaveAutomata_complete_peer_handshake a i h = Val (HR_Ok, a')
    /\ ea_inv a' 0 /\ ea_seed a' = xor_seed (ea_seed a) share
    /\ ea_peers a' = <[N.to_nat i := Peer_HandshakeComplete att rim_new]> (ea_peers a)
    /\ ea_n a' = ea_n a /\ ea_c a' = ea_c a /\ ea_enclave a' = ea_enclave a
    /\ EnclaveAutomata_is_ready a' = (ea_n a <=? ea_peers_added a + 1)%N.
Proof.
  intros Hi Hlt Hp Hu. unfold EnclaveAutomata_complete_peer_handshake.
  rewrite (proj2 (N.leb_gt _ _)) by lia. rewrite (index_u64_Val _ _ _ Hp). simpl. rewrite Hu.
  pose proof (completed_lt _ _ _ Hp eq_refl) as Hc. pose proof (ea_inv_peers a 0 Hi) as Hlen.
  pose proof (ea_inv_added a 0 Hi) as Hadd. destruct (ea_inv_n a 0 Hi) as [Hn3 Hn64].
  unfold is_u64 in *. rewrite u64_add_Val by lia. simpl. rewrite assign_u64_Val by lia. simpl.
  unfold EnclaveAutomata_check_ready. simpl.
  pose proof (completed_insert (ea_peers a) _ _ (Peer_HandshakeComplete att rim_new) Hp) as Hci.
  simpl in Hci. rewrite (ea_inv_rng a 0 Hi). rewrite (proj2 (N.ltb_lt (ea_peers_added a) _)) by lia.
  simpl. destruct (N.ltb_spec (ea_peers_added a + 1) (ea_n a)) as [Hnot|Hready];
    (eexists; split; [done|]).
  - unfold EnclaveAutomata_is_ready. simpl. rewrite (proj2 (N.leb_gt _ _)) by lia.
    split; [|done]. destruct Hi. split; simpl; try done.
    + by rewrite length_insert.
    + lia.
    + by rewrite (proj2 (N.ltb_lt (ea_peers_added a + 1) _)).
  - unfold EnclaveAutomata_is_ready. simpl. rewrite (proj2 (N.leb_le _ _)) by lia.
    split; [|done]. destruct Hi. split; simpl; try done.
    + by rewrite length_insert.
    + lia.
    + by rewrite (proj2 (N.ltb_ge (ea_peers_added a + 1) _)).
Qed.

(** ** Tossing the coin *)

Lemma EnclaveAutomata_rand_spec a k :
  ea_inv a k -> EnclaveAutomata_is_ready a = true -> is_u64 (ea_next_toss a + 4) ->
  exists a', EnclaveAutomata_rand a = Val ((uniform_sample (ea_n a) (tosses (ea_n a) (ea_seed a) k)).1, a')
    /\ ea_inv a' (S k) /\ EnclaveAutomata_is_ready a' = true
    /\ a' = a.[ea_next_toss := (ea_next_toss a + 4)%N].[ea_rng := Some (tosses (ea_n a) (ea_seed a) (S k))].
Proof.
  intros Hi Hr Hu. pose proof (is_ready_rng a k Hi Hr) as Hrng.
  pose proof (is_ready_iff a k Hi) as Hiff. rewrite Hr in Hiff. symmetry in Hiff. apply N.leb_le in Hiff.
  unfold EnclaveAutomata_rand, id_add_assign. unfold is_u64 in Hu. rewrite u64_add_Val by done. simpl.
  rewrite Hrng. simpl. rewrite (ea_inv_uniform a k Hi).
  destruct (uniform_sample (ea_n a) (tosses (ea_n a) (ea_seed a) k)) as [x rng] eqn:Hs.
  assert (rng = tosses (ea_n a) (ea_seed a) (S k)) as -> by (unfold tosses; simpl; fold (tosses (ea_n a) (ea_seed a) k); by rewrite Hs).
  eexists. split; [done|]. split; [|done]. destruct Hi. split; simpl; try done.
  - destruct ea_inv_next0 as [Hn _]. split; [|done]. lia.
  - by rewrite (proj2 (N.ltb_ge _ _)) by done.
Qed.

(** A vertex that counts for the toss: of the right round, with a signature that verifies. *)
Definition proof_valid (a : EnclaveAutomata M Enc) (v : SignedVertex B (et_Signature Enc)) : bool :=
  (SignedVertex_round v =? ea_next_toss a)%N
  && match EnclaveAutomata_verify a (SignedVertex_creator v) (SignedVertex_counter v)
             (signable_vertex v) (SignedVertex_signature v) with
     | Val (Ok true) => true
     | _ => false
     end.

(** The creators with a vertex that counts. *)
Definition valid_creators (a : EnclaveAutomata M Enc) (proof : list (SignedVertex B (et_Signature Enc)))
    : gset N := list_to_set (SignedVertex_creator <$> List.filter (proof_valid a) proof).

Lemma valid_creators_cons a v proof :
  valid_creators a (v :: proof)
  = if proof_valid a v then {[SignedVertex_creator v]} ∪ valid_creators a proof
    else valid_creators a proof.
Proof. unfold valid_creators. simpl. by destruct (proof_valid a v). Qed.

Lemma toss_loop_spec a proof seen valid r :
  toss_loop a proof seen valid = Val (Ok r) -> (valid + N.of_nat (length proof) < 2 ^ 64)%N ->
  r = (valid + N.of_nat (size (valid_creators a proof ∖ seen)))%N.
Proof.
  revert seen valid. induction proof as [|v proof IH]; intros seen valid; simpl.
  { intros [= <-] _. unfold valid_creators. simpl.
    replace ((∅ : gset N) ∖ seen) with (∅ : gset N) by set_solver. rewrite size_empty. lia. }
  intros Hl Hlen. rewrite valid_creators_cons. unfold proof_valid.
  destruct (decide (SignedVertex_creator v ∈ seen)) as [Hs|Hs].
  { rewrite bool_decide_eq_true_2 in Hl by done. simpl in Hl. rewrite (IH seen valid Hl) by lia.
    do 3 f_equal. destruct (_ && _); [set_solver|done]. }
  rewrite bool_decide_eq_false_2 in Hl by done. simpl in Hl.
  destruct (SignedVertex_round v =? ea_next_toss a)%N; simpl in Hl;
    [|by rewrite (IH seen valid Hl) by lia].
  destruct (EnclaveAutomata_verify _ _ _ _ _) as [[[]|]| |]; simpl in Hl; try done.
  - rewrite u64_add_Val in Hl by lia. simpl in Hl. rewrite (IH _ _ Hl) by lia. simpl.
    rewrite <-N.add_assoc. f_equal.
    rewrite (size_difference_insert _ seen (SignedVertex_creator v)) by set_solver.
    replace (({[SignedVertex_creator v]} ∪ valid_creators a proof) ∖ ({[SignedVertex_creator v]} ∪ seen))
      with (valid_creators a proof ∖ ({[SignedVertex_creator v]} ∪ seen)) by set_solver.
    lia.
  - by rewrite (IH seen valid Hl) by lia.
Qed.

(** A toss that succeeds was given a quorum of vertices of the round to toss,
    by distinct replicas, and its result is the next draw of the generator. *)
Lemma EnclaveAutomata_toss_spec a k proof leader a' :
  ea_inv a k -> is_u64 (ea_next_toss a + 4) -> is_u64 (N.of_nat (length proof)) ->
  EnclaveAutomata_toss a proof = Val (Ok leader, a') ->
  (ea_quorum a <= N.of_nat (size (valid_creators a proof)))%N
  /\ EnclaveAutomata_is_ready a = true
  /\ leader = (uniform_sample (ea_n a) (tosses (ea_n a) (ea_seed a) k)).1
  /\ (leader < ea_n a)%N /\ ea_inv a' (S k)
  /\ a' = a.[ea_next_toss := (ea_next_toss a + 4)%N].[ea_rng := Some (tosses (ea_n a) (ea_seed a) (S k))].
Proof.
  intros Hi Hu Hlen. unfold EnclaveAutomata_toss.
  destruct (toss_loop a proof ∅ 0) as [[valid|e]| |] eqn:Hl; simpl; try done.
  apply toss_loop_spec in Hl; [|by rewrite N.add_0_l]. rewrite difference_empty_L, N.add_0_l in Hl.
  destruct (N.ltb_spec valid (ea_quorum a)) as [|Hq]; [done|]. simpl.
  destruct (EnclaveAutomata_is_ready a) eqn:Hr.
  - destruct (EnclaveAutomata_rand_spec a k Hi Hr Hu) as (a1 & -> & Hi1 & _ & Ha1). simpl.
    intros [= <- <-]. subst valid. repeat (split; [done|]). split; [|done].
    apply uniform_sample_lt. destruct (ea_inv_n a k Hi). lia.
  - unfold EnclaveAutomata_rand, id_add_assign. unfold is_u64 in Hu. rewrite u64_add_Val by done. simpl.
    unfold EnclaveAutomata_is_ready in Hr. by destruct (ea_rng a).
Qed.

(** ** Signing *)

Lemma EnclaveAutomata_sign_spec a k h :
  ea_inv a k -> is_u64 (ea_c a + 1) ->
  if EnclaveAutomata_is_ready a then
    exists a', ea_inv a' k /\ ea_c a' = (ea_c a + 1)%N /\ ea_n a' = ea_n a /\ ea_seed a' = ea_seed a
      /\ ea_rng a' = ea_rng a
      /\ EnclaveAutomata_sign a h
         = Val (match (et_sign (ea_enclave a) h (ea_c a)).1 with
                | Ok sig => Ok (sig, ea_c a)
                | Err e => Err (EA_EnclaveTrusted e)
                end, a')
  else EnclaveAutomata_sign a h = Val (Err EA_NotReady, a).
Proof.
  intros Hi Hu. unfold EnclaveAutomata_sign, EnclaveAutomata_is_ready. unfold is_u64 in Hu.
  destruct (ea_rng a) eqn:Hr; [|done]. simpl. rewrite u64_add_Val by done. simpl.
  rewrite u64_sub_Val by lia. simpl. rewrite N.add_sub.
  destruct (et_sign (ea_enclave a) h (ea_c a)) as [[sig|e] enc]; simpl;
    eexists; (split; [|split; [|split; [|split; [|split; [|reflexivity]]]]]); try done;
    by eapply ea_inv_frame.
Qed.

(** ** Export and recovery *)

Lemma recover_loop_spec fuel a k j :
  ea_inv a k -> EnclaveAutomata_is_ready a = true -> k <= j -> is_u64 (4 + 4 * N.of_nat j) ->
  j - k < fuel ->
  exists a', recover_loop fuel (4 + 4 * N.of_nat j) a = Val a' /\ ea_inv a' j
    /\ a' = a.[ea_next_toss := (4 + 4 * N.of_nat j)%N].[ea_rng := Some (tosses (ea_n a) (ea_seed a) j)].
Proof.
  revert a k. induction fuel as [|fuel IH]; intros a k Hi Hr Hle Hu Hf; [lia|]. simpl.
  destruct (ea_inv_next a k Hi) as [Hn _].
  destruct (N.ltb_spec (ea_next_toss a) (4 + 4 * N.of_nat j)) as [Hlt|Hge].
  - destruct (EnclaveAutomata_rand_spec a k Hi Hr) as (a1 & -> & Hi1 & Hr1 & Ha1).
    { unfold is_u64 in *. lia. } simpl.
    destruct (IH a1 (S k) Hi1 Hr1) as (a2 & H2a & H2b & H2c); [lia|done|lia|].
    exists a2. split; [done|]. split; [done|]. rewrite H2c, Ha1. done.
  - assert (j = k) as -> by lia. exists a. split; [done|]. split; [done|].
    rewrite <-(is_ready_rng a k Hi Hr), <-Hn. by destruct a.
Qed.

#[local] Arguments recover_loop : simpl never.

(** Recovering a fresh automaton from the export of a ready one gives an
    automaton with the same peers, seed, generator and next toss. *)
Lemma EnclaveAutomata_recover_export a k x b :
  ea_inv a k -> EnclaveAutomata_export a = Val (Ok x) ->
  ea_inv b 0 -> ea_rng b = None -> ea_n b = ea_n a ->
  exists b', EnclaveAutomata_recover b x = Val (Ok (), b') /\ ea_inv b' k
    /\ ea_peers b' = ea_peers a /\ ea_seed b' = ea_seed a /\ ea_rng b' = ea_rng a
    /\ ea_next_toss b' = ea_next_toss a /\ ea_n b' = ea_n a /\ ea_c b' = ea_c b
    /\ ea_enclave b' = ea_enclave b.
Proof.
  intros Hi Hx Hb Hbr Hn. unfold EnclaveAutomata_export in Hx.
  destruct (EnclaveAutomata_is_ready a) eqn:Hr; [|done]. simpl in Hx. injection Hx as <-.
  pose proof (is_ready_rng a k Hi Hr) as Hrng.
  pose proof Hr as Hadd. rewrite (is_ready_iff a k Hi) in Hadd. apply N.leb_le in Hadd.
  pose proof (ea_inv_added a k Hi) as Hc. pose proof (completed_le (ea_peers a)) as Hcl.
  pose proof (ea_inv_peers a k Hi) as Hp. destruct (ea_inv_next a k Hi) as [Hnt Hnt64].
  destruct (ea_inv_next b 0 Hb) as [Hb4 _]. simpl in Hb4.
  unfold EnclaveAutomata_recover. simpl. rewrite (proj2 (N.eqb_eq _ _) Hn). simpl.
  unfold EnclaveAutomata_check_ready. simpl. rewrite Hbr. simpl.
  rewrite (proj2 (N.ltb_ge _ _)) by lia. simpl.
  set (b1 := mkAutomata _ _ _ _ _ _ _ _ _ _ _).
  assert (ea_inv b1 0) as Hb1.
  { destruct Hb. split; simpl; try done; rewrite ?Hn; try done.
    - lia.
    - by rewrite (proj2 (N.ltb_ge _ _)) by lia. }
  destruct (recover_loop_spec (recover_fuel (ea_next_toss b) (ea_next_toss a)) b1 0 k Hb1)
    as (b2 & Hb2 & Hi2 & Heq); [done|lia|by rewrite <-Hnt| |].
  { unfold recover_fuel. rewrite Hb4, Hnt.
    replace (_ - _)%N with (N.of_nat k * 4)%N by lia.
    rewrite N.div_mul by done. lia. }
  rewrite <-Hnt in Hb2. rewrite Hb2. simpl.
  assert (ea_next_toss b2 = ea_next_toss a) as Hb2n by (rewrite Heq, Hnt; done).
  rewrite Hb2n, N.eqb_refl. simpl.
  exists b2. split; [done|]. split; [done|]. rewrite Heq, Hrng. simpl. by rewrite Hn, <-Hnt.
Qed.

(** ** Verifying, and replacing a peer *)

Lemma EnclaveAutomata_verify_spec a k i counter msg sig :
  ea_inv a k -> EnclaveAutomata_is_ready a = true -> (i < ea_n a)%N ->
  exists att old, ea_peers a !! N.to_nat i = Some (Peer_HandshakeComplete att old)
    /\ EnclaveAutomata_verify a i counter msg sig
       = Val (map_err (et_verify (attestation_for att old (da_round (sv_address msg))) counter
                         (SignableVertex_to_hash msg) sig)).
Proof.
  intros Hi Hr Hn. destruct (ready_peer a k i Hi Hr Hn) as (att & old & Hp). exists att, old.
  split; [done|]. unfold EnclaveAutomata_verify. rewrite (proj2 (N.leb_gt _ _)) by lia. rewrite Hr. simpl.
  by rewrite (index_u64_Val _ _ _ Hp).
Qed.

(** The first round the next replacement files under the outgoing attestation. *)
Definition replace_from (old : M (et_Attestation Enc)) : N :=
  from_option (fun '(_, hi, _) => hi) 0%N (rim_last_range_value old).

Lemma EnclaveAutomata_replace_peer_spec a k i att old att' max_round :
  ea_inv a k -> EnclaveAutomata_is_ready a = true -> (i < ea_n a)%N ->
  ea_peers a !! N.to_nat i = Some (Peer_HandshakeComplete att old) ->
  if (replace_from old <=? max_round)%N then
    exists a' old', EnclaveAutomata_replace_peer a i att' max_round = Val (Ok true, a')
      /\ ea_inv a' k /\ EnclaveAutomata_is_ready a' = true /\ ea_n a' = ea_n a
      /\ ea_peers a' = <[N.to_nat i := Peer_HandshakeComplete att' old']> (ea_peers a)
      /\ replace_from old' = max_round
      /\ forall r, attestation_for att' old' r =
           if (r <? replace_from old)%N then attestation_for att' old r
           else if (r <=? max_round)%N then att else att'
  else EnclaveAutomata_replace_peer a i att' max_round = Panic.
Proof.
  intros Hi Hr Hn Hp. unfold EnclaveAutomata_replace_peer. rewrite Hr. simpl.
  rewrite (index_u64_Val _ _ _ Hp). simpl. fold (replace_from old).
  pose proof (ea_inv_peers a k Hi).
  destruct (N.leb_spec (replace_from old) max_round) as [Hle|Hgt];
    [|by rewrite rim_insert_empty].
  destruct (rim_insert_ok _ old (replace_from old) max_round att Hle) as (old' & -> & Hget). simpl.
  rewrite assign_u64_Val by lia. simpl.
  assert (forall r, (replace_from old < r)%N -> rim_get old r = None) as Habove.
  { intros r Hlt. unfold replace_from in Hlt.
    destruct (rim_last_range_value old) as [[[lo hi] v]|] eqn:Hl; simpl in Hlt.
    - apply rim_last_some in Hl as (_ & _ & Hab). by apply Hab.
    - by apply rim_last_none. }
  eexists _, old'. split; [done|]. split; [|split; [done|split; [done|split; [done|split]]]].
  - eapply ea_inv_frame; [done|..]; simpl; try done; [by rewrite length_insert|].
    pose proof (completed_insert (ea_peers a) _ _ (Peer_HandshakeComplete att' old') Hp). simpl in *. lia.
  - unfold replace_from at 1.
    assert (rim_get old' max_round = Some att) as Hmax.
    { rewrite Hget. by rewrite bool_decide_eq_true_2 by lia. }
    destruct (rim_last_range_value old') as [[[lo hi] v]|] eqn:Hl.
    + apply rim_last_some in Hl as (Hlohi & Hin & Hab). simpl.
      destruct (N.lt_trichotomy hi max_round) as [Hlt|[?|Hlt]]; [|done|].
      * rewrite Hab in Hmax; done.
      * specialize (Hin hi). rewrite Hget, bool_decide_eq_false_2 in Hin by lia.
        rewrite Habove in Hin by lia. specialize (Hin ltac:(lia)). done.
    + by rewrite (rim_last_none _ _ Hl) in Hmax.
  - intros r. unfold attestation_for. rewrite Hget.
    destruct (N.ltb_spec r (replace_from old)).
    + by rewrite bool_decide_eq_false_2 by lia.
    + destruct (N.leb_spec r max_round).
      * by rewrite bool_decide_eq_true_2 by lia.
      * rewrite bool_decide_eq_false_2 by lia. by rewrite Habove by lia.
Qed.

(** ** The invariant along any sequence of calls *)

Inductive ea_step (a a' : EnclaveAutomata M Enc) : Prop :=
| step_init ent r : EnclaveAutomata_init ent a = Val (r, a') -> ea_step a a'
| step_init_peer i att r : EnclaveAutomata_init_peer_handshake a i att = Val (r, a') -> ea_step a a'
| step_complete i h r : EnclaveAutomata_complete_peer_handshake a i h = Val (r, a') -> ea_step a a'
| step_sign h r : is_u64 (ea_c a + 1) -> EnclaveAutomata_sign a h = Val (r, a') -> ea_step a a'
| step_toss (proof : list (SignedVertex B (et_Signature Enc))) r :
    is_u64 (ea_next_toss a + 4) -> is_u64 (N.of_nat (length proof)) ->
    EnclaveAutomata_toss a proof = Val (r, a') -> ea_step a a'
| step_replace i att m r : (i < ea_n a)%N ->
    EnclaveAutomata_replace_peer a i att m = Val (r, a') -> ea_step a a'
| step_certificate r : EnclaveAutomata_get_attestation_certificate a = Val (r, a') -> ea_step a a'.

Inductive ea_reachable : EnclaveAutomata M Enc -> Prop :=
| reach_new n e a : is_u64 n -> EnclaveAutomata_new n e = Val a -> ea_reachable a
| reach_recover a x e b b' r : ea_reachable a -> EnclaveAutomata_export a = Val (Ok x) ->
    EnclaveAutomata_new (ea_n a) e = Val b -> EnclaveAutomata_recover b x = Val (r, b') ->
    ea_reachable b'
| reach_step a a' : ea_reachable a -> ea_step a a' -> ea_reachable a'.

(** Completing a handshake changes the automaton only before the first toss. *)
Lemma EnclaveAutomata_complete_cases a k i h r a' :
  ea_inv a k -> EnclaveAutomata_complete_peer_handshake a i h = Val (r, a') ->
  a' = a \/ (k = 0 /\ ea_inv a' 0 /\ ea_n a' = ea_n a).
Proof.
  intros Hi Hc. pose proof (ea_inv_peers a k Hi) as Hlen.
  destruct (N.leb_spec (ea_n a) i) as [Hge|Hlt].
  { unfold EnclaveAutomata_complete_peer_handshake in Hc. rewrite (proj2 (N.leb_le _ _)) in Hc by done.
    injection Hc as <- <-. by left. }
  destruct (lookup_lt_is_Some_2 (ea_peers a) (N.to_nat i)) as [p Hp]; [lia|].
  pose proof Hc as Hc0. unfold EnclaveAutomata_complete_peer_handshake in Hc0.
  rewrite (proj2 (N.leb_gt _ _)), (index_u64_Val _ _ _ Hp) in Hc0 by done. simpl in Hc0.
  destruct p as [|att|att old]; [by injection Hc0 as <- <-; left| |by injection Hc0 as <- <-; left].
  destruct (et_unseal_seed_share (ea_enclave a) h att) as [[share|e]| |] eqn:Hu; [|by injection Hc0 as <- <-; left|done..].
  right. assert (k = 0) as ->.
  { apply (ea_inv_start a k Hi). rewrite (ea_inv_rng a k Hi).
    pose proof (completed_lt _ _ _ Hp eq_refl). pose proof (ea_inv_added a k Hi).
    by rewrite (proj2 (N.ltb_lt _ _)) by lia. }
  destruct (EnclaveAutomata_complete_spec a i att h share Hi Hlt Hp Hu) as (a1 & Ha1 & Hi1 & _ & _ & Hn1 & _).
  rewrite Ha1 in Hc. by injection Hc as <- <-.
Qed.

Lemma EnclaveAutomata_toss_inv a k (proof : list (SignedVertex B (et_Signature Enc))) r a' :
  ea_inv a k -> is_u64 (ea_next_toss a + 4) -> is_u64 (N.of_nat (length proof)) ->
  EnclaveAutomata_toss a proof = Val (r, a') -> exists k', ea_inv a' k'.
Proof.
  intros Hi Hu Hl Ht. destruct r as [leader|e].
  - apply (EnclaveAutomata_toss_spec a k) in Ht as (_ & _ & _ & _ & Hi' & _); [eauto|done..].
  - unfold EnclaveAutomata_toss in Ht.
    destruct (toss_loop a proof ∅ 0) as [[valid|e']| |]; simpl in Ht; try done.
    + destruct (valid <? ea_quorum a)%N; [injection Ht as <- <-; by exists k|].
      by destruct (EnclaveAutomata_rand a).
    + injection Ht as <- <-. by exists k.
Qed.

Lemma ea_step_inv a a' k : ea_inv a k -> ea_step a a' -> exists k', ea_inv a' k'.
Proof.
  intros Hi [ent r Hc|i att r Hc|i h r Hc|h r Hu Hc|proof r Hu Hl Hc|i att m r Hn Hc|r Hc].
  - exists k. unfold EnclaveAutomata_init in Hc. destruct (bool_decide _); [|done]. simpl in Hc.
    destruct (et_gen_seed_share _ _); injection Hc as <- <-; [|done]. by eapply ea_inv_frame.
  - exists k. by eapply EnclaveAutomata_init_peer_handshake_inv in Hc as [? _].
  - destruct (EnclaveAutomata_complete_cases a k i h r a' Hi Hc) as [->|(_ & ? & _)]; eauto.
  - exists k. pose proof (EnclaveAutomata_sign_spec a k h Hi Hu) as Hs.
    destruct (EnclaveAutomata_is_ready a).
    + destruct Hs as (a1 & Hi1 & _ & _ & _ & _ & Hs). rewrite Hc in Hs. by injection Hs as -> ->.
    + rewrite Hc in Hs. by injection Hs as -> ->.
  - by eapply EnclaveAutomata_toss_inv.
  - exists k. destruct (EnclaveAutomata_is_ready a) eqn:Hr.
    + destruct (ready_peer a k i Hi Hr Hn) as (att0 & old & Hp).
      pose proof (EnclaveAutomata_replace_peer_spec a k i att0 old att m Hi Hr Hn Hp) as Hs.
      destruct (_ <=? _)%N.
      * destruct Hs as (a1 & old' & Hs & Hi1 & _). rewrite Hc in Hs. by injection Hs as -> ->.
      * by rewrite Hc in Hs.
    + unfold EnclaveAutomata_replace_peer in Hc. rewrite Hr in Hc. by injection Hc as <- <-.
  - exists k. unfold EnclaveAutomata_get_attestation_certificate in Hc.
    destruct (et_get_attestation_certificate _). injection Hc as <- <-. by eapply ea_inv_frame.
Qed.

Lemma ea_reachable_inv a : ea_reachable a -> exists k, ea_inv a k.
Proof.
  induction 1 as [n e a Hn Ha|a x e b b' r _ [k Hi] Hx Hb Hr|a a' _ [k Hi] Hs].
  - exists 0. pose proof (EnclaveAutomata_new_spec n e Hn) as Hs. destruct (3 <=? n)%N.
    + destruct Hs as (a1 & Hs & Hi & _). rewrite Ha in Hs. by injection Hs as ->.
    + by rewrite Ha in Hs.
  - exists k. pose proof (EnclaveAutomata_new_spec (ea_n a) e (proj2 (ea_inv_n a k Hi))) as Hs.
    rewrite (proj2 (N.leb_le _ _) (proj1 (ea_inv_n a k Hi))) in Hs.
    destruct Hs as (b1 & Hb1 & Hi1 & Hn1 & _ & Hr1 & _). rewrite Hb in Hb1. injection Hb1 as <-.
    unfold EnclaveAutomata_is_ready in Hr1. destruct (ea_rng b) eqn:Hrng; [done|].
    destruct (EnclaveAutomata_recover_export a k x b Hi Hx Hi1 Hrng Hn1) as (b2 & Hb2 & Hi2 & _).
    rewrite Hr in Hb2. by injection Hb2 as -> ->.
  - by eapply ea_step_inv.
Qed.

(** ** The seed *)

Lemma xor_seed_swap s x y : xor_seed (xor_seed s x) y = xor_seed (xor_seed s y) x.
Proof.
  unfold xor_seed. revert x y. induction s as [|b s IH]; intros [|c x] [|e y]; simpl; try done.
  f_equal; [|apply IH]. by rewrite !N.lxor_assoc, (N.lxor_comm c e).
Qed.

Lemma xor_seed_perm shares1 shares2 s :
  shares1 ≡ₚ shares2 -> foldl xor_seed s shares1 = foldl xor_seed s shares2.
Proof.
  intros Hp. revert s. induction Hp as [| |x y l|l1 l2 l3 _ IH1 _ IH2]; intros s; simpl; try done.
  - by rewrite xor_seed_swap.
  - by rewrite IH1.
Qed.

(** Completing handshakes one after the other; [shares] are the seed shares the
    enclave unseals, in the order of completion. *)
Inductive completes (a : EnclaveAutomata M Enc) : list (list N) -> EnclaveAutomata M Enc -> Prop :=
| completes_nil : completes a [] a
| completes_cons i h att share a1 shares a2 :
    (i < ea_n a)%N -> ea_peers a !! N.to_nat i = Some (Peer_Attested att) ->
    et_unseal_seed_share (ea_enclave a) h att = Val (Ok share) ->
    EnclaveAutomata_complete_peer_handshake a i h = Val (HR_Ok, a1) ->
    completes a1 shares a2 -> completes a (share :: shares) a2.

Lemma completes_seed a shares a' :
  ea_inv a 0 -> completes a shares a' ->
  ea_seed a' = foldl xor_seed (ea_seed a) shares /\ ea_inv a' 0 /\ ea_n a' = ea_n a
  /\ ea_peers_added a' = (ea_peers_added a + N.of_nat (length shares))%N.
Proof.
  intros Hi Hc. revert Hi.
  induction Hc as [a|a i h att share a1 shares a2 Hlt Hp Hu Ha1 _ IH]; intros Hi.
  - repeat (split; [done|]). simpl. lia.
  - destruct (EnclaveAutomata_complete_spec a i att h share Hi Hlt Hp Hu)
      as (a1' & Ha1' & Hi1 & Hseed & Hpeers & Hn1 & _).
    rewrite Ha1 in Ha1'. injection Ha1' as <-. destruct (IH Hi1) as (-> & Hi2 & -> & ->).
    split; [by rewrite Hseed|]. split; [done|]. split; [done|].
    rewrite (ea_inv_added a1 0 Hi1), (ea_inv_added a 0 Hi), Hpeers.
    pose proof (completed_insert (ea_peers a) _ _ (Peer_HandshakeComplete att rim_new) Hp) as Hci.
    simpl in *. lia.
Qed.
End enclave_facts.

(** ** NxBFT: the common coin as an interface

    What a replica relies on of its enclave's coin, as a class: the tosses of an
    enclave are the values of one sequence [coin_of], which nothing changes once
    the first toss was made.  The automaton of [nxbft-base] implements it: the
    sequence is drawn from the generator seeded with the shares of all
    replicas. *)

Class CommonCoin (B Enc : Type) `{Enclave B Enc} := {
  (** The enclave is one of a system of [n] replicas. *)
  coin_inv : N -> Enc -> Prop;
  (** The number of tosses so far. *)
  coin_tossed : Enc -> N;
  (** The leader of a wave. *)
  coin_of : Enc -> N -> N;
}.

(** A call that does not toss, and does not touch the coin after the first toss. *)
Definition coin_keeps {B Enc} `{CommonCoin B Enc} (n : N) (e e' : Enc) : Prop :=
  coin_inv n e ->
  coin_inv n e' /\ coin_tossed e' = coin_tossed e
  /\ ((0 < coin_tossed e)%N -> forall w, coin_of e' w = coin_of e w).

#[export] Instance coin_keeps_preorder {B Enc} `{CommonCoin B Enc} (n : N) : PreOrder (coin_keeps n).
Proof.
  split; [by intros e|]. intros e1 e2 e3 H12 H23 Hi.
  destruct (H12 Hi) as (Hi2 & Ht2 & Hc2), (H23 Hi2) as (Hi3 & Ht3 & Hc3).
  split; [done|]. split; [congruence|]. intros Ht w. rewrite Hc3, Hc2; [done|done|by rewrite Ht2].
Qed.

Class CommonCoinLaws (B Enc : Type) `{CommonCoin B Enc} : Prop := {
  coin_new ent n e : is_u64 n -> enc_new ent n = Val e -> coin_inv n e /\ coin_tossed e = 0%N;
  coin_range n e w : coin_inv n e -> (coin_of e w < n)%N;
  coin_init ent n e r e' : enc_init ent e = Val (r, e') -> coin_keeps n e e';
  coin_certificate n e r e' : enc_get_attestation_certificate e = Val (r, e') -> coin_keeps n e e';
  coin_init_peer n e i att r e' : enc_init_peer_handshake e i att = Val (r, e') -> coin_keeps n e e';
  coin_complete n e i h r e' : enc_complete_peer_handshake e i h = Val (r, e') -> coin_keeps n e e';
  coin_replace n e i att m r e' : enc_replace_peer e i att m = Val (r, e') -> coin_keeps n e e';
  coin_export n e r e' : enc_export e = Val (r, e') -> coin_keeps n e e';
  coin_sign n e v r e' : enc_sign e v = Val (r, e') -> coin_keeps n e e';
  coin_toss_err n e proof err e' : enc_toss e proof = Val (Err err, e') -> coin_keeps n e e';
  coin_toss n e proof leader e' :
    coin_inv n e -> enc_toss e proof = Val (Ok leader, e') ->
    coin_inv n e' /\ coin_tossed e' = (coin_tossed e + 1)%N
    /\ leader = coin_of e (coin_tossed e + 1) /\ forall w, coin_of e' w = coin_of e w;
}.

(** ** The automaton implements the coin *)

Section automata_coin.
  Context {P : Profile} {B : Type} `{BitSetLaws B} `{Digests} `{RandLaws}.
  Context {M : Type -> Type} `{RangeInclusiveMapLaws M}.
  Context {Enc : Type} `{EnclaveTrusted Enc}.
  (** Without overflow checks, the counter of tosses would start again at zero
      after [2^62] waves. *)
  Context (Hchecks : overflow_checks = true).
  Implicit Types (a : EnclaveAutomata M Enc).

Definition ea_coin (a : EnclaveAutomata M Enc) (w : N) : N :=
  (uniform_sample (ea_n a) (tosses (ea_n a) (ea_seed a) (N.to_nat (w - 1)))).1.
Definition ea_tossed (a : EnclaveAutomata M Enc) : N := ((ea_next_toss a - 4) / 4)%N.
Definition ea_coin_inv (n : N) (a : EnclaveAutomata M Enc) : Prop := ea_n a = n /\ exists k, ea_inv a k.

Lemma ea_tossed_inv a k : ea_inv a k -> ea_tossed a = N.of_nat k.
Proof.
  intros Hi. destruct (ea_inv_next a k Hi) as [Hn _]. unfold ea_tossed. rewrite Hn.
  replace (4 + 4 * N.of_nat k - 4)%N with (N.of_nat k * 4)%N by lia. by apply N.div_mul.
Qed.

(** A call that keeps the invariant, the seed and the number of replicas. *)
Definition ea_keeps (n : N) (a a' : EnclaveAutomata M Enc) : Prop :=
  ea_coin_inv n a ->
  ea_coin_inv n a' /\ ea_tossed a' = ea_tossed a
  /\ ((0 < ea_tossed a)%N -> forall w, ea_coin a' w = ea_coin a w).

Lemma ea_keeps_frame n a a' k :
  ea_inv a k -> ea_inv a' k -> ea_n a' = ea_n a -> (k = 0 \/ ea_seed a' = ea_seed a) -> ea_keeps n a a'.
Proof.
  intros Hi Hi' Hn Hs [Han _]. split; [split; [congruence|by exists k]|].
  rewrite (ea_tossed_inv a k Hi), (ea_tossed_inv a' k Hi'). split; [done|].
  intros Hk w. destruct Hs as [->|Hs]; [done|]. unfold ea_coin. by rewrite Hn, Hs.
Qed.

Lemma ea_init_keeps n ent a r a' : EnclaveAutomata_init ent a = Val (r, a') -> ea_keeps n a a'.
Proof.
  unfold EnclaveAutomata_init. destruct (bool_decide _); [|done]. simpl. intros Hc [Hn [k Hi]].
  assert (ea_inv a' k /\ ea_n a' = ea_n a /\ ea_seed a' = ea_seed a) as (Hi' & Hn' & Hs').
  { destruct (et_gen_seed_share _ _); injection Hc as <- <-; [|done].
    split; [by eapply ea_inv_frame|done]. }
  eapply (ea_keeps_frame n a a' k); eauto. by split; eauto.
Qed.

Lemma ea_certificate_keeps n a r a' :
  EnclaveAutomata_get_attestation_certificate a = Val (r, a') -> ea_keeps n a a'.
Proof.
  unfold EnclaveAutomata_get_attestation_certificate.
  destruct (et_get_attestation_certificate _) as [x e]. intros [= <- <-] [Hn [k Hi]].
  eapply (ea_keeps_frame n a _ k); eauto; [by eapply ea_inv_frame|by split; eauto].
Qed.

Lemma ea_init_peer_keeps n a i att r a' :
  EnclaveAutomata_init_peer_handshake a i att = Val (r, a') -> ea_keeps n a a'.
Proof.
  intros Hc [Hn [k Hi]].
  destruct (EnclaveAutomata_init_peer_handshake_inv a k i att r a' Hi Hc) as (Hi' & Hn' & Hs & _).
  eapply (ea_keeps_frame n a a' k); eauto. by split; eauto.
Qed.

Lemma ea_complete_keeps n a i h r a' :
  EnclaveAutomata_complete_peer_handshake a i h = Val (r, a') -> ea_keeps n a a'.
Proof.
  intros Hc [Hn [k Hi]].
  destruct (EnclaveAutomata_complete_cases a k i h r a' Hi Hc) as [->|(-> & Hi' & Hn')].
  - eapply (ea_keeps_frame n a a k); eauto. by split; eauto.
  - eapply (ea_keeps_frame n a a' 0); eauto. by split; eauto.
Qed.

Lemma ea_replace_keeps n a i att m r a' :
  EnclaveAutomata_replace_peer a i att m = Val (r, a') -> ea_keeps n a a'.
Proof.
  intros Hc [Hn [k Hi]].
  destruct (EnclaveAutomata_is_ready a) eqn:Hr.
  2:{ unfold EnclaveAutomata_replace_peer in Hc. rewrite Hr in Hc. injection Hc as <- <-.
      eapply (ea_keeps_frame n a a k); eauto. by split; eauto. }
  destruct (N.lt_ge_cases i (ea_n a)) as [Hlt|Hge].
  2:{ unfold EnclaveAutomata_replace_peer in Hc. rewrite Hr in Hc. simpl in Hc. exfalso. revert Hc.
      unfold index_u64. rewrite nth_u64_lookup, lookup_ge_None_2; [done|].
      pose proof (ea_inv_peers a k Hi). lia. }
  destruct (ready_peer a k i Hi Hr Hlt) as (att0 & old & Hp).
  pose proof (EnclaveAutomata_replace_peer_spec a k i att0 old att m Hi Hr Hlt Hp) as Hs.
  destruct (_ <=? _)%N; [|by rewrite Hc in Hs].
  destruct Hs as (a1 & old' & Hs & Hi1 & _ & Hn1 & _). pose proof Hs as Hs0. rewrite Hc in Hs.
  injection Hs as -> ->. eapply (ea_keeps_frame n a a1 k); eauto; [|by split; eauto].
  right. unfold EnclaveAutomata_replace_peer in Hc. rewrite Hr, (index_u64_Val _ _ _ Hp) in Hc. simpl in Hc.
  destruct (rim_insert _ _ _ _); simpl in Hc; try done. destruct (assign_u64 _ _ _); simpl in Hc; try done.
  by injection Hc as <-.
Qed.

Lemma checked_add_Val x y z : u64_add x y = Val z -> is_u64 (x + y).
Proof.
  unfold u64_add, is_u64. destruct (N.ltb_spec (x + y) (2 ^ 64)); [done|]. by rewrite Hchecks.
Qed.

Lemma ea_sign_keeps n a h r a' : EnclaveAutomata_sign a h = Val (r, a') -> ea_keeps n a a'.
Proof.
  intros Hc [Hn [k Hi]]. destruct (EnclaveAutomata_is_ready a) eqn:Hr.
  - assert (is_u64 (ea_c a + 1)) as Hu.
    { unfold EnclaveAutomata_sign in Hc. rewrite Hr in Hc. simpl in Hc.
      destruct (u64_add (ea_c a) 1) eqn:E; try done. by eapply checked_add_Val. }
    pose proof (EnclaveAutomata_sign_spec a k h Hi Hu) as Hs. rewrite Hr in Hs.
    destruct Hs as (a1 & Hi1 & _ & Hn1 & Hs1 & _ & Hs). rewrite Hc in Hs. injection Hs as -> ->.
    eapply (ea_keeps_frame n a a1 k); eauto. by split; eauto.
  - unfold EnclaveAutomata_sign in Hc. rewrite Hr in Hc. injection Hc as <- <-.
    eapply (ea_keeps_frame n a a k); eauto. by split; eauto.
Qed.

Lemma ea_toss_err_keeps n a (proof : list (SignedVertex B (et_Signature Enc))) e a' :
  EnclaveAutomata_toss a proof = Val (Err e, a') -> ea_keeps n a a'.
Proof.
  unfold EnclaveAutomata_toss. destruct (toss_loop a proof ∅ 0) as [[valid|e']| |]; simpl; try done.
  - destruct (valid <? ea_quorum a)%N; [by intros [= _ <-] Hi|]. by destruct (EnclaveAutomata_rand a).
  - by intros [= _ <-] Hi.
Qed.

Lemma ea_toss_coin n a (proof : list (SignedVertex B (et_Signature Enc))) leader a' :
  ea_coin_inv n a -> EnclaveAutomata_toss a proof = Val (Ok leader, a') ->
  ea_coin_inv n a' /\ ea_tossed a' = (ea_tossed a + 1)%N
  /\ leader = ea_coin a (ea_tossed a + 1) /\ forall w, ea_coin a' w = ea_coin a w.
Proof.
  intros [Hn [k Hi]]. unfold EnclaveAutomata_toss.
  destruct (toss_loop a proof ∅ 0) as [[valid|e']| |]; simpl; try done.
  destruct (valid <? ea_quorum a)%N; [done|]. intros Hc.
  apply outcome_bind_inv in Hc as ([x a1] & Hr & [= <- <-]). simpl.
  assert (is_u64 (ea_next_toss a + 4)) as Hu.
  { unfold EnclaveAutomata_rand, id_add_assign in Hr.
    destruct (u64_add (ea_next_toss a) 4) eqn:E; try done. by eapply checked_add_Val. }
  assert (EnclaveAutomata_is_ready a = true) as Hready.
  { unfold EnclaveAutomata_rand, EnclaveAutomata_is_ready in *. destruct (ea_rng a) eqn:E; [done|].
    destruct (id_add_assign _ _); try done. simpl in Hr. by rewrite E in Hr. }
  destruct (EnclaveAutomata_rand_spec a k Hi Hready Hu) as (a2 & Ha2 & Hi2 & _ & Heq).
  rewrite Hr in Ha2. injection Ha2 as -> <-.
  rewrite (ea_tossed_inv a k Hi), (ea_tossed_inv a1 (S k) Hi2). rewrite Heq.
  split; [split; [done|by exists (S k); rewrite <-Heq]|]. split; [lia|]. split; [|done].
  unfold ea_coin. replace (N.to_nat (N.of_nat k + 1 - 1)) with k by lia. done.
Qed.

Lemma ea_coin_range n a w : ea_coin_inv n a -> (ea_coin a w < n)%N.
Proof.
  intros [<- [k Hi]]. apply uniform_sample_lt. destruct (ea_inv_n a k Hi). lia.
Qed.

Lemma ea_new_coin n e a :
  is_u64 n -> EnclaveAutomata_new n e = Val a -> ea_coin_inv n a /\ ea_tossed a = 0%N.
Proof.
  intros Hn Ha. pose proof (EnclaveAutomata_new_spec (M := M) n e Hn) as Hs. rewrite Ha in Hs.
  destruct (3 <=? n)%N; [|done]. destruct Hs as (a1 & [= <-] & Hi & Han & _).
  split; [split; [done|by exists 0]|by rewrite (ea_tossed_inv a 0 Hi)].
Qed.
End automata_coin.

Section simple_coin.
  Context {P : Profile} {B : Type} `{BitSetLaws B} `{Digests} `{RandLaws}.
  Context {M : Type -> Type} `{RangeInclusiveMapLaws M}.

#[export] Instance SimpleEnclave_coin : CommonCoin B (SimpleEnclave (M := M)) := {|
  coin_inv := ea_coin_inv;
  coin_tossed := ea_tossed;
  coin_of := ea_coin;
|}.

Lemma SimpleEnclave_coin_laws : overflow_checks = true -> CommonCoinLaws B (SimpleEnclave (M := M)).
Proof.
  intros Hchecks. split.
  - intros ent n e. apply ea_new_coin.
  - intros n e w. apply ea_coin_range.
  - intros ent n e r e'. exact (ea_init_keeps n ent e r e').
  - intros n e r e'. exact (ea_certificate_keeps n e r e').
  - intros n e i att r e'. exact (ea_init_peer_keeps n e i att r e').
  - intros n e i h r e'. exact (ea_complete_keeps n e i h r e').
  - intros n e i att m r e'. exact (ea_replace_keeps n e i att m r e').
  - intros n e r e' (x & _ & [= _ <-])%outcome_bind_inv. by intros ?.
  - intros n e v r e'. exact (ea_sign_keeps Hchecks n e _ r e').
  - intros n e proof err e'. exact (ea_toss_err_keeps n e proof err e').
  - intros n e proof leader e'. exact (ea_toss_coin Hchecks n e proof leader e').
Qed.
End simple_coin.
