(* ===== verification/NxCommit.v ===== *)
(** * NxBFT: why a committed leader stays committed

    The commit rule of [wave_ready] counts, in the last round of a wave, the
    vertices that reach the wave's leader.  With edges to a majority of the
    previous round, every later vertex then has a path to that leader, in every
    DAG that agrees on the vertices both contain.  The walk back over the waves
    ([walk], the relation [leaders_loop] computes) therefore passes through
    every leader committed before, and the leaders of two replicas are prefixes
    of one another. *)

From Stdlib Require Import ZArith Lia.
From stdpp Require Import base list gmap sets fin_sets numbers option relations.
From S2P Require Import Prelude Ids Heaps NxBase NxDag NxDagFacts NxDagGraph NxDagSearch NxDagPath.

(** Two sets of replicas that together have more than [n] members share one. *)
Lemma quorum_intersection (n : N) (X Y : gset N) :
  (forall x, x ∈ X -> (x < n)%N) -> (forall x, x ∈ Y -> (x < n)%N) ->
  (n < N.of_nat (size X) + N.of_nat (size Y))%N -> exists x, x ∈ X /\ x ∈ Y.
Proof.
  intros HX HY Hn. destruct (decide (X ∩ Y = ∅)) as [He|Hne].
  - exfalso. assert (X ∪ Y ⊆ list_to_set (range 0 n)) as Hsub.
    { intros x Hx. apply elem_of_list_to_set, elem_of_range.
      apply elem_of_union in Hx as [Hx|Hx]; [apply HX in Hx|apply HY in Hx]; lia. }
    apply subseteq_size in Hsub. rewrite size_union in Hsub by set_solver.
    pose proof (size_list_to_set_le (range 0 n)). rewrite length_range in *. lia.
  - apply set_choose_L in Hne as [x Hx]. exists x. set_solver.
Qed.

Section commit.
  Context {P : Profile}.
  Context {B : Type} `{BitSetLaws B}.
  Context {Tx Sig : Type}.
  Implicit Types (d : Dag B Tx Sig) (a b : DagAddress).

(** Every vertex after round one names at least [q] parents. *)
Definition quorum_edges (d : Dag B Tx Sig) (q : N) : Prop :=
  forall a v, present d a = Some v -> (1 < da_round a)%N ->
    (q <= IdSet_len (Vertex_edges (vm_vertex v)))%N.

(** The vertices both DAGs contain are the same. *)
Definition consistent (d1 d2 : Dag B Tx Sig) : Prop :=
  forall a v1 v2, present d1 a = Some v1 -> present d2 a = Some v2 -> vm_vertex v1 = vm_vertex v2.

Lemma consistent_sym d1 d2 : consistent d1 d2 -> consistent d2 d1.
Proof. intros Hc a v1 v2 H1 H2. symmetry. by eapply Hc. Qed.

Lemma consistent_edge d1 d2 a b :
  Dag_inv d2 -> dag_offset d2 = 1%N -> consistent d1 d2 -> dag_edge d1 a b ->
  is_Some (present d2 a) -> dag_edge d2 a b.
Proof.
  intros Hi2 Ho Hc (v & Hv & He & Hr & Hb) [w Hw].
  assert (has_edge w (da_creator b)) as He2 by (unfold has_edge; by rewrite <-(Hc a v w)).
  exists w. repeat (split; [done|]).
  destruct (inv_edges d2 Hi2 a w _ Hw He2) as (_ & Hr1 & Hp).
  replace (da_round a - 1)%N with (da_round b) in Hp by lia. destruct b; simpl in *. apply Hp. lia.
Qed.

(** The history of a vertex is the same in both DAGs. *)
Lemma consistent_path d1 d2 a b :
  Dag_inv d2 -> dag_offset d2 = 1%N -> consistent d1 d2 -> dag_path d1 a b ->
  is_Some (present d2 a) -> dag_path d2 a b.
Proof.
  intros Hi2 Ho Hc Hp. induction Hp as [|a m b Ham _ IH]; intros Ha; [apply rtc_refl|].
  pose proof (consistent_edge d1 d2 a m Hi2 Ho Hc Ham Ha) as He.
  eapply rtc_l; [exact He|]. apply IH. by destruct He as (? & _ & _ & _ & ?).
Qed.

(** The creators of round [r] whose vertex has a path to [l]. *)
Definition reaching (d : Dag B Tx Sig) (r : N) (l : DagAddress) (S : gset N) : Prop :=
  forall c, c ∈ S -> (c < dag_n d)%N /\ is_Some (present d (mkDagAddress r c))
                     /\ dag_path d (mkDagAddress r c) l.

Lemma edges_gset d a v q :
  Dag_inv d -> quorum_edges d q -> present d a = Some v -> (1 < da_round a)%N ->
  (q <= N.of_nat (size (to_gset (Vertex_edges (vm_vertex v)))))%N
  /\ forall c, c ∈ to_gset (Vertex_edges (vm_vertex v)) -> (c < dag_n d)%N.
Proof.
  intros Hi Hq Hv Hr. split.
  - rewrite <-IdSet_len_spec. by apply (Hq a).
  - intros c Hc. apply elem_of_to_gset in Hc. by apply (inv_edges d Hi a v c).
Qed.

(** If a quorum of round [r] reaches [l] in [d1], every vertex of a later round
    of [d2] has a path to [l]. *)
Lemma committed_reached d1 d2 q r l S :
  Dag_inv d1 -> Dag_inv d2 -> dag_offset d2 = 1%N -> consistent d1 d2 -> dag_n d1 = dag_n d2 ->
  quorum_edges d2 q -> (dag_n d2 < 2 * q)%N -> (1 <= r)%N ->
  reaching d1 r l S -> (q <= N.of_nat (size S))%N ->
  forall a, is_Some (present d2 a) -> (r < da_round a)%N -> dag_path d2 a l.
Proof.
  intros Hi1 Hi2 Ho Hc Hn Hq Hn2 Hr1 HS Hsize a Ha Hra.
  remember (N.to_nat (da_round a - r)) as k eqn:Hk. revert a Ha Hra Hk.
  induction k as [k IH] using lt_wf_ind. intros a [v Hv] Hra Hk.
  destruct (edges_gset d2 a v q Hi2 Hq Hv) as [Hlen Hlt]; [lia|].
  assert (forall c, c ∈ to_gset (Vertex_edges (vm_vertex v)) ->
    dag_edge d2 a (mkDagAddress (da_round a - 1) c)) as Hedge.
  { intros c Hin. apply elem_of_to_gset in Hin. exists v. simpl.
    repeat (split; [done|]). split; [lia|].
    apply (inv_edges d2 Hi2 a v c Hv Hin). lia. }
  destruct (decide (da_round a = r + 1)%N) as [Heq|Hneq].
  - destruct (quorum_intersection (dag_n d2) S (to_gset (Vertex_edges (vm_vertex v))))
      as (c & HcS & HcE); [|done|lia|].
    { intros x Hx. rewrite <-Hn. by apply HS. }
    apply rtc_l with (mkDagAddress (da_round a - 1) c); [by apply Hedge|].
    replace (da_round a - 1)%N with r by lia.
    apply (consistent_path d1 d2); try done; [by apply HS|].
    destruct (Hedge c HcE) as (_ & _ & _ & _ & Hp). by replace (da_round a - 1)%N with r in Hp by lia.
  - destruct (set_choose_or_empty (to_gset (Vertex_edges (vm_vertex v)))) as [[c Hin]|Hempty].
    + apply rtc_l with (mkDagAddress (da_round a - 1) c); [by apply Hedge|].
      destruct (Hedge c Hin) as (_ & _ & _ & _ & Hp).
      apply (IH (N.to_nat (da_round a - 1 - r))); simpl; [lia|done|lia|done].
    + exfalso. apply leibniz_equiv in Hempty. rewrite Hempty, size_empty in Hlen. lia.
Qed.

(** ** The walk back over the waves *)

(** The leader of a wave, for the coins tossed. *)
Definition leader_of (coin : N -> N) (w : N) : DagAddress := mkDagAddress (4 * (w - 1) + 1) (coin w).

(** [walk d coin low v w ls]: going down from wave [w] to the wave above [low],
    starting at the leader [v], the leaders met with a path from the one before
    are [ls], latest wave first. *)
Inductive walk (d : Dag B Tx Sig) (coin : N -> N) (low : N)
    : DagAddress -> N -> list DagAddress -> Prop :=
| walk_done v w : (w <= low)%N -> walk d coin low v w []
| walk_take v w ls : (low < w)%N -> is_Some (present d (leader_of coin w)) ->
    dag_path d v (leader_of coin w) -> walk d coin low (leader_of coin w) (w - 1) ls ->
    walk d coin low v w (leader_of coin w :: ls)
| walk_skip v w ls : (low < w)%N ->
    ~ (is_Some (present d (leader_of coin w)) /\ dag_path d v (leader_of coin w)) ->
    walk d coin low v (w - 1) ls -> walk d coin low v w ls.

Lemma walk_det d coin low v w ls1 ls2 :
  walk d coin low v w ls1 -> walk d coin low v w ls2 -> ls1 = ls2.
Proof.
  intros Hw. revert ls2.
  induction Hw as [v w Hle|v w ls Hlt Hp Hpath _ IH|v w ls Hlt Hno _ IH]; intros ls2 H2;
    inversion H2; subst; try lia; try tauto.
  - by rewrite (IH ls0).
  - by apply IH.
Qed.

Lemma walk_elem d coin low v w ls l :
  walk d coin low v w ls -> l ∈ ls ->
  is_Some (present d l) /\ dag_path d v l
  /\ exists w', (low < w' <= w)%N /\ l = leader_of coin w'.
Proof.
  intros Hw. induction Hw as [v w Hle|v w ls Hlt Hp Hpath _ IH|v w ls Hlt Hno _ IH].
  - by intros ?%not_elem_of_nil.
  - intros [->|Hin]%elem_of_cons.
    + split; [done|]. split; [done|]. exists w. split; [lia|done].
    + destruct (IH Hin) as (? & Hr & w' & Hw' & ->). split; [done|].
      split; [by transitivity (leader_of coin w)|]. exists w'. split; [lia|done].
  - intros Hin. destruct (IH Hin) as (? & ? & w' & Hw' & ->). split; [done|]. split; [done|].
    exists w'. split; [lia|done].
Qed.

(** The walk from a vertex both DAGs contain meets the same leaders in both. *)
Lemma walk_consistent d1 d2 coin low v w ls :
  Dag_inv d1 -> Dag_inv d2 -> dag_offset d1 = 1%N -> dag_offset d2 = 1%N -> consistent d1 d2 ->
  is_Some (present d1 v) -> is_Some (present d2 v) ->
  walk d1 coin low v w ls -> walk d2 coin low v w ls.
Proof.
  intros Hi1 Hi2 Ho1 Ho2 Hc Hv1 Hv2 Hw. revert Hv1 Hv2.
  induction Hw as [v w Hle|v w ls Hlt Hp Hpath _ IH|v w ls Hlt Hno _ IH]; intros Hv1 Hv2.
  - by apply walk_done.
  - assert (dag_path d2 v (leader_of coin w)) as Hpath2 by by apply (consistent_path d1 d2).
    assert (is_Some (present d2 (leader_of coin w))) as Hp2 by by eapply dag_path_present.
    apply walk_take; [done..|]. by apply IH.
  - apply walk_skip; [done| |by apply IH]. intros [Hp2 Hpath2]. apply Hno.
    assert (dag_path d1 v (leader_of coin w)) as Hpath1.
    { apply (consistent_path d2 d1); try done. by apply consistent_sym. }
    split; [|done]. by eapply dag_path_present.
Qed.

(** The walk never leaves a vertex for one above the wave it looks at. *)
Lemma walk_app d coin low mid v w ls :
  (low <= mid)%N -> walk d coin low v w ls ->
  exists pre v' post, ls = pre ++ post /\ walk d coin mid v w pre
    /\ walk d coin low v' (N.min w mid) post /\ v' = default v (last pre)
    /\ (is_Some (present d v) -> is_Some (present d v'))
    /\ (v' = v \/ exists w', (mid < w')%N /\ v' = leader_of coin w').
Proof.
  intros Hle Hw. induction Hw as [v w Hlow|v w ls Hlt Hp Hpath Hw IH|v w ls Hlt Hno Hw IH].
  - exists [], v, []. split; [done|]. split; [apply walk_done; lia|].
    split; [apply walk_done; lia|]. split; [done|]. split; [done|]. by left.
  - destruct (N.le_gt_cases w mid) as [Hwm|Hwm].
    + exists [], v, (leader_of coin w :: ls). split; [done|]. split; [by apply walk_done|].
      rewrite N.min_l by done. split; [by apply walk_take|]. split; [done|]. split; [done|]. by left.
    + destruct IH as (pre & v' & post & -> & Hpre & Hpost & Hv' & Hsome & Hcase).
      exists (leader_of coin w :: pre), v', post. split; [done|]. split; [by apply walk_take|].
      replace (N.min (w - 1) mid) with (N.min w mid) in Hpost by lia. split; [done|].
      split; [|split].
      * rewrite Hv'. destruct pre as [|x pre]; [done|]. rewrite last_cons_cons.
        destruct (last (x :: pre)) eqn:E; [done|]. by apply last_None in E.
      * intros _. by apply Hsome.
      * right. destruct Hcase as [->|?]; [|done]. by exists w.
  - destruct (N.le_gt_cases w mid) as [Hwm|Hwm].
    + exists [], v, ls. split; [done|]. split; [by apply walk_done|].
      rewrite N.min_l by done. split; [by apply walk_skip|]. split; [done|]. split; [done|]. by left.
    + destruct IH as (pre & v' & post & -> & Hpre & Hpost & Hrest).
      exists pre, v', post. split; [done|]. split; [by apply walk_skip|].
      by replace (N.min (w - 1) mid) with (N.min w mid) in Hpost by lia.
Qed.

(** A wave is decided in [d] when a quorum of its last round reaches its leader. *)
Definition decides (d : Dag B Tx Sig) (q : N) (coin : N -> N) (w : N) : Prop :=
  (1 <= w)%N /\ is_Some (present d (leader_of coin w))
  /\ exists S, reaching d (4 * w) (leader_of coin w) S /\ (q <= N.of_nat (size S))%N.

(** The leaders a replica that decides [w] has committed so far, latest first:
    the leader of [w] and what the walk down to the first wave meets. *)
Definition committed (d : Dag B Tx Sig) (coin : N -> N) (w : N) (ls : list DagAddress) : Prop :=
  exists rest, ls = leader_of coin w :: rest /\ walk d coin 0 (leader_of coin w) (w - 1) rest.

(** The walk from the leader of a later wave passes through a decided one. *)
Lemma walk_through d1 d2 q coin w1 w2 ls :
  Dag_inv d1 -> Dag_inv d2 -> dag_offset d1 = 1%N -> dag_offset d2 = 1%N -> consistent d1 d2 ->
  dag_n d1 = dag_n d2 -> quorum_edges d2 q -> (dag_n d2 < 2 * q)%N ->
  decides d1 q coin w1 -> (w1 < w2)%N -> is_Some (present d2 (leader_of coin w2)) ->
  walk d2 coin 0 (leader_of coin w2) (w2 - 1) ls ->
  exists pre post, ls = pre ++ leader_of coin w1 :: post
    /\ walk d2 coin w1 (leader_of coin w2) (w2 - 1) pre
    /\ walk d1 coin 0 (leader_of coin w1) (w1 - 1) post.
Proof.
  intros Hi1 Hi2 Ho1 Ho2 Hc Hn Hq Hq2 (H1 & Hl1 & S & HS & Hsize) Hlt Hl2 Hw.
  destruct (walk_app d2 coin 0 w1 _ _ ls ltac:(lia) Hw)
    as (pre & v' & post & -> & Hpre & Hpost & Hv' & Hsome & Hcase).
  rewrite N.min_r in Hpost by lia. specialize (Hsome Hl2).
  assert (dag_path d2 v' (leader_of coin w1)) as Hpath.
  { apply (committed_reached d1 d2 q (4 * w1) (leader_of coin w1) S); try done; [lia|].
    destruct Hcase as [->|(w' & Hw' & ->)]; simpl; lia. }
  assert (is_Some (present d2 (leader_of coin w1))) as Hl12 by by eapply dag_path_present.
  inversion Hpost as [|? ? post' _ _ _ Hpost'|? ? ? _ Hno]; subst; [lia| |by destruct Hno].
  exists pre, post'. split; [done|]. split; [done|].
  apply (walk_consistent d2 d1); try done. by apply consistent_sym.
Qed.

(** Decisions taken in steps commit what one walk down to the first wave meets:
    the leaders committed by a decision of [w1] are the tail of those of [w2]. *)
Lemma committed_suffix d1 d2 q coin w1 w2 ls1 ls2 :
  Dag_inv d1 -> Dag_inv d2 -> dag_offset d1 = 1%N -> dag_offset d2 = 1%N -> consistent d1 d2 ->
  dag_n d1 = dag_n d2 -> quorum_edges d2 q -> (dag_n d2 < 2 * q)%N ->
  decides d1 q coin w1 -> decides d2 q coin w2 -> (w1 <= w2)%N ->
  committed d1 coin w1 ls1 -> committed d2 coin w2 ls2 -> ls1 `suffix_of` ls2.
Proof.
  intros Hi1 Hi2 Ho1 Ho2 Hc Hn Hq Hq2 Hd1 Hd2 Hle (r1 & -> & Hw1) (r2 & -> & Hw2).
  pose proof Hd1 as (_ & Hl1 & _). pose proof Hd2 as (_ & Hl2 & _).
  destruct (decide (w1 = w2)) as [<-|Hneq].
  - assert (r1 = r2) as ->; [|done].
    eapply walk_det; [|exact Hw2]. by apply (walk_consistent d1 d2).
  - destruct (walk_through d1 d2 q coin w1 w2 r2) as (pre & post & -> & _ & Hpost); try done; [lia|].
    rewrite (walk_det _ _ _ _ _ _ _ Hw1 Hpost).
    exists (leader_of coin w2 :: pre). done.
Qed.
End commit.
