(* ===== verification/NxDagBuilt.v ===== *)
(** * NxBFT: the DAGs a program can build

    [dag_built q d]: [d] was built by [Dag_new], [Dag_new_round], insertions of
    vertices whose parents are known and number at least [q], deliveries, and
    searches for a path above what was explored before.  The invariants of
    [NxDagGraph] and [NxDagSearch] hold for every such DAG, by induction on how
    it was built.  [build] builds one from a list of vertices. *)

From Stdlib Require Import ZArith Lia.
From stdpp Require Import base list gmap sets numbers option relations.
From S2P Require Import Prelude Ids Heaps NxBase NxDag NxDagFacts NxDagGraph NxDagSearch NxDagPath NxCommit.

Section built.
  Context {P : Profile}.
  Context {B : Type} `{BitSetLaws B}.
  Context {Tx Sig : Type}.
  Implicit Types (d : Dag B Tx Sig) (x : Vertex B Tx Sig).

(** Whether every parent of [x] is in the DAG. *)
Definition parents_known (d : Dag B Tx Sig) (x : Vertex B Tx Sig) : bool :=
  forallb (fun c => match Dag_knows d (mkDagAddress (Vertex_round x - 1) c) with
                    | Val true => true
                    | _ => false
                    end) (IdSet_iter (Vertex_edges x)).

Inductive dag_built (q : N) : Dag B Tx Sig -> Prop :=
| built_new n d : is_u64 n -> Dag_new n = Val d -> dag_built q d
| built_round d d' : dag_built q d -> is_u64 (dag_max_round d + 1) -> Dag_new_round d = Val d' ->
    dag_built q d'
| built_insert d x d' : dag_built q d -> parents_known d x = true ->
    ((1 < Vertex_round x)%N -> (q <= Vertex_num_edges x)%N) -> Dag_insert d x = Val d' ->
    dag_built q d'
| built_deliver d a out d' : dag_built q d -> Dag_deliver_from d a 0 = Val (out, d') ->
    dag_built q d'
| built_path d a b r d' : dag_built q d ->
    (dag_explored_from d < da_round b \/ da_round a <= dag_explored_from d)%N ->
    Dag_has_path d a b = Val (r, d') -> dag_built q d'.

Record built_inv (q : N) (d : Dag B Tx Sig) : Prop := {
  bi_dag : Dag_inv d;
  bi_offset : dag_offset d = 1%N;
  bi_reach : Reach_inv d;
  bi_bound : explored_bound d;
  bi_closed : delivered_closed d;
  bi_edges : quorum_edges d q;
}.

(** A change of marks. *)
Lemma built_inv_same q d d' :
  built_inv q d -> same_graph d d' -> explored_bound d' -> delivered_closed d' -> built_inv q d'.
Proof.
  intros [] Hg Hb Hc. split; try done.
  - by eapply same_graph_inv.
  - by rewrite (sg_offset _ _ Hg).
  - by eapply same_graph_Reach.
  - intros a v Hv Hr. apply (same_graph_Some_inv _ _ _ _ Hg) in Hv as (w & Hw & Hx & _).
    rewrite Hx. by apply (bi_edges0 a).
Qed.

Lemma insert_needs d x d' :
  Dag_shape d -> Dag_insert d x = Val d' ->
  present d (Vertex_address x) = None /\ (dag_offset d <= Vertex_round x <= dag_max_round d)%N
  /\ (Vertex_creator x < dag_n d)%N.
Proof.
  intros Hs Hins.
  destruct (N.lt_ge_cases (Vertex_creator x) (dag_n d)) as [Hc|Hc].
  2:{ unfold Dag_insert in Hins. by rewrite knows_bad_creator in Hins. }
  destruct (decide (dag_offset d <= Vertex_round x <= dag_max_round d)%N) as [Hr|Hr].
  2:{ rewrite dag_insert_out_of_range in Hins; [done|done|done|].
      change (Vertex_round x) with (da_round (Vertex_address x)) in Hr. lia. }
  split; [|done]. unfold Dag_insert in Hins. rewrite knows_present in Hins by done. simpl in Hins.
  destruct (present d (Vertex_address x)); [|done]. by rewrite bool_decide_eq_true_2 in Hins.
Qed.

Lemma knows_true d a :
  Dag_shape d -> Dag_knows d a = Val true -> (da_creator a < dag_n d)%N /\ is_Some (present d a).
Proof.
  intros Hs. destruct (N.lt_ge_cases (da_creator a) (dag_n d)) as [Hc|Hc].
  - rewrite knows_present by done. intros [= Hb]. by apply bool_decide_eq_true in Hb.
  - by rewrite knows_bad_creator.
Qed.

(** What a successful insertion with known parents says of the vertex. *)
Lemma built_insertable d x d' :
  Dag_shape d -> parents_known d x = true -> Dag_insert d x = Val d' -> insertable d x.
Proof.
  intros Hs Hpar Hins. destruct (insert_needs d x d' Hs Hins) as (Hnone & Hr & Hc).
  pose proof (shape_offset d Hs). split_and!; try done; try lia. intros c Hec.
  unfold parents_known in Hpar. rewrite forallb_forall in Hpar.
  specialize (Hpar c). rewrite <-list_elem_of_In, IdSet_elem_of_iter in Hpar. specialize (Hpar Hec).
  destruct (Dag_knows d _) as [[]| |] eqn:Hk; try done.
  apply knows_true in Hk as [? ?]; [|done]. split; [done|]. split; [lia|done].
Qed.

Lemma built_inv_insert q d x d' :
  built_inv q d -> insertable d x -> ((1 < Vertex_round x)%N -> (q <= Vertex_num_edges x)%N) ->
  Dag_insert d x = Val d' -> built_inv q d'.
Proof.
  intros [Hi Ho Hr Hb Hc He] Hx Hq Hins.
  destruct (Dag_insert_spec d x Hi Hx) as (d1 & t & Hd1 & Ht & Hi1 & Hset).
  rewrite Hins in Hd1. injection Hd1 as <-. pose proof Hset as (_ & Hp & _ & Ho' & _ & Hf).
  split; rewrite ?Ho'; try done.
  - by eapply (Reach_inv_insert d d' x t).
  - intros a. unfold exploredb. rewrite Hp, Hf. case_decide; [done|]. apply Hb.
  - intros a b. unfold deliveredb at 1. rewrite Hp. case_decide as Ha; [done|]. intros Hd Hab.
    apply (dag_edge_insert _ _ x t Hi Hx Hset) in Hab as [Hab|[? _]]; [|done].
    pose proof (Hc a b Hd Hab) as Hdb. unfold deliveredb in *. rewrite Hp.
    case_decide as Hbx; [|done]. subst b. destruct Hx as [Hnone _]. by rewrite Hnone in Hdb.
  - intros a v Hv Hra. rewrite Hp in Hv. case_decide as Ha; [|by apply (He a)].
    injection Hv as <-. subst a. by apply Hq.
Qed.

Lemma built_inv_round q d d' :
  built_inv q d -> is_u64 (dag_max_round d + 1) -> Dag_new_round d = Val d' -> built_inv q d'.
Proof.
  intros [Hi Ho Hr Hb Hc He] Hu Hd.
  destruct (Dag_new_round_inv d Hi Hu) as (d1 & Hd1 & Hi1 & Hp & _ & Ho1 & _ & Hf).
  rewrite Hd in Hd1. injection Hd1 as <-.
  assert (forall a b, dag_edge d' a b <-> dag_edge d a b) as Hedge.
  { intros a b. unfold dag_edge. by setoid_rewrite Hp. }
  assert (forall a b, dag_path d' a b <-> dag_path d a b) as Hpath by (intros; by apply rtc_equiv).
  split; rewrite ?Ho1; try done.
  - intros a v l Hv. rewrite !Hpath. rewrite Hp in Hv. by apply Hr.
  - intros a. unfold exploredb. rewrite Hp, Hf. apply Hb.
  - intros a b. unfold deliveredb. rewrite !Hp, Hedge. apply Hc.
  - intros a v Hv. rewrite Hp in Hv. by apply (He a).
Qed.

(** Delivering keeps the delivered vertices closed under parents. *)
Lemma deliver_closed d a out d' :
  Dag_inv d -> dag_offset d = 1%N -> delivered_closed d -> Dag_deliver_from d a 0 = Val (out, d') ->
  same_graph d d' /\ delivered_closed d' /\ (forall b, exploredb d' b = exploredb d b)
  /\ dag_explored_from d' = dag_explored_from d.
Proof.
  intros Hi Ho Hc Hd. pose proof (inv_shape d Hi) as Hs.
  assert (is_Some (present d a)) as Ha.
  { unfold Dag_deliver_from in Hd. apply outcome_bind_inv in Hd as (k & Hk & Hd).
    apply assert_inv in Hd as [-> _]. by apply knows_true in Hk as [_ ?]. }
  destruct (Dag_deliver_from_spec d a 0 Hi) as (out1 & d1 & Hd1 & Hg & _ & Hel & Hdel & Hex & Hf);
    [by left|done|lia|].
  rewrite Hd in Hd1. injection Hd1 as <- <-. split; [done|]. split; [|done].
  intros x y Hx Hxy. apply (same_graph_edge _ _ _ _ Hg) in Hxy. rewrite Hdel in Hx |- *.
  apply orb_true_iff in Hx as [Hx|Hx]; [by rewrite (Hc x y Hx Hxy)|].
  apply bool_decide_eq_true, Hel in Hx as [Hda Hr]. destruct (deliveredb d y) eqn:Hy; [done|]. simpl.
  apply bool_decide_eq_true, Hel. split; [done|]. eapply rtc_r; [exact Hr|]. split; [done|].
  unfold deliverable. rewrite Hy. by rewrite (proj2 (N.ltb_ge _ _)) by lia.
Qed.

Lemma dag_built_inv q d : dag_built q d -> built_inv q d.
Proof.
  induction 1 as [n d Hn Hd|d d' _ IH Hu Hd|d x d' _ IH Hpar Hq Hd|d a out d' _ IH Hd|d a b r d' _ IH Hcase Hd].
  - destruct (Dag_new_inv (B:=B) (Tx:=Tx) (Sig:=Sig) n Hn) as (d1 & Hd1 & Hi & _ & Ho & _ & Hp & Hf).
    rewrite Hd in Hd1. injection Hd1 as <-. split; try done.
    + intros a v l Hv. by rewrite Hp in Hv.
    + intros a. unfold exploredb. by rewrite Hp.
    + intros a b. unfold deliveredb. by rewrite Hp.
    + intros a v Hv. by rewrite Hp in Hv.
  - by eapply built_inv_round.
  - eapply built_inv_insert; [done| |done|done]. eapply built_insertable; [apply IH|done|done].
  - destruct IH. destruct (deliver_closed d a out d') as (Hg & Hc & Hx & Hf); try done.
    eapply built_inv_same; [by split|done| |done]. intros y Hy. rewrite Hf. apply bi_bound0. by rewrite <-Hx.
  - destruct IH. pose proof (inv_shape d bi_dag0) as Hs.
    pose proof Hd as Hd0. unfold Dag_has_path in Hd0.
    apply outcome_bind_inv in Hd0 as (ka & Hka & Hd0). apply assert_inv in Hd0 as [-> Hd0].
    apply outcome_bind_inv in Hd0 as (kb & Hkb & Hd0). apply assert_inv in Hd0 as [-> Hd0].
    apply assert_inv in Hd0 as [Hlt _]. apply N.ltb_lt in Hlt.
    apply knows_true in Hka as [_ Ha]; [|done]. apply knows_true in Hkb as [_ Hb]; [|done].
    destruct (Dag_has_path_spec d a b) as (r1 & d1 & Hd1 & _ & Hg & Hbd & Hdel & _); try done.
    rewrite Hd in Hd1. injection Hd1 as <- <-. eapply built_inv_same; [by split|done|done|].
    intros x y Hx Hxy. rewrite Hdel in *. apply (bi_closed0 x); [done|]. by apply (same_graph_edge _ _ _ _ Hg).
Qed.

(** ** Building from a list of vertices *)

(** Inserts [x], opening the next round when [x] is its first vertex. *)
Definition add_vertex (q : N) (d : Dag B Tx Sig) (x : Vertex B Tx Sig) : Outcome (Dag B Tx Sig) :=
  d ← (if (Vertex_round x =? dag_max_round d + 1)%N && (dag_max_round d + 1 <? 2 ^ 64)%N
       then Dag_new_round d else Val d);
  rust_assert (parents_known d x && ((Vertex_round x <=? 1)%N || (q <=? Vertex_num_edges x)%N)) ;;
  Dag_insert d x.

Definition build (q n : N) (xs : list (Vertex B Tx Sig)) : Outcome (Dag B Tx Sig) :=
  rust_assert (n <? 2 ^ 64)%N ;;
  d ← Dag_new n;
  for_each xs d (add_vertex q).

(** A DAG just built holds vertices of the list, unmarked. *)
Definition fresh (xs : list (Vertex B Tx Sig)) (d : Dag B Tx Sig) : Prop :=
  (forall a, deliveredb d a = false) /\ dag_explored_from d = 0%N
  /\ forall a v, present d a = Some v -> vm_vertex v ∈ xs.

Lemma add_vertex_built q d x d' xs :
  dag_built q d -> fresh xs d -> add_vertex q d x = Val d' ->
  dag_built q d' /\ fresh (xs ++ [x]) d' /\ dag_n d' = dag_n d.
Proof.
  intros Hb Hf. unfold add_vertex. intros (d1 & Hd1 & (Hc & Hins)%assert_inv)%outcome_bind_inv.
  apply andb_true_iff in Hc as [Hpar Hq].
  assert (dag_built q d1 /\ fresh xs d1 /\ dag_n d1 = dag_n d) as (Hb1 & Hf1 & Hn1).
  { destruct (_ && _) eqn:E; [|by injection Hd1 as <-].
    apply andb_true_iff in E as [_ Hu%N.ltb_lt].
    split; [by eapply built_round|].
    destruct (Dag_new_round_inv d (bi_dag q d (dag_built_inv q d Hb)) Hu) as (d2 & Hd2 & _ & Hp & Hn & _ & _ & Hx).
    rewrite Hd1 in Hd2. injection Hd2 as <-. split; [|done]. destruct Hf as (Hu1 & Hu2 & Hu3).
    split; [|split].
    - intros a. unfold deliveredb. rewrite Hp. apply Hu1.
    - by rewrite Hx.
    - intros a v Hv. rewrite Hp in Hv. by eapply Hu3. }
  split.
  { eapply built_insert; [done|done| |done]. intros Hr. apply orb_true_iff in Hq as [Hq|Hq].
    - apply N.leb_le in Hq. lia.
    - by apply N.leb_le. }
  pose proof (dag_built_inv q d1 Hb1) as [Hi1 _ _ _ _ _].
  destruct (Dag_insert_spec d1 x Hi1) as (d2 & t & Hd2 & _ & _ & Hset).
  { eapply built_insertable; [apply Hi1|done|done]. }
  rewrite Hins in Hd2. injection Hd2 as <-. destruct Hset as (_ & Hp & Hn & _ & _ & Hx).
  split; [|congruence]. destruct Hf1 as (Hu1 & Hu2 & Hu3). split; [|split].
  - intros a. unfold deliveredb. rewrite Hp. case_decide; [done|]. apply Hu1.
  - by rewrite Hx.
  - intros a v Hv. rewrite Hp in Hv. apply elem_of_app. case_decide.
    + injection Hv as <-. right. set_solver.
    + left. by eapply Hu3.
Qed.

Lemma build_built q n xs d :
  build q n xs = Val d -> dag_built q d /\ fresh xs d /\ dag_n d = n.
Proof.
  unfold build. intros (Hn%N.ltb_lt & Hd)%assert_inv. apply outcome_bind_inv in Hd as (d0 & Hd0 & Hd).
  destruct (Dag_new_inv (B:=B) (Tx:=Tx) (Sig:=Sig) n Hn) as (d1 & Hd1 & _ & Hdn & _ & _ & Hp & Hf).
  rewrite Hd0 in Hd1. injection Hd1 as <-.
  assert (dag_built q d0 /\ fresh [] d0 /\ dag_n d0 = n) as (Hb & Hfr & Hn0).
  { split; [by eapply built_new|]. split; [|done]. split; [|split; [done|]].
    - intros a. unfold deliveredb. by rewrite Hp.
    - intros a v Hv. by rewrite Hp in Hv. }
  clear Hd0 Hp Hf Hdn. change xs with ([] ++ xs). revert Hb Hfr Hn0 Hd. generalize (@nil (Vertex B Tx Sig)) as ys.
  revert d0. induction xs as [|x xs IH]; intros d0 ys Hb Hfr Hn0; simpl.
  { rewrite app_nil_r. by intros [= <-]. }
  intros (d1 & Hd1 & Hd)%outcome_bind_inv.
  destruct (add_vertex_built q d0 x d1 ys Hb Hfr Hd1) as (Hb1 & Hf1 & Hn1).
  change (x :: xs) with ([x] ++ xs). rewrite app_assoc. apply (IH d1); try done. congruence.
Qed.

(** DAGs built from lists that agree on addresses are consistent. *)
Lemma build_consistent q1 q2 n1 n2 xs1 xs2 d1 d2 :
  build q1 n1 xs1 = Val d1 -> build q2 n2 xs2 = Val d2 ->
  (forall x y, x ∈ xs1 -> y ∈ xs2 -> Vertex_address x = Vertex_address y -> x = y) ->
  consistent d1 d2.
Proof.
  intros Hb1%build_built Hb2%build_built Hag a v1 v2 Hv1 Hv2.
  destruct Hb1 as (Hb1 & (_ & _ & Hf1) & _), Hb2 as (Hb2 & (_ & _ & Hf2) & _).
  apply Hag; [by eapply Hf1|by eapply Hf2|].
  pose proof (shape_address d1 (inv_shape _ (bi_dag _ _ (dag_built_inv _ _ Hb1))) _ _ Hv1).
  pose proof (shape_address d2 (inv_shape _ (bi_dag _ _ (dag_built_inv _ _ Hb2))) _ _ Hv2). congruence.
Qed.
End built.
