(* ===== verification/NxDecide.v ===== *)
(** * NxBFT: deciding a wave

    What [wave_ready] computes: [leaders_loop] is the [walk] of [NxCommit], the
    count of the commit rule is the number of vertices of the wave's last round
    with a path to the leader, [deliver_leaders] delivers the histories of the
    leaders one after the other. *)

From Stdlib Require Import ZArith Lia.
From stdpp Require Import base list gmap sets numbers option relations sorting.
From S2P Require Import Prelude Ids Heaps Requests NxBase NxDag NxDagFacts NxDagGraph NxDagSearch NxDagPath.
From S2P Require Import NxEnclave NxMessages NxReplica NxCommit.

Section decide.
  Context {P : Profile} {B Tx Enc : Type}.
  Context `{BitSetLaws B} `{Digests} `{Enclave B Enc} `{Transaction Tx} `{Hashbar Tx}.
  Context `{EqDecision B, EqDecision Tx}.
  Implicit Types (d : Dag B Tx (Signature Enc)) (s : NxBft B Tx Enc).

(** ** Rounds and waves *)

Lemma round_spec w k :
  (1 <= w)%N -> (1 <= k <= 4)%N -> is_u64 (4 * w) -> round w k = Val (4 * (w - 1) + k)%N.
Proof.
  intros Hw Hk Hu. unfold round. unfold is_u64 in Hu.
  rewrite (proj2 (N.ltb_lt 0 k)), (proj2 (N.ltb_lt k 5)) by lia. simpl.
  unfold id_sub, as_u64. rewrite u64_sub_Val by lia. simpl.
  rewrite u64_mul_Val by lia. simpl. by rewrite u64_add_Val by lia.
Qed.

(** ** The walk *)

Lemma same_graph_walk d d' coin low v w ls :
  same_graph d d' -> walk d' coin low v w ls -> walk d coin low v w ls.
Proof.
  intros Hg Hw. induction Hw as [v w Hle|v w ls Hlt Hp Hpath _ IH|v w ls Hlt Hno _ IH].
  - by apply walk_done.
  - apply (same_graph_is_Some d d') in Hp; [|done]. apply (same_graph_path d d') in Hpath; [|done].
    by apply walk_take.
  - apply walk_skip; [done| |done].
    by rewrite <-(same_graph_is_Some d d'), <-(same_graph_path d d') by done.
Qed.

(** What has been explored lies below the waves still to be looked at, or covers [v]. *)
Definition explored_ok (d : Dag B Tx (Signature Enc)) (low : N) (v : DagAddress) : Prop :=
  (forall w, (low < w)%N -> (dag_explored_from d < 4 * (w - 1) + 1)%N)
  \/ (da_round v <= dag_explored_from d)%N.

Lemma leaders_loop_spec fuel coins coin low d v stack waves w :
  Dag_inv d -> dag_offset d = 1%N -> explored_bound d -> is_Some (present d v) ->
  explored_ok d low v -> is_u64 (4 * (w + 1)) -> (4 * w < da_round v)%N ->
  (forall w', (low < w' <= w)%N -> coins !! w' = Some (coin w') /\ (coin w' < dag_n d)%N) ->
  N.to_nat (w - low) < fuel ->
  exists ls ws d', leaders_loop fuel coins low d v stack waves w = Val (rev ls ++ stack, waves ++ ws, d')
    /\ walk d coin low v w ls /\ ls = leader_of coin <$> ws
    /\ same_graph d d' /\ explored_bound d' /\ (forall b, deliveredb d' b = deliveredb d b)
    /\ (dag_explored_from d' <= N.max (dag_explored_from d) (da_round v))%N.
Proof.
  revert d v stack waves w.
  induction fuel as [|fuel IH]; intros d v stack waves w Hi Ho Hex Hv Hok Hu Hwv Hcoins Hf; [lia|]. simpl.
  destruct (N.ltb_spec low w) as [Hlt|Hge].
  2:{ exists [], [], d. rewrite app_nil_r. split; [done|]. split; [by apply walk_done|]. split; [done|].
      split; [by apply same_graph_refl, Hi|]. split; [done|]. split; [done|]. lia. }
  rewrite round_spec by (unfold is_u64 in *; lia). simpl.
  destruct (Hcoins w) as [-> Hcn]; [lia|]. simpl. unfold DagAddress_new.
  change (mkDagAddress (4 * (w - 1) + 1) (coin w)) with (leader_of coin w).
  rewrite knows_present by (done || apply Hi). simpl.
  assert (is_u64 (4 * (w - 1 + 1))) as Hu' by (unfold is_u64 in *; lia).
  assert (id_sub_assign w 1 = Val (w - 1)%N) as Hsub1.
  { unfold id_sub_assign. by rewrite u64_sub_Val by lia. }
  assert (forall d', dag_n d' = dag_n d -> forall w', (low < w' <= w - 1)%N ->
    coins !! w' = Some (coin w') /\ (coin w' < dag_n d')%N) as Hcoins'.
  { intros d' -> w' Hw'. apply Hcoins. lia. }
  case_bool_decide as Hk.
  - destruct (Dag_has_path_spec d v (leader_of coin w)) as (r & d1 & Hr & Hpath & Hg & Hex1 & Hdel & Hfrom);
      try done.
    { simpl. lia. }
    { destruct Hok as [Hok|Hok]; [left; simpl; by apply Hok|by right]. }
    rewrite Hr. simpl. rewrite Hsub1. simpl.
    pose proof (same_graph_inv _ _ Hg Hi) as Hi1.
    pose proof (sg_offset _ _ Hg) as Ho1. rewrite Ho in Ho1.
    destruct r.
    + destruct (IH d1 (leader_of coin w) (leader_of coin w :: stack) (waves ++ [w]) (w - 1)%N)
        as (ls & ws & d2 & Hl & Hw & Hls & Hg2 & Hex2 & Hdel2 & Hfrom2); try done.
      * by apply (same_graph_is_Some d d1).
      * right. rewrite Hfrom. simpl. lia.
      * simpl. lia.
      * apply Hcoins', Hg.
      * lia.
      * exists (leader_of coin w :: ls), (w :: ws), d2. rewrite Hl. simpl. rewrite <-!app_assoc. simpl.
        split; [done|]. split.
        { apply walk_take; [done|done|by apply Hpath|]. by eapply same_graph_walk. }
        split; [by rewrite Hls|]. split; [by eapply same_graph_trans|]. split; [done|].
        split; [intros b; by rewrite Hdel2, Hdel|]. rewrite Hfrom in Hfrom2. simpl in Hfrom2. lia.
    + destruct (IH d1 v stack waves (w - 1)%N)
        as (ls & ws & d2 & Hl & Hw & Hls & Hg2 & Hex2 & Hdel2 & Hfrom2); try done.
      * by apply (same_graph_is_Some d d1).
      * right. rewrite Hfrom. lia.
      * lia.
      * apply Hcoins', Hg.
      * lia.
      * exists ls, ws, d2. rewrite Hl. split; [done|]. split.
        { apply walk_skip; [done| |by eapply same_graph_walk]. intros [_ Hp].
          apply Hpath in Hp. done. }
        split; [done|]. split; [by eapply same_graph_trans|]. split; [done|].
        split; [intros b; by rewrite Hdel2, Hdel|]. rewrite Hfrom in Hfrom2. lia.
  - rewrite Hsub1. simpl.
    destruct (IH d v stack waves (w - 1)%N) as (ls & ws & d2 & Hl & Hw & Hrest); try done.
    + lia.
    + by apply Hcoins'.
    + lia.
    + exists ls, ws, d2. rewrite Hl. split; [done|]. split; [|done].
      apply walk_skip; [done| |done]. by intros [? _].
Qed.

(** ** The commit rule *)

(** The vertex at [a] reaches the leader, by its [reaches] set. *)
Definition reachesb (d : Dag B Tx (Signature Enc)) (leader : N) (a : DagAddress) : bool :=
  from_option (fun v => VertexWithMeta_reaches v leader) false (present d a).

Lemma count_reaching_filter d vas leader c :
  Dag_shape d -> (forall a, a ∈ vas -> is_Some (present d a)) ->
  (c + N.of_nat (length vas) < 2 ^ 64)%N ->
  for_each vas c (fun c va => b ← Dag_reaches d va leader; if b : bool then u64_add c 1 else Val c)
  = Val (c + N.of_nat (length (List.filter (reachesb d leader) vas)))%N.
Proof.
  intros Hs. revert c. induction vas as [|a vas IH]; intros c Hp Hc; simpl.
  { by rewrite N.add_0_r. }
  destruct (Hp a) as [v Hv]; [set_solver|]. simpl in Hc.
  assert (Dag_reaches d a leader = Val (VertexWithMeta_reaches v leader)) as ->.
  { unfold Dag_reaches. by destruct (get_some d a v Hs Hv) as (-> & _ & _). }
  unfold reachesb at 1. rewrite Hv. simpl. destruct (VertexWithMeta_reaches v leader); simpl.
  - rewrite u64_add_Val by lia. simpl. rewrite IH; [f_equal; lia|set_solver|lia].
  - rewrite IH; [done|set_solver|lia].
Qed.

(** The count of [wave_ready] is the number of vertices of the wave's last round
    with a path to the vertex of [leader] in the wave's first round. *)
Lemma count_reaching_spec d w leader vas :
  Dag_inv d -> Reach_inv d -> (1 <= w)%N -> Dag_get_round d (4 * w) = Val vas ->
  exists S : gset N, count_reaching d vas leader = Val (N.of_nat (size S))
    /\ forall c, c ∈ S <-> is_Some (present d (mkDagAddress (4 * w) c))
         /\ dag_path d (mkDagAddress (4 * w) c) (mkDagAddress (4 * (w - 1) + 1) leader).
Proof.
  intros Hi Hreach Hw Hvas. pose proof (inv_shape d Hi) as Hs.
  destruct (get_round_present d (4 * w) Hs) as (l & Hl & Hel & _).
  rewrite Hvas in Hl. injection Hl as <-. pose proof (get_round_nodup d _ _ Hs Hvas) as Hnd.
  assert (forall c, mkDagAddress (4 * w) c ∈ vas <-> is_Some (present d (mkDagAddress (4 * w) c))) as Hc.
  { intros c. rewrite Hel. simpl. tauto. }
  set (vs := List.filter (reachesb d leader) vas).
  exists (list_to_set (da_creator <$> vs)). split.
  - unfold count_reaching. rewrite count_reaching_filter; [|done|by intros a [_ ?]%Hel|].
    + rewrite N.add_0_l. fold vs. do 2 f_equal. rewrite size_list_to_set; [by rewrite length_fmap|].
      apply NoDup_fmap_2_strong.
      * intros [r1 c1] [r2 c2] Ha1 Ha2 Hcc. simpl in Hcc. subst c2.
        apply list_elem_of_In, List.filter_In in Ha1 as [Ha1%list_elem_of_In%Hel _].
        apply list_elem_of_In, List.filter_In in Ha2 as [Ha2%list_elem_of_In%Hel _].
        simpl in *. f_equal. destruct Ha1, Ha2. congruence.
      * apply NoDup_ListNoDup, List.NoDup_filter. by apply NoDup_ListNoDup.
    + rewrite N.add_0_l. eapply N.le_lt_trans; [|apply (shape_n d Hs)].
      assert (length vas <= N.to_nat (dag_n d)); [|lia].
      rewrite <-(length_fmap da_creator). rewrite <-(N.sub_0_r (dag_n d)), <-length_range.
      apply submseteq_length, NoDup_submseteq.
      * apply NoDup_fmap_2_strong; [|done]. intros [r1 c1] [r2 c2] [Ha1 _]%Hel [Ha2 _]%Hel. simpl in *. congruence.
      * intros c (a & -> & [_ [v Hv]]%Hel)%list_elem_of_fmap. apply elem_of_range.
        apply present_in in Hv; [|done]. lia.
  - intros c. rewrite elem_of_list_to_set, list_elem_of_fmap. unfold vs.
    assert (((4 * w) mod 4 = 0)%N) as Hmod by (rewrite N.mul_comm; by apply N.Div0.mod_mul).
    split.
    + intros (a & -> & Ha). apply list_elem_of_In, List.filter_In in Ha as [Ha%list_elem_of_In Hr].
      apply Hel in Ha as [Hra [v Hv]]. destruct a as [r c]. simpl in *. subst r.
      split; [by eauto|]. unfold reachesb in Hr. rewrite Hv in Hr. simpl in Hr.
      apply elem_of_to_gset in Hr. apply (Hreach _ _ leader Hv) in Hr; [|done]. simpl in Hr.
      by replace (4 * (w - 1) + 1)%N with (4 * w - 3)%N by lia.
    + intros [[v Hv] Hp]. exists (mkDagAddress (4 * w) c). split; [done|].
      apply list_elem_of_In, List.filter_In. split.
      * apply list_elem_of_In, Hc. by eauto.
      * unfold reachesb. rewrite Hv. simpl. apply elem_of_to_gset. apply (Hreach _ _ leader Hv); [done|].
        simpl. by replace (4 * w - 3)%N with (4 * (w - 1) + 1)%N by lia.
Qed.

(** ** Delivering histories *)

(** The replica after delivering [txs]. *)
Definition delivered (s : NxBft B Tx Enc) (txs : list Tx) : NxBft B Tx Enc :=
  let r := dedup (nx_client_last_request s) txs in
  s.[nx_client_last_request := r.1]
   .[nx_output := (nx_output s).[uo_delivery := uo_delivery (nx_output s) ++ r.2]].

Lemma delivered_nil s : delivered s [] = s.
Proof. unfold delivered. simpl. rewrite app_nil_r. destruct s. simpl. by destruct nx_output. Qed.

Lemma delivered_app s txs1 txs2 : delivered (delivered s txs1) txs2 = delivered s (txs1 ++ txs2).
Proof. unfold delivered. rewrite dedup_app. simpl. by rewrite app_assoc. Qed.

Lemma deliver_transactions_spec s txs : deliver_transactions txs s = Val ((), delivered s txs).
Proof.
  unfold deliver_transactions. revert s. induction txs as [|tx txs IH]; intros s.
  { simpl. by rewrite delivered_nil. }
  change (tx :: txs) with ([tx] ++ txs). rewrite <-delivered_app, <-IH. simpl.
  unfold mbind, St_bind, self, modify. simpl. unfold delivered. rewrite dedup_cons, deliver_tx_spec.
  destruct (_ <=? _)%N; simpl; [done|]. rewrite app_nil_r. destruct s. simpl. by destruct nx_output.
Qed.

(** The transactions of the vertices at [vas]. *)
Definition history_txs (d : Dag B Tx (Signature Enc)) (vas : list DagAddress) : list Tx :=
  concat ((fun a => from_option (fun v => v_transactions (vm_vertex v)) [] (present d a)) <$> vas).

Lemma history_txs_same d d' vas : same_graph d d' -> history_txs d' vas = history_txs d vas.
Proof.
  intros Hg. unfold history_txs. f_equal. apply list_fmap_ext. intros i a _. simpl.
  pose proof (sg_present _ _ Hg a) as Ha.
  destruct (present d' a), (present d a); simpl in *; congruence.
Qed.

Lemma history_txs_app d vas1 vas2 : history_txs d (vas1 ++ vas2) = history_txs d vas1 ++ history_txs d vas2.
Proof. unfold history_txs. by rewrite fmap_app, concat_app. Qed.

Lemma deliver_vertices_spec s vas :
  Dag_shape (nx_dag s) -> (forall a, a ∈ vas -> is_Some (present (nx_dag s) a)) ->
  st_for vas (fun va =>
    x ← inspect (fun s : NxBft B Tx Enc => Dag_index (nx_dag s) va);
    deliver_transactions (v_transactions x)) s
  = Val ((), delivered s (history_txs (nx_dag s) vas)).
Proof.
  intros Hs. revert s Hs. induction vas as [|a vas IH]; intros s Hs Hp.
  { by rewrite delivered_nil. }
  destruct (Hp a) as [v Hv]; [set_solver|]. simpl.
  assert (Dag_index (nx_dag s) a = Val (vm_vertex v)) as Hidx.
  { unfold Dag_index. by destruct (get_some (nx_dag s) a v Hs Hv) as (_ & -> & _). }
  erewrite st_bind_Val.
  2:{ erewrite st_bind_Val by by apply inspect_Val. apply deliver_transactions_spec. }
  rewrite IH; [|done|set_solver].
  rewrite delivered_app. unfold history_txs. simpl. by rewrite Hv.
Qed.

(** Delivering the histories of [ls] in order, on the DAG alone. *)
Fixpoint deliver_all (d : Dag B Tx (Signature Enc)) (ls : list DagAddress)
    : Outcome (list DagAddress * Dag B Tx (Signature Enc)) :=
  match ls with
  | [] => Val ([], d)
  | l :: ls =>
      r ← Dag_deliver_from d l 0;
      r' ← deliver_all r.2 ls;
      Val (r.1 ++ r'.1, r'.2)
  end.

(** What delivering from one vertex does to a DAG whose delivered vertices are closed. *)
Lemma deliver_from_history d l :
  Dag_inv d -> dag_offset d = 1%N -> delivered_closed d -> is_Some (present d l) ->
  exists out d', Dag_deliver_from d l 0 = Val (out, d') /\ same_graph d d' /\ NoDup out
    /\ (forall b, b ∈ out <-> deliveredb d b = false /\ dag_path d l b)
    /\ (forall b, deliveredb d' b = deliveredb d b || bool_decide (b ∈ out))
    /\ delivered_closed d' /\ (forall b, exploredb d' b = exploredb d b)
    /\ dag_explored_from d' = dag_explored_from d.
Proof.
  intros Hi Ho Hcl Hl.
  destruct (Dag_deliver_from_spec d l 0 Hi) as (out & d' & Hd & Hg & Hnd & Hel & Hdel & Hex & Hfrom);
    [by left|done|lia|].
  assert (forall b, b ∈ out <-> deliveredb d b = false /\ dag_path d l b) as Hout.
  { intros b. rewrite Hel. split.
    - intros [Hl0 Hr]. apply deliver_step_path in Hr as [? ?]; done.
    - intros [Hb Hp]. assert (deliveredb d l = false) as Hl0.
      { destruct (deliveredb d l) eqn:E; [|done].
        pose proof (delivered_closed_path d l b Hcl Hp E). congruence. }
      split; [done|]. by apply deliver_step_path. }
  exists out, d'. repeat (split; [done|]). split; [|done].
  intros a b Ha Hab. apply (same_graph_edge d d') in Hab; [|done].
  rewrite Hdel in Ha |- *. apply orb_true_iff in Ha as [Ha|Ha].
  - by rewrite (Hcl a b Ha Hab).
  - apply bool_decide_eq_true, Hout in Ha as [_ Hp]. destruct (deliveredb d b) eqn:Hb; [done|]. simpl.
    apply bool_decide_eq_true, Hout. split; [done|]. by eapply rtc_r.
Qed.

Lemma deliver_all_spec d ls :
  Dag_inv d -> dag_offset d = 1%N -> delivered_closed d -> (forall l, l ∈ ls -> is_Some (present d l)) ->
  exists out d', deliver_all d ls = Val (out, d') /\ same_graph d d' /\ NoDup out
    /\ (forall b, b ∈ out <-> deliveredb d b = false /\ exists l, l ∈ ls /\ dag_path d l b)
    /\ (forall b, deliveredb d' b = deliveredb d b || bool_decide (b ∈ out))
    /\ delivered_closed d' /\ (forall b, exploredb d' b = exploredb d b)
    /\ dag_explored_from d' = dag_explored_from d.
Proof.
  revert d. induction ls as [|l ls IH]; intros d Hi Ho Hcl Hls; simpl.
  { exists [], d. split; [done|]. split; [by apply same_graph_refl, Hi|]. split; [constructor|].
    split; [set_solver|]. split; [|done]. intros b. by rewrite bool_decide_eq_false_2, orb_false_r by set_solver. }
  destruct (deliver_from_history d l Hi Ho Hcl) as (o1 & d1 & -> & Hg1 & Hn1 & He1 & Hd1 & Hc1 & Hx1 & Hf1);
    [apply Hls; set_solver|]. simpl.
  destruct (IH d1) as (o2 & d2 & -> & Hg2 & Hn2 & He2 & Hd2 & Hc2 & Hx2 & Hf2).
  { by eapply same_graph_inv. }
  { by rewrite (sg_offset _ _ Hg1). }
  { done. }
  { intros x Hx. apply (same_graph_is_Some d d1); [done|]. apply Hls. set_solver. }
  simpl. assert (forall b, b ∈ o1 ++ o2 <-> deliveredb d b = false /\ exists x, x ∈ l :: ls /\ dag_path d x b) as Hel.
  { intros b. rewrite elem_of_app, He1, He2, Hd1.
    setoid_rewrite (fun x y => same_graph_path d d1 x y Hg1).
    rewrite orb_false_iff, bool_decide_eq_false, He1.
    destruct (deliveredb d b) eqn:Hdb; [naive_solver|].
    setoid_rewrite elem_of_cons. split.
    - intros [[_ ?]|[_ (x & ? & ?)]]; (split; [done|]); eauto.
    - intros [_ (x & [->|Hx] & Hp)]; [by left|].
      destruct (decide (b ∈ o1)) as [Hb|Hb]; [left; by apply He1 in Hb as [_ ?]|].
      right. split; [|by eauto]. split; [done|]. intros Hno. apply Hb, He1. split; [done|apply Hno]. }
  exists (o1 ++ o2), d2. split; [done|]. split; [by eapply same_graph_trans|]. split.
  { apply NoDup_app. split; [done|]. split; [|done]. intros b Hb1 Hb2. apply He2 in Hb2 as [Hb2 _].
    rewrite Hd1, bool_decide_eq_true_2, orb_true_r in Hb2 by done. done. }
  split; [done|]. split.
  { intros b. rewrite Hd2, Hd1, <-orb_assoc. f_equal.
    rewrite <-bool_decide_or. apply bool_decide_ext. by rewrite elem_of_app. }
  split; [done|]. split; [intros b; by rewrite Hx2, Hx1|]. by rewrite Hf2, Hf1.
Qed.

(** [deliver_leaders] delivers the histories and the transactions in them. *)
Lemma deliver_leaders_spec s ls order out d' :
  Dag_inv (nx_dag s) -> dag_offset (nx_dag s) = 1%N -> delivered_closed (nx_dag s) ->
  (forall l, l ∈ ls -> is_Some (present (nx_dag s) l)) -> deliver_all (nx_dag s) ls = Val (out, d') ->
  deliver_leaders ls order s
  = Val (order ++ out, (delivered s (history_txs (nx_dag s) out)).[nx_dag := d']).
Proof.
  revert s order out. induction ls as [|l ls IH]; intros s order out Hi Ho Hcl Hls;
    cbn [deliver_leaders deliver_all].
  { intros [= <- <-]. change (history_txs (nx_dag s) []) with ([] : list Tx).
    rewrite app_nil_r, delivered_nil. by destruct s. }
  destruct (deliver_from_history (nx_dag s) l Hi Ho Hcl) as (o1 & d1 & Hd1 & Hg1 & _ & He1 & _ & Hc1 & _);
    [apply Hls; set_solver|]. rewrite Hd1. simpl.
  destruct (deliver_all d1 ls) as [[o2 d2]| |] eqn:Hall; simpl; try done. intros [= <- <-].
  erewrite st_bind_Val by by apply zoom_Val.
  erewrite st_bind_Val.
  2:{ apply deliver_vertices_spec; [apply Hg1|].
      intros a Ha%He1. simpl. apply (same_graph_is_Some _ _ _ Hg1).
      eapply dag_path_present; [apply Ha|]. apply Hls. set_solver. }
  set (s1 := delivered _ _).
  assert (nx_dag s1 = d1) as Hs1 by done.
  rewrite (IH s1 (order ++ o1) o2); rewrite ?Hs1; try done.
  - rewrite <-app_assoc. f_equal. f_equal. unfold s1. simpl.
    rewrite !(history_txs_same _ d1) by done. rewrite history_txs_app.
    rewrite dedup_app. simpl. by rewrite app_assoc.
  - by eapply same_graph_inv.
  - by rewrite (sg_offset _ _ Hg1).
  - intros x Hx. apply (same_graph_is_Some _ _ _ Hg1), Hls. set_solver.
Qed.

(** ** [wave_ready] *)

(** What [wave_ready] relies on: the DAG's invariants, nothing explored above the
    last decision, and a coin for every wave since then. *)
Record wave_inv (s : NxBft B Tx Enc) (coin : N -> N) (wave : N) : Prop := {
  wi_dag : Dag_inv (nx_dag s);
  wi_offset : dag_offset (nx_dag s) = 1%N;
  wi_reach : Reach_inv (nx_dag s);
  wi_bound : explored_bound (nx_dag s);
  wi_closed : delivered_closed (nx_dag s);
  wi_explored : forall w, (nx_decided_wave s < w)%N ->
    (dag_explored_from (nx_dag s) < 4 * (w - 1) + 1)%N;
  wi_coins : forall w, (nx_decided_wave s < w < wave)%N ->
    nx_pending_wave_coins s !! w = Some (coin w) /\ (coin w < dag_n (nx_dag s))%N;
}.

(** The proof handed to the toss. *)
Definition wave_proof (s : NxBft B Tx Enc) : Outcome (list (SignedVertex B (Signature Enc))) :=
  vas ← Dag_get_round (nx_dag s) (nx_round s); round_proof (nx_dag s) vas.

Lemma round_proof_Val d vas :
  Dag_shape d -> (forall a, a ∈ vas -> is_Some (present d a)) ->
  exists proof, round_proof d vas = Val proof
    /\ forall x, x ∈ proof <-> exists a v, a ∈ vas /\ present d a = Some v /\ x = v_signed (vm_vertex v).
Proof.
  intros Hs. induction vas as [|a vas IH]; intros Hp; simpl.
  { exists []. split; [done|]. intros x. split; [set_solver|]. intros (a & v & Ha & _). set_solver. }
  destruct (Hp a) as [v Hv]; [set_solver|].
  destruct IH as (proof & -> & Hel); [set_solver|].
  unfold Dag_index. destruct (get_some d a v Hs Hv) as (_ & -> & _). simpl.
  exists (v_signed (vm_vertex v) :: proof). split; [done|]. intros x. rewrite elem_of_cons, Hel. split.
  - intros [->|(b & w & Hb & Hw & ->)]; [exists a, v|exists b, w]; set_solver.
  - intros (b & w & [->|Hb]%elem_of_cons & Hw & ->); [left; congruence|right; eauto].
Qed.

(** The toss is given the vertices of the round, no more and no less. *)
Lemma wave_proof_Val s :
  Dag_shape (nx_dag s) ->
  exists proof, wave_proof s = Val proof
    /\ forall x, x ∈ proof <-> exists a v, da_round a = nx_round s
         /\ present (nx_dag s) a = Some v /\ x = v_signed (vm_vertex v).
Proof.
  intros Hs. unfold wave_proof.
  destruct (get_round_present (nx_dag s) (nx_round s) Hs) as (vas & -> & Hel & _). simpl.
  destruct (round_proof_Val (nx_dag s) vas Hs) as (proof & -> & Hx); [by intros a [_ ?]%Hel|].
  exists proof. split; [done|]. intros x. rewrite Hx. split; intros (a & v & Ha & Hv & ->); exists a, v.
  - by apply Hel in Ha as [? _].
  - split; [|done]. apply Hel. eauto.
Qed.

(** The state after the toss, and its emission of one consensus message. *)
Definition tossed (s : NxBft B Tx Enc) (wave leader : N) (e : Enc) : NxBft B Tx Enc :=
  s.[nx_enclave := e].[nx_pending_wave_coins ::= insert wave leader].
Definition emit (m : StateMessage B Enc) (s : NxBft B Tx Enc) : NxBft B Tx Enc :=
  s.[nx_output ::= UnreflectedOutput_state_message m].

(** A quorum of the wave's last round reaches the leader, as the code counts. *)
Lemma decides_count d quorum coin w vas :
  Dag_inv d -> Reach_inv d -> (1 <= w)%N -> Dag_get_round d (4 * w) = Val vas ->
  is_Some (present d (leader_of coin w)) ->
  exists k, count_reaching d vas (coin w) = Val k /\ ((quorum <= k)%N <-> decides d quorum coin w).
Proof.
  intros Hi Hr Hw Hvas Hl. destruct (count_reaching_spec d w (coin w) vas Hi Hr Hw Hvas) as (S & -> & HS).
  eexists. split; [done|]. unfold decides. split.
  - intros Hq. split; [done|]. split; [done|]. exists S. split; [|done].
    intros c Hc. apply HS in Hc as [[v Hv] Hp]. split; [|eauto].
    by apply present_in in Hv as [_ ?]; [|apply Hi].
  - intros (_ & _ & S' & HS' & Hq). etransitivity; [exact Hq|].
    assert (S' ⊆ S) as Hsub%subseteq_size; [|lia].
    intros c Hc. apply HS. by apply HS' in Hc as (_ & ? & ?).
Qed.

(** The toss, on a round of a wave's end. *)
Lemma wave_ready_toss clock s w proof leader e :
  nx_round s = (4 * w)%N -> (1 <= w)%N ->
  wave_proof s = Val proof -> enc_toss (nx_enclave s) proof = Val (Ok leader, e) ->
  wave_ready clock s = commit_rule clock w leader (tossed s w leader e).
Proof.
  intros Hround Hw Hproof Htoss. unfold wave_ready. erewrite st_bind_Val by done.
  assert ((4 <=? as_u64 (nx_round s))%N = true) as Hge by (apply N.leb_le; unfold as_u64; lia).
  erewrite st_bind_Val by (apply lift_Val; by rewrite Hge).
  erewrite st_bind_Val by (apply lift_Val; unfold Wave_from; by rewrite Hge).
  replace (from_u64 (as_u64 (nx_round s) / 4)) with w.
  2:{ unfold from_u64, as_u64. rewrite Hround, N.mul_comm. symmetry. by apply N.div_mul. }
  erewrite st_bind_Val by (apply inspect_Val; exact Hproof).
  erewrite st_bind_Val by (apply zoom_Val; exact Htoss).
  cbn beta iota. by erewrite st_bind_Val by done.
Qed.

(** The rule itself: an unknown leader, too few vertices that reach it, or a decision. *)
Lemma commit_rule_spec clock s coin w :
  Dag_inv (nx_dag s) -> Reach_inv (nx_dag s) -> (1 <= w)%N -> is_u64 (4 * w) ->
  (coin w < dag_n (nx_dag s))%N ->
  (decides (nx_dag s) (nx_quorum s) coin w
   /\ commit_rule clock w (coin w) s = decide_wave clock w (leader_of coin w) s)
  \/ (~ decides (nx_dag s) (nx_quorum s) coin w
      /\ exists m, commit_rule clock w (coin w) s = Val ((), emit (SM_Consensus m) s)
                   /\ (m = UnknownWaveLeader \/ m = DirectCommitRuleViolated)).
Proof.
  intros Hi Hr Hw Hu Hc. pose proof (inv_shape _ Hi) as Hs. unfold commit_rule.
  erewrite st_bind_Val by (apply lift_Val, round_spec; (done || lia)).
  unfold DagAddress_new. change (mkDagAddress (4 * (w - 1) + 1) (coin w)) with (leader_of coin w).
  erewrite st_bind_Val by (apply inspect_Val, knows_present; done).
  case_bool_decide as Hl; cbn [negb].
  2:{ right. split; [by intros (_ & ? & _)|]. exists UnknownWaveLeader. split; [done|by left]. }
  erewrite st_bind_Val by (apply lift_Val, round_spec; (done || lia)).
  replace (4 * (w - 1) + 4)%N with (4 * w)%N by lia.
  destruct (get_round_present (nx_dag s) (4 * w) Hs) as (vas & Hvas & _).
  destruct (decides_count (nx_dag s) (nx_quorum s) coin w vas Hi Hr Hw Hvas Hl) as (k & Hk & Hiff).
  erewrite st_bind_Val by (apply inspect_Val; rewrite Hvas; exact Hk).
  erewrite st_bind_Val by done.
  destruct (N.ltb_spec k (nx_quorum s)) as [Hlt|Hge].
  - right. split; [intros Hd; apply Hiff in Hd; lia|].
    exists DirectCommitRuleViolated. split; [done|by right].
  - left. split; [by apply Hiff|done].
Qed.

(** A decision delivers, oldest leader first, what is not delivered yet of the
    histories of the leaders the walk meets. *)
Lemma decide_wave_spec clock s coin w :
  wave_inv s coin w -> (1 <= w)%N -> is_u64 (4 * w) -> (nx_decided_wave s < w)%N ->
  is_Some (present (nx_dag s) (leader_of coin w)) ->
  exists ls ws d1 out d2,
    walk (nx_dag s) coin (nx_decided_wave s) (leader_of coin w) (w - 1) ls
    /\ ls = leader_of coin <$> ws
    /\ deliver_all d1 (rev ls ++ [leader_of coin w]) = Val (out, d2)
    /\ same_graph (nx_dag s) d1 /\ (forall b, deliveredb d1 b = deliveredb (nx_dag s) b)
    /\ same_graph (nx_dag s) d2 /\ explored_bound d2
    /\ (dag_explored_from d2 <= 4 * (w - 1) + 1)%N
    /\ let s1 := s.[nx_ticks := S (nx_ticks s)]
                   .[nx_output ::= UnreflectedOutput_log_decision_time (clock (nx_ticks s))] in
       decide_wave clock w (leader_of coin w) s
       = Val ((), (emit (SM_Consensus (Decided (rev (w :: ws)) (rev ls ++ [leader_of coin w]) out))
                    ((delivered s1 (history_txs (nx_dag s) out)).[nx_dag := d2]))
                  .[nx_decided_wave := w].[nx_pending_wave_coins := ∅]).
Proof.
  intros [Hi Ho Hr Hb Hcl Hex Hcoins] Hw Hu Hdec Hl. unfold decide_wave.
  destruct (leaders_loop_spec (S (N.to_nat w)) (nx_pending_wave_coins s) coin (nx_decided_wave s)
    (nx_dag s) (leader_of coin w) [leader_of coin w] [w] (w - 1))
    as (ls & ws & d1 & Hloop & Hwalk & Hls & Hg1 & Hb1 & Hd1 & Hf1); try done.
  { by left. }
  { unfold is_u64 in *. lia. }
  { simpl. lia. }
  { intros w' Hw'. apply Hcoins. lia. }
  { lia. }
  assert (forall l, l ∈ rev ls ++ [leader_of coin w] -> is_Some (present d1 l)) as Hpres.
  { intros l Hin. apply (same_graph_is_Some _ _ _ Hg1).
    apply elem_of_app in Hin as [Hin|Hin%list_elem_of_singleton]; [|by subst].
    rewrite list_elem_of_In, <-in_rev, <-list_elem_of_In in Hin. by eapply walk_elem. }
  pose proof (same_graph_inv _ _ Hg1 Hi) as Hi1.
  assert (delivered_closed d1) as Hcl1.
  { intros a b Ha Hab. rewrite Hd1 in *. apply (Hcl a); [done|]. by apply (same_graph_edge _ d1). }
  assert (dag_offset d1 = 1%N) as Ho1 by by rewrite (sg_offset _ _ Hg1).
  destruct (deliver_all_spec d1 (rev ls ++ [leader_of coin w]) Hi1 Ho1 Hcl1 Hpres)
    as (out & d2 & Hall & Hg2 & _ & _ & _ & _ & Hx2 & Hf2).
  exists ls, ws, d1, out, d2. repeat (split; [done|]).
  split; [by eapply same_graph_trans|]. split.
  { intros a Ha. rewrite Hf2. apply Hb1. by rewrite <-Hx2. }
  split. { rewrite Hf2. pose proof (Hex w Hdec). simpl in Hf1. lia. }
  erewrite st_bind_Val by done. erewrite st_bind_Val by done.
  erewrite st_bind_Val by (apply lift_Val; unfold id_sub; apply u64_sub_Val; unfold as_u64; lia).
  do 3 erewrite st_bind_Val by done.
  erewrite st_bind_Val by (apply lift_Val; exact Hloop). cbn [fst snd].
  erewrite st_bind_Val by done.
  erewrite st_bind_Val.
  2:{ apply deliver_leaders_spec with (out := out) (d' := d2); try done. }
  erewrite st_bind_Val by done. erewrite st_bind_Val by done. cbn [modify]. unfold modify.
  simpl. rewrite (history_txs_same _ _ _ Hg1). done.
Qed.
(** ** Two replicas deliver in the same order *)

Lemma deliver_from_agree (Q : DagAddress -> Prop) d1 d2 l o1 e1 o2 e2 :
  Dag_inv d1 -> Dag_inv d2 -> dag_offset d1 = 1%N -> dag_offset d2 = 1%N -> agree_on Q d1 d2 ->
  (forall x y, Q x -> dag_edge d1 x y -> Q y) -> Q l ->
  Dag_deliver_from d1 l 0 = Val (o1, e1) -> Dag_deliver_from d2 l 0 = Val (o2, e2) ->
  o1 = o2 /\ agree_on Q e1 e2.
Proof.
  intros Hi1 Hi2 Ho1 Ho2 Hag HQ Hl.
  destruct (Hag l Hl) as (v1 & v2 & Hv1 & Hv2 & _ & Hdel). unfold Dag_deliver_from.
  destruct (get_some d1 l v1 (inv_shape _ Hi1) Hv1) as (-> & _ & ->).
  destruct (get_some d2 l v2 (inv_shape _ Hi2) Hv2) as (-> & _ & ->).
  generalize (search_fuel d1), (search_fuel d2). intros f1 f2. simpl.
  rewrite (proj2 (N.leb_le _ _)) by lia. simpl. unfold VertexWithMeta_is_delivered. rewrite <-Hdel.
  destruct (vm_delivered v1); [by intros [= <- <-] [= <- <-]|].
  apply (deliver_loop_agree Q); try done; try (by left). by intros b ->%list_elem_of_singleton.
Qed.

Lemma deliver_all_agree (Q : DagAddress -> Prop) d1 d2 ls o1 e1 o2 e2 :
  Dag_inv d1 -> Dag_inv d2 -> dag_offset d1 = 1%N -> dag_offset d2 = 1%N ->
  delivered_closed d1 -> delivered_closed d2 -> agree_on Q d1 d2 ->
  (forall x y, Q x -> dag_edge d1 x y -> Q y) -> (forall l, l ∈ ls -> Q l) ->
  deliver_all d1 ls = Val (o1, e1) -> deliver_all d2 ls = Val (o2, e2) ->
  o1 = o2 /\ agree_on Q e1 e2.
Proof.
  revert d1 d2 o1 o2. induction ls as [|l ls IH];
    intros d1 d2 o1 o2 Hi1 Hi2 Ho1 Ho2 Hc1 Hc2 Hag HQ Hls; simpl.
  { by intros [= <- <-] [= <- <-]. }
  assert (Q l) as Hl by (apply Hls; set_solver). destruct (Hag l Hl) as (v1 & v2 & Hv1 & Hv2 & _).
  destruct (deliver_from_history d1 l Hi1 Ho1 Hc1) as (p1 & f1 & Hd1 & Hg1 & _ & _ & _ & Hc1' & _); [eauto|].
  destruct (deliver_from_history d2 l Hi2 Ho2 Hc2) as (p2 & f2 & Hd2 & Hg2 & _ & _ & _ & Hc2' & _); [eauto|].
  destruct (deliver_from_agree Q d1 d2 l p1 f1 p2 f2) as [<- Hag']; try done.
  rewrite Hd1, Hd2. simpl.
  destruct (deliver_all f1 ls) as [[q1 g1]| |] eqn:E1; simpl; try done. intros [= <- <-].
  destruct (deliver_all f2 ls) as [[q2 g2]| |] eqn:E2; simpl; try done. intros [= <- <-].
  destruct (IH f1 f2 q1 q2) as [-> ?]; try done.
  - by eapply same_graph_inv.
  - by eapply same_graph_inv.
  - by rewrite (sg_offset _ _ Hg1).
  - by rewrite (sg_offset _ _ Hg2).
  - intros x y Hx. rewrite (same_graph_edge _ _ _ _ Hg1). by apply HQ.
  - set_solver.
Qed.

Lemma deliver_all_app d ls1 ls2 o e :
  deliver_all d (ls1 ++ ls2) = Val (o, e) ->
  exists o1 e1 o2, deliver_all d ls1 = Val (o1, e1) /\ deliver_all e1 ls2 = Val (o2, e) /\ o = o1 ++ o2.
Proof.
  revert d o. induction ls1 as [|l ls1 IH]; intros d o; simpl.
  { intros Hd. by exists [], d, o. }
  destruct (Dag_deliver_from d l 0) as [[p d1]| |]; simpl; try done.
  destruct (deliver_all d1 (ls1 ++ ls2)) as [[q e']| |] eqn:E; simpl; try done. intros [= <- <-].
  apply IH in E as (o1 & e1 & o2 & -> & He1 & ->). simpl.
  exists (p ++ o1), e1, o2. split; [done|]. split; [done|]. by rewrite app_assoc.
Qed.

(** Nothing is delivered yet. *)
Definition undelivered (d : Dag B Tx (Signature Enc)) : Prop := forall a, deliveredb d a = false.

Lemma consistent_agree d1 d2 (ls : list DagAddress) :
  Dag_inv d1 -> Dag_inv d2 -> dag_offset d2 = 1%N -> consistent d1 d2 ->
  undelivered d1 -> undelivered d2 ->
  (forall l, l ∈ ls -> is_Some (present d1 l) /\ is_Some (present d2 l)) ->
  agree_on (fun b => exists l, l ∈ ls /\ dag_path d1 l b) d1 d2.
Proof.
  intros Hi1 Hi2 Ho2 Hc Hu1 Hu2 Hls b (l & Hl & Hp). destruct (Hls l Hl) as [Hl1 Hl2].
  destruct (dag_path_present d1 l b Hp Hl1) as [v1 Hv1].
  destruct (dag_path_present d2 l b) as [v2 Hv2]; [by apply (consistent_path d1 d2)|done|].
  exists v1, v2. repeat (split; [done|]). split; [by apply (Hc b)|].
  specialize (Hu1 b). specialize (Hu2 b). unfold deliveredb in *. rewrite Hv1 in Hu1. rewrite Hv2 in Hu2.
  simpl in *. congruence.
Qed.

(** Of two decisions, the earlier one's delivery order is a prefix of the later one's. *)
Lemma order_prefix d1 d2 q coin w1 w2 ls1 ls2 o1 e1 o2 e2 :
  Dag_inv d1 -> Dag_inv d2 -> dag_offset d1 = 1%N -> dag_offset d2 = 1%N -> consistent d1 d2 ->
  dag_n d1 = dag_n d2 -> quorum_edges d2 q -> (dag_n d2 < 2 * q)%N ->
  undelivered d1 -> undelivered d2 ->
  decides d1 q coin w1 -> decides d2 q coin w2 -> (w1 <= w2)%N ->
  committed d1 coin w1 ls1 -> committed d2 coin w2 ls2 ->
  deliver_all d1 (rev ls1) = Val (o1, e1) -> deliver_all d2 (rev ls2) = Val (o2, e2) ->
  o1 `prefix_of` o2 /\ history_txs d1 o1 `prefix_of` history_txs d2 o2.
Proof.
  intros Hi1 Hi2 Ho1 Ho2 Hc Hn Hq Hq2 Hu1 Hu2 Hd1 Hd2 Hle Hl1 Hl2 Ha1 Ha2.
  destruct (committed_suffix d1 d2 q coin w1 w2 ls1 ls2) as [pre ->]; try done.
  rewrite rev_app_distr in Ha2. apply deliver_all_app in Ha2 as (p1 & f1 & p2 & Hp1 & Hp2 & ->).
  assert (forall d coin w ls, decides d q coin w -> committed d coin w ls -> forall l, l ∈ ls -> is_Some (present d l)) as Hpres.
  { intros d c w ls (_ & Hl & _) (rest & -> & Hw) l [->|Hin]%elem_of_cons; [done|]. by eapply walk_elem. }
  assert (forall l, l ∈ rev ls1 -> is_Some (present d1 l) /\ is_Some (present d2 l)) as Hboth.
  { intros l Hin. rewrite list_elem_of_In, <-in_rev, <-list_elem_of_In in Hin. split.
    - by eapply (Hpres d1).
    - eapply (Hpres d2); [done|exact Hl2|]. set_solver. }
  assert (forall d, undelivered d -> delivered_closed d) as Hclosed.
  { intros d Hu a b Ha. by rewrite Hu in Ha. }
  pose proof (consistent_agree d1 d2 (rev ls1) Hi1 Hi2 Ho2 Hc Hu1 Hu2 Hboth) as Hag.
  destruct (deliver_all_agree _ d1 d2 (rev ls1) o1 e1 p1 f1 Hi1 Hi2 Ho1 Ho2 (Hclosed _ Hu1) (Hclosed _ Hu2) Hag)
    as [<- _]; try done.
  { intros x y (l & Hl & Hp) Hxy. exists l. split; [done|]. by eapply rtc_r. }
  { intros l Hl. exists l. split; [done|]. apply rtc_refl. }
  split; [by exists p2|]. rewrite history_txs_app.
  assert (history_txs d1 o1 = history_txs d2 o1) as ->; [|by eexists].
  unfold history_txs. f_equal. apply list_fmap_ext. intros i b Hb. apply list_elem_of_lookup_2 in Hb.
  destruct (deliver_all_spec d1 (rev ls1) Hi1 Ho1 (Hclosed _ Hu1)) as (o & d' & Ho & _ & _ & Hel & _).
  { intros l Hl. by apply Hboth. }
  rewrite Ha1 in Ho. injection Ho as <- <-. apply Hel in Hb as [_ Hb].
  destruct (Hag b Hb) as (v1 & v2 & -> & -> & Hx & _). simpl. by rewrite Hx.
Qed.
End decide.
