(* ===== verification/NxOrder.v ===== *)
(** * NxBFT: the order a replica has delivered so far

    [dag_log q coin d w o]: the replica whose DAG is [d] and whose last decided
    wave is [w] has delivered the vertices [o], in this order: the histories of
    the leaders committed by one walk from [w] down to the first wave, as if
    they were delivered from an unmarked DAG.  The log survives the growth of
    the DAG, a decision extends it, and the logs of two replicas with
    consistent DAGs are prefixes of one another. *)

From Stdlib Require Import ZArith Lia.
From stdpp Require Import base list gmap sets numbers option relations.
From S2P Require Import Prelude Ids Heaps Requests NxBase NxDag NxDagFacts NxDagGraph NxDagSearch NxDagPath.
From S2P Require Import NxEnclave NxMessages NxReplica NxCommit NxDecide.

Section order.
  Context {P : Profile} {B Tx Enc : Type}.
  Context `{BitSetLaws B} `{Digests} `{Enclave B Enc} `{Transaction Tx} `{Hashbar Tx}.
  Context `{EqDecision B, EqDecision Tx}.
  Implicit Types (d : Dag B Tx (Signature Enc)).

(** ** The unmarked DAG *)

Definition unmarked (v : VertexWithMeta B Tx (Signature Enc)) : VertexWithMeta B Tx (Signature Enc) :=
  mkVM (vm_vertex v) false false (vm_reaches v).

Definition unmark (d : Dag B Tx (Signature Enc)) : Dag B Tx (Signature Enc) :=
  d.[dag_rounds := (fun r => mkRound (option_map unmarked <$> dr_vertices r)
                               (dr_valid_vertice_count r)) <$> dag_rounds d].

Lemma unmark_present d a : present (unmark d) a = unmarked <$> present d a.
Proof.
  unfold present. simpl. case_bool_decide; [|done]. rewrite list_lookup_fmap.
  destruct (dag_rounds d !! _) as [r|]; [|done]. simpl. rewrite !DagRound_get_lookup. simpl.
  rewrite list_lookup_fmap. by destruct (dr_vertices r !! _) as [[v|]|].
Qed.

Lemma omap_id_fmap {A C} (f : A -> C) (l : list (option A)) :
  length (omap id (option_map f <$> l)) = length (omap id l).
Proof. induction l as [|[a|] l IH]; csimpl; [done|by f_equal|done]. Qed.

Lemma unmark_graph d : Dag_shape d -> same_graph d (unmark d).
Proof.
  intros []. split; try done.
  - split; try done.
    + simpl. by rewrite length_fmap.
    + simpl. apply Forall_fmap. eapply Forall_impl; [exact shape_width|]. intros r. simpl.
      by rewrite length_fmap.
    + simpl. apply Forall_fmap. eapply Forall_impl; [exact shape_count|]. intros r. simpl.
      by rewrite omap_id_fmap.
    + intros a v. rewrite unmark_present. destruct (present d a) as [w|] eqn:E; [|done].
      intros [= <-]. simpl. by apply shape_address.
  - intros a. rewrite unmark_present. by destruct (present d a).
Qed.

Lemma unmark_undelivered d : undelivered (unmark d).
Proof. intros a. unfold deliveredb. rewrite unmark_present. by destruct (present d a). Qed.

Lemma undelivered_closed d : undelivered d -> delivered_closed d.
Proof. intros Hu a b Ha. by rewrite Hu in Ha. Qed.

(** ** Delivery orders *)

(** The histories of [ls], delivered one after the other, give [o]. *)
Definition ordered (d : Dag B Tx (Signature Enc)) (ls o : list DagAddress) : Prop :=
  exists e, deliver_all (unmark d) ls = Val (o, e).

Lemma ordered_det d ls o1 o2 : ordered d ls o1 -> ordered d ls o2 -> o1 = o2.
Proof. intros [e1 He1] [e2 He2]. congruence. Qed.

(** An order exists, has no duplicates, and holds exactly the histories of [ls]. *)
Lemma ordered_exists d ls :
  Dag_inv d -> dag_offset d = 1%N -> (forall l, l ∈ ls -> is_Some (present d l)) ->
  exists o e, deliver_all (unmark d) ls = Val (o, e) /\ NoDup o /\ same_graph d e
    /\ (forall b, b ∈ o <-> exists l, l ∈ ls /\ dag_path d l b)
    /\ (forall b, deliveredb e b = bool_decide (b ∈ o)).
Proof.
  intros Hi Ho Hls. pose proof (unmark_graph d (inv_shape d Hi)) as Hg.
  destruct (deliver_all_spec (unmark d) ls) as (o & e & He & Hge & Hnd & Hel & Hdel & _).
  { by eapply same_graph_inv. }
  { done. }
  { apply undelivered_closed, unmark_undelivered. }
  { intros l Hl. apply (same_graph_is_Some _ _ _ Hg). auto. }
  exists o, e. split; [done|]. split; [done|]. split; [by eapply same_graph_trans|]. split.
  - intros b. rewrite Hel, (unmark_undelivered d).
    setoid_rewrite (fun x y => same_graph_path _ _ x y Hg). naive_solver.
  - intros b. by rewrite Hdel, (unmark_undelivered d).
Qed.

Lemma ordered_present d ls o b :
  Dag_inv d -> dag_offset d = 1%N -> (forall l, l ∈ ls -> is_Some (present d l)) ->
  ordered d ls o -> b ∈ o -> is_Some (present d b).
Proof.
  intros Hi Ho Hls [e He] Hb. destruct (ordered_exists d ls Hi Ho Hls) as (o' & e' & He' & _ & _ & Hel & _).
  rewrite He in He'. injection He' as <- <-. apply Hel in Hb as (l & Hl & Hp).
  eapply dag_path_present; [exact Hp|auto].
Qed.

(** The order, and the transactions in it, depend only on the histories. *)
Lemma ordered_consistent d1 d2 ls o :
  Dag_inv d1 -> Dag_inv d2 -> dag_offset d1 = 1%N -> dag_offset d2 = 1%N -> consistent d1 d2 ->
  (forall l, l ∈ ls -> is_Some (present d1 l) /\ is_Some (present d2 l)) ->
  ordered d1 ls o -> ordered d2 ls o /\ history_txs d2 o = history_txs d1 o.
Proof.
  intros Hi1 Hi2 Ho1 Ho2 Hc Hls Hord. pose proof Hord as [e1 He1].
  pose proof (unmark_graph d1 (inv_shape d1 Hi1)) as Hg1.
  pose proof (unmark_graph d2 (inv_shape d2 Hi2)) as Hg2.
  destruct (ordered_exists d2 ls) as (o2 & e2 & He2 & _); [done|done|intros l Hl; by destruct (Hls l Hl)|].
  assert (consistent (unmark d1) (unmark d2)) as Hcu.
  { intros a v1 v2. rewrite !unmark_present.
    destruct (present d1 a) as [x|] eqn:E1, (present d2 a) as [y|] eqn:E2; try done.
    intros [= <-] [= <-]. simpl. by apply (Hc a). }
  destruct (deliver_all_agree (fun b => exists l, l ∈ ls /\ dag_path (unmark d1) l b)
    (unmark d1) (unmark d2) ls o e1 o2 e2) as [<- _]; try done.
  { by eapply same_graph_inv. }
  { by eapply same_graph_inv. }
  { apply undelivered_closed, unmark_undelivered. }
  { apply undelivered_closed, unmark_undelivered. }
  { apply consistent_agree; try done; try apply unmark_undelivered; try (by eapply same_graph_inv).
    intros l Hl. destruct (Hls l Hl). split; [by apply (same_graph_is_Some _ _ _ Hg1)|by apply (same_graph_is_Some _ _ _ Hg2)]. }
  { intros x y (l & Hl & Hp) Hxy. exists l. split; [done|]. by eapply rtc_r. }
  { intros l Hl. exists l. split; [done|]. apply rtc_refl. }
  split; [by exists e2|]. unfold history_txs. f_equal. apply list_fmap_ext. intros i b Hb.
  apply list_elem_of_lookup_2 in Hb.
  destruct (ordered_exists d1 ls) as (o1 & e1' & He1' & _ & _ & Hel & _); [done|done|intros l Hl; by destruct (Hls l Hl)|].
  rewrite He1 in He1'. injection He1' as <- <-. apply Hel in Hb as (l & Hl & Hp).
  destruct (Hls l Hl) as [Hl1 Hl2]. destruct (dag_path_present _ _ _ Hp Hl1) as [v1 Hv1].
  assert (dag_path d2 l b) as Hp2 by by apply (consistent_path d1 d2).
  destruct (dag_path_present _ _ _ Hp2 Hl2) as [v2 Hv2]. rewrite Hv1, Hv2. simpl. by rewrite (Hc b v1 v2).
Qed.

(** Delivering more histories from the DAG a replica is left with. *)
Lemma ordered_snoc d ls o d1 ls' out d2 :
  Dag_inv d -> dag_offset d = 1%N -> (forall l, l ∈ ls ++ ls' -> is_Some (present d l)) ->
  ordered d ls o -> (forall b, deliveredb d b = bool_decide (b ∈ o)) -> delivered_closed d ->
  same_graph d d1 -> (forall b, deliveredb d1 b = deliveredb d b) ->
  deliver_all d1 ls' = Val (out, d2) ->
  ordered d (ls ++ ls') (o ++ out) /\ (forall b, deliveredb d2 b = bool_decide (b ∈ o ++ out)).
Proof.
  intros Hi Ho Hls [e He] Hdel Hcl Hg1 Hd1 Hall.
  assert (forall l, l ∈ ls -> is_Some (present d l)) as Hls1 by (intros; apply Hls; set_solver).
  destruct (ordered_exists d ls Hi Ho Hls1) as (o' & e' & He' & _ & Hge & _ & Hde).
  rewrite He in He'. injection He' as <- <-.
  pose proof (same_graph_inv _ _ Hge Hi) as Hie. pose proof (same_graph_inv _ _ Hg1 Hi) as Hi1.
  assert (forall x y, same_graph d x -> (forall b, deliveredb x b = deliveredb d b) -> y = d -> delivered_closed x) as Hclx.
  { intros x y Hg Hx _ a b Ha Hab. rewrite Hx in *. apply (Hcl a); [done|]. by apply (same_graph_edge _ _ _ _ Hg). }
  assert (delivered_closed e) as Hcle by (apply (Hclx e d); try done; intros b; by rewrite Hde, Hdel).
  assert (delivered_closed d1) as Hcl1 by by apply (Hclx d1 d).
  assert (forall x, same_graph d x -> dag_offset x = 1%N) as Hox by (intros x Hg; by rewrite (sg_offset _ _ Hg)).
  assert (forall x, same_graph d x -> forall l, l ∈ ls' -> is_Some (present x l)) as Hpx.
  { intros x Hg l Hl. apply (same_graph_is_Some _ _ _ Hg), Hls. set_solver. }
  destruct (deliver_all_spec e ls' Hie (Hox e Hge) Hcle (Hpx e Hge)) as (o2 & e2 & He2 & _).
  destruct (deliver_all_spec d1 ls' Hi1 (Hox d1 Hg1) Hcl1 (Hpx d1 Hg1)) as (o3 & d3 & Hd3 & _ & _ & _ & Hdel3 & _).
  rewrite Hall in Hd3. injection Hd3 as <- <-.
  destruct (deliver_all_agree (fun b => is_Some (present d b)) e d1 ls' o2 e2 out d2) as [-> _]; try done; auto.
  { intros b [v Hv]. destruct (same_graph_Some _ _ _ _ Hge Hv) as (v1 & Hv1 & Hx1 & _).
    destruct (same_graph_Some _ _ _ _ Hg1 Hv) as (v2 & Hv2 & Hx2 & _).
    exists v1, v2. split_and!; try done; [congruence|].
    assert (deliveredb e b = deliveredb d1 b) as Heq by by rewrite Hd1, Hde, Hdel.
    unfold deliveredb in Heq. by rewrite Hv1, Hv2 in Heq. }
  { intros x y Hx Hxy. apply (same_graph_edge _ _ _ _ Hge) in Hxy as (? & _ & _ & _ & ?). done. }
  { intros l Hl. apply Hls. set_solver. }
  split.
  - exists e2. clear - He He2. revert He. generalize (unmark d) as d0. revert o.
    induction ls as [|l ls IH]; intros o d0; simpl; [by intros [= <- <-]|].
    destruct (Dag_deliver_from d0 l 0) as [[p d1]| |]; simpl; try done.
    destruct (deliver_all d1 ls) as [[q e']| |] eqn:E; simpl; try done. intros [= <- <-].
    rewrite (IH q d1 E). simpl. by rewrite app_assoc.
  - intros b. rewrite Hdel3, Hd1, Hdel, <-bool_decide_or. apply bool_decide_ext. by rewrite elem_of_app.
Qed.

(** ** Walking to the first wave in steps *)

Lemma walk_extend d coin mid v w pre post :
  (1 <= mid)%N -> walk d coin mid v w pre -> (mid <= w)%N ->
  is_Some (present d v) -> (4 * mid < da_round v)%N -> is_Some (present d (leader_of coin mid)) ->
  (forall a, is_Some (present d a) -> (4 * mid < da_round a)%N -> dag_path d a (leader_of coin mid)) ->
  walk d coin 0 (leader_of coin mid) (mid - 1) post ->
  walk d coin 0 v w (pre ++ leader_of coin mid :: post).
Proof.
  intros Hmid Hw. induction Hw as [v w Hle|v w ls Hlt Hp Hpath _ IH|v w ls Hlt Hno _ IH];
    intros Hge Hv Hr Hl Hreach Hpost.
  - assert (w = mid) as -> by lia. simpl. apply walk_take; [lia|done|by apply Hreach|done].
  - simpl. apply walk_take; [lia|done|done|]. apply IH; try done; [lia|simpl; lia].
  - apply walk_skip; [lia|done|]. apply IH; try done. lia.
Qed.

(** ** The log *)

(** The leaders committed when [w] is the last decided wave, none when it is zero. *)
Definition leaders_upto (q : N) (coin : N -> N) (d : Dag B Tx (Signature Enc)) (w : N)
    (ls : list DagAddress) : Prop :=
  (w = 0%N /\ ls = []) \/ (decides d q coin w /\ committed d coin w ls).

Lemma leaders_upto_present q coin d w ls l :
  leaders_upto q coin d w ls -> l ∈ ls -> is_Some (present d l).
Proof.
  intros [[_ ->]|[(_ & Hl & _) (rest & -> & Hw)]]; [by intros ?%not_elem_of_nil|].
  intros [->|Hin]%elem_of_cons; [done|by eapply walk_elem].
Qed.

Record dag_log (q : N) (coin : N -> N) (d : Dag B Tx (Signature Enc)) (w : N)
    (o : list DagAddress) : Prop := {
  log_order : exists ls, leaders_upto q coin d w ls /\ ordered d (rev ls) o;
  log_delivered : forall b, deliveredb d b = bool_decide (b ∈ o);
}.

(** [d'] has the vertices of [d] and perhaps more. *)
Record grows (d d' : Dag B Tx (Signature Enc)) : Prop := {
  grows_inv : Dag_inv d /\ Dag_inv d';
  grows_offset : dag_offset d = 1%N /\ dag_offset d' = 1%N;
  grows_n : dag_n d' = dag_n d;
  grows_present : forall a, is_Some (present d a) -> is_Some (present d' a);
  grows_consistent : consistent d d';
}.

Lemma grows_decides q coin d d' w : grows d d' -> decides d q coin w -> decides d' q coin w.
Proof.
  intros [[Hi Hi'] [Ho Ho'] Hn Hp Hc] (Hw & Hl & S & HS & Hq). split; [done|]. split; [by apply Hp|].
  exists S. split; [|done]. intros c Hin. destruct (HS c Hin) as (Hcn & Hpc & Hpath). rewrite Hn.
  split; [done|]. split; [by apply Hp|]. apply (consistent_path d d'); auto.
Qed.

Lemma grows_leaders q coin d d' w ls : grows d d' -> leaders_upto q coin d w ls -> leaders_upto q coin d' w ls.
Proof.
  intros Hgr [?|[Hd (rest & -> & Hw)]]; [by left|right]. split; [by eapply grows_decides|].
  exists rest. split; [done|]. pose proof Hd as (_ & Hl & _). destruct Hgr as [[] [] _ Hp Hc].
  apply (walk_consistent d d'); auto.
Qed.

Lemma dag_log_grows q coin d d' w o :
  grows d d' -> (forall b, deliveredb d' b = deliveredb d b) -> dag_log q coin d w o ->
  dag_log q coin d' w o /\ history_txs d' o = history_txs d o.
Proof.
  intros Hgr Hdel [(ls & Hls & Hord) Hd].
  assert (forall l, l ∈ rev ls -> is_Some (present d l)) as Hpres.
  { intros l. rewrite list_elem_of_In, <-in_rev, <-list_elem_of_In. by eapply leaders_upto_present. }
  destruct (ordered_consistent d d' (rev ls) o) as [Hord' Htx]; try apply Hgr; try done.
  { intros l Hl. split; [|apply Hgr]; by apply Hpres. }
  split; [|done]. split; [|intros b; by rewrite Hdel]. exists ls. split; [by eapply grows_leaders|done].
Qed.

Lemma dag_log_coin q coin coin' d w o :
  (forall w, coin' w = coin w) -> dag_log q coin d w o -> dag_log q coin' d w o.
Proof.
  intros Hc [(ls & Hls & Hord) Hd]. split; [|done]. exists ls. split; [|done].
  destruct Hls as [?|[Hdec (rest & -> & Hw)]]; [by left|right].
  assert (forall w, leader_of coin' w = leader_of coin w) as Hl by (intros; unfold leader_of; by rewrite Hc).
  split; [unfold decides; by rewrite Hl|]. exists rest. split; [by rewrite Hl|]. rewrite Hl. clear - Hw Hl.
  induction Hw as [v w0 Hle|v w0 ls0 Hlt Hp Hpath _ IH|v w0 ls0 Hlt Hno _ IH].
  - by apply walk_done.
  - rewrite <-Hl. apply walk_take; rewrite ?Hl; done.
  - apply walk_skip; rewrite ?Hl; done.
Qed.

(** A decision: the leaders of the walk down to the last decided wave are
    appended to the log. *)
Lemma leaders_upto_decide q coin d w0 w ls ls' :
  Dag_inv d -> dag_offset d = 1%N -> quorum_edges d q -> (dag_n d < 2 * q)%N ->
  leaders_upto q coin d w0 ls -> (w0 < w)%N -> decides d q coin w ->
  walk d coin w0 (leader_of coin w) (w - 1) ls' ->
  leaders_upto q coin d w (leader_of coin w :: ls' ++ ls).
Proof.
  intros Hi Ho Hq Hq2 Hls Hlt Hdec Hw. right. split; [done|]. exists (ls' ++ ls). split; [done|].
  destruct Hls as [[-> ->]|[Hd0 (rest & -> & Hrest)]]; [by rewrite app_nil_r|].
  pose proof Hdec as (_ & Hl & _). destruct Hd0 as (Hw0 & Hl0 & S & HS & Hsize).
  assert (consistent d d) as Hc by (intros a v1 v2 E1 E2; congruence).
  apply walk_extend; try done; [lia|simpl; lia|].
  intros a Ha Hr. apply (committed_reached d d q (4 * w0) _ S); try done. lia.
Qed.

Lemma dag_log_decide q coin d w0 w o ls d1 out d2 :
  Dag_inv d -> dag_offset d = 1%N -> quorum_edges d q -> (dag_n d < 2 * q)%N -> delivered_closed d ->
  dag_log q coin d w0 o -> (w0 < w)%N -> decides d q coin w ->
  walk d coin w0 (leader_of coin w) (w - 1) ls ->
  same_graph d d1 -> (forall b, deliveredb d1 b = deliveredb d b) ->
  deliver_all d1 (rev ls ++ [leader_of coin w]) = Val (out, d2) -> same_graph d d2 ->
  dag_log q coin d2 w (o ++ out)
  /\ history_txs d2 (o ++ out) = history_txs d o ++ history_txs d out.
Proof.
  intros Hi Ho Hq Hq2 Hcl [(ls0 & Hls0 & Hord) Hdel] Hlt Hdec Hw Hg1 Hd1 Hall Hg2.
  pose proof (leaders_upto_decide q coin d w0 w ls0 ls Hi Ho Hq Hq2 Hls0 Hlt Hdec Hw) as Hls.
  assert (rev (leader_of coin w :: ls ++ ls0) = rev ls0 ++ rev ls ++ [leader_of coin w]) as Hrev.
  { simpl. by rewrite rev_app_distr, app_assoc. }
  destruct (ordered_snoc d (rev ls0) o d1 (rev ls ++ [leader_of coin w]) out d2) as [Hord2 Hdel2]; try done.
  { intros l. rewrite <-Hrev, list_elem_of_In, <-in_rev, <-list_elem_of_In. by eapply leaders_upto_present. }
  assert (grows d d2) as Hgr.
  { split; [split; [done|by eapply same_graph_inv]| |apply Hg2| |].
    - by rewrite (sg_offset _ _ Hg2).
    - intros a. by apply (same_graph_is_Some _ _ _ Hg2).
    - intros a v1 v2 Hv1 Hv2. apply (same_graph_Some _ _ _ _ Hg2) in Hv1 as (v & Hv & Hx & _). congruence. }
  rewrite <-history_txs_app. split; [|by apply history_txs_same].
  split; [|done]. exists (leader_of coin w :: ls ++ ls0). split; [by eapply grows_leaders|].
  rewrite Hrev. eapply (ordered_consistent d d2); try apply Hgr; try done.
  intros l. rewrite <-Hrev, list_elem_of_In, <-in_rev, <-list_elem_of_In. intros Hl.
  split; [|apply Hgr]; by eapply leaders_upto_present.
Qed.

(** ** Two replicas *)

(** The log of the replica that decided less is a prefix of the other's. *)
Lemma dag_log_prefix q coin d1 d2 w1 w2 o1 o2 :
  Dag_inv d1 -> Dag_inv d2 -> dag_offset d1 = 1%N -> dag_offset d2 = 1%N -> consistent d1 d2 ->
  dag_n d1 = dag_n d2 -> quorum_edges d2 q -> (dag_n d2 < 2 * q)%N ->
  dag_log q coin d1 w1 o1 -> dag_log q coin d2 w2 o2 -> (w1 <= w2)%N ->
  o1 `prefix_of` o2 /\ history_txs d1 o1 `prefix_of` history_txs d2 o2.
Proof.
  intros Hi1 Hi2 Ho1 Ho2 Hc Hn Hq Hq2 [(ls1 & Hls1 & Hord1) _] [(ls2 & Hls2 & Hord2) _] Hle.
  assert (ls1 `suffix_of` ls2) as [pre ->].
  { destruct Hls1 as [[-> ->]|[Hd1 Hc1]]; [apply suffix_nil|].
    destruct Hls2 as [[-> ->]|[Hd2 Hc2]]; [destruct Hd1 as (? & _); lia|].
    by apply (committed_suffix d1 d2 q coin w1 w2). }
  rewrite rev_app_distr in Hord2. destruct Hord2 as [e2 He2].
  apply deliver_all_app in He2 as (p1 & f1 & p2 & Hp1 & Hp2 & ->).
  destruct (ordered_consistent d1 d2 (rev ls1) o1) as [Hord Htx]; try done.
  { intros l. rewrite list_elem_of_In, <-in_rev, <-list_elem_of_In. intros Hl.
    split; [by eapply leaders_upto_present|]. eapply (leaders_upto_present _ _ d2); [exact Hls2|]. set_solver. }
  assert (o1 = p1) as <- by (apply (ordered_det d2 (rev ls1)); [done|by exists f1]).
  split; [by exists p2|]. rewrite history_txs_app, Htx. by eexists.
Qed.
End order.
