(* ===== verification/NxReplicaFacts.v ===== *)
(** * NxBFT: what the handlers do to the replica

    Relations between the state before and after every handler, proved with the
    [st_rel] rules: the configuration never changes, and what is delivered is
    always the deduplication of some sequence of transactions, so that over a
    whole run no client request is delivered twice. *)

From Stdlib Require Import ZArith Lia.
From stdpp Require Import base list gmap sets numbers option relations.
From S2P Require Import Prelude Ids Heaps Requests NxBase NxDag NxEnclave NxMessages NxReplica NxDecide.

Section replica_facts.
  Context {P : Profile} {B Tx Enc : Type}.
  Context `{BitSet B} `{Digests} `{Enclave B Enc} `{Transaction Tx} `{Hashbar Tx}.
  Context `{EqDecision B, EqDecision Tx}.
  Context (clock : nat -> N).
  Implicit Types (s : NxBft B Tx Enc).

(** ** The relations *)

(** The configuration is the same, and the transactions appended to the output
    are those of some sequence that pass the deduplication. *)
Definition delivers (s s' : NxBft B Tx Enc) : Prop :=
  nx_n s' = nx_n s /\ nx_quorum s' = nx_quorum s /\ nx_me s' = nx_me s
  /\ exists txs, nx_client_last_request s' = (dedup (nx_client_last_request s) txs).1
     /\ uo_delivery (nx_output s')
        = uo_delivery (nx_output s) ++ (dedup (nx_client_last_request s) txs).2.

#[local] Instance delivers_preorder : PreOrder delivers.
Proof.
  split.
  - intros s. repeat (split; [done|]). exists []. simpl. by rewrite app_nil_r.
  - intros s1 s2 s3 (Hn1 & Hq1 & Hm1 & t1 & Hl1 & Ho1) (Hn2 & Hq2 & Hm2 & t2 & Hl2 & Ho2).
    rewrite Hl1 in *.
    split; [congruence|]. split; [congruence|]. split; [congruence|]. exists (t1 ++ t2). rewrite dedup_app.
    simpl. split; [done|]. by rewrite Ho2, Ho1, app_assoc.
Qed.

(** A state that agrees on the fields of the relation. *)
Lemma delivers_frame s s' :
  nx_n s' = nx_n s -> nx_quorum s' = nx_quorum s -> nx_me s' = nx_me s ->
  nx_client_last_request s' = nx_client_last_request s ->
  uo_delivery (nx_output s') = uo_delivery (nx_output s) -> delivers s s'.
Proof. intros ? ? ? ? Ho. repeat (split; [done|]). exists []. simpl. by rewrite app_nil_r. Qed.
End replica_facts.

(** Splits a goal [st_rel R m] along the structure of [m]; the leaves are the
    updates of the state. *)
Ltac st_rel_step :=
  match goal with
  | |- forall _, st_rel _ _ => intros ?
  | |- st_rel _ (mbind _ _) => apply st_rel_bind; [typeclasses eauto| |]
  | |- st_rel _ (match ?x with _ => _ end) => destruct x
  | |- st_rel _ (let '(_, _) := ?x in _) => destruct x
  | |- st_rel _ (mret _) => apply st_rel_ret; typeclasses eauto
  | |- st_rel _ (lift _) => apply st_rel_lift; typeclasses eauto
  | |- st_rel _ (self _) => apply st_rel_self; typeclasses eauto
  | |- st_rel _ (inspect _) => apply st_rel_inspect; typeclasses eauto
  | |- st_rel _ (st_for _ _) => apply st_rel_for; [typeclasses eauto|]
  | |- st_rel _ (modify _) => apply st_rel_modify; intros ?
  | |- st_rel _ (update _) => apply st_rel_update; intros ? ? ?
  | |- st_rel _ (zoom _ _ _) => apply st_rel_zoom; intros ? ? ? ?
  | |- st_rel _ _ => solve [eauto with st_rel]
  end.

Section replica_facts2.
  Context {P : Profile} {B Tx Enc : Type}.
  Context `{BitSet B} `{Digests} `{Enclave B Enc} `{Transaction Tx} `{Hashbar Tx}.
  Context `{EqDecision B, EqDecision Tx}.
  Context (clock : nat -> N).
  Implicit Types (s : NxBft B Tx Enc).

#[local] Existing Instance delivers_preorder.
#[local] Hint Resolve delivers_frame : st_rel.

(** The updates that are no delivery leave the relation's fields alone. *)
Ltac frame_leaf :=
  match goal with
  | |- delivers ?s ?s' => apply delivers_frame; reflexivity
  | Hf : _ = Val ?s' |- delivers ?s ?s' =>
      repeat (match type of Hf with
              | (?m ≫= _) = _ => destruct m; simpl in Hf; try discriminate Hf
              end);
      injection Hf as <-; apply delivers_frame; reflexivity
  end.
Ltac frame := repeat (st_rel_step || frame_leaf).

Lemma broadcast_delivers m : st_rel delivers (broadcast (Enc := Enc) (Tx := Tx) m).
Proof. unfold broadcast. frame. Qed.
#[local] Hint Resolve broadcast_delivers : st_rel.

Lemma unicast_delivers to m : st_rel delivers (unicast (Enc := Enc) (Tx := Tx) to m).
Proof.
  unfold unicast. st_rel_step; [frame|]. intros me. st_rel_step. apply delivers_frame; try reflexivity.
  simpl. unfold UnreflectedOutput_unicast. by destruct (_ =? _)%N.
Qed.
#[local] Hint Resolve unicast_delivers : st_rel.

Lemma state_message_delivers m : st_rel delivers (state_message (Enc := Enc) (Tx := Tx) m).
Proof. unfold state_message. frame. Qed.
#[local] Hint Resolve state_message_delivers : st_rel.

Lemma peer_error_delivers i e : st_rel delivers (peer_error (Enc := Enc) (Tx := Tx) i e).
Proof. unfold peer_error. frame. Qed.
Lemma verbose_delivers v : st_rel delivers (verbose (Enc := Enc) (Tx := Tx) v).
Proof. unfold verbose. frame. Qed.
Lemma enclave_error_delivers e : st_rel delivers (enclave_error (Enc := Enc) (Tx := Tx) e).
Proof. unfold enclave_error. frame. Qed.
Lemma now_delivers : st_rel delivers (now (Enc := Enc) (Tx := Tx) clock).
Proof. unfold now. frame. Qed.
#[local] Hint Resolve peer_error_delivers verbose_delivers enclave_error_delivers now_delivers : st_rel.

Lemma elapsed_delivers t : st_rel delivers (elapsed (Enc := Enc) (Tx := Tx) clock t).
Proof. unfold elapsed. frame. Qed.
Lemma enclave_call_delivers {A} (f : Enc -> Outcome (A * Enc)) :
  st_rel delivers (enclave_call (Tx := Tx) f).
Proof. unfold enclave_call. frame. Qed.
Lemma set_buffer_delivers i f : st_rel delivers (set_buffer (Enc := Enc) (Tx := Tx) i f).
Proof. unfold set_buffer. frame. Qed.
Lemma verify_delivers i c v sig : st_rel delivers (verify (Enc := Enc) (Tx := Tx) i c v sig).
Proof. unfold verify. frame. Qed.
Lemma request_vertex_delivers a : st_rel delivers (request_vertex (Enc := Enc) (Tx := Tx) a).
Proof. unfold request_vertex. frame. Qed.
#[local] Hint Resolve elapsed_delivers enclave_call_delivers set_buffer_delivers verify_delivers
  request_vertex_delivers : st_rel.

Lemma create_vertex_delivers b : st_rel delivers (create_vertex (Enc := Enc) (Tx := Tx) clock b).
Proof. unfold create_vertex, Vertex_new, Vertex_new_with_custom. frame. Qed.
#[local] Hint Resolve create_vertex_delivers : st_rel.

(** The one update that delivers. *)
Lemma deliver_transactions_delivers txs :
  st_rel delivers (deliver_transactions (Enc := Enc) (B := B) txs).
Proof.
  intros s a s'. rewrite deliver_transactions_spec. intros [= _ <-]. repeat (split; [done|]).
  exists txs. done.
Qed.
#[local] Hint Resolve deliver_transactions_delivers : st_rel.

Lemma deliver_leaders_delivers ls order : st_rel delivers (deliver_leaders (Enc := Enc) (Tx := Tx) ls order).
Proof.
  revert order. induction ls as [|l ls IH]; intros order; simpl; frame.
Qed.
#[local] Hint Resolve deliver_leaders_delivers : st_rel.

Lemma decide_wave_delivers w v : st_rel delivers (decide_wave (Enc := Enc) (Tx := Tx) clock w v).
Proof. unfold decide_wave. frame. Qed.
#[local] Hint Resolve decide_wave_delivers : st_rel.
Lemma commit_rule_delivers w l : st_rel delivers (commit_rule (Enc := Enc) (Tx := Tx) clock w l).
Proof. unfold commit_rule. frame. Qed.
#[local] Hint Resolve commit_rule_delivers : st_rel.
Lemma wave_ready_delivers : st_rel delivers (wave_ready (Enc := Enc) (Tx := Tx) clock).
Proof. unfold wave_ready. frame. Qed.
#[local] Hint Resolve wave_ready_delivers : st_rel.

Lemma check_edges_delivers r es add : st_rel delivers (check_edges (Enc := Enc) (Tx := Tx) r es add).
Proof. revert add. induction es as [|c es IH]; intros add; simpl; frame. Qed.
#[local] Hint Resolve check_edges_delivers : st_rel.

Lemma traverse_loop_delivers fuel c ins : st_rel delivers (traverse_loop (Enc := Enc) (Tx := Tx) fuel c ins).
Proof. revert c ins. induction fuel as [|fuel IH]; intros c ins; simpl; frame. Qed.
Lemma answer_requests_delivers a : st_rel delivers (answer_requests (Enc := Enc) (Tx := Tx) a).
Proof. unfold answer_requests. frame. Qed.
#[local] Hint Resolve traverse_loop_delivers answer_requests_delivers : st_rel.

Lemma traverse_vertex_buffer_delivers :
  st_rel delivers (traverse_vertex_buffer (Enc := Enc) (Tx := Tx) clock).
Proof. unfold traverse_vertex_buffer. frame. Qed.
#[local] Hint Resolve traverse_vertex_buffer_delivers : st_rel.
Lemma process_vertex_delivers v : st_rel delivers (process_vertex (Enc := Enc) clock v).
Proof. unfold process_vertex. frame. Qed.
#[local] Hint Resolve process_vertex_delivers : st_rel.

Lemma deliver_signed_loop_delivers fuel i :
  st_rel delivers (deliver_signed_loop (Enc := Enc) (Tx := Tx) clock fuel i).
Proof. induction fuel as [|fuel IH]; simpl; frame. Qed.
#[local] Hint Resolve deliver_signed_loop_delivers : st_rel.
Lemma process_signed_message_delivers i m : st_rel delivers (process_signed_message (Enc := Enc) clock i m).
Proof. unfold process_signed_message. frame. Qed.
Lemma process_vertex_request_delivers i a :
  st_rel delivers (process_vertex_request (Enc := Enc) (Tx := Tx) i a).
Proof. unfold process_vertex_request. frame. Qed.
Lemma process_hello_delivers i a : st_rel delivers (process_hello (Enc := Enc) (Tx := Tx) i a).
Proof. unfold process_hello. frame. Qed.
Lemma process_hello_reply_delivers i h : st_rel delivers (process_hello_reply (Enc := Enc) (Tx := Tx) i h).
Proof. unfold process_hello_reply. frame. Qed.
#[local] Hint Resolve process_hello_reply_delivers : st_rel.
Lemma process_hello_echo_delivers i c a : st_rel delivers (process_hello_echo (Enc := Enc) (Tx := Tx) i c a).
Proof. unfold process_hello_echo. frame. Qed.
Lemma process_ready_delivers i : st_rel delivers (process_ready (Enc := Enc) (Tx := Tx) i).
Proof. unfold process_ready. frame. Qed.
Lemma process_recovery_request_delivers i a :
  st_rel delivers (process_recovery_request (Enc := Enc) (Tx := Tx) i a).
Proof. unfold process_recovery_request. frame. Qed.
#[local] Hint Resolve process_recovery_request_delivers : st_rel.
Lemma process_recovery_proposal_delivers i p :
  st_rel delivers (process_recovery_proposal (Enc := Enc) (Tx := Tx) i p).
Proof. unfold process_recovery_proposal. frame. Qed.
Lemma restore_messages_delivers i ms r : st_rel delivers (restore_messages (Enc := Enc) (Tx := Tx) i ms r).
Proof. revert r. induction ms as [|m ms IH]; intros r; simpl; frame. Qed.
#[local] Hint Resolve restore_messages_delivers : st_rel.
Lemma apply_commit_delivers c : st_rel delivers (apply_commit (Enc := Enc) (Tx := Tx) clock c).
Proof. unfold apply_commit. frame. Qed.
#[local] Hint Resolve apply_commit_delivers : st_rel.
Lemma process_recovery_commit_delivers i c :
  st_rel delivers (process_recovery_commit (Enc := Enc) (Tx := Tx) clock i c).
Proof. unfold process_recovery_commit. frame. Qed.
#[local] Hint Resolve process_signed_message_delivers process_vertex_request_delivers
  process_hello_delivers process_hello_echo_delivers process_ready_delivers
  process_recovery_proposal_delivers process_recovery_commit_delivers : st_rel.

Lemma dispatch_delivers m : st_rel delivers (dispatch (Enc := Enc) (Tx := Tx) clock m).
Proof. unfold dispatch. frame. Qed.

(** ** Reflection and runs *)

(** A call that emits [o]: the output buffer is empty afterwards, and the
    transactions in [o] after those that were buffered are the deduplication of
    some sequence. *)
Definition emits (s : NxBft B Tx Enc) (o : Output B Tx Enc) (s' : NxBft B Tx Enc) : Prop :=
  nx_n s' = nx_n s /\ nx_quorum s' = nx_quorum s /\ nx_me s' = nx_me s
  /\ nx_output s' = UnreflectedOutput_new (nx_me s')
  /\ exists txs, nx_client_last_request s' = (dedup (nx_client_last_request s) txs).1
     /\ out_delivery o = uo_delivery (nx_output s) ++ (dedup (nx_client_last_request s) txs).2.

Lemma delivers_emits s1 s2 o s3 : delivers s1 s2 -> emits s2 o s3 -> emits s1 o s3.
Proof.
  intros (Hn1 & Hq1 & Hm1 & t1 & Hl1 & Ho1) (Hn2 & Hq2 & Hm2 & Hout & t2 & Hl2 & Ho2).
  rewrite Hl1 in *. split; [congruence|]. split; [congruence|]. split; [congruence|]. split; [done|].
  exists (t1 ++ t2). rewrite dedup_app. simpl. split; [done|]. by rewrite Ho2, Ho1, app_assoc.
Qed.

Lemma reflect_messages_emits process ms o s o' s' :
  (forall m s1 o1 s2, process m s1 = Val (o1, s2) -> emits s1 o1 s2) ->
  nx_output s = UnreflectedOutput_new (nx_me s) ->
  reflect_messages (Enc := Enc) (Tx := Tx) process ms o s = Val (o', s') ->
  nx_n s' = nx_n s /\ nx_quorum s' = nx_quorum s /\ nx_me s' = nx_me s
  /\ nx_output s' = UnreflectedOutput_new (nx_me s')
  /\ exists txs, nx_client_last_request s' = (dedup (nx_client_last_request s) txs).1
     /\ out_delivery o' = out_delivery o ++ (dedup (nx_client_last_request s) txs).2.
Proof.
  intros Hp. revert o s. induction ms as [|m ms IH]; intros o s Hout; simpl.
  { intros [= <- <-]. repeat (split; [done|]). exists []. simpl. by rewrite app_nil_r. }
  unfold mbind, St_bind. destruct (process m s) as [[o1 s1]| |] eqn:E; try done.
  apply Hp in E as (Hn & Hq & Hm & Hout1 & t1 & Hl1 & Ho1). rewrite Hout in Ho1. simpl in Ho1.
  intros Hr. apply IH in Hr as (Hn2 & Hq2 & Hm2 & Hout2 & t2 & Hl2 & Ho2); [|done].
  rewrite Hl1 in *. split; [congruence|]. split; [congruence|]. split; [congruence|]. split; [done|].
  exists (t1 ++ t2). rewrite dedup_app. simpl. split; [done|]. rewrite Ho2. simpl.
  by rewrite Ho1, app_assoc.
Qed.

Lemma reflect_emits fuel s o s' : reflect (Enc := Enc) (Tx := Tx) clock fuel s = Val (o, s') -> emits s o s'.
Proof.
  revert s o s'. induction fuel as [|fuel IH]; intros s o s'; simpl; [done|].
  erewrite st_bind_Val by done. erewrite st_bind_Val by done. erewrite st_bind_Val by done.
  intros Hr. apply reflect_messages_emits in Hr; [exact Hr| |done].
  intros m s1 o1 s2 Hm. unfold mbind, St_bind in Hm.
  destruct (dispatch clock m s1) as [[[] s3]| |] eqn:E; try done.
  eapply delivers_emits; [by eapply dispatch_delivers|by apply IH].
Qed.

(** Every run of [m] that returns emits its result. *)
Definition st_emits (m : St (NxBft B Tx Enc) (Output B Tx Enc)) : Prop :=
  forall s o s', m s = Val (o, s') -> emits s o s'.

Lemma st_emits_bind {A} (m : St (NxBft B Tx Enc) A) f :
  st_rel delivers m -> (forall a, st_emits (f a)) -> st_emits (m ≫= f).
Proof.
  intros Hm Hf s o s'. unfold mbind, St_bind. destruct (m s) as [[a s1]| |] eqn:E; try done. intros Hr.
  eapply delivers_emits; [by eapply Hm|by eapply Hf].
Qed.

Lemma st_emits_reflect fuel : st_emits (reflect clock fuel).
Proof. intros s o s'. apply reflect_emits. Qed.

Ltac emit_step :=
  match goal with
  | |- st_emits (mbind _ _) => apply st_emits_bind; [frame|intros ?]
  | |- st_emits (match ?x with _ => _ end) => destruct x
  | |- st_emits (reflect _ _) => apply st_emits_reflect
  end.

Lemma init_handshake_emits fuel ent : st_emits (init_handshake clock fuel ent).
Proof. unfold init_handshake. repeat emit_step. Qed.
Lemma process_peer_message_emits fuel m : st_emits (process_peer_message clock fuel m).
Proof. unfold process_peer_message. apply st_emits_bind; [apply dispatch_delivers|]. intros _. emit_step. Qed.
Lemma receive_client_request_emits fuel tx : st_emits (receive_client_request clock fuel tx).
Proof. unfold receive_client_request. repeat emit_step. Qed.
Lemma process_vertex_timeout_emits fuel : st_emits (process_vertex_timeout clock fuel).
Proof. unfold process_vertex_timeout. repeat emit_step. Qed.

(** The calls the environment makes, with the output of each. *)
Inductive nx_call (s : NxBft B Tx Enc) (o : Output B Tx Enc) (s' : NxBft B Tx Enc) : Prop :=
| call_init_handshake fuel ent : init_handshake clock fuel ent s = Val (o, s') -> nx_call s o s'
| call_peer_message fuel m : process_peer_message clock fuel m s = Val (o, s') -> nx_call s o s'
| call_client_request fuel tx : receive_client_request clock fuel tx s = Val (o, s') -> nx_call s o s'
| call_vertex_timeout fuel : process_vertex_timeout clock fuel s = Val (o, s') -> nx_call s o s'.

Lemma nx_call_emits s o s' : nx_call s o s' -> emits s o s'.
Proof.
  intros [fuel ent Hc|fuel m Hc|fuel tx Hc|fuel Hc].
  - by eapply init_handshake_emits.
  - by eapply process_peer_message_emits.
  - by eapply receive_client_request_emits.
  - by eapply process_vertex_timeout_emits.
Qed.

(** A backup changes no more than the enclave. *)
Lemma backup_enclave_inv (s : NxBft B Tx Enc) r s' :
  backup_enclave s = Val (r, s') ->
  exists x e, enc_export (nx_enclave s) = Val (Ok x, e) /\ s' = s.[nx_enclave := e].
Proof.
  unfold backup_enclave, enclave_call. intros (x & s1 & Hx & Hb)%st_bind_inv. unfold zoom in Hx.
  apply outcome_bind_inv in Hx as ([x1 e1] & Hx & [= -> <-]). apply bind_lift_inv in Hb as (y & Hy & Hb).
  injection Hb as _ <-. destruct x as [x|]; [|done]. by exists x, e1.
Qed.

(** A run: the outputs of the calls in order; a backup has none. *)
Inductive nx_run (s : NxBft B Tx Enc) : list (Output B Tx Enc) -> NxBft B Tx Enc -> Prop :=
| run_nil : nx_run s [] s
| run_snoc os s1 o s2 : nx_run s os s1 -> nx_call s1 o s2 -> nx_run s (os ++ [o]) s2
| run_backup os s1 r s2 : nx_run s os s1 -> backup_enclave s1 = Val (r, s2) -> nx_run s os s2.

(** All transactions delivered along a run. *)
Definition run_delivery (os : list (Output B Tx Enc)) : list Tx := concat (out_delivery <$> os).

Lemma nx_run_dedup s os s' :
  nx_output s = UnreflectedOutput_new (nx_me s) -> nx_run s os s' ->
  nx_output s' = UnreflectedOutput_new (nx_me s')
  /\ nx_n s' = nx_n s /\ nx_quorum s' = nx_quorum s /\ nx_me s' = nx_me s
  /\ exists txs, nx_client_last_request s' = (dedup (nx_client_last_request s) txs).1
     /\ run_delivery os = (dedup (nx_client_last_request s) txs).2.
Proof.
  intros Hout Hr. induction Hr as [|os s1 o s2 _ IH Hc|os s1 r s2 _ IH Hb];
    [..|by apply backup_enclave_inv in Hb as (x & e & _ & ->)].
  { repeat (split; [done|]). by exists []. }
  destruct IH as (Hout1 & Hn1 & Hq1 & Hm1 & t1 & Hl1 & Hd1).
  apply nx_call_emits in Hc as (Hn2 & Hq2 & Hm2 & Hout2 & t2 & Hl2 & Hd2).
  rewrite Hout1 in Hd2. simpl in Hd2. rewrite Hl1 in *.
  split; [done|]. split; [congruence|]. split; [congruence|]. split; [congruence|].
  exists (t1 ++ t2). rewrite dedup_app. split; [done|].
  unfold run_delivery in *. rewrite fmap_app, concat_app. simpl. by rewrite Hd1, Hd2, app_nil_r.
Qed.

Lemma NxBft_new_output ent t0 me n timeout mn mx s :
  NxBft_new clock ent t0 me n timeout mn mx = Val s ->
  nx_output s = UnreflectedOutput_new (nx_me s) /\ nx_client_last_request s = ∅.
Proof.
  unfold NxBft_new. intros [_ Hs]%assert_inv. do 3 apply assert_inv in Hs as [_ Hs].
  apply outcome_bind_inv in Hs as (e & _ & Hs). by apply outcome_bind_inv in Hs as (d & _ & [= <-]).
Qed.

(** ** More fuel changes nothing *)

Lemma reflect_messages_mono (p p' : PeerMessage B Tx Enc -> St (NxBft B Tx Enc) (Output B Tx Enc)) ms o s r :
  (forall m s r, p m s = Val r -> p' m s = Val r) ->
  reflect_messages p ms o s = Val r -> reflect_messages p' ms o s = Val r.
Proof.
  intros Hp. revert o s. induction ms as [|m ms IH]; intros o s; simpl; [done|].
  unfold mbind, St_bind. destruct (p m s) as [[o1 s1]| |] eqn:E; try done.
  rewrite (Hp m s _ E). apply IH.
Qed.

Lemma reflect_mono fuel fuel' s r :
  reflect (Enc := Enc) (Tx := Tx) clock fuel s = Val r -> fuel <= fuel' -> reflect clock fuel' s = Val r.
Proof.
  revert fuel' s r. induction fuel as [|fuel IH]; intros [|fuel'] s r; simpl; [done|done|lia|].
  intros Hr Hle. do 3 erewrite st_bind_Val in Hr by done. do 3 erewrite st_bind_Val by done.
  eapply reflect_messages_mono; [|exact Hr]. intros m s1 r1.
  unfold mbind, St_bind. destruct (dispatch clock m s1) as [[[] s2]| |]; try done.
  intros E. apply IH; [done|lia].
Qed.
End replica_facts2.
