(* ===== verification/NxInvariant.v ===== *)
(** * NxBFT: the invariant of a replica

    [nx_inv] ties the DAG, the round, the last decision and the vertex buffer
    together; every handler keeps it.  The only assumption on the environment is
    on recovery commits, whose vertices the code adopts without checking them
    again: [trusted]. *)

From Stdlib Require Import ZArith Lia.
From stdpp Require Import base list gmap sets numbers option relations.
From S2P Require Import Prelude Ids Heaps Requests NxBase NxDag NxDagFacts NxDagGraph NxDagSearch NxDagPath.
From S2P Require Import NxEnclave NxMessages NxReplica NxCommit NxDagBuilt NxDecide NxReplicaFacts.

(** Keeping an invariant, as a relation. *)
Definition keeps {S} (I : S -> Prop) : relation S := fun s s' => I s -> I s'.

#[export] Instance keeps_preorder {S} (I : S -> Prop) : PreOrder (keeps I).
Proof. split; [by intros s Hs|]. intros s1 s2 s3 Hi Hj Hs. by apply Hj, Hi. Qed.

Section invariant.
  Context {P : Profile} {B Tx Enc : Type}.
  Context `{BitSetLaws B} `{Digests} `{Enclave B Enc} `{Transaction Tx} `{Hashbar Tx}.
  Context `{EqDecision B, EqDecision Tx}.
  Context (clock : nat -> N).
  (** With overflow checks, as in the dev, test and prerelease profiles; without
      them the round number would start again at zero after [2^64] rounds. *)
  Context (Hchecks : overflow_checks = true).
  Implicit Types (s : NxBft B Tx Enc) (d : Dag B Tx (Signature Enc)).
  Abbreviation Vtx := (Vertex B Tx (Signature Enc)).

(** The check of [process_vertex] and of [process_recovery_proposal]. *)
Definition vertex_ok (q : N) (v : Vtx) : Prop :=
  (Vertex_round v = 1%N -> Vertex_num_edges v = 0%N)
  /\ ((1 < Vertex_round v)%N -> (q <= Vertex_num_edges v)%N).

Definition messages_ok (q : N) (ms : list (SignedMessage B Tx Enc)) : Prop :=
  forall m, m ∈ ms -> vertex_ok q (sm_payload m).

(** What is assumed of a message: a recovery commit carries only vertices that pass the check. *)
Definition trusted (q : N) (m : PeerMessage B Tx Enc) : Prop :=
  match pm_message m with
  | RecoveryCommitMsg c => messages_ok q (rc_messages c)
  | _ => True
  end.

(** [slack] is one between a decision and the round change that follows it. *)
Record nx_inv_upto (slack : N) (s : NxBft B Tx Enc) : Prop := {
  ni_quorum : nx_quorum s = (nx_n s / 2 + 1)%N;
  ni_dag : Dag_inv (nx_dag s);
  ni_n : dag_n (nx_dag s) = nx_n s;
  ni_offset : dag_offset (nx_dag s) = 1%N;
  ni_round : dag_max_round (nx_dag s) = nx_round s;
  ni_reach : Reach_inv (nx_dag s);
  ni_bound : explored_bound (nx_dag s);
  ni_closed : delivered_closed (nx_dag s);
  ni_explored : forall w, (nx_decided_wave s < w)%N ->
    (dag_explored_from (nx_dag s) < 4 * (w - 1) + 1)%N;
  ni_decided : (4 * nx_decided_wave s < nx_round s + slack)%N;
  ni_edges : quorum_edges (nx_dag s) (nx_quorum s);
  ni_buffer : forall v, v ∈ ch_heap (nx_vertex_buffer s) -> vertex_ok (nx_quorum s) v;
  ni_longest : forall att ms, nx_longest_recovery_proposal s !! att = Some ms ->
    messages_ok (nx_quorum s) ms;
  ni_commits : forall att l c, nx_recovery_commits s !! att = Some l -> Some c ∈ l ->
    messages_ok (nx_quorum s) (rc_messages c);
  ni_reflection : forall m, m ∈ uo_reflection_messages (nx_output s) -> trusted (nx_quorum s) m;
}.
Abbreviation nx_inv := (nx_inv_upto 0).

(** ** Steps on the DAG *)

(** The walk over the waves changes only exploration marks, below the leader of the wave. *)
Lemma leaders_loop_Val fuel coins low d v stack waves w stack' waves' d' :
  Dag_inv d -> dag_offset d = 1%N -> explored_bound d -> is_Some (present d v) ->
  explored_ok d low v -> is_u64 (4 * (w + 1)) -> (4 * w < da_round v)%N ->
  (forall a, a ∈ stack -> is_Some (present d a)) ->
  leaders_loop fuel coins low d v stack waves w = Val (stack', waves', d') ->
  same_graph d d' /\ explored_bound d' /\ (forall b, deliveredb d' b = deliveredb d b)
  /\ (dag_explored_from d' <= N.max (dag_explored_from d) (da_round v))%N
  /\ (forall a, a ∈ stack' -> is_Some (present d a)).
Proof.
  revert d v stack waves w.
  induction fuel as [|fuel IH]; intros d v stack waves w Hi Ho Hex Hv Hok Hu Hwv Hst; [done|]. simpl.
  destruct (N.ltb_spec low w) as [Hlt|Hge].
  2:{ intros [= <- <- <-]. split; [by apply same_graph_refl, Hi|]. split; [done|]. split; [done|].
      split; [lia|done]. }
  rewrite round_spec by (unfold is_u64 in *; lia). simpl.
  destruct (coins !! w) as [c|]; [|done]. simpl. unfold DagAddress_new.
  set (l := mkDagAddress (4 * (w - 1) + 1) c).
  destruct (N.lt_ge_cases c (dag_n d)) as [Hc|Hc]; [|by rewrite knows_bad_creator].
  rewrite knows_present by (done || apply Hi). simpl.
  assert (is_u64 (4 * (w - 1 + 1))) as Hu' by (unfold is_u64 in *; lia).
  assert (id_sub_assign w 1 = Val (w - 1)%N) as Hsub1.
  { unfold id_sub_assign. by rewrite u64_sub_Val by lia. }
  case_bool_decide as Hk.
  - destruct (Dag_has_path_spec d v l) as (r & d1 & Hr & Hpath & Hg & Hex1 & Hdel & Hfrom); try done.
    { simpl. lia. }
    { destruct Hok as [Hok|Hok]; [left; simpl; by apply Hok|by right]. }
    rewrite Hr. simpl. rewrite Hsub1. simpl. intros Hl.
    assert (same_graph d1 d' /\ explored_bound d' /\ (forall b, deliveredb d' b = deliveredb d1 b)
      /\ (dag_explored_from d' <= N.max (dag_explored_from d1) (da_round v))%N
      /\ (forall a, a ∈ stack' -> is_Some (present d1 a))) as (Hg2 & Hex2 & Hd2 & Hf2 & Hs2).
    { assert (da_round l <= da_round v)%N by (simpl; lia).
      destruct r; apply IH in Hl; try done; rewrite ?(sg_offset _ _ Hg); try done;
        try (by eapply same_graph_inv); try (by apply (same_graph_is_Some _ _ _ Hg)); try (simpl; lia);
        try (right; rewrite Hfrom; simpl; lia).
      - destruct Hl as (? & ? & ? & ? & ?). repeat (split; [done|]). split; [lia|done].
      - intros a [->|Ha]%elem_of_cons; apply (same_graph_is_Some _ _ _ Hg); auto.
      - intros a Ha. apply (same_graph_is_Some _ _ _ Hg). auto. }
    split; [by eapply same_graph_trans|]. split; [done|]. split; [intros b; by rewrite Hd2, Hdel|].
    split; [lia|]. intros a Ha. by apply (same_graph_is_Some _ _ _ Hg), Hs2.
  - rewrite Hsub1. simpl. apply IH; try done. lia.
Qed.

(** ** Steps that leave the invariant's fields alone *)

Definition reflection_ok (s : NxBft B Tx Enc) : Prop :=
  forall m, m ∈ uo_reflection_messages (nx_output s) -> trusted (nx_quorum s) m.

Definition same_core (s s' : NxBft B Tx Enc) : Prop :=
  nx_n s' = nx_n s /\ nx_quorum s' = nx_quorum s /\ nx_dag s' = nx_dag s /\ nx_round s' = nx_round s
  /\ nx_decided_wave s' = nx_decided_wave s /\ nx_vertex_buffer s' = nx_vertex_buffer s
  /\ nx_longest_recovery_proposal s' = nx_longest_recovery_proposal s
  /\ nx_recovery_commits s' = nx_recovery_commits s
  /\ nx_me s' = nx_me s
  /\ (reflection_ok s -> reflection_ok s').

#[local] Instance same_core_preorder : PreOrder same_core.
Proof.
  split; [by intros s|]. intros s1 s2 s3 (?&?&?&?&?&?&?&?&?&?) (?&?&?&?&?&?&?&?&?&?).
  split_and!; try congruence. auto.
Qed.

Lemma same_core_keeps k s s' : same_core s s' -> keeps (nx_inv_upto k) s s'.
Proof.
  intros (Hn & Hq & Hd & Hr & Hdec & Hb & Hl & Hc & _ & Hrefl) [].
  split; rewrite ?Hn, ?Hq, ?Hd, ?Hr, ?Hdec, ?Hb, ?Hl, ?Hc; try done.
  rewrite <-Hq. by apply Hrefl.
Qed.

Lemma st_rel_core_keeps {A} k (m : St (NxBft B Tx Enc) A) : st_rel same_core m -> st_rel (keeps (nx_inv_upto k)) m.
Proof. intros Hm s a s' Hs. eapply same_core_keeps, Hm, Hs. Qed.

Lemma same_core_frame s s' :
  nx_n s' = nx_n s -> nx_quorum s' = nx_quorum s -> nx_dag s' = nx_dag s -> nx_round s' = nx_round s ->
  nx_decided_wave s' = nx_decided_wave s -> nx_vertex_buffer s' = nx_vertex_buffer s ->
  nx_longest_recovery_proposal s' = nx_longest_recovery_proposal s ->
  nx_recovery_commits s' = nx_recovery_commits s -> nx_me s' = nx_me s ->
  uo_reflection_messages (nx_output s') = uo_reflection_messages (nx_output s) -> same_core s s'.
Proof. intros ? Hq ? ? ? ? ? ? ? Hr. split_and!; try done. unfold reflection_ok. by rewrite Hr, Hq. Qed.

Ltac core_leaf :=
  match goal with
  | |- same_core ?s ?s' => apply same_core_frame; reflexivity
  | Hf : _ = Val ?s' |- same_core ?s ?s' =>
      repeat (match type of Hf with
              | (?m ≫= _) = _ => destruct m; simpl in Hf; try discriminate Hf
              end);
      injection Hf as <-; apply same_core_frame; reflexivity
  end.
Ltac core := repeat (st_rel_step || core_leaf).

(** The messages other than recovery commits can be sent freely. *)
Definition plain (m : Message B Tx Enc) : Prop := match m with RecoveryCommitMsg _ => False | _ => True end.

Lemma plain_trusted q i m : plain m -> trusted q (mkPeerMessage i m).
Proof. unfold trusted. by destruct m. Qed.

Lemma broadcast_core m : plain m -> st_rel same_core (broadcast m).
Proof.
  intros Hm. unfold broadcast. st_rel_step; [core|]. intros me. st_rel_step. split_and!; try done.
  intros Hr x. unfold reflection_ok in *. simpl. rewrite elem_of_app, list_elem_of_singleton.
  intros [Hx| ->]; [by apply Hr|]. by apply plain_trusted.
Qed.

Lemma unicast_core to m : plain m -> st_rel same_core (unicast to m).
Proof.
  intros Hm. unfold unicast. st_rel_step; [core|]. intros me. st_rel_step.
  unfold UnreflectedOutput_unicast. simpl. destruct (to =? uo_me (nx_output s))%N.
  - split_and!; try done. intros Hr x. unfold reflection_ok in *. simpl.
    rewrite elem_of_app, list_elem_of_singleton. intros [Hx| ->]; [by apply Hr|]. by apply plain_trusted.
  - by apply same_core_frame.
Qed.

Lemma state_message_core m : st_rel same_core (state_message (Enc := Enc) (Tx := Tx) m).
Proof. unfold state_message. core. Qed.
#[local] Hint Resolve state_message_core : st_rel.
#[local] Hint Extern 1 (st_rel same_core (broadcast _)) => (apply broadcast_core; exact I) : st_rel.
#[local] Hint Extern 1 (st_rel same_core (unicast _ _)) => (apply unicast_core; exact I) : st_rel.
Lemma peer_error_core i e : st_rel same_core (peer_error (Enc := Enc) (Tx := Tx) i e).
Proof. unfold peer_error. core. Qed.
Lemma verbose_core v : st_rel same_core (verbose (Enc := Enc) (Tx := Tx) v).
Proof. unfold verbose. core. Qed.
Lemma enclave_error_core e : st_rel same_core (enclave_error (Enc := Enc) (Tx := Tx) e).
Proof. unfold enclave_error. core. Qed.
Lemma now_core : st_rel same_core (now (Enc := Enc) (Tx := Tx) clock).
Proof. unfold now. core. Qed.
#[local] Hint Resolve peer_error_core verbose_core enclave_error_core now_core : st_rel.
Lemma elapsed_core t : st_rel same_core (elapsed (Enc := Enc) (Tx := Tx) clock t).
Proof. unfold elapsed. core. Qed.
Lemma enclave_call_core {A} (f : Enc -> Outcome (A * Enc)) : st_rel same_core (enclave_call (Tx := Tx) f).
Proof. unfold enclave_call. core. Qed.
Lemma set_buffer_core i f : st_rel same_core (set_buffer (Enc := Enc) (Tx := Tx) i f).
Proof. unfold set_buffer. core. Qed.
Lemma verify_core i c v sig : st_rel same_core (verify (Enc := Enc) (Tx := Tx) i c v sig).
Proof. unfold verify. core. Qed.
Lemma request_vertex_core a : st_rel same_core (request_vertex (Enc := Enc) (Tx := Tx) a).
Proof. unfold request_vertex. core. Qed.
#[local] Hint Resolve elapsed_core enclave_call_core set_buffer_core verify_core request_vertex_core : st_rel.
Lemma create_vertex_core b : st_rel same_core (create_vertex (Enc := Enc) (Tx := Tx) clock b).
Proof. unfold create_vertex, Vertex_new, Vertex_new_with_custom. core. Qed.
Lemma check_edges_core r es add : st_rel same_core (check_edges (Enc := Enc) (Tx := Tx) r es add).
Proof. revert add. induction es as [|c es IH]; intros add; simpl; core. Qed.
Lemma answer_requests_core a : st_rel same_core (answer_requests (Enc := Enc) (Tx := Tx) a).
Proof. unfold answer_requests. core. Qed.
#[local] Hint Resolve create_vertex_core check_edges_core answer_requests_core : st_rel.
Lemma process_vertex_request_core i a : st_rel same_core (process_vertex_request (Enc := Enc) (Tx := Tx) i a).
Proof. unfold process_vertex_request. core. Qed.
Lemma process_hello_core i a : st_rel same_core (process_hello (Enc := Enc) (Tx := Tx) i a).
Proof. unfold process_hello. core. Qed.
Lemma process_hello_reply_core i h : st_rel same_core (process_hello_reply (Enc := Enc) (Tx := Tx) i h).
Proof. unfold process_hello_reply. core. Qed.
#[local] Hint Resolve process_hello_reply_core : st_rel.
Lemma process_hello_echo_core i c a : st_rel same_core (process_hello_echo (Enc := Enc) (Tx := Tx) i c a).
Proof. unfold process_hello_echo. core. Qed.
Lemma process_ready_core i : st_rel same_core (process_ready (Enc := Enc) (Tx := Tx) i).
Proof. unfold process_ready. core. Qed.

(** ** Deciding a wave *)

Lemma deliver_transactions_core txs : st_rel same_core (deliver_transactions (Enc := Enc) (B := B) txs).
Proof. intros s a s'. rewrite deliver_transactions_spec. intros [= _ <-]. by apply same_core_frame. Qed.
#[local] Hint Resolve deliver_transactions_core : st_rel.

(** A decision: the DAG has changed in its marks only, and nothing above the
    leader of the decided wave is explored. *)
Lemma decided_inv s w d' :
  nx_inv s -> nx_round s = (4 * w)%N -> same_graph (nx_dag s) d' -> explored_bound d' ->
  delivered_closed d' ->
  (dag_explored_from d' <= N.max (dag_explored_from (nx_dag s)) (4 * (w - 1) + 1))%N ->
  nx_inv_upto 1 s.[nx_dag := d'].[nx_decided_wave := w].
Proof.
  intros [] Hr Hg Hb Hcl Hf. split; simpl; try done.
  - by eapply same_graph_inv.
  - by rewrite (sg_n _ _ Hg).
  - by rewrite (sg_offset _ _ Hg).
  - by rewrite (sg_max_round _ _ Hg).
  - by eapply same_graph_Reach.
  - intros w' Hw'. pose proof (ni_explored0 w'). lia.
  - lia.
  - intros a v Hv Hra. apply (same_graph_Some_inv _ _ _ _ Hg) in Hv as (x & Hx & Hvx & _).
    rewrite Hvx. by apply (ni_edges0 a).
Qed.

Lemma decide_wave_keeps s w c s' :
  nx_inv s -> nx_round s = (4 * w)%N -> (1 <= w)%N ->
  is_Some (present (nx_dag s) (mkDagAddress (4 * (w - 1) + 1) c)) ->
  decide_wave clock w (mkDagAddress (4 * (w - 1) + 1) c) s = Val ((), s') -> nx_inv_upto 1 s'.
Proof.
  intros Hi Hr Hw Hl. set (l := mkDagAddress (4 * (w - 1) + 1) c). unfold decide_wave.
  pose proof (ni_decided _ _ Hi) as Hdec.
  assert (is_u64 (4 * w)) as Hu.
  { rewrite <-Hr, <-(ni_round _ _ Hi). apply (shape_max_round _ (inv_shape _ (ni_dag _ _ Hi))). }
  erewrite st_bind_Val by done. erewrite st_bind_Val by done.
  erewrite st_bind_Val by (apply lift_Val; unfold id_sub; apply u64_sub_Val; unfold as_u64; lia).
  do 3 erewrite st_bind_Val by done. simpl nx_pending_wave_coins. simpl nx_decided_wave. simpl nx_dag.
  destruct (leaders_loop _ _ _ _ _ _ _ _) as [[[stack waves] d1]| |] eqn:Hloop; try done.
  erewrite st_bind_Val by done. erewrite st_bind_Val by done. cbn [fst snd].
  apply leaders_loop_Val in Hloop as (Hg1 & Hb1 & Hd1 & Hf1 & Hst); try apply Hi; try done.
  2:{ left. apply Hi. }
  2:{ unfold is_u64, as_u64 in *. lia. }
  2:{ unfold as_u64. simpl. lia. }
  2:{ by intros a ->%list_elem_of_singleton. }
  assert (delivered_closed d1) as Hcl1.
  { intros a b Ha Hab. rewrite Hd1 in *. apply (ni_closed _ _ Hi a); [done|].
    by apply (same_graph_edge _ _ _ _ Hg1). }
  pose proof (same_graph_inv _ _ Hg1 (ni_dag _ _ Hi)) as Hi1.
  assert (dag_offset d1 = 1%N) as Ho1 by (rewrite (sg_offset _ _ Hg1); apply Hi).
  assert (forall a, a ∈ stack -> is_Some (present d1 a)) as Hst1.
  { intros a Ha. by apply (same_graph_is_Some _ _ _ Hg1), Hst. }
  destruct (deliver_all_spec d1 stack Hi1 Ho1 Hcl1 Hst1) as (out & d2 & Hall & Hg2 & _ & _ & _ & Hcl2 & Hx2 & Hf2).
  erewrite st_bind_Val by (apply deliver_leaders_spec with (d' := d2); try done).
  erewrite st_bind_Val by done. erewrite st_bind_Val by done. intros [= <-].
  eapply same_core_keeps; [|apply (decided_inv s w d2); try done].
  - by apply same_core_frame.
  - by eapply same_graph_trans.
  - intros a Ha. rewrite Hf2. apply Hb1. by rewrite <-Hx2.
  - rewrite Hf2. simpl in Hf1. lia.
Qed.

(** Between the decision and the round change the invariant has slack. *)
Lemma nx_inv_slack k s : nx_inv s -> nx_inv_upto k s.
Proof. intros []. split; try done. lia. Qed.

Lemma commit_rule_keeps s w c s' :
  nx_inv s -> nx_round s = (4 * w)%N -> (1 <= w)%N ->
  commit_rule clock w c s = Val ((), s') -> nx_inv_upto 1 s'.
Proof.
  intros Hi Hr Hw. unfold commit_rule.
  assert (is_u64 (4 * w)) as Hu.
  { rewrite <-Hr, <-(ni_round _ _ Hi). apply (shape_max_round _ (inv_shape _ (ni_dag _ _ Hi))). }
  erewrite st_bind_Val by (apply lift_Val, round_spec; (done || lia)).
  destruct (N.lt_ge_cases c (dag_n (nx_dag s))) as [Hc|Hc].
  2:{ unfold mbind, St_bind, inspect. by rewrite knows_bad_creator. }
  erewrite st_bind_Val by (apply inspect_Val, knows_present; [apply Hi|done]).
  case_bool_decide as Hk; cbn [negb].
  2:{ intros Hs. apply nx_inv_slack. by eapply same_core_keeps; [eapply state_message_core|]. }
  erewrite st_bind_Val by (apply lift_Val, round_spec; (done || lia)).
  intros (k & _ & Hs)%bind_inspect_inv. erewrite st_bind_Val in Hs by done. revert Hs.
  destruct (k <? nx_quorum s)%N.
  - intros Hs. apply nx_inv_slack. by eapply same_core_keeps; [eapply state_message_core|].
  - by apply decide_wave_keeps.
Qed.

Lemma wave_ready_keeps s s' :
  nx_inv s -> (nx_round s mod 4 = 0)%N -> wave_ready clock s = Val ((), s') -> nx_inv_upto 1 s'.
Proof.
  intros Hi Hmod. unfold wave_ready. erewrite st_bind_Val by done.
  destruct (N.leb_spec 4 (as_u64 (nx_round s))) as [Hge4|Hge4]; [|done].
  erewrite st_bind_Val by done.
  assert (Wave_from (nx_round s) = Val (nx_round s / 4)%N) as Hwv.
  { unfold Wave_from. by rewrite (proj2 (N.leb_le _ _)). }
  erewrite st_bind_Val by by apply lift_Val.
  assert (nx_round s = 4 * (nx_round s / 4))%N as Hr.
  { pose proof (N.div_mod (nx_round s) 4). lia. }
  set (w := (nx_round s / 4)%N) in *. unfold as_u64 in Hge4.
  intros (proof & _ & (r & s1 & Hcall & Hrest)%st_bind_inv)%bind_inspect_inv. revert Hrest.
  apply enclave_call_core in Hcall. destruct r as [leader|e].
  - erewrite st_bind_Val by done. set (s2 := s1.[nx_pending_wave_coins ::= _]).
    assert (same_core s s2) as Hcore.
    { etransitivity; [exact Hcall|]. by apply same_core_frame. }
    intros Hs. eapply commit_rule_keeps; [by eapply same_core_keeps|..|exact Hs]; [|lia].
    destruct Hcore as (_ & _ & _ & -> & _). done.
  - intros Hs. apply nx_inv_slack. eapply same_core_keeps; [by eapply enclave_error_core|].
    by eapply same_core_keeps.
Qed.

(** ** The vertex buffer *)

Lemma check_edges_true r es add s s' :
  check_edges r es add s = Val (true, s') ->
  add = true /\ forall c, c ∈ es -> exists x, id_sub r 1 = Val x
    /\ Dag_knows (nx_dag s) (mkDagAddress x c) = Val true.
Proof.
  revert add s. induction es as [|c es IH]; intros add s; simpl.
  { intros [= -> <-]. split; [done|]. by intros c ?%not_elem_of_nil. }
  intros (x & Hx & (k & Hk & Hrest)%bind_inspect_inv)%bind_lift_inv.
  destruct k.
  - apply IH in Hrest as [-> Hes]. split; [done|]. intros c' [->|Hc]%elem_of_cons; eauto.
  - erewrite st_bind_Val in Hrest by done. destruct (bool_decide _).
    + by apply IH in Hrest as [? _].
    + apply st_bind_inv in Hrest as (a & s1 & _ & Hrest). by apply IH in Hrest as [? _].
Qed.

Lemma insert_keeps s x d' :
  nx_inv s -> vertex_ok (nx_quorum s) x -> insertable (nx_dag s) x -> Dag_insert (nx_dag s) x = Val d' ->
  nx_inv s.[nx_dag := d'].
Proof.
  intros [] Hok Hx Hins. destruct (Dag_insert_spec (nx_dag s) x ni_dag0 Hx) as (d1 & t & Hd1 & Ht & Hi1 & Hset).
  rewrite Hins in Hd1. injection Hd1 as <-.
  pose proof Hset as (_ & Hp & Hn & Ho & Hm & Hf).
  assert (forall a b, dag_edge d' a b -> a <> Vertex_address x -> dag_edge (nx_dag s) a b) as Hedge.
  { intros a b Hab Ha. apply (dag_edge_insert _ _ x t ni_dag0 Hx Hset) in Hab as [?|[? _]]; done. }
  split; simpl; rewrite ?Hn, ?Ho, ?Hm, ?Hf; try done.
  - by eapply (Reach_inv_insert (nx_dag s) d' x t).
  - intros a. unfold exploredb. rewrite Hp, Hf. case_decide; [done|]. apply ni_bound0.
  - intros a b. unfold deliveredb at 1. rewrite Hp. case_decide as Ha; [done|]. intros Hd Hab.
    assert (dag_edge (nx_dag s) a b) as Hab' by by apply Hedge.
    pose proof (ni_closed0 a b Hd Hab') as Hb. unfold deliveredb in *. rewrite Hp.
    case_decide as Hbx; [|done]. subst b. destruct Hx as [Hnone _]. by rewrite Hnone in Hb.
  - intros a v Hv Hr. rewrite Hp in Hv. case_decide as Ha; [|by apply (ni_edges0 a)].
    injection Hv as <-. subst a. simpl. apply Hok. done.
Qed.

(** What the walk over the buffer needs of a relation to respect it: it relates
    the states around a message to the environment and around an insertion. *)
Record walk_rel (R : relation (NxBft B Tx Enc)) : Prop := {
  wr_preorder : PreOrder R;
  wr_edges : forall r es add, st_rel R (check_edges r es add);
  wr_verbose : forall v, st_rel R (verbose v);
  wr_answer : forall a, st_rel R (answer_requests a);
  wr_error : forall i e, st_rel R (peer_error i e);
  wr_buffer : forall s h, R s s.[nx_vertex_buffer := h];
  wr_rounds : forall s m, R s s.[nx_max_rounds := m];
  wr_pending : forall s f, R s s.[nx_pending_vertices ::= f];
  wr_insert : forall s x d', nx_inv s -> vertex_ok (nx_quorum s) x -> insertable (nx_dag s) x ->
    Dag_insert (nx_dag s) x = Val d' -> R s s.[nx_dag := d'];
}.

Lemma walk_rel_top : walk_rel (fun _ _ => True).
Proof. by split. Qed.

Lemma traverse_loop_keeps R fuel c ins s c' ins' s' :
  walk_rel R ->
  nx_inv s -> Cursor_inv c -> (forall v, v ∈ Cursor_contents c -> vertex_ok (nx_quorum s) v) ->
  traverse_loop fuel c ins s = Val ((c', ins'), s') ->
  nx_inv s' /\ Cursor_inv c' /\ (forall v, v ∈ Cursor_contents c' -> vertex_ok (nx_quorum s) v)
  /\ nx_quorum s' = nx_quorum s /\ nx_round s' = nx_round s /\ nx_n s' = nx_n s /\ R s s'.
Proof.
  intros HR. pose proof (wr_preorder R HR) as Hpre.
  revert c ins s. induction fuel as [|fuel IH]; intros c ins s Hi Hc Hok; [done|]. simpl.
  destruct (Cursor_advance_spec c Hc) as (c1 & Hadv & Hc1 & Hcont & Hcur & Hheap & Hkept).
  assert (forall v, v ∈ Cursor_contents c1 -> vertex_ok (nx_quorum s) v) as Hok1.
  { intros v Hv. apply Hok. by rewrite <-Hcont. }
  erewrite st_bind_Val by (apply lift_Val; exact Hadv). cbn [fst snd].
  destruct (ch_heap (cur_heap c)) as [|v heap] eqn:Hh; simpl in *.
  { intros [= <- <- <-]. by split_and!. }
  erewrite st_bind_Val by done. destruct (nx_round s <? Vertex_round v)%N.
  { intros [= <- <- <-]. by split_and!. }
  intros (add & s1 & Hadd & Hrest)%st_bind_inv.
  pose proof (check_edges_core _ _ _ _ _ _ Hadd) as Hcore. pose proof (wr_edges R HR _ _ _ _ _ _ Hadd) as HR1.
  pose proof (same_core_keeps 0 _ _ Hcore Hi) as Hi1.
  destruct Hcore as (Hn1 & Hq1 & Hd1 & Hr1 & _).
  destruct add; cbn [negb] in Hrest.
  2:{ apply IH in Hrest as (? & ? & ? & ? & ? & ? & ?); [|done|done|by rewrite Hq1].
      rewrite Hq1 in *. split_and!; (done || congruence || by etransitivity). }
  apply st_bind_inv in Hrest as ([] & s2 & Hv & Hrest). pose proof (wr_verbose R HR _ _ _ _ Hv) as HR2.
  apply verbose_core in Hv.
  pose proof (same_core_keeps 0 _ _ Hv Hi1) as Hi2. destruct Hv as (Hn2 & Hq2 & Hd2 & Hr2 & _).
  destruct (Cursor_remove_spec c1 v Hc1 Hcur) as (c2 & Hrem & Hc2 & Hcont1 & Hcont2 & _).
  erewrite st_bind_Val in Hrest by (apply lift_Val; exact Hrem). cbn [fst snd] in Hrest.
  apply bind_update_inv in Hrest as (s3 & Hins & Hrest).
  apply outcome_bind_inv in Hins as (d3 & Hins & [= <-]).
  assert (vertex_ok (nx_quorum s) v) as Hvok.
  { apply Hok1. rewrite Hcont1. set_solver. }
  assert (insertable (nx_dag s2) v) as Hinsertable.
  { pose proof (inv_shape _ (ni_dag _ _ Hi2)) as Hs2.
    destruct (insert_needs _ _ _ Hs2 Hins) as (Hnone & Hrange & Hcr). split_and!; try done; try lia.
    intros e He. apply check_edges_true in Hadd as [_ Hes].
    destruct (Hes e) as (x & Hx & Hk); [by apply IdSet_elem_of_iter|].
    pose proof (ni_offset _ _ Hi2) as Ho2.
    unfold id_sub, as_u64 in Hx. rewrite u64_sub_Val in Hx by lia. injection Hx as <-.
    rewrite Hd2, Hd1. apply knows_true in Hk as [? ?]; [|apply Hi]. simpl in *. split; [done|]. split; [lia|done]. }
  assert (vertex_ok (nx_quorum s2) v) as Hvok2 by by rewrite Hq2, Hq1.
  apply IH in Hrest as (? & ? & ? & ? & ? & ? & HR3).
  - pose proof (wr_insert R HR s2 v d3 Hi2 Hvok2 Hinsertable Hins) as HR4.
    simpl in *. rewrite Hq2, Hq1 in *. split_and!; try (done || congruence).
    by do 3 (etransitivity; [eassumption|]).
  - by apply (insert_keeps s2 v d3).
  - done.
  - simpl. rewrite Hq2, Hq1. intros x Hx. apply Hok. rewrite <-Hcont, Hcont1.
    rewrite Hcont2 in Hx. set_solver.
Qed.

(** ** The handlers *)

(** Entering the next round. *)
Lemma next_round_keeps s r d' :
  nx_inv_upto 1 s -> id_add_assign (nx_round s) 1 = Val r -> Dag_new_round (nx_dag s) = Val d' ->
  nx_inv s.[nx_round := r].[nx_dag := d'].
Proof.
  intros [] Hr Hd. unfold id_add_assign, u64_add in Hr.
  destruct (N.ltb_spec (nx_round s + 1) (2 ^ 64)) as [Hlt|Hge].
  - injection Hr as <-. destruct (Dag_new_round_inv (nx_dag s) ni_dag0) as (d1 & Hd1 & Hi1 & Hp & Hn & Ho & Hm & Hf).
    { unfold is_u64. by rewrite ni_round0. }
    rewrite Hd in Hd1. injection Hd1 as <-.
    assert (forall a b, dag_edge d' a b <-> dag_edge (nx_dag s) a b) as Hedge.
    { intros a b. unfold dag_edge. by setoid_rewrite Hp. }
    assert (forall a b, dag_path d' a b <-> dag_path (nx_dag s) a b) as Hpath by (intros; by apply rtc_equiv).
    split; simpl; rewrite ?Hn, ?Ho, ?Hm, ?Hf; try done; try lia.
    + intros a v l Hv. rewrite !Hpath. rewrite Hp in Hv. by apply ni_reach0.
    + intros a. unfold exploredb. rewrite Hp, Hf. apply ni_bound0.
    + intros a b. unfold deliveredb. rewrite !Hp, Hedge. apply ni_closed0.
    + intros a v Hv. rewrite Hp in Hv. by apply (ni_edges0 a).
  - by rewrite Hchecks in Hr.
Qed.

(** The walk over the buffer, and what follows when it completes the round. *)
Lemma traverse_vertex_buffer_cases R s s' :
  walk_rel R -> nx_inv s -> traverse_vertex_buffer clock s = Val ((), s') ->
  exists s3, nx_inv s3 /\ R s s3
    /\ (s' = s3 \/ exists s4 r d5 m s6 v,
         (if (nx_round s3 mod 4 =? 0)%N then wave_ready clock s3 = Val ((), s4) else s4 = s3)
         /\ id_add_assign (nx_round s4) 1 = Val r /\ Dag_new_round (nx_dag s4) = Val d5
         /\ state_message m s4.[nx_round := r].[nx_dag := d5] = Val ((), s6)
         /\ create_vertex clock false s6 = Val (v, s')).
Proof.
  intros HR Hi Ht. pose proof (wr_preorder R HR) as Hpre. unfold traverse_vertex_buffer in Ht.
  erewrite st_bind_Val in Ht by done.
  apply st_bind_inv in Ht as ([c ins] & s1 & Hloop & Ht).
  destruct (Cursor_new_inv (nx_vertex_buffer s)) as [Hcur Hcont].
  apply (traverse_loop_keeps R) in Hloop as (Hi1 & Hc1 & Hok1 & Hq1 & Hr1 & Hn1 & HR1); [|done|done|done|].
  2:{ unfold CursoredHeap_cursor. rewrite Hcont. apply Hi. }
  destruct (Cursor_finalize_spec c Hc1) as (h & Hfin & _ & Hperm).
  erewrite st_bind_Val in Ht by (apply lift_Val; exact Hfin). erewrite st_bind_Val in Ht by done.
  assert (nx_inv s1.[nx_vertex_buffer := h]) as Hi2.
  { destruct Hi1. split; simpl; try done. intros v. rewrite Hperm, Hq1. apply Hok1. }
  apply st_bind_inv in Ht as ([] & s3 & Hans & Ht).
  assert (same_core s1.[nx_vertex_buffer := h] s3) as Hcore3.
  { revert Hans. apply st_rel_for; [apply _|]. apply answer_requests_core. }
  assert (R s s3) as HR3.
  { etransitivity; [exact HR1|]. etransitivity; [apply (wr_buffer R HR s1 h)|]. revert Hans.
    apply st_rel_for; [done|]. apply HR. }
  exists s3. split; [by eapply same_core_keeps|]. split; [done|].
  apply bind_inspect_inv in Ht as (complete & _ & Ht).
  destruct complete; cbn [negb] in Ht; [|left; by injection Ht as <-]. right.
  erewrite st_bind_Val in Ht by done. apply st_bind_inv in Ht as ([] & s4 & Hwave & Ht).
  erewrite st_bind_Val in Ht by done. apply bind_lift_inv in Ht as (r & Hr & Ht).
  erewrite st_bind_Val in Ht by done. apply bind_update_inv in Ht as (s5 & Hd & Ht).
  apply outcome_bind_inv in Hd as (d5 & Hd & [= <-]).
  apply st_bind_inv in Ht as ([] & s6 & Hm & Ht). apply st_bind_inv in Ht as (v & s7 & Hcv & [= <-]).
  exists s4, r, d5, (SM_Consensus (RoundTransition r)), s6, v. split; [|done].
  unfold as_u64 in Hwave. destruct (_ =? _)%N; [done|]. by injection Hwave as <-.
Qed.

Lemma traverse_vertex_buffer_keeps : st_rel (keeps nx_inv) (traverse_vertex_buffer clock).
Proof.
  intros s [] s' Ht Hi. destruct (traverse_vertex_buffer_cases _ s s' walk_rel_top Hi Ht)
    as (s3 & Hi3 & _ & [->|(s4 & r & d5 & m & s6 & v & Hwave & Hr & Hd & Hm & Hcv)]); [done|].
  assert (nx_inv_upto 1 s4) as Hi4.
  { destruct (N.eqb_spec (nx_round s3 mod 4) 0); [by eapply wave_ready_keeps|].
    subst s4. by apply nx_inv_slack. }
  pose proof (next_round_keeps s4 r d5 Hi4 Hr Hd) as Hi5.
  eapply same_core_keeps; [by eapply create_vertex_core|].
  eapply same_core_keeps; [by eapply state_message_core|]. exact Hi5.
Qed.
#[local] Hint Resolve traverse_vertex_buffer_keeps : st_rel.

(** A step that touches no field of the invariant. *)
Ltac keeps_leaf :=
  match goal with
  | |- keeps nx_inv ?s ?s' => apply same_core_keeps, same_core_frame; reflexivity
  | Hf : _ = Val ?s' |- keeps nx_inv ?s ?s' =>
      repeat (match type of Hf with
              | (?m ≫= _) = _ => destruct m; simpl in Hf; try discriminate Hf
              end);
      injection Hf as <-; apply same_core_keeps, same_core_frame; reflexivity
  | |- st_rel (keeps nx_inv) _ => apply st_rel_core_keeps; solve [eauto with st_rel]
  end.
Ltac keep := repeat (keeps_leaf || st_rel_step).

Lemma buffer_insert_keeps s v :
  vertex_ok (nx_quorum s) v -> keeps nx_inv s s.[nx_vertex_buffer ::= fun b => CursoredHeap_insert b v].
Proof.
  intros Hok []. split; simpl; try done. intros x. rewrite MinHeap_push_Permutation.
  intros [->|Hx]%elem_of_cons; [done|by apply ni_buffer0].
Qed.

(** A vertex is dropped, or enters the buffer, which is then walked over. *)
Lemma process_vertex_cases R v s s' :
  walk_rel R -> nx_inv s -> process_vertex clock v s = Val ((), s') ->
  exists s1, nx_inv s1 /\ R s s1 /\ (s' = s1 \/ traverse_vertex_buffer clock s1 = Val ((), s')).
Proof.
  intros HR Hi Hp. pose proof (wr_preorder R HR) as Hpre.
  assert (exists s1, nx_inv s1 /\ R s s1 /\ (s = s1 \/ traverse_vertex_buffer clock s1 = Val ((), s))) as Hsame
    by (exists s; split_and!; [done|reflexivity|by left]).
  unfold process_vertex in Hp. erewrite st_bind_Val in Hp by done.
  destruct (CursoredHeap_knows _ v); [by injection Hp as <-|].
  apply bind_inspect_inv in Hp as (k & _ & Hp). destruct k; [by injection Hp as <-|]. clear Hsame.
  assert (forall e, peer_error (Vertex_creator v) e s = Val ((), s') ->
    exists s1, nx_inv s1 /\ R s s1 /\ (s' = s1 \/ traverse_vertex_buffer clock s1 = Val ((), s'))) as Herr.
  { intros e He. exists s'. split; [by eapply same_core_keeps; [eapply peer_error_core|]|].
    split; [by eapply (wr_error R HR)|by left]. }
  destruct ((as_u64 (Vertex_round v) =? 1)%N && _) eqn:E1; [by eapply Herr|].
  erewrite st_bind_Val in Hp by done.
  destruct ((1 <? as_u64 (Vertex_round v))%N && _) eqn:E2; [by eapply Herr|]. clear Herr.
  assert (vertex_ok (nx_quorum s) v) as Hok.
  { unfold as_u64 in *. apply andb_false_iff in E1, E2. split; intros Hr.
    - destruct E1 as [E1|E1]; [by apply N.eqb_neq in E1|]. apply N.ltb_ge in E1. lia.
    - destruct E2 as [E2|E2]; [apply N.ltb_ge in E2; lia|]. apply negb_false_iff in E2.
      by apply N.leb_le in E2. }
  apply bind_update_inv in Hp as (s1 & Hs1 & Hp). apply outcome_bind_inv in Hs1 as (m & _ & [= <-]).
  erewrite st_bind_Val in Hp by done. apply st_bind_inv in Hp as ([] & s2 & Hv & Hp).
  pose proof (wr_verbose R HR _ _ _ _ Hv) as HRv. apply verbose_core in Hv.
  erewrite st_bind_Val in Hp by done.
  assert (nx_inv s2) as Hi2.
  { eapply same_core_keeps; [exact Hv|]. by eapply same_core_keeps; [apply same_core_frame|exact Hi]. }
  eexists. split; [|split; [|right; exact Hp]].
  - destruct Hv as (_ & Hq & _). simpl in Hq. apply buffer_insert_keeps; [by rewrite Hq|done].
  - etransitivity; [apply (wr_rounds R HR s m)|]. etransitivity; [exact (wr_pending R HR s.[nx_max_rounds := m] (fun p => p ∖ {[Vertex_address v]}))|].
    etransitivity; [exact HRv|]. exact (wr_buffer R HR s2 (CursoredHeap_insert (nx_vertex_buffer s2) v)).
Qed.

Lemma process_vertex_keeps v : st_rel (keeps nx_inv) (process_vertex clock v).
Proof.
  intros s [] s' Hp Hi. destruct (process_vertex_cases _ v s s' walk_rel_top Hi Hp)
    as (s1 & Hi1 & _ & [->|Ht]); [done|by eapply traverse_vertex_buffer_keeps].
Qed.
#[local] Hint Resolve process_vertex_keeps : st_rel.

Lemma deliver_signed_loop_keeps fuel i : st_rel (keeps nx_inv) (deliver_signed_loop clock fuel i).
Proof. induction fuel as [|fuel IH]; simpl; keep. Qed.
#[local] Hint Resolve deliver_signed_loop_keeps : st_rel.
Lemma process_signed_message_keeps i m : st_rel (keeps nx_inv) (process_signed_message clock i m).
Proof. unfold process_signed_message. keep. Qed.
#[local] Hint Resolve process_vertex_request_core process_hello_core process_hello_echo_core
  process_ready_core process_signed_message_keeps : st_rel.

(** ** Recovery *)

Lemma remove_creator_loop_sub fuel i c c' :
  Cursor_inv c -> remove_creator_loop (Enc := Enc) (Tx := Tx) fuel i c = Val c' ->
  Cursor_inv c' /\ forall v, v ∈ Cursor_contents c' -> v ∈ Cursor_contents c.
Proof.
  revert c. induction fuel as [|fuel IH]; intros c Hc; [done|]. simpl.
  destruct (Cursor_advance_spec c Hc) as (c1 & -> & Hc1 & Hcont & Hcur & _). simpl.
  destruct (ch_heap (cur_heap c)) as [|v heap] eqn:Hh; simpl in *.
  { intros [= <-]. split; [done|]. intros x. by rewrite Hcont. }
  destruct (Vertex_creator v =? i)%N.
  - destruct (Cursor_remove_spec c1 v Hc1 Hcur) as (c2 & -> & Hc2 & Hcont1 & Hcont2 & _). simpl.
    intros Hl. apply IH in Hl as [? Hsub]; [|done]. split; [done|]. intros x Hx. apply Hsub in Hx.
    rewrite <-Hcont, Hcont1. rewrite Hcont2 in Hx. set_solver.
  - intros Hl. apply IH in Hl as [? Hsub]; [|done]. split; [done|]. intros x Hx. apply Hsub in Hx.
    by rewrite <-Hcont.
Qed.

Lemma remove_creator_sub i h h' :
  remove_creator (Enc := Enc) (Tx := Tx) i h = Val h' -> forall v, v ∈ ch_heap h' -> v ∈ ch_heap h.
Proof.
  intros (c & Hl & Hf)%outcome_bind_inv v Hv. destruct (Cursor_new_inv h) as [Hc Hcont].
  apply remove_creator_loop_sub in Hl as [Hc' Hsub]; [|done].
  destruct (Cursor_finalize_spec c Hc') as (h1 & Hf1 & _ & Hperm). rewrite Hf in Hf1. injection Hf1 as <-.
  rewrite Hperm in Hv. apply Hsub in Hv. unfold CursoredHeap_cursor in Hv. by rewrite Hcont in Hv.
Qed.

Lemma remove_creator_keeps s i h :
  remove_creator i (nx_vertex_buffer s) = Val h -> keeps nx_inv s s.[nx_vertex_buffer := h].
Proof.
  intros Hr []. split; simpl; try done. intros v Hv. apply ni_buffer0. by eapply remove_creator_sub.
Qed.

Lemma set_commits_keeps s att l :
  (forall c, Some c ∈ l -> messages_ok (nx_quorum s) (rc_messages c)) ->
  keeps nx_inv s s.[nx_recovery_commits ::= insert att l].
Proof.
  intros Hl []. split; simpl; try done. intros att' l' c. rewrite lookup_insert_Some.
  intros [[<- <-]|[_ Hlk]] Hc; [by apply Hl|by eapply ni_commits0].
Qed.

Lemma set_longest_keeps s att ms :
  messages_ok (nx_quorum s) ms -> keeps nx_inv s s.[nx_longest_recovery_proposal ::= insert att ms].
Proof.
  intros Hms []. split; simpl; try done. intros att' ms'. rewrite lookup_insert_Some.
  intros [[<- <-]|[_ Hlk]]; [done|by eapply ni_longest0].
Qed.

Lemma delete_longest_keeps s att : keeps nx_inv s s.[nx_longest_recovery_proposal ::= delete att].
Proof.
  intros []. split; simpl; try done. intros att' ms' [_ Hlk]%lookup_delete_Some. by eapply ni_longest0.
Qed.

Lemma IdMap_new_None_elem {A} (n : N) (c : A) : Some c ∈ IdMap_new None n -> False.
Proof. unfold IdMap_new. intros (x & Hx & _)%list_elem_of_fmap. done. Qed.

Lemma process_recovery_request_keeps i att : st_rel (keeps nx_inv) (process_recovery_request i att).
Proof.
  unfold process_recovery_request. keep.
  - apply set_commits_keeps. by intros c ?%IdMap_new_None_elem.
  - apply set_longest_keeps. by intros m ?%not_elem_of_nil.
  - match goal with Hf : _ = Val _ |- _ => apply outcome_bind_inv in Hf as (h & Hr & [= <-]) end.
    by eapply remove_creator_keeps.
Qed.
#[local] Hint Resolve process_recovery_request_keeps : st_rel.

Lemma row_invalid_ok q prev vs :
  row_invalid (Enc := Enc) q prev vs = Val false -> forall v, v ∈ vs -> vertex_ok q v.
Proof.
  revert prev. induction vs as [|x vs IH]; intros prev; simpl; [by intros _ v ?%not_elem_of_nil|].
  intros (gap & _ & Hr)%outcome_bind_inv.
  destruct (gap || _ || _) eqn:E; [done|]. apply orb_false_iff in E as [E E2].
  apply orb_false_iff in E as [_ E1]. apply andb_false_iff in E1, E2.
  intros v [->|Hv]%elem_of_cons; [|by eapply IH].
  split; intros Hrd.
  - destruct E1 as [E1|E1]; [by apply N.eqb_neq in E1|]. apply N.ltb_ge in E1. lia.
  - destruct E2 as [E2|E2]; apply N.ltb_ge in E2; lia.
Qed.

Lemma verify_messages_Some e ms vs :
  verify_messages (Tx := Tx) e ms = Val (Ok (Some vs)) -> vs = sm_payload <$> ms.
Proof.
  revert vs. induction ms as [|m ms IH]; intros vs; simpl; [by intros [= <-]|].
  intros (ok & _ & Hr)%outcome_bind_inv. destruct ok as [[]|]; try done.
  apply outcome_bind_inv in Hr as (r & Hr & [= Hvs]). destruct r as [[vs'|]|]; simplify_eq.
  by rewrite (IH vs' Hr).
Qed.

Lemma broadcast_commit_keeps s c s' :
  messages_ok (nx_quorum s) (rc_messages c) -> broadcast (RecoveryCommitMsg c) s = Val ((), s') ->
  keeps nx_inv s s'.
Proof.
  intros Hc. unfold broadcast. erewrite st_bind_Val by done. intros [= <-] [].
  split; simpl; try done. intros m. rewrite elem_of_app, list_elem_of_singleton.
  intros [Hm| ->]; [by apply ni_reflection0|done].
Qed.

Lemma process_recovery_proposal_keeps i p : st_rel (keeps nx_inv) (process_recovery_proposal i p).
Proof.
  intros s0 [] s' Hp Hi0. unfold process_recovery_proposal in Hp.
  apply st_bind_inv in Hp as ([] & s & Hreq & Hp).
  pose proof (process_recovery_request_keeps _ _ _ _ _ Hreq Hi0) as Hi. clear Hreq Hi0 s0.
  erewrite st_bind_Val in Hp by done. destruct (bool_decide _); [by injection Hp as <-|].
  apply bind_inspect_inv in Hp as (ok & _ & Hp).
  destruct ok as [[]|e]; [|by injection Hp as <-|by eapply same_core_keeps; [eapply enclave_error_core|]].
  apply bind_inspect_inv in Hp as (senders & _ & Hp).
  destruct (IdSet_contains senders i); [by injection Hp as <-|].
  erewrite st_bind_Val in Hp by done. set (s1 := s.[nx_recovery_proposal_senders ::= _]) in Hp.
  assert (nx_inv s1) as Hi1 by by eapply same_core_keeps; [apply same_core_frame|exact Hi].
  clearbody s1. apply bind_inspect_inv in Hp as (r & Hv & Hp).
  destruct r as [[vs|]|e]; [|by injection Hp as <-|by eapply same_core_keeps; [eapply enclave_error_core|]].
  erewrite st_bind_Val in Hp by done. apply bind_lift_inv in Hp as (invalid & Hrow & Hp).
  destruct invalid; [by injection Hp as <-|].
  apply verify_messages_Some in Hv as ->. erewrite st_bind_Val in Hp by done.
  set (s2 := s1.[nx_longest_recovery_proposal ::= _]) in Hp.
  assert (messages_ok (nx_quorum s1) (rp_messages p)) as Hms.
  { intros m Hm. eapply row_invalid_ok; [done|]. by apply list_elem_of_fmap_2. }
  assert (nx_inv s2) as Hi2.
  { pose proof (set_longest_keeps s1 (rp_for_attestation p) (rp_messages p) Hms Hi1) as Hset.
    assert (s2 = s1 \/ s2 = s1.[nx_longest_recovery_proposal ::= insert (rp_for_attestation p) (rp_messages p)])
      as [->| ->]; [|done|done].
    unfold s2. simpl. repeat case_match; [by right|left; by destruct s1..]. }
  erewrite st_bind_Val in Hp by done. destruct (negb _).
  { by eapply (st_rel_lift (keeps nx_inv)); [exact Hp|]. }
  apply bind_inspect_inv in Hp as (messages & Hmsg & Hp). erewrite st_bind_Val in Hp by done.
  eapply broadcast_commit_keeps; [|exact Hp|by apply delete_longest_keeps].
  simpl. destruct (nx_longest_recovery_proposal s2 !! rp_for_attestation p) as [ms|] eqn:Hl; [|done].
  injection Hmsg as <-. by apply (ni_longest _ _ Hi2) in Hl.
Qed.
#[local] Hint Resolve process_recovery_proposal_keeps : st_rel.

(** The vertices of a commit enter the buffer as they are. *)
Lemma restore_messages_keeps i ms r s r' s' :
  messages_ok (nx_quorum s) ms -> restore_messages i ms r s = Val (r', s') ->
  keeps nx_inv s s'.
Proof.
  revert r s. induction ms as [|m ms IH]; intros r s Hms; simpl; [by intros [= _ <-]|].
  intros (_ & _ & Hp)%bind_lift_inv Hi. apply bind_inspect_inv in Hp as (k & _ & Hp).
  apply st_bind_inv in Hp as ([] & s1 & Hbuf & Hp).
  assert (nx_inv s1 /\ nx_quorum s1 = nx_quorum s) as [Hi1 Hq1].
  { destruct k; cbn [negb] in Hbuf; [by injection Hbuf as <-|].
    apply st_bind_inv in Hbuf as ([] & s0 & Hmod & Hbuf). apply verbose_core in Hbuf.
    assert (nx_inv s0 /\ nx_quorum s0 = nx_quorum s) as [Hi0 <-].
    { injection Hmod as <-. split; [|done]. apply buffer_insert_keeps; [|done]. apply Hms. set_solver. }
    split; [by eapply same_core_keeps|]. by destruct Hbuf as (_ & -> & _). }
  apply bind_update_inv in Hp as (s2 & Hup & Hp). apply outcome_bind_inv in Hup as (mr & _ & [= <-]).
  apply bind_lift_inv in Hp as (r1 & _ & Hp).
  eapply IH; [|exact Hp|by eapply same_core_keeps; [apply same_core_frame|exact Hi1]].
  simpl. rewrite Hq1. intros x Hx. apply Hms. set_solver.
Qed.

Lemma apply_commit_keeps c s s' :
  messages_ok (nx_quorum s) (rc_messages c) -> apply_commit clock c s = Val ((), s') -> keeps nx_inv s s'.
Proof.
  intros Hms Hp Hi. unfold apply_commit in Hp.
  apply bind_update_inv in Hp as (s1 & Hrm & Hp). apply outcome_bind_inv in Hrm as (h & Hrm & [= <-]).
  pose proof (remove_creator_keeps _ _ _ Hrm Hi) as Hi1.
  apply st_bind_inv in Hp as ([] & s2 & Hbuf & Hp). apply set_buffer_core in Hbuf.
  pose proof (same_core_keeps 0 _ _ Hbuf Hi1) as Hi2. destruct Hbuf as (_ & Hq2 & _). simpl in Hq2.
  apply st_bind_inv in Hp as (r & s3 & Hres & Hp).
  apply restore_messages_keeps in Hres; [|by rewrite Hq2]. specialize (Hres Hi2).
  eapply (st_rel_apply (keeps nx_inv)); [exact Hp| |exact Hres].
  keep. apply delete_longest_keeps.
Qed.

Lemma count_commit_keys c m m' x :
  count_commit (Enc := Enc) (Tx := Tx) c m = Val m' -> x ∈ m'.*1 -> x = c \/ x ∈ m.*1.
Proof.
  revert m'. induction m as [|[c' k] m IH]; intros m'; simpl.
  - intros [= <-]. set_solver.
  - case_decide as Hc.
    + intros (k' & _ & [= <-])%outcome_bind_inv. simpl. set_solver.
    + intros (m1 & Hm1 & [= <-])%outcome_bind_inv. csimpl. intros [->|Hx]%elem_of_cons; [set_solver|].
      destruct (IH m1 Hm1 Hx); set_solver.
Qed.

Lemma count_commits_keys cs m m' x :
  for_each cs m (fun m c => count_commit (Enc := Enc) (Tx := Tx) c m) = Val m' ->
  x ∈ m'.*1 -> x ∈ cs \/ x ∈ m.*1.
Proof.
  revert m. induction cs as [|c cs IH]; intros m; simpl; [intros [= <-]; by right|].
  intros (m1 & Hm1 & Hr)%outcome_bind_inv Hx. destruct (IH m1 Hr Hx) as [?|Hx1]; [set_solver|].
  destruct (count_commit_keys _ _ _ _ Hm1 Hx1); set_solver.
Qed.

Lemma find_quorum_key q m c : find_quorum (Enc := Enc) (Tx := Tx) q m = Some c -> c ∈ m.*1.
Proof.
  unfold find_quorum. destruct (List.filter _ m) as [|[c' k] l] eqn:E; simpl; [done|]. intros [= <-].
  assert (List.In (c', k) (List.filter (fun ck => (q <=? ck.2)%N) m)) as Hin by (rewrite E; by left).
  apply List.filter_In in Hin as [Hin _]. apply list_elem_of_fmap. exists (c', k).
  split; [done|]. by apply list_elem_of_In.
Qed.

(** A recovery commit is counted, and applied once it has a quorum.  [R] is any
    relation the steps up to there respect. *)
Lemma process_recovery_commit_cases (R : relation (NxBft B Tx Enc)) `{!PreOrder R} i c s0 s' :
  st_rel R (process_recovery_request (rc_for_id c) (rc_for_attestation c)) ->
  (forall e, st_rel R (enclave_error e)) -> (forall s f, R s s.[nx_recovery_commits ::= f]) ->
  messages_ok (nx_quorum s0) (rc_messages c) -> process_recovery_commit clock i c s0 = Val ((), s') ->
  nx_inv s0 ->
  exists s1, nx_inv s1 /\ R s0 s1
    /\ (s' = s1 \/ exists commit, messages_ok (nx_quorum s1) (rc_messages commit)
                      /\ apply_commit clock commit s1 = Val ((), s')).
Proof.
  intros HR1 HR2 HR3 Hms Hp Hi0. unfold process_recovery_commit in Hp.
  apply st_bind_inv in Hp as ([] & s & Hreq & Hp).
  pose proof (process_recovery_request_keeps _ _ _ _ _ Hreq Hi0) as Hi. pose proof (HR1 _ _ _ Hreq) as HR.
  apply process_recovery_request_delivers in Hreq as (_ & Hq & _). rewrite <-Hq in Hms. clear HR1 Hi0 Hq.
  erewrite st_bind_Val in Hp by done. destruct (bool_decide _); [injection Hp as <-; eauto|].
  apply bind_inspect_inv in Hp as (ok & _ & Hp).
  destruct ok as [[]|e]; [|injection Hp as <-; by eauto|].
  2:{ exists s'. split; [by eapply same_core_keeps; [eapply enclave_error_core|]|].
      split; [etransitivity; [exact HR|by eapply HR2]|by left]. }
  apply bind_inspect_inv in Hp as (commits & Hcs & Hp). apply bind_lift_inv in Hp as (slot & _ & Hp).
  destruct (bool_decide _); [injection Hp as <-; by eauto|].
  apply bind_lift_inv in Hp as (commits1 & Hasg & Hp).
  assert (forall x, Some x ∈ commits1 -> messages_ok (nx_quorum s) (rc_messages x)) as Hok1.
  { intros x Hx. unfold IdMap_index_mut, assign_u64 in Hasg.
    destruct (_ <? _)%N; [|done]. injection Hasg as <-.
    apply list_elem_of_lookup in Hx as [j Hj]. apply list_lookup_insert_Some in Hj as [(_ & [= <-] & _)|[_ Hj]]; [done|].
    destruct (nx_recovery_commits s !! rc_for_attestation c) as [l|] eqn:Hl; [|done]. injection Hcs as <-.
    eapply (ni_commits _ _ Hi); [exact Hl|]. by eapply list_elem_of_lookup_2. }
  erewrite st_bind_Val in Hp by done. erewrite st_bind_Val in Hp by done.
  pose proof (set_commits_keeps s (rc_for_attestation c) commits1 Hok1 Hi) as Hi1.
  pose proof (transitivity HR (HR3 s (insert (rc_for_attestation c) commits1))) as HRa.
  destruct (_ <? _)%N; [injection Hp as <-; by eauto|].
  destruct (IdMap_drain_lazy_some commits1) as [drained commits2] eqn:Hdr.
  apply st_bind_inv in Hp as ([] & s2 & Hmod & Hp).
  assert (nx_inv s2 /\ nx_quorum s2 = nx_quorum s /\ R s0 s2) as (Hi2 & Hq2 & HRb).
  { assert (forall x, Some x ∈ commits2 -> messages_ok (nx_quorum s) (rc_messages x)) as Hok2.
    { intros x Hx. apply Hok1. apply (IdMap_drain_elem commits1). by rewrite Hdr. }
    injection Hmod as <-. split; [|split; [done|]].
    - refine (set_commits_keeps _ (rc_for_attestation c) commits2 _ Hi1). exact Hok2.
    - etransitivity; [exact HRa|]. exact (HR3 _ (insert (rc_for_attestation c) commits2)). }
  apply bind_lift_inv in Hp as (counts & Hcounts & Hp).
  destruct (find_quorum _ counts) as [commit|] eqn:Hf; [|injection Hp as <-; by eauto].
  apply bind_lift_inv in Hp as (_ & _ & Hp). apply bind_lift_inv in Hp as (_ & _ & Hp).
  exists s2. split; [done|]. split; [done|]. right. exists commit. split; [|exact Hp]. rewrite Hq2. apply Hok1.
  apply find_quorum_key in Hf. destruct (count_commits_keys _ _ _ _ Hcounts Hf) as [Hd|?%not_elem_of_nil]; [|done].
  apply (proj1 (IdMap_drain_elem commits1)). by rewrite Hdr.
Qed.

Lemma process_recovery_commit_keeps i c s0 s' :
  messages_ok (nx_quorum s0) (rc_messages c) -> process_recovery_commit clock i c s0 = Val ((), s') ->
  keeps nx_inv s0 s'.
Proof.
  intros Hms Hp Hi. assert (PreOrder (fun _ _ : NxBft B Tx Enc => True)) as Hpre by done.
  destruct (process_recovery_commit_cases (fun _ _ => True) i c s0 s')
    as (s1 & Hi1 & _ & [->|(commit & Hc & Ha)]); try done. by eapply apply_commit_keeps.
Qed.

Lemma dispatch_keeps m s s' :
  trusted (nx_quorum s) m -> dispatch clock m s = Val ((), s') -> keeps nx_inv s s'.
Proof.
  intros Hm. unfold dispatch. erewrite st_bind_Val by done. unfold trusted in Hm.
  destruct (_ <=? _)%N; [intros Hp; by eapply same_core_keeps, peer_error_core|].
  destruct (pm_message m) eqn:E; intros Hp;
    try (by eapply (st_rel_apply (keeps nx_inv)); [exact Hp|keep]).
  by eapply process_recovery_commit_keeps.
Qed.

(** Emptying the output. *)
Lemma reset_output_keeps s : keeps nx_inv s s.[nx_output := UnreflectedOutput_new (nx_me s)].
Proof. intros []. split; simpl; try done. by intros m ?%not_elem_of_nil. Qed.

Lemma reflect_messages_keeps process ms o s o' s' q :
  (forall m s1 o1 s2, trusted q m -> nx_quorum s1 = q -> process m s1 = Val (o1, s2) ->
     nx_inv s1 -> nx_inv s2 /\ nx_quorum s2 = q) ->
  (forall m, m ∈ ms -> trusted q m) -> nx_quorum s = q ->
  reflect_messages (Enc := Enc) (Tx := Tx) process ms o s = Val (o', s') -> keeps nx_inv s s'.
Proof.
  intros Hp. revert o s. induction ms as [|m ms IH]; intros o s Hms Hq; simpl; [by intros [= _ <-]|].
  intros (o1 & s1 & Hm & Hr)%st_bind_inv Hi.
  destruct (Hp m s o1 s1) as [Hi1 Hq1]; try done; [apply Hms; set_solver|].
  eapply IH; [|done|exact Hr|done]. intros x Hx. apply Hms. set_solver.
Qed.

Lemma reflect_keeps fuel : st_rel (keeps nx_inv) (reflect clock fuel).
Proof.
  induction fuel as [|fuel IH]; intros s o s'; simpl; [done|].
  do 3 erewrite st_bind_Val by done. intros Hr Hi.
  apply reset_output_keeps in Hi as Hi0. apply (reflect_messages_keeps _ _ _ _ _ _ (nx_quorum s)) in Hr;
    [by apply Hr| | |done].
  - intros m s1 o1 s2 Hm Hq ([] & s3 & Hd & Hf)%st_bind_inv Hi1. rewrite <-Hq in Hm.
    pose proof (dispatch_keeps m s1 s3 Hm Hd Hi1) as Hi3. split; [by eapply IH|].
    apply dispatch_delivers in Hd as (_ & Hq3 & _). apply reflect_emits in Hf as (_ & Hq2 & _). congruence.
  - apply Hi.
Qed.
#[local] Hint Resolve reflect_keeps : st_rel.

(** ** Runs *)

(** A run in which the peers' recovery commits are trusted, with its outputs. *)
Inductive nx_trusted_run (s : NxBft B Tx Enc) : list (Output B Tx Enc) -> NxBft B Tx Enc -> Prop :=
| trusted_nil : nx_trusted_run s [] s
| trusted_handshake os s1 fuel ent o s2 : nx_trusted_run s os s1 ->
    init_handshake clock fuel ent s1 = Val (o, s2) -> nx_trusted_run s (os ++ [o]) s2
| trusted_message os s1 fuel m o s2 : nx_trusted_run s os s1 -> trusted (nx_quorum s1) m ->
    process_peer_message clock fuel m s1 = Val (o, s2) -> nx_trusted_run s (os ++ [o]) s2
| trusted_request os s1 fuel tx o s2 : nx_trusted_run s os s1 ->
    receive_client_request clock fuel tx s1 = Val (o, s2) -> nx_trusted_run s (os ++ [o]) s2
| trusted_timeout os s1 fuel o s2 : nx_trusted_run s os s1 ->
    process_vertex_timeout clock fuel s1 = Val (o, s2) -> nx_trusted_run s (os ++ [o]) s2
| trusted_backup os s1 r s2 : nx_trusted_run s os s1 -> backup_enclave s1 = Val (r, s2) -> nx_trusted_run s os s2.

Lemma nx_trusted_run_run s os s' : nx_trusted_run s os s' -> nx_run clock s os s'.
Proof.
  induction 1; [apply run_nil|..|by eapply run_backup]; eapply run_snoc; eauto using nx_call.
Qed.

Lemma init_handshake_keeps fuel ent : st_rel (keeps nx_inv) (init_handshake clock fuel ent).
Proof. unfold init_handshake. keep. Qed.
Lemma receive_client_request_keeps fuel tx : st_rel (keeps nx_inv) (receive_client_request clock fuel tx).
Proof. unfold receive_client_request. keep. Qed.
Lemma process_vertex_timeout_keeps fuel : st_rel (keeps nx_inv) (process_vertex_timeout clock fuel).
Proof. unfold process_vertex_timeout. keep. Qed.

Lemma backup_enclave_keeps : st_rel (keeps nx_inv) (backup_enclave (B := B) (Tx := Tx) (Enc := Enc)).
Proof. unfold backup_enclave. keep. Qed.

Lemma nx_trusted_run_inv s os s' : nx_inv s -> nx_trusted_run s os s' -> nx_inv s'.
Proof.
  intros Hi Hr. induction Hr as [|os s1 fuel ent o s2 _ IH Hc|os s1 fuel m o s2 _ IH Hm Hc|
    os s1 fuel tx o s2 _ IH Hc|os s1 fuel o s2 _ IH Hc|os s1 r s2 _ IH Hc]; [done|..].
  - by eapply init_handshake_keeps.
  - apply st_bind_inv in Hc as ([] & s3 & Hd & Hf). eapply reflect_keeps; [exact Hf|].
    by eapply dispatch_keeps.
  - by eapply receive_client_request_keeps.
  - by eapply process_vertex_timeout_keeps.
  - by eapply backup_enclave_keeps.
Qed.

Lemma NxBft_new_inv ent t0 me n timeout mn mx s :
  is_u64 n -> NxBft_new clock ent t0 me n timeout mn mx = Val s ->
  nx_inv s /\ nx_round s = 1%N /\ nx_n s = n /\ nx_me s = me /\ (me < n)%N /\ (3 <= n)%N
  /\ nx_output s = UnreflectedOutput_new me /\ nx_client_last_request s = ∅.
Proof.
  intros Hn Hs. unfold NxBft_new in Hs.
  apply assert_inv in Hs as [H3n Hs]. apply assert_inv in Hs as [Hme Hs].
  apply assert_inv in Hs as [_ Hs]. apply assert_inv in Hs as [_ Hs].
  apply N.leb_le in H3n. apply N.ltb_lt in Hme.
  apply outcome_bind_inv in Hs as (enc & _ & Hs).
  destruct (Dag_new_inv (B := B) (Tx := Tx) (Sig := Signature Enc) n Hn)
    as (d & Hd & Hi & Hdn & Ho & Hm & Hp & Hf). rewrite Hd in Hs. injection Hs as <-.
  split; [|by split_and!]. split; simpl; try done; rewrite ?Hdn, ?Ho, ?Hm, ?Hf; try done; try lia.
  - intros a v l Hv. by rewrite Hp in Hv.
  - intros a. unfold exploredb. by rewrite Hp.
  - intros a b. unfold deliveredb. by rewrite Hp.
  - intros a v Hv. by rewrite Hp in Hv.
  - by intros v ?%not_elem_of_nil.
  - by intros m ?%not_elem_of_nil.
Qed.
End invariant.

(** ** NxBFT: creating vertices, and the branches of the message handlers *)

Section create.
  Context {P : Profile} {B Tx Enc : Type}.
  Context `{BitSetLaws B} `{Digests} `{Enclave B Enc} `{Transaction Tx} `{Hashbar Tx}.
  Context `{EqDecision B, EqDecision Tx}.
  Context (clock : nat -> N).
  Implicit Types (s : NxBft B Tx Enc).

(** Inserting the creators of a list of addresses. *)
Lemma foldl_insert_creators (l : list DagAddress) (X : IdSet B) :
  to_gset (foldl (fun edges edge => (IdSet_insert edges (da_creator edge)).2) X l)
  = list_to_set (da_creator <$> l) ∪ to_gset X.
Proof.
  revert X. induction l as [|a l IH]; intros X; simpl; [set_solver|].
  rewrite IH. destruct (IdSet_insert_spec X (da_creator a)) as [_ ->]. set_solver.
Qed.

Lemma previous_round_edges_spec s edges :
  nx_inv_upto 0 s -> previous_round_edges s = Val edges ->
  (forall c, IdSet_contains edges c = true
     <-> (1 < nx_round s)%N /\ is_Some (present (nx_dag s) (mkDagAddress (nx_round s - 1) c)))
  /\ ((nx_round s <= 1)%N -> IdSet_len edges = 0%N)
  /\ (forall k, (1 < nx_round s)%N -> Dag_get_round_valid_count (nx_dag s) (nx_round s - 1) = Val k ->
        IdSet_len edges = k).
Proof.
  intros Hi. unfold previous_round_edges, as_u64.
  assert (to_gset (IdSet_with_capacity (nx_n s) : IdSet B) = ∅) as Hempty by apply to_gset_with_capacity.
  destruct (N.ltb_spec 1 (nx_round s)) as [Hr|Hr].
  - unfold id_sub, as_u64. rewrite u64_sub_Val by lia. simpl.
    pose proof (inv_shape _ (ni_dag _ _ Hi)) as Hs.
    destruct (get_round_present (nx_dag s) (nx_round s - 1) Hs) as (l & Hl & Hel & Hcount).
    pose proof (get_round_nodup _ _ _ Hs Hl) as Hnd.
    rewrite Hl. simpl. intros [= <-]. rewrite Hcount.
    set (X := foldl _ _ _). assert (to_gset X = list_to_set (da_creator <$> l)) as HX.
    { unfold X. rewrite foldl_insert_creators, Hempty. set_solver. }
    split; [|split; [lia|]].
    + intros c. rewrite <-elem_of_to_gset, HX, elem_of_list_to_set, list_elem_of_fmap. split.
      * intros ([r c'] & -> & [Hrr Hp]%Hel). simpl in *. by subst r.
      * intros [_ Hp]. exists (mkDagAddress (nx_round s - 1) c). split; [done|]. apply Hel. done.
    + intros k _ [= <-]. rewrite IdSet_len_spec, HX, size_list_to_set; [by rewrite length_fmap|].
      apply NoDup_fmap_2_strong; [|done]. intros [r1 c1] [r2 c2] [E1 _]%Hel [E2 _]%Hel. simpl in *. congruence.
  - intros [= <-]. split; [|split; [|lia]].
    + intros c. rewrite <-elem_of_to_gset, Hempty. set_solver by lia.
    + intros _. by rewrite IdSet_len_spec, Hempty, size_empty.
Qed.

Definition same_pending (s s' : NxBft B Tx Enc) : Prop :=
  nx_pending_client_requests s' = nx_pending_client_requests s.
#[local] Instance same_pending_preorder : PreOrder same_pending.
Proof. split; [by intros s|]. intros s1 s2 s3. unfold same_pending. congruence. Qed.
Ltac pending_frame := unfold broadcast, now; repeat (st_rel_step || reflexivity).

(** What [create_vertex] returns when it returns a vertex. *)
Lemma create_vertex_Some ahead s v s' :
  create_vertex clock ahead s = Val (Some v, s') ->
  exists edges, previous_round_edges s = Val edges
    /\ Vertex_address v = mkDagAddress (nx_round s) (nx_me s) /\ Vertex_edges v = edges
    /\ v_transactions v = Pending_copy_front (nx_pending_client_requests s)
    /\ nx_pending_client_requests s' = (Pending_pop_front (nx_pending_client_requests s)).2.
Proof.
  unfold create_vertex. do 2 erewrite st_bind_Val by done.
  destruct (_ <? _)%N.
  { intros (c & s1 & _ & Hc)%st_bind_inv. by apply st_bind_inv in Hc as ([] & s2 & _ & [=]). }
  intros (full & _ & Hc)%bind_inspect_inv. erewrite st_bind_Val in Hc by done.
  apply st_bind_inv in Hc as (e & s1 & He & Hc). unfold elapsed, now in He.
  erewrite st_bind_Val in He; [|by repeat erewrite st_bind_Val by done].
  assert (nx_pending_client_requests s1 = nx_pending_client_requests s
    /\ previous_round_edges s1 = previous_round_edges s /\ nx_me s1 = nx_me s) as (Hp1 & He1 & Hm1)
    by by injection He as _ <-.
  clear He. erewrite st_bind_Val in Hc by done. destruct (_ || _).
  2:{ erewrite st_bind_Val in Hc by done. erewrite st_bind_Val in Hc by done.
      apply st_bind_inv in Hc as (? & ? & _ & Hc). by do 2 (erewrite st_bind_Val in Hc by done). }
  erewrite st_bind_Val in Hc by done. rewrite Hp1 in Hc.
  destruct (Pending_pop_front (nx_pending_client_requests s)) as [txs rest] eqn:Hpop.
  erewrite st_bind_Val in Hc by done. apply bind_inspect_inv in Hc as (edges & Hed & Hc).
  change (previous_round_edges s1 = Val edges) in Hed. rewrite He1 in Hed.
  erewrite st_bind_Val in Hc by done. apply st_bind_inv in Hc as (r & s2 & Hnew & Hc).
  change (nx_me s1.[nx_pending_client_requests := rest]) with (nx_me s1) in Hnew. rewrite Hm1 in Hnew.
  exists edges. split; [exact Hed|]. unfold Vertex_new, Vertex_new_with_custom in Hnew.
  apply st_bind_inv in Hnew as (r1 & s3 & Hnew & [= <- <-]).
  apply st_bind_inv in Hnew as (r2 & s4 & Hnew & [= <- <-]).
  apply st_bind_inv in Hnew as (r3 & s5 & Hcall & [= <- <-]).
  assert (nx_pending_client_requests s5 = rest) as Hrest.
  { unfold enclave_call, zoom in Hcall. by apply outcome_bind_inv in Hcall as ([x e'] & _ & [= _ <-]). }
  destruct r3 as [[sig k]|err]; cbn beta iota in Hc.
  2:{ apply st_bind_inv in Hc as ([] & s6 & _ & [=]). }
  apply st_bind_inv in Hc as ([] & s6 & Hb & Hc). apply st_bind_inv in Hc as (t & s7 & Ht & Hc).
  apply st_bind_inv in Hc as ([] & s8 & Hm8 & Hc). apply st_bind_inv in Hc as ([] & s9 & Hm9 & Hc).
  apply st_bind_inv in Hc as ([] & s10 & Hm10 & Hc). apply st_bind_inv in Hc as ([] & s11 & Hm11 & Hc).
  apply (st_rel_apply same_pending) in Hb, Ht, Hm8, Hm9, Hm10, Hm11; try (by pending_frame).
  unfold same_pending in *. injection Hc as <- <-.
  split; [done|]. split; [done|]. split; [|simpl; congruence].
  unfold Pending_pop_front, Pending_copy_front in *. simpl. destruct (blocks _); by injection Hpop as <- _.
Qed.
End create.
