(* ===== verification/NxLog.v ===== *)
(** * NxBFT: the log of a replica over a run

    [log_inv D s]: after emitting the transactions [D], the replica in state [s]
    has delivered exactly the deduplicated transactions of its [dag_log].  Every
    handler keeps it, given the replica's invariant and an enclave that
    implements the common coin.  Hence the deliveries of two replicas are
    prefixes of one another. *)

From Stdlib Require Import ZArith Lia.
From stdpp Require Import base list gmap sets numbers option relations.
From S2P Require Import Prelude Ids Heaps Requests NxBase NxDag NxDagFacts NxDagGraph NxDagSearch NxDagPath.
From S2P Require Import NxEnclave NxMessages NxReplica NxEnclaveFacts NxCommit NxDagBuilt NxDecide.
From S2P Require Import NxOrder NxReplicaFacts NxInvariant.

Section log.
  Context {P : Profile} {B Tx Enc : Type}.
  Context `{BitSetLaws B} `{Digests} `{CommonCoinLaws B Enc} `{Transaction Tx} `{Hashbar Tx}.
  Context `{EqDecision B, EqDecision Tx}.
  Context (clock : nat -> N).
  Context (Hchecks : overflow_checks = true).
  Implicit Types (s : NxBft B Tx Enc) (d : Dag B Tx (Signature Enc)).
  Abbreviation nx_inv := (nx_inv_upto 0).

(** ** Steps that do not touch the log *)

Definition log_frame (s s' : NxBft B Tx Enc) : Prop :=
  nx_n s' = nx_n s /\ nx_quorum s' = nx_quorum s /\ nx_dag s' = nx_dag s /\ nx_round s' = nx_round s
  /\ nx_decided_wave s' = nx_decided_wave s /\ nx_pending_wave_coins s' = nx_pending_wave_coins s
  /\ nx_client_last_request s' = nx_client_last_request s
  /\ uo_delivery (nx_output s') = uo_delivery (nx_output s)
  /\ coin_keeps (nx_n s) (nx_enclave s) (nx_enclave s').

#[local] Instance log_frame_preorder : PreOrder log_frame.
Proof.
  split; [by intros s; split_and!|].
  intros s1 s2 s3 (Hn&?&?&?&?&?&?&?&?) (?&?&?&?&?&?&?&?&Hc). split_and!; try congruence.
  rewrite Hn in Hc. by etransitivity.
Qed.

Lemma log_frame_intro s s' :
  nx_n s' = nx_n s -> nx_quorum s' = nx_quorum s -> nx_dag s' = nx_dag s -> nx_round s' = nx_round s ->
  nx_decided_wave s' = nx_decided_wave s -> nx_pending_wave_coins s' = nx_pending_wave_coins s ->
  nx_client_last_request s' = nx_client_last_request s ->
  uo_delivery (nx_output s') = uo_delivery (nx_output s) -> nx_enclave s' = nx_enclave s -> log_frame s s'.
Proof. intros ? ? ? ? ? ? ? ? He. split_and!; try done. by rewrite He. Qed.

Ltac log_leaf :=
  match goal with
  | |- log_frame ?s ?s' => apply log_frame_intro; reflexivity
  | Hf : _ = Val ?s' |- log_frame ?s ?s' =>
      repeat (match type of Hf with
              | (?m ≫= _) = _ => destruct m; simpl in Hf; try discriminate Hf
              end);
      injection Hf as <-; apply log_frame_intro; reflexivity
  end.
Ltac logf := repeat (st_rel_step || log_leaf).

Lemma enclave_call_log {A} (f : Enc -> Outcome (A * Enc)) :
  (forall n e r e', f e = Val (r, e') -> coin_keeps n e e') -> st_rel log_frame (enclave_call (Tx := Tx) f).
Proof. intros Hf. unfold enclave_call. st_rel_step. split_and!; try done. by eapply Hf. Qed.

Lemma broadcast_log m : st_rel log_frame (broadcast (Enc := Enc) (Tx := Tx) m).
Proof. unfold broadcast. logf. Qed.
Lemma unicast_log to m : st_rel log_frame (unicast (Enc := Enc) (Tx := Tx) to m).
Proof.
  unfold unicast. st_rel_step; [logf|]. intros me. st_rel_step. apply log_frame_intro; try reflexivity.
  simpl. unfold UnreflectedOutput_unicast. by destruct (_ =? _)%N.
Qed.
Lemma state_message_log m : st_rel log_frame (state_message (Enc := Enc) (Tx := Tx) m).
Proof. unfold state_message. logf. Qed.
#[local] Hint Resolve broadcast_log unicast_log state_message_log : st_rel.
Lemma peer_error_log i e : st_rel log_frame (peer_error (Enc := Enc) (Tx := Tx) i e).
Proof. unfold peer_error. logf. Qed.
Lemma verbose_log v : st_rel log_frame (verbose (Enc := Enc) (Tx := Tx) v).
Proof. unfold verbose. logf. Qed.
Lemma enclave_error_log e : st_rel log_frame (enclave_error (Enc := Enc) (Tx := Tx) e).
Proof. unfold enclave_error. logf. Qed.
Lemma now_log : st_rel log_frame (now (Enc := Enc) (Tx := Tx) clock).
Proof. unfold now. logf. Qed.
#[local] Hint Resolve peer_error_log verbose_log enclave_error_log now_log : st_rel.
Lemma elapsed_log t : st_rel log_frame (elapsed (Enc := Enc) (Tx := Tx) clock t).
Proof. unfold elapsed. logf. Qed.
Lemma set_buffer_log i f : st_rel log_frame (set_buffer (Enc := Enc) (Tx := Tx) i f).
Proof. unfold set_buffer. logf. Qed.
Lemma verify_log i c v sig : st_rel log_frame (verify (Enc := Enc) (Tx := Tx) i c v sig).
Proof. unfold verify. logf. Qed.
Lemma request_vertex_log a : st_rel log_frame (request_vertex (Enc := Enc) (Tx := Tx) a).
Proof. unfold request_vertex. logf. Qed.
#[local] Hint Resolve elapsed_log set_buffer_log verify_log request_vertex_log : st_rel.

Lemma enclave_sign_log v : st_rel log_frame (enclave_call (Tx := Tx) (fun e : Enc => enc_sign e v)).
Proof. apply enclave_call_log. intros *. apply coin_sign. Qed.
Lemma enclave_certificate_log : st_rel log_frame (enclave_call (Tx := Tx) (enc_get_attestation_certificate (Enc := Enc))).
Proof. apply enclave_call_log. intros *. apply coin_certificate. Qed.
Lemma enclave_export_log : st_rel log_frame (enclave_call (Tx := Tx) (enc_export (Enc := Enc))).
Proof. apply enclave_call_log. intros *. apply coin_export. Qed.
Lemma enclave_init_log ent : st_rel log_frame (enclave_call (Tx := Tx) (enc_init (Enc := Enc) ent)).
Proof. apply enclave_call_log. intros *. apply coin_init. Qed.
Lemma enclave_complete_log i h :
  st_rel log_frame (enclave_call (Tx := Tx) (fun e : Enc => enc_complete_peer_handshake e i h)).
Proof. apply enclave_call_log. intros *. apply coin_complete. Qed.
Lemma enclave_init_peer_log i att :
  st_rel log_frame (enclave_call (Tx := Tx) (fun e : Enc => enc_init_peer_handshake e i att)).
Proof. apply enclave_call_log. intros *. apply coin_init_peer. Qed.
Lemma enclave_replace_log i att m :
  st_rel log_frame (enclave_call (Tx := Tx) (fun e : Enc => enc_replace_peer e i att m)).
Proof. apply enclave_call_log. intros *. apply coin_replace. Qed.
#[local] Hint Resolve enclave_sign_log enclave_certificate_log enclave_init_log enclave_complete_log
  enclave_init_peer_log enclave_replace_log : st_rel.

Lemma create_vertex_log b : st_rel log_frame (create_vertex (Enc := Enc) (Tx := Tx) clock b).
Proof. unfold create_vertex, Vertex_new, Vertex_new_with_custom. logf. Qed.
Lemma check_edges_log r es add : st_rel log_frame (check_edges (Enc := Enc) (Tx := Tx) r es add).
Proof. revert add. induction es as [|c es IH]; intros add; simpl; logf. Qed.
Lemma answer_requests_log a : st_rel log_frame (answer_requests (Enc := Enc) (Tx := Tx) a).
Proof. unfold answer_requests. logf. Qed.
#[local] Hint Resolve create_vertex_log check_edges_log answer_requests_log : st_rel.
Lemma process_vertex_request_log i a : st_rel log_frame (process_vertex_request (Enc := Enc) (Tx := Tx) i a).
Proof. unfold process_vertex_request. logf. Qed.
Lemma process_hello_log i a : st_rel log_frame (process_hello (Enc := Enc) (Tx := Tx) i a).
Proof. unfold process_hello. logf. Qed.
Lemma process_hello_reply_log i h : st_rel log_frame (process_hello_reply (Enc := Enc) (Tx := Tx) i h).
Proof. unfold process_hello_reply. logf. Qed.
#[local] Hint Resolve process_hello_reply_log : st_rel.
Lemma process_hello_echo_log i c a : st_rel log_frame (process_hello_echo (Enc := Enc) (Tx := Tx) i c a).
Proof. unfold process_hello_echo. logf. Qed.
Lemma process_ready_log i : st_rel log_frame (process_ready (Enc := Enc) (Tx := Tx) i).
Proof. unfold process_ready. logf. Qed.
Lemma process_recovery_request_log i a :
  st_rel log_frame (process_recovery_request (Enc := Enc) (Tx := Tx) i a).
Proof. unfold process_recovery_request. logf. Qed.
#[local] Hint Resolve process_recovery_request_log : st_rel.
Lemma process_recovery_proposal_log i p :
  st_rel log_frame (process_recovery_proposal (Enc := Enc) (Tx := Tx) i p).
Proof. unfold process_recovery_proposal. logf. Qed.
Lemma restore_messages_log i ms r : st_rel log_frame (restore_messages (Enc := Enc) (Tx := Tx) i ms r).
Proof. revert r. induction ms as [|m ms IH]; intros r; simpl; logf. Qed.
#[local] Hint Resolve restore_messages_log : st_rel.

(** ** The log *)

(** [c] is the number of waves that are complete.  Either every one of them was
    tossed, and the coins since the last decision are at hand, or the coin of
    some wave since the last decision is missing. *)
Record log_at (D : list Tx) (c : N) (s : NxBft B Tx Enc) : Prop := {
  la_coin : coin_inv (nx_n s) (nx_enclave s);
  la_decided : (nx_decided_wave s <= coin_tossed (nx_enclave s))%N;
  la_fresh : forall w, is_Some (nx_pending_wave_coins s !! w) -> (w <= c)%N;
  la_coins :
    (coin_tossed (nx_enclave s) = c
     /\ forall w, (nx_decided_wave s < w <= c)%N ->
          nx_pending_wave_coins s !! w = Some (coin_of (nx_enclave s) w))
    \/ exists w, (nx_decided_wave s < w <= c)%N /\ nx_pending_wave_coins s !! w = None;
  la_log : exists o,
    dag_log (nx_quorum s) (coin_of (nx_enclave s)) (nx_dag s) (nx_decided_wave s) o
    /\ nx_client_last_request s = (dedup ∅ (history_txs (nx_dag s) o)).1
    /\ D ++ uo_delivery (nx_output s) = (dedup ∅ (history_txs (nx_dag s) o)).2;
}.

Definition log_inv (D : list Tx) (s : NxBft B Tx Enc) : Prop := log_at D ((nx_round s - 1) / 4) s.

Lemma leaders_upto_zero q coin coin' d ls : leaders_upto q coin d 0 ls -> leaders_upto q coin' d 0 ls.
Proof. intros [?|[(? & _) _]]; [by left|lia]. Qed.

Lemma log_at_frame D c s s' : log_frame s s' -> log_at D c s -> log_at D c s'.
Proof.
  intros (Hn & Hq & Hd & _ & Hdec & Hcs & Hl & Ho & He) [].
  destruct (He la_coin0) as (Hi & Ht & Hc). split; rewrite ?Hn, ?Hq, ?Hd, ?Hdec, ?Hcs, ?Hl, ?Ho, ?Ht; try done.
  - destruct la_coins0 as [[Htc Hall]|?]; [left|by right]. split; [done|]. intros w Hw.
    rewrite Hall by done. rewrite Hc; [done|lia].
  - destruct la_log0 as (o & Hlog & Hrest). exists o. split; [|done].
    destruct (N.eq_0_gt_0_cases (nx_decided_wave s)) as [Hz|Hpos].
    + destruct Hlog as [(ls & Hls & Hord) Hdel]. split; [|done]. exists ls. split; [|done].
      rewrite Hz in *. by eapply leaders_upto_zero.
    + apply (dag_log_coin _ (coin_of (nx_enclave s))); [|done]. apply Hc. lia.
Qed.

Lemma log_inv_frame D s s' : log_frame s s' -> log_inv D s -> log_inv D s'.
Proof.
  intros Hf Hl. pose proof Hf as (_ & _ & _ & Hr & _). unfold log_inv. rewrite Hr. by eapply log_at_frame.
Qed.

(** ** A wave *)

(** A decision needs the coin of every wave since the last one. *)
Lemma leaders_loop_coins fuel coins low d v stack waves w r :
  leaders_loop fuel coins low d v stack waves w = Val r ->
  forall w', (low < w' <= w)%N -> is_Some (coins !! w').
Proof.
  revert d v stack waves w. induction fuel as [|fuel IH]; intros d v stack waves w; [done|]. simpl.
  destruct (N.ltb_spec low w) as [Hlt|Hge]; [|intros _ w' Hw'; lia].
  intros (x & _ & Hr)%outcome_bind_inv. destruct (coins !! w) as [coin|] eqn:Hcoin; [|done]. simpl in Hr.
  apply outcome_bind_inv in Hr as (k & _ & Hr). apply outcome_bind_inv in Hr as ([b d'] & _ & Hr).
  assert (id_sub_assign w 1 = Val (w - 1)%N) as Hsub by (unfold id_sub_assign; by rewrite u64_sub_Val by lia).
  rewrite Hsub in Hr. simpl in Hr. intros w' Hw'.
  destruct (decide (w' = w)) as [->|Hne]; [by rewrite Hcoin|].
  destruct b; apply IH with (w' := w') in Hr; (done || lia).
Qed.

Lemma decide_wave_coins s w v s' :
  decide_wave clock w v s = Val ((), s') -> (1 <= w)%N ->
  forall w', (nx_decided_wave s < w' <= w - 1)%N -> is_Some (nx_pending_wave_coins s !! w').
Proof.
  intros Hd Hw. unfold decide_wave in Hd. do 2 erewrite st_bind_Val in Hd by done.
  erewrite st_bind_Val in Hd by (apply lift_Val; unfold id_sub; apply u64_sub_Val; unfold as_u64; lia).
  do 3 erewrite st_bind_Val in Hd by done. apply bind_lift_inv in Hd as (sw & Hloop & _).
  intros w' Hw'. by eapply (leaders_loop_coins _ _ _ _ _ _ _ _ _ Hloop).
Qed.

Lemma commit_rule_cases s w c s' :
  commit_rule clock w c s = Val ((), s') ->
  log_frame s s' \/ exists v, decide_wave clock w v s = Val ((), s').
Proof.
  unfold commit_rule. intros (r1 & _ & Hc)%bind_lift_inv. apply bind_inspect_inv in Hc as (k & _ & Hc).
  destruct k; cbn [negb] in Hc; [|left; by eapply state_message_log].
  apply bind_lift_inv in Hc as (r4 & _ & Hc). apply bind_inspect_inv in Hc as (m & _ & Hc).
  erewrite st_bind_Val in Hc by done. destruct (m <? nx_quorum s)%N; [left; by eapply state_message_log|].
  right. eauto.
Qed.

(** The majority of the quorum. *)
Lemma nx_majority s : nx_inv s -> (dag_n (nx_dag s) < 2 * nx_quorum s)%N.
Proof.
  intros Hi. rewrite (ni_n _ _ Hi), (ni_quorum _ _ Hi).
  pose proof (N.div_mod (nx_n s) 2 ltac:(done)). pose proof (N.mod_lt (nx_n s) 2 ltac:(done)). lia.
Qed.

(** The state in which the commit rule runs, when every wave so far was tossed. *)
Lemma commit_rule_log D s w s' :
  nx_inv s -> nx_round s = (4 * w)%N -> (1 <= w)%N ->
  log_at D w s -> coin_tossed (nx_enclave s) = w ->
  (forall w', (nx_decided_wave s < w' <= w)%N ->
     nx_pending_wave_coins s !! w' = Some (coin_of (nx_enclave s) w')) ->
  commit_rule clock w (coin_of (nx_enclave s) w) s = Val ((), s') -> log_at D w s'.
Proof.
  intros Hi Hr Hw Hlog Ht Hcoins Hc. set (coin := coin_of (nx_enclave s)) in *.
  assert (is_u64 (4 * w)) as Hu.
  { rewrite <-Hr, <-(ni_round _ _ Hi). apply (shape_max_round _ (inv_shape _ (ni_dag _ _ Hi))). }
  pose proof (ni_decided _ _ Hi) as Hdec.
  assert (forall w', (coin w' < dag_n (nx_dag s))%N) as Hrange.
  { intros w'. rewrite (ni_n _ _ Hi). apply coin_range, Hlog. }
  destruct (commit_rule_spec clock s coin w) as [[Hd Heq]|[_ (m & Heq & _)]]; try apply Hi; try done.
  2:{ rewrite Heq in Hc. injection Hc as <-. eapply log_at_frame; [|exact Hlog]. by apply log_frame_intro. }
  assert (wave_inv s coin w) as Hwi.
  { split; try apply Hi. intros w' Hw'. split; [apply Hcoins; lia|done]. }
  pose proof Hd as (_ & Hl & _).
  destruct (decide_wave_spec clock s coin w Hwi Hw Hu) as (ls & ws & d1 & out & d2 & Hwalk & _ & Hall & Hg1 & Hd1 & Hg2 & _ & _ & Hdw);
    [lia|done|].
  rewrite Heq, Hdw in Hc. injection Hc as <-. destruct (la_log _ _ _ Hlog) as (o & Ho & Hlast & HD).
  destruct (dag_log_decide (nx_quorum s) coin (nx_dag s) (nx_decided_wave s) w o ls d1 out d2) as [Hlog2 Htxs];
    try apply Hi; try done; [by apply nx_majority|lia|].
  destruct Hlog. split; simpl; try done.
  - lia.
  - intros w' [x Hx]. by rewrite lookup_empty in Hx.
  - left. split; [done|]. intros w' Hw'. lia.
  - exists (o ++ out). split; [done|]. rewrite Htxs, dedup_app, Hlast. simpl. split; [done|].
    by rewrite app_assoc, HD.
Qed.

Lemma wave_ready_log D s s' :
  nx_inv s -> (nx_round s mod 4 = 0)%N -> log_inv D s -> wave_ready clock s = Val ((), s') ->
  log_at D (nx_round s / 4) s'.
Proof.
  intros Hi Hmod Hlog Hw. unfold wave_ready in Hw. erewrite st_bind_Val in Hw by done.
  destruct (N.leb_spec 4 (as_u64 (nx_round s))) as [Hge4|Hge4]; [|done].
  erewrite st_bind_Val in Hw by done.
  assert (Wave_from (nx_round s) = Val (nx_round s / 4)%N) as Hwv.
  { unfold Wave_from. by rewrite (proj2 (N.leb_le _ _)). }
  erewrite st_bind_Val in Hw by by apply lift_Val.
  assert (nx_round s = 4 * (nx_round s / 4))%N as Hr.
  { pose proof (N.div_mod (nx_round s) 4). lia. }
  set (w := (nx_round s / 4)%N) in *. unfold as_u64 in Hge4. unfold log_inv in Hlog.
  replace ((nx_round s - 1) / 4)%N with (w - 1)%N in Hlog.
  2:{ rewrite Hr. replace (4 * w - 1)%N with (3 + (w - 1) * 4)%N by lia. by rewrite N.div_add. }
  apply bind_inspect_inv in Hw as (proof & _ & Hw). apply st_bind_inv in Hw as (r & s1 & Hcall & Hw).
  unfold enclave_call, zoom in Hcall. apply outcome_bind_inv in Hcall as ([r' e'] & Htoss & Hs1).
  cbn [fst snd] in Hs1. pose proof (ni_decided _ _ Hi) as Hdec. destruct Hlog as [Lcoin Ldec Lfresh Lcoins Llog].
  assert (nx_pending_wave_coins s !! w = None) as Hnone.
  { destruct (nx_pending_wave_coins s !! w) eqn:E; [|done]. specialize (Lfresh w ltac:(by rewrite E)). lia. }
  injection Hs1 as <- <-. destruct r' as [leader|err].
  - destruct (coin_toss _ _ _ _ _ Lcoin Htoss) as (Hi' & Ht' & Hleader & Hsame).
    erewrite st_bind_Val in Hw by done. change (commit_rule clock w leader (tossed s w leader e') = Val ((), s')) in Hw.
    set (s2 := tossed s w leader e') in Hw.
    assert (nx_inv s2) as Hi2 by (destruct Hi; by split).
    assert (log_at D w s2) as Hlog2.
    { split; simpl; try done.
      - lia.
      - intros w' Hs. destruct (decide (w' = w)) as [->|Hne]; [done|].
        rewrite lookup_insert_ne in Hs by done. apply Lfresh in Hs. lia.
      - destruct Lcoins as [[Ht Hall]|(w0 & Hw0 & Hmiss)].
        + left. split; [lia|]. intros w' Hw'. rewrite Hsame. destruct (decide (w' = w)) as [->|Hne].
          * rewrite lookup_insert_eq, Hleader. do 2 f_equal. lia.
          * rewrite lookup_insert_ne by done. apply Hall. lia.
        + right. exists w0. split; [lia|]. rewrite lookup_insert_ne by lia. done.
      - destruct Llog as (o & Ho & Hrest). exists o. split; [|done]. by eapply dag_log_coin. }
    destruct Lcoins as [[Ht Hall]|(w0 & Hw0 & Hmiss)].
    + assert (leader = coin_of (nx_enclave s2) w) as Hl2.
      { simpl. rewrite Hsame, Hleader. f_equal. lia. }
      rewrite Hl2 in Hw. eapply commit_rule_log; [exact Hi2|done|lia|exact Hlog2| | |exact Hw].
      * simpl. lia.
      * destruct (la_coins _ _ _ Hlog2) as [[_ Hc]|(w1 & Hw1 & Hm1)]; [exact Hc|].
        exfalso. revert Hm1. simpl in *. destruct (decide (w1 = w)) as [->|Hne]; [by rewrite lookup_insert_eq|].
        rewrite lookup_insert_ne by done. rewrite Hall by lia. done.
    + destruct (commit_rule_cases _ _ _ _ Hw) as [Hf|(v & Hdw)]; [by eapply log_at_frame|].
      exfalso. destruct (decide_wave_coins s2 w v s' Hdw) with (w' := w0) as [x Hx]; [lia|simpl; lia|].
      revert Hx. simpl. rewrite lookup_insert_ne by lia. by rewrite Hmiss.
  - apply (log_at_frame _ _ s).
    { etransitivity; [|by eapply enclave_error_log].
      split_and!; try done. by eapply coin_toss_err. }
    split; try done.
    + intros w' Hs. apply Lfresh in Hs. lia.
    + right. exists w. split; [lia|done].
Qed.

(** The round does not change in [wave_ready]. *)
Definition same_round (s s' : NxBft B Tx Enc) : Prop := nx_round s' = nx_round s.
#[local] Instance same_round_preorder : PreOrder same_round.
Proof. split; [by intros s|]. intros s1 s2 s3. unfold same_round. congruence. Qed.

Lemma core_round {A} (m : St (NxBft B Tx Enc) A) : st_rel same_core m -> st_rel same_round m.
Proof. intros Hm s a s' Hs. apply Hm in Hs as (_ & _ & _ & Hr & _). exact Hr. Qed.

Lemma deliver_leaders_round ls order : st_rel same_round (deliver_leaders (Enc := Enc) (Tx := Tx) ls order).
Proof.
  revert order. induction ls as [|l ls IH]; intros order; simpl;
    repeat (st_rel_step || reflexivity || (apply core_round, deliver_transactions_core)).
Qed.
#[local] Hint Resolve deliver_leaders_round : st_rel.

Lemma wave_ready_round s s' : wave_ready clock s = Val ((), s') -> nx_round s' = nx_round s.
Proof.
  intros Hw. eapply (st_rel_apply same_round); [exact Hw|].
  unfold wave_ready, commit_rule, decide_wave.
  repeat (st_rel_step || reflexivity || (apply core_round; (apply enclave_call_core || apply enclave_error_core
    || apply state_message_core || apply now_core))).
Qed.

(** ** The vertex buffer *)

Lemma log_at_grows D c s r d' :
  log_at D c s -> grows (nx_dag s) d' -> (forall b, deliveredb d' b = deliveredb (nx_dag s) b) ->
  log_at D c s.[nx_round := r].[nx_dag := d'].
Proof.
  intros [] Hg Hd. split; simpl; try done. destruct la_log0 as (o & Hlog & Hrest). exists o.
  destruct (dag_log_grows _ _ _ _ _ _ Hg Hd Hlog) as [Hlog' ->]. done.
Qed.

Lemma insert_log D s x d' :
  nx_inv s -> insertable (nx_dag s) x -> Dag_insert (nx_dag s) x = Val d' ->
  log_inv D s -> log_inv D s.[nx_dag := d'].
Proof.
  intros Hi Hx Hins Hlog. pose proof (ni_dag _ _ Hi) as Hdi.
  destruct (Dag_insert_spec (nx_dag s) x Hdi Hx) as (d1 & t & Hd1 & _ & Hi1 & (_ & Hp & Hn & Ho & _)).
  rewrite Hins in Hd1. injection Hd1 as <-. destruct Hx as [Hnone _].
  apply (log_at_grows D _ s (nx_round s) d' Hlog).
  - split; [done|rewrite Ho; split; apply Hi|done| |].
    + intros a Ha. rewrite Hp. case_decide; [done|exact Ha].
    + intros a v1 v2 Hv1. rewrite Hp. case_decide as Heq; [|congruence]. subst a. by rewrite Hnone in Hv1.
  - intros b. unfold deliveredb. rewrite Hp. case_decide as Heq; [|done]. subst b. by rewrite Hnone.
Qed.

Lemma walk_rel_log D : walk_rel (keeps (log_inv D)).
Proof.
  split.
  - apply _.
  - intros r es add s a s' Hc. intros Hl. eapply log_inv_frame; [by eapply check_edges_log|done].
  - intros v s a s' Hc. intros Hl. eapply log_inv_frame; [by eapply verbose_log|done].
  - intros v s a s' Hc. intros Hl. eapply log_inv_frame; [by eapply answer_requests_log|done].
  - intros i e s a s' Hc Hl. eapply log_inv_frame; [by eapply peer_error_log|done].
  - intros s h Hl. apply (log_inv_frame D s); [by apply log_frame_intro|done].
  - intros s h Hl. apply (log_inv_frame D s); [by apply log_frame_intro|done].
  - intros s h Hl. apply (log_inv_frame D s); [by apply log_frame_intro|done].
  - intros s x d' Hi _ Hx Hins Hl. by apply (insert_log D s x).
Qed.

(** The replica's invariant and its log. *)
Definition both (D : list Tx) (s : NxBft B Tx Enc) : Prop := nx_inv s /\ log_inv D s.

Lemma both_frame {A} D (m : St (NxBft B Tx Enc) A) :
  st_rel (keeps nx_inv) m -> st_rel log_frame m -> st_rel (keeps (both D)) m.
Proof.
  intros Hm Hf s a s' Hs [Hi Hl]. split; [by eapply Hm|]. eapply log_inv_frame; [by eapply Hf|done].
Qed.

Lemma both_core {A} D (m : St (NxBft B Tx Enc) A) :
  st_rel same_core m -> st_rel log_frame m -> st_rel (keeps (both D)) m.
Proof. intros Hm. apply both_frame. by apply st_rel_core_keeps. Qed.

Lemma both_leaf D s s' : same_core s s' -> log_frame s s' -> keeps (both D) s s'.
Proof. intros Hc Hf [Hi Hl]. split; [by eapply same_core_keeps|by eapply log_inv_frame]. Qed.

Lemma round_wave r : ((r + 1 - 1) / 4 = r / 4)%N.
Proof. by rewrite N.add_sub. Qed.

(** Inside a wave its number does not change. *)
Lemma wave_of_round r : (r mod 4 <> 0)%N -> ((r - 1) / 4 = r / 4)%N.
Proof.
  intros Hm. pose proof (N.div_mod r 4 ltac:(done)) as Hr. pose proof (N.mod_lt r 4 ltac:(done)).
  revert Hr. generalize dependent (r mod 4)%N. generalize (r / 4)%N. intros q m Hm Hlt Hr.
  symmetry. apply N.div_unique with (m - 1)%N; lia.
Qed.

Lemma wave_step D s3 s4 :
  both D s3 ->
  (if (nx_round s3 mod 4 =? 0)%N then wave_ready clock s3 = Val ((), s4) else s4 = s3) ->
  log_at D (nx_round s3 / 4) s4 /\ nx_round s4 = nx_round s3 /\ nx_inv_upto 1 s4.
Proof.
  intros [Hi Hl] Hw. destruct (N.eqb_spec (nx_round s3 mod 4) 0) as [Hm|Hm].
  - pose proof (wave_ready_keeps clock s3 s4 Hi Hm Hw) as Hi4. split; [by eapply wave_ready_log|].
    split; [|done]. by eapply wave_ready_round.
  - subst s4. split; [|split; [done|by apply nx_inv_slack]]. unfold log_inv in Hl.
    by rewrite <-(wave_of_round (nx_round s3) Hm).
Qed.

Lemma traverse_vertex_buffer_both D : st_rel (keeps (both D)) (traverse_vertex_buffer clock).
Proof.
  intros s [] s' Ht [Hi Hl]. split; [by eapply traverse_vertex_buffer_keeps|].
  destruct (traverse_vertex_buffer_cases clock Hchecks _ s s' (walk_rel_log D) Hi Ht)
    as (s3 & Hi3 & Hl3 & [->|(s4 & r & d5 & m & s6 & v & Hwave & Hr & Hd & Hm & Hcv)]); [by apply Hl3|].
  destruct (wave_step D s3 s4 (conj Hi3 (Hl3 Hl)) Hwave) as (Hl4 & Hr4 & Hi4).
  eapply log_inv_frame; [by eapply create_vertex_log|]. eapply log_inv_frame; [by eapply state_message_log|].
  unfold id_add_assign, u64_add in Hr. destruct (N.ltb_spec (nx_round s4 + 1) (2 ^ 64)) as [Hlt|]; [|by rewrite Hchecks in Hr].
  injection Hr as <-. unfold log_inv. simpl. rewrite round_wave, Hr4. apply log_at_grows; [done|..].
  - destruct (Dag_new_round_inv (nx_dag s4) (ni_dag _ _ Hi4)) as (d1 & Hd1 & Hi1 & Hp & Hn & Ho & _).
    { unfold is_u64. by rewrite (ni_round _ _ Hi4). }
    rewrite Hd in Hd1. injection Hd1 as <-. split; try done.
    + split; [apply Hi4|done].
    + rewrite Ho. split; apply Hi4.
    + intros a. by rewrite Hp.
    + intros a v1 v2. rewrite Hp. congruence.
  - destruct (Dag_new_round_inv (nx_dag s4) (ni_dag _ _ Hi4)) as (d1 & Hd1 & _ & Hp & _).
    { unfold is_u64. by rewrite (ni_round _ _ Hi4). }
    rewrite Hd in Hd1. injection Hd1 as <-. intros b. unfold deliveredb. by rewrite Hp.
Qed.
#[local] Hint Resolve traverse_vertex_buffer_both : st_rel.

(** ** The handlers *)

#[local] Hint Resolve peer_error_core verbose_core enclave_error_core now_core state_message_core
  elapsed_core enclave_call_core set_buffer_core verify_core request_vertex_core create_vertex_core : st_rel.

Ltac both_step :=
  match goal with
  | |- keeps (both _) ?s ?s' => apply both_leaf; [apply same_core_frame; reflexivity|apply log_frame_intro; reflexivity]
  | Hf : _ = Val ?s' |- keeps (both _) ?s ?s' =>
      repeat (match type of Hf with
              | (?m ≫= _) = _ => destruct m; simpl in Hf; try discriminate Hf
              end);
      injection Hf as <-; apply both_leaf; [apply same_core_frame; reflexivity|apply log_frame_intro; reflexivity]
  | |- st_rel (keeps (both _)) _ => apply both_core; solve [eauto with st_rel]
  end.
Ltac bothk := repeat (both_step || st_rel_step).

Lemma process_vertex_both D v : st_rel (keeps (both D)) (process_vertex clock v).
Proof.
  intros s [] s' Hp [Hi Hl].
  destruct (process_vertex_cases clock _ v s s' (walk_rel_log D) Hi Hp) as (s1 & Hi1 & Hl1 & [->|Ht]).
  - split; [done|by apply Hl1].
  - eapply traverse_vertex_buffer_both; [exact Ht|]. split; [done|by apply Hl1].
Qed.
#[local] Hint Resolve process_vertex_both : st_rel.

Lemma deliver_signed_loop_both D fuel i : st_rel (keeps (both D)) (deliver_signed_loop clock fuel i).
Proof. induction fuel as [|fuel IH]; simpl; bothk. Qed.
#[local] Hint Resolve deliver_signed_loop_both : st_rel.
Lemma process_signed_message_both D i m : st_rel (keeps (both D)) (process_signed_message clock i m).
Proof. unfold process_signed_message. bothk. Qed.

Lemma apply_commit_both D c s s' :
  messages_ok (nx_quorum s) (rc_messages c) -> apply_commit clock c s = Val ((), s') ->
  both D s -> both D s'.
Proof.
  intros Hms Hp [Hi Hl]. unfold apply_commit in Hp.
  apply bind_update_inv in Hp as (s1 & Hrm & Hp). apply outcome_bind_inv in Hrm as (h & Hrm & [= <-]).
  pose proof (remove_creator_keeps clock Hchecks _ _ _ Hrm Hi) as Hi1.
  apply st_bind_inv in Hp as ([] & s2 & Hbuf & Hp). pose proof (set_buffer_log _ _ _ _ _ Hbuf) as Hf2.
  apply set_buffer_core in Hbuf. pose proof (same_core_keeps 0 _ _ Hbuf Hi1) as Hi2.
  destruct Hbuf as (_ & Hq2 & _). simpl in Hq2. apply st_bind_inv in Hp as (r & s3 & Hres & Hp).
  pose proof (restore_messages_log _ _ _ _ _ _ Hres) as Hf3.
  apply (restore_messages_keeps Hchecks) in Hres; [|by rewrite Hq2].
  eapply (st_rel_apply (keeps (both D))); [exact Hp| |split; [by apply Hres|]].
  - bothk. intros [Hia Hla]. split; [by apply delete_longest_keeps|].
    refine (log_inv_frame D _ _ _ Hla). by apply log_frame_intro.
  - eapply log_inv_frame; [exact Hf3|]. eapply log_inv_frame; [exact Hf2|].
    apply (log_inv_frame D s); [by apply log_frame_intro|done].
Qed.

Lemma process_recovery_commit_both D i c s s' :
  messages_ok (nx_quorum s) (rc_messages c) -> process_recovery_commit clock i c s = Val ((), s') ->
  both D s -> both D s'.
Proof.
  intros Hms Hp [Hi Hl].
  destruct (process_recovery_commit_cases clock Hchecks log_frame i c s s'
    (process_recovery_request_log _ _) enclave_error_log
    (fun x f => log_frame_intro x _ eq_refl eq_refl eq_refl eq_refl eq_refl eq_refl eq_refl eq_refl eq_refl)
    Hms Hp Hi) as (s1 & Hi1 & Hf1 & [->|(commit & Hc & Ha)]).
  - split; [done|by eapply log_inv_frame].
  - eapply apply_commit_both; [exact Hc|exact Ha|]. split; [done|by eapply log_inv_frame].
Qed.

Lemma dispatch_both D m s s' :
  trusted (nx_quorum s) m -> dispatch clock m s = Val ((), s') -> both D s -> both D s'.
Proof.
  intros Hm Hd Hb. pose proof Hd as Hd0. unfold dispatch in Hd. erewrite st_bind_Val in Hd by done.
  assert (log_frame s s' -> both D s') as Hframe.
  { intros Hf. destruct Hb as [Hi Hl].
    split; [exact (dispatch_keeps clock Hchecks m s s' Hm Hd0 Hi)|exact (log_inv_frame D s s' Hf Hl)]. }
  destruct (_ <=? _)%N; [apply Hframe; by eapply peer_error_log|]. unfold trusted in Hm.
  destruct (pm_message m) eqn:E.
  - apply Hframe. by eapply process_hello_log.
  - apply Hframe. by eapply process_hello_echo_log.
  - apply Hframe. by eapply process_hello_reply_log.
  - apply Hframe. by eapply process_ready_log.
  - by eapply process_signed_message_both.
  - apply Hframe. by eapply process_vertex_request_log.
  - apply Hframe. by eapply process_recovery_request_log.
  - apply Hframe. by eapply process_recovery_proposal_log.
  - by eapply process_recovery_commit_both.
Qed.

(** ** Reflection and runs *)

(** Emptying the output moves what was delivered to what is emitted. *)
Lemma reset_output_both D s :
  both D s -> both (D ++ uo_delivery (nx_output s)) s.[nx_output := UnreflectedOutput_new (nx_me s)].
Proof.
  intros [Hi Hl]. split; [by apply reset_output_keeps|]. destruct Hl as [? ? ? ? (o & Ho & Hlast & HD)].
  split; simpl; try done. exists o. split; [done|]. split; [done|]. by rewrite app_nil_r.
Qed.

Lemma reflect_messages_both process ms o s o' s' q D :
  (forall m s1 o1 s2 D, trusted q m -> nx_quorum s1 = q -> process m s1 = Val (o1, s2) ->
     both D s1 -> both (D ++ out_delivery o1) s2 /\ nx_quorum s2 = q) ->
  (forall m, m ∈ ms -> trusted q m) -> nx_quorum s = q ->
  reflect_messages (Enc := Enc) (Tx := Tx) process ms o s = Val (o', s') ->
  both (D ++ out_delivery o) s -> both (D ++ out_delivery o') s'.
Proof.
  intros Hp. revert o s. induction ms as [|m ms IH]; intros o s Hms Hq; simpl; [by intros [= <- <-]|].
  intros (o1 & s1 & Hm & Hr)%st_bind_inv Hb.
  destruct (Hp m s o1 s1 (D ++ out_delivery o)) as [Hb1 Hq1]; try done; [apply Hms; set_solver|].
  eapply IH; [|done|exact Hr|].
  - intros x Hx. apply Hms. set_solver.
  - simpl. by rewrite app_assoc.
Qed.

Lemma reflect_both fuel s o s' D :
  reflect clock fuel s = Val (o, s') -> both D s -> both (D ++ out_delivery o) s'.
Proof.
  revert s o s' D. induction fuel as [|fuel IH]; intros s o s' D; simpl; [done|].
  do 3 erewrite st_bind_Val by done. intros Hr Hb.
  apply reset_output_both in Hb as Hb0. eapply (reflect_messages_both _ _ _ _ _ _ (nx_quorum s) D) in Hr;
    [exact Hr| | |done|exact Hb0].
  - intros m s1 o1 s2 D1 Hm Hq ([] & s3 & Hd & Hf)%st_bind_inv Hb1. rewrite <-Hq in Hm.
    pose proof (dispatch_both D1 m s1 s3 Hm Hd Hb1) as Hb3. split; [by eapply IH|].
    apply dispatch_delivers in Hd as (_ & Hq3 & _). apply reflect_emits in Hf as (_ & Hq2 & _). congruence.
  - apply Hb.
Qed.

(** A step that does not deliver, then reflection. *)
Lemma frame_reflect_both {A} (m : St (NxBft B Tx Enc) A) (k : A -> St (NxBft B Tx Enc) (Output B Tx Enc)) D s o s' :
  st_rel same_core m -> st_rel log_frame m ->
  (forall a s1, k a s1 = Val (o, s') -> both D s1 -> both (D ++ out_delivery o) s') ->
  (m ≫= k) s = Val (o, s') -> both D s -> both (D ++ out_delivery o) s'.
Proof.
  intros Hc Hf Hk (a & s1 & Hm & Hr)%st_bind_inv [Hi Hl]. eapply Hk; [exact Hr|].
  split; [by eapply same_core_keeps; [eapply Hc|]|by eapply log_inv_frame; [eapply Hf|]].
Qed.

#[local] Hint Extern 1 (st_rel same_core (broadcast _)) => (apply broadcast_core; exact I) : st_rel.
Ltac core_leaf :=
  match goal with
  | |- same_core ?s ?s' => apply same_core_frame; reflexivity
  | Hf : _ = Val ?s' |- same_core ?s ?s' =>
      repeat (match type of Hf with
              | (?m ≫= _) = _ => destruct m; simpl in Hf; try discriminate Hf
              end);
      injection Hf as <-; apply same_core_frame; reflexivity
  end.
#[local] Existing Instance same_core_preorder.
Ltac both_call :=
  match goal with
  | |- (_ ≫= _) _ = Val _ -> _ -> _ => apply frame_reflect_both;
         [repeat (st_rel_step || core_leaf)|logf|intros ? ?]
  | |- (match ?x with _ => _ end) _ = Val _ -> _ => destruct x
  | |- reflect _ _ _ = Val _ -> _ => apply reflect_both
  end.

Lemma init_handshake_both fuel ent s o s' D :
  init_handshake clock fuel ent s = Val (o, s') -> both D s -> both (D ++ out_delivery o) s'.
Proof. unfold init_handshake. repeat both_call. Qed.
Lemma receive_client_request_both fuel tx s o s' D :
  receive_client_request clock fuel tx s = Val (o, s') -> both D s -> both (D ++ out_delivery o) s'.
Proof. unfold receive_client_request. repeat both_call. Qed.
Lemma process_vertex_timeout_both fuel s o s' D :
  process_vertex_timeout clock fuel s = Val (o, s') -> both D s -> both (D ++ out_delivery o) s'.
Proof. unfold process_vertex_timeout. repeat both_call. Qed.
Lemma process_peer_message_both fuel m s o s' D :
  trusted (nx_quorum s) m -> process_peer_message clock fuel m s = Val (o, s') ->
  both D s -> both (D ++ out_delivery o) s'.
Proof.
  intros Hm Hp Hb. apply st_bind_inv in Hp as ([] & s1 & Hd & Hr). eapply reflect_both; [exact Hr|].
  by eapply dispatch_both.
Qed.

Lemma backup_enclave_both D : st_rel (keeps (both D)) (backup_enclave (B := B) (Tx := Tx) (Enc := Enc)).
Proof.
  apply both_frame; [apply backup_enclave_keeps|]. intros s r s' (x & e & He & ->)%backup_enclave_inv.
  exact (enclave_export_log s (Ok x) _ (zoom_Val nx_enclave (fun s e => s.[nx_enclave := e]) enc_export s (Ok x) e He)).
Qed.

(** Along a run, what was emitted is the log. *)
Lemma trusted_run_both s os s' : both [] s -> nx_trusted_run clock s os s' -> both (run_delivery os) s'.
Proof.
  intros Hb Hr.
  induction Hr as [|os s1 fuel ent o s2 _ IH Hc|os s1 fuel m o s2 _ IH Hm Hc|os s1 fuel tx o s2 _ IH Hc|
    os s1 fuel o s2 _ IH Hc|os s1 r s2 _ IH Hc]; [done|..|by eapply backup_enclave_both];
    unfold run_delivery in *; rewrite fmap_app, concat_app; simpl; rewrite app_nil_r.
  - by eapply init_handshake_both.
  - by eapply process_peer_message_both.
  - by eapply receive_client_request_both.
  - by eapply process_vertex_timeout_both.
Qed.

Lemma NxBft_new_both ent t0 me n timeout mn mx s :
  is_u64 n -> NxBft_new clock ent t0 me n timeout mn mx = Val s -> both [] s.
Proof.
  intros Hn Hs. destruct (NxBft_new_inv clock ent t0 me n timeout mn mx s Hn Hs)
    as (Hi & Hr & Hnn & _ & _ & _ & Hout & Hlast). split; [done|]. unfold log_inv. rewrite Hr.
  unfold NxBft_new in Hs. apply assert_inv in Hs as [_ Hs]. apply assert_inv in Hs as [_ Hs].
  apply assert_inv in Hs as [_ Hs]. apply assert_inv in Hs as [_ Hs].
  apply outcome_bind_inv in Hs as (e & He & Hs). destruct (coin_new _ _ _ Hn He) as [Hc Ht].
  destruct (Dag_new_inv (B := B) (Tx := Tx) (Sig := Signature Enc) n Hn) as (d & Hd & Hdi & _ & Ho & _ & Hp & _).
  rewrite Hd in Hs. injection Hs as <-. split; simpl; try done.
  - rewrite Ht. done.
  - intros w [x Hx]. by rewrite lookup_empty in Hx.
  - left. rewrite Ht. split; [done|]. intros w Hw. change ((1 - 1) / 4)%N with 0%N in Hw. lia.
  - exists []. split; [|done]. split.
    + exists []. split; [by left|]. by eexists.
    + intros b. unfold deliveredb. by rewrite Hp.
Qed.

(** ** Total order *)

(** The transactions two replicas have emitted: one is a prefix of the other. *)
Lemma both_prefix D1 s1 D2 s2 :
  both D1 s1 -> both D2 s2 -> nx_output s1 = UnreflectedOutput_new (nx_me s1) ->
  nx_output s2 = UnreflectedOutput_new (nx_me s2) -> nx_n s1 = nx_n s2 ->
  (forall w, coin_of (nx_enclave s1) w = coin_of (nx_enclave s2) w) ->
  consistent (nx_dag s1) (nx_dag s2) -> (nx_decided_wave s1 <= nx_decided_wave s2)%N ->
  D1 `prefix_of` D2.
Proof.
  intros [Hi1 Hl1] [Hi2 Hl2] Ho1 Ho2 Hn Hcoin Hcons Hle.
  destruct (la_log _ _ _ Hl1) as (o1 & Hlog1 & _ & HD1), (la_log _ _ _ Hl2) as (o2 & Hlog2 & _ & HD2).
  rewrite Ho1 in HD1. rewrite Ho2 in HD2. simpl in HD1, HD2. rewrite app_nil_r in HD1, HD2. subst D1 D2.
  assert (nx_quorum s1 = nx_quorum s2) as Hq by (rewrite (ni_quorum _ _ Hi1), (ni_quorum _ _ Hi2); congruence).
  rewrite Hq in Hlog1. apply (dag_log_coin _ _ (coin_of (nx_enclave s2))) in Hlog1; [|intros w; by rewrite Hcoin].
  destruct (dag_log_prefix (nx_quorum s2) (coin_of (nx_enclave s2)) (nx_dag s1) (nx_dag s2)
    (nx_decided_wave s1) (nx_decided_wave s2) o1 o2) as [_ [rest Hrest]]; try apply Hi1; try apply Hi2; try done.
  - by rewrite (ni_n _ _ Hi1), (ni_n _ _ Hi2).
  - by apply nx_majority.
  - rewrite Hrest, dedup_app. simpl. by eexists.
Qed.
End log.

(** Over two runs: one replica's deliveries are a prefix of the other's. *)
Lemma trusted_runs_prefix {P : Profile} {B Tx Enc : Type} `{BitSetLaws B} `{Digests} `{CommonCoinLaws B Enc}
    `{Transaction Tx} `{Hashbar Tx} `{EqDecision B, EqDecision Tx}
    clock1 ent1 t1 me1 clock2 ent2 t2 me2 n timeout1 mn1 mx1 timeout2 mn2 mx2
    (s1 s2 : NxBft B Tx Enc) os1 s1' os2 s2' :
  overflow_checks = true -> is_u64 n ->
  NxBft_new clock1 ent1 t1 me1 n timeout1 mn1 mx1 = Val s1 ->
  NxBft_new clock2 ent2 t2 me2 n timeout2 mn2 mx2 = Val s2 ->
  nx_trusted_run clock1 s1 os1 s1' -> nx_trusted_run clock2 s2 os2 s2' ->
  (forall w, coin_of (nx_enclave s1') w = coin_of (nx_enclave s2') w) ->
  consistent (nx_dag s1') (nx_dag s2') ->
  (nx_decided_wave s1' <= nx_decided_wave s2')%N -> run_delivery os1 `prefix_of` run_delivery os2.
Proof.
  intros Hchecks Hn Hs1 Hs2 Hr1 Hr2 Hcoin Hcons Hle.
  destruct (NxBft_new_inv clock1 _ _ _ _ _ _ _ _ Hn Hs1) as (_ & _ & Hn1 & _ & _ & _ & Ho1 & _).
  destruct (NxBft_new_inv clock2 _ _ _ _ _ _ _ _ Hn Hs2) as (_ & _ & Hn2 & _ & _ & _ & Ho2 & _).
  pose proof (trusted_run_both clock1 Hchecks _ _ _ (NxBft_new_both clock1 _ _ _ _ _ _ _ _ Hn Hs1) Hr1) as Hb1.
  pose proof (trusted_run_both clock2 Hchecks _ _ _ (NxBft_new_both clock2 _ _ _ _ _ _ _ _ Hn Hs2) Hr2) as Hb2.
  apply nx_trusted_run_run, nx_run_dedup in Hr1 as (Hout1 & Hn1' & _); [|by apply NxBft_new_output in Hs1 as [? _]].
  apply nx_trusted_run_run, nx_run_dedup in Hr2 as (Hout2 & Hn2' & _); [|by apply NxBft_new_output in Hs2 as [? _]].
  eapply both_prefix; try done. congruence.
Qed.
