(* ===== verification/NxExamples.v ===== *)
(** * NxBFT: a concrete system

    Three replicas with [SimpleEnclave], bit sets on binary numbers, and simple
    stand-ins for the third-party crates (digests, random numbers, interval
    maps), all executable: the inputs at which the theorems are evaluated.  The
    network delivers messages in the order they were sent; it also runs the
    handshake and a number of rounds, and records the outputs of every replica. *)

From Stdlib Require Import ZArith Lia.
From stdpp Require Import base list gmap sets numbers option strings.
From S2P Require Import Prelude Ids Heaps Requests NxBase NxDag NxDagFacts NxDagGraph NxDagSearch NxDagPath.
From S2P Require Import NxEnclave NxMessages NxReplica NxEnclaveFacts NxCommit NxDagBuilt NxDecide.
From S2P Require Import NxOrder NxReplicaFacts NxInvariant NxLog.

(** ** Parameters *)

#[export] Existing Instance prerelease.
#[export] Existing Instance Ranges_map.
#[export] Existing Instance Ranges_laws.

Record ExTx := mkTx { tx_client : N; tx_request : N }.
#[export] Instance ExTx_eq_dec : EqDecision ExTx.
Proof. solve_decision. Defined.
#[export] Instance ExTx_transaction : Transaction ExTx := {| client_id := tx_client; request_id := tx_request |}.
#[export] Instance ExTx_hashbar : Hashbar ExTx := fun t => to_le_bytes (tx_client t) ++ to_le_bytes (tx_request t).

(** Digests of fixed lengths (not collision free). *)
#[export] Instance ex_digests : Digests := {|
  sha256 := fun l => take 32 (l ++ replicate 32 0%N);
  blake2b512 := fun l => take 64 (l ++ replicate 64 0%N);
|}.

#[export] Instance ex_rand : Rand := {|
  Rng := N;
  rng_from_seed := foldr N.add 0%N;
  uniform_sample := fun n r => ((r mod n)%N, (r + 1)%N);
|}.
#[export] Instance ex_rand_laws : RandLaws.
Proof. split. intros n r Hn. apply N.mod_lt. lia. Qed.

Abbreviation ExEnc := (SimpleEnclave (M := Ranges)).
Abbreviation ExReplica := (NxBft N ExTx ExEnc).
Abbreviation ExVertex := (Vertex N ExTx EnclaveSignature).

#[export] Instance ex_coin_laws : CommonCoinLaws N ExEnc.
Proof. by apply SimpleEnclave_coin_laws. Qed.

Definition ex_clock (k : nat) : N := N.of_nat k.
Definition ex_entropy (i : N) : SimpleEntropy := mkEntropy (100 + i) (Ok (replicate 32 i)).

Lemma ex_checks : overflow_checks = true.
Proof. reflexivity. Qed.
Lemma ex_n_u64 : is_u64 3.
Proof. unfold is_u64. lia. Qed.

(** ** One replica *)

Inductive ExEvent :=
| EvHandshake (ent : SimpleEntropy)
| EvMessage (m : PeerMessage N ExTx ExEnc)
| EvRequest (tx : ExTx)
| EvTimeout.

(** Nesting of reflections allowed in one call. *)
Definition ex_fuel : nat := 30.

Definition ex_step (e : ExEvent) : St ExReplica (Output N ExTx ExEnc) :=
  match e with
  | EvHandshake ent => init_handshake ex_clock ex_fuel ent
  | EvMessage m => process_peer_message ex_clock ex_fuel m
  | EvRequest tx => receive_client_request ex_clock ex_fuel tx
  | EvTimeout => process_vertex_timeout ex_clock ex_fuel
  end.

(** Recovery commits do not occur in the example. *)
Definition ex_trusted (e : ExEvent) : bool :=
  match e with
  | EvMessage m => match pm_message m with RecoveryCommitMsg _ => false | _ => true end
  | _ => true
  end.

(** A replica, its initial state and its outputs so far. *)
Record ExNode := mkNode { nd_start : ExReplica; nd_outs : list (Output N ExTx ExEnc); nd_state : ExReplica }.

Definition node_step (e : ExEvent) (nd : ExNode) : Outcome (Output N ExTx ExEnc * ExNode) :=
  rust_assert (ex_trusted e) ;;
  r ← ex_step e (nd_state nd);
  Val (r.1, mkNode (nd_start nd) (nd_outs nd ++ [r.1]) r.2).

Definition node_run (nd : ExNode) : Prop :=
  nx_trusted_run ex_clock (nd_start nd) (nd_outs nd) (nd_state nd).

Lemma node_step_run e nd o nd' : node_run nd -> node_step e nd = Val (o, nd') -> node_run nd' /\ nd_start nd' = nd_start nd.
Proof.
  unfold node_run, node_step. intros Hr (Ht & Hs)%assert_inv. apply outcome_bind_inv in Hs as ([o1 s1] & Hs & [= <- <-]).
  split; [|done]. simpl. destruct e as [ent|m|tx|]; simpl in Hs.
  - by eapply trusted_handshake.
  - eapply trusted_message; [done| |done]. unfold trusted. simpl in Ht. by destruct (pm_message m).
  - by eapply trusted_request.
  - by eapply trusted_timeout.
Qed.

(** ** The network *)

Abbreviation ExNet := (list ExNode).
Abbreviation ExQueue := (list (N * PeerMessage N ExTx ExEnc)).

Definition sends (me : N) (o : Output N ExTx ExEnc) : ExQueue :=
  concat ((fun m => (fun t => (t, m)) <$> List.filter (fun t => negb (t =? me)%N) [0%N; 1%N; 2%N]) <$> out_broadcasts o)
  ++ out_unicasts o.

Definition net_step (i : N) (e : ExEvent) (nq : ExNet * ExQueue) : Outcome (ExNet * ExQueue) :=
  nd ← unwrap (nq.1 !! N.to_nat i);
  r ← node_step e nd;
  Val (<[N.to_nat i := r.2]> nq.1, nq.2 ++ sends i r.1).

(** Delivers queued messages, at most [k] of them. *)
Fixpoint net_drain (k : nat) (nq : ExNet * ExQueue) : Outcome (ExNet * ExQueue) :=
  match k with
  | O => Val nq
  | S k =>
      match nq.2 with
      | [] => Val nq
      | (to, m) :: q => nq ← net_step to (EvMessage m) (nq.1, q); net_drain k nq
      end
  end.

Definition ex_new (i : N) : Outcome ExNode :=
  s ← NxBft_new ex_clock (ex_entropy i) 0 i 3 1000 1 1;
  Val (mkNode s [] s).

Definition ex_handshake : Outcome (ExNet * ExQueue) :=
  a ← ex_new 0; b ← ex_new 1; c ← ex_new 2;
  nq ← net_step 0 (EvHandshake (ex_entropy 0)) ([a; b; c], []);
  nq ← net_step 1 (EvHandshake (ex_entropy 1)) nq;
  nq ← net_step 2 (EvHandshake (ex_entropy 2)) nq;
  net_drain 300 nq.

(** The replicas [ids] each receive a request of their client and their timeout. *)
Definition ex_inputs (ids : list N) (k : N) (nq : ExNet * ExQueue) : Outcome (ExNet * ExQueue) :=
  for_each ids nq (fun nq i => nq ← net_step i (EvRequest (mkTx i k)) nq; net_step i EvTimeout nq).

Definition ex_round (k : N) (nq : ExNet * ExQueue) : Outcome (ExNet * ExQueue) :=
  nq ← ex_inputs [0%N; 1%N; 2%N] k nq;
  net_drain 300 nq.

(** The handshake and [k] rounds. *)
Definition ex_run (k : N) : Outcome (ExNet * ExQueue) :=
  nq ← ex_handshake;
  for_each (range 1 (k + 1)) nq (fun nq r => ex_round r nq).

(** Every replica of the network started with [ex_new] and has made a run. *)
Definition net_ok (net : ExNet) : Prop :=
  forall j nd, net !! j = Some nd -> node_run nd /\ ex_new (N.of_nat j) = Val (mkNode (nd_start nd) [] (nd_start nd)).

Lemma net_step_ok i e nq nq' : net_ok nq.1 -> net_step i e nq = Val nq' -> net_ok nq'.1.
Proof.
  intros Hok Hs. unfold net_step in Hs. apply outcome_bind_inv in Hs as (nd & Hnd & Hs).
  apply outcome_bind_inv in Hs as ([o nd'] & Hst & [= <-]). simpl. intros j x Hx.
  destruct (nq.1 !! N.to_nat i) as [nd0|] eqn:E; [|done]. injection Hnd as ->.
  apply list_lookup_insert_Some in Hx as [(<- & <- & _)|[_ Hx]]; [|by apply Hok].
  destruct (Hok _ _ E) as [Hr Hn]. destruct (node_step_run e nd o nd' Hr Hst) as [Hr' ->]. done.
Qed.

Lemma net_drain_ok k nq nq' : net_ok nq.1 -> net_drain k nq = Val nq' -> net_ok nq'.1.
Proof.
  revert nq. induction k as [|k IH]; intros [net q] Hok; simpl; [by intros [= <-]|].
  destruct q as [|[to m] q]; [by intros [= <-]|]. intros (nq1 & H1q & Hr)%outcome_bind_inv.
  eapply IH; [|exact Hr]. by eapply net_step_ok; [|exact H1q].
Qed.

Lemma for_each_ok {A} (xs : list A) (body : ExNet * ExQueue -> A -> Outcome (ExNet * ExQueue)) nq nq' :
  (forall nq x nq', net_ok nq.1 -> body nq x = Val nq' -> net_ok nq'.1) ->
  net_ok nq.1 -> for_each xs nq body = Val nq' -> net_ok nq'.1.
Proof.
  intros Hb. revert nq. induction xs as [|x xs IH]; intros nq Hok; simpl; [by intros [= <-]|].
  intros (nq1 & H1q & Hr)%outcome_bind_inv. eapply IH; [|exact Hr]. by eapply Hb.
Qed.

(** The steps stay folded in what follows. *)
#[local] Opaque ex_new net_step net_drain.

Lemma ex_new_ok i nd :
  ex_new i = Val nd -> node_run nd /\ ex_new i = Val (mkNode (nd_start nd) [] (nd_start nd)).
Proof.
  intros Hi. pose proof Hi as Hi0. with_strategy transparent [ex_new] unfold ex_new in Hi.
  apply outcome_bind_inv in Hi as (s & _ & [= <-]). split; [apply trusted_nil|exact Hi0].
Qed.

Lemma ex_handshake_ok nq : ex_handshake = Val nq -> net_ok nq.1.
Proof.
  unfold ex_handshake. intros (a & Ha & Hh)%outcome_bind_inv.
  apply outcome_bind_inv in Hh as (b & Hb & Hh). apply outcome_bind_inv in Hh as (c & Hc & Hh).
  apply outcome_bind_inv in Hh as (n1 & Hn1 & Hh). apply outcome_bind_inv in Hh as (n2 & Hn2 & Hh).
  apply outcome_bind_inv in Hh as (n3 & Hn3 & Hh). eapply net_drain_ok; [|exact Hh].
  eapply net_step_ok; [|exact Hn3]. eapply net_step_ok; [|exact Hn2]. eapply net_step_ok; [|exact Hn1].
  intros [|[|[|j]]] nd; simpl; intros [= <-]; by apply ex_new_ok.
Qed.

Lemma ex_inputs_ok ids k nq nq' : net_ok nq.1 -> ex_inputs ids k nq = Val nq' -> net_ok nq'.1.
Proof.
  intros Hok Hi. eapply for_each_ok; [|exact Hok|exact Hi]. intros nq1 i nq2 Hok1 Hb.
  apply outcome_bind_inv in Hb as (nq3 & Hr & Hb).
  eapply net_step_ok; [|exact Hb]. by eapply net_step_ok; [|exact Hr].
Qed.

Lemma ex_run_ok k nq : ex_run k = Val nq -> net_ok nq.1.
Proof.
  unfold ex_run. intros (h & Hh & Hr)%outcome_bind_inv. eapply for_each_ok; [|clear Hr|exact Hr].
  - intros nq1 r nq2 Hok Hround. apply outcome_bind_inv in Hround as (nq3 & Hin & Hd).
    eapply net_drain_ok; [|exact Hd]. by eapply ex_inputs_ok.
  - by apply ex_handshake_ok.
Qed.

(** [rounds] complete rounds, then inputs at the replicas [ids] and [k] deliveries. *)
Definition ex_partial (rounds : N) (ids : list N) (k : nat) : Outcome (ExNet * ExQueue) :=
  nq ← ex_run rounds;
  nq ← ex_inputs ids (rounds + 1) nq;
  net_drain k nq.

Lemma ex_partial_ok rounds ids k nq : ex_partial rounds ids k = Val nq -> net_ok nq.1.
Proof.
  unfold ex_partial. intros (h & Hh & Hr)%outcome_bind_inv. apply outcome_bind_inv in Hr as (n1 & Hn1 & Hr).
  eapply net_drain_ok; [|exact Hr]. eapply ex_inputs_ok; [|exact Hn1]. by eapply ex_run_ok.
Qed.

#[local] Transparent ex_new net_step net_drain.

(** ** Deciding consistency of two DAGs *)

Definition consistentb `{EqDecision T} (d1 d2 : Dag N T (Signature (B := N) ExEnc)) : bool :=
  forallb (fun r => forallb (fun c =>
      match present d1 (mkDagAddress r c), present d2 (mkDagAddress r c) with
      | Some v1, Some v2 => bool_decide (vm_vertex v1 = vm_vertex v2)
      | _, _ => true
      end) (range 0 (dag_n d1))) (range 0 (dag_max_round d1 + 1)).

Lemma consistentb_spec `{EqDecision T} (d1 d2 : Dag N T (Signature (B := N) ExEnc)) : Dag_shape d1 -> consistentb d1 d2 = true -> consistent d1 d2.
Proof.
  intros Hs Hc a v1 v2 Hv1 Hv2. destruct (present_in d1 a v1 Hs Hv1) as [Hr Hcr].
  unfold consistentb in Hc. rewrite forallb_forall in Hc.
  specialize (Hc (da_round a)). rewrite <-list_elem_of_In, elem_of_range in Hc. specialize (Hc ltac:(lia)).
  rewrite forallb_forall in Hc. specialize (Hc (da_creator a)).
  rewrite <-list_elem_of_In, elem_of_range in Hc. specialize (Hc ltac:(lia)).
  replace (mkDagAddress (da_round a) (da_creator a)) with a in Hc by by destruct a.
  rewrite Hv1, Hv2 in Hc. by apply bool_decide_eq_true in Hc.
Qed.

(** ** Evaluating the example *)

(** Replicas [i] and [j] hold the same seed and consistent DAGs, and have
    delivered [ki] and [kj] transactions. *)
Definition ex_agree (i j : nat) (ki kj : nat) (nq : ExNet * ExQueue) : bool :=
  match nq.1 !! i, nq.1 !! j with
  | Some a, Some b =>
      consistentb (nx_dag (nd_state a)) (nx_dag (nd_state b))
      && bool_decide (ea_n (nx_enclave (nd_state a)) = ea_n (nx_enclave (nd_state b)))
      && bool_decide (ea_seed (nx_enclave (nd_state a)) = ea_seed (nx_enclave (nd_state b)))
      && bool_decide (length (run_delivery (nd_outs a)) = ki)
      && bool_decide (length (run_delivery (nd_outs b)) = kj)
  | _, _ => false
  end.

(** The system in the middle of the deliveries of round 8: replica 1 has decided
    the second wave, replica 0 has not. *)
Abbreviation ex_midway := (ex_partial 7 [0%N; 1%N; 2%N] 1).

(** Replica 0 at the end of the first wave, before its own vertex of round 4:
    the other two have sent theirs. *)
Abbreviation ex_wave_end := (ex_partial 3 [1%N; 2%N] 300).

(** A node of the example, with the invariants its run gives. *)
Lemma ex_node_inv net j nd :
  net_ok net -> net !! j = Some nd ->
  NxBft_new ex_clock (ex_entropy (N.of_nat j)) 0 (N.of_nat j) 3 1000 1 1 = Val (nd_start nd)
  /\ nx_trusted_run ex_clock (nd_start nd) (nd_outs nd) (nd_state nd)
  /\ nx_inv_upto 0 (nd_state nd)
  /\ both (run_delivery (nd_outs nd)) (nd_state nd).
Proof.
  intros Hok Hnd. destruct (Hok j nd Hnd) as [Hr Hn].
  assert (NxBft_new ex_clock (ex_entropy (N.of_nat j)) 0 (N.of_nat j) 3 1000 1 1 = Val (nd_start nd)) as Hnew.
  { apply outcome_bind_inv in Hn as (s & Hs & [= <- _]). exact Hs. }
  assert (both [] (nd_start nd)) as Hstart by (eapply NxBft_new_both; [|exact Hnew]; unfold is_u64; lia).
  pose proof (trusted_run_both ex_clock eq_refl _ _ _ Hstart Hr) as Hb.
  split; [done|]. split; [exact Hr|]. split; [apply Hb|done].
Qed.
