(* ===== verification/NxTheorems.v ===== *)
(** * NxBFT: theorems about the DAG and the trusted component

    Each with a witness on small concrete DAGs and automata. *)

From Stdlib Require Import ZArith Lia.
From stdpp Require Import base list gmap sets numbers option relations.
From S2P Require Import Prelude Ids Heaps Requests NxBase NxDag NxDagFacts NxDagGraph NxDagSearch NxDagPath.
From S2P Require Import NxEnclave NxMessages NxReplica NxEnclaveFacts NxCommit NxDagBuilt NxDecide.
From S2P Require Import NxOrder NxExamples.

Section dag_theorems.
  Context {P : Profile} {B Tx Enc : Type}.
  Context `{BitSetLaws B} `{Digests} `{Enclave B Enc} `{Transaction Tx} `{Hashbar Tx}.
  Context `{EqDecision B, EqDecision Tx}.
  Implicit Types (d : Dag B Tx (Signature Enc)).

(** Once a replica decides a wave, every vertex of a later wave, in the DAG
    of every replica that agrees on the vertices, has a path to its leader. *)
Theorem nx_decided_leader_reached d1 d2 q coin w :
  dag_built q d1 -> dag_built q d2 -> consistent d1 d2 -> dag_n d1 = dag_n d2 -> (dag_n d2 < 2 * q)%N ->
  decides d1 q coin w ->
  forall a, is_Some (present d2 a) -> (4 * w < da_round a)%N -> dag_path d2 a (leader_of coin w).
Proof.
  intros Hb1%dag_built_inv Hb2%dag_built_inv Hc Hn Hq (Hw & _ & S & HS & Hsize).
  destruct Hb1, Hb2. apply (committed_reached d1 d2 q (4 * w) (leader_of coin w) S); try done. lia.
Qed.

(** Agreement on leaders: of two replicas that decided waves [w1 <= w2], the
    leaders the first has committed are the oldest ones the second has. *)
Theorem nx_leader_agreement d1 d2 q coin w1 w2 ls1 ls2 :
  dag_built q d1 -> dag_built q d2 -> consistent d1 d2 -> dag_n d1 = dag_n d2 -> (dag_n d2 < 2 * q)%N ->
  decides d1 q coin w1 -> decides d2 q coin w2 -> (w1 <= w2)%N ->
  committed d1 coin w1 ls1 -> committed d2 coin w2 ls2 -> ls1 `suffix_of` ls2.
Proof.
  intros Hb1%dag_built_inv Hb2%dag_built_inv. destruct Hb1, Hb2. intros.
  by apply (committed_suffix d1 d2 q coin w1 w2 ls1 ls2).
Qed.

(** C34: [deliver_from] terminates and delivers exactly the history of the vertex
    that was not delivered before, each vertex once, and marks it delivered. *)
Theorem Dag_deliver_from_correct d q a :
  dag_built q d -> is_Some (present d a) ->
  exists out d', Dag_deliver_from d a 0 = Val (out, d') /\ same_graph d d' /\ NoDup out
    /\ (forall b, b ∈ out <-> deliveredb d b = false /\ dag_path d a b)
    /\ (forall b, deliveredb d' b = deliveredb d b || bool_decide (b ∈ out)).
Proof.
  intros Hb%dag_built_inv Ha. destruct Hb.
  destruct (deliver_from_history d a) as (out & d' & Hd & Hg & Hnd & Hel & Hdel & _); try done.
  exists out, d'. done.
Qed.

(** The order in which [deliver_from] delivers depends only on the vertices
    of the history and on what of it was delivered before, not on what else is
    in the DAG. *)
Theorem Dag_deliver_from_local d1 d2 q1 q2 a o1 e1 o2 e2 :
  dag_built q1 d1 -> dag_built q2 d2 ->
  agree_on (dag_path d1 a) d1 d2 ->
  Dag_deliver_from d1 a 0 = Val (o1, e1) -> Dag_deliver_from d2 a 0 = Val (o2, e2) ->
  o1 = o2 /\ agree_on (dag_path d1 a) e1 e2.
Proof.
  intros Hb1%dag_built_inv Hb2%dag_built_inv. destruct Hb1, Hb2. intros Hag Hd1 Hd2.
  eapply (deliver_from_agree (dag_path d1 a) d1 d2 a); try done.
  intros x y Hx Hxy. by eapply rtc_r.
Qed.

(** The [reaches] set of a vertex of the third or last round of a wave, which
    [insert] computes from the sets of its parents, holds exactly the replicas
    whose vertex of the wave's first round the vertex has a path to. *)
Theorem Dag_reaches_correct d q a v l :
  dag_built q d -> present d a = Some v ->
  ((da_round a mod 4 = 3)%N ->
     VertexWithMeta_reaches v l = true <-> dag_path d a (mkDagAddress (da_round a - 2) l))
  /\ ((da_round a mod 4 = 0)%N ->
     VertexWithMeta_reaches v l = true <-> dag_path d a (mkDagAddress (da_round a - 3) l)).
Proof.
  intros Hb%dag_built_inv Hv. unfold VertexWithMeta_reaches. destruct (bi_reach _ _ Hb a v l Hv) as [H3r H4r].
  rewrite elem_of_to_gset in H3r, H4r. done.
Qed.

(** [has_path] decides reachability, provided the target is above everything
    explored before, or the source is not. *)
Theorem Dag_has_path_correct d q a b :
  dag_built q d -> is_Some (present d a) -> is_Some (present d b) -> (da_round b < da_round a)%N ->
  (dag_explored_from d < da_round b \/ da_round a <= dag_explored_from d)%N ->
  exists r d', Dag_has_path d a b = Val (r, d') /\ (r = true <-> dag_path d a b)
    /\ same_graph d d' /\ dag_explored_from d' = N.max (dag_explored_from d) (da_round a).
Proof.
  intros Hb%dag_built_inv Ha Hbp Hlt Hcase. destruct Hb.
  destruct (Dag_has_path_spec d a b) as (r & d' & Hr & Hpath & Hg & _ & _ & Hf); try done. eauto 6.
Qed.

(** [insert] accepts a vertex of a known round with a free slot and known
    parents, and stores exactly it; it panics when the slot is taken, the round
    is not in the DAG or the creator is no replica. *)
Theorem Dag_insert_correct d x :
  Dag_inv d ->
  (insertable d x -> exists d' t, Dag_insert d x = Val d' /\ Dag_inv d'
     /\ forall a, present d' a = if decide (a = Vertex_address x) then Some (VertexWithMeta_new x t) else present d a)
  /\ (is_Some (present d (Vertex_address x)) \/ (dag_n d <= Vertex_creator x)%N
      \/ (Vertex_round x < dag_offset d \/ dag_max_round d < Vertex_round x)%N ->
      Dag_insert d x = Panic).
Proof.
  intros Hi. pose proof (inv_shape d Hi) as Hs. split.
  - intros Hx. destruct (Dag_insert_spec d x Hi Hx) as (d' & t & Hd & _ & Hi' & (_ & Hp & _)). eauto.
  - intros Hcase. destruct (N.lt_ge_cases (Vertex_creator x) (dag_n d)) as [Hc|Hc].
    2:{ unfold Dag_insert. by rewrite knows_bad_creator. }
    destruct Hcase as [Hp|[?|Hr]]; [|lia|by apply dag_insert_out_of_range].
    unfold Dag_insert. rewrite knows_present by done. by rewrite bool_decide_eq_true_2.
Qed.

(** [prune] removes exactly the rounds below the limit, and returns the
    vertices in them that were not delivered. *)
Theorem Dag_prune_correct d q limit :
  dag_built q d -> (dag_offset d <= limit <= dag_max_round d)%N ->
  exists u d', Dag_prune d limit = Val (dag_offset d, limit, u, d') /\ Dag_shape d'
    /\ (forall a, present d' a = if decide (limit <= da_round a)%N then present d a else None)
    /\ (forall x, x ∈ u <-> exists a v, present d a = Some v /\ (da_round a < limit)%N
                                      /\ vm_delivered v = false /\ vm_vertex v = x).
Proof. intros Hb%dag_built_inv Hl. destruct Hb. apply dag_prune_present; [apply bi_dag|done]. Qed.

(** ** Helpers of the witnesses *)

(** Every wave has a walk, if the coins name replicas. *)
Lemma committed_exists d q coin w :
  built_inv q d -> dag_explored_from d = 0%N -> (forall w', (coin w' < dag_n d)%N) ->
  is_u64 (4 * w) -> (1 <= w)%N -> is_Some (present d (leader_of coin w)) -> exists ls, committed d coin w ls.
Proof.
  intros [Hi Ho _ Hb _ _] Hf Hc Hu Hw Hl.
  destruct (leaders_loop_spec (S (N.to_nat w)) (list_to_map ((fun w => (w, coin w)) <$> range 1 (w + 1))) coin 0
    d (leader_of coin w) [] [] (w - 1)) as (ls & ws & d' & _ & Hwalk & _); try done.
  - left. intros w' Hw'. lia.
  - unfold is_u64 in *. lia.
  - simpl. lia.
  - intros w' Hw'. split; [|done]. apply elem_of_list_to_map_1'.
    + intros y Hy. by apply list_elem_of_fmap in Hy as (x & [= -> ->] & _).
    + apply list_elem_of_fmap. exists w'. split; [done|]. apply elem_of_range. lia.
  - lia.
  - exists (leader_of coin w :: ls), ls. done.
Qed.
End dag_theorems.

(** ** Concrete DAGs

    Replicas 0 and 1 name each other as parents, replica 2 names all three; the
    second DAG lacks the vertices of replica 2. *)

Definition ex_vertex (r c : N) : Vertex N ExTx (Signature (B := N) ExEnc) :=
  Vertex_new_with_signature (Sig := Signature (B := N) ExEnc) r c
    (mkIdSet (if (r <=? 1)%N then 0 else if (c =? 2)%N then 7 else 3)%N) [mkTx c r]
    (mkEnclaveSignature (100 + c) r) r.

Definition ex_vertices (rounds : N) (creators : list N) : list (Vertex N ExTx (Signature (B := N) ExEnc)) :=
  concat ((fun r => (fun c => ex_vertex r c) <$> creators) <$> range 1 (rounds + 1)).

Abbreviation ExDag := (Dag N ExTx (Signature (B := N) ExEnc)).

Definition ex_dag (rounds : N) (creators : list N) : Outcome (ExDag) :=
  build 2 3 (ex_vertices rounds creators).

Definition ex_leader (w : N) : N := (w mod 2)%N.

(** [d] decides wave [w]: evaluated. *)
Definition decidesb (d : ExDag) (coin : N -> N) (w : N) : bool :=
  bool_decide (is_Some (present d (leader_of coin w)))
  && holds (Dag_get_round d (4 * w)) (fun vas => holds (count_reaching d vas (coin w)) (fun k => (2 <=? k)%N)).

Lemma decidesb_spec d coin w : built_inv 2 d -> (1 <= w)%N -> decidesb d coin w = true -> decides d 2 coin w.
Proof.
  intros Hb Hw Hd. apply andb_true_iff in Hd as [Hl%bool_decide_eq_true Hd].
  apply holds_Val in Hd as (vas & Hvas & Hd). apply holds_Val in Hd as (k & Hk & Hq%N.leb_le).
  destruct Hb. destruct (decides_count d 2 coin w vas) as (k' & Hk' & Hiff); try done.
  rewrite Hk in Hk'. injection Hk' as <-. by apply Hiff.
Qed.

(** A DAG of the example that passes [test]. *)
Lemma ex_dag_Val rounds creators test :
  holds (ex_dag rounds creators) test = true ->
  exists d, ex_dag rounds creators = Val d /\ test d = true /\ dag_built 2 d /\ fresh (ex_vertices rounds creators) d
    /\ dag_n d = 3%N /\ built_inv 2 d.
Proof.
  intros (d & Hd & Ht)%holds_Val. destruct (build_built _ _ _ _ Hd) as (Hb & Hf & Hn).
  exists d. pose proof (dag_built_inv 2 d Hb) as Hi.
  split; [exact Hd|]. split; [exact Ht|]. by split_and!.
Qed.

(** The vertices of the examples are determined by their addresses. *)
Lemma ex_vertices_agree r1 cs1 r2 cs2 x y :
  x ∈ ex_vertices r1 cs1 -> y ∈ ex_vertices r2 cs2 -> Vertex_address x = Vertex_address y -> x = y.
Proof.
  unfold ex_vertices. intros Hx Hy. apply list_elem_of_In, in_concat in Hx as (l & Hl & Hx).
  apply list_elem_of_In, in_concat in Hy as (m & Hm & Hy). apply list_elem_of_In in Hl, Hm, Hx, Hy.
  apply list_elem_of_fmap in Hl as (a & -> & _). apply list_elem_of_fmap in Hm as (b & -> & _).
  apply list_elem_of_fmap in Hx as (c & -> & _). apply list_elem_of_fmap in Hy as (e & -> & _).
  by intros [= -> ->].
Qed.

Lemma ex_dag_consistent r1 cs1 r2 cs2 d1 d2 :
  ex_dag r1 cs1 = Val d1 -> ex_dag r2 cs2 = Val d2 -> consistent d1 d2.
Proof.
  intros E1 E2. eapply build_consistent; [exact E1|exact E2|]. intros x y. apply ex_vertices_agree.
Qed.

(** The two DAGs: eight rounds without replica 2, nine rounds with it. *)
Lemma ex_dags :
  exists d1 d2 : ExDag, dag_built 2 d1 /\ dag_built 2 d2 /\ built_inv 2 d1 /\ built_inv 2 d2 /\ consistent d1 d2
    /\ dag_n d1 = 3%N /\ dag_n d2 = 3%N /\ dag_explored_from d1 = 0%N /\ dag_explored_from d2 = 0%N
    /\ decides d1 2 ex_leader 1 /\ decides d2 2 ex_leader 2
    /\ is_Some (present d2 (mkDagAddress 9 2)) /\ undelivered d1 /\ undelivered d2.
Proof.
  destruct (ex_dag_Val 8 [0%N; 1%N] (fun d => decidesb d ex_leader 1)) as (d1 & Hd1 & Ht1 & Hb1 & (Hf1 & Hx1 & _) & Hn1 & Hi1);
    [vm_compute; reflexivity|].
  destruct (ex_dag_Val 9 [0%N; 1%N; 2%N] (fun d => decidesb d ex_leader 2 && bool_decide (is_Some (present d (mkDagAddress 9 2)))))
    as (d2 & Hd2 & Ht2 & Hb2 & (Hf2 & Hx2 & _) & Hn2 & Hi2); [vm_compute; reflexivity|].
  apply andb_true_iff in Ht2 as [Ht2 Hp2%bool_decide_eq_true].
  pose proof (ex_dag_consistent _ _ _ _ _ _ Hd1 Hd2) as Hc. clear Hd1 Hd2.
  pose proof (decidesb_spec d1 ex_leader 1 Hi1 ltac:(lia) Ht1) as Hw1.
  pose proof (decidesb_spec d2 ex_leader 2 Hi2 ltac:(lia) Ht2) as Hw2. clear Ht1 Ht2.
  by exists d1, d2.
Qed.

Lemma nx_decided_leader_reached_witness :
  exists d2 : ExDag, dag_path d2 (mkDagAddress 9 2) (mkDagAddress 1 1).
Proof.
  destruct ex_dags as (d1 & d2 & Hb1 & Hb2 & _ & _ & Hc & Hn1 & Hn2 & _ & _ & Hd1 & _ & Hp & _).
  exists d2. apply (nx_decided_leader_reached d1 d2 2 ex_leader 1 Hb1 Hb2 Hc);
    [congruence|rewrite Hn2; lia|exact Hd1|exact Hp|simpl; lia].
Defined.

Lemma nx_leader_agreement_witness :
  exists (d1 d2 : ExDag) ls1 ls2,
    committed d1 ex_leader 1 ls1 /\ committed d2 ex_leader 2 ls2 /\ ls1 `suffix_of` ls2.
Proof.
  destruct ex_dags as (d1 & d2 & Hb1 & Hb2 & Hi1 & Hi2 & Hc & Hn1 & Hn2 & Hx1 & Hx2 & Hd1 & Hd2 & _).
  assert (forall w, (ex_leader w < 3)%N) as Hlt.
  { intros w. unfold ex_leader. pose proof (N.mod_lt w 2 ltac:(done)). lia. }
  destruct (committed_exists d1 2 ex_leader 1) as [ls1 Hls1]; try done; [by rewrite Hn1|by destruct Hd1 as (_ & ? & _)|].
  destruct (committed_exists d2 2 ex_leader 2) as [ls2 Hls2]; try done; [by rewrite Hn2|by destruct Hd2 as (_ & ? & _)|].
  exists d1, d2, ls1, ls2. split; [exact Hls1|]. split; [exact Hls2|].
  apply (nx_leader_agreement d1 d2 2 ex_leader 1 2); [exact Hb1|exact Hb2|exact Hc|congruence|rewrite Hn2; lia
    |exact Hd1|exact Hd2|lia|exact Hls1|exact Hls2].
Defined.

Lemma Dag_deliver_from_correct_witness :
  exists (d : ExDag) out d',
    Dag_deliver_from d (mkDagAddress 9 2) 0 = Val (out, d') /\ NoDup out.
Proof.
  destruct ex_dags as (_ & d2 & _ & Hb2 & _ & _ & _ & _ & _ & _ & _ & _ & _ & Hp & _).
  destruct (Dag_deliver_from_correct d2 2 (mkDagAddress 9 2) Hb2 Hp) as (out & d' & Hd & _ & Hnd & _).
  exists d2, out, d'. by split.
Defined.

Lemma Dag_deliver_from_local_witness :
  exists (d1 d2 : ExDag) o e1 e2,
    Dag_deliver_from d1 (mkDagAddress 5 1) 0 = Val (o, e1) /\ Dag_deliver_from d2 (mkDagAddress 5 1) 0 = Val (o, e2).
Proof.
  destruct (ex_dag_Val 8 [0%N; 1%N] (fun d => bool_decide (is_Some (present d (mkDagAddress 5 1)))))
    as (d1 & Hd1 & Hp1%bool_decide_eq_true & Hb1 & (Hu1 & _) & _ & Hi1); [vm_compute; reflexivity|].
  destruct (ex_dag_Val 9 [0%N; 1%N; 2%N] (fun d => bool_decide (is_Some (present d (mkDagAddress 5 1)))))
    as (d2 & Hd2 & Hp2%bool_decide_eq_true & Hb2 & (Hu2 & _) & _ & Hi2); [vm_compute; reflexivity|].
  pose proof (ex_dag_consistent _ _ _ _ _ _ Hd1 Hd2) as Hc. clear Hd1 Hd2.
  destruct (deliver_from_history d1 (mkDagAddress 5 1)) as (o1 & e1 & He1 & _); try apply Hi1; [done|].
  destruct (deliver_from_history d2 (mkDagAddress 5 1)) as (o2 & e2 & He2 & _); try apply Hi2; [done|].
  assert (agree_on (dag_path d1 (mkDagAddress 5 1)) d1 d2) as Hag.
  { intros b Hb. destruct (consistent_agree d1 d2 [mkDagAddress 5 1]) with (b := b) as (v1 & v2 & Hv);
      try apply Hi1; try apply Hi2; try done.
    - by intros l ->%list_elem_of_singleton.
    - exists (mkDagAddress 5 1). split; [set_solver|done].
    - by exists v1, v2. }
  destruct (Dag_deliver_from_local d1 d2 2 2 (mkDagAddress 5 1) o1 e1 o2 e2 Hb1 Hb2 Hag He1 He2) as [Ho _].
  exists d1, d2, o1, e1, e2. split; [exact He1|]. by rewrite Ho.
Defined.

Lemma Dag_reaches_correct_witness :
  exists (d : ExDag) v, present d (mkDagAddress 8 1) = Some v
    /\ (VertexWithMeta_reaches v 0 = true <-> dag_path d (mkDagAddress 8 1) (mkDagAddress 5 0)).
Proof.
  destruct (ex_dag_Val 8 [0%N; 1%N] (fun d => bool_decide (is_Some (present d (mkDagAddress 8 1)))))
    as (d & _ & Hp%bool_decide_eq_true & Hb & _); [vm_compute; reflexivity|]. destruct Hp as [v Hv].
  exists d, v. split; [exact Hv|].
  destruct (Dag_reaches_correct d 2 (mkDagAddress 8 1) v 0 Hb Hv) as [_ H8]. exact (H8 eq_refl).
Defined.

Lemma Dag_has_path_correct_witness :
  exists (d : ExDag) r d', Dag_has_path d (mkDagAddress 8 1) (mkDagAddress 5 0) = Val (r, d')
    /\ (r = true <-> dag_path d (mkDagAddress 8 1) (mkDagAddress 5 0)).
Proof.
  destruct (ex_dag_Val 8 [0%N; 1%N] (fun d =>
    bool_decide (is_Some (present d (mkDagAddress 8 1))) && bool_decide (is_Some (present d (mkDagAddress 5 0)))))
    as (d & _ & [Ha%bool_decide_eq_true Hp%bool_decide_eq_true]%andb_true_iff & Hb & (_ & Hf & _) & _);
    [vm_compute; reflexivity|].
  destruct (Dag_has_path_correct d 2 (mkDagAddress 8 1) (mkDagAddress 5 0) Hb Ha Hp) as (r & d' & Hr & Hpath & _).
  - simpl. lia.
  - left. rewrite Hf. simpl. lia.
  - by exists d, r, d'.
Defined.

(** Without that condition the answer of [has_path] can be wrong: after a
    search from round 3, a search from round 4 to round 1 does not look behind
    the vertices explored before and misses a path.  (The replica's calls meet
    the condition: [wi_explored], kept by [nx_replica_invariant].) *)
Theorem Dag_has_path_stale :
  exists (d : ExDag) a b d', dag_built 2 d /\ dag_path d a b /\ Dag_has_path d a b = Val (false, d').
Proof.
  set (a := mkDagAddress 4 0). set (b := mkDagAddress 1 0). set (a' := mkDagAddress 3 0). set (b' := mkDagAddress 1 2).
  destruct (ex_dag_Val 4 [0%N; 1%N; 2%N] (fun d =>
    bool_decide (is_Some (present d a)) && bool_decide (is_Some (present d b))
    && holds (Dag_has_path d a b) (fun r => r.1)
    && holds (Dag_has_path d a' b') (fun r =>
         (dag_explored_from d <? 1)%N
         && holds (Dag_has_path r.2 a b) (fun r => negb r.1))))
    as (d & _ & Ht & Hb & (_ & Hf & _) & _ & Hi); [vm_compute; reflexivity|].
  apply andb_true_iff in Ht as [Ht Hstale]. apply andb_true_iff in Ht as [Ht Hpath].
  apply andb_true_iff in Ht as [Hpa%bool_decide_eq_true Hpb%bool_decide_eq_true].
  apply holds_Val in Hpath as ([r d1] & Hr & Htrue). simpl in Htrue. subst r.
  apply holds_Val in Hstale as ([r' d2] & Hr' & Hst). apply andb_true_iff in Hst as [Hlt%N.ltb_lt Hst].
  apply holds_Val in Hst as ([[] d3] & Hst & Hfalse); [done|].
  destruct Hi as [Hi Ho _ Hbd _ _].
  destruct (Dag_has_path_spec d a b) as (r0 & d0 & Hr0 & Hiff & _); try done; [left; rewrite Hf; simpl; lia|].
  rewrite Hr in Hr0. injection Hr0 as <- <-.
  assert (dag_path d a b) as Hp by by apply Hiff.
  assert (dag_built 2 d2) as Hb2 by (eapply built_path; [exact Hb| |exact Hr']; left; exact Hlt).
  assert (same_graph d d2) as Hg.
  { destruct (Dag_has_path_spec d a' b') as (x & y & Hxy & _ & Hg & _); try done.
    - unfold Dag_has_path in Hr'. apply outcome_bind_inv in Hr' as (k & Hk & Hr').
      apply assert_inv in Hr' as [-> _]. by apply knows_true in Hk as [_ ?]; [|apply Hi].
    - unfold Dag_has_path in Hr'. apply outcome_bind_inv in Hr' as (k & _ & Hr').
      apply assert_inv in Hr' as [_ Hr']. apply outcome_bind_inv in Hr' as (k2 & Hk2 & Hr').
      apply assert_inv in Hr' as [-> _]. by apply knows_true in Hk2 as [_ ?]; [|apply Hi].
    - left. exact Hlt.
    - rewrite Hr' in Hxy. by injection Hxy as <- <-. }
  exists d2, a, b, d3. split; [exact Hb2|]. split; [|exact Hst]. by apply (same_graph_path _ _ _ _ Hg).
Qed.

Lemma Dag_insert_correct_witness :
  exists (d : ExDag), (exists d', Dag_insert d (ex_vertex 1 2) = Val d') /\ Dag_insert d (ex_vertex 8 0) = Panic.
Proof.
  destruct (ex_dag_Val 8 [0%N; 1%N] (fun d =>
    bool_decide (is_Some (present d (mkDagAddress 8 0))) && bool_decide (present d (mkDagAddress 1 2) = None)
    && bool_decide (dag_max_round d = 8%N)))
    as (d & _ & Ht & _ & _ & Hn & Hi); [vm_compute; reflexivity|].
  apply andb_true_iff in Ht as [Ht Hm%bool_decide_eq_true].
  apply andb_true_iff in Ht as [Hp%bool_decide_eq_true Hnone%bool_decide_eq_true].
  destruct Hi as [Hi Ho _ _ _ _]. exists d. split.
  - destruct (proj1 (Dag_insert_correct d (ex_vertex 1 2) Hi)) as (d' & t & Hd & _); [|by exists d'].
    split; [exact Hnone|]. split; [by rewrite Ho, Hm|]. split; [by rewrite Hn|].
    intros c Hc. vm_compute in Hc. discriminate Hc.
  - apply (proj2 (Dag_insert_correct d (ex_vertex 8 0) Hi)). left. exact Hp.
Defined.

Lemma Dag_prune_correct_witness :
  exists (d d' : ExDag) u, Dag_prune d 5 = Val (1%N, 5%N, u, d') /\ present d' (mkDagAddress 4 1) = None
    /\ is_Some (present d' (mkDagAddress 5 1)).
Proof.
  destruct (ex_dag_Val 8 [0%N; 1%N] (fun d =>
    bool_decide (dag_offset d = 1%N) && bool_decide (dag_max_round d = 8%N)
    && bool_decide (is_Some (present d (mkDagAddress 5 1)))))
    as (d & _ & Ht & Hb & _); [vm_compute; reflexivity|].
  apply andb_true_iff in Ht as [Ht Hp%bool_decide_eq_true].
  apply andb_true_iff in Ht as [Ho%bool_decide_eq_true Hm%bool_decide_eq_true].
  destruct (Dag_prune_correct d 2 5 Hb) as (u & d' & Hd & _ & Hpres & _); [rewrite Ho, Hm; lia|].
  rewrite Ho in Hd. exists d, d', u. split; [exact Hd|]. split; rewrite Hpres; [done|exact Hp].
Defined.
