(* ===== verification/BaseTheorems.v ===== *)
(** * The trusted component of NxBFT, vertices and containers: theorems

    The common coin of [EnclaveAutomata], its recovery, the serialisation of
    vertices and the containers both replicas use. *)

From Stdlib Require Import ZArith Lia.
From stdpp Require Import base list gmap sets numbers option strings.
From S2P Require Import Prelude Ids Heaps Requests NxBase NxDag NxEnclave NxEnclaveFacts NxExamples.

(** ** The coin *)

Section coin.
  Context {P : Profile} {B : Type} `{BitSetLaws B} `{Digests} `{RandLaws}.
  Context {M : Type -> Type} `{RangeInclusiveMapLaws M}.
  Context {Enc : Type} `{EnclaveTrusted Enc}.
  Implicit Types (a b : EnclaveAutomata M Enc) (proof : list (SignedVertex B (et_Signature Enc))).

(** C27: the common coin.  Two trusted components in any states their operations
    reach, which hold the same seed and toss for the same round, agree on the
    leader, a replica of the system, whatever proofs they were given; and
    neither tosses without valid vertices of that round by a quorum of distinct
    replicas. *)
Theorem nx_coin_agreement a proof la a' b proof' lb b' :
  ea_reachable (B := B) a -> ea_reachable (B := B) b ->
  ea_n a = ea_n b -> ea_seed a = ea_seed b -> ea_next_toss a = ea_next_toss b ->
  is_u64 (ea_next_toss a + 4) -> is_u64 (N.of_nat (length proof)) -> is_u64 (N.of_nat (length proof')) ->
  EnclaveAutomata_toss a proof = Val (Ok la, a') -> EnclaveAutomata_toss b proof' = Val (Ok lb, b') ->
  la = lb /\ (la < ea_n a)%N /\ ea_next_toss a' = ea_next_toss b'
  /\ (ea_n a / 2 + 1 <= N.of_nat (size (valid_creators a proof)))%N
  /\ (ea_n b / 2 + 1 <= N.of_nat (size (valid_creators b proof')))%N.
Proof.
  intros [k Hi]%ea_reachable_inv [j Hj]%ea_reachable_inv Hn Hs Ht Hu Hl Hl' Ha Hb.
  assert (j = k) as ->.
  { destruct (ea_inv_next a k Hi) as [Hk _]. destruct (ea_inv_next b j Hj) as [Hj' _]. lia. }
  rewrite <-(ea_inv_quorum a k Hi), <-(ea_inv_quorum b k Hj).
  apply (EnclaveAutomata_toss_spec a k) in Ha as (Hq & _ & -> & Hlt & _ & ->); [|done..].
  apply (EnclaveAutomata_toss_spec b k) in Hb as (Hq' & _ & -> & _ & _ & ->); [|done|by rewrite <-Ht|done].
  simpl. rewrite <-Hn, <-Hs, <-Ht. done.
Qed.

(** The seed.  Two trusted components that complete their handshakes with the
    same seed shares, in any order, hold the same seed, and are ready together
    with the same generator. *)
Theorem nx_seed_agreement a b shares shares' a' b' :
  ea_inv a 0 -> ea_inv b 0 -> ea_n a = ea_n b -> ea_seed a = ea_seed b ->
  ea_peers_added a = ea_peers_added b ->
  completes a shares a' -> completes b shares' b' -> shares ≡ₚ shares' ->
  ea_seed a' = ea_seed b' /\ ea_rng a' = ea_rng b'.
Proof.
  intros Ha Hb Hn Hs Hp (Hsa & Hia & Hna & Hpa)%completes_seed (Hsb & Hib & Hnb & Hpb)%completes_seed Hperm; [|done..].
  assert (ea_seed a' = ea_seed b') as Hseed by (rewrite Hsa, Hsb, Hs; by apply xor_seed_perm).
  split; [done|]. rewrite (ea_inv_rng a' 0 Hia), (ea_inv_rng b' 0 Hib), Hseed, Hna, Hnb, Hn, Hpa, Hpb, Hp.
  by rewrite (Permutation_length Hperm).
Qed.

(** Recovery.  Recovering a fresh trusted component from what a ready one
    exports gives one with the same peers, seed, generator and next toss: it
    tosses the same leaders from there on. *)
Theorem nx_recover_roundtrip a x n e b :
  ea_reachable (B := B) a -> EnclaveAutomata_export a = Val (Ok x) -> n = ea_n a ->
  EnclaveAutomata_new n e = Val b ->
  exists b', EnclaveAutomata_recover b x = Val (Ok (), b')
    /\ ea_peers b' = ea_peers a /\ ea_seed b' = ea_seed a /\ ea_rng b' = ea_rng a
    /\ ea_next_toss b' = ea_next_toss a /\ ea_n b' = ea_n a /\ ea_enclave b' = e.
Proof.
  intros [k Hi]%ea_reachable_inv Hx -> Hb.
  pose proof (EnclaveAutomata_new_spec (M := M) (ea_n a) e (proj2 (ea_inv_n a k Hi))) as Hs.
  rewrite (proj2 (N.leb_le _ _) (proj1 (ea_inv_n a k Hi))) in Hs.
  destruct Hs as (b1 & Hb1 & Hi1 & Hn1 & _ & Hr1 & _). rewrite Hb in Hb1. injection Hb1 as <-.
  unfold EnclaveAutomata_is_ready in Hr1. destruct (ea_rng b) eqn:Hrng; [done|].
  destruct (EnclaveAutomata_recover_export a k x b Hi Hx Hi1 Hrng Hn1)
    as (b2 & Hb2 & _ & Hp & Hsd & Hr & Ht & Hn2 & _ & He2).
  exists b2. split_and!; try done. rewrite He2. unfold EnclaveAutomata_new in Hb.
  apply assert_inv in Hb as [_ Hb]. by injection Hb as <-.
Qed.
End coin.

(** ** Serialisation *)

Section serde.
  Context {B Tx Sig : Type} `{BitSet B} `{Digests} `{Hashbar Tx}.
  Implicit Types (v : Vertex B Tx Sig) (m : list (string * SerValue B Tx Sig)) (s : VisitorState (B := B) (Tx := Tx) (Sig := Sig)).

(** One turn of the loop of [visit_map]. *)
Definition visit_entry (x : string * SerValue B Tx Sig) s : Result (VisitorState (B := B) (Tx := Tx) (Sig := Sig)) SerdeError :=
  visit_map_loop [x] s.

Lemma visit_map_loop_cons x m s : visit_map_loop (x :: m) s = res_bind (visit_entry x s) (visit_map_loop m).
Proof.
  unfold visit_entry. destruct x as [name value]. simpl. destruct (VertexVisitorField_of name) as [k|]; [|done].
  by destruct (match k with FRound => _ | _ => _ end).
Qed.

#[local] Ltac cases :=
  repeat (match goal with |- context [match ?x with _ => _ end] => is_var x; destruct x end; simpl; try done).

(** Two entries that both can be read can be read in the other order. *)
Lemma visit_entry_swap x y s s1 s2 :
  visit_entry x s = Ok s1 -> visit_entry y s1 = Ok s2 ->
  exists s1', visit_entry y s = Ok s1' /\ visit_entry x s1' = Ok s2.
Proof.
  unfold visit_entry. destruct x as [nx vx], y as [ny vy]. simpl.
  destruct (VertexVisitorField_of nx) as [kx|], (VertexVisitorField_of ny) as [ky|]; try done.
  destruct s as [r c e t sg ct]. unfold visit_field, as_u64_value, as_set_value, as_txs_value, as_sig_value.
  destruct kx, ky; simpl; cases; intros [= <-]; simpl; cases; intros [= <-]; eexists; (split; [reflexivity|]); reflexivity.
Qed.

Lemma visit_map_loop_perm m1 m2 s s' : m1 ≡ₚ m2 -> visit_map_loop m1 s = Ok s' -> visit_map_loop m2 s = Ok s'.
Proof.
  intros Hp. revert s. induction Hp as [|x m1 m2 _ IH|x y m|m1 m2 m3 _ IH1 _ IH2]; intros s.
  - done.
  - rewrite !visit_map_loop_cons. destruct (visit_entry x s) as [s1|]; [|done]. apply IH.
  - rewrite !visit_map_loop_cons. destruct (visit_entry y s) as [s1|] eqn:Hy; [|done]. cbn [res_bind].
    rewrite !visit_map_loop_cons. destruct (visit_entry x s1) as [s2|] eqn:Hx; [|done]. cbn [res_bind].
    destruct (visit_entry_swap _ _ _ _ _ Hy Hx) as (s1' & -> & Hy'). cbn [res_bind]. by rewrite visit_map_loop_cons, Hy'.
  - intros H1'. by apply IH2, IH1.
Qed.

(** Vertices survive serialisation.  A vertex whose hash of the transactions
    is the one of its transactions, which is every vertex the replica makes or
    accepts, is read back as it was, from the sequence of its fields and from
    its fields with their names in any order. *)
Theorem Vertex_serde_roundtrip v m :
  v = Vertex_new_with_signature (Vertex_round v) (Vertex_creator v) (Vertex_edges v) (v_transactions v)
        (Vertex_signature v) (Vertex_counter v) ->
  m ≡ₚ Vertex_serialize v ->
  VertexVisitor_visit_seq (snd <$> Vertex_serialize v) = Ok v /\ VertexVisitor_visit_map m = Ok v.
Proof.
  intros Hv Hm. split; [rewrite Hv at 2; reflexivity|]. unfold VertexVisitor_visit_map.
  erewrite (visit_map_loop_perm (Vertex_serialize v) m) by (by symmetry || reflexivity).
  simpl. by rewrite Hv at 7.
Qed.
End serde.

(** ** Containers *)

(** A heap buffer is a priority queue without duplicates.  It knows exactly
    the keys it holds; inserting a value with a new key adds it, popping returns
    a value with a least key and removes just that one, searching finds the value
    of a known key; the invariant, keys in order and recorded, is kept. *)
Theorem HeapBuffer_correct {P : Profile} {V K : Type} `{OrdLaws K, Countable K, Keyable V K}
    (b : HeapBuffer V K) (v : V) (k : K) :
  HeapBuffer_inv b ->
  (HeapBuffer_knows b v = true <-> key v ∈ key <$> hb_buffer b)
  /\ (HeapBuffer_knows b v = false ->
      exists b', HeapBuffer_insert b v = Val b' /\ HeapBuffer_inv b' /\ hb_buffer b' ≡ₚ v :: hb_buffer b)
  /\ (HeapBuffer_knows_key b k = true <-> exists w, HeapBuffer_find_by_key b k = Some w /\ key w = k)
  /\ match HeapBuffer_pop b with
     | (None, b') => hb_buffer b = []
     | (Some w, b') => HeapBuffer_inv b' /\ hb_buffer b ≡ₚ w :: hb_buffer b'
                       /\ (forall x, x ∈ hb_buffer b -> ord_leb (key w) (key x) = true)
                       /\ HeapBuffer_knows b' w = false
     end.
Proof.
  intros Hb. split; [by apply HeapBuffer_knows_spec|]. split; [by apply HeapBuffer_insert_spec|].
  split; [by apply HeapBuffer_find_by_key_spec|]. destruct (HeapBuffer_pop b) as [[w|] b'] eqn:Hp.
  - apply HeapBuffer_pop_spec in Hp as (? & ? & ? & ?); [|done]. done.
  - apply HeapBuffer_pop_None. by rewrite Hp.
Qed.

(** Pending requests are a queue in blocks.  [insert] appends a request,
    [pop_front] takes a front of at most the maximum size, non-empty when there
    are requests, [filter_front] drops requests that are not to be retained and
    only those, so that the front block holds requests to retain, and leaves what
    follows it; [full_block_or_at_least] says no only when fewer requests than
    the minimum are queued. *)
Theorem Pending_queue_correct {P : Profile} {Tx : Type} (p : PendingClientRequests Tx) (tx : Tx) (retain : Tx -> bool) k :
  Pending_inv p -> (0 < k)%N ->
  (exists p', Pending_insert p tx = Val p' /\ Pending_inv p' /\ Pending_queue p' = Pending_queue p ++ [tx])
  /\ (let '(front, p') := Pending_pop_front p in
      Pending_inv p' /\ Pending_queue p = front ++ Pending_queue p'
      /\ (N.of_nat (length front) <= N.max 1 (maximum_block_size p))%N
      /\ (front = [] <-> Pending_queue p = []))
  /\ (let p' := Pending_filter_front retain p in
      Pending_inv p' /\ Forall (fun tx => retain tx = true) (Pending_copy_front p')
      /\ exists dropped front rest, Pending_queue p = dropped ++ front ++ rest
           /\ Forall (fun tx => retain tx = false) dropped
           /\ Pending_queue p' = List.filter retain front ++ rest)
  /\ (Pending_full_block_or_at_least p k = Val false -> (N.of_nat (length (Pending_queue p)) < k)%N).
Proof.
  intros Hp Hk. split; [|split; [|split]].
  - destruct (Pending_insert_spec p tx Hp) as (p' & ? & ? & ? & _). eauto.
  - pose proof (Pending_pop_front_spec p Hp) as Hs. destruct (Pending_pop_front p) as [front p'].
    by destruct Hs as (? & ? & _ & ? & ?).
  - destruct (Pending_filter_front_spec retain p Hp) as (? & ? & (dropped & front & rest & ? & ? & ? & _) & _).
    split; [done|]. split; [done|]. by exists dropped, front, rest.
  - by apply Pending_full_block_false.
Qed.

(** ** Witnesses *)

Lemma Vertex_serde_roundtrip_witness :
  exists v : ExVertex, VertexVisitor_visit_map (rev (Vertex_serialize v)) = Ok v.
Proof.
  set (v := Vertex_new_with_signature 3 1 (IdSet_with_capacity 3) [mkTx 1 1] (mkEnclaveSignature 101 2) 2 : ExVertex).
  exists v. apply (Vertex_serde_roundtrip v (rev (Vertex_serialize v))); [reflexivity|].
  symmetry. apply Permutation_rev.
Defined.

(** Numbers as their own keys. *)
#[local] Instance N_Keyable : Keyable N N := id.

Lemma HeapBuffer_correct_witness :
  exists b' : HeapBuffer N N, HeapBuffer_insert HeapBuffer_default 5%N = Val b' /\ HeapBuffer_inv b'.
Proof.
  destruct (HeapBuffer_correct (HeapBuffer_default : HeapBuffer N N) 5%N 5%N HeapBuffer_default_inv) as (_ & Hi & _).
  destruct (Hi eq_refl) as (b' & Hb & Hinv & _). exists b'. split; [exact Hb|exact Hinv].
Defined.

Lemma Pending_queue_correct_witness :
  exists p' : PendingClientRequests N, Pending_insert (mkPending [[1%N; 2%N]; [3%N]] 2) 4%N = Val p'
    /\ Pending_queue p' = [1%N; 2%N; 3%N; 4%N].
Proof.
  destruct (Pending_queue_correct (mkPending [[1%N; 2%N]; [3%N]] 2) 4%N (fun x => (2 <? x)%N) 1) as [Hi _];
    [split; [vm_compute; reflexivity|repeat constructor; simpl; lia]|lia|].
  destruct Hi as (p' & Hp & _ & Hq). exists p'. split; [exact Hp|exact Hq].
Defined.

Abbreviation ExAutomata := (EnclaveAutomata Ranges SimpleEnclaveTrusted).

(** Calls of a handshake between three replicas. *)
Inductive ExCall := CInit | CHello (i : N) | CComplete (i : N).

Definition ex_call (a : ExAutomata) (c : ExCall) : Outcome ExAutomata :=
  match c with
  | CInit => r ← EnclaveAutomata_init (Enc := SimpleEnclaveTrusted) (ex_entropy 0) a; Val r.2
  | CHello i => r ← EnclaveAutomata_init_peer_handshake (Enc := SimpleEnclaveTrusted) a i (100 + i)%N; Val r.2
  | CComplete i => r ← EnclaveAutomata_complete_peer_handshake (Enc := SimpleEnclaveTrusted) a i (replicate 32 i); Val r.2
  end.

(** A new component after the handshakes of [order] were completed. *)
Definition ex_automata (id : N) (order : list N) : Outcome ExAutomata :=
  a ← EnclaveAutomata_new 3 (mkSimpleTrusted id);
  for_each ([CInit; CHello 0; CHello 1; CHello 2] ++ (CComplete <$> order)) a ex_call.

Lemma ex_automata_reachable id order a : ex_automata id order = Val a -> ea_reachable (B := N) a.
Proof.
  intros (a0 & H0' & Hl)%outcome_bind_inv.
  assert (ea_reachable (B := N) a0) as Hr by (eapply reach_new; [|exact H0']; apply ex_n_u64). clear H0'.
  revert a0 Hr Hl. generalize ([CInit; CHello 0; CHello 1; CHello 2] ++ (CComplete <$> order)). intros l.
  induction l as [|c l IH]; intros a0 Hr Hl; [by injection Hl as ->|].
  cbn [for_each] in Hl. apply outcome_bind_inv in Hl as (a1 & Hc & Hl). eapply IH; [|exact Hl].
  eapply reach_step; [exact Hr|]. destruct c as [|i|i]; apply outcome_bind_inv in Hc as ([r a2] & Hc & [= <-]).
  - by eapply step_init.
  - by eapply step_init_peer.
  - by eapply step_complete.
Qed.

(** Vertices of round 4 by the replicas of [order]. *)
Definition ex_proof (order : list N) : list (SignedVertex N (et_Signature SimpleEnclaveTrusted)) :=
  (fun i => mkSigned (SignableVertex_new (DagAddress_new 4 i) (IdSet_with_capacity 3) ([] : list ExTx))
              (mkEnclaveSignature (100 + i)%N 4) 4) <$> order.

Lemma nx_coin_agreement_witness :
  exists (a a' b b' : ExAutomata) l,
    EnclaveAutomata_toss a (ex_proof [0%N; 1%N]) = Val (Ok l, a') /\ EnclaveAutomata_toss b (ex_proof [2%N; 1%N]) = Val (Ok l, b').
Proof.
  destruct (holds_Val (x ← ex_automata 7 [0%N; 1%N; 2%N]; y ← ex_automata 8 [2%N; 0%N; 1%N]; Val (x, y)) (fun xy : ExAutomata * ExAutomata =>
    match EnclaveAutomata_toss (B := N) (Enc := SimpleEnclaveTrusted) xy.1 (ex_proof [0%N; 1%N]),
          EnclaveAutomata_toss (B := N) (Enc := SimpleEnclaveTrusted) xy.2 (ex_proof [2%N; 1%N]) with
    | Val (Ok _, _), Val (Ok _, _) => true | _, _ => false end
    && (ea_n xy.1 =? ea_n xy.2)%N && bool_decide (ea_seed xy.1 = ea_seed xy.2) && (ea_next_toss xy.1 =? ea_next_toss xy.2)%N
    && (ea_next_toss xy.1 + 4 <? 2 ^ 64)%N)) as ([a b] & Hab & Ht); [vm_compute; reflexivity|].
  apply outcome_bind_inv in Hab as (a0 & Ha & Hab). apply outcome_bind_inv in Hab as (b0 & Hb & [= -> ->]).
  cbn [fst snd] in Ht. apply andb_true_iff in Ht as [Ht Hu%N.ltb_lt]. apply andb_true_iff in Ht as [Ht Hn%N.eqb_eq].
  apply andb_true_iff in Ht as [Ht Hs%bool_decide_eq_true]. apply andb_true_iff in Ht as [Ht Hn'%N.eqb_eq].
  destruct (EnclaveAutomata_toss a (ex_proof [0%N; 1%N])) as [[[la|] a']| |] eqn:Hta; try discriminate.
  destruct (EnclaveAutomata_toss b (ex_proof [2%N; 1%N])) as [[[lb|] b']| |] eqn:Htb; try discriminate.
  destruct (nx_coin_agreement a (ex_proof [0%N; 1%N]) la a' b (ex_proof [2%N; 1%N]) lb b'
    (ex_automata_reachable _ _ _ Ha) (ex_automata_reachable _ _ _ Hb) Hn' Hs Hn Hu) as [<- _];
    [vm_compute; reflexivity|vm_compute; reflexivity|exact Hta|exact Htb|].
  exists a, a', b, b', la. split; [exact Hta|exact Htb].
Defined.

Lemma nx_recover_roundtrip_witness :
  exists (a b b' : ExAutomata) x, EnclaveAutomata_export a = Val (Ok x) /\ EnclaveAutomata_recover b x = Val (Ok (), b')
    /\ ea_rng b' = ea_rng a.
Proof.
  destruct (holds_Val (ex_automata 7 [0%N; 1%N; 2%N]) (fun a => match EnclaveAutomata_export a with
    | Val (Ok _) => (ea_n a =? 3)%N | _ => false end)) as (a & Ha & Ht); [vm_compute; reflexivity|].
  destruct (EnclaveAutomata_export a) as [[x|]| |] eqn:Hx; try discriminate. apply N.eqb_eq in Ht.
  destruct (EnclaveAutomata_new (M := Ranges) 3 (mkSimpleTrusted 9)) as [b| |] eqn:Hb; [|discriminate..].
  destruct (nx_recover_roundtrip a x 3 (mkSimpleTrusted 9) b (ex_automata_reachable _ _ _ Ha) Hx (eq_sym Ht) Hb)
    as (b' & Hb' & _ & _ & Hr & _).
  exists a, b, b', x. split; [exact Hx|]. split; [exact Hb'|exact Hr].
Defined.

(** Completing the handshakes of [order], each attested. *)
Fixpoint ex_complete_all (order : list N) (a : ExAutomata) : option ExAutomata :=
  match order with
  | [] => Some a
  | i :: order =>
      match ea_peers a !! N.to_nat i,
            EnclaveAutomata_complete_peer_handshake (Enc := SimpleEnclaveTrusted) a i (replicate 32 i) with
      | Some (Peer_Attested _), Val (HR_Ok, a1) => if (i <? ea_n a)%N then ex_complete_all order a1 else None
      | _, _ => None
      end
  end.

Lemma ex_complete_all_completes order a a' :
  ex_complete_all order a = Some a' -> completes a (replicate 32 <$> order) a'.
Proof.
  revert a. induction order as [|i order IH]; intros a; [intros [= ->]; apply completes_nil|]. cbn [ex_complete_all].
  destruct (ea_peers a !! N.to_nat i) as [[|att|]|] eqn:Hp; try done.
  destruct (EnclaveAutomata_complete_peer_handshake a i (replicate 32 i)) as [[[] a1]| |] eqn:Hc; try done.
  destruct (N.ltb_spec i (ea_n a)) as [Hi|]; [|done]. intros Ha'%IH.
  rewrite fmap_cons. by eapply (completes_cons a i (replicate 32 i) att).
Qed.

Lemma nx_seed_agreement_witness :
  exists a a' b' : ExAutomata, completes a [replicate 32 0%N; replicate 32 1%N] a'
    /\ completes a [replicate 32 1%N; replicate 32 0%N] b' /\ ea_seed a' = ea_seed b'.
Proof.
  destruct (holds_Val (ex_automata 7 []) (fun a => match ex_complete_all [0%N; 1%N] a, ex_complete_all [1%N; 0%N] a with
    | Some _, Some _ => (ea_next_toss a =? 4)%N | _, _ => false end)) as (a & Ha & Ht); [vm_compute; reflexivity|].
  destruct (ex_complete_all [0%N; 1%N] a) as [a'|] eqn:Ha'; [|discriminate].
  destruct (ex_complete_all [1%N; 0%N] a) as [b'|] eqn:Hb'; [|discriminate]. apply N.eqb_eq in Ht.
  destruct (ea_reachable_inv a (ex_automata_reachable _ _ _ Ha)) as [k Hi].
  assert (k = 0) as -> by (destruct (ea_inv_next a k Hi) as [Hk _]; lia).
  apply ex_complete_all_completes in Ha', Hb'.
  exists a, a', b'. split; [exact Ha'|]. split; [exact Hb'|].
  apply (nx_seed_agreement a a [replicate 32 0%N; replicate 32 1%N] [replicate 32 1%N; replicate 32 0%N] a' b' Hi Hi);
    [reflexivity|reflexivity|reflexivity|exact Ha'|exact Hb'|apply perm_swap].
Defined.
