(* ===== verification/NxRunTheorems.v ===== *)
(** * NxBFT: theorems about runs of a replica

    The properties of the replica over whole runs, each with a witness on the
    example system of [NxExamples]. *)

From Stdlib Require Import ZArith Lia.
From stdpp Require Import base list gmap sets numbers option relations.
From S2P Require Import Prelude Ids Heaps Requests NxBase NxDag NxDagFacts NxDagGraph NxDagSearch NxDagPath.
From S2P Require Import NxEnclave NxMessages NxReplica NxEnclaveFacts NxCommit NxDagBuilt NxDecide.
From S2P Require Import NxOrder NxReplicaFacts NxInvariant NxLog NxExamples.

Section runs.
  Context {P : Profile} {B Tx Enc : Type}.
  Context `{BitSetLaws B} `{Digests} `{CommonCoinLaws B Enc} `{Transaction Tx} `{Hashbar Tx}.
  Context `{EqDecision B, EqDecision Tx}.
  Implicit Types (s : NxBft B Tx Enc) (os : list (Output B Tx Enc)).

(** C1: total order.  Take two replicas of the same system, each after a run from its
    creation, whose enclaves hold the same coin and whose DAGs contain no two
    different vertices at one address.  The runs are trusted: the replicas do not
    recover themselves, and the vertices in the recovery commits of their peers, which
    the code adopts without checking them, are valid; all other messages are
    arbitrary.  Overflow checks are on.  Then the transactions one of them has
    delivered are a prefix of those the other has delivered. *)
Theorem nx_total_order clock1 ent1 t1 me1 clock2 ent2 t2 me2 n timeout1 mn1 mx1 timeout2 mn2 mx2
    s1 s2 os1 s1' os2 s2' :
  overflow_checks = true -> is_u64 n ->
  NxBft_new clock1 ent1 t1 me1 n timeout1 mn1 mx1 = Val s1 ->
  NxBft_new clock2 ent2 t2 me2 n timeout2 mn2 mx2 = Val s2 ->
  nx_trusted_run clock1 s1 os1 s1' -> nx_trusted_run clock2 s2 os2 s2' ->
  (forall w, coin_of (nx_enclave s1') w = coin_of (nx_enclave s2') w) ->
  consistent (nx_dag s1') (nx_dag s2') ->
  run_delivery os1 `prefix_of` run_delivery os2 \/ run_delivery os2 `prefix_of` run_delivery os1.
Proof.
  intros Hchecks Hn Hs1 Hs2 Hr1 Hr2 Hcoin Hcons.
  destruct (N.le_ge_cases (nx_decided_wave s1') (nx_decided_wave s2')).
  - left. by eapply (trusted_runs_prefix clock1 ent1 t1 me1 clock2 ent2 t2 me2).
  - right. by eapply (trusted_runs_prefix clock2 ent2 t2 me2 clock1 ent1 t1 me1); [..|apply consistent_sym|].
Qed.

(** Integrity.  In every run of a replica from its creation, trusted or not,
    the transactions of one client are delivered in strictly increasing order of
    their request numbers; in particular no request is delivered twice. *)
Theorem nx_exactly_once clock ent t0 me n timeout mn mx s os s' i j x y :
  NxBft_new clock ent t0 me n timeout mn mx = Val s -> nx_run clock s os s' ->
  run_delivery os !! i = Some x -> run_delivery os !! j = Some y -> i < j ->
  client_id x = client_id y -> (request_id x < request_id y)%N.
Proof.
  intros Hs Hr. apply NxBft_new_output in Hs as [Ho Hlast].
  destruct (nx_run_dedup clock s os s' Ho Hr) as (_ & _ & _ & _ & txs & _ & ->). rewrite Hlast.
  apply increasing_lookup with (last := ∅). apply dedup_increasing.
Qed.

(** C4: refinement of the log.  After a trusted run of a replica from its creation, one
    without a recovery of its own in which the vertices in the peers' recovery commits
    are valid, and with overflow checks on, what the replica has delivered is the
    deduplication of the transactions of the histories of the leaders committed by
    one walk from its last decided wave to the first, oldest leader first.  All other
    messages, their order and the timing are arbitrary. *)
Theorem nx_delivers_log clock ent t0 me n timeout mn mx s os s' :
  overflow_checks = true -> is_u64 n ->
  NxBft_new clock ent t0 me n timeout mn mx = Val s -> nx_trusted_run clock s os s' ->
  exists ls o,
    leaders_upto (nx_quorum s') (coin_of (nx_enclave s')) (nx_dag s') (nx_decided_wave s') ls
    /\ ordered (nx_dag s') (rev ls) o
    /\ run_delivery os = (dedup ∅ (history_txs (nx_dag s') o)).2.
Proof.
  intros Hchecks Hn Hs Hr.
  pose proof (trusted_run_both clock Hchecks _ _ _ (NxBft_new_both clock _ _ _ _ _ _ _ _ Hn Hs) Hr) as [_ Hl].
  apply nx_trusted_run_run, nx_run_dedup in Hr as (Hout & _); [|by apply NxBft_new_output in Hs as [? _]].
  destruct (la_log _ _ _ Hl) as (o & [(ls & Hls & Hord) _] & _ & HD).
  rewrite Hout in HD. simpl in HD. rewrite app_nil_r in HD. eauto.
Qed.

(** C28: the invariant of a replica.  After a trusted run from its creation, one without
    a recovery of its own in which the vertices in the peers' recovery commits, which the
    code adopts unchecked, are valid, and with overflow checks on: the DAG is well
    formed, every vertex above round one names a quorum of parents and all of them are
    present, the reachability sets are right, what is delivered is closed under parents,
    the last decided wave lies below the current round, and the DAG's last round is the
    current one. *)
Theorem nx_replica_invariant clock ent t0 me n timeout mn mx s os s' :
  overflow_checks = true -> is_u64 n ->
  NxBft_new clock ent t0 me n timeout mn mx = Val s -> nx_trusted_run clock s os s' ->
  nx_inv_upto 0 s' /\ nx_n s' = n.
Proof.
  intros Hchecks Hn Hs Hr. destruct (NxBft_new_inv clock _ _ _ _ _ _ _ _ Hn Hs) as (Hi & _ & Hnn & _).
  split; [by eapply nx_trusted_run_inv|].
  apply nx_trusted_run_run, nx_run_dedup in Hr as (_ & Hn' & _); [congruence|].
  by apply NxBft_new_output in Hs as [? _].
Qed.

(** C9: the commit rule.  At the end of wave [w], when the enclave's toss
    succeeds: if a quorum of the vertices of the wave's last round have a path to
    the leader's vertex in its first round, the replica decides the wave, and
    delivers, oldest leader first, the undelivered histories of the leaders the
    walk back to the last decision meets; otherwise it only reports why not. *)
Theorem nx_commit_rule clock s coin w proof e :
  nx_inv_upto 0 s -> nx_round s = (4 * w)%N -> (1 <= w)%N ->
  wave_proof s = Val proof -> enc_toss (nx_enclave s) proof = Val (Ok (coin w), e) ->
  (coin w < nx_n s)%N ->
  (forall w', (nx_decided_wave s < w' < w)%N ->
     nx_pending_wave_coins s !! w' = Some (coin w') /\ (coin w' < nx_n s)%N) ->
  (decides (nx_dag s) (nx_quorum s) coin w
   /\ exists ls ws d1 out s',
      wave_ready clock s = Val ((), s')
      /\ walk (nx_dag s) coin (nx_decided_wave s) (leader_of coin w) (w - 1) ls
      /\ ls = leader_of coin <$> ws
      /\ same_graph (nx_dag s) d1 /\ (forall b, deliveredb d1 b = deliveredb (nx_dag s) b)
      /\ deliver_all d1 (rev ls ++ [leader_of coin w]) = Val (out, nx_dag s')
      /\ nx_decided_wave s' = w /\ nx_pending_wave_coins s' = ∅
      /\ let r := dedup (nx_client_last_request s) (history_txs (nx_dag s) out) in
         nx_client_last_request s' = r.1
         /\ uo_delivery (nx_output s') = uo_delivery (nx_output s) ++ r.2)
  \/ (~ decides (nx_dag s) (nx_quorum s) coin w
      /\ exists m, (m = UnknownWaveLeader \/ m = DirectCommitRuleViolated)
         /\ wave_ready clock s = Val ((), emit (SM_Consensus m) (tossed s w (coin w) e))).
Proof.
  intros Hi Hr Hw Hproof Htoss Hcw Hcoins. rewrite (wave_ready_toss clock s w proof (coin w) e) by done.
  assert (is_u64 (4 * w)) as Hu.
  { rewrite <-Hr, <-(ni_round _ _ Hi). apply (shape_max_round _ (inv_shape _ (ni_dag _ _ Hi))). }
  pose proof (ni_decided _ _ Hi) as Hdec. rewrite <-(ni_n _ _ Hi) in Hcw, Hcoins.
  destruct (commit_rule_spec clock (tossed s w (coin w) e) coin w) as [[Hd ->]|[Hd (m & -> & Hm)]];
    try apply Hi; try done; [left|right; eauto].
  split; [done|].
  destruct (decide_wave_spec clock (tossed s w (coin w) e) coin w) as
    (ls & ws & d1 & out & d2 & Hwalk & Hls & Hall & Hg1 & Hd1 & _ & _ & _ & ->); try done.
  - split; try apply Hi. intros w' Hw'. destruct (Hcoins w' Hw') as [Hc Hn]. split; [|done].
    simpl. by rewrite lookup_insert_ne by lia.
  - simpl. lia.
  - by destruct Hd as (_ & ? & _).
  - exists ls, ws, d1, out. eexists. split; [reflexivity|]. by split_and!.
Qed.

(** A wave whose coin is missing blocks every later decision: if the toss of
    a wave since the last decision failed, no later wave can be decided (the
    walk over the waves hits the missing coin and panics). *)
Theorem nx_failed_toss_blocks clock s w w0 v s' :
  (nx_decided_wave s < w0 < w)%N -> nx_pending_wave_coins s !! w0 = None ->
  decide_wave clock w v s <> Val ((), s').
Proof.
  intros Hw0 Hnone Hd. destruct (decide_wave_coins clock s w v s' Hd) with (w' := w0) as [c Hc]; [lia|lia|].
  congruence.
Qed.

(** A vertex created by a replica passes the validity check of its peers:
    its parents are the vertices of the previous round it knows, at least a
    quorum when the previous round is complete, none in round one; it is of the
    current round, by the replica, and carries the oldest pending requests. *)
Theorem nx_created_vertex_valid clock ahead s v s' :
  nx_inv_upto 0 s ->
  ((1 < nx_round s)%N -> exists c, Dag_get_round_valid_count (nx_dag s) (nx_round s - 1) = Val c
     /\ (nx_quorum s <= c)%N) ->
  create_vertex clock ahead s = Val (Some v, s') ->
  vertex_ok (nx_quorum s) v
  /\ Vertex_address v = mkDagAddress (nx_round s) (nx_me s)
  /\ (forall c, IdSet_contains (Vertex_edges v) c = true
        <-> (1 < nx_round s)%N /\ is_Some (present (nx_dag s) (mkDagAddress (nx_round s - 1) c)))
  /\ v_transactions v = Pending_copy_front (nx_pending_client_requests s)
  /\ nx_pending_client_requests s' = (Pending_pop_front (nx_pending_client_requests s)).2.
Proof.
  intros Hi Hprev Hc. destruct (create_vertex_Some clock ahead s v s' Hc) as (edges & He & Hadr & Hed & Htx & Hp).
  destruct (previous_round_edges_spec s edges Hi He) as (Hel & Hone & Hlen).
  split; [|split; [done|split; [|done]]].
  - unfold vertex_ok, Vertex_num_edges, SignableVertex_num_edges, Vertex_round, SignedVertex_round.
    change (SignedVertex_address (v_signed v)) with (Vertex_address v).
    change (sv_edges (Vertex_signable v)) with (Vertex_edges v). rewrite Hadr, Hed. simpl.
    split; intros Hr; [apply Hone; lia|]. destruct (Hprev Hr) as (c & Hcount & Hq).
    by rewrite (Hlen c Hr Hcount).
  - intros c. rewrite Hed. apply Hel.
Qed.

(** A replica restarted from a backup satisfies the invariant again, with
    the DAG, the round and the last decision of the backed-up replica. *)
Theorem nx_recovered_invariant clock s b s' t0 enc :
  nx_inv_upto 0 s -> backup_enclave s = Val (Ok b, s') ->
  nx_inv_upto 0 (recovered_state clock t0 b enc)
  /\ nx_dag (recovered_state clock t0 b enc) = nx_dag s /\ nx_round (recovered_state clock t0 b enc) = nx_round s
  /\ nx_decided_wave (recovered_state clock t0 b enc) = nx_decided_wave s
  /\ nx_client_last_request (recovered_state clock t0 b enc) = nx_client_last_request s.
Proof.
  intros Hi Hb. unfold backup_enclave, enclave_call in Hb. apply st_bind_inv in Hb as (x & s1 & Hx & Hb).
  unfold zoom in Hx. apply outcome_bind_inv in Hx as ([x1 e1] & _ & [= _ <-]).
  apply bind_lift_inv in Hb as (e & _ & Hb). injection Hb as <- _. split; [|done].
  destruct Hi. split; simpl; try done. by intros m ?%not_elem_of_nil.
Qed.

(** The fuel of reflection is only a bound: a call that returns with some
    fuel returns the same with any larger fuel. *)
Theorem nx_reflection_fuel clock fuel fuel' m s r :
  fuel <= fuel' -> process_peer_message clock fuel m s = Val r -> process_peer_message clock fuel' m s = Val r.
Proof.
  intros Hle (u & s1 & Hd & Hr)%st_bind_inv. unfold process_peer_message.
  rewrite (st_bind_Val _ _ _ _ _ Hd). by eapply reflect_mono.
Qed.

(** A signed message whose counter was processed already, or that is
    buffered already, or whose signature does not verify, changes nothing. *)
Theorem nx_signed_message_dropped clock from msg s e b :
  nx_ready s = true -> IdSet_contains (nx_currently_recovering s) (SignedMessage_creator msg) = false ->
  (SignedMessage_creator msg < nx_n s)%N ->
  IdMap_index (nx_expected_counters s) (SignedMessage_creator msg) = Val e ->
  IdMap_index (nx_non_equivocation_message_buffers s) (SignedMessage_creator msg) = Val b ->
  (SignedMessage_counter msg < e)%N \/ HeapBuffer_knows b msg = true
  \/ enc_verify (nx_enclave s) (SignedMessage_creator msg) (SignedMessage_counter msg)
       (SignedMessage_signable msg) (SignedMessage_signature msg) = Val (Ok false) ->
  process_signed_message clock from msg s = Val ((), s).
Proof.
  intros Hready Hrec Hn He Hb Hcase. unfold process_signed_message.
  erewrite st_bind_Val by done. rewrite Hready. cbn [negb]. erewrite st_bind_Val by done. rewrite Hrec.
  erewrite st_bind_Val by done. unfold as_u64. rewrite (proj2 (N.leb_gt _ _)) by done.
  erewrite st_bind_Val by by apply inspect_Val.
  destruct (N.ltb_spec (SignedMessage_counter msg) e) as [|Hge]; [done|].
  erewrite st_bind_Val by by apply inspect_Val. destruct (HeapBuffer_knows b msg); [done|].
  destruct Hcase as [?|[?|Hv]]; [lia|done|]. erewrite st_bind_Val by by apply inspect_Val. done.
Qed.

(** A request for a vertex of a replica that does not exist brings the
    replica down: [Dag::knows] asserts that the creator is in range, and the
    handler does not check it. *)
Theorem nx_vertex_request_panics clock fuel s from r c :
  (from < nx_n s)%N -> from <> nx_me s -> (dag_n (nx_dag s) <= c)%N ->
  process_peer_message clock fuel (mkPeerMessage from (VertexRequest (mkDagAddress r c))) s = Panic.
Proof.
  intros Hf Hme Hc. unfold process_peer_message, dispatch. simpl.
  unfold mbind, St_bind, self. simpl. unfold as_u64. rewrite (proj2 (N.leb_gt _ _)) by done.
  unfold process_vertex_request, mbind, St_bind, self. simpl. rewrite (proj2 (N.eqb_neq _ _)) by done.
  unfold inspect. by rewrite knows_bad_creator.
Qed.

(** A correctly signed vertex of round zero, without edges, passes every
    check of [process_vertex] and brings the replica down when it is inserted. *)
Theorem nx_round_zero_panics clock s v m :
  nx_inv_upto 0 s -> Vertex_round v = 0%N -> Vertex_edges v = IdSet_with_capacity (nx_n s) ->
  (Vertex_creator v < nx_n s)%N -> nx_vertex_buffer s = CursoredHeap_default ->
  raise_round (nx_max_rounds s) (Vertex_creator v) (Vertex_round v) = Val m ->
  process_vertex clock v s = Panic.
Proof.
  intros Hi Hr He Hc Hb Hm. unfold process_vertex.
  assert (IdSet_iter (Vertex_edges v) = []) as Hiter.
  { destruct (IdSet_iter (Vertex_edges v)) as [|c l] eqn:E; [done|]. exfalso.
    assert (c ∈ IdSet_iter (Vertex_edges v)) as Hin by (rewrite E; set_solver).
    rewrite He in Hin. apply IdSet_elem_of_iter, elem_of_to_gset in Hin.
    rewrite to_gset_with_capacity in Hin. set_solver. }
  assert (Vertex_num_edges v = 0%N) as Hnum.
  { unfold Vertex_num_edges, SignableVertex_num_edges. change (sv_edges _) with (Vertex_edges v).
    by rewrite He, IdSet_len_spec, to_gset_with_capacity, size_empty. }
  pose proof (inv_shape _ (ni_dag _ _ Hi)) as Hs.
  assert (present (nx_dag s) (Vertex_address v) = None) as Hnone.
  { destruct (present (nx_dag s) (Vertex_address v)) eqn:E; [|done].
    apply present_in in E as [Hpr _]; [|done]. pose proof (shape_offset _ Hs).
    change (da_round (Vertex_address v)) with (Vertex_round v) in Hpr. lia. }
  assert (da_creator (Vertex_address v) < dag_n (nx_dag s))%N as Hcr by by rewrite (ni_n _ _ Hi).
  erewrite st_bind_Val by done. rewrite Hb. change (CursoredHeap_knows CursoredHeap_default v) with false.
  cbn iota. erewrite st_bind_Val by (apply inspect_Val, knows_present; done). rewrite Hnone.
  rewrite bool_decide_eq_false_2 by (by intros []). cbn iota. unfold as_u64. rewrite Hnum.
  rewrite (proj2 (N.eqb_neq (Vertex_round v) 1)) by lia. cbn [andb].
  erewrite st_bind_Val by done. rewrite (proj2 (N.ltb_ge 1 (Vertex_round v))) by lia. cbn [andb].
  erewrite st_bind_Val by (apply update_Val; rewrite Hm; reflexivity).
  erewrite st_bind_Val by done. erewrite st_bind_Val by done. erewrite st_bind_Val by done.
  unfold traverse_vertex_buffer. erewrite st_bind_Val by done.
  assert (forall s1, nx_dag s1 = nx_dag s -> nx_round s1 = nx_round s -> nx_vertex_buffer s1 = CursoredHeap_insert CursoredHeap_default v ->
    traverse_loop (S (length (ch_heap (nx_vertex_buffer s1)))) (CursoredHeap_cursor (nx_vertex_buffer s1)) [] s1 = Panic) as Hpanic.
  { intros s1 Hd1 Hr1 Hb1. rewrite Hb1. simpl. erewrite st_bind_Val by done. simpl.
    erewrite st_bind_Val by done. rewrite Hr, (proj2 (N.ltb_ge _ _)) by lia. rewrite Hiter. simpl.
    erewrite st_bind_Val by done. simpl. erewrite st_bind_Val by done. erewrite st_bind_Val by done. simpl.
    unfold mbind at 1, St_bind at 1, update. simpl. rewrite Hd1.
    rewrite dag_insert_out_of_range; [done|done|done|]. left. pose proof (shape_offset _ Hs).
    change (da_round (Vertex_address v)) with (Vertex_round v). lia. }
  unfold mbind, St_bind. rewrite Hpanic; [done|done|done|]. simpl. by rewrite Hb.
Qed.

(** After a restart from a backup taken while another replica was
    recovering, a commit for that recovery brings the replica down: the request
    counts as seen, but the table of commits was not restored. *)
Theorem nx_recovered_commit_panics clock t0 b enc from c :
  rc_for_attestation c ∈ bk_seen_recovery_requests b ->
  rc_for_attestation c ∉ bk_successful_recoveries b ->
  enc_verify_attestation enc (rc_for_attestation c) = Val (Ok true) ->
  process_recovery_commit clock from c (recovered_state clock t0 b enc) = Panic.
Proof.
  intros Hseen Hsucc Hver. unfold process_recovery_commit, process_recovery_request.
  set (s := recovered_state clock t0 b enc).
  assert (nx_successful_recoveries s = bk_successful_recoveries b) as Hs1 by done.
  assert (nx_seen_recovery_requests s = bk_seen_recovery_requests b) as Hs2 by done.
  assert (nx_enclave s = enc) as Hs3 by done. assert (nx_recovery_commits s = ∅) as Hs4 by done.
  clearbody s. erewrite st_bind_Val.
  2:{ erewrite st_bind_Val by done. rewrite Hs1, bool_decide_eq_false_2 by done.
      erewrite st_bind_Val by done. rewrite Hs2, bool_decide_eq_true_2 by done. reflexivity. }
  set (s1 := s.[nx_output ::= _]).
  assert (nx_successful_recoveries s1 = bk_successful_recoveries b) as H1s by done.
  assert (nx_enclave s1 = enc) as H1e by done. assert (nx_recovery_commits s1 = ∅) as H1c by done.
  clearbody s1. erewrite st_bind_Val by done. rewrite H1s, bool_decide_eq_false_2 by done.
  erewrite st_bind_Val by (apply inspect_Val; rewrite H1e; exact Hver).
  unfold mbind, St_bind, inspect. rewrite H1c, lookup_empty. done.
Qed.
End runs.

Lemma nx_total_order_witness :
  exists a b, node_run a /\ node_run b
    /\ length (run_delivery (nd_outs a)) = 1 /\ length (run_delivery (nd_outs b)) = 6
    /\ (run_delivery (nd_outs a) `prefix_of` run_delivery (nd_outs b)
        \/ run_delivery (nd_outs b) `prefix_of` run_delivery (nd_outs a)).
Proof.
  assert (holds ex_midway (ex_agree 0 1 1 6) = true) as Hh by (vm_compute; reflexivity).
  apply holds_Val in Hh as (nq & Hnq & Hag). apply ex_partial_ok in Hnq. unfold ex_agree in Hag.
  destruct (nq.1 !! 0) as [a|] eqn:Ha; [|done]. destruct (nq.1 !! 1) as [b|] eqn:Hb; [|done].
  apply andb_true_iff in Hag as [Hag Hkb%bool_decide_eq_true].
  apply andb_true_iff in Hag as [Hag Hka%bool_decide_eq_true].
  apply andb_true_iff in Hag as [Hag Hseed%bool_decide_eq_true].
  apply andb_true_iff in Hag as [Hcons Hn%bool_decide_eq_true].
  destruct (ex_node_inv _ _ _ Hnq Ha) as (Hnewa & Hra & Hia & _).
  destruct (ex_node_inv _ _ _ Hnq Hb) as (Hnewb & Hrb & _ & _).
  exists a, b. split; [exact Hra|]. split; [exact Hrb|]. split; [exact Hka|]. split; [exact Hkb|].
  eapply (nx_total_order ex_clock _ _ _ ex_clock _ _ _ 3 _ _ _ _ _ _ (nd_start a) (nd_start b));
    [reflexivity|unfold is_u64; lia|exact Hnewa|exact Hnewb|exact Hra|exact Hrb| |].
  - intros w. simpl. unfold ea_coin. by rewrite Hseed, Hn.
  - apply consistentb_spec; [apply Hia|exact Hcons].
Defined.

(** ** Witnesses *)

(** Replica [j] of the network passes [test]. *)
Definition ex_node (j : nat) (test : ExNode -> bool) (nq : ExNet * ExQueue) : bool :=
  match nq.1 !! j with Some nd => test nd | None => false end.

Lemma ex_node_Val rounds ids k j test :
  holds (ex_partial rounds ids k) (ex_node j test) = true ->
  exists nd, test nd = true
    /\ NxBft_new ex_clock (ex_entropy (N.of_nat j)) 0 (N.of_nat j) 3 1000 1 1 = Val (nd_start nd)
    /\ nx_trusted_run ex_clock (nd_start nd) (nd_outs nd) (nd_state nd) /\ nx_inv_upto 0 (nd_state nd).
Proof.
  intros (nq & Hnq & Ht)%holds_Val. apply ex_partial_ok in Hnq. unfold ex_node in Ht.
  destruct (nq.1 !! j) as [nd|] eqn:Hnd; [|done]. exists nd. split; [done|].
  destruct (ex_node_inv _ _ _ Hnq Hnd) as (Hnew & Hr & Hi & _). done.
Qed.

Lemma nx_exactly_once_witness :
  exists nd x y, node_run nd /\ run_delivery (nd_outs nd) !! 0 = Some x /\ run_delivery (nd_outs nd) !! 3 = Some y
    /\ (request_id x < request_id y)%N.
Proof.
  destruct (ex_node_Val 7 [0%N; 1%N; 2%N] 1 1 (fun nd =>
    bool_decide (run_delivery (nd_outs nd) = [mkTx 0 1; mkTx 1 5; mkTx 2 4; mkTx 0 2; mkTx 0 3; mkTx 0 4])))
    as (nd & Hd%bool_decide_eq_true & Hnew & Hr & _); [vm_compute; reflexivity|].
  exists nd, (mkTx 0 1), (mkTx 0 2). rewrite Hd. split; [exact Hr|]. split; [done|]. split; [done|].
  eapply (nx_exactly_once ex_clock _ _ _ _ _ _ _ (nd_start nd) (nd_outs nd) (nd_state nd) 0 3);
    [exact Hnew|exact (nx_trusted_run_run _ _ _ _ Hr)|by rewrite Hd|by rewrite Hd|lia|done].
Defined.

Lemma nx_delivers_log_witness :
  exists nd ls o, node_run nd /\ nx_decided_wave (nd_state nd) = 2%N
    /\ length (run_delivery (nd_outs nd)) = 6
    /\ leaders_upto (nx_quorum (nd_state nd)) (coin_of (nx_enclave (nd_state nd))) (nx_dag (nd_state nd)) 2 ls
    /\ ordered (nx_dag (nd_state nd)) (rev ls) o
    /\ run_delivery (nd_outs nd) = (dedup ∅ (history_txs (nx_dag (nd_state nd)) o)).2.
Proof.
  destruct (ex_node_Val 7 [0%N; 1%N; 2%N] 1 1 (fun nd =>
    bool_decide (length (run_delivery (nd_outs nd)) = 6) && bool_decide (nx_decided_wave (nd_state nd) = 2%N)))
    as (nd & [Hd%bool_decide_eq_true Hw%bool_decide_eq_true]%andb_true_iff & Hnew & Hr & _); [vm_compute; reflexivity|].
  destruct (nx_delivers_log ex_clock _ _ _ _ _ _ _ (nd_start nd) (nd_outs nd) (nd_state nd)
    ex_checks ex_n_u64 Hnew Hr) as (ls & o & Hls & Ho & HD).
  exists nd, ls, o. rewrite Hw in Hls. split_and!; [exact Hr|exact Hw|exact Hd|exact Hls|exact Ho|exact HD].
Defined.

Lemma nx_replica_invariant_witness :
  exists nd, node_run nd /\ nx_round (nd_state nd) = 9%N /\ nx_inv_upto 0 (nd_state nd) /\ nx_n (nd_state nd) = 3%N.
Proof.
  destruct (ex_node_Val 7 [0%N; 1%N; 2%N] 1 1 (fun nd => bool_decide (nx_round (nd_state nd) = 9%N)))
    as (nd & Hd%bool_decide_eq_true & Hnew & Hr & _); [vm_compute; reflexivity|].
  exists nd. split; [exact Hr|]. split; [exact Hd|].
  exact (nx_replica_invariant ex_clock _ _ _ _ _ _ _ (nd_start nd) (nd_outs nd) (nd_state nd)
    ex_checks ex_n_u64 Hnew Hr).
Defined.

(** Replica 0 at the end of the first wave, with the toss of the wave. *)
Definition ex_tosses (s : ExReplica) : bool :=
  match wave_proof s with
  | Val proof =>
      match enc_toss (nx_enclave s) proof with
      | Val (Ok leader, _) => (leader <? nx_n s)%N
      | _ => false
      end
  | _ => false
  end
  && bool_decide (nx_round s = 4%N) && bool_decide (nx_decided_wave s = 0%N).

Lemma nx_commit_rule_witness :
  exists (s : ExReplica) coin,
    (decides (nx_dag s) (nx_quorum s) coin 1
     /\ exists s', wave_ready ex_clock s = Val ((), s') /\ nx_decided_wave s' = 1%N)
    \/ (~ decides (nx_dag s) (nx_quorum s) coin 1 /\ exists s', wave_ready ex_clock s = Val ((), s')).
Proof.
  destruct (ex_node_Val 3 [1%N; 2%N] 300 0 (fun nd => ex_tosses (nd_state nd)))
    as (nd & Ht & _ & _ & Hi); [vm_compute; reflexivity|].
  unfold ex_tosses in Ht. apply andb_true_iff in Ht as [Ht Hdec%bool_decide_eq_true].
  apply andb_true_iff in Ht as [Ht Hr%bool_decide_eq_true].
  destruct (wave_proof (nd_state nd)) as [proof| |] eqn:Hproof; try done.
  destruct (enc_toss (nx_enclave (nd_state nd)) proof) as [[[leader|] e]| |] eqn:Htoss; try done.
  apply N.ltb_lt in Ht. exists (nd_state nd), (fun _ => leader).
  destruct (nx_commit_rule ex_clock (nd_state nd) (fun _ => leader) 1 proof e Hi Hr ltac:(lia) Hproof Htoss Ht)
    as [[Hd (ls & ws & d1 & out & s' & Hw & _ & _ & _ & _ & _ & Hdw & _)]|[Hd (m & _ & Hw)]].
  - intros w' Hw'. lia.
  - left. split; [exact Hd|]. by exists s'.
  - right. split; [exact Hd|]. by eexists.
Defined.

Lemma nx_failed_toss_blocks_witness :
  exists s : ExReplica, nx_pending_wave_coins s !! 1%N = None
    /\ forall s', decide_wave ex_clock 3 (mkDagAddress 9 0) s <> Val ((), s').
Proof.
  destruct (ex_node_Val 3 [1%N; 2%N] 300 0 (fun nd =>
    bool_decide (nx_pending_wave_coins (nd_state nd) !! 1%N = None) && bool_decide (nx_decided_wave (nd_state nd) = 0%N)))
    as (nd & [Hn%bool_decide_eq_true Hd%bool_decide_eq_true]%andb_true_iff & _); [vm_compute; reflexivity|].
  exists (nd_state nd). split; [exact Hn|]. intros s'.
  apply (nx_failed_toss_blocks ex_clock (nd_state nd) 3 1); [rewrite Hd; lia|exact Hn].
Defined.

Definition ex_creates (s : ExReplica) : bool :=
  match create_vertex ex_clock true s, Dag_get_round_valid_count (nx_dag s) 3 with
  | Val (Some _, _), Val c => (nx_quorum s <=? c)%N
  | _, _ => false
  end && bool_decide (nx_round s = 4%N).

Lemma nx_created_vertex_valid_witness :
  exists (s : ExReplica) v s', create_vertex ex_clock true s = Val (Some v, s') /\ nx_round s = 4%N
    /\ vertex_ok (nx_quorum s) v.
Proof.
  destruct (ex_node_Val 3 [1%N; 2%N] 300 0 (fun nd => ex_creates (nd_state nd)))
    as (nd & Ht & _ & _ & Hi); [vm_compute; reflexivity|].
  unfold ex_creates in Ht. apply andb_true_iff in Ht as [Ht Hr%bool_decide_eq_true].
  destruct (create_vertex ex_clock true (nd_state nd)) as [[[v|] s']| |] eqn:Hc; try done.
  destruct (Dag_get_round_valid_count (nx_dag (nd_state nd)) 3) as [c| |] eqn:Hcount; try done.
  exists (nd_state nd), v, s'. split; [exact Hc|]. split; [exact Hr|].
  apply (nx_created_vertex_valid ex_clock true (nd_state nd) v s' Hi); [|exact Hc].
  intros _. rewrite Hr. exists c. split; [exact Hcount|by apply N.leb_le].
Defined.

Lemma nx_recovered_invariant_witness :
  exists (s : ExReplica) b s', backup_enclave s = Val (Ok b, s')
    /\ nx_inv_upto 0 (recovered_state ex_clock 0 b (nx_enclave s)) /\ nx_round (recovered_state ex_clock 0 b (nx_enclave s)) = 9%N.
Proof.
  destruct (ex_node_Val 7 [0%N; 1%N; 2%N] 1 1 (fun nd =>
    match backup_enclave (nd_state nd) with Val (Ok _, _) => bool_decide (nx_round (nd_state nd) = 9%N) | _ => false end))
    as (nd & Ht & _ & _ & Hi); [vm_compute; reflexivity|].
  destruct (backup_enclave (nd_state nd)) as [[[b|] s']| |] eqn:Hb; try done. apply bool_decide_eq_true in Ht.
  exists (nd_state nd), b, s'. split; [exact Hb|].
  destruct (nx_recovered_invariant ex_clock (nd_state nd) b s' 0 (nx_enclave (nd_state nd)) Hi Hb) as (Hi' & _ & Hr & _).
  split; [exact Hi'|]. by rewrite Hr.
Defined.

(** A message whose processing is worth watching. *)
Definition ex_hello : PeerMessage N ExTx ExEnc := mkPeerMessage 1 (Hello 101%N).

Lemma nx_reflection_fuel_witness :
  exists (s : ExReplica) r, process_peer_message ex_clock 5 ex_hello s = Val r /\ process_peer_message ex_clock 9 ex_hello s = Val r.
Proof.
  destruct (ex_node_Val 7 [0%N; 1%N; 2%N] 1 1 (fun nd =>
    match process_peer_message ex_clock 5 ex_hello (nd_state nd) with Val _ => true | _ => false end))
    as (nd & Ht & _); [vm_compute; reflexivity|].
  destruct (process_peer_message ex_clock 5 ex_hello (nd_state nd)) as [r| |] eqn:Hp; try done.
  exists (nd_state nd), r. split; [exact Hp|]. apply (nx_reflection_fuel ex_clock 5 9); [lia|exact Hp].
Defined.

(** A vertex of replica 1 with a forged signature. *)
Definition ex_forged : SignedMessage N ExTx ExEnc :=
  mkSignedMessage (Vertex_new_with_signature (Sig := Signature (B := N) ExEnc) 9 1 (IdSet_with_capacity 3) []
    (mkEnclaveSignature 999 99) 99).

Lemma nx_signed_message_dropped_witness :
  exists s : ExReplica, nx_ready s = true /\ process_signed_message ex_clock 2 ex_forged s = Val ((), s).
Proof.
  destruct (ex_node_Val 7 [0%N; 1%N; 2%N] 1 0 (fun nd =>
    nx_ready (nd_state nd) && negb (IdSet_contains (nx_currently_recovering (nd_state nd)) 1)
    && (1 <? nx_n (nd_state nd))%N
    && match IdMap_index (nx_expected_counters (nd_state nd)) 1,
             IdMap_index (nx_non_equivocation_message_buffers (nd_state nd)) 1,
             enc_verify (nx_enclave (nd_state nd)) 1 99 (SignedMessage_signable ex_forged) (SignedMessage_signature ex_forged) with
       | Val _, Val _, Val (Ok false) => true
       | _, _, _ => false
       end)) as (nd & Ht & _); [vm_compute; reflexivity|].
  apply andb_true_iff in Ht as [Ht Hm]. apply andb_true_iff in Ht as [Ht Hn%N.ltb_lt].
  apply andb_true_iff in Ht as [Hready Hrec%negb_true_iff].
  destruct (IdMap_index (nx_expected_counters (nd_state nd)) 1) as [e| |] eqn:He; try done.
  destruct (IdMap_index (nx_non_equivocation_message_buffers (nd_state nd)) 1) as [b| |] eqn:Hb; try done.
  destruct (enc_verify _ 1 99 _ _) as [[[]|]| |] eqn:Hv; try done.
  exists (nd_state nd). split; [exact Hready|].
  apply (nx_signed_message_dropped ex_clock 2 ex_forged (nd_state nd) e b); try assumption.
  right. right. exact Hv.
Defined.

Lemma nx_vertex_request_panics_witness :
  exists s : ExReplica, process_peer_message ex_clock 5 (mkPeerMessage 1 (VertexRequest (mkDagAddress 1 3))) s = Panic.
Proof.
  destruct (ex_node_Val 7 [0%N; 1%N; 2%N] 1 0 (fun nd =>
    (1 <? nx_n (nd_state nd))%N && bool_decide (1%N <> nx_me (nd_state nd)) && (dag_n (nx_dag (nd_state nd)) <=? 3)%N))
    as (nd & Ht & _); [vm_compute; reflexivity|].
  apply andb_true_iff in Ht as [Ht Hd%N.leb_le]. apply andb_true_iff in Ht as [Hn%N.ltb_lt Hme%bool_decide_eq_true].
  exists (nd_state nd). by apply (nx_vertex_request_panics ex_clock 5 (nd_state nd) 1 1 3).
Defined.

(** A vertex of round zero. *)
Definition ex_round_zero : ExVertex :=
  Vertex_new_with_signature 0 1 (IdSet_with_capacity 3) [] (mkEnclaveSignature 101 0) 0.

Lemma nx_round_zero_panics_witness :
  exists s : ExReplica, nx_inv_upto 0 s /\ process_vertex ex_clock ex_round_zero s = Panic.
Proof.
  destruct (ex_node_Val 3 [] 0 0 (fun nd =>
    bool_decide (nx_n (nd_state nd) = 3%N)
    && match ch_heap (nx_vertex_buffer (nd_state nd)) with [] => true | _ => false end
    && bool_decide (ch_known (nx_vertex_buffer (nd_state nd)) = ∅)
    && match raise_round (nx_max_rounds (nd_state nd)) 1 0 with Val _ => true | _ => false end))
    as (nd & Ht & _ & _ & Hi); [vm_compute; reflexivity|].
  apply andb_true_iff in Ht as [Ht Hm]. apply andb_true_iff in Ht as [Ht Hset%bool_decide_eq_true].
  apply andb_true_iff in Ht as [Hn%bool_decide_eq_true Hh].
  destruct (raise_round (nx_max_rounds (nd_state nd)) 1 0) as [m| |] eqn:Hr; try done.
  exists (nd_state nd). split; [exact Hi|].
  apply (nx_round_zero_panics ex_clock (nd_state nd) ex_round_zero m Hi); [reflexivity| | | |exact Hr].
  - by rewrite Hn.
  - by rewrite Hn.
  - destruct (nx_vertex_buffer (nd_state nd)) as [heap keys]. simpl in *. subst keys. by destruct heap.
Defined.

Definition ex_commit : RecoveryCommit N ExTx ExEnc := mkRecoveryCommit (Enc := ExEnc) 2 (7%N : Attestation (B := N) ExEnc) [].

Lemma nx_recovered_commit_panics_witness :
  exists (b : Backup N ExTx ExEnc) (enc : ExEnc),
    process_recovery_commit ex_clock 1 ex_commit (recovered_state ex_clock 0 b enc) = Panic.
Proof.
  destruct (ex_node_Val 3 [] 0 0 (fun nd =>
    match backup_enclave (nd_state nd).[nx_seen_recovery_requests := {[ 7%N ]}] with
    | Val (Ok b, _) => bool_decide (7%N ∈ bk_seen_recovery_requests b) && bool_decide (7%N ∉ bk_successful_recoveries b)
    | _ => false
    end)) as (nd & Ht & _); [vm_compute; reflexivity|].
  destruct (backup_enclave _) as [[[b|] s']| |] eqn:Hb; try done.
  apply andb_true_iff in Ht as [Hin%bool_decide_eq_true Hout%bool_decide_eq_true].
  exists b, (nx_enclave (nd_state nd)).
  by apply (nx_recovered_commit_panics ex_clock 0 b (nx_enclave (nd_state nd)) 1 ex_commit).
Defined.
