(* ===== verification/Triple.v ===== *)
(** * Hoare triples for methods

    [triple I m Q]: from a state with [I], the method [m] does not run out of
    fuel, and where it returns [a] in state [s'] then [Q a s'] (a panic is
    allowed).  One proof with these rules shows both that the loops of a handler
    terminate and what holds after it.  The rules are collected in the hint
    database [triple]; [triple_step] applies the rule for the head of a goal. *)

From Stdlib Require Import ZArith Lia.
From stdpp Require Import base list sets option relations.
From S2P Require Import Prelude.

Definition triple {S A} (I : S -> Prop) (m : St S A) (Q : A -> S -> Prop) : Prop :=
  forall s, I s -> match m s with Val (a, s') => Q a s' | Panic => True | NoFuel => False end.

Create HintDb triple.

Section rules.
  Context {S : Type}.
  Implicit Types (I J : S -> Prop).

Lemma triple_apply {A} I (m : St S A) Q s a s' : triple I m Q -> I s -> m s = Val (a, s') -> Q a s'.
Proof. intros Hm Hs Heq. specialize (Hm s Hs). by rewrite Heq in Hm. Qed.

Lemma triple_fuel {A} I (m : St S A) Q s : triple I m Q -> I s -> m s <> NoFuel.
Proof. intros Hm Hs Heq. specialize (Hm s Hs). by rewrite Heq in Hm. Qed.

Lemma triple_weaken {A} I J (m : St S A) Q R :
  triple J m R -> (forall s, I s -> J s) -> (forall a s, R a s -> Q a s) -> triple I m Q.
Proof.
  intros Hm HI HQ s Hs. specialize (Hm s (HI s Hs)). destruct (m s) as [[a s']| |]; [|done..]. by apply HQ.
Qed.

Lemma triple_ext {A} I (m m' : St S A) Q : (forall s, m s = m' s) -> triple I m' Q -> triple I m Q.
Proof. intros Heq Hm s Hs. rewrite Heq. by apply Hm. Qed.

Lemma triple_ret {A} (a : A) I Q : (forall s, I s -> Q a s) -> triple I (mret a) Q.
Proof. intros HQ s Hs. by apply HQ. Qed.

Lemma triple_bind {A B} (m : St S A) (f : A -> St S B) I R Q :
  triple I m R -> (forall a, triple (R a) (f a) Q) -> triple I (m ≫= f) Q.
Proof.
  intros Hm Hf s Hs. specialize (Hm s Hs). unfold mbind, St_bind.
  destruct (m s) as [[a s']| |]; [|done..]. by apply Hf.
Qed.

Lemma triple_self {A} (f : S -> A) I Q : (forall s, I s -> Q (f s) s) -> triple I (self f) Q.
Proof. intros HQ s Hs. by apply HQ. Qed.

Lemma triple_modify (f : S -> S) I Q : (forall s, I s -> Q () (f s)) -> triple I (modify f) Q.
Proof. intros HQ s Hs. by apply HQ. Qed.

Lemma triple_lift {A} (o : Outcome A) I Q :
  o <> NoFuel -> (forall a s, o = Val a -> I s -> Q a s) -> triple I (lift o) Q.
Proof. intros Hf HQ s Hs. unfold lift. destruct o as [a| |]; simpl; [by apply HQ|done|done]. Qed.

Lemma triple_panic {A} I (Q : A -> S -> Prop) : triple I (lift Panic) Q.
Proof. by intros s Hs. Qed.

Lemma triple_inspect {A} (f : S -> Outcome A) I Q :
  (forall s, I s -> f s <> NoFuel) -> (forall s a, I s -> f s = Val a -> Q a s) -> triple I (inspect f) Q.
Proof.
  intros Hf HQ s Hs. unfold inspect. specialize (Hf s Hs). destruct (f s) as [a| |] eqn:Heq; simpl; [|done..].
  by apply HQ.
Qed.

Lemma triple_update (f : S -> Outcome S) I Q :
  (forall s, I s -> f s <> NoFuel) -> (forall s s', I s -> f s = Val s' -> Q () s') -> triple I (update f) Q.
Proof.
  intros Hf HQ s Hs. unfold update. specialize (Hf s Hs). destruct (f s) as [a| |] eqn:Heq; simpl; [|done..].
  by eapply HQ.
Qed.

Lemma triple_zoom {T A} (get : S -> T) put (m : St T A) I Q :
  (forall s, I s -> m (get s) <> NoFuel) ->
  (forall s a t, I s -> m (get s) = Val (a, t) -> Q a (put s t)) -> triple I (zoom get put m) Q.
Proof.
  intros Hf HQ s Hs. unfold zoom. specialize (Hf s Hs). destruct (m (get s)) as [[a t]| |] eqn:Heq; simpl; [|done..].
  by apply HQ.
Qed.

Lemma triple_for {A} (xs : list A) (body : A -> St S ()) I :
  (forall x, x ∈ xs -> triple I (body x) (fun _ => I)) -> triple I (st_for xs body) (fun _ => I).
Proof.
  induction xs as [|x xs IH]; intros Hb; simpl; [by apply triple_ret|].
  eapply triple_bind; [apply Hb; set_solver|]. intros ?. apply IH. intros y Hy. apply Hb. set_solver.
Qed.

(** Facts about the state in a precondition, as hypotheses. *)
Lemma triple_pre {A} I (m : St S A) Q : (forall s, I s -> triple (eq s) m Q) -> triple I m Q.
Proof. intros Hm s Hs. by apply (Hm s Hs s). Qed.

(** A method that only reads. *)
Lemma triple_inspect_pre {A B} (f : S -> Outcome A) (g : A -> St S B) s Q :
  f s <> NoFuel -> (forall a, f s = Val a -> triple (eq s) (g a) Q) -> triple (eq s) (inspect f ≫= g) Q.
Proof.
  intros Hf Hg. eapply (triple_bind _ _ _ (fun a s' => s' = s /\ f s = Val a)).
  - apply triple_inspect; [by intros ? <-|]. by intros ? a <- Ha.
  - intros a s' [-> Ha]. by apply Hg.
Qed.

Lemma triple_self_pre {A B} (f : S -> A) (g : A -> St S B) s Q :
  triple (eq s) (g (f s)) Q -> triple (eq s) (self f ≫= g) Q.
Proof.
  intros Hg. eapply (triple_bind _ _ _ (fun a s' => s' = s /\ a = f s)).
  - apply triple_self. by intros ? <-.
  - intros a s' [-> ->]. by apply Hg.
Qed.

Lemma triple_lift_pre {A B} (o : Outcome A) (g : A -> St S B) I Q :
  o <> NoFuel -> (forall a, o = Val a -> triple I (g a) Q) -> triple I (lift o ≫= g) Q.
Proof.
  intros Hf Hg s Hs. unfold mbind, St_bind, lift. destruct o as [a| |]; simpl; [by apply Hg|done|done].
Qed.

Lemma triple_modify_pre {B} (f : S -> S) (g : () -> St S B) s Q :
  triple (eq (f s)) (g ()) Q -> triple (eq s) (modify f ≫= g) Q.
Proof. intros Hg s' <-. unfold mbind, St_bind, modify. by apply Hg. Qed.
End rules.

(** Fuel-free outcomes. *)
Lemma rust_assert_fuel b : rust_assert b <> NoFuel.
Proof. by destruct b. Qed.
Lemma unwrap_fuel {A} (o : option A) : unwrap o <> NoFuel.
Proof. by destruct o. Qed.
Lemma outcome_bind_fuel {A B} (o : Outcome A) (f : A -> Outcome B) :
  o <> NoFuel -> (forall a, o = Val a -> f a <> NoFuel) -> (o ≫= f) <> NoFuel.
Proof. intros Ho Hf. destruct o as [a| |]; simpl; [by apply Hf|done|done]. Qed.
Lemma u64_add_fuel `{Profile} a b : u64_add a b <> NoFuel.
Proof. unfold u64_add. by repeat case_match. Qed.
Lemma u64_sub_fuel `{Profile} a b : u64_sub a b <> NoFuel.
Proof. unfold u64_sub. by repeat case_match. Qed.
Lemma u64_add_inv `{Profile} a b c : overflow_checks = true -> u64_add a b = Val c -> c = (a + b)%N.
Proof. unfold u64_add. intros ->. case_match; naive_solver. Qed.

#[export] Hint Resolve rust_assert_fuel unwrap_fuel u64_add_fuel u64_sub_fuel : triple.

(** ** Methods that relate the states before and after

    [runs R m]: [m] does not run out of fuel, and relates by [R] the state it
    starts in to the state it returns in. *)

Definition runs {S A} (R : relation S) (m : St S A) : Prop := forall s, triple (eq s) m (fun _ s' => R s s').

Lemma runs_triple {S A} (R : relation S) (m : St S A) (I : S -> Prop) :
  runs R m -> (forall s s', R s s' -> I s -> I s') -> triple I m (fun _ => I).
Proof. intros Hm HR. apply triple_pre. intros s Hs. eapply triple_weaken; [apply Hm|done|].
  intros a s' Hr. exact (HR s s' Hr Hs).
Qed.

Section runs.
  Context {S : Type} {R : relation S} `{!PreOrder R}.

Lemma runs_ret {A} (a : A) : runs R (mret a).
Proof. intros s. by apply triple_ret; intros ? <-. Qed.

Lemma runs_bind {A B} (m : St S A) (f : A -> St S B) : runs R m -> (forall a, runs R (f a)) -> runs R (m ≫= f).
Proof.
  intros Hm Hf s. eapply triple_bind; [apply Hm|]. intros a. apply triple_pre. intros s1 H1.
  eapply triple_weaken; [apply Hf|done|]. intros b s2 H2. by transitivity s1.
Qed.

Lemma runs_self {A} (f : S -> A) : runs R (self f).
Proof. intros s. apply triple_self. by intros ? <-. Qed.

Lemma runs_modify (f : S -> S) : (forall s, R s (f s)) -> runs R (modify f).
Proof. intros Hf s. apply triple_modify. by intros ? <-. Qed.

Lemma runs_lift {A} (o : Outcome A) : o <> NoFuel -> runs R (lift o).
Proof. intros Ho s. apply triple_lift; [done|]. by intros a ? _ <-. Qed.

Lemma runs_panic {A} : runs R (lift (A := A) Panic).
Proof. by apply runs_lift. Qed.

Lemma runs_inspect {A} (f : S -> Outcome A) : (forall s, f s <> NoFuel) -> runs R (inspect f).
Proof. intros Hf s. apply triple_inspect; [done|]. by intros ? a <-. Qed.

Lemma runs_update (f : S -> Outcome S) :
  (forall s, f s <> NoFuel) -> (forall s s', f s = Val s' -> R s s') -> runs R (update f).
Proof. intros Hf HR s. apply triple_update; [done|]. intros ? s' <- Hs'. by apply HR. Qed.

Lemma runs_if {A} (b : bool) (m1 m2 : St S A) : runs R m1 -> runs R m2 -> runs R (if b then m1 else m2).
Proof. by destruct b. Qed.

Lemma runs_for {A} (xs : list A) (body : A -> St S ()) : (forall x, runs R (body x)) -> runs R (st_for xs body).
Proof. intros Hb. induction xs as [|x xs IH]; simpl; [apply runs_ret|]. by apply runs_bind. Qed.
End runs.

Create HintDb runs.

(** One structural step of a [runs] goal. *)
Ltac runs_step :=
  match goal with
  | |- runs _ (match ?x with _ => _ end) => destruct x
  | |- runs _ (_ ≫= _) => apply runs_bind
  | |- runs _ (self _) => apply runs_self
  | |- runs _ (mret _) => apply runs_ret
  | |- runs _ (lift Panic) => apply runs_panic
  | |- runs _ (if _ then _ else _) => apply runs_if
  | |- runs _ (st_for _ _) => apply runs_for; intros ?
  | |- runs _ _ => solve [eauto with runs triple]
  | |- runs _ (lift _) => apply runs_lift
  | |- runs _ (inspect _) => apply runs_inspect; intros ?
  | |- runs _ (modify _) => apply runs_modify; intros ?
  | |- forall _, runs _ _ => intros ?
  | |- _ <> NoFuel => solve [eauto with triple]
  end.

Lemma st_for_app {S A} (xs ys : list A) (body : A -> St S ()) s :
  st_for (xs ++ ys) body s = (st_for xs body ;; st_for ys body) s.
Proof.
  revert s. induction xs as [|x xs IH]; intros s; [done|]. simpl. unfold mbind, St_bind in *.
  destruct (body x s) as [[u s1]| |]; [apply IH|done|done].
Qed.
