(* ===== verification/DamBase.v ===== *)
(** * Damysus: views, hashes and commitments

    Models [src/atomic-broadcast/damysus/damysus-base/src]: [view.rs] ([View], a
    [u64]), [lib.rs] ([Parent]) and the data types of [enclave.rs]
    ([BlockHash], [Commitment], [SignedCommitment], [Justification],
    [EnclaveError]).

    A hash is its list of bytes.  [precomputed_hash] of a commitment is a cache
    of [hash_value]: it starts empty and the fields it depends on never change,
    so [Commitment_hash_value] is the function it caches. *)

From Stdlib Require Import ZArith Lia.
From stdpp Require Import base list numbers option.
From S2P Require Import Prelude Ids Heaps.

(** ** [View] *)

Section view.
  Context {P : Profile}.

Definition View_default : N := 0.
Definition View_get_predecessor (v : N) : option N := if (v =? 0)%N then None else Some (v - 1)%N.
Definition View_get_successor (v : N) : Outcome N := u64_add v 1.
Definition View_increment (v : N) : Outcome N := u64_add v 1.
(** The remainder by zero panics. *)
Definition View_get_view_leader (v n : N) : Outcome N :=
  if (n =? 0)%N then Panic else Val ((v / 2) mod n)%N.
Definition View_hash (v : N) : list N := to_le_bytes v.
End view.

(** ** [BlockHash] and [CommitmentHash] *)

Definition BlockHash : Type := list N.
Definition CommitmentHash : Type := list N.
Definition BlockHash_genesis : BlockHash := replicate 32 0%N.

(** The derived [Ord] of an array: lexicographic. *)
Fixpoint BlockHash_cmp (a b : BlockHash) : comparison :=
  match a, b with
  | [], [] => Eq
  | [], _ :: _ => Lt
  | _ :: _, [] => Gt
  | x :: a, y :: b => match (x ?= y)%N with Eq => BlockHash_cmp a b | c => c end
  end.

(** ** [Parent] *)

Inductive Parent :=
| Parent_None
| Parent_Some (hash : BlockHash).

#[export] Instance Parent_eq_dec : EqDecision Parent.
Proof. solve_decision. Defined.

Definition Parent_hash (p : Parent) : list N :=
  match p with
  | Parent_None => [0%N]
  | Parent_Some value => 1%N :: value
  end.

(** [PartialEq<BlockHash> for Parent] *)
Definition Parent_eq_hash (p : Parent) (other : BlockHash) : bool :=
  match p with
  | Parent_None => false
  | Parent_Some value => bool_decide (value = other)
  end.

(** ** [Commitment] *)

Inductive CommitmentPhase := NewView | Prepare.
Inductive CommitmentType := Accumulator | Usig.

#[export] Instance CommitmentPhase_eq_dec : EqDecision CommitmentPhase.
Proof. solve_decision. Defined.
#[export] Instance CommitmentType_eq_dec : EqDecision CommitmentType.
Proof. solve_decision. Defined.
#[global] Arguments CommitmentPhase_eq_dec : simpl never.
#[global] Arguments CommitmentType_eq_dec : simpl never.

Definition CommitmentPhase_hash (p : CommitmentPhase) : list N :=
  match p with NewView => [0%N] | Prepare => [1%N] end.
Definition CommitmentType_hash (t : CommitmentType) : list N :=
  match t with Accumulator => [0%N] | Usig => [1%N] end.

Record Commitment := mkCommitment {
  cm_creator : N;
  cm_view : N;
  cm_prepared_block_view : N;
  cm_prepared_block_hash : BlockHash;
  cm_block_view : N;
  cm_block_hash : BlockHash;
  cm_phase : CommitmentPhase;
  cm_type : CommitmentType;
}.

#[export] Instance Commitment_eta : Eta Commitment := fun c => mkCommitment
  (cm_creator c) (cm_view c) (cm_prepared_block_view c) (cm_prepared_block_hash c)
  (cm_block_view c) (cm_block_hash c) (cm_phase c) (cm_type c).

#[export] Instance Commitment_eq_dec : EqDecision Commitment.
Proof. solve_decision. Defined.

(** The bytes that are hashed, and so signed. *)
Definition Commitment_bytes (c : Commitment) : list N :=
  to_le_bytes (cm_creator c) ++ View_hash (cm_view c) ++ View_hash (cm_prepared_block_view c)
  ++ CommitmentPhase_hash (cm_phase c) ++ CommitmentType_hash (cm_type c).

Definition Commitment_hash_value `{Digests} (c : Commitment) : CommitmentHash :=
  blake2b512 (Commitment_bytes c).
Definition Commitment_is_usig (c : Commitment) : bool := bool_decide (cm_type c = Usig).
Definition Commitment_is_accumulator (c : Commitment) : bool := bool_decide (cm_type c = Accumulator).

Section signed.
  Context {P : Profile} `{Digests} {Sig : Type}.

Record SignedCommitment := SignedCommitment_new {
  sc_commitment : Commitment;
  sc_signature : Sig;
}.
Implicit Types c : SignedCommitment.

Definition SC_get_creator c : N := cm_creator (sc_commitment c).
Definition SC_get_view c : N := cm_view (sc_commitment c).
Definition SC_get_view_usable_for c : Outcome N := View_get_successor (SC_get_view c).

Definition SC_get_block_view c : N :=
  if bool_decide (cm_type (sc_commitment c) = Accumulator) || bool_decide (cm_phase (sc_commitment c) = Prepare)
  then cm_block_view (sc_commitment c) else cm_prepared_block_view (sc_commitment c).
Definition SC_get_block_hash c : BlockHash :=
  if bool_decide (cm_type (sc_commitment c) = Accumulator) || bool_decide (cm_phase (sc_commitment c) = Prepare)
  then cm_block_hash (sc_commitment c) else cm_prepared_block_hash (sc_commitment c).

Definition SC_get_prepared_block_view c : N := cm_prepared_block_view (sc_commitment c).
Definition SC_get_prepared_block_hash c : BlockHash := cm_prepared_block_hash (sc_commitment c).
Definition SC_is_prepare c : bool := bool_decide (cm_phase (sc_commitment c) = Prepare).
Definition SC_is_usig c : bool := Commitment_is_usig (sc_commitment c).
Definition SC_is_accumulator c : bool := Commitment_is_accumulator (sc_commitment c).
Definition SC_hash_value c : CommitmentHash := Commitment_hash_value (sc_commitment c).
Definition SC_get_signature c : Sig := sc_signature c.

Definition SC_key c : N * N := (cm_view (sc_commitment c), cm_creator (sc_commitment c)).
#[export] Instance SC_Keyable : Keyable SignedCommitment (N * N) := SC_key.

(** [Ord], on which [Eq] rests: the view, then the creator. *)
Definition SC_cmp c (other : SignedCommitment) : comparison :=
  if (SC_get_view c =? SC_get_view other)%N
  then (SC_get_creator c ?= SC_get_creator other)%N
  else (SC_get_view c ?= SC_get_view other)%N.

(** ** [Justification] *)

Inductive Justification :=
| Genesis
| Quorum (signed_commitment : SignedCommitment).

Definition Justification_get_commitment (j : Justification) : option SignedCommitment :=
  match j with Quorum c => Some c | Genesis => None end.
Definition Justification_is_genesis (j : Justification) : bool :=
  match j with Genesis => true | Quorum _ => false end.

(** [sig_bytes] is [AsRef<[u8]>] of a signature. *)
Definition Justification_hash (sig_bytes : Sig -> list N) (j : Justification) : list N :=
  match j with
  | Genesis => [0%N]
  | Quorum c => 1%N :: SC_hash_value c ++ sig_bytes (sc_signature c)
  end.
End signed.
Arguments SignedCommitment : clear implicits.
Arguments Justification : clear implicits.

(** ** [EnclaveError]

    Named [DamEnclaveError]: the fields of the error variants are kept. *)

Inductive DamEnclaveError (E : Type) :=
| JustificationIsGenesis
| JustificationInvalidView (justification_view view_usable_for enclave_view justification_block_view : N)
| BlockToPrepareIsForWrongView (enclave_view block_view : N)
| JustificationBlockHashDoesNotMatchCommitmentBlockHash (commitment_block_hash justification_block_hash : BlockHash)
| InvalidAccumulatorSignature
| IncompatibleCommitmentForAccumulation
| NonDescendingOrderOfCommitmentsForAccumulation
| NotEnoughValidCommitmentsForAccumulation
| DoubleKeyReceived
| PlatformError (e : E).
Arguments JustificationIsGenesis {_}.
Arguments JustificationInvalidView {_} _ _ _ _.
Arguments BlockToPrepareIsForWrongView {_} _ _.
Arguments JustificationBlockHashDoesNotMatchCommitmentBlockHash {_} _ _.
Arguments InvalidAccumulatorSignature {_}.
Arguments IncompatibleCommitmentForAccumulation {_}.
Arguments NonDescendingOrderOfCommitmentsForAccumulation {_}.
Arguments NotEnoughValidCommitmentsForAccumulation {_}.
Arguments DoubleKeyReceived {_}.
Arguments PlatformError {_} _.
