(* ===== verification/DamEnclave.v ===== *)
(** * Damysus: the trusted component

    Models the traits and the automaton of
    [src/atomic-broadcast/damysus/damysus-base/src/enclave.rs] and the
    [NoopEnclave] of [src/atomic-broadcast/damysus/damysus/src/enclave.rs].

    [DamEnclaveTrusted] is the trait [EnclaveTrusted] (signing and verifying a
    hash), [DamAutomata] the struct [EnclaveAutomata] generic in it, and
    [DamEnclave] the trait [Enclave] the replica is generic in.  A method with a
    mutable receiver returns the new state beside its result; [unwrap] of
    [None] is [Panic]. *)

From Stdlib Require Import ZArith Lia.
From stdpp Require Import base list numbers option.
From S2P Require Import Prelude Ids Heaps DamBase.

Class DamEnclaveTrusted (Enc : Type) := {
  dt_Signature : Type;
  dt_PlatformError : Type;
  dt_sig_bytes : dt_Signature -> list N;
  dt_sign : Enc -> CommitmentHash -> Result dt_Signature (DamEnclaveError dt_PlatformError);
  dt_verify : Enc -> N -> CommitmentHash -> dt_Signature -> Result bool (DamEnclaveError dt_PlatformError);
}.
Arguments dt_Signature Enc {_}.
Arguments dt_PlatformError Enc {_}.

Class DamEnclave (Enc : Type) := {
  de_PublicKey : Type;
  de_Signature : Type;
  de_PlatformError : Type;
  de_sig_bytes : de_Signature -> list N;
  de_new : N -> N -> N -> Outcome Enc;
  de_get_public_key : Enc -> Result de_PublicKey (DamEnclaveError de_PlatformError);
  de_add_peer : Enc -> N -> de_PublicKey -> Outcome (Result () (DamEnclaveError de_PlatformError) * Enc);
  de_accumulate : Enc -> list (SignedCommitment de_Signature) ->
    Outcome (Result (SignedCommitment de_Signature) (DamEnclaveError de_PlatformError) * Enc);
  de_prepare : Enc -> N -> BlockHash -> Justification de_Signature -> Parent -> BlockHash ->
    Outcome (Result (SignedCommitment de_Signature) (DamEnclaveError de_PlatformError) * Enc);
  de_re_sign_last_prepared : Enc ->
    Outcome (Result (SignedCommitment de_Signature) (DamEnclaveError de_PlatformError) * Enc);
  de_verify_untrusted : Enc -> N -> CommitmentHash -> de_Signature -> Outcome bool;
}.
Arguments de_PublicKey Enc {_}.
Arguments de_Signature Enc {_}.
Arguments de_PlatformError Enc {_}.

(** ** [EnclaveAutomata] *)

Section automata.
  Context {P : Profile} {B : Type} `{BitSet B} `{Digests} {Enc : Type} `{DamEnclaveTrusted Enc}.

Abbreviation SC := (SignedCommitment (dt_Signature Enc)).
Abbreviation Err' := (DamEnclaveError (dt_PlatformError Enc)).

Record DamAutomata := mkDamAutomata {
  da_enclave : Enc;
  da_me : N;
  da_n : N;
  da_quorum : N;
  da_view : N;
  da_last_prepared_block_hash : BlockHash;
  da_last_prepared_block_view : N;
}.
#[export] Instance DamAutomata_eta : Eta DamAutomata := fun a => mkDamAutomata
  (da_enclave a) (da_me a) (da_n a) (da_quorum a) (da_view a)
  (da_last_prepared_block_hash a) (da_last_prepared_block_view a).

Definition DamAutomata_new (me n quorum : N) (enclave : Enc) : DamAutomata :=
  mkDamAutomata enclave me n quorum View_default BlockHash_genesis View_default.

Definition DamAutomata_verify (a : DamAutomata) (c : SC) : Result bool Err' :=
  dt_verify (da_enclave a) (cm_creator (sc_commitment c)) (Commitment_hash_value (sc_commitment c)) (sc_signature c).

Definition DamAutomata_verify_usig (a : DamAutomata) (c : SC) : Result bool Err' :=
  if negb (Commitment_is_usig (sc_commitment c)) then Ok false else DamAutomata_verify a c.

Definition DamAutomata_verify_accumulator (a : DamAutomata) (c : SC) : Result bool Err' :=
  if negb (Commitment_is_accumulator (sc_commitment c)) then Ok false else DamAutomata_verify a c.

Definition DamAutomata_create_commitment (a : DamAutomata) (view block_view : N) (block_hash : BlockHash)
    (commitment_type : CommitmentType) (is_prepare : bool) : Result SC Err' :=
  let commitment_phase := if is_prepare then Prepare else NewView in
  let commitment := {|
    cm_creator := da_me a;
    cm_view := view;
    cm_prepared_block_view := da_last_prepared_block_view a;
    cm_prepared_block_hash := da_last_prepared_block_hash a;
    cm_block_view := block_view;
    cm_block_hash := block_hash;
    cm_phase := commitment_phase;
    cm_type := commitment_type;
  |} in
  match dt_sign (da_enclave a) (Commitment_hash_value commitment) with
  | Err e => Err e
  | Ok signature => Ok (SignedCommitment_new commitment signature)
  end.

(** The view advances whether or not signing succeeded. *)
Definition DamAutomata_create_usig (a : DamAutomata) (block_hash : BlockHash) (block_view : N)
    : Outcome (Result SC Err' * DamAutomata) :=
  let is_prepare := (da_view a =? block_view)%N in
  let commitment := DamAutomata_create_commitment a (da_view a) block_view block_hash Usig is_prepare in
  view ← View_increment (da_view a);
  Val (commitment, a.[da_view := view]).

Definition DamAutomata_re_sign_last_prepared (a : DamAutomata) : Outcome (Result SC Err' * DamAutomata) :=
  DamAutomata_create_usig a (da_last_prepared_block_hash a) (da_last_prepared_block_view a).

Definition DamAutomata_prepare (a : DamAutomata) (block_view : N) (block_hash : BlockHash)
    (block_justification : Justification (dt_Signature Enc)) (block_parent : Parent)
    (justification_block_hash : BlockHash) : Outcome (Result SC Err' * DamAutomata) :=
  match Justification_get_commitment block_justification with
  | None => Val (Err JustificationIsGenesis, a)
  | Some signed_commitment =>
      usable_for ← SC_get_view_usable_for signed_commitment;
      if negb (usable_for =? da_view a)%N then
        Val (Err (JustificationInvalidView (SC_get_view signed_commitment) usable_for (da_view a)
                    (SC_get_block_view signed_commitment)), a)
      else if negb (da_view a =? block_view)%N then
        Val (Err (BlockToPrepareIsForWrongView (da_view a) block_view), a)
      else if negb (bool_decide (SC_get_block_hash signed_commitment = justification_block_hash)) then
        Val (Err (JustificationBlockHashDoesNotMatchCommitmentBlockHash
                    (SC_get_block_hash signed_commitment) justification_block_hash), a)
      else
        match DamAutomata_verify_accumulator a signed_commitment with
        | Err e => Val (Err e, a)
        | Ok false => Val (Err InvalidAccumulatorSignature, a)
        | Ok true =>
            let a :=
              if Parent_eq_hash block_parent justification_block_hash then
                a.[da_last_prepared_block_hash := SC_get_block_hash signed_commitment]
                 .[da_last_prepared_block_view := SC_get_block_view signed_commitment]
              else a in
            DamAutomata_create_usig a block_hash (da_view a)
        end
  end.

(** The state of the loop of [accumulate] over the commitments, last first. *)
Record AccState := mkAcc {
  acc_is_prepare : bool;
  acc_block_view : N;
  acc_block_hash : BlockHash;
  acc_valid : N;
  acc_seen : IdSet B;
}.

Fixpoint accumulate_loop (a : DamAutomata) (view prepared_block_view : N) (prepared_block_hash : BlockHash)
    (commitments : list SC) (s : AccState) : Outcome (Result AccState Err') :=
  match commitments with
  | [] => Val (Ok s)
  | c :: commitments =>
      if IdSet_contains (acc_seen s) (cm_creator (sc_commitment c)) then
        Val (Err IncompatibleCommitmentForAccumulation)
      else if (prepared_block_view <? SC_get_prepared_block_view c)%N then
        Val (Err NonDescendingOrderOfCommitmentsForAccumulation)
      else
        let s :=
          if bool_decide (cm_phase (sc_commitment c) = Prepare) then s
          else mkAcc false prepared_block_view prepared_block_hash (acc_valid s) (acc_seen s) in
        if negb (view =? cm_view (sc_commitment c))%N then
          Val (Err IncompatibleCommitmentForAccumulation)
        else if acc_is_prepare s && negb (acc_block_view s =? SC_get_block_view c)%N then
          Val (Err IncompatibleCommitmentForAccumulation)
        else if acc_is_prepare s && negb (bool_decide (acc_block_hash s = SC_get_block_hash c)) then
          Val (Err IncompatibleCommitmentForAccumulation)
        else
          match DamAutomata_verify_usig a c with
          | Err e => Val (Err e)
          | Ok false => Val (Err IncompatibleCommitmentForAccumulation)
          | Ok true =>
              valid ← u64_add (acc_valid s) 1;
              let s := mkAcc (acc_is_prepare s) (acc_block_view s) (acc_block_hash s) valid
                         (IdSet_insert (acc_seen s) (cm_creator (sc_commitment c))).2 in
              if (da_quorum a <=? valid)%N then Val (Ok s)
              else accumulate_loop a view prepared_block_view prepared_block_hash commitments s
          end
  end.

Definition DamAutomata_accumulate (a : DamAutomata) (commitments : list SC) : Outcome (Result SC Err' * DamAutomata) :=
  view ← unwrap (View_get_predecessor (da_view a));
  match list.last commitments with
  | None => Val (Err NotEnoughValidCommitmentsForAccumulation, a)
  | Some c =>
      r ← accumulate_loop a view (SC_get_prepared_block_view c) (SC_get_prepared_block_hash c)
            (reverse commitments)
            (mkAcc true (SC_get_block_view c) (SC_get_block_hash c) 0 (IdSet_with_capacity (da_n a)));
      match r with
      | Err e => Val (Err e, a)
      | Ok s =>
          if (da_quorum a <=? acc_valid s)%N then
            if acc_is_prepare s && negb (view =? acc_block_view s)%N then
              Val (Err IncompatibleCommitmentForAccumulation, a)
            else
              Val (DamAutomata_create_commitment a view (acc_block_view s) (acc_block_hash s)
                     Accumulator (acc_is_prepare s), a)
          else Val (Err NotEnoughValidCommitmentsForAccumulation, a)
      end
  end.
End automata.
Arguments DamAutomata : clear implicits.

(** ** [NoopEnclave] *)

Section noop.
  Context {P : Profile} {B : Type} `{BitSet B} `{Digests}.

Record NoopEnclaveTrusted := mkNoopTrusted { nt_me : list N; nt_peers : IdSet B }.

Definition NoopEnclaveTrusted_add_peer (t : NoopEnclaveTrusted) (peer : N) : bool * NoopEnclaveTrusted :=
  if IdSet_contains (nt_peers t) peer then (false, t)
  else (true, mkNoopTrusted (nt_me t) (IdSet_insert (nt_peers t) peer).2).

#[export] Instance NoopEnclaveTrusted_impl : DamEnclaveTrusted NoopEnclaveTrusted := {|
  dt_Signature := list N;
  dt_PlatformError := ();
  dt_sig_bytes := id;
  dt_sign := fun t _ => Ok (nt_me t);
  dt_verify := fun t creator _ signature =>
    Ok (IdSet_contains (nt_peers t) creator && bool_decide (to_le_bytes creator = signature));
|}.

Definition NoopEnclave : Type := DamAutomata NoopEnclaveTrusted.

Definition NoopEnclave_new (me n quorum : N) : NoopEnclave :=
  DamAutomata_new me n quorum (mkNoopTrusted (to_le_bytes me) (IdSet_with_capacity n)).

Definition NoopEnclave_add_peer (e : NoopEnclave) (id : N) (key : list N)
    : Outcome (Result () (DamEnclaveError ()) * NoopEnclave) :=
  if negb (bool_decide (to_le_bytes id = key)) then Val (Err (PlatformError ()), e)
  else
    let '(b, t) := NoopEnclaveTrusted_add_peer (da_enclave e) id in
    Val (if b then Ok () else Err DoubleKeyReceived, e.[da_enclave := t]).

Definition NoopEnclave_verify_untrusted (e : NoopEnclave) (creator : N) (hash : CommitmentHash)
    (signature : list N) : Outcome bool :=
  match dt_verify (da_enclave e) creator hash signature with
  | Ok b => Val b
  | Err _ => Panic
  end.

#[export] Instance NoopEnclave_impl : DamEnclave NoopEnclave := {|
  de_PublicKey := list N;
  de_Signature := list N;
  de_PlatformError := ();
  de_sig_bytes := id;
  de_new := fun me n quorum => Val (NoopEnclave_new me n quorum);
  de_get_public_key := fun e => Ok (nt_me (da_enclave e));
  de_add_peer := NoopEnclave_add_peer;
  de_accumulate := DamAutomata_accumulate (B := B) (Enc := NoopEnclaveTrusted);
  de_prepare := DamAutomata_prepare (Enc := NoopEnclaveTrusted);
  de_re_sign_last_prepared := DamAutomata_re_sign_last_prepared (Enc := NoopEnclaveTrusted);
  de_verify_untrusted := NoopEnclave_verify_untrusted;
|}.
End noop.
Arguments NoopEnclaveTrusted : clear implicits.
Arguments NoopEnclave : clear implicits.
