(* ===== verification/DamEnclaveFacts.v ===== *)
(** * Damysus: what the trusted component guarantees

    [accumulate_loop_Ok] and [DamAutomata_accumulate_Ok]: an accumulator is
    backed by a quorum of valid commitments of distinct creators for the previous
    view, and names the block of the highest prepared view among them.
    [da_calls]: whatever is asked of it, the automaton signs at most one
    commitment of its own per view. *)

From Stdlib Require Import ZArith Lia.
From stdpp Require Import base list gmap sets numbers option sorting.
From S2P Require Import Prelude Ids Heaps Triple DamBase DamEnclave.

Section facts.
  Context {P : Profile} {B : Type} `{BitSetLaws B} `{Digests} {Enc : Type} `{DamEnclaveTrusted Enc}.
  Abbreviation SC := (SignedCommitment (dt_Signature Enc)).
  Abbreviation Err' := (DamEnclaveError (dt_PlatformError Enc)).
  Implicit Types (a : DamAutomata Enc) (c : SC) (cs : list SC).

(** ** Accumulating *)

(** A commitment [accumulate] counts. *)
Definition usig_valid a (view prepared : N) c : Prop :=
  SC_is_usig c = true /\ DamAutomata_verify a c = Ok true /\ SC_get_view c = view
  /\ (SC_get_prepared_block_view c <= prepared)%N.

Lemma verify_usig_Ok a c : DamAutomata_verify_usig a c = Ok true -> SC_is_usig c = true /\ DamAutomata_verify a c = Ok true.
Proof. unfold DamAutomata_verify_usig, SC_is_usig. by destruct (Commitment_is_usig _). Qed.

(** What the loop has established when it ends: [used] are the commitments it
    counted, and the block is that of all of them when all are prepares, that of
    the highest prepared view otherwise. *)
Definition loop_result a (view pv : N) (ph : BlockHash) (s s' : AccState (B := B)) used : Prop :=
  Forall (usig_valid a view pv) used
  /\ NoDup (SC_get_creator <$> used)
  /\ (forall c, c ∈ used -> IdSet_contains (acc_seen s) (SC_get_creator c) = false)
  /\ acc_valid s' = (acc_valid s + N.of_nat (length used))%N
  /\ (acc_is_prepare s' = true -> acc_is_prepare s = true /\ acc_block_view s' = acc_block_view s
        /\ acc_block_hash s' = acc_block_hash s
        /\ Forall (fun c => SC_is_prepare c = true /\ SC_get_block_view c = acc_block_view s
                            /\ SC_get_block_hash c = acc_block_hash s) used)
  /\ (acc_is_prepare s' = false ->
        (acc_is_prepare s = false /\ acc_block_view s' = acc_block_view s /\ acc_block_hash s' = acc_block_hash s)
        \/ (Exists (fun c => SC_is_prepare c = false) used /\ acc_block_view s' = pv /\ acc_block_hash s' = ph)).

Lemma seen_insert (x : IdSet B) (k j : N) :
  IdSet_contains (IdSet_insert x k).2 j = bool_decide (j = k) || IdSet_contains x j.
Proof.
  destruct (IdSet_insert_spec x k) as [_ Hs]. rewrite !IdSet_contains_spec, Hs.
  repeat case_bool_decide; set_solver.
Qed.

Lemma accumulate_loop_Ok a view pv ph cs s s' :
  overflow_checks = true \/ (acc_valid s + N.of_nat (length cs) < 2 ^ 64)%N ->
  accumulate_loop a view pv ph cs s = Val (Ok s') ->
  exists used rest, cs = used ++ rest /\ (rest = [] \/ (used <> [] /\ da_quorum a <= acc_valid s')%N)
    /\ loop_result a view pv ph s s' used.
Proof.
  revert s. induction cs as [|c cs IH]; intros s Hlen Hl; cbn [accumulate_loop] in Hl.
  { injection Hl as <-. exists [], []. split; [done|]. split; [by left|]. unfold loop_result. simpl.
    split; [done|]. split; [constructor|]. split; [by intros c ?%not_elem_of_nil|]. split; [lia|].
    split; [done|]. intros ->. by left. }
  destruct (IdSet_contains _ _) eqn:Hseen; [done|].
  destruct (N.ltb_spec pv (SC_get_prepared_block_view c)) as [|Hpv]; [done|].
  set (s1 := if bool_decide _ then s else _) in Hl.
  assert (acc_seen s1 = acc_seen s /\ acc_valid s1 = acc_valid s) as [Hs1 Hv1] by (unfold s1; by destruct (bool_decide (cm_phase _ = _))).
  destruct (N.eqb_spec view (cm_view (sc_commitment c))) as [Hview|]; [|done]. simpl in Hl.
  destruct (acc_is_prepare s1 && negb (acc_block_view s1 =? SC_get_block_view c)%N) eqn:Hbv; [done|].
  destruct (acc_is_prepare s1 && negb (bool_decide (acc_block_hash s1 = SC_get_block_hash c))) eqn:Hbh; [done|].
  destruct (DamAutomata_verify_usig a c) as [[]|] eqn:Hver; [|done..].
  apply verify_usig_Ok in Hver as [Husig Hver].
  apply outcome_bind_inv in Hl as (valid & Hadd & Hl).
  assert (valid = acc_valid s1 + 1)%N as ->.
  { destruct Hlen as [Hc|Hlen]; [by apply u64_add_inv|]. simpl in Hlen.
    rewrite u64_add_Val in Hadd by (rewrite Hv1; lia). by injection Hadd. }
  set (s2 := mkAcc _ _ _ _ _) in Hl.
  assert (loop_result a view pv ph s s2 [c]) as Hone.
  { unfold loop_result. simpl. split; [by repeat constructor|]. split; [apply NoDup_singleton|].
    split; [by intros ? ->%list_elem_of_singleton|]. split; [lia|]. split.
    - intros Hp. rewrite Hp in Hbv, Hbh. simpl in Hbv, Hbh.
      apply negb_false_iff, N.eqb_eq in Hbv. apply negb_false_iff, bool_decide_eq_true in Hbh.
      unfold s1 in Hp, Hbv, Hbh |- *. destruct (bool_decide (cm_phase _ = _)) eqn:Hph; [|done].
      split_and!; try done. repeat constructor; [exact Hph|congruence..].
    - intros Hp. unfold s1 in Hp |- *. destruct (bool_decide (cm_phase _ = _)) eqn:Hph; [by left|].
      right. split; [|done]. apply Exists_exists. exists c. split; [set_solver|]. exact Hph. }
  destruct (N.leb_spec (da_quorum a) (acc_valid s1 + 1)) as [Hq|Hq].
  - injection Hl as <-. exists [c], cs. split; [done|]. split; [by right|done].
  - apply IH in Hl as (used & rest & -> & Hrest & Hres); [|simpl in Hlen |- *; rewrite Hv1; destruct Hlen; [by left|right; lia]].
    exists (c :: used), rest. split; [done|]. split; [naive_solver|].
    destruct Hone as (Hf & _ & _ & Hval & Hpre & Hnew). destruct Hres as (Hf' & Hnd & Hsn & Hval' & Hpre' & Hnew').
    unfold loop_result. split; [by apply Forall_cons; inversion Hf|]. split.
    { apply NoDup_cons. split; [|done]. intros (x & Hx & Hin)%list_elem_of_fmap.
      specialize (Hsn x Hin). simpl in Hsn. rewrite seen_insert, <-Hx in Hsn. by rewrite bool_decide_eq_true_2 in Hsn. }
    split.
    { intros x [->|Hx]%elem_of_cons; [done|]. specialize (Hsn x Hx). simpl in Hsn.
      rewrite seen_insert in Hsn. apply orb_false_iff in Hsn as [_ Hsn]. by rewrite <-Hs1. }
    split; [change (length [c]) with 1 in Hval; cbn [length]; lia|]. split.
    + intros Hp. destruct (Hpre' Hp) as (Hp2 & Hv2 & Hh2 & Hall). destruct (Hpre Hp2) as (Hp1 & Hv3 & Hh3 & Hall1).
      split_and!; [done|congruence..|]. apply Forall_cons. split; [by inversion Hall1|].
      eapply Forall_impl; [exact Hall|]. intros x (? & ? & ?). split_and!; congruence.
    + intros Hp. destruct (Hnew' Hp) as [(Hp2 & Hv2 & Hh2)|(He & Hv2 & Hh2)].
      * destruct (Hnew Hp2) as [(? & ? & ?)|(He & ? & ?)]; [left|right]; split_and!; try congruence.
        apply Exists_exists in He as (x & ->%list_elem_of_singleton & Hx). by constructor.
      * right. split; [by constructor|done].
Qed.

(** The commitment [create_commitment] signs. *)
Lemma create_commitment_Ok a view bv bh t ip c :
  DamAutomata_create_commitment a view bv bh t ip = Ok c ->
  SC_get_creator c = da_me a /\ SC_get_view c = view /\ cm_type (sc_commitment c) = t
  /\ SC_is_prepare c = ip /\ SC_get_prepared_block_view c = da_last_prepared_block_view a
  /\ SC_get_prepared_block_hash c = da_last_prepared_block_hash a
  /\ cm_block_view (sc_commitment c) = bv /\ cm_block_hash (sc_commitment c) = bh
  /\ dt_sign (da_enclave a) (SC_hash_value c) = Ok (sc_signature c).
Proof.
  unfold DamAutomata_create_commitment. destruct (dt_sign _ _) as [sig|] eqn:Hsig; [|done].
  intros [= <-]. by destruct ip.
Qed.

(** What backs an accumulator [c] that [accumulate] returns. *)
Definition accumulates a cs c : Prop :=
  exists used rest, cs = rest ++ used /\ used <> [] /\ (da_quorum a <= N.of_nat (length used))%N
    /\ NoDup (SC_get_creator <$> used)
    /\ Forall (usig_valid a (da_view a - 1) (from_option SC_get_prepared_block_view 0%N (list.last cs))) used
    /\ ((SC_is_prepare c = true /\ SC_get_block_view c = (da_view a - 1)%N
         /\ Forall (fun x => SC_is_prepare x = true /\ SC_get_block_view x = SC_get_block_view c
                             /\ SC_get_block_hash x = SC_get_block_hash c) used)
        \/ (SC_is_prepare c = false /\ Exists (fun x => SC_is_prepare x = false) used
            /\ from_option SC_get_prepared_block_view 0%N (list.last cs) = SC_get_block_view c
            /\ SC_get_prepared_block_hash <$> list.last cs = Some (SC_get_block_hash c))).

Lemma DamAutomata_accumulate_Ok a cs c a' :
  overflow_checks = true \/ (N.of_nat (length cs) < 2 ^ 64)%N ->
  DamAutomata_accumulate (B := B) a cs = Val (Ok c, a') ->
  a' = a /\ (0 < da_view a)%N /\ SC_is_accumulator c = true /\ SC_get_creator c = da_me a
  /\ SC_get_view c = (da_view a - 1)%N /\ SC_get_prepared_block_view c = da_last_prepared_block_view a
  /\ accumulates a cs c.
Proof.
  intros Hlen Ha. unfold DamAutomata_accumulate in Ha. apply outcome_bind_inv in Ha as (view & Hview & Ha).
  assert (view = da_view a - 1 /\ 0 < da_view a)%N as [-> Hpos].
  { unfold View_get_predecessor in Hview. destruct (N.eqb_spec (da_view a) 0); [done|]. simpl in Hview.
    injection Hview as <-. lia. }
  destruct (list.last cs) as [l|] eqn:Hlast; [|done].
  apply outcome_bind_inv in Ha as ([s|e] & Hloop & Ha); [|done].
  destruct (N.leb_spec (da_quorum a) (acc_valid s)) as [Hq|]; [|done].
  destruct (acc_is_prepare s && _) eqn:Hvw; [done|]. injection Ha as Hc <-.
  apply accumulate_loop_Ok in Hloop as (used & rest & Hcs & Hrest & Hres);
    [|by simpl; rewrite length_reverse].
  destruct Hres as (Hf & Hnd & _ & Hval & Hpre & Hnew). simpl in Hval, Hpre, Hnew.
  assert (cs = reverse rest ++ reverse used) as ->
    by (by rewrite <-reverse_app, <-Hcs, reverse_involutive).
  apply create_commitment_Ok in Hc as (Hcr & Hcv & Hct & Hip & Hcp & _ & Hbv & Hbh & _).
  assert (SC_get_block_view c = acc_block_view s /\ SC_get_block_hash c = acc_block_hash s) as [Hgv Hgh].
  { unfold SC_get_block_view, SC_get_block_hash. by rewrite Hct. }
  split; [done|]. split; [done|]. split; [by unfold SC_is_accumulator, Commitment_is_accumulator; rewrite Hct|].
  split_and!; [done..|].
  assert (used <> []) as Hne.
  { intros ->. destruct Hrest as [->|[? _]]; [|done]. by rewrite !reverse_nil in Hlast. }
  exists (reverse used), (reverse rest). rewrite length_reverse, fmap_reverse, Hlast. simpl.
  split; [done|]. split; [by intros Hr; apply Hne; rewrite <-(reverse_involutive used), Hr|]. split; [lia|].
  split; [by rewrite reverse_Permutation|]. split; [by apply Forall_reverse|].
  rewrite Hip. destruct (acc_is_prepare s) eqn:Hp.
  - left. destruct (Hpre eq_refl) as (_ & Hv & Hh & Hall). simpl in Hvw.
    apply negb_false_iff, N.eqb_eq in Hvw. split; [done|]. split; [congruence|]. apply Forall_reverse.
    eapply Forall_impl; [exact Hall|]. intros x (? & ? & ?). split_and!; congruence.
  - right. destruct (Hnew eq_refl) as [[? _]|(He & Hv & Hh)]; [done|]. split; [done|]. split.
    + apply Exists_exists in He as (x & Hx & Hxp). apply Exists_exists. exists x. by rewrite elem_of_reverse.
    + split; congruence.
Qed.

Lemma accumulate_loop_fuel a view pv ph cs s : accumulate_loop (B := B) a view pv ph cs s <> NoFuel.
Proof.
  revert s. induction cs as [|c cs IH]; intros s; cbn [accumulate_loop]; [done|].
  destruct (IdSet_contains _ _); [done|]. destruct (_ <? _)%N; [done|]. destruct (negb _); [done|].
  destruct (_ && _); [done|]. destruct (_ && _); [done|]. destruct (DamAutomata_verify_usig a c) as [[]|]; [|done..].
  apply outcome_bind_fuel; [apply u64_add_fuel|]. intros v _. destruct (_ <=? _)%N; [done|]. apply IH.
Qed.

Lemma DamAutomata_accumulate_fuel a cs : DamAutomata_accumulate (B := B) a cs <> NoFuel.
Proof.
  apply outcome_bind_fuel; [apply unwrap_fuel|]. intros v _. destruct (list.last cs) as [l|]; [|done].
  apply outcome_bind_fuel; [apply accumulate_loop_fuel|]. intros [s|] _; [|done].
  destruct (_ <=? _)%N; [|done]. by destruct (_ && _).
Qed.

Lemma DamAutomata_accumulate_state a cs r a' : DamAutomata_accumulate (B := B) a cs = Val (r, a') -> a' = a.
Proof.
  intros Ha. apply outcome_bind_inv in Ha as (v & _ & Ha). destruct (list.last cs) as [l|]; [|by injection Ha as _ <-].
  apply outcome_bind_inv in Ha as ([s|] & _ & Ha); [|by injection Ha as _ <-].
  destruct (_ <=? _)%N; [|by injection Ha as _ <-]. destruct (_ && _); by injection Ha as _ <-.
Qed.

(** ** Signing *)

Lemma create_usig_Val a bh bv r a' :
  (da_view a + 1 < 2 ^ 64)%N -> DamAutomata_create_usig a bh bv = Val (r, a') ->
  a' = a.[da_view := (da_view a + 1)%N]
  /\ r = DamAutomata_create_commitment a (da_view a) bv bh Usig (da_view a =? bv)%N.
Proof.
  intros Hv. unfold DamAutomata_create_usig, View_increment. rewrite u64_add_Val by done. simpl.
  by intros [= <- <-].
Qed.

(** The calls that can be made of the automaton. *)
Inductive da_op :=
| Op_accumulate (cs : list SC)
| Op_prepare (block_view : N) (hash : BlockHash) (j : Justification (dt_Signature Enc)) (parent : Parent)
    (justification_hash : BlockHash)
| Op_re_sign.

Definition da_call (op : da_op) a : Outcome (Result SC Err' * DamAutomata Enc) :=
  match op with
  | Op_accumulate cs => DamAutomata_accumulate (B := B) a cs
  | Op_prepare bv h j p jh => DamAutomata_prepare a bv h j p jh
  | Op_re_sign => DamAutomata_re_sign_last_prepared a
  end.

(** A sequence of calls, with the commitments they returned. *)
Fixpoint da_calls (ops : list da_op) a : Outcome (list SC * DamAutomata Enc) :=
  match ops with
  | [] => Val ([], a)
  | op :: ops =>
      r ← da_call op a;
      rs ← da_calls ops r.2;
      Val (match r.1 with Ok c => c :: rs.1 | Err _ => rs.1 end, rs.2)
  end.

#[local] Ltac refused := do 4 (split; [done|]); left; split; [done|]; by intros ? [=].

(** One call either returns no usig and keeps the view, or advances the view and
    signs for the view it leaves. *)
Lemma da_call_Val op a r a' :
  (da_view a + 1 < 2 ^ 64)%N -> da_call op a = Val (r, a') ->
  da_me a' = da_me a /\ da_n a' = da_n a /\ da_quorum a' = da_quorum a /\ da_enclave a' = da_enclave a
  /\ ((da_view a' = da_view a /\ forall c, r = Ok c -> SC_is_usig c = false)
      \/ (da_view a' = (da_view a + 1)%N /\ forall c, r = Ok c ->
            SC_is_usig c = true /\ SC_get_view c = da_view a /\ SC_get_creator c = da_me a)).
Proof.
  intros Hv. destruct op as [cs|bv h j p jh|]; simpl.
  - intros Ha. pose proof (DamAutomata_accumulate_state _ _ _ _ Ha) as ->. do 4 (split; [done|]). left.
    split; [done|]. intros c ->. unfold DamAutomata_accumulate in Ha.
    apply outcome_bind_inv in Ha as (v & _ & Ha). destruct (list.last cs) as [l|]; [|done].
    apply outcome_bind_inv in Ha as ([s|] & _ & Ha); [|done]. destruct (_ <=? _)%N; [|done].
    destruct (_ && _); [done|]. injection Ha as Hc.
    apply create_commitment_Ok in Hc as (_ & _ & Ht & _). unfold SC_is_usig, Commitment_is_usig. by rewrite Ht.
  - unfold DamAutomata_prepare. destruct (Justification_get_commitment j) as [sc|]; [|intros [= <- <-]; refused].
    intros (u & _ & Ha)%outcome_bind_inv.
    destruct (negb _); [injection Ha as <- <-; refused|]. destruct (negb _); [injection Ha as <- <-; refused|].
    destruct (negb _); [injection Ha as <- <-; refused|].
    destruct (DamAutomata_verify_accumulator a sc) as [[]|]; [|injection Ha as <- <-; refused..].
    set (a1 := if Parent_eq_hash p jh then _ else a) in Ha.
    assert (da_view a1 = da_view a /\ da_me a1 = da_me a /\ da_n a1 = da_n a /\ da_quorum a1 = da_quorum a
      /\ da_enclave a1 = da_enclave a) as (Hv1 & Hm1 & Hn1 & Hq1 & He1).
    { unfold a1. by destruct (Parent_eq_hash p jh). }
    apply create_usig_Val in Ha as [-> ->]; [|by rewrite Hv1]. simpl. do 4 (split; [done|]). right.
    split; [by rewrite Hv1|]. intros c Hc%create_commitment_Ok. destruct Hc as (? & ? & Ht & _).
    unfold SC_is_usig, Commitment_is_usig. rewrite Ht. split; [done|]. split; congruence.
  - intros Ha. apply create_usig_Val in Ha as [-> ->]; [|done]. simpl. do 4 (split; [done|]). right.
    split; [done|]. intros c Hc%create_commitment_Ok. destruct Hc as (? & ? & Ht & _).
    unfold SC_is_usig, Commitment_is_usig. by rewrite Ht.
Qed.

Lemma da_calls_usigs ops a cs a' :
  (da_view a + N.of_nat (length ops) < 2 ^ 64)%N -> da_calls ops a = Val (cs, a') ->
  da_me a' = da_me a /\ (da_view a <= da_view a')%N
  /\ Forall (fun c => SC_is_usig c = true -> SC_get_creator c = da_me a
                      /\ (da_view a <= SC_get_view c < da_view a')%N) cs
  /\ StronglySorted N.lt (SC_get_view <$> List.filter SC_is_usig cs).
Proof.
  revert a cs. induction ops as [|op ops IH]; intros a cs Hv; cbn [da_calls].
  { intros [= <- <-]. split; [done|]. split; [lia|]. split; [done|]. constructor. }
  intros ([r a1] & Hop & Ha)%outcome_bind_inv. apply outcome_bind_inv in Ha as ([cs1 a2] & Hops & Ha).
  simpl in Hops, Ha. cbn [length] in Hv. injection Ha as <- <-.
  destruct (da_call_Val op a r a1) as (Hm & _ & _ & _ & Hcase); [lia|done|].
  destruct (IH a1 cs1) as (Hm2 & Hle & Hall & Hsort); [destruct Hcase as [[-> _]|[-> _]]; lia|done|].
  assert (da_view a <= da_view a1)%N as Hle1 by (destruct Hcase as [[-> _]|[-> _]]; lia).
  assert (Forall (fun c => SC_is_usig c = true -> SC_get_creator c = da_me a
                           /\ (da_view a <= SC_get_view c < da_view a2)%N) cs1) as Hall1.
  { eapply Forall_impl; [exact Hall|]. intros c Hc Hu. destruct (Hc Hu). split; [congruence|lia]. }
  split; [congruence|]. split; [lia|]. destruct r as [c|e]; [|done].
  destruct Hcase as [[Hv1 Hno]|[Hv1 Hyes]].
  - specialize (Hno c eq_refl). split; [by constructor; [congruence|]|]. simpl. by rewrite Hno.
  - destruct (Hyes c eq_refl) as (Hu & Hcv & Hcr). split.
    + constructor; [|done]. intros _. split; [congruence|]. rewrite Hcv. lia.
    + simpl. rewrite Hu. simpl. constructor; [done|]. apply list.Forall_forall.
      intros x (y & -> & Hy)%list_elem_of_fmap. apply list_elem_of_In, List.filter_In in Hy as [Hy%list_elem_of_In Hyu].
      rewrite list.Forall_forall in Hall. destruct (Hall y Hy Hyu). lia.
Qed.
End facts.

(** ** Damysus: the interface between replica and enclave

    [DamEnclaveLaws] states what the replica relies on of an enclave: its view
    advances by one with each of its own commitments and with nothing else, the
    commitments it signs are of that view, and none of them refers to a later
    view than its own.  [NoopEnclave] satisfies them, through the automaton it
    wraps. *)

(** A commitment that refers to no view after its own. *)
Definition commitment_ok {Sig} (c : SignedCommitment Sig) : Prop :=
  (SC_get_block_view c <= SC_get_view c)%N /\ (SC_get_prepared_block_view c <= SC_get_view c)%N.

Definition justification_ok {Sig} (j : Justification Sig) : Prop :=
  match j with Genesis => True | Quorum c => commitment_ok c end.

Class DamEnclaveState (Enc : Type) := {
  de_view : Enc -> N;
  de_inv : Enc -> Prop;
}.

Class DamEnclaveLaws (Enc : Type) `{DamEnclave Enc, DamEnclaveState Enc} : Prop := {
  de_new_fuel me n q : de_new me n q <> NoFuel;
  de_new_law me n q e : de_new me n q = Val e -> de_inv e /\ de_view e = 0%N;
  de_verify_fuel e i h s : de_verify_untrusted e i h s <> NoFuel;
  de_add_peer_fuel e i k : de_add_peer e i k <> NoFuel;
  de_add_peer_law e i k r e' : de_inv e -> de_add_peer e i k = Val (r, e') -> de_inv e' /\ de_view e' = de_view e;
  de_accumulate_fuel e cs : de_accumulate e cs <> NoFuel;
  de_accumulate_law e cs r e' : de_inv e ->
    Forall commitment_ok cs -> de_accumulate e cs = Val (r, e') ->
    de_inv e' /\ de_view e' = de_view e
    /\ forall c, r = Ok c -> SC_is_accumulator c = true /\ commitment_ok c /\ (SC_get_view c + 1)%N = de_view e;
  de_prepare_fuel e v h j p jh : de_prepare e v h j p jh <> NoFuel;
  de_prepare_law e v h j p jh c e' : de_inv e -> justification_ok j -> de_prepare e v h j p jh = Val (Ok c, e') ->
    de_inv e' /\ de_view e' = (de_view e + 1)%N /\ v = de_view e
    /\ commitment_ok c /\ SC_is_usig c = true /\ SC_is_prepare c = true
    /\ SC_get_view c = de_view e /\ SC_get_block_view c = de_view e /\ SC_get_block_hash c = h;
  de_re_sign_fuel e : de_re_sign_last_prepared e <> NoFuel;
  de_re_sign_law e c e' : de_inv e -> de_re_sign_last_prepared e = Val (Ok c, e') ->
    de_inv e' /\ de_view e' = (de_view e + 1)%N
    /\ commitment_ok c /\ SC_is_usig c = true /\ SC_get_view c = de_view e;
}.

(** ** The automaton *)

Section automata.
  Context {P : Profile} {B : Type} `{BitSetLaws B} `{Digests} {Enc : Type} `{DamEnclaveTrusted Enc}.
  Context (Hchecks : overflow_checks = true).
  Implicit Types (a : DamAutomata Enc) (c : SignedCommitment (dt_Signature Enc)).

(** What it prepared last is of an earlier view. *)
Definition da_inv a : Prop := (da_last_prepared_block_view a <= da_view a - 1)%N.

Lemma create_usig_checked a h v r a' :
  DamAutomata_create_usig a h v = Val (r, a') ->
  a' = a.[da_view := (da_view a + 1)%N]
  /\ r = DamAutomata_create_commitment a (da_view a) v h Usig (da_view a =? v)%N.
Proof.
  unfold DamAutomata_create_usig. intros (w & Hw & [= <- <-])%outcome_bind_inv.
  by apply (u64_add_inv _ _ _ Hchecks) in Hw as ->.
Qed.

(** A usig of the current view, for a block that is not of a later one. *)
Lemma create_usig_ok a h v c a' :
  da_inv a -> (v <= da_view a)%N -> DamAutomata_create_usig a h v = Val (Ok c, a') ->
  da_inv a' /\ da_view a' = (da_view a + 1)%N /\ commitment_ok c /\ SC_is_usig c = true
  /\ SC_get_view c = da_view a /\ SC_is_prepare c = (da_view a =? v)%N
  /\ (da_view a = v -> SC_get_block_view c = v /\ SC_get_block_hash c = h).
Proof.
  intros Hi Hv [-> Hc%eq_sym]%create_usig_checked. unfold da_inv in *. simpl.
  apply create_commitment_Ok in Hc as (_ & Hcv & Hct & Hcp & Hpv & _ & Hbv & Hbh & _).
  assert (SC_get_block_view c <= da_view a)%N as Hle.
  { unfold SC_get_block_view. rewrite Hct, Hbv. fold (SC_get_prepared_block_view c). rewrite Hpv.
    change (bool_decide (cm_phase (sc_commitment c) = Prepare)) with (SC_is_prepare c).
    destruct (_ || _); lia. }
  split; [lia|]. split; [done|]. split; [unfold commitment_ok; rewrite Hcv, Hpv; split; lia|].
  split; [unfold SC_is_usig, Commitment_is_usig; by rewrite Hct|]. split; [done|]. split; [done|].
  intros <-. rewrite N.eqb_refl in Hcp. unfold SC_get_block_view, SC_get_block_hash.
  unfold SC_is_prepare in Hcp. by rewrite Hcp, orb_true_r, Hbv, Hbh.
Qed.

Lemma DamAutomata_prepare_ok a v h j p jh c a' :
  da_inv a -> justification_ok j -> DamAutomata_prepare a v h j p jh = Val (Ok c, a') ->
  da_inv a' /\ da_view a' = (da_view a + 1)%N /\ v = da_view a
  /\ commitment_ok c /\ SC_is_usig c = true /\ SC_is_prepare c = true
  /\ SC_get_view c = da_view a /\ SC_get_block_view c = da_view a /\ SC_get_block_hash c = h.
Proof.
  intros Hi Hj Hp. unfold DamAutomata_prepare in Hp. destruct j as [|sc]; [done|]. simpl in Hp.
  apply outcome_bind_inv in Hp as (u & Hu & Hp). apply (u64_add_inv _ _ _ Hchecks) in Hu.
  destruct (N.eqb_spec u (da_view a)) as [Hview|]; [|done]. simpl in Hp.
  destruct (N.eqb_spec (da_view a) v) as [<-|]; [|done]. simpl in Hp. destruct (negb _); [done|].
  destruct (DamAutomata_verify_accumulator a sc) as [[]|]; [|done..].
  set (a1 := if Parent_eq_hash p jh then _ else a) in Hp.
  assert (da_inv a1 /\ da_view a1 = da_view a) as [Hi1 Hv1].
  { unfold a1. destruct (Parent_eq_hash p jh); [|done]. split; [|done]. unfold da_inv. simpl.
    destruct Hj as [Hj _]. lia. }
  apply create_usig_ok in Hp as (? & Hv' & ? & ? & ? & Hpr & Hb); [|done|lia].
  rewrite Hv1 in *. rewrite N.eqb_refl in Hpr. destruct (Hb eq_refl). by split_and!.
Qed.

Lemma DamAutomata_re_sign_ok a c a' :
  da_inv a -> DamAutomata_re_sign_last_prepared a = Val (Ok c, a') ->
  da_inv a' /\ da_view a' = (da_view a + 1)%N
  /\ commitment_ok c /\ SC_is_usig c = true /\ SC_get_view c = da_view a.
Proof.
  intros Hi (? & ? & ? & ? & ? & _)%create_usig_ok; [|done|unfold da_inv in Hi; lia]. by split_and!.
Qed.

Lemma DamAutomata_accumulate_ok a cs r a' :
  da_inv a -> Forall commitment_ok cs ->
  DamAutomata_accumulate (B := B) a cs = Val (r, a') ->
  da_inv a' /\ da_view a' = da_view a
  /\ forall c, r = Ok c -> SC_is_accumulator c = true /\ commitment_ok c /\ (SC_get_view c + 1)%N = da_view a.
Proof.
  intros Hi Hall Ha. pose proof (DamAutomata_accumulate_state _ _ _ _ Ha) as ->.
  split; [done|]. split; [done|]. intros c ->.
  apply DamAutomata_accumulate_Ok in Ha as (_ & Hpos & Hacc & _ & Hv & Hpv & Hback); [|by left].
  split; [done|]. split; [|lia]. unfold commitment_ok. rewrite Hv, Hpv. split; [|exact Hi].
  destruct Hback as (used & rest & Hcs & Hne & _ & _ & Hvalid & [(_ & -> & _)|(_ & _ & Hbv & _)]); [lia|].
  rewrite <-Hbv. destruct (list.last cs) as [l|] eqn:Hl; simpl in *; [|lia].
  assert (l ∈ used) as Hin.
  { destruct (list.last used) as [l'|] eqn:Hl'.
    - apply last_Some in Hl' as [us ->]. rewrite Hcs, app_assoc, last_snoc in Hl. injection Hl as ->. set_solver.
    - by apply last_None in Hl'. }
  rewrite list.Forall_forall in Hvalid, Hall. destruct (Hvalid l Hin) as (_ & _ & Hlv & _).
  destruct (Hall l) as [_ Hl2]; [rewrite Hcs; set_solver|]. lia.
Qed.

Lemma DamAutomata_create_usig_fuel a h v : DamAutomata_create_usig a h v <> NoFuel.
Proof. apply outcome_bind_fuel; [apply u64_add_fuel|done]. Qed.

Lemma DamAutomata_prepare_fuel a v h j p jh : DamAutomata_prepare a v h j p jh <> NoFuel.
Proof.
  unfold DamAutomata_prepare. destruct (Justification_get_commitment j) as [sc|]; [|done].
  apply outcome_bind_fuel; [apply u64_add_fuel|]. intros u _. do 3 (destruct (negb _); [done|]).
  destruct (DamAutomata_verify_accumulator a sc) as [[]|]; [|done..]. apply DamAutomata_create_usig_fuel.
Qed.
End automata.

(** ** [NoopEnclave] *)

Section noop.
  Context {P : Profile} {B : Type} `{BitSetLaws B} `{Digests}.

#[export] Instance NoopEnclave_state : DamEnclaveState (NoopEnclave B) := {|
  de_view := da_view;
  de_inv := da_inv (Enc := NoopEnclaveTrusted B);
|}.

Lemma NoopEnclave_laws : overflow_checks = true -> DamEnclaveLaws (NoopEnclave B).
Proof.
  intros Hchecks. split.
  - done.
  - intros me n q e [= <-]. split; [|done]. unfold de_inv. simpl. unfold da_inv. simpl. unfold View_default. lia.
  - done.
  - intros e i k. simpl. unfold NoopEnclave_add_peer. destruct (negb _); [done|]. by destruct (NoopEnclaveTrusted_add_peer _ _).
  - intros e i k r e' Hi. simpl. unfold NoopEnclave_add_peer. destruct (negb _); [by intros [= <- <-]|].
    destruct (NoopEnclaveTrusted_add_peer _ _) as [b t]. by intros [= <- <-].
  - intros e cs. exact (DamAutomata_accumulate_fuel (B := B) (Enc := NoopEnclaveTrusted B) e cs).
  - intros e cs r e'. exact (DamAutomata_accumulate_ok (B := B) (Enc := NoopEnclaveTrusted B) Hchecks e cs r e').
  - intros e v h j p jh. exact (DamAutomata_prepare_fuel (Enc := NoopEnclaveTrusted B) e v h j p jh).
  - intros e v h j p jh c e'. exact (DamAutomata_prepare_ok (Enc := NoopEnclaveTrusted B) Hchecks e v h j p jh c e').
  - intros e. exact (DamAutomata_create_usig_fuel (Enc := NoopEnclaveTrusted B) e _ _).
  - intros e c e'. exact (DamAutomata_re_sign_ok (Enc := NoopEnclaveTrusted B) Hchecks e c e').
Qed.
End noop.
