(* ===== verification/DamBlockstore.v ===== *)
(** * Damysus: blocks and the block store

    Models [src/atomic-broadcast/damysus/damysus/src/blockstore.rs].

    [bl_precomputed_hash] is the cell of [hash_value].  The genesis block is
    created with a value in it, every other block without; filling it on the
    first call is not a state change, as it then holds what the function
    returns.  Neither it nor [bl_executed] is serialised: [Block_received] is
    a block that came over the network.

    [Blockstore] is the vector of optional blocks indexed by view; the facts at
    the end read it as a finite map. *)

From Stdlib Require Import ZArith Lia.
From stdpp Require Import base list numbers option fin_maps gmap.
From S2P Require Import Prelude Ids Heaps DamBase.

Section blockstore.
  Context {P : Profile} `{Digests} {Tx Sig : Type} (sig_bytes : Sig -> list N).

Record Block := mkBlock {
  bl_creator : N;
  bl_view : N;
  bl_justification : Justification Sig;
  bl_parent : Parent;
  bl_transactions : list Tx;
  bl_precomputed_hash : option BlockHash;
  bl_executed : bool;
}.
#[export] Instance Block_eta : Eta Block := fun b => mkBlock
  (bl_creator b) (bl_view b) (bl_justification b) (bl_parent b) (bl_transactions b)
  (bl_precomputed_hash b) (bl_executed b).

Definition Block_genesis : Block := {|
  bl_creator := 0;
  bl_view := View_default;
  bl_justification := Genesis;
  bl_parent := Parent_None;
  bl_transactions := [];
  bl_precomputed_hash := Some BlockHash_genesis;
  bl_executed := false;
|}.

Definition Block_new (creator view : N) (justification : Justification Sig) (parent : Parent)
    (transactions : list Tx) : Block :=
  mkBlock creator view justification parent transactions None false.

(** [#[serde(skip)]]: what a peer receives of a block. *)
Definition Block_received (b : Block) : Block :=
  b.[bl_precomputed_hash := None].[bl_executed := false].

Definition Block_hash_value (b : Block) : BlockHash :=
  match bl_precomputed_hash b with
  | Some h => h
  | None =>
      sha256 (to_le_bytes (bl_creator b) ++ View_hash (bl_view b)
              ++ Justification_hash sig_bytes (bl_justification b) ++ Parent_hash (bl_parent b))
  end.

Definition Block_execute (b : Block) : Block := b.[bl_executed := true].
Definition Block_not_executed (b : Block) : Block := b.[bl_executed := false].
Definition Block_is_executed (b : Block) : bool := bl_executed b.
Definition Block_is_genesis (b : Block) : bool := Justification_is_genesis (bl_justification b).

#[export] Instance Block_Keyable : Keyable Block N := bl_view.

(** [Ord], on which [Eq] rests: the view, then the hash. *)
Definition Block_cmp (b other : Block) : comparison :=
  if (bl_view b =? bl_view other)%N
  then BlockHash_cmp (Block_hash_value b) (Block_hash_value other)
  else (bl_view b ?= bl_view other)%N.

(** ** [Blockstore] *)

Definition Blockstore : Type := list (option Block).

Definition Blockstore_default : Blockstore := [Some Block_genesis].

Definition Blockstore_insert (blocks : Blockstore) (block : Block) : Outcome Blockstore :=
  let view := bl_view block in
  let blocks :=
    if (N.of_nat (length blocks) <? view)%N
    then blocks ++ replicate (N.to_nat (view - N.of_nat (length blocks))) None
    else blocks in
  if (view =? N.of_nat (length blocks))%N then Val (blocks ++ [Some block])
  else
    slot ← index_u64 blocks view;
    rust_assert (match slot with None => true | Some _ => false end) ;;
    assign_u64 blocks view (Some block).

Definition Blockstore_get (blocks : Blockstore) (view : N) : Outcome (option Block) :=
  top ← u64_sub (N.of_nat (length blocks)) 1;
  if (top <? view)%N then Val None else unwrap (nth_u64 blocks view).

(** [get_mut] followed by a mutation of the block it finds; the [bool] says
    whether there was one. *)
Definition Blockstore_get_mut (blocks : Blockstore) (view : N) (f : Block -> Block)
    : Outcome (bool * Blockstore) :=
  top ← u64_sub (N.of_nat (length blocks)) 1;
  if (top <? view)%N then Val (false, blocks)
  else
    slot ← unwrap (nth_u64 blocks view);
    match slot with
    | None => Val (false, blocks)
    | Some b => blocks ← assign_u64 blocks view (Some (f b)); Val (true, blocks)
    end.

(** [get_block_iterator] (debug builds), as the views of the executed blocks of
    [Damysus::get_executed_blocks]. *)
Definition Blockstore_executed (blocks : Blockstore) : list (option N) :=
  (fun o : option Block => b ← o; if Block_is_executed b then Some (bl_view b) else None) <$> blocks.

(** ** The store as a map from views to blocks *)

Implicit Types (blocks : list (option Block)) (b : Block) (v : N).

(** The block of view [v]. *)
Definition block_at (blocks : list (option Block)) v : option Block := mjoin (blocks !! N.to_nat v).

(** Well formed: not empty, indexed by view, no longer than a [u64] can count. *)
Record Blockstore_wf blocks : Prop := {
  bs_nonempty : 0 < length blocks;
  bs_view v b : block_at blocks v = Some b -> bl_view b = v;
}.

Lemma Blockstore_default_wf : Blockstore_wf Blockstore_default.
Proof.
  split; [simpl; lia|]. intros v b. unfold block_at. destruct (N.to_nat v) as [|k] eqn:Hv; simpl.
  - intros [= <-]. simpl. unfold View_default. lia.
  - by destruct k.
Qed.

Lemma block_at_ge blocks v : length blocks <= N.to_nat v -> block_at blocks v = None.
Proof. intros Hle. unfold block_at. by rewrite lookup_ge_None_2. Qed.

Lemma block_at_lookup blocks v o : blocks !! N.to_nat v = Some o -> block_at blocks v = o.
Proof. intros Ho. unfold block_at. by rewrite Ho. Qed.

Lemma Blockstore_get_spec blocks v : 0 < length blocks -> Blockstore_get blocks v = Val (block_at blocks v).
Proof.
  intros Hlen. unfold Blockstore_get. rewrite u64_sub_Val by lia. simpl.
  destruct (N.ltb_spec (N.of_nat (length blocks) - 1) v) as [Hgt|Hle]; [by rewrite block_at_ge by lia|].
  destruct (lookup_lt_is_Some_2 blocks (N.to_nat v)) as [o Ho]; [lia|].
  by rewrite nth_u64_lookup, Ho, (block_at_lookup _ _ _ Ho).
Qed.

(** [insert] stores the block under its view when there is none of that view;
    otherwise it panics. *)
Lemma Blockstore_insert_spec blocks b :
  if block_at blocks (bl_view b) is Some _ then Blockstore_insert blocks b = Panic
  else exists blocks', Blockstore_insert blocks b = Val blocks'
         /\ length blocks <= length blocks'
         /\ forall v, block_at blocks' v = if decide (v = bl_view b) then Some b else block_at blocks v.
Proof.
  unfold Blockstore_insert. set (v := bl_view b).
  set (bs := if (N.of_nat (length blocks) <? v)%N then _ else blocks).
  assert (forall w, block_at bs w = block_at blocks w) as Hat.
  { intros w. unfold bs, block_at. destruct (N.ltb_spec (N.of_nat (length blocks)) v) as [Hlt|]; [|done].
    destruct (decide (N.to_nat w < length blocks)) as [Hw|Hw]; [by rewrite lookup_app_l|].
    rewrite lookup_app_r by lia. rewrite (lookup_ge_None_2 blocks) by lia.
    destruct (replicate _ _ !! _) as [o|] eqn:Ho; [|done]. by apply lookup_replicate in Ho as [-> _]. }
  assert (length blocks <= length bs /\ N.to_nat v <= length bs) as [Hl Hv].
  { unfold bs. destruct (N.ltb_spec (N.of_nat (length blocks)) v); rewrite ?length_app, ?length_replicate; lia. }
  rewrite <-Hat. destruct (N.eqb_spec v (N.of_nat (length bs))) as [Heq|Hne].
  - rewrite block_at_ge by lia.
    eexists. split; [done|]. rewrite length_app. split; [lia|]. intros w. rewrite <-Hat. unfold block_at.
    destruct (decide (w = v)) as [->|Hw].
    + rewrite lookup_app_r by lia. replace (N.to_nat v - length bs) with 0 by lia. done.
    + destruct (decide (N.to_nat w < length bs)); [by rewrite lookup_app_l|].
      rewrite lookup_app_r by lia. rewrite (lookup_ge_None_2 bs) by lia.
      destruct (N.to_nat w - length bs) as [|k] eqn:Hk; [lia|]. done.
  - destruct (lookup_lt_is_Some_2 bs (N.to_nat v)) as [o Ho]; [lia|].
    rewrite (index_u64_Val bs v o Ho), (block_at_lookup _ _ _ Ho). simpl. destruct o as [b0|]; [done|]. simpl.
    rewrite assign_u64_Val by lia. eexists. split; [done|]. rewrite length_insert. split; [done|].
    intros w. rewrite <-Hat. unfold block_at. destruct (decide (w = v)) as [->|Hw].
    + by rewrite list_lookup_insert_eq by lia.
    + by rewrite list_lookup_insert_ne by lia.
Qed.

Lemma Blockstore_insert_wf blocks b blocks' :
  Blockstore_wf blocks -> Blockstore_insert blocks b = Val blocks' ->
  Blockstore_wf blocks' /\ block_at blocks (bl_view b) = None
  /\ forall v, block_at blocks' v = if decide (v = bl_view b) then Some b else block_at blocks v.
Proof.
  intros [Hne Hwf] Hi. pose proof (Blockstore_insert_spec blocks b) as Hs.
  destruct (block_at blocks (bl_view b)) as [b0|] eqn:Hb; [congruence|].
  destruct Hs as (bs & Hbs & Hlen & Hat). rewrite Hbs in Hi. injection Hi as ->.
  split; [split; [lia|]|done]. intros v x. rewrite Hat. destruct (decide (v = bl_view b)) as [->|]; [|apply Hwf].
  by intros [= <-].
Qed.

Lemma Blockstore_get_mut_spec blocks v f :
  0 < length blocks ->
  exists blocks', Blockstore_get_mut blocks v f = Val (bool_decide (is_Some (block_at blocks v)), blocks')
    /\ length blocks' = length blocks
    /\ forall w, block_at blocks' w = if decide (w = v) then f <$> block_at blocks w else block_at blocks w.
Proof.
  intros Hlen. unfold Blockstore_get_mut. rewrite u64_sub_Val by lia. simpl.
  destruct (N.ltb_spec (N.of_nat (length blocks) - 1) v) as [Hgt|Hle].
  - rewrite block_at_ge by lia. eexists. split; [done|]. split; [done|].
    intros w. destruct (decide (w = v)) as [->|]; [|done]. by rewrite block_at_ge by lia.
  - destruct (lookup_lt_is_Some_2 blocks (N.to_nat v)) as [o Ho]; [lia|].
    rewrite nth_u64_lookup, Ho, (block_at_lookup _ _ _ Ho). simpl. destruct o as [b|].
    + rewrite assign_u64_Val by lia. simpl. eexists. split; [done|]. rewrite length_insert. split; [done|].
      intros w. unfold block_at. destruct (decide (w = v)) as [->|Hw].
      * by rewrite list_lookup_insert_eq, Ho by lia.
      * by rewrite list_lookup_insert_ne by lia.
    + eexists. split; [done|]. split; [done|]. intros w. destruct (decide (w = v)) as [->|]; [|done].
      by rewrite (block_at_lookup _ _ _ Ho).
Qed.
End blockstore.
Arguments Block : clear implicits.
Arguments Blockstore : clear implicits.
