(* ===== verification/DamReplica.v ===== *)
(** * Damysus: the replica

    Models [Damysus] of [src/atomic-broadcast/damysus/damysus/src/lib.rs]: the
    state record and every handler.

    [add_and_prepare_block], [round_transition], [apply_commitment] and
    [create_block] call one another: inserting the block of the current view
    ends the round, and the new round replays the stored block and commitments
    of its view.  [dam_round_transition] is that recursion on fuel; the other three take
    it as an argument.  [DamInvariant] shows that the fuel [round_fuel] used
    by the handlers is never exhausted.  [sort_unstable_by_key] leaves the order
    of equal keys open, so the sorted list is a parameter with laws
    ([UnstableSort]).

    [clock k] is the value of the [k]-th reading of the clock.  Log output is not
    modelled. *)

From Stdlib Require Import ZArith Lia.
From stdpp Require Import base list gmap sets numbers option sorting.
From S2P Require Import Prelude Ids Heaps Requests DamBase DamEnclave DamBlockstore.

(** ** Damysus: messages and output

    Models [message.rs] and [output.rs] of
    [src/atomic-broadcast/damysus/damysus/src].  Durations and instants are
    numbers of nanoseconds. *)

Inductive Timeout :=
| Timeout_Set (duration : N)
| Timeout_None
| Timeout_Cancel.

#[export] Instance Timeout_eq_dec : EqDecision Timeout.
Proof. solve_decision. Defined.

Inductive MessageDestination :=
| Dest_Broadcast
| Dest_Unicast (to : N).

Section messages.
  Context {Tx Enc : Type} `{DamEnclave Enc}.

Inductive DamMessage :=
| NewBlock (block : Block Tx (de_Signature Enc)) (prepare : SignedCommitment (de_Signature Enc))
| CommitmentMsg (commitment : SignedCommitment (de_Signature Enc))
| Handshake (key : de_PublicKey Enc)
| BlockRequest (view : N)
| RequestedBlock (block : Block Tx (de_Signature Enc)).

Record DamPeerMessage := mkDamMessage { dm_from : N; dm_message : DamMessage }.

Record DamOutput := mkDamOutput {
  dout_broadcasts : list DamPeerMessage;
  dout_unicasts : list (N * DamPeerMessage);
  dout_view_timeout : Timeout;
  dout_block_timeout : Timeout;
  dout_delivery : list Tx;
  dout_ready : bool;
  dout_view : N;
  dout_decision_times : list N;
}.

Definition is_empty_list {A} (l : list A) : bool := match l with [] => true | _ :: _ => false end.

Definition DamOutput_is_empty (o : DamOutput) : bool :=
  is_empty_list (dout_broadcasts o) && is_empty_list (dout_unicasts o)
  && bool_decide (dout_view_timeout o = Timeout_None) && bool_decide (dout_block_timeout o = Timeout_None)
  && is_empty_list (dout_delivery o) && negb (dout_ready o).

Record DamUnreflected := mkDamUnreflected {
  du_reflection_messages : list DamPeerMessage;
  du_broadcasts : list DamPeerMessage;
  du_unicasts : list (N * DamPeerMessage);
  du_view_timeout : Timeout;
  du_block_timeout : Timeout;
  du_delivery : list Tx;
  du_ready : bool;
  du_decision_times : list N;
  du_me : N;
}.
#[export] Instance DamUnreflected_eta : Eta DamUnreflected := fun o => mkDamUnreflected
  (du_reflection_messages o) (du_broadcasts o) (du_unicasts o) (du_view_timeout o)
  (du_block_timeout o) (du_delivery o) (du_ready o) (du_decision_times o) (du_me o).

Definition DamUnreflected_new (me : N) : DamUnreflected :=
  mkDamUnreflected [] [] [] Timeout_None Timeout_None [] false [] me.

Definition append_peer_message (to : MessageDestination) (m : DamPeerMessage) (o : DamUnreflected)
    : DamUnreflected :=
  match to with
  | Dest_Unicast to =>
      if (to =? du_me o)%N then o.[du_reflection_messages := du_reflection_messages o ++ [m]]
      else o.[du_unicasts := du_unicasts o ++ [(to, m)]]
  | Dest_Broadcast => o.[du_broadcasts := du_broadcasts o ++ [m]]
  end.

Definition append_delivery (tx : Tx) (o : DamUnreflected) : DamUnreflected :=
  o.[du_delivery := du_delivery o ++ [tx]].
Definition set_view_timeout (timeout : N) (o : DamUnreflected) : DamUnreflected :=
  o.[du_view_timeout := Timeout_Set timeout].
Definition set_block_timeout (timeout : N) (o : DamUnreflected) : DamUnreflected :=
  o.[du_block_timeout := Timeout_Set timeout].
Definition cancel_block_timeout (o : DamUnreflected) : DamUnreflected :=
  o.[du_block_timeout := Timeout_Cancel].
Definition set_ready (o : DamUnreflected) : DamUnreflected := o.[du_ready := true].
Definition log_decision_time (now : N) (o : DamUnreflected) : DamUnreflected :=
  o.[du_decision_times := du_decision_times o ++ [now]].
End messages.
Arguments DamMessage Tx Enc {_}.
Arguments DamPeerMessage Tx Enc {_}.
Arguments DamOutput Tx Enc {_}.
Arguments DamUnreflected Tx Enc {_}.

(** ** Damysus: the replica *)

(** [slice::sort_unstable_by_key] on the key [get_prepared_block_view]. *)
Class UnstableSort := sort_unstable_by_key : forall {A}, (A -> N) -> list A -> list A.
Class UnstableSortLaws `{UnstableSort} : Prop := {
  sort_permutation {A} (key : A -> N) l : sort_unstable_by_key key l ≡ₚ l;
  sort_sorted {A} (key : A -> N) l : StronglySorted (fun x y => (key x <= key y)%N) (sort_unstable_by_key key l);
}.

(** [Duration::MAX], in nanoseconds. *)
Definition duration_max : N := u64_max * 1000000000 + 999999999.

Section replica.
  Context {P : Profile} {B Tx Enc : Type}.
  Context `{BitSet B} `{Digests} `{DamEnclave Enc} `{Transaction Tx} `{UnstableSort}.
  (** [Instant::now()] *)
  Context (clock : nat -> N).

Abbreviation SComm := (SignedCommitment (de_Signature Enc)).
Abbreviation Blk := (Block Tx (de_Signature Enc)).
Abbreviation DMsg := (DamPeerMessage Tx Enc).
Abbreviation block_hash := (Block_hash_value (@de_sig_bytes Enc _)).

Record Damysus := mkDamysus {
  dam_n : N;
  dam_quorum : N;
  dam_me : N;
  dam_view : N;
  dam_enclave : Enc;
  dam_pending_client_requests : PendingClientRequests Tx;
  dam_stored_commitments : HeapBuffer SComm (N * N);
  dam_output : DamUnreflected Tx Enc;
  dam_commitments : list SComm;
  dam_commitment_senders : IdSet B;
  dam_peers_added : N;
  dam_minimum_block_size : N;
  dam_call_try_create_block : bool;
  dam_block_timeout : N;
  dam_view_timeout : N;
  dam_initial_view_timeout : N;
  dam_executed_transactions : gmap N N;
  dam_blockstore : Blockstore Tx (de_Signature Enc);
  dam_open_block_requests : gmap N (IdSet B);
  dam_stored_blocks : HeapBuffer Blk N;
  dam_requested_blocks : gmap N BlockHash;
  dam_last_round_finished_at : N;
  dam_ticks : nat;
}.
#[export] Instance Damysus_eta : Eta Damysus := fun s => mkDamysus
  (dam_n s) (dam_quorum s) (dam_me s) (dam_view s) (dam_enclave s) (dam_pending_client_requests s)
  (dam_stored_commitments s) (dam_output s) (dam_commitments s) (dam_commitment_senders s)
  (dam_peers_added s) (dam_minimum_block_size s) (dam_call_try_create_block s) (dam_block_timeout s)
  (dam_view_timeout s) (dam_initial_view_timeout s) (dam_executed_transactions s) (dam_blockstore s)
  (dam_open_block_requests s) (dam_stored_blocks s) (dam_requested_blocks s)
  (dam_last_round_finished_at s) (dam_ticks s).

(** [t0]: the number of clock readings before the replica is created. *)
Definition Damysus_new (t0 : nat) (me n minimum_block_size maximum_block_size block_timeout
    initial_view_timeout : N) : Outcome Damysus :=
  rust_assert (negb (maximum_block_size =? 0)%N) ;;
  rust_assert (minimum_block_size <=? maximum_block_size)%N ;;
  quorum ← u64_add (n / 2) 1;
  enclave ← de_new me n quorum;
  Val {|
    dam_n := n;
    dam_quorum := quorum;
    dam_me := me;
    dam_view := View_default;
    dam_enclave := enclave;
    dam_pending_client_requests := Pending_new maximum_block_size;
    dam_output := DamUnreflected_new me;
    dam_stored_commitments := HeapBuffer_default;
    dam_commitments := [];
    dam_commitment_senders := IdSet_with_capacity n;
    dam_peers_added := 0;
    dam_minimum_block_size := minimum_block_size;
    dam_call_try_create_block := false;
    dam_block_timeout := block_timeout;
    dam_view_timeout := initial_view_timeout;
    dam_executed_transactions := ∅;
    dam_blockstore := Blockstore_default;
    dam_open_block_requests := ∅;
    dam_stored_blocks := HeapBuffer_default;
    dam_requested_blocks := ∅;
    dam_initial_view_timeout := initial_view_timeout;
    dam_last_round_finished_at := clock t0;
    dam_ticks := S t0;
  |}.

(** ** Helpers: output, clock, enclave and store *)

Definition dam_broadcast (m : DamMessage Tx Enc) : St Damysus () :=
  me ← self dam_me;
  dam_output <~> append_peer_message Dest_Broadcast (mkDamMessage me m).
Definition dam_unicast (to : N) (m : DamMessage Tx Enc) : St Damysus () :=
  me ← self dam_me;
  dam_output <~> append_peer_message (Dest_Unicast to) (mkDamMessage me m).

Definition dam_now : St Damysus N :=
  k ← self dam_ticks;
  dam_ticks <~ S k ;;
  mret (clock k).
Definition dam_elapsed (since : N) : St Damysus N := t ← dam_now; mret (t - since)%N.

Definition dam_enclave_call {A} (f : Enc -> Outcome (A * Enc)) : St Damysus A :=
  zoom dam_enclave (fun s e => s.[dam_enclave := e]) f.

(** [expect] on the result of an enclave call. *)
Definition expect {A E} (r : Result A E) : Outcome A :=
  match r with Ok a => Val a | Err _ => Panic end.

Definition stored_block (view : N) : St Damysus (option Blk) :=
  inspect (fun s => Blockstore_get (dam_blockstore s) view).

Definition store_block (block : Blk) : St Damysus () :=
  update (fun s : Damysus => bs ← Blockstore_insert (dam_blockstore s) block; Val s.[dam_blockstore := bs]).

Definition verify_signed (c : SComm) : St Damysus bool :=
  inspect (fun s => de_verify_untrusted (dam_enclave s) (SC_get_creator c) (SC_hash_value c) (SC_get_signature c)).

Definition is_view_lead_by_me (view : N) : St Damysus bool :=
  inspect (fun s => leader ← View_get_view_leader view (dam_n s); Val (leader =? dam_me s)%N).

(** [full_block_or_at_least] of the pending requests. *)
Definition enough_requests : St Damysus bool :=
  inspect (fun s => Pending_full_block_or_at_least (dam_pending_client_requests s) (dam_minimum_block_size s)).

(** ** Execution *)

Definition execute_transactions (txs : list Tx) : St Damysus () :=
  st_for txs (fun tx =>
    last ← self dam_executed_transactions;
    match deliver_tx last tx with
    | None => mret ()
    | Some last =>
        dam_executed_transactions <~ last ;;
        dam_output <~> append_delivery tx
    end).

Definition execute_block (block_view : N) : St Damysus () :=
  block ← stored_block block_view;
  block ← lift (unwrap block);
  update (fun s : Damysus =>
    r ← Blockstore_get_mut (dam_blockstore s) block_view Block_execute;
    Val s.[dam_blockstore := r.2]) ;;
  execute_transactions (bl_transactions block).

(** The loop of [try_execute_from]: the views to execute, last first, or [None]
    when a block on the way is missing. *)
Fixpoint to_execute_loop (fuel : nat) (blocks : Blockstore Tx (de_Signature Enc)) (block_view : N)
    (to_execute : list N) : Outcome (option (list N)) :=
  match fuel with
  | O => NoFuel
  | S fuel =>
      o ← Blockstore_get blocks block_view;
      match o with
      | None => Val None
      | Some block =>
          if Block_is_executed block then Val (Some to_execute)
          else if Block_is_genesis block then Val (Some to_execute)
          else
            c ← unwrap (Justification_get_commitment (bl_justification block));
            to_execute_loop fuel blocks (SC_get_block_view c) (to_execute ++ [block_view])
      end
  end.

(** Every turn goes to another view of the store when justifications name
    earlier views ([DamInvariant]). *)
Definition execute_fuel (blocks : Blockstore Tx (de_Signature Enc)) : nat := S (length blocks).

Definition try_execute_from (block_view : N) : St Damysus () :=
  r ← inspect (fun s => to_execute_loop (execute_fuel (dam_blockstore s)) (dam_blockstore s) block_view []);
  match r with
  | None => mret ()
  | Some to_execute =>
      t ← dam_now;
      dam_output <~> log_decision_time t ;;
      st_for (reverse to_execute) execute_block
  end.

(** ** Blocks and rounds *)

(** Ask for the block of [view] with hash [hash], unless it was asked for. *)
Definition request_block (view : N) (hash : BlockHash) : St Damysus () :=
  requested ← self dam_requested_blocks;
  match requested !! view with
  | Some _ => mret ()
  | None =>
      dam_requested_blocks <~ <[view := hash]> requested ;;
      dam_broadcast (BlockRequest view)
  end.

(** Execute when the justification chain of [block] is its parent chain. *)
Definition try_execute_chain (block : Blk) (accumulator : SComm) : St Damysus () :=
  justification_block ← stored_block (SC_get_block_view accumulator);
  match justification_block with
  | None => mret ()
  | Some justification_block =>
      match bl_justification justification_block with
      | Genesis => mret ()
      | Quorum grand_justification =>
          grand_justification_block ← stored_block (SC_get_block_view grand_justification);
          match grand_justification_block with
          | None => mret ()
          | Some grand_justification_block =>
              if Parent_eq_hash (bl_parent block) (block_hash justification_block)
                 && Parent_eq_hash (bl_parent justification_block) (block_hash grand_justification_block)
              then try_execute_from (bl_view grand_justification_block)
              else mret ()
          end
      end
  end.

Section rounds.
  (** [round_transition(false)] *)
  Variable transition : St Damysus ().

Definition add_and_prepare_block (block : Blk) : St Damysus (option SComm) :=
  let block := Block_not_executed block in
  accumulator ← lift (unwrap (Justification_get_commitment (bl_justification block)));
  match bl_parent block with
  | Parent_Some hash =>
      pre_view ← lift (unwrap (View_get_predecessor (bl_view block)));
      pre ← stored_block pre_view;
      match pre with
      | None => request_block pre_view hash
      | Some _ => mret ()
      end
  | Parent_None => mret ()
  end ;;
  justified ← stored_block (SC_get_block_view accumulator);
  match justified with
  | None => request_block (SC_get_block_view accumulator) (SC_get_block_hash accumulator)
  | Some _ => mret ()
  end ;;
  view ← self dam_view;
  if negb (view =? bl_view block)%N then
    store_block block ;;
    mret None
  else
    r ← dam_enclave_call (fun e => de_prepare e (bl_view block) (block_hash block) (bl_justification block)
                                     (bl_parent block) (SC_get_block_hash accumulator));
    prepare ← lift (expect r);
    usable_for ← lift (SC_get_view_usable_for prepare);
    n ← self dam_n;
    leader ← lift (View_get_view_leader usable_for n);
    dam_unicast leader (CommitmentMsg prepare) ;;
    try_execute_chain block accumulator ;;
    store_block block ;;
    transition ;;
    mret (Some prepare).

Definition create_block : St Damysus () :=
  dam_call_try_create_block <~ false ;;
  dam_commitments <~> sort_unstable_by_key SC_get_prepared_block_view ;;
  commitments ← self dam_commitments;
  r ← dam_enclave_call (fun e => de_accumulate e commitments);
  accumulator ← lift (expect r);
  executed ← self dam_executed_transactions;
  dam_pending_client_requests <~> Pending_filter_front (fun tx =>
    match executed !! client_id tx with
    | Some last_req_id => negb (request_id tx <=? last_req_id)%N
    | None => true
    end) ;;
  pending ← self dam_pending_client_requests;
  let txs_temp := Pending_copy_front pending in
  view ← self dam_view;
  pre_view ← lift (unwrap (View_get_predecessor view));
  parent_block ← stored_block pre_view;
  let parent :=
    match parent_block with
    | Some parent_block => Parent_Some (block_hash parent_block)
    | None => Parent_None
    end in
  me ← self dam_me;
  let block := Block_new me view (Quorum accumulator) parent txs_temp in
  prepare ← add_and_prepare_block block;
  prepare ← lift (unwrap prepare);
  lift (rust_assert (SC_is_usig prepare)) ;;
  dam_broadcast (NewBlock block prepare).

Definition apply_commitment (commitment : SComm) : St Damysus () :=
  senders ← self dam_commitment_senders;
  if IdSet_contains senders (SC_get_creator commitment) then mret ()
  else
    known ← stored_block (SC_get_block_view commitment);
    if match known with
       | Some block => negb (bool_decide (SC_get_block_hash commitment = block_hash block))
       | None => false
       end then mret ()
    else
      dam_commitment_senders <~> (fun s => (IdSet_insert s (SC_get_creator commitment)).2) ;;
      dam_commitments <~> (fun cs => cs ++ [commitment]) ;;
      commitments ← self dam_commitments;
      quorum ← self dam_quorum;
      if (N.of_nat (length commitments) <? quorum)%N then mret ()
      else
        since ← self dam_last_round_finished_at;
        block_timeout ← self dam_block_timeout;
        passed ← dam_elapsed since;
        create ← (if (block_timeout <? passed)%N then mret true else enough_requests);
        if (create : bool) then create_block
        else
          dam_call_try_create_block <~ true ;;
          passed ← dam_elapsed since;
          dam_output <~> set_block_timeout (default 0 (checked_sub block_timeout passed))%N.

(** [while let Some(commitment) = self.stored_commitments.peek()] *)
Fixpoint replay_commitments (fuel : nat) : St Damysus () :=
  match fuel with
  | O => lift NoFuel
  | S fuel =>
      stored ← self dam_stored_commitments;
      match HeapBuffer_peek stored with
      | None => mret ()
      | Some commitment =>
          usable_for ← lift (SC_get_view_usable_for commitment);
          view ← self dam_view;
          lead ← (if (usable_for <? view)%N then mret false else is_view_lead_by_me usable_for);
          if (usable_for <? view)%N || negb lead then
            dam_stored_commitments <~ (HeapBuffer_pop stored).2 ;;
            replay_commitments fuel
          else if (view <? usable_for)%N then mret ()
          else
            commitment ← lift (unwrap (HeapBuffer_pop stored).1);
            dam_stored_commitments <~ (HeapBuffer_pop stored).2 ;;
            apply_commitment commitment ;;
            replay_commitments fuel
      end
  end.

(** Replaying the stored block of the current view, at a round transition and
    after a requested block arrived. *)
Definition replay_block : St Damysus () :=
  stored ← self dam_stored_blocks;
  match HeapBuffer_peek stored with
  | None => mret ()
  | Some block =>
      view ← self dam_view;
      if (bl_view block =? view)%N then
        block ← lift (unwrap (HeapBuffer_pop stored).1);
        dam_stored_blocks <~ (HeapBuffer_pop stored).2 ;;
        _ ← add_and_prepare_block block;
        mret ()
      else mret ()
  end.

(** [round_transition] without its recursive calls: the timeout of the next view
    and the reset of the round's state. *)
Definition next_view_timeout (timeout : bool) (s : Damysus) : Outcome N :=
  if timeout then
    Val (if (dam_view_timeout s * 2 <=? duration_max)%N then dam_view_timeout s * 2 else duration_max)%N
  else if (dam_view_timeout s <? dam_initial_view_timeout s)%N then Panic
  else Val (N.max (dam_initial_view_timeout s) (dam_view_timeout s - dam_initial_view_timeout s)).

Definition enter_next_view (timeout : bool) : St Damysus () :=
  view_timeout ← inspect (next_view_timeout timeout);
  dam_view_timeout <~ view_timeout ;;
  update (fun s : Damysus => view ← View_increment (dam_view s); Val s.[dam_view := view]) ;;
  dam_commitment_senders <~> IdSet_clear ;;
  dam_commitments <~ [] ;;
  t ← dam_now;
  dam_last_round_finished_at <~ t ;;
  dam_output <~> cancel_block_timeout ;;
  dam_output <~> set_view_timeout view_timeout.
End rounds.

Fixpoint dam_round_transition (fuel : nat) (timeout : bool) : St Damysus () :=
  match fuel with
  | O => lift NoFuel
  | S fuel =>
      enter_next_view timeout ;;
      replay_block (dam_round_transition fuel false) ;;
      stored ← self dam_stored_commitments;
      replay_commitments (dam_round_transition fuel false) (S (length (hb_buffer stored)))
  end.

(** A round transition consumes a stored block or a stored commitment for every
    round transition it calls. *)
Definition round_fuel (s : Damysus) : nat :=
  S (length (hb_buffer (dam_stored_blocks s)) + length (hb_buffer (dam_stored_commitments s))).

Definition round_transition (timeout : bool) : St Damysus () := fun s =>
  dam_round_transition (round_fuel s) timeout s.

Definition new_view : St Damysus () :=
  r ← dam_enclave_call de_re_sign_last_prepared;
  new_view ← lift (expect r);
  usable_for ← lift (SC_get_view_usable_for new_view);
  n ← self dam_n;
  leader ← lift (View_get_view_leader usable_for n);
  dam_unicast leader (CommitmentMsg new_view) ;;
  round_transition true.

(** ** Messages *)

(** Answering the open requests for a block. *)
Definition answer_block_requests (block : Blk) : St Damysus () :=
  requests ← self dam_open_block_requests;
  match requests !! bl_view block with
  | None => mret ()
  | Some senders =>
      dam_open_block_requests <~ delete (bl_view block) requests ;;
      st_for (IdSet_iter senders) (fun to => dam_unicast to (RequestedBlock block))
  end.

(** The checks of [process_block], in its order. *)
Definition block_checks (block : Blk) (prepare : SComm) : St Damysus bool :=
  match Justification_get_commitment (bl_justification block) with
  | None => mret false
  | Some accumulator =>
      if negb (SC_is_accumulator accumulator) then mret false
      else
        usable_for ← lift (SC_get_view_usable_for accumulator);
        if negb (usable_for =? bl_view block)%N then mret false
        else
          valid ← verify_signed accumulator;
          if negb valid then mret false
          else if negb (SC_is_usig prepare) then mret false
          else if negb (SC_is_prepare prepare) then mret false
          else if negb (bool_decide (SC_get_block_hash prepare = block_hash block)) then mret false
          else if negb (SC_get_view prepare =? bl_view block)%N then mret false
          else verify_signed prepare
  end.

Definition process_block (block : Blk) (prepare : SComm) : St Damysus () :=
  view ← self dam_view;
  known ← (if (bl_view block <? view)%N then
             existing ← stored_block (bl_view block);
             match existing with
             | None => mret false
             | Some existing_block =>
                 if negb (bool_decide (block_hash existing_block = block_hash block)) then lift Panic
                 else mret true
             end
           else mret false);
  if (known : bool) then mret ()
  else
    ok ← block_checks block prepare;
    if negb ok then mret ()
    else
      answer_block_requests block ;;
      dam_requested_blocks <~> delete (bl_view block) ;;
      view ← self dam_view;
      if (view <? bl_view block)%N then
        stored ← self dam_stored_blocks;
        if HeapBuffer_knows stored block then mret ()
        else update (fun s : Damysus => b ← HeapBuffer_insert (dam_stored_blocks s) block;
                                        Val s.[dam_stored_blocks := b])
      else
        _ ← add_and_prepare_block (round_transition false) block;
        mret ().

Definition process_commitment (from : N) (commitment : SComm) : St Damysus () :=
  if negb (from =? SC_get_creator commitment)%N then mret ()
  else
    usable_for ← lift (SC_get_view_usable_for commitment);
    view ← self dam_view;
    if (usable_for <? view)%N then mret ()
    else
      valid ← verify_signed commitment;
      if negb valid then mret ()
      else
        lead ← is_view_lead_by_me usable_for;
        if negb lead then mret ()
        else if negb (SC_is_usig commitment) then mret ()
        else if (view <? usable_for)%N then
          stored ← self dam_stored_commitments;
          if HeapBuffer_knows stored commitment then mret ()
          else update (fun s : Damysus => b ← HeapBuffer_insert (dam_stored_commitments s) commitment;
                                          Val s.[dam_stored_commitments := b])
        else apply_commitment (round_transition false) commitment.

Definition process_handshake (from : N) (key : de_PublicKey Enc) : St Damysus () :=
  r ← dam_enclave_call (fun e => de_add_peer e from key);
  match r with
  | Err DoubleKeyReceived => mret ()
  | Err _ => lift Panic
  | Ok _ =>
      update (fun s : Damysus => k ← u64_add (dam_peers_added s) 1; Val s.[dam_peers_added := k]) ;;
      added ← self dam_peers_added;
      n ← self dam_n;
      if (added =? n)%N then
        new_view ;;
        dam_output <~> set_ready
      else mret ()
  end.

Definition process_block_request (from block_view : N) : St Damysus () :=
  block ← stored_block block_view;
  match block with
  | Some block => dam_unicast from (RequestedBlock block)
  | None =>
      stored ← self dam_stored_blocks;
      if HeapBuffer_knows_key stored block_view then
        block ← lift (unwrap (HeapBuffer_find_by_key stored block_view));
        dam_unicast from (RequestedBlock block)
      else
        n ← self dam_n;
        dam_open_block_requests <~> (fun m =>
          <[block_view := (IdSet_insert (default (IdSet_with_capacity n) (m !! block_view)) from).2]> m)
  end.

Definition process_requested_block (block : Blk) : St Damysus () :=
  requested ← self dam_requested_blocks;
  match requested !! bl_view block with
  | None => mret ()
  | Some hash =>
      dam_requested_blocks <~ delete (bl_view block) requested ;;
      if negb (bool_decide (hash = block_hash block)) then mret ()
      else
        existing ← stored_block (bl_view block);
        match existing with
        | Some _ => lift Panic
        | None =>
            _ ← add_and_prepare_block (round_transition false) block;
            replay_block (round_transition false)
        end
  end.

(** ** Entry points *)

Definition dam_dispatch (m : DMsg) : St Damysus () :=
  match dm_message m with
  | NewBlock block prepare => process_block block prepare
  | CommitmentMsg commitment => process_commitment (dm_from m) commitment
  | Handshake key => process_handshake (dm_from m) key
  | BlockRequest block_view => process_block_request (dm_from m) block_view
  | RequestedBlock block => process_requested_block block
  end.

(** The output of one reflected message joined to what was collected. *)
Definition dam_append_output (o r : DamOutput Tx Enc) : DamOutput Tx Enc := {|
  dout_broadcasts := dout_broadcasts o ++ dout_broadcasts r;
  dout_unicasts := dout_unicasts o ++ dout_unicasts r;
  dout_view_timeout := dout_view_timeout r;
  dout_block_timeout := dout_block_timeout r;
  dout_delivery := dout_delivery o ++ dout_delivery r;
  dout_ready := dout_ready o || dout_ready r;
  dout_view := N.max (dout_view o) (dout_view r);
  dout_decision_times := dout_decision_times o ++ dout_decision_times r;
|}.

Fixpoint dam_reflect_messages (process : DMsg -> St Damysus (DamOutput Tx Enc)) (ms : list DMsg)
    (o : DamOutput Tx Enc) : St Damysus (DamOutput Tx Enc) :=
  match ms with
  | [] => mret o
  | to_reflect :: ms => r ← process to_reflect; dam_reflect_messages process ms (dam_append_output o r)
  end.

(** [reflect] with the nesting of reflections bounded by [fuel]. *)
Fixpoint dam_reflect (fuel : nat) : St Damysus (DamOutput Tx Enc) :=
  match fuel with
  | O => lift NoFuel
  | S fuel =>
      o ← self dam_output;
      me ← self dam_me;
      dam_output <~ DamUnreflected_new me ;;
      view ← self dam_view;
      dam_reflect_messages (fun m => dam_dispatch m ;; dam_reflect fuel) (du_reflection_messages o)
        (mkDamOutput (du_broadcasts o) (du_unicasts o) (du_view_timeout o) (du_block_timeout o)
           (du_delivery o) (du_ready o) view (du_decision_times o))
  end.

Definition dam_process_peer_message (fuel : nat) (m : DMsg) : St Damysus (DamOutput Tx Enc) :=
  dam_dispatch m ;; dam_reflect fuel.

Definition dam_init_handshake (fuel : nat) : St Damysus (DamOutput Tx Enc) :=
  key ← inspect (fun s => expect (de_get_public_key (dam_enclave s)));
  me ← self dam_me;
  r ← dam_enclave_call (fun e => de_add_peer e me key);
  _ ← lift (expect r);
  update (fun s : Damysus => k ← u64_add (dam_peers_added s) 1; Val s.[dam_peers_added := k]) ;;
  dam_broadcast (Handshake key) ;;
  dam_reflect fuel.

Definition dam_receive_client_request (fuel : nat) (request : Tx) : St Damysus (DamOutput Tx Enc) :=
  update (fun s : Damysus => p ← Pending_insert (dam_pending_client_requests s) request;
                             Val s.[dam_pending_client_requests := p]) ;;
  call ← self dam_call_try_create_block;
  (if (call : bool) then
     enough ← enough_requests;
     create ← (if (enough : bool) then mret true
               else since ← self dam_last_round_finished_at;
                    block_timeout ← self dam_block_timeout;
                    passed ← dam_elapsed since;
                    mret (block_timeout <? passed)%N);
     if (create : bool) then create_block (round_transition false) else mret ()
   else
     view ← self dam_view;
     _ ← is_view_lead_by_me view;
     mret ()) ;;
  dam_reflect fuel.

Definition handle_block_timeout (fuel : nat) : St Damysus (DamOutput Tx Enc) :=
  call ← self dam_call_try_create_block;
  (if negb call then mret () else create_block (round_transition false)) ;;
  dam_reflect fuel.

Definition handle_view_timeout (fuel : nat) : St Damysus (DamOutput Tx Enc) :=
  view ← self dam_view;
  lead ← is_view_lead_by_me view;
  if (lead : bool) then dam_reflect fuel
  else new_view ;; dam_reflect fuel.

Definition get_executed_blocks (s : Damysus) : list (option N) := Blockstore_executed (dam_blockstore s).
End replica.
Arguments Damysus B Tx Enc {_}.
