(* ===== verification/DamInvariant.v ===== *)
(** * Damysus: the invariant of a replica

    [dam_inv] ties the block store, the execution log, the view, the enclave and
    the collected and stored commitments together.  Every handler keeps it, and
    none of the recursions of a handler runs out of fuel ([triple]): the replay
    of a round consumes the stored blocks and commitments.

    The assumption on the environment is [dam_trusted]: a received block's
    justification, and a received commitment, refer to no later view than their
    own.  The enclave makes only such commitments ([DamEnclaveFacts]), but the hash it
    signs does not cover these fields. *)

From Stdlib Require Import ZArith Lia.
From stdpp Require Import base list gmap sets numbers option relations.
From S2P Require Import Prelude Ids Heaps Requests Triple DamBase DamEnclave DamEnclaveFacts DamBlockstore.
From S2P Require Import DamReplica.

(** ** Damysus: executing blocks

    [to_execute_loop] collects the blocks from a view back along the
    justifications to the last executed one ([exec_chain]); it needs no more
    fuel than [execute_fuel] when justifications name earlier views
    ([chain_ok]).  [exec_log] says what a replica has executed and delivered:
    each block once, after the block that justifies it, and of the transactions
    those that pass the deduplication; executing a chain keeps it. *)

Section store.
  Context {P : Profile} {Tx Sig : Type}.
  Implicit Types (bs : list (option (Block Tx Sig))) (b : Block Tx Sig) (u v w : N).

Definition executed_at bs v : Prop := exists b, block_at bs v = Some b /\ bl_executed b = true.
Definition genesis_at bs v : Prop := exists b, block_at bs v = Some b /\ bl_justification b = Genesis.
(** The block of view [v] is justified by a commitment to the block of view [u]. *)
Definition justified bs v u : Prop :=
  exists b c, block_at bs v = Some b /\ bl_justification b = Quorum c /\ SC_get_block_view c = u.
Definition chain_ok bs : Prop := forall v u, justified bs v u -> (u < v)%N.

(** The same blocks, up to what is marked as executed. *)
Definition same_blocks bs bs' : Prop :=
  length bs = length bs' /\ forall v, Block_not_executed <$> block_at bs v = Block_not_executed <$> block_at bs' v.

Lemma same_blocks_refl bs : same_blocks bs bs.
Proof. done. Qed.
Lemma same_blocks_trans bs1 bs2 bs3 : same_blocks bs1 bs2 -> same_blocks bs2 bs3 -> same_blocks bs1 bs3.
Proof. intros [? H1] [? H2]. split; [congruence|]. intros v. by rewrite H1, H2. Qed.
Lemma same_blocks_sym bs bs' : same_blocks bs bs' -> same_blocks bs' bs.
Proof. intros [? H1]. by split; [|intros v; rewrite H1]. Qed.

Lemma same_blocks_at bs bs' v b :
  same_blocks bs bs' -> block_at bs v = Some b ->
  exists b', block_at bs' v = Some b' /\ bl_justification b' = bl_justification b
    /\ bl_transactions b' = bl_transactions b /\ bl_view b' = bl_view b.
Proof.
  intros [_ Hs] Hb. specialize (Hs v). rewrite Hb in Hs. destruct (block_at bs' v) as [b'|]; [|done].
  apply Some_inj in Hs. exists b'. split_and!; [done|exact (eq_sym (f_equal bl_justification Hs))
    |exact (eq_sym (f_equal bl_transactions Hs))|exact (eq_sym (f_equal bl_view Hs))].
Qed.

Lemma same_blocks_justified bs bs' v u : same_blocks bs bs' -> justified bs v u -> justified bs' v u.
Proof.
  intros Hs (b & c & Hb & Hj & Hu). destruct (same_blocks_at _ _ _ _ Hs Hb) as (b' & Hb' & Hj' & _).
  exists b', c. by rewrite Hj'.
Qed.

Lemma same_blocks_genesis bs bs' v : same_blocks bs bs' -> genesis_at bs v -> genesis_at bs' v.
Proof.
  intros Hs (b & Hb & Hj). destruct (same_blocks_at _ _ _ _ Hs Hb) as (b' & Hb' & Hj' & _).
  exists b'. by rewrite Hj'.
Qed.

Lemma same_blocks_chain bs bs' : same_blocks bs bs' -> chain_ok bs -> chain_ok bs'.
Proof. intros Hs Hc v u Hj. apply Hc. by eapply same_blocks_justified; [apply same_blocks_sym|]. Qed.

Lemma same_blocks_wf bs bs' : same_blocks bs bs' -> Blockstore_wf bs -> Blockstore_wf bs'.
Proof.
  intros Hs [Hne Hv]. split; [destruct Hs as [<- _]; done|]. intros v b' Hb'.
  destruct (same_blocks_at bs' bs v b') as (b & Hb & _ & _ & <-); [by apply same_blocks_sym|done|]. by apply Hv.
Qed.

(** Marking one block as executed. *)
Lemma execute_at bs v b :
  0 < length bs -> block_at bs v = Some b ->
  exists bs', Blockstore_get_mut bs v Block_execute = Val (true, bs') /\ same_blocks bs bs'
    /\ forall w, executed_at bs' w <-> executed_at bs w \/ w = v.
Proof.
  intros Hne Hb. destruct (Blockstore_get_mut_spec bs v Block_execute Hne) as (bs' & Hg & Hlen & Hat).
  exists bs'. rewrite Hb in Hg. rewrite bool_decide_eq_true_2 in Hg by done. split; [done|]. split.
  - split; [done|]. intros w. rewrite Hat. destruct (decide (w = v)) as [->|]; [|done]. by rewrite Hb.
  - intros w. unfold executed_at. rewrite Hat. destruct (decide (w = v)) as [->|Hne'].
    + split; [by right|]. intros _. rewrite Hb. eexists. by split.
    + naive_solver.
Qed.

(** ** The blocks to execute *)

(** The chain from [v] back to an executed block or the genesis block, last first. *)
Inductive exec_chain bs : N -> list N -> Prop :=
| ec_stop v : executed_at bs v \/ genesis_at bs v -> exec_chain bs v []
| ec_step v u l : ~ executed_at bs v -> justified bs v u -> exec_chain bs u l -> exec_chain bs v (v :: l).

Lemma exec_chain_below bs v l : chain_ok bs -> exec_chain bs v l ->
  NoDup l /\ forall w, w ∈ l -> (w <= v)%N /\ ~ executed_at bs w.
Proof.
  intros Hc. induction 1 as [v _|v u l Hx Hj _ [IHn IH]].
  { split; [constructor|]. by intros w ?%not_elem_of_nil. }
  pose proof (Hc _ _ Hj) as Hlt. split.
  - apply list.NoDup_cons. split; [|done]. intros Hin. apply IH in Hin. lia.
  - intros w [->|Hw]%elem_of_cons; [split; [lia|done]|]. apply IH in Hw as [? ?]. split; [lia|done].
Qed.
End store.

Section loop.
  Context {P : Profile} {B Tx Enc : Type}.
  Context `{BitSet B} `{Digests} `{DamEnclave Enc} `{Transaction Tx} `{UnstableSort}.
  Context (clock : nat -> N).
  Abbreviation store := (list (option (Block Tx (de_Signature Enc)))).
  Implicit Types (bs : store) (v : N) (s : Damysus B Tx Enc).

(** The chain is determined by where it starts. *)
Lemma exec_chain_step bs v u l :
  ~ executed_at bs v -> justified bs v u -> exec_chain bs v l -> exists l', l = v :: l' /\ exec_chain bs u l'.
Proof.
  intros Hx (b & c & Hb & Hj & Hu) Hch. inversion Hch as [? Hst|? u' l' _ (b' & c' & Hb' & Hj' & Hu') Hch']; subst.
  - destruct Hst as [?|(b' & Hb' & Hj')]; [done|]. congruence.
  - exists l'. split; [done|]. assert (c' = c) as -> by congruence. done.
Qed.

Lemma exec_chain_at bs v l : exec_chain bs v l -> is_Some (block_at bs v).
Proof. destruct 1 as [? [(b & -> & _)|(b & -> & _)]|? ? ? ? (b & c & -> & _) ?]; by eexists. Qed.

Lemma to_execute_loop_spec fuel bs v acc :
  chain_ok bs -> 0 < length bs -> 0 < fuel -> (is_Some (block_at bs v) -> N.to_nat v < fuel) ->
  exists r, to_execute_loop fuel bs v acc = Val r
    /\ (forall l, r = Some l -> exists ext, l = acc ++ ext /\ exec_chain bs v ext)
    /\ (r = None -> forall l, ~ exec_chain bs v l).
Proof.
  intros Hc Hne. revert v acc. induction fuel as [|fuel IH]; intros v acc Hpos Hf; [lia|]. simpl.
  rewrite Blockstore_get_spec by done. simpl. destruct (block_at bs v) as [b|] eqn:Hb.
  2:{ eexists. split; [done|]. split; [done|]. intros _ l Hl%exec_chain_at. by rewrite Hb in Hl; destruct Hl. }
  unfold Block_is_executed, Block_is_genesis. destruct (bl_executed b) eqn:Hx.
  { eexists. split; [done|]. split; [|done]. intros l [= <-]. exists []. rewrite app_nil_r. split; [done|].
    apply ec_stop. left. by exists b. }
  destruct (bl_justification b) as [|c] eqn:Hj; simpl.
  { eexists. split; [done|]. split; [|done]. intros l [= <-]. exists []. rewrite app_nil_r. split; [done|].
    apply ec_stop. right. by exists b. }
  assert (justified bs v (SC_get_block_view c)) as Hju by by exists b, c.
  assert (~ executed_at bs v) as Hnx by (intros (b' & Hb' & Hx'); congruence).
  pose proof (Hc _ _ Hju) as Hlt. assert (N.to_nat v < S fuel) as Hvf by by apply Hf.
  destruct (IH (SC_get_block_view c) (acc ++ [v])) as (r & -> & Hr & Hn); [lia|intros _; lia|].
  eexists. split; [done|]. split.
  - intros l ->. destruct (Hr l eq_refl) as (ext & -> & Hext).
    exists (v :: ext). split; [by rewrite <-app_assoc|]. by eapply ec_step.
  - intros Hnone l (l' & -> & Hl')%(exec_chain_step _ _ _ _ Hnx Hju). by eapply (Hn Hnone).
Qed.

(** A justification that names the view of its own block is followed for ever. *)
Lemma to_execute_loop_diverges bs v acc fuel :
  0 < length bs -> ~ executed_at bs v -> justified bs v v -> to_execute_loop fuel bs v acc = NoFuel.
Proof.
  intros Hne Hnx (b & c & Hb & Hj & Hu). revert acc. induction fuel as [|fuel IH]; intros acc; [done|].
  cbn [to_execute_loop]. rewrite Blockstore_get_spec, Hb by done. simpl.
  unfold Block_is_executed, Block_is_genesis. destruct (bl_executed b) eqn:Hx; [destruct Hnx; by exists b|].
  rewrite Hj. simpl. rewrite Hu. apply IH.
Qed.

(** ** The log *)

Definition log_txs bs (hist : list N) : list Tx :=
  concat ((fun v => from_option bl_transactions [] (block_at bs v)) <$> hist).

Record exec_log bs (last : gmap N N) (hist : list N) (D : list Tx) : Prop := {
  el_nodup : NoDup hist;
  el_executed v : v ∈ hist <-> executed_at bs v;
  el_order pre v post : hist = pre ++ v :: post -> exists u, justified bs v u /\ (u ∈ pre \/ genesis_at bs u);
  el_last : last = (dedup ∅ (log_txs bs hist)).1;
  el_delivered : D = (dedup ∅ (log_txs bs hist)).2;
}.

Lemma log_txs_same bs bs' hist : same_blocks bs bs' -> log_txs bs hist = log_txs bs' hist.
Proof.
  intros Hs. unfold log_txs. f_equal. apply list_fmap_ext. intros i v _.
  destruct (block_at bs v) as [b|] eqn:Hb.
  - destruct (same_blocks_at _ _ _ _ Hs Hb) as (b' & -> & _ & Ht & _). simpl. by rewrite Ht.
  - destruct Hs as [_ Hs]. specialize (Hs v). rewrite Hb in Hs. by destruct (block_at bs' v).
Qed.

Lemma log_txs_app bs h1 h2 : log_txs bs (h1 ++ h2) = log_txs bs h1 ++ log_txs bs h2.
Proof. unfold log_txs. by rewrite fmap_app, concat_app. Qed.

(** Executing the block of a view whose justification is executed. *)
Lemma exec_log_step bs bs' last hist D v b u :
  exec_log bs last hist D -> same_blocks bs bs' -> (forall w, executed_at bs' w <-> executed_at bs w \/ w = v) ->
  block_at bs v = Some b -> ~ executed_at bs v -> justified bs v u -> executed_at bs u \/ genesis_at bs u ->
  exec_log bs' (dedup last (bl_transactions b)).1 (hist ++ [v]) (D ++ (dedup last (bl_transactions b)).2).
Proof.
  intros [Hnd Hex Hord -> ->] Hs Hx Hb Hne Hj Hu.
  assert (log_txs bs [v] = bl_transactions b) as Hv by (unfold log_txs; simpl; rewrite Hb; apply app_nil_r).
  split.
  - apply list.NoDup_app. split; [done|]. split; [|apply NoDup_singleton].
    intros w Hw ->%list_elem_of_singleton. by apply Hne, Hex.
  - intros w. rewrite elem_of_app, list_elem_of_singleton, Hex, Hx. done.
  - intros pre w post Heq. destruct (decide (post = [])) as [->|Hp].
    + apply app_inj_tail in Heq as [<- <-]. exists u. split; [by eapply same_blocks_justified|].
      destruct Hu as [Hu|Hu]; [left; by apply Hex|right; by eapply same_blocks_genesis].
    + destruct (exists_last Hp) as (post' & x & ->).
      change (w :: post' ++ [x]) with ((w :: post') ++ [x]) in Heq. rewrite app_assoc in Heq.
      apply app_inj_tail in Heq as [Heq _]. destruct (Hord pre w post' Heq) as (y & Hy & Hcase).
      exists y. split; [by eapply same_blocks_justified|].
      destruct Hcase; [by left|right; by eapply same_blocks_genesis].
  - by rewrite <-(log_txs_same bs bs'), log_txs_app, Hv, dedup_app by done.
  - by rewrite <-(log_txs_same bs bs'), log_txs_app, Hv, dedup_app by done.
Qed.
End loop.

(** ** Damysus: the invariant of a replica *)

Section invariant.
  Context {P : Profile} {B Tx Enc : Type}.
  Context `{BitSetLaws B} `{Digests} `{DamEnclaveLaws Enc} `{Transaction Tx} `{UnstableSortLaws}.
  Context (clock : nat -> N) (Hchecks : overflow_checks = true).
  Abbreviation Blk := (Block Tx (de_Signature Enc)).
  Abbreviation SComm := (SignedCommitment (de_Signature Enc)).
  Implicit Types (s : Damysus B Tx Enc) (b : Blk) (c : SComm) (v : N) (D : list Tx).

Definition block_ok b : Prop :=
  match bl_justification b with
  | Genesis => True
  | Quorum c => commitment_ok c /\ (SC_get_view c < bl_view b)%N
  end.

Definition dam_trusted (m : DamPeerMessage Tx Enc) : Prop :=
  match dm_message m with
  | NewBlock b _ | RequestedBlock b => block_ok b
  | CommitmentMsg c => commitment_ok c
  | _ => True
  end.

(** [k] is one between the enclave's signature for a view and the replica's step
    to the next; [D] is what was delivered in earlier outputs. *)
Record dam_inv_upto (k : N) D s : Prop := {
  di_store : Blockstore_wf (dam_blockstore s);
  di_chain : chain_ok (dam_blockstore s);
  di_blocks v b : block_at (dam_blockstore s) v = Some b -> block_ok b;
  di_log : exists hist, exec_log (dam_blockstore s) (dam_executed_transactions s) hist
                          (D ++ du_delivery (dam_output s));
  di_enclave : de_inv (dam_enclave s);
  di_view : de_view (dam_enclave s) = (dam_view s + k)%N;
  di_timeout : (dam_initial_view_timeout s <= dam_view_timeout s <= duration_max)%N;
  di_stored_blocks : HeapBuffer_inv (dam_stored_blocks s);
  di_stored_blocks_ok b : b ∈ hb_buffer (dam_stored_blocks s) -> block_ok b;
  di_stored : HeapBuffer_inv (dam_stored_commitments s);
  di_stored_ok c : c ∈ hb_buffer (dam_stored_commitments s) -> commitment_ok c /\ SC_is_usig c = true;
  di_collected c : c ∈ dam_commitments s ->
    commitment_ok c /\ SC_is_usig c = true /\ (SC_get_view c + 1)%N = dam_view s;
  di_senders i : IdSet_contains (dam_commitment_senders s) i = true <-> i ∈ SC_get_creator <$> dam_commitments s;
  di_distinct : NoDup (SC_get_creator <$> dam_commitments s);
  di_reflection m : m ∈ du_reflection_messages (dam_output s) -> dam_trusted m;
}.
Abbreviation dam_inv := (dam_inv_upto 0).

(** What no handler takes back. *)
Record dam_grows s0 s : Prop := {
  dg_n : dam_n s = dam_n s0;
  dg_quorum : dam_quorum s = dam_quorum s0;
  dg_me : dam_me s = dam_me s0;
  dg_initial : dam_initial_view_timeout s = dam_initial_view_timeout s0;
  dg_view : (dam_view s0 <= dam_view s)%N;
  dg_store v b : block_at (dam_blockstore s0) v = Some b ->
    exists b', block_at (dam_blockstore s) v = Some b' /\ Block_not_executed b' = Block_not_executed b
      /\ (bl_executed b = true -> bl_executed b' = true);
}.

#[export] Instance dam_grows_preorder : PreOrder dam_grows.
Proof.
  split.
  - intros s. split; try done. intros v b Hb. by exists b.
  - intros s1 s2 s3 [] []. split; try congruence; [lia|].
    intros v b Hb. destruct (dg_store0 v b Hb) as (b2 & Hb2 & He2 & Hx2).
    destruct (dg_store1 v b2 Hb2) as (b3 & Hb3 & He3 & Hx3). exists b3. split; [done|]. split; [congruence|auto].
Qed.

(** The stored blocks and commitments, bounded. *)
Definition dam_size s (kb kc : nat) : Prop :=
  length (hb_buffer (dam_stored_blocks s)) <= kb /\ length (hb_buffer (dam_stored_commitments s)) <= kc.

Record dam_ok (k : N) D s0 (kb kc : nat) s : Prop := {
  ok_inv : dam_inv_upto k D s;
  ok_grows : dam_grows s0 s;
  ok_size : dam_size s kb kc;
}.

(** ** Steps that leave these fields alone *)

Record same_core s s' : Prop := {
  sc_n : dam_n s' = dam_n s;
  sc_quorum : dam_quorum s' = dam_quorum s;
  sc_me : dam_me s' = dam_me s;
  sc_view : dam_view s' = dam_view s;
  sc_enclave : dam_enclave s' = dam_enclave s;
  sc_stored : dam_stored_commitments s' = dam_stored_commitments s;
  sc_delivery : du_delivery (dam_output s') = du_delivery (dam_output s);
  sc_reflection m : m ∈ du_reflection_messages (dam_output s') ->
    m ∈ du_reflection_messages (dam_output s) \/ dam_trusted m;
  sc_commitments : dam_commitments s' = dam_commitments s;
  sc_senders : dam_commitment_senders s' = dam_commitment_senders s;
  sc_timeout : dam_view_timeout s' = dam_view_timeout s;
  sc_initial : dam_initial_view_timeout s' = dam_initial_view_timeout s;
  sc_executed : dam_executed_transactions s' = dam_executed_transactions s;
  sc_store : dam_blockstore s' = dam_blockstore s;
  sc_blocks : dam_stored_blocks s' = dam_stored_blocks s;
}.

#[export] Instance same_core_preorder : PreOrder same_core.
Proof.
  split; [intros s; split; by auto|]. intros s1 s2 s3 [] []. split; try congruence.
  intros m Hm. destruct (sc_reflection1 m Hm); auto.
Qed.

Lemma same_core_ok k D s0 kb kc s s' : same_core s s' -> dam_ok k D s0 kb kc s -> dam_ok k D s0 kb kc s'.
Proof.
  intros [] [[] Hg Hs]. unfold dam_size in *. split; [split| |]; rewrite ?sc_store0, ?sc_executed0, ?sc_delivery0,
    ?sc_enclave0, ?sc_view0, ?sc_initial0, ?sc_timeout0, ?sc_blocks0, ?sc_stored0, ?sc_commitments0, ?sc_senders0;
    try done.
  - intros m Hm. destruct (sc_reflection0 m Hm); auto.
  - destruct Hg. split; rewrite ?sc_store0, ?sc_view0; (done || congruence).
  - unfold dam_size. by rewrite sc_blocks0, sc_stored0.
Qed.

Lemma runs_core k D s0 kb kc {A} (m : St (Damysus B Tx Enc) A) :
  runs same_core m -> triple (dam_ok k D s0 kb kc) m (fun _ => dam_ok k D s0 kb kc).
Proof. intros Hm. eapply runs_triple; [exact Hm|]. intros s s'. apply same_core_ok. Qed.

#[local] Ltac core_frame := split; simpl; auto.

Lemma same_core_output s g :
  du_delivery (g (dam_output s)) = du_delivery (dam_output s) ->
  (forall m, m ∈ du_reflection_messages (g (dam_output s)) ->
     m ∈ du_reflection_messages (dam_output s) \/ dam_trusted m) ->
  same_core s s.[dam_output ::= g].
Proof. intros Hd Hr. by split. Qed.

Lemma dam_broadcast_core (m : DamMessage Tx Enc) : runs same_core (dam_broadcast m).
Proof. unfold dam_broadcast. repeat runs_step. apply same_core_output; simpl; auto. Qed.
Lemma dam_unicast_core to (m : DamMessage Tx Enc) :
  (forall me, dam_trusted (mkDamMessage me m)) -> runs same_core (dam_unicast to m).
Proof.
  intros Hm. unfold dam_unicast. repeat runs_step. unfold append_peer_message.
  apply same_core_output; destruct (to =? _)%N; simpl; auto.
  intros x [?| ->%list_elem_of_singleton]%elem_of_app; auto.
Qed.
Lemma dam_now_core : runs same_core (dam_now clock).
Proof. unfold dam_now. repeat runs_step. core_frame. Qed.
#[local] Hint Resolve dam_broadcast_core dam_unicast_core dam_now_core : runs.
Lemma dam_elapsed_core t : runs same_core (dam_elapsed clock t).
Proof. unfold dam_elapsed. repeat runs_step. Qed.
#[local] Hint Resolve dam_elapsed_core : runs.
Lemma request_block_core v h : runs same_core (request_block v h).
Proof. unfold request_block. repeat runs_step. core_frame. Qed.
#[local] Hint Resolve request_block_core : runs.

Lemma Blockstore_get_fuel (bs : list (option Blk)) v : Blockstore_get bs v <> NoFuel.
Proof.
  apply outcome_bind_fuel; [apply u64_sub_fuel|]. intros t _. destruct (_ <? _)%N; [done|]. apply unwrap_fuel.
Qed.
#[local] Hint Resolve Blockstore_get_fuel : triple.
Lemma stored_block_core v : runs same_core (stored_block v).
Proof. unfold stored_block. repeat runs_step. Qed.
Lemma View_leader_fuel v n : View_get_view_leader v n <> NoFuel.
Proof. unfold View_get_view_leader. by destruct (_ =? _)%N. Qed.
Lemma View_successor_fuel v : View_get_successor v <> NoFuel.
Proof. apply u64_add_fuel. Qed.
#[local] Hint Resolve View_leader_fuel View_successor_fuel : triple.
Lemma is_view_lead_core v : runs same_core (is_view_lead_by_me v).
Proof. unfold is_view_lead_by_me. repeat runs_step. apply outcome_bind_fuel; [apply View_leader_fuel|done]. Qed.
Lemma enough_requests_core : runs same_core enough_requests.
Proof.
  unfold enough_requests. repeat runs_step. unfold Pending_full_block_or_at_least.
  apply outcome_bind_fuel; [apply rust_assert_fuel|]. intros _ _. by destruct (list.last _).
Qed.
Lemma verify_signed_core c : runs same_core (verify_signed c).
Proof. unfold verify_signed. repeat runs_step. apply de_verify_fuel. Qed.
#[local] Hint Resolve stored_block_core is_view_lead_core enough_requests_core verify_signed_core : runs.

(** ** Executing *)

(** The replica after delivering [txs]. *)
Definition dam_delivered s (txs : list Tx) : Damysus B Tx Enc :=
  let r := dedup (dam_executed_transactions s) txs in
  s.[dam_executed_transactions := r.1]
   .[dam_output := (dam_output s).[du_delivery := du_delivery (dam_output s) ++ r.2]].

Lemma dam_delivered_nil s : dam_delivered s [] = s.
Proof. unfold dam_delivered. simpl. rewrite app_nil_r. destruct s. simpl. by destruct dam_output. Qed.

Lemma dam_delivered_app s txs1 txs2 : dam_delivered (dam_delivered s txs1) txs2 = dam_delivered s (txs1 ++ txs2).
Proof. unfold dam_delivered. rewrite dedup_app. simpl. by rewrite app_assoc. Qed.

Lemma execute_transactions_spec s txs : execute_transactions txs s = Val ((), dam_delivered s txs).
Proof.
  unfold execute_transactions. revert s. induction txs as [|tx txs IH]; intros s.
  { simpl. by rewrite dam_delivered_nil. }
  change (tx :: txs) with ([tx] ++ txs). rewrite <-dam_delivered_app, <-IH. simpl.
  unfold mbind, St_bind, self, modify. simpl. unfold dam_delivered. rewrite dedup_cons, deliver_tx_spec.
  destruct (_ <=? _)%N; simpl; [done|]. rewrite app_nil_r. destruct s. simpl. by destruct dam_output.
Qed.

(** Changing the store and delivering. *)
Lemma dam_ok_executed k D s0 kb kc s bs txs hist :
  dam_ok k D s0 kb kc s -> same_blocks (dam_blockstore s) bs ->
  (forall w, executed_at (dam_blockstore s) w -> executed_at bs w) ->
  exec_log bs (dedup (dam_executed_transactions s) txs).1 hist
    ((D ++ du_delivery (dam_output s)) ++ (dedup (dam_executed_transactions s) txs).2) ->
  dam_ok k D s0 kb kc (dam_delivered (s.[dam_blockstore := bs]) txs).
Proof.
  intros [[] Hg Hs] Hsame Hmono Hlog. split; [split| |]; simpl; try done.
  - by eapply same_blocks_wf.
  - by eapply same_blocks_chain.
  - intros v b Hb. destruct (same_blocks_at bs (dam_blockstore s) v b) as (b' & Hb' & Hj & _ & Hv);
      [by apply same_blocks_sym|done|]. specialize (di_blocks0 v b' Hb'). unfold block_ok in *.
    by rewrite Hj, Hv in di_blocks0.
  - exists hist. by rewrite app_assoc.
  - etransitivity; [exact Hg|]. split; simpl; try done. intros v b Hb.
    destruct Hsame as [_ Hsame]. specialize (Hsame v). rewrite Hb in Hsame. simpl in Hsame.
    destruct (block_at bs v) as [b'|] eqn:Hb'; [|done]. apply Some_inj in Hsame.
    exists b'. split; [done|]. split; [done|]. intros Hx. destruct (Hmono v) as (b2 & Hb2 & Hx2); [by exists b|].
    congruence.
Qed.

Lemma execute_block_triple k D s0 kb kc s v u :
  dam_ok k D s0 kb kc s -> ~ executed_at (dam_blockstore s) v -> justified (dam_blockstore s) v u ->
  executed_at (dam_blockstore s) u \/ genesis_at (dam_blockstore s) u ->
  triple (eq s) (execute_block v) (fun _ s' => dam_ok k D s0 kb kc s'
    /\ same_blocks (dam_blockstore s) (dam_blockstore s')
    /\ forall w, executed_at (dam_blockstore s') w <-> executed_at (dam_blockstore s) w \/ w = v).
Proof.
  intros Hok Hnx Hj Hu. pose proof Hj as (b & c & Hb & _). pose proof (ok_inv _ _ _ _ _ _ Hok) as Hi.
  destruct (di_log _ _ _ Hi) as (hist & Hlog). pose proof (bs_nonempty _ (di_store _ _ _ Hi)) as Hne.
  destruct (execute_at _ v b Hne Hb) as (bs & Hg & Hsame & Hx).
  intros s1 <-. unfold execute_block, stored_block.
  erewrite st_bind_Val by (apply inspect_Val; rewrite Blockstore_get_spec by done; reflexivity).
  rewrite Hb. cbn [unwrap]. erewrite st_bind_Val by (apply lift_Val; reflexivity).
  erewrite st_bind_Val by (apply update_Val; rewrite Hg; reflexivity).
  rewrite execute_transactions_spec. split; [|split; [exact Hsame|exact Hx]].
  eapply dam_ok_executed; [done|done|intros w Hw; apply Hx; by left|]. by eapply exec_log_step.
Qed.

Lemma execute_chain_triple k D s0 kb kc v l s :
  dam_ok k D s0 kb kc s -> exec_chain (dam_blockstore s) v l ->
  triple (eq s) (st_for (reverse l) execute_block) (fun _ s' => dam_ok k D s0 kb kc s'
    /\ same_blocks (dam_blockstore s) (dam_blockstore s')
    /\ forall w, executed_at (dam_blockstore s') w <-> executed_at (dam_blockstore s) w \/ w ∈ l).
Proof.
  intros Hok Hch. pose proof (di_chain _ _ _ (ok_inv _ _ _ _ _ _ Hok)) as Hc.
  induction Hch as [v Hst|v u l Hnx Hj Hch IH].
  { apply triple_ret. intros ? <-. split; [done|]. split; [done|]. intros w. rewrite elem_of_nil. naive_solver. }
  destruct (exec_chain_below _ _ _ Hc Hch) as [_ Hbelow]. pose proof (Hc _ _ Hj) as Hlt.
  eapply triple_ext; [intros s1; rewrite reverse_cons; apply st_for_app|].
  eapply triple_bind; [exact IH|]. intros ?. apply triple_pre. intros s2 (Hok2 & Hs2 & Hx2).
  eapply triple_bind; [apply (execute_block_triple k D s0 kb kc s2 v u Hok2)|].
  - rewrite Hx2. intros [?|Hin]; [done|]. apply Hbelow in Hin. lia.
  - by eapply same_blocks_justified.
  - inversion Hch as [? Hstop|]; subst.
    + destruct Hstop as [?|?]; [left; apply Hx2; by left|right; by eapply same_blocks_genesis].
    + left. apply Hx2. right. set_solver.
  - intros ?. apply triple_ret. intros s3 (Hok3 & Hs3 & Hx3). split; [done|].
    split; [by eapply same_blocks_trans|]. intros w. rewrite Hx3, Hx2, elem_of_cons. naive_solver.
Qed.

Lemma try_execute_from_triple k D s0 kb kc v :
  triple (dam_ok k D s0 kb kc) (try_execute_from clock v) (fun _ => dam_ok k D s0 kb kc).
Proof.
  apply triple_pre. intros s Hok. pose proof (ok_inv _ _ _ _ _ _ Hok) as Hi.
  pose proof (bs_nonempty _ (di_store _ _ _ Hi)) as Hne.
  destruct (to_execute_loop_spec (execute_fuel (dam_blockstore s)) (dam_blockstore s) v [])
    as (r & Hr & Hl & _); [apply Hi|done|unfold execute_fuel; lia| |].
  { intros [b Hb]. unfold execute_fuel. destruct (decide (length (dam_blockstore s) <= N.to_nat v)); [|lia].
    by rewrite block_at_ge in Hb. }
  apply triple_inspect_pre; [by rewrite Hr|]. intros r' Hr'. rewrite Hr in Hr'. injection Hr' as <-.
  destruct r as [l|]; [|by apply triple_ret; intros ? <-].
  destruct (Hl l eq_refl) as (ext & -> & Hext). simpl.
  eapply (triple_bind _ _ _ (fun _ s1 => dam_ok k D s0 kb kc s1 /\ dam_blockstore s1 = dam_blockstore s)).
  { eapply triple_weaken; [apply (dam_now_core s)|done|]. intros a s1 Hc. split; [exact (same_core_ok _ _ _ _ _ _ _ Hc Hok)|apply Hc]. }
  intros t. apply triple_pre. intros s1 [Hok1 Hs1]. apply triple_modify_pre. cbv beta.
  set (s2 := s1.[dam_output ::= log_decision_time t]).
  assert (same_core s1 s2) as Hc by (apply same_core_output; simpl; auto).
  eapply triple_weaken; [apply (execute_chain_triple k D s0 kb kc v ext s2)|done|].
  - by eapply same_core_ok.
  - by rewrite (sc_store _ _ Hc), Hs1.
  - by intros _ s3 [? _].
Qed.

Lemma try_execute_chain_triple k D s0 kb kc b c :
  triple (dam_ok k D s0 kb kc) (try_execute_chain clock b c) (fun _ => dam_ok k D s0 kb kc).
Proof.
  unfold try_execute_chain.
  assert (triple (dam_ok k D s0 kb kc) (mret ()) (fun _ => dam_ok k D s0 kb kc)) as Hret by by apply triple_ret.
  eapply triple_bind; [apply runs_core, stored_block_core|]. intros [j|]; [|done].
  destruct (bl_justification j) as [|g]; [done|].
  eapply triple_bind; [apply runs_core, stored_block_core|]. intros [gb|]; [|done].
  destruct (_ && _); [apply try_execute_from_triple|done].
Qed.

(** ** Storing a block *)

Lemma store_block_triple k D s0 kb kc b :
  block_ok b -> bl_executed b = false ->
  triple (dam_ok k D s0 kb kc) (store_block b) (fun _ => dam_ok k D s0 kb kc).
Proof.
  intros Hb Hx. apply triple_update.
  { intros s _. apply outcome_bind_fuel; [|done]. pose proof (Blockstore_insert_spec (dam_blockstore s) b) as Hs.
    destruct (block_at _ _); [by rewrite Hs|]. destruct Hs as (bs & -> & _). done. }
  intros s s' [[] Hg Hsz] (bs & Hins & [= <-])%outcome_bind_inv.
  destruct (Blockstore_insert_wf _ _ _ di_store0 Hins) as (Hwf & Hnone & Hat).
  assert (forall v x, block_at (dam_blockstore s) v = Some x -> block_at bs v = Some x) as Hold.
  { intros v x Hv. rewrite Hat. destruct (decide (v = bl_view b)) as [->|]; [congruence|done]. }
  assert (forall v, executed_at bs v <-> executed_at (dam_blockstore s) v) as Hexec.
  { intros v. split; [|intros (x & Hv & ?); exists x; auto]. intros (x & Hv & Hxx). rewrite Hat in Hv.
    destruct (decide (v = bl_view b)); [simplify_eq; congruence|by exists x]. }
  assert (forall v u, justified (dam_blockstore s) v u -> justified bs v u) as Hjust.
  { intros v u (x & c & Hv & ?). exists x, c. auto. }
  split; [split| |]; simpl; try done.
  - intros v u (x & c & Hv & Hj & Hu). rewrite Hat in Hv. destruct (decide (v = bl_view b)) as [->|].
    + simplify_eq. unfold block_ok in Hb. rewrite Hj in Hb. destruct Hb as [[? _] ?]. lia.
    + apply di_chain0. by exists x, c.
  - intros v x Hv. rewrite Hat in Hv. destruct (decide (v = bl_view b)); [by simplify_eq|eauto].
  - destruct di_log0 as (hist & [Hnd Hel Hord Hlast Hdel]). exists hist.
    assert (log_txs bs hist = log_txs (dam_blockstore s) hist) as Htx.
    { unfold log_txs. f_equal. apply list_fmap_ext. intros i v Hv%list_elem_of_lookup_2. apply Hel in Hv as (x & Hv & _).
      by rewrite Hv, (Hold _ _ Hv). }
    split; [done| | |by rewrite Htx|by rewrite Htx].
    + intros v. by rewrite Hexec.
    + intros pre v post Heq. destruct (Hord pre v post Heq) as (u & Hj & Hcase). exists u. split; [auto|].
      destruct Hcase as [?|(x & Hv & ?)]; [by left|right; exists x; auto].
  - etransitivity; [exact Hg|]. split; simpl; try done. intros v x Hv. exists x. auto.
Qed.

(** ** Rounds *)

Lemma next_view_timeout_bound t s vt :
  (dam_initial_view_timeout s <= dam_view_timeout s <= duration_max)%N ->
  next_view_timeout t s = Val vt -> (dam_initial_view_timeout s <= vt <= duration_max)%N.
Proof.
  intros Hle. unfold next_view_timeout. destruct t.
  - destruct (N.leb_spec (dam_view_timeout s * 2) duration_max); intros [= <-]; lia.
  - destruct (_ <? _)%N; [done|]. intros [= <-]. lia.
Qed.

Lemma next_view_ok D s0 kb kc s vt :
  dam_ok 1 D s0 kb kc s -> (dam_initial_view_timeout s <= vt <= duration_max)%N ->
  dam_ok 0 D s0 kb kc (s.[dam_view_timeout := vt].[dam_view := (dam_view s + 1)%N]
                        .[dam_commitment_senders ::= IdSet_clear].[dam_commitments := []]).
Proof.
  intros [[] Hg Hs] Hvt. split; [split| |]; simpl; try done.
  - lia.
  - by intros c ?%not_elem_of_nil.
  - intros i. rewrite <-elem_of_to_gset, IdSet_clear_spec, elem_of_nil. set_solver.
  - constructor.
  - destruct Hg. split; simpl; try done. lia.
Qed.

Lemma enter_next_view_triple D s0 kb kc t :
  triple (dam_ok 1 D s0 kb kc) (enter_next_view clock t) (fun _ => dam_ok 0 D s0 kb kc).
Proof.
  apply triple_pre. intros s Hok. unfold enter_next_view. apply triple_inspect_pre.
  { unfold next_view_timeout. destruct t; [done|]. by destruct (_ <? _)%N. }
  intros vt Hvt. pose proof (next_view_timeout_bound t s vt (di_timeout _ _ _ (ok_inv _ _ _ _ _ _ Hok)) Hvt) as Hb.
  apply triple_modify_pre. cbv beta.
  eapply (triple_bind _ _ _ (fun _ s' => s' = s.[dam_view_timeout := vt].[dam_view := (dam_view s + 1)%N])).
  { apply triple_update.
    - intros s1 _. apply outcome_bind_fuel; [apply u64_add_fuel|done].
    - intros s1 s2 <- (v & Hv & [= <-])%outcome_bind_inv. by apply (u64_add_inv _ _ _ Hchecks) in Hv as ->. }
  intros ?. apply triple_pre. intros s1 ->. apply triple_modify_pre. apply triple_modify_pre.
  pose proof (next_view_ok D s0 kb kc s vt Hok Hb) as Hok1.
  eapply (triple_weaken _ (dam_ok 0 D s0 kb kc) _ _ (fun _ => dam_ok 0 D s0 kb kc)); [|intros s2 <-; exact Hok1|done].
  apply runs_core. repeat runs_step; try (apply same_core_output; simpl; auto). split; simpl; auto.
Qed.

Section transition.
  Variables (D : list Tx) (s0 : Damysus B Tx Enc) (kb kc : nat) (transition : St (Damysus B Tx Enc) ()).
  Hypothesis Htr : triple (dam_ok 1 D s0 kb kc) transition (fun _ => dam_ok 0 D s0 kb kc).
  Abbreviation ok := (dam_ok 0 D s0 kb kc).

Lemma prepare_triple b c :
  block_ok b -> bl_justification b = Quorum c ->
  triple ok (dam_enclave_call (fun e => de_prepare e (bl_view b) (Block_hash_value de_sig_bytes b)
                                          (bl_justification b) (bl_parent b) (SC_get_block_hash c)))
    (fun r s => forall p, r = Ok p -> dam_ok 1 D s0 kb kc s /\ commitment_ok p).
Proof.
  intros Hb Hj. apply triple_zoom.
  - intros s _. apply de_prepare_fuel.
  - intros s r e [[] Hg Hs] Hr p ->. apply de_prepare_law in Hr as (Hi & Hv & _ & Hp & _); [|done|].
    2:{ unfold block_ok in Hb. rewrite Hj in *. by destruct Hb. }
    split; [|done]. split; [split| |]; simpl; try done; [lia|]. by destruct Hg.
Qed.

Lemma expect_fuel {A E} (r : Result A E) : expect r <> NoFuel.
Proof. by destruct r. Qed.
#[local] Hint Resolve expect_fuel : triple.

#[local] Ltac core_bind := eapply triple_bind; [apply runs_core; repeat runs_step|intros ?].

Lemma add_and_prepare_block_triple b :
  block_ok b -> triple ok (add_and_prepare_block clock transition b) (fun _ => ok).
Proof.
  intros Hb. unfold add_and_prepare_block. cbv zeta.
  assert (block_ok (Block_not_executed b)) as Hb' by exact Hb.
  assert (bl_executed (Block_not_executed b) = false) as Hx by done.
  set (b' := Block_not_executed b) in *. clearbody b'. clear Hb.
  apply triple_lift_pre; [apply unwrap_fuel|]. intros c Hc.
  assert (bl_justification b' = Quorum c) as Hj.
  { unfold Justification_get_commitment in Hc. destruct (bl_justification b'); [done|]. by injection Hc as ->. }
  core_bind. core_bind. core_bind. core_bind.
  destruct (negb _).
  { eapply triple_bind; [by apply store_block_triple|]. intros ?. by apply triple_ret. }
  eapply triple_bind; [by apply prepare_triple|]. intros r. apply triple_lift_pre; [apply expect_fuel|]. intros p Hp.
  assert (r = Ok p) as -> by (destruct r; simpl in Hp; congruence).
  apply (triple_weaken _ (fun s => dam_ok 1 D s0 kb kc s /\ commitment_ok p) _ _ (fun _ => ok)); [|auto|done].
  apply triple_pre. intros s [Hok Hpok].
  apply (triple_weaken _ (dam_ok 1 D s0 kb kc) _ _ (fun _ => ok)); [|by intros ? <-|done].
  core_bind. core_bind. core_bind. core_bind.
  eapply triple_bind; [apply try_execute_chain_triple|]. intros ?.
  eapply triple_bind; [by apply store_block_triple|]. intros ?.
  eapply triple_bind; [exact Htr|]. intros ?. by apply triple_ret.
Qed.

(** Collected commitments, reordered. *)
Lemma sort_ok s (cs : list SComm) : cs ≡ₚ dam_commitments s -> ok s -> ok s.[dam_commitments := cs].
Proof.
  intros Hp [[] Hg Hs]. split; [split| |]; simpl; try done.
  - intros c. rewrite Hp. auto.
  - intros i. by rewrite Hp.
  - by rewrite Hp.
  - by destruct Hg.
Qed.

Lemma accumulate_triple cs :
  triple (fun s => ok s /\ dam_commitments s = cs) (dam_enclave_call (fun e => de_accumulate e cs))
    (fun r s => ok s /\ forall c, r = Ok c -> commitment_ok c /\ (SC_get_view c + 1)%N = dam_view s).
Proof.
  apply triple_zoom; [intros s _; apply de_accumulate_fuel|].
  intros s r e [[[] Hg Hs] <-] Hr. apply de_accumulate_law in Hr as (Hi & Hv & Hc); [|done|].
  2:{ apply list.Forall_forall. intros c Hin. by apply di_collected0. }
  split; [split; [split| |]; simpl; try done; [lia|]; by destruct Hg|].
  intros c Heq. destruct (Hc c Heq) as (_ & ? & ?). split; [done|]. simpl. lia.
Qed.

Lemma create_block_triple : triple ok (create_block clock transition) (fun _ => ok).
Proof.
  unfold create_block. core_bind; [split; simpl; auto|].
  eapply (triple_bind _ _ _ (fun _ => ok)).
  { apply triple_modify. intros s Hok. apply (sort_ok s (sort_unstable_by_key SC_get_prepared_block_view (dam_commitments s)));
      [apply sort_permutation|done]. }
  intros ?. apply triple_pre. intros s Hok. apply triple_self_pre.
  eapply triple_bind.
  { eapply triple_weaken; [apply (accumulate_triple (dam_commitments s))|by intros ? <-|intros x s1 Hpost; exact Hpost]. }
  intros r. apply triple_lift_pre; [apply expect_fuel|]. intros c Hc.
  assert (r = Ok c) as -> by (destruct r; simpl in Hc; congruence).
  apply triple_pre. intros s1 [Hok1 Hacc]. destruct (Hacc c eq_refl) as [Hcok Hcv].
  apply triple_self_pre. apply triple_modify_pre. cbv beta.
  set (s2 := s1.[dam_pending_client_requests ::= _]).
  assert (same_core s1 s2) as Hcore by (split; simpl; auto).
  assert (ok s2) as Hok2 by by eapply same_core_ok.
  apply triple_self_pre. cbv zeta. apply triple_self_pre. apply triple_lift_pre; [apply unwrap_fuel|]. intros pv Hpv.
  apply triple_inspect_pre; [apply Blockstore_get_fuel|]. intros pb Hpb. apply triple_self_pre.
  apply (triple_weaken _ ok _ _ (fun _ => ok)); [|by intros ? <-|done].
  eapply triple_bind.
  { apply add_and_prepare_block_triple. unfold block_ok. simpl. split; [done|]. unfold s2. simpl. lia. }
  intros o. core_bind. core_bind. apply runs_core. repeat runs_step.
Qed.

Lemma collect_ok s c :
  ok s -> commitment_ok c -> SC_is_usig c = true -> (SC_get_view c + 1)%N = dam_view s ->
  IdSet_contains (dam_commitment_senders s) (SC_get_creator c) = false ->
  ok (s.[dam_commitment_senders ::= fun x => (IdSet_insert x (SC_get_creator c)).2]
       .[dam_commitments ::= fun cs => cs ++ [c]]).
Proof.
  intros [[] Hg Hs] Hc Hu Hv Hnew. split; [split| |]; simpl; try done.
  - intros x [Hx| ->%list_elem_of_singleton]%elem_of_app; [auto|done].
  - intros i. rewrite seen_insert, orb_true_iff, bool_decide_eq_true, fmap_app, elem_of_app, di_senders0. simpl.
    rewrite list_elem_of_singleton. naive_solver.
  - rewrite fmap_app. simpl. apply list.NoDup_app. split; [done|]. split; [|apply NoDup_singleton].
    intros i Hi ->%list_elem_of_singleton. apply di_senders0 in Hi. congruence.
  - by destruct Hg.
Qed.

Lemma apply_commitment_triple c :
  commitment_ok c -> SC_is_usig c = true ->
  triple (fun s => ok s /\ (SC_get_view c + 1)%N = dam_view s) (apply_commitment clock transition c) (fun _ => ok).
Proof.
  intros Hc Hu. apply triple_pre. intros s [Hok Hv]. unfold apply_commitment. apply triple_self_pre.
  destruct (IdSet_contains _ _) eqn:Hnew; [by apply triple_ret; intros ? <-|].
  apply triple_inspect_pre; [apply Blockstore_get_fuel|]. intros known Hk.
  destruct (match known with Some _ => _ | None => _ end); [by apply triple_ret; intros ? <-|].
  apply triple_modify_pre. apply triple_modify_pre. cbv beta.
  pose proof (collect_ok s c Hok Hc Hu Hv Hnew) as Hok2.
  eapply (triple_weaken _ ok _ _ (fun _ => ok)); [|by intros ? <-|done].
  core_bind. core_bind. destruct (_ <? _)%N; [by apply triple_ret|]. core_bind. core_bind. core_bind. core_bind.
  match goal with |- triple _ (if ?b then _ else _) _ => destruct b end; [apply create_block_triple|].
  apply runs_core. repeat runs_step; [split; simpl; auto|apply same_core_output; simpl; auto].
Qed.
End transition.

Lemma dam_ok_size k D s0 kb kc kb' kc' s :
  dam_ok k D s0 kb kc s -> dam_size s kb' kc' -> dam_ok k D s0 kb' kc' s.
Proof. by intros [] ?. Qed.

(** Taking the first stored block. *)
Lemma pop_block_ok D s0 kb kc s b :
  dam_ok 0 D s0 kb kc s -> HeapBuffer_peek (dam_stored_blocks s) = Some b ->
  exists kb', kb' < kb /\ (HeapBuffer_pop (dam_stored_blocks s)).1 = Some b /\ block_ok b
    /\ dam_ok 0 D s0 kb' kc s.[dam_stored_blocks := (HeapBuffer_pop (dam_stored_blocks s)).2].
Proof.
  intros [[] Hg [Hsb Hsc]] Hp. destruct (HeapBuffer_pop (dam_stored_blocks s)) as [o h] eqn:Hpop.
  assert (o = Some b) as ->.
  { rewrite <-Hp, <-HeapBuffer_pop_peek. by rewrite Hpop. }
  apply HeapBuffer_pop_spec in Hpop as (Hh & Hbuf & _); [|done].
  rewrite Hbuf in Hsb. simpl in Hsb. exists (length (hb_buffer h)). split; [lia|]. split; [done|].
  split; [apply di_stored_blocks_ok0; rewrite Hbuf; set_solver|].
  split; [split| |]; simpl; try done; [|by destruct Hg].
  intros x Hx. apply di_stored_blocks_ok0. rewrite Hbuf. set_solver.
Qed.

Lemma pop_commitment_ok D s0 kb kc s c :
  dam_ok 0 D s0 kb kc s -> HeapBuffer_peek (dam_stored_commitments s) = Some c ->
  exists kc', kc' < kc /\ (HeapBuffer_pop (dam_stored_commitments s)).1 = Some c
    /\ commitment_ok c /\ SC_is_usig c = true
    /\ dam_ok 0 D s0 kb kc' s.[dam_stored_commitments := (HeapBuffer_pop (dam_stored_commitments s)).2].
Proof.
  intros [[] Hg [Hsb Hsc]] Hp. destruct (HeapBuffer_pop (dam_stored_commitments s)) as [o h] eqn:Hpop.
  assert (o = Some c) as ->.
  { rewrite <-Hp, <-HeapBuffer_pop_peek. by rewrite Hpop. }
  apply HeapBuffer_pop_spec in Hpop as (Hh & Hbuf & _); [|done].
  rewrite Hbuf in Hsc. simpl in Hsc. exists (length (hb_buffer h)). split; [lia|]. split; [done|].
  destruct (di_stored_ok0 c) as [Hc Hu]; [rewrite Hbuf; set_solver|]. split; [done|]. split; [done|].
  split; [split| |]; simpl; try done; [|by destruct Hg].
  intros x Hx. apply di_stored_ok0. rewrite Hbuf. set_solver.
Qed.

(** [transition] works with fewer stored blocks and commitments. *)
Definition transition_ok D s0 (kb kc : nat) (tr : St (Damysus B Tx Enc) ()) : Prop :=
  forall kb' kc', kb' <= kb -> kc' <= kc -> kb' + kc' < kb + kc ->
    triple (dam_ok 1 D s0 kb' kc') tr (fun _ => dam_ok 0 D s0 kb' kc').

Lemma replay_block_triple D s0 kb kc tr :
  transition_ok D s0 kb kc tr ->
  triple (dam_ok 0 D s0 kb kc) (replay_block clock tr) (fun _ => dam_ok 0 D s0 kb kc).
Proof.
  intros Htr. apply triple_pre. intros s Hok. unfold replay_block. apply triple_self_pre.
  destruct (HeapBuffer_peek _) as [b|] eqn:Hp; [|by apply triple_ret; intros ? <-].
  apply triple_self_pre. destruct (_ =? _)%N; [|by apply triple_ret; intros ? <-].
  destruct (pop_block_ok D s0 kb kc s b Hok Hp) as (kb' & Hlt & -> & Hb & Hok').
  apply triple_lift_pre; [done|]. intros b' [= <-]. apply triple_modify_pre. cbv beta.
  eapply (triple_weaken _ (dam_ok 0 D s0 kb' kc) _ _ (fun _ => dam_ok 0 D s0 kb' kc)); [|by intros ? <-|].
  2:{ intros ? s1 [? ? []]. split; try done. split; [lia|done]. }
  eapply triple_bind; [apply add_and_prepare_block_triple; [apply Htr; lia|done]|]. intros ?. by apply triple_ret.
Qed.

Lemma replay_commitments_triple D s0 kb kc tr fuel :
  transition_ok D s0 kb kc tr -> kc < fuel ->
  triple (dam_ok 0 D s0 kb kc) (replay_commitments clock tr fuel) (fun _ => dam_ok 0 D s0 kb kc).
Proof.
  revert kc. induction fuel as [|fuel IH]; intros kc Htr Hf; [lia|]. simpl.
  apply triple_pre. intros s Hok. apply triple_self_pre.
  destruct (HeapBuffer_peek _) as [c|] eqn:Hp; [|by apply triple_ret; intros ? <-].
  destruct (pop_commitment_ok D s0 kb kc s c Hok Hp) as (kc' & Hlt & Hpop & Hc & Hu & Hok').
  assert (transition_ok D s0 kb kc' tr) as Htr' by (intros k1 k2 ? ? ?; apply Htr; lia).
  assert (forall s1, dam_ok 0 D s0 kb kc' s1 -> dam_ok 0 D s0 kb kc s1) as Hw.
  { intros s1 [? ? []]. split; try done. split; [done|lia]. }
  assert (triple (dam_ok 0 D s0 kb kc') (replay_commitments clock tr fuel) (fun _ => dam_ok 0 D s0 kb kc)) as Hrest.
  { eapply triple_weaken; [apply (IH kc'); [done|lia]|done|]. auto. }
  apply triple_lift_pre; [apply u64_add_fuel|]. intros usable Hus. apply (u64_add_inv _ _ _ Hchecks) in Hus.
  apply triple_self_pre.
  eapply (triple_bind _ _ _ (fun _ s' => s' = s)).
  { destruct (_ <? _)%N; [by apply triple_ret; intros ? <-|]. apply triple_inspect; [|by intros ? ? <-].
    intros s1 _. apply outcome_bind_fuel; [apply View_leader_fuel|done]. }
  intros lead. apply (triple_weaken _ (eq s) _ _ (fun _ => dam_ok 0 D s0 kb kc)); [|done|done].
  destruct (_ || _) eqn:Hdrop.
  { apply triple_modify_pre. eapply triple_weaken; [exact Hrest|by intros ? <-|done]. }
  destruct (N.ltb_spec (dam_view s) usable) as [|Hge]; [by apply triple_ret; intros ? <-|].
  apply orb_false_iff in Hdrop as [Hlow%N.ltb_ge _].
  rewrite Hpop. apply triple_lift_pre; [done|]. intros c' [= <-]. apply triple_modify_pre. cbv beta.
  eapply triple_bind.
  { eapply triple_weaken; [apply (apply_commitment_triple D s0 kb kc' tr); [apply Htr; lia|done|done]| |].
    - intros ? <-. split; [exact Hok'|]. simpl. lia.
    - intros x s1 Hpost. exact Hpost. }
  intros ?. exact Hrest.
Qed.

Lemma dam_round_transition_triple D s0 fuel t kb kc :
  kb + kc < fuel ->
  triple (dam_ok 1 D s0 kb kc) (dam_round_transition clock fuel t) (fun _ => dam_ok 0 D s0 kb kc).
Proof.
  revert t kb kc. induction fuel as [|fuel IH]; intros t kb kc Hf; [lia|]. cbn [dam_round_transition].
  assert (transition_ok D s0 kb kc (dam_round_transition clock fuel false)) as Htr
    by (intros k1 k2 ? ? ?; apply IH; lia).
  eapply triple_bind; [apply enter_next_view_triple|]. intros ?.
  eapply triple_bind; [by apply replay_block_triple|]. intros ?.
  apply triple_pre. intros s Hok. apply triple_self_pre.
  set (k := length (hb_buffer (dam_stored_commitments s))).
  assert (k <= kc) as Hk by apply (ok_size _ _ _ _ _ _ Hok).
  eapply triple_weaken; [apply (replay_commitments_triple D s0 kb k)| |].
  - intros k1 k2 ? ? ?. apply Htr; lia.
  - lia.
  - intros ? <-. eapply dam_ok_size; [exact Hok|]. split; [apply (ok_size _ _ _ _ _ _ Hok)|done].
  - intros ? s1 [? ? []]. split; try done. split; [done|lia].
Qed.

Lemma round_transition_triple D s0 kb kc t :
  triple (dam_ok 1 D s0 kb kc) (round_transition clock t) (fun _ => dam_ok 0 D s0 kb kc).
Proof.
  apply triple_pre. intros s Hok s1 <-. unfold round_transition.
  pose proof (ok_size _ _ _ _ _ _ Hok) as [Hb Hc].
  pose proof (dam_round_transition_triple D s0 (round_fuel s) t (length (hb_buffer (dam_stored_blocks s)))
    (length (hb_buffer (dam_stored_commitments s))) ltac:(unfold round_fuel; lia) s) as Ht.
  specialize (Ht ltac:(eapply dam_ok_size; [exact Hok|by split])).
  destruct (dam_round_transition clock (round_fuel s) t s) as [[[] s2]| |]; [|done..].
  destruct Ht as [? ? []]. split; try done. split; lia.
Qed.
End invariant.
