(* ===== verification/DamRun.v ===== *)
(** * Damysus: handlers and runs

    Every message handler keeps the invariant of [DamInvariant] and returns;
    [dam_run] is a sequence of calls of the entry points of a replica with
    trusted messages, and [dam_run_good] carries the invariant over it. *)

From Stdlib Require Import ZArith Lia.
From stdpp Require Import base list gmap sets numbers option relations.
From S2P Require Import Prelude Triple Ids Heaps Requests DamBase DamEnclave DamEnclaveFacts.
From S2P Require Import DamBlockstore DamReplica DamInvariant.

Section run.
  Context {P : Profile} {B Tx Enc : Type}.
  Context `{BitSetLaws B} `{Digests} `{DamEnclaveLaws Enc} `{Transaction Tx} `{UnstableSortLaws}.
  Context (clock : nat -> N) (Hchecks : overflow_checks = true).
  Abbreviation Blk := (Block Tx (de_Signature Enc)).
  Abbreviation SComm := (SignedCommitment (de_Signature Enc)).
  Implicit Types (s : Damysus B Tx Enc) (b : Blk) (c : SComm) (v : N) (D : list Tx).

#[local] Hint Resolve dam_broadcast_core dam_unicast_core dam_now_core dam_elapsed_core request_block_core stored_block_core
  is_view_lead_core enough_requests_core verify_signed_core : runs.
#[local] Hint Resolve Blockstore_get_fuel View_leader_fuel View_successor_fuel expect_fuel : triple.

(** The invariant, without a bound on what is stored. *)
Definition dam_good D s0 s : Prop := dam_inv_upto 0 D s /\ dam_grows s0 s.

Lemma dam_good_ok D s0 s :
  dam_good D s0 s ->
  dam_ok 0 D s0 (length (hb_buffer (dam_stored_blocks s))) (length (hb_buffer (dam_stored_commitments s))) s.
Proof. intros [? ?]. by split. Qed.

Lemma triple_good {A} D s0 (m : St (Damysus B Tx Enc) A) :
  (forall kb kc, triple (dam_ok 0 D s0 kb kc) m (fun _ => dam_ok 0 D s0 kb kc)) ->
  triple (dam_good D s0) m (fun _ => dam_good D s0).
Proof.
  intros Hm. apply triple_pre. intros s Hs.
  eapply triple_weaken; [apply Hm|intros ? <-; by apply dam_good_ok|]. by intros a s1 [].
Qed.

Lemma good_apply {A} D s0 (m : St (Damysus B Tx Enc) A) s a s' :
  triple (dam_good D s0) m (fun _ => dam_good D s0) -> dam_good D s0 s -> m s = Val (a, s') -> dam_good D s0 s'.
Proof. intros Hm Hs Ha. exact (triple_apply _ _ (fun _ => dam_good D s0) _ _ _ Hm Hs Ha). Qed.

Lemma runs_good {A} D s0 (m : St (Damysus B Tx Enc) A) :
  runs same_core m -> triple (dam_good D s0) m (fun _ => dam_good D s0).
Proof. intros Hm. apply triple_good. intros kb kc. by apply runs_core. Qed.

Lemma same_core_good D s0 s s' : same_core s s' -> dam_good D s0 s -> dam_good D s0 s'.
Proof. intros Hc Hs. destruct (same_core_ok _ _ _ _ _ _ _ Hc (dam_good_ok _ _ _ Hs)). by split. Qed.

#[local] Ltac core_bind := eapply triple_bind; [apply runs_good; repeat runs_step|intros ?].
#[local] Ltac ret := by apply triple_ret.

Lemma add_and_prepare_good D s0 b :
  block_ok b -> triple (dam_good D s0) (add_and_prepare_block clock (round_transition clock false) b)
                  (fun _ => dam_good D s0).
Proof.
  intros Hb. apply triple_good. intros kb kc. apply add_and_prepare_block_triple; [done| |done].
  by apply round_transition_triple.
Qed.

Lemma create_block_good D s0 :
  triple (dam_good D s0) (create_block clock (round_transition clock false)) (fun _ => dam_good D s0).
Proof.
  apply triple_good. intros kb kc. apply create_block_triple; [done|]. by apply round_transition_triple.
Qed.

Lemma apply_commitment_good D s0 c :
  commitment_ok c -> SC_is_usig c = true ->
  triple (fun s => dam_good D s0 s /\ (SC_get_view c + 1)%N = dam_view s)
    (apply_commitment clock (round_transition clock false) c) (fun _ => dam_good D s0).
Proof.
  intros Hc Hu. apply triple_pre. intros s [Hs Hv].
  eapply triple_weaken.
  - apply (apply_commitment_triple clock Hchecks D s0 (length (hb_buffer (dam_stored_blocks s)))
      (length (hb_buffer (dam_stored_commitments s))) (round_transition clock false));
      [by apply round_transition_triple|done|done].
  - intros ? <-. split; [by apply dam_good_ok|done].
  - by intros a s1 [].
Qed.

Lemma replay_block_good D s0 :
  triple (dam_good D s0) (replay_block clock (round_transition clock false)) (fun _ => dam_good D s0).
Proof.
  apply triple_good. intros kb kc. apply replay_block_triple; [done|]. intros kb' kc' _ _ _.
  by apply round_transition_triple.
Qed.

Lemma new_view_good D s0 : triple (dam_good D s0) (new_view clock) (fun _ => dam_good D s0).
Proof.
  apply triple_good. intros kb kc. unfold new_view.
  eapply (triple_bind _ _ _ (fun r s => forall p, r = Ok p -> dam_ok 1 D s0 kb kc s /\ commitment_ok p)).
  { apply triple_zoom; [intros s _; apply de_re_sign_fuel|].
    intros s r e [[] Hg Hs] Hr p ->. apply de_re_sign_law in Hr as (Hi & Hv & Hp & _); [|done].
    split; [|done]. split; [split| |]; simpl; try done; [lia|]. by destruct Hg. }
  intros r. apply triple_lift_pre; [apply expect_fuel|]. intros p Hp.
  assert (r = Ok p) as -> by (destruct r; simpl in Hp; congruence).
  apply (triple_weaken _ (fun s => dam_ok 1 D s0 kb kc s /\ commitment_ok p) _ _ (fun _ => dam_ok 0 D s0 kb kc));
    [|auto|done].
  apply triple_pre. intros s [Hok Hpok].
  apply (triple_weaken _ (dam_ok 1 D s0 kb kc) _ _ (fun _ => dam_ok 0 D s0 kb kc)); [|by intros ? <-|done].
  do 4 (eapply triple_bind; [apply runs_core; repeat runs_step|intros ?]).
  by apply round_transition_triple.
Qed.

(** ** Messages *)

Lemma block_checks_core b c : runs same_core (block_checks (B := B) b c).
Proof. unfold block_checks. repeat runs_step. Qed.

Lemma answer_block_requests_core b : block_ok b -> runs same_core (answer_block_requests (B := B) b).
Proof. intros Hb. unfold answer_block_requests. repeat runs_step. split; simpl; auto. Qed.

Lemma HeapBuffer_insert_fuel {V K} `{Ord K, Countable K, Keyable V K} (h : HeapBuffer V K) (x : V) :
  HeapBuffer_insert h x <> NoFuel.
Proof.
  unfold HeapBuffer_insert. apply outcome_bind_fuel; [|done]. unfold debug_assert.
  destruct debug_assertions; [apply rust_assert_fuel|done].
Qed.

Lemma store_future_block_good D s0 b s s' :
  dam_good D s0 s -> block_ok b -> HeapBuffer_knows (dam_stored_blocks s) b = false ->
  (h ← HeapBuffer_insert (dam_stored_blocks s) b; Val s.[dam_stored_blocks := h]) = Val s' -> dam_good D s0 s'.
Proof.
  intros [[] Hg] Hb Hk. destruct (HeapBuffer_insert_spec (dam_stored_blocks s) b) as (h & -> & Hh & Hbuf); [done|done|].
  simpl. intros [= <-]. split; [|by destruct Hg]. split; simpl; try done.
  intros x. rewrite Hbuf. intros [->|Hx]%elem_of_cons; auto.
Qed.

Lemma store_future_commitment_good D s0 c s s' :
  dam_good D s0 s -> commitment_ok c -> SC_is_usig c = true -> HeapBuffer_knows (dam_stored_commitments s) c = false ->
  (h ← HeapBuffer_insert (dam_stored_commitments s) c; Val s.[dam_stored_commitments := h]) = Val s' ->
  dam_good D s0 s'.
Proof.
  intros [[] Hg] Hc Hu Hk.
  destruct (HeapBuffer_insert_spec (dam_stored_commitments s) c) as (h & -> & Hh & Hbuf); [done|done|].
  simpl. intros [= <-]. split; [|by destruct Hg]. split; simpl; try done.
  intros x. rewrite Hbuf. intros [->|Hx]%elem_of_cons; auto.
Qed.

Lemma process_block_good D s0 b c :
  block_ok b -> triple (dam_good D s0) (process_block clock b c) (fun _ => dam_good D s0).
Proof.
  intros Hb. unfold process_block. core_bind. core_bind.
  match goal with |- triple _ (if ?x then _ else _) _ => destruct x end; [ret|].
  eapply triple_bind; [apply runs_good, block_checks_core|]. intros x. destruct x; simpl; [|ret].
  eapply triple_bind; [by apply runs_good, answer_block_requests_core|]. intros ?.
  core_bind; [split; simpl; auto|]. core_bind.
  destruct (_ <? _)%N.
  - apply triple_pre. intros s Hs. apply triple_self_pre. destruct (HeapBuffer_knows _ _) eqn:Hk.
    { by apply triple_ret; intros ? <-. }
    apply triple_update; [intros ? _; apply outcome_bind_fuel; [apply HeapBuffer_insert_fuel|done]|].
    intros s1 s2 <- Hs2. by eapply store_future_block_good.
  - eapply triple_bind; [by apply add_and_prepare_good|]. intros ?. ret.
Qed.

Lemma process_commitment_good D s0 from c :
  commitment_ok c -> triple (dam_good D s0) (process_commitment clock from c) (fun _ => dam_good D s0).
Proof.
  intros Hc. unfold process_commitment. destruct (negb _); [ret|].
  apply triple_lift_pre; [apply u64_add_fuel|]. intros usable Hus. apply (u64_add_inv _ _ _ Hchecks) in Hus.
  apply triple_pre. intros s Hs. apply triple_self_pre.
  destruct (N.ltb_spec usable (dam_view s)) as [|Hlow]; [by apply triple_ret; intros ? <-|].
  apply triple_inspect_pre; [apply de_verify_fuel|]. intros valid _.
  destruct (negb _); [by apply triple_ret; intros ? <-|].
  apply triple_inspect_pre; [apply outcome_bind_fuel; [apply View_leader_fuel|done]|]. intros lead _.
  destruct (negb _); [by apply triple_ret; intros ? <-|].
  destruct (SC_is_usig c) eqn:Hu; simpl; [|by apply triple_ret; intros ? <-].
  destruct (N.ltb_spec (dam_view s) usable) as [|Hge].
  - apply triple_self_pre. destruct (HeapBuffer_knows _ _) eqn:Hk; [by apply triple_ret; intros ? <-|].
    apply triple_update; [intros ? _; apply outcome_bind_fuel; [apply HeapBuffer_insert_fuel|done]|].
    intros s1 s2 <- Hs2. by eapply store_future_commitment_good.
  - eapply triple_weaken; [by apply (apply_commitment_good D s0 c)| |done]. intros ? <-. split; [done|lia].
Qed.

Lemma process_handshake_good D s0 from key :
  triple (dam_good D s0) (process_handshake clock from key) (fun _ => dam_good D s0).
Proof.
  unfold process_handshake.
  eapply (triple_bind _ _ _ (fun _ => dam_good D s0)).
  { apply triple_zoom; [intros s _; apply de_add_peer_fuel|].
    intros s r e [[] Hg] Hr. apply de_add_peer_law in Hr as [? ?]; [|done].
    split; [|by destruct Hg]. split; simpl; try done. congruence. }
  intros [u|e]; [|destruct e; try ret; apply runs_good, runs_panic].
  eapply triple_bind.
  { apply runs_good, runs_update; [intros s; apply outcome_bind_fuel; [apply u64_add_fuel|done]|].
    intros s s' (k & _ & [= <-])%outcome_bind_inv. split; simpl; auto. }
  intros ?. core_bind. core_bind. destruct (_ =? _)%N; [|ret].
  eapply triple_bind; [apply new_view_good|]. intros ?. apply runs_good, runs_modify. intros s.
  apply same_core_output; simpl; auto.
Qed.

Lemma process_block_request_good D s0 from v :
  triple (dam_good D s0) (process_block_request from v) (fun _ => dam_good D s0).
Proof.
  apply triple_pre. intros s Hs. unfold process_block_request.
  pose proof (proj1 Hs) as Hi. pose proof (bs_nonempty _ (di_store _ _ _ Hi)) as Hne.
  apply triple_inspect_pre; [apply Blockstore_get_fuel|]. intros o Ho. rewrite Blockstore_get_spec in Ho by done.
  injection Ho as <-.
  apply (triple_weaken _ (dam_good D s0) _ _ (fun _ => dam_good D s0)); [|by intros ? <-|done].
  destruct (block_at _ v) as [b|] eqn:Hb.
  - apply runs_good, dam_unicast_core. intros me. exact (di_blocks _ _ _ Hi _ _ Hb).
  - apply triple_pre. intros s1 Hs1. apply triple_self_pre. destruct (HeapBuffer_knows_key _ _).
    + apply triple_lift_pre; [apply unwrap_fuel|]. intros b Hfind.
      apply (triple_weaken _ (dam_good D s0) _ _ (fun _ => dam_good D s0)); [|by intros ? <-|done].
      apply runs_good, dam_unicast_core. intros me. apply (di_stored_blocks_ok _ _ _ (proj1 Hs1)).
      unfold HeapBuffer_find_by_key in Hfind.
      destruct (list_find _ _) as [[i x]|] eqn:Hl; simpl in Hfind; [|done]. injection Hfind as <-.
      apply list_find_Some in Hl as (Hl & _). by eapply list_elem_of_lookup_2.
    + apply (triple_weaken _ (dam_good D s0) _ _ (fun _ => dam_good D s0)); [|by intros ? <-|done].
      core_bind. apply runs_good, runs_modify. intros s2. split; simpl; auto.
Qed.

Lemma process_requested_block_good D s0 b :
  block_ok b -> triple (dam_good D s0) (process_requested_block clock b) (fun _ => dam_good D s0).
Proof.
  intros Hb. unfold process_requested_block. core_bind. destruct (_ !! _) as [h|]; [|ret].
  core_bind; [split; simpl; auto|]. destruct (negb _); [ret|]. core_bind.
  match goal with |- triple _ (match ?x with Some _ => _ | None => _ end) _ => destruct x end;
    [apply runs_good, runs_panic|].
  eapply triple_bind; [by apply add_and_prepare_good|]. intros ?. apply replay_block_good.
Qed.

Lemma dam_dispatch_good D s0 m :
  dam_trusted m -> triple (dam_good D s0) (dam_dispatch clock m) (fun _ => dam_good D s0).
Proof.
  unfold dam_trusted, dam_dispatch. intros Hm. destruct (dm_message m).
  - by apply process_block_good.
  - by apply process_commitment_good.
  - apply process_handshake_good.
  - apply process_block_request_good.
  - by apply process_requested_block_good.
Qed.

(** ** Reflection *)

(** Handing out the collected output. *)
Lemma take_output_good D s0 s :
  dam_good D s0 s ->
  dam_good (D ++ du_delivery (dam_output s)) s0 s.[dam_output := DamUnreflected_new (dam_me s)].
Proof.
  intros [[] Hg]. split; [|by destruct Hg]. split; simpl; try done; [|by intros m ?%not_elem_of_nil].
  by rewrite app_nil_r.
Qed.

Definition dam_quiet s : Prop := dam_output s = DamUnreflected_new (dam_me s).

Lemma reflect_messages_good D s0 process ms o s o' s' :
  (forall D m s o s', dam_trusted m -> dam_good D s0 s -> dam_quiet s -> process m s = Val (o, s') ->
     dam_good (D ++ dout_delivery o) s0 s' /\ dam_quiet s') ->
  (forall m, m ∈ ms -> dam_trusted m) -> dam_good (D ++ dout_delivery o) s0 s -> dam_quiet s ->
  dam_reflect_messages process ms o s = Val (o', s') ->
  dam_good (D ++ dout_delivery o') s0 s' /\ dam_quiet s'.
Proof.
  intros Hproc. revert o s. induction ms as [|m ms IH]; intros o s Hms Hs Hq; simpl.
  { by intros [= <- <-]. }
  intros (r & s1 & Hm & Hrest)%st_bind_inv.
  destruct (Hproc (D ++ dout_delivery o) m s r s1) as [Hs1 Hq1]; [apply Hms; set_solver|done..|].
  apply IH in Hrest; [done| |simpl; by rewrite app_assoc|done]. intros x Hx. apply Hms. set_solver.
Qed.

Lemma dam_reflect_good fuel D s0 s o s' :
  dam_good D s0 s -> dam_reflect clock fuel s = Val (o, s') ->
  dam_good (D ++ dout_delivery o) s0 s' /\ dam_quiet s'.
Proof.
  revert D s o s'. induction fuel as [|fuel IH]; intros D s o s' Hs Hr; [done|]. cbn [dam_reflect] in Hr.
  eapply reflect_messages_good; [| | | |exact Hr].
  - intros D1 m s1 o1 s2 Hm Hs1 _ (u & s3 & Hd & Ho)%st_bind_inv. apply (IH _ s3); [|done].
    eapply good_apply; [apply (dam_dispatch_good D1 s0 m Hm)|exact Hs1|exact Hd].
  - intros m Hm. exact (di_reflection _ _ _ (proj1 Hs) m Hm).
  - by apply take_output_good.
  - done.
Qed.

(** ** Runs *)

Inductive dam_step s (o : DamOutput Tx Enc) s' : Prop :=
| dstep_handshake fuel : dam_init_handshake clock fuel s = Val (o, s') -> dam_step s o s'
| dstep_message fuel m : dam_trusted m -> dam_process_peer_message clock fuel m s = Val (o, s') -> dam_step s o s'
| dstep_request fuel tx : dam_receive_client_request clock fuel tx s = Val (o, s') -> dam_step s o s'
| dstep_block_timeout fuel : handle_block_timeout clock fuel s = Val (o, s') -> dam_step s o s'
| dstep_view_timeout fuel : handle_view_timeout clock fuel s = Val (o, s') -> dam_step s o s'.

Inductive dam_run s : list (DamOutput Tx Enc) -> Damysus B Tx Enc -> Prop :=
| drun_nil : dam_run s [] s
| drun_snoc os s1 o s2 : dam_run s os s1 -> dam_step s1 o s2 -> dam_run s (os ++ [o]) s2.

Definition dam_delivery (os : list (DamOutput Tx Enc)) : list Tx := concat (dout_delivery <$> os).

Lemma peers_added_core :
  runs same_core (update (fun s : Damysus B Tx Enc => k ← u64_add (dam_peers_added s) 1; Val s.[dam_peers_added := k])).
Proof.
  apply runs_update; [intros s; apply outcome_bind_fuel; [apply u64_add_fuel|done]|].
  intros s s' (k & _ & [= <-])%outcome_bind_inv. split; simpl; auto.
Qed.

Lemma push_to_last_fuel (bs : list (list Tx)) tx : push_to_last bs tx <> NoFuel.
Proof.
  induction bs as [|b bs IH]; [done|]. destruct bs as [|b' bs]; [done|]. cbn [push_to_last] in *.
  apply outcome_bind_fuel; [exact IH|done].
Qed.

Lemma request_core tx :
  runs same_core (update (fun s : Damysus B Tx Enc =>
    p ← Pending_insert (dam_pending_client_requests s) tx; Val s.[dam_pending_client_requests := p])).
Proof.
  apply runs_update.
  - intros s. apply outcome_bind_fuel; [|done]. unfold Pending_insert.
    apply outcome_bind_fuel; [apply push_to_last_fuel|done].
  - intros s s' (k & _ & [= <-])%outcome_bind_inv. split; simpl; auto.
Qed.

(** A method that keeps the invariant, and then [reflect]. *)
Lemma reflecting_good {A} (m : St (Damysus B Tx Enc) A) fuel D s0 s o s' :
  triple (dam_good D s0) m (fun _ => dam_good D s0) -> dam_good D s0 s ->
  (m ;; dam_reflect clock fuel) s = Val (o, s') -> dam_good (D ++ dout_delivery o) s0 s' /\ dam_quiet s'.
Proof.
  intros Hm Hs (a & s1 & Ha & Hr)%st_bind_inv. eapply dam_reflect_good; [|exact Hr].
  by eapply good_apply.
Qed.

Lemma dam_step_good D s0 s o s' :
  dam_good D s0 s -> dam_step s o s' -> dam_good (D ++ dout_delivery o) s0 s' /\ dam_quiet s'.
Proof.
  intros Hs [fuel Hr|fuel m Hm Hr|fuel tx Hr|fuel Hr|fuel Hr].
  - unfold dam_init_handshake in Hr. apply bind_inspect_inv in Hr as (key & _ & Hr). cbn beta in Hr.
    apply st_bind_inv in Hr as (me & s1 & [= <- <-] & Hr). apply st_bind_inv in Hr as (r & s2 & Hadd & Hr).
    assert (dam_good D s0 s2) as Hs2.
    { unfold dam_enclave_call, zoom in Hadd. apply outcome_bind_inv in Hadd as ([r' e] & He & [= <- <-]).
      destruct Hs as [[] Hg]. apply de_add_peer_law in He as [? ?]; [|done].
      split; [|by destruct Hg]. split; simpl; try done. congruence. }
    apply bind_lift_inv in Hr as (u & _ & Hr). apply st_bind_inv in Hr as (u2 & s3 & Hk & Hr).
    eapply (reflecting_good (dam_broadcast (Handshake key))); [apply runs_good, dam_broadcast_core| |exact Hr].
    eapply good_apply; [apply runs_good, peers_added_core|exact Hs2|exact Hk].
  - eapply reflecting_good; [by apply dam_dispatch_good|exact Hs|exact Hr].
  - unfold dam_receive_client_request in Hr. apply st_bind_inv in Hr as (u & s1 & H1' & Hr).
    assert (dam_good D s0 s1) as Hs1 by (eapply good_apply; [apply runs_good, request_core|exact Hs|exact H1']).
    apply st_bind_inv in Hr as (call & s2 & [= <- <-] & Hr).
    eapply reflecting_good; [|exact Hs1|exact Hr].
    destruct (dam_call_try_create_block s1).
    + core_bind. core_bind. match goal with |- triple _ (if ?x then _ else _) _ => destruct x end; [|ret].
      apply create_block_good.
    + core_bind. core_bind. ret.
  - unfold handle_block_timeout in Hr. apply st_bind_inv in Hr as (call & s2 & [= <- <-] & Hr).
    eapply reflecting_good; [|exact Hs|exact Hr]. destruct (negb _); [ret|apply create_block_good].
  - unfold handle_view_timeout in Hr. apply st_bind_inv in Hr as (v & s1 & [= <- <-] & Hr).
    apply bind_inspect_inv in Hr as (lead & _ & Hr). destruct lead; [by eapply dam_reflect_good|].
    eapply reflecting_good; [apply new_view_good|exact Hs|exact Hr].
Qed.

Lemma dam_run_good D s0 s os s' :
  dam_run s os s' -> dam_good D s0 s -> dam_good (D ++ dam_delivery os) s0 s'.
Proof.
  intros Hr Hs. induction Hr as [|os s1 o s2 _ IH Hst].
  - unfold dam_delivery. simpl. by rewrite app_nil_r.
  - apply dam_step_good with (D := D ++ dam_delivery os) (s0 := s0) in Hst as [Hg _]; [|exact IH].
    unfold dam_delivery in *. rewrite fmap_app, concat_app. simpl. by rewrite app_nil_r, app_assoc.
Qed.

Lemma dam_run_quiet D s0 s os s' : dam_run s os s' -> dam_good D s0 s -> dam_quiet s -> dam_quiet s'.
Proof.
  intros Hr Hs Hq. destruct Hr as [|os s1 o s2 Hr Hst]; [done|].
  pose proof (dam_run_good _ _ _ _ _ Hr Hs) as Hg. by apply (dam_step_good _ _ _ _ _ Hg) in Hst as [_ ?].
Qed.

(** A new replica. *)
Lemma Damysus_new_good t0 me n mn mx bt it s :
  (it <= duration_max)%N -> Damysus_new clock t0 me n mn mx bt it = Val s -> dam_good [] s s /\ dam_quiet s.
Proof.
  intros Hit Hs. unfold Damysus_new in Hs. apply outcome_bind_inv in Hs as (u1 & _ & Hs).
  apply outcome_bind_inv in Hs as (u2 & _ & Hs). apply outcome_bind_inv in Hs as (q & _ & Hs).
  apply outcome_bind_inv in Hs as (e & He & [= <-]).
  split; [|done]. split; [|reflexivity]. destruct (de_new_law me n q e He) as [Hi Hv].
  assert (forall v b, block_at (Blockstore_default : list (option Blk)) v = Some b -> b = Block_genesis) as Hgen.
  { intros v b. unfold block_at. destruct (N.to_nat v) as [|[|k]]; simpl; [by intros [= <-]|done..]. }
  split; simpl; try done.
  - apply Blockstore_default_wf.
  - intros v u (b & c & Hb & Hj & _). by apply Hgen in Hb as ->.
  - intros v b Hb. by apply Hgen in Hb as ->.
  - exists []. split; try done; [constructor| |].
    + intros v. split; [by intros ?%not_elem_of_nil|]. intros (b & Hb & Hx). by apply Hgen in Hb as ->.
    + intros pre v post Heq. by destruct pre.
  - apply HeapBuffer_default_inv.
  - by intros b ?%not_elem_of_nil.
  - apply HeapBuffer_default_inv.
  - by intros c ?%not_elem_of_nil.
  - by intros c ?%not_elem_of_nil.
  - intros i. rewrite <-elem_of_to_gset, to_gset_with_capacity. simpl. rewrite elem_of_nil. set_solver.
  - constructor.
  - by intros m ?%not_elem_of_nil.
Qed.
(** A run from the creation of the replica. *)
Lemma dam_new_run t0 me n mn mx bt it s os s' :
  (it <= duration_max)%N -> Damysus_new clock t0 me n mn mx bt it = Val s -> dam_run s os s' ->
  dam_good (dam_delivery os) s s' /\ dam_quiet s'.
Proof.
  intros Hit Hs Hr. destruct (Damysus_new_good _ _ _ _ _ _ _ _ Hit Hs) as [Hg Hq].
  split; [exact (dam_run_good _ _ _ _ _ Hr Hg)|exact (dam_run_quiet _ _ _ _ _ Hr Hg Hq)].
Qed.
End run.
