(* ===== verification/DamExamples.v ===== *)
(** * Damysus: a concrete system

    Two replicas with [NoopEnclave], bit sets on binary numbers and simple
    stand-ins for the digests and the sort: the inputs at which the theorems are
    evaluated.  The network delivers messages in the order they were sent. *)

From Stdlib Require Import ZArith Lia.
From stdpp Require Import base list gmap sets numbers option sorting.
From S2P Require Import Prelude Triple Ids Heaps Requests DamBase DamEnclave DamEnclaveFacts.
From S2P Require Import DamBlockstore DamReplica DamInvariant DamRun.

#[export] Existing Instance prerelease.

(** A transaction is its client and its request number. *)
#[export] Instance dx_transaction : Transaction (N * N) := {| client_id := fst; request_id := snd |}.

(** Digests that keep the bytes. *)
#[export] Instance dx_digests : Digests := {| sha256 := fun l => l; blake2b512 := fun l => l |}.

Definition key_le {A} (key : A -> N) : relation A := fun x y => (key x <= key y)%N.
#[export] Instance key_le_dec {A} (key : A -> N) : RelDecision (key_le key).
Proof. intros x y. unfold key_le. apply _. Defined.
#[export] Instance dx_sort : UnstableSort := fun A key l => merge_sort (key_le key) l.
#[export] Instance dx_sort_laws : UnstableSortLaws.
Proof.
  split; intros A key l.
  - apply merge_sort_Permutation.
  - apply StronglySorted_merge_sort.
    + intros x y z. unfold key_le. lia.
    + intros x y. unfold key_le. lia.
Qed.

Abbreviation DxEnc := (NoopEnclave N).
Abbreviation DxReplica := (Damysus N (N * N) DxEnc).
Abbreviation DxMsg := (DamPeerMessage (N * N) DxEnc).
Abbreviation DxOut := (DamOutput (N * N) DxEnc).

Lemma dx_checks : overflow_checks = true.
Proof. reflexivity. Qed.
#[export] Instance dx_laws : DamEnclaveLaws DxEnc.
Proof. by apply NoopEnclave_laws. Qed.

Definition dx_clock (k : nat) : N := N.of_nat k.

(** ** One replica *)

Inductive DxEvent :=
| DxHandshake
| DxMessage (m : DxMsg)
| DxRequest (tx : N * N)
| DxBlockTimeout
| DxViewTimeout.

Definition dx_step (e : DxEvent) : St DxReplica DxOut :=
  match e with
  | DxHandshake => dam_init_handshake dx_clock 20
  | DxMessage m => dam_process_peer_message dx_clock 20 m
  | DxRequest tx => dam_receive_client_request dx_clock 20 tx
  | DxBlockTimeout => handle_block_timeout dx_clock 20
  | DxViewTimeout => handle_view_timeout dx_clock 20
  end.

Definition commitment_okb {Sig} (c : SignedCommitment Sig) : bool :=
  (SC_get_block_view c <=? SC_get_view c)%N && (SC_get_prepared_block_view c <=? SC_get_view c)%N.
Definition block_okb {T} (b : Block T (de_Signature DxEnc)) : bool :=
  match bl_justification b with
  | Genesis => true
  | Quorum c => commitment_okb c && (SC_get_view c <? bl_view b)%N
  end.
Definition message_okb {T} (m : DamPeerMessage T DxEnc) : bool :=
  match dm_message m with
  | NewBlock b _ | RequestedBlock b => block_okb b
  | CommitmentMsg c => commitment_okb c
  | _ => true
  end.
Definition dx_trusted (e : DxEvent) : bool := match e with DxMessage m => message_okb m | _ => true end.

Lemma commitment_okb_spec {Sig} (c : SignedCommitment Sig) : commitment_okb c = true -> commitment_ok c.
Proof. intros [H1%N.leb_le H2%N.leb_le]%andb_true_iff. by split. Qed.
Lemma block_okb_spec {T} (b : Block T (de_Signature DxEnc)) : block_okb b = true -> block_ok b.
Proof.
  unfold block_okb, block_ok. destruct (bl_justification b) as [|c]; [done|].
  intros [H1%commitment_okb_spec H2%N.ltb_lt]%andb_true_iff. by split.
Qed.
Lemma message_okb_spec {T} (m : DamPeerMessage T DxEnc) : message_okb m = true -> dam_trusted m.
Proof.
  unfold dam_trusted, message_okb. destruct (dm_message m); [|apply commitment_okb_spec|done|done|]; apply block_okb_spec.
Qed.

(** A replica, its initial state and its outputs so far. *)
Record DxNode := mkDx { dx_start : DxReplica; dx_outs : list DxOut; dx_state : DxReplica }.

Definition dx_node_step (e : DxEvent) (nd : DxNode) : Outcome (DxOut * DxNode) :=
  rust_assert (dx_trusted e) ;;
  r ← dx_step e (dx_state nd);
  Val (r.1, mkDx (dx_start nd) (dx_outs nd ++ [r.1]) r.2).

Definition dx_new (i : N) : Outcome DxNode :=
  s ← Damysus_new dx_clock 0 i 2 1 2 1000 1000;
  Val (mkDx s [] s).

(** The node was created by [dx_new] and made a run. *)
Definition dx_node_ok (i : nat) (nd : DxNode) : Prop :=
  Damysus_new dx_clock 0 (N.of_nat i) 2 1 2 1000 1000 = Val (dx_start nd)
  /\ dam_run dx_clock (dx_start nd) (dx_outs nd) (dx_state nd).

Lemma dx_node_step_ok i e nd o nd' : dx_node_ok i nd -> dx_node_step e nd = Val (o, nd') -> dx_node_ok i nd'.
Proof.
  intros [Hn Hr] (Ht & Hs)%assert_inv. apply outcome_bind_inv in Hs as ([o1 s1] & Hs & [= <- <-]).
  split; [done|]. eapply drun_snoc; [exact Hr|]. destruct e as [|m|tx| |]; simpl in Hs.
  - by eapply dstep_handshake.
  - eapply dstep_message; [|exact Hs]. by apply message_okb_spec.
  - by eapply dstep_request.
  - by eapply dstep_block_timeout.
  - by eapply dstep_view_timeout.
Qed.

(** ** The network *)

Abbreviation DxNet := (list DxNode).
Abbreviation DxQueue := (list (N * DxMsg)).

(** What a peer receives: blocks without the skipped fields. *)
Definition dx_received {T} (m : DamPeerMessage T DxEnc) : DamPeerMessage T DxEnc :=
  mkDamMessage (dm_from m)
    match dm_message m with
    | NewBlock b p => NewBlock (Block_received b) p
    | RequestedBlock b => RequestedBlock (Block_received b)
    | x => x
    end.

Definition dx_sends (me : N) (o : DxOut) : DxQueue :=
  concat ((fun m => (fun t => (t, dx_received m)) <$> List.filter (fun t => negb (t =? me)%N) [0%N; 1%N])
          <$> dout_broadcasts o)
  ++ ((fun '(t, m) => (t, dx_received m)) <$> dout_unicasts o).

Definition dx_net_step (i : N) (e : DxEvent) (nq : DxNet * DxQueue) : Outcome (DxNet * DxQueue) :=
  nd ← unwrap (nq.1 !! N.to_nat i);
  r ← dx_node_step e nd;
  Val (<[N.to_nat i := r.2]> nq.1, nq.2 ++ dx_sends i r.1).

Fixpoint dx_drain (k : nat) (nq : DxNet * DxQueue) : Outcome (DxNet * DxQueue) :=
  match k with
  | O => Val nq
  | S k =>
      match nq.2 with
      | [] => Val nq
      | (to, m) :: q => nq ← dx_net_step to (DxMessage m) (nq.1, q); dx_drain k nq
      end
  end.

(** Handshake, then [k] times a request at each replica and the delivery of all messages. *)
Definition dx_run (k : N) : Outcome (DxNet * DxQueue) :=
  a ← dx_new 0; b ← dx_new 1;
  nq ← dx_net_step 0 DxHandshake ([a; b], []);
  nq ← dx_net_step 1 DxHandshake nq;
  nq ← dx_drain 100 nq;
  for_each (range 1 (k + 1)) nq (fun nq r =>
    nq ← dx_net_step 0 (DxRequest (0, r)%N) nq;
    nq ← dx_net_step 1 (DxRequest (1, r)%N) nq;
    dx_drain 100 nq).

Definition dx_net_ok (net : DxNet) : Prop := forall j nd, net !! j = Some nd -> dx_node_ok j nd.

Lemma dx_net_step_ok i e nq nq' : dx_net_ok nq.1 -> dx_net_step i e nq = Val nq' -> dx_net_ok nq'.1.
Proof.
  intros Hok Hs. unfold dx_net_step in Hs. apply outcome_bind_inv in Hs as (nd & Hnd & Hs).
  apply outcome_bind_inv in Hs as ([o nd'] & Hst & [= <-]). simpl. intros j x Hx.
  destruct (nq.1 !! N.to_nat i) as [nd0|] eqn:E; [|done]. injection Hnd as ->.
  apply list_lookup_insert_Some in Hx as [(<- & <- & _)|[_ Hx]]; [|by apply Hok].
  by eapply dx_node_step_ok; [apply Hok|].
Qed.

Lemma dx_drain_ok k nq nq' : dx_net_ok nq.1 -> dx_drain k nq = Val nq' -> dx_net_ok nq'.1.
Proof.
  revert nq. induction k as [|k IH]; intros [net q] Hok; simpl; [by intros [= <-]|].
  destruct q as [|[to m] q]; [by intros [= <-]|]. intros (nq1 & H1q & Hr)%outcome_bind_inv.
  eapply IH; [|exact Hr]. by eapply dx_net_step_ok; [|exact H1q].
Qed.

Lemma dx_new_ok i nd : dx_new (N.of_nat i) = Val nd -> dx_node_ok i nd.
Proof. intros (s & Hs & [= <-])%outcome_bind_inv. split; [exact Hs|apply drun_nil]. Qed.

(** The steps stay folded in what follows. *)
#[local] Opaque dx_new dx_net_step dx_drain.

Lemma dx_run_ok k nq : dx_run k = Val nq -> dx_net_ok nq.1.
Proof.
  unfold dx_run. intros (a & Ha & Hh)%outcome_bind_inv. apply outcome_bind_inv in Hh as (b & Hb & Hh).
  apply outcome_bind_inv in Hh as (n1 & Hn1 & Hh). apply outcome_bind_inv in Hh as (n2 & Hn2 & Hh).
  apply outcome_bind_inv in Hh as (n3 & Hn3 & Hh).
  assert (dx_net_ok n3.1) as Hok.
  { eapply dx_drain_ok; [|exact Hn3]. eapply dx_net_step_ok; [|exact Hn2]. eapply dx_net_step_ok; [|exact Hn1].
    intros [|[|j]] nd; simpl; intros [= <-]; by apply dx_new_ok. }
  clear Hn3. revert n3 Hok Hh. generalize (range 1 (k + 1)). intros l. induction l as [|r l IH]; intros n3 Hok; simpl.
  { by intros [= <-]. }
  intros (n4 & Hn4 & Hr)%outcome_bind_inv. eapply IH; [|exact Hr].
  apply outcome_bind_inv in Hn4 as (n5 & Hn5 & Hn4). apply outcome_bind_inv in Hn4 as (n6 & Hn6 & Hn4).
  eapply dx_drain_ok; [|exact Hn4]. eapply dx_net_step_ok; [|exact Hn6]. by eapply dx_net_step_ok; [|exact Hn5].
Qed.

(** A replica after a run of the network that passes a test, evaluated. *)
Lemma dx_node_Val k i test :
  holds (dx_run k) (fun nq => match nq.1 !! i with Some nd => test nd | None => false end) = true ->
  exists nd, test nd = true /\ dx_node_ok i nd.
Proof.
  intros (nq & Hnq & Ht)%holds_Val. destruct (nq.1 !! i) as [nd|] eqn:Hi; [|done].
  exists nd. split; [done|]. by eapply dx_run_ok.
Qed.

(** ** A network that alters a justification

    The block of view 1 on its way to replica 1 is made to be justified by itself;
    the block's hash and the signatures stay as they are. *)

Definition dx_forge (m : DxMsg) : DxMsg :=
  match dm_message m with
  | NewBlock b p =>
      match bl_justification b with
      | Quorum c =>
          if (bl_view b =? 1)%N then
            let c' := SignedCommitment_new ((sc_commitment c).[cm_block_view := 1%N].[cm_block_hash := []])
                        (sc_signature c) in
            mkDamMessage (dm_from m) (NewBlock (b.[bl_justification := Quorum c']) p)
          else m
      | Genesis => m
      end
  | _ => m
  end.

Definition dx_forging_step (i : N) (e : DxEvent) (nq : list DxReplica * DxQueue) : Outcome (list DxReplica * DxQueue) :=
  s ← unwrap (nq.1 !! N.to_nat i);
  r ← dx_step e s;
  Val (<[N.to_nat i := r.2]> nq.1, nq.2 ++ dx_sends i r.1).

Fixpoint dx_forging_drain (k : nat) (nq : list DxReplica * DxQueue) : Outcome (list DxReplica * DxQueue) :=
  match k with
  | O => Val nq
  | S k =>
      match nq.2 with
      | [] => Val nq
      | (to, m) :: q => nq ← dx_forging_step to (DxMessage (dx_forge m)) (nq.1, q); dx_forging_drain k nq
      end
  end.

(** Handshake, two requests at each replica, and [k] messages. *)
Definition dx_attack (k : nat) : Outcome (list DxReplica * DxQueue) :=
  a ← dx_new 0; b ← dx_new 1;
  nq ← dx_forging_step 0 DxHandshake ([dx_state a; dx_state b], []);
  nq ← dx_forging_step 1 DxHandshake nq;
  nq ← dx_forging_drain 100 nq;
  nq ← for_each [0%N; 1%N] nq (fun nq i =>
    nq ← dx_forging_step i (DxRequest (i, 1)%N) nq;
    dx_forging_step i (DxRequest (i, 2)%N) nq);
  nq ← dx_forging_drain k nq;
  dx_forging_step 1 (DxRequest (1, 3)%N) nq.
