(* ===== verification/DamTheorems.v ===== *)
(** * Damysus: theorems

    The properties of the trusted component and of the replica, each with a
    witness on the example system of [DamExamples]. *)

From Stdlib Require Import ZArith Lia.
From stdpp Require Import base list gmap sets numbers option relations sorting.
From S2P Require Import Prelude Triple Ids Heaps Requests DamBase DamEnclave DamEnclaveFacts.
From S2P Require Import DamBlockstore DamReplica DamInvariant DamRun DamExamples.

(** ** Runs of a replica *)

Section runs.
  Context {P : Profile} {B Tx Enc : Type}.
  Context `{BitSetLaws B} `{Digests} `{DamEnclaveLaws Enc} `{Transaction Tx} `{UnstableSortLaws}.
  Context (clock : nat -> N).
  Implicit Types (s : Damysus B Tx Enc) (os : list (DamOutput Tx Enc)) (b : Block Tx (de_Signature Enc)).

(** C29: the invariant of a replica.  After a run from its creation in which every received
    block and commitment refers to no later view than its own, which the code does not
    check and the signatures do not guarantee, with a timeout that a [Duration] can
    hold and overflow checks on: the block store is indexed by view and justifications
    lead to earlier views, the enclave's view is the replica's, the collected
    commitments are usigs of the previous view by distinct creators, exactly the
    recorded ones, and the state has only grown: no block is replaced, no execution
    undone, no view left backwards. *)
Theorem dam_replica_invariant t0 me n mn mx bt it s os s' :
  overflow_checks = true -> (it <= duration_max)%N ->
  Damysus_new clock t0 me n mn mx bt it = Val s -> dam_run clock s os s' ->
  dam_inv_upto 0 (dam_delivery os) s' /\ dam_grows s s'.
Proof.
  intros Hchecks Hit Hs Hr. by destruct (dam_new_run clock Hchecks _ _ _ _ _ _ _ _ _ _ Hit Hs Hr) as [[? ?] _].
Qed.

(** C5: refinement of the log.  After a run from its creation in which every received
    block and commitment refers to no later view than its own, which the code does not
    check and the signatures do not guarantee, with a timeout that a [Duration] can
    hold and overflow checks on, what a replica has delivered is the deduplication
    of the transactions of the blocks marked as executed in its store, in an order in
    which each of them occurs once and after the block that justifies it. *)
Theorem dam_delivers_log t0 me n mn mx bt it s os s' :
  overflow_checks = true -> (it <= duration_max)%N ->
  Damysus_new clock t0 me n mn mx bt it = Val s -> dam_run clock s os s' ->
  exists hist, exec_log (dam_blockstore s') (dam_executed_transactions s') hist (dam_delivery os).
Proof.
  intros Hchecks Hit Hs Hr. destruct (dam_new_run clock Hchecks _ _ _ _ _ _ _ _ _ _ Hit Hs Hr) as [[Hi _] Hq].
  unfold dam_quiet in Hq.
  destruct (di_log _ _ _ Hi) as (hist & Hlog). rewrite Hq, app_nil_r in Hlog. by exists hist.
Qed.

(** Integrity.  Over a run the delivered requests of one client have
    strictly increasing numbers; in particular none is delivered twice. *)
Theorem dam_exactly_once t0 me n mn mx bt it s os s' i j x y :
  overflow_checks = true -> (it <= duration_max)%N ->
  Damysus_new clock t0 me n mn mx bt it = Val s -> dam_run clock s os s' ->
  dam_delivery os !! i = Some x -> dam_delivery os !! j = Some y -> i < j ->
  client_id x = client_id y -> (request_id x < request_id y)%N.
Proof.
  intros Hchecks Hit Hs Hr. destruct (dam_new_run clock Hchecks _ _ _ _ _ _ _ _ _ _ Hit Hs Hr) as [[Hi _] Hq].
  unfold dam_quiet in Hq.
  destruct (di_log _ _ _ Hi) as (hist & [_ _ _ _ Hd]). rewrite Hq, app_nil_r in Hd. simpl in Hd. rewrite Hd.
  apply increasing_lookup with (last := ∅). apply dedup_increasing.
Qed.

(** C33: the handlers terminate on trusted messages.  In every state that a run of
    messages that refer to no later view than their own reaches, the handler of another
    such message, the creation of a block and the move to a new view return or panic:
    the walk over the block store, the replay of stored blocks and commitments and the
    mutual recursion of round transitions need no more fuel than they are given.
    Overflow checks are on, and a [Duration] can hold the timeout.  The code does not
    check the condition on messages, and without it a handler can loop for ever
    ([dam_execute_diverges]). *)
Theorem dam_handlers_terminate t0 me n mn mx bt it s os s' m :
  overflow_checks = true -> (it <= duration_max)%N ->
  Damysus_new clock t0 me n mn mx bt it = Val s -> dam_run clock s os s' -> dam_trusted m ->
  dam_dispatch clock m s' <> NoFuel
  /\ create_block clock (round_transition clock false) s' <> NoFuel
  /\ new_view clock s' <> NoFuel.
Proof.
  intros Hchecks Hit Hs Hr Hm. destruct (dam_new_run clock Hchecks _ _ _ _ _ _ _ _ _ _ Hit Hs Hr) as [Hi _].
  split_and!; (eapply triple_fuel; [|exact Hi]).
  - by apply dam_dispatch_good.
  - by apply create_block_good.
  - by apply new_view_good.
Qed.
End runs.

(** ** The trusted component *)

Section enclave.
  Context {P : Profile} {B : Type} `{BitSetLaws B} `{Digests} {Enc : Type} `{DamEnclaveTrusted Enc}.
  Implicit Types (a : DamAutomata Enc) (c : SignedCommitment (dt_Signature Enc)).

(** One commitment per view.  Whatever sequence of [accumulate], [prepare]
    and [re_sign_last_prepared] is asked of the trusted component, in whatever
    order and with whatever arguments, the usigs it returns are its own and their
    views increase strictly: it never signs two for one view. *)
Theorem dam_usig_unique ops a cs a' :
  (da_view a + N.of_nat (length ops) < 2 ^ 64)%N -> da_calls (B := B) ops a = Val (cs, a') ->
  (da_view a <= da_view a')%N
  /\ Forall (fun c => SC_is_usig c = true -> SC_get_creator c = da_me a
                      /\ (da_view a <= SC_get_view c < da_view a')%N) cs
  /\ StronglySorted N.lt (SC_get_view <$> List.filter SC_is_usig cs).
Proof. intros Hv Hc. by destruct (da_calls_usigs _ _ _ _ Hv Hc) as (_ & ? & ? & ?). Qed.

(** C26: soundness of accumulators.  An accumulator that [accumulate] returns is
    for the previous view and backed by a quorum of validly signed usigs of that
    view by distinct creators: when it is a prepare, all of them prepare its
    block; otherwise its block is the one of the highest prepared view among
    them.  The state does not change. *)
Theorem dam_accumulate_sound a cs c a' :
  overflow_checks = true \/ (N.of_nat (length cs) < 2 ^ 64)%N ->
  DamAutomata_accumulate (B := B) a cs = Val (Ok c, a') ->
  a' = a /\ SC_is_accumulator c = true /\ SC_get_creator c = da_me a /\ (SC_get_view c + 1)%N = da_view a
  /\ accumulates a cs c.
Proof.
  intros Hl Ha. apply DamAutomata_accumulate_Ok in Ha as (-> & Hpos & Hacc & Hcr & Hv & _ & Hback); [|done].
  split_and!; [done..|lia|done].
Qed.

(** When [prepare] signs. *)
Definition prepare_allowed a (bv : N) (j : Justification (dt_Signature Enc)) (jh : BlockHash) : Prop :=
  exists c, j = Quorum c /\ (SC_get_view c + 1)%N = da_view a /\ bv = da_view a
    /\ SC_get_block_hash c = jh /\ SC_is_accumulator c = true /\ DamAutomata_verify a c = Ok true.

Lemma prepare_refused a bv h j p jh :
  (forall c, j = Quorum c -> SC_get_view c + 1 < 2 ^ 64)%N -> ~ prepare_allowed a bv j jh ->
  exists e, DamAutomata_prepare a bv h j p jh = Val (Err e, a).
Proof.
  intros Hb Hno. unfold DamAutomata_prepare. destruct j as [|c]; simpl; [by eexists|].
  unfold SC_get_view_usable_for, View_get_successor. rewrite u64_add_Val by by apply Hb. simpl.
  destruct (N.eqb_spec (SC_get_view c + 1) (da_view a)) as [Hv|]; simpl; [|by eexists].
  destruct (N.eqb_spec (da_view a) bv) as [Hbv|]; simpl; [|by eexists].
  destruct (bool_decide (SC_get_block_hash c = jh)) eqn:Hh; simpl; [|by eexists].
  unfold DamAutomata_verify_accumulator. destruct (Commitment_is_accumulator _) eqn:Ha; simpl; [|by eexists].
  destruct (DamAutomata_verify a c) as [[]|] eqn:Hver; [|by eexists..].
  destruct Hno. exists c. apply bool_decide_eq_true in Hh. by split_and!.
Qed.

(** [prepare].  It signs exactly when the justification is a valid
    accumulator of the previous view for the given hash and the block is of the
    current view; then the view advances, the justifying block becomes the last
    prepared one when it is the block's parent, and the commitment is a prepare
    of the block in the view that was left.  Otherwise it refuses with an error
    and changes nothing. *)
Theorem dam_prepare_spec a bv h j p jh :
  (da_view a + 1 < 2 ^ 64)%N -> (forall c, j = Quorum c -> SC_get_view c + 1 < 2 ^ 64)%N ->
  (~ prepare_allowed a bv j jh -> exists e, DamAutomata_prepare a bv h j p jh = Val (Err e, a))
  /\ (prepare_allowed a bv j jh -> exists a1 c,
        j = Quorum c
        /\ a1 = (if Parent_eq_hash p jh
                 then a.[da_last_prepared_block_hash := jh].[da_last_prepared_block_view := SC_get_block_view c]
                 else a)
        /\ DamAutomata_prepare a bv h j p jh
           = Val (DamAutomata_create_commitment a1 (da_view a) bv h Usig true, a1.[da_view := (da_view a + 1)%N])).
Proof.
  intros Hv Hb. split; [by apply prepare_refused|]. intros (c & -> & Hcv & -> & <- & Hacc & Hver).
  eexists _, c. split; [done|]. split; [done|]. unfold DamAutomata_prepare. simpl.
  unfold SC_get_view_usable_for, View_get_successor. rewrite u64_add_Val by by apply Hb. simpl.
  rewrite Hcv, !N.eqb_refl, bool_decide_eq_true_2 by done. simpl.
  unfold DamAutomata_verify_accumulator. unfold SC_is_accumulator in Hacc. rewrite Hacc, Hver. simpl.
  unfold DamAutomata_create_usig, View_increment.
  destruct (Parent_eq_hash _ _); simpl; rewrite u64_add_Val, N.eqb_refl by done; done.
Qed.
End enclave.

(** ** Executing *)

Section execute.
  Context {P : Profile} {B Tx Enc : Type}.
  Context `{BitSetLaws B} `{Digests} `{DamEnclaveLaws Enc} `{Transaction Tx} `{UnstableSortLaws}.
  Context (clock : nat -> N).
  Abbreviation Blk := (Block Tx (de_Signature Enc)).
  Implicit Types (s : Damysus B Tx Enc) (b : Blk) (bs : list (option Blk)).

Lemma execute_block_Val s v b :
  0 < length (dam_blockstore s) -> block_at (dam_blockstore s) v = Some b ->
  exists bs, execute_block v s = Val ((), dam_delivered (s.[dam_blockstore := bs]) (bl_transactions b))
    /\ same_blocks (dam_blockstore s) bs
    /\ forall w, executed_at bs w <-> executed_at (dam_blockstore s) w \/ w = v.
Proof.
  intros Hne Hb. destruct (execute_at _ v b Hne Hb) as (bs & Hg & Hsame & Hx). exists bs. split; [|done].
  unfold execute_block, stored_block.
  erewrite st_bind_Val by (apply inspect_Val; rewrite Blockstore_get_spec by done; reflexivity).
  rewrite Hb. cbn [unwrap]. erewrite st_bind_Val by (apply lift_Val; reflexivity).
  erewrite st_bind_Val by (apply update_Val; rewrite Hg; reflexivity). apply execute_transactions_spec.
Qed.

Lemma execute_views_Val l s :
  0 < length (dam_blockstore s) -> (forall v, v ∈ l -> is_Some (block_at (dam_blockstore s) v)) ->
  exists bs, st_for l execute_block s
      = Val ((), dam_delivered (s.[dam_blockstore := bs]) (log_txs (dam_blockstore s) l))
    /\ same_blocks (dam_blockstore s) bs
    /\ forall w, executed_at bs w <-> executed_at (dam_blockstore s) w \/ w ∈ l.
Proof.
  revert s. induction l as [|v l IH]; intros s Hne Hl.
  { exists (dam_blockstore s). cbn [st_for]. split; [change (log_txs _ []) with (@nil Tx); rewrite dam_delivered_nil; by destruct s|].
    split; [done|]. intros w. rewrite elem_of_nil. naive_solver. }
  destruct (Hl v) as [b Hb]; [set_solver|].
  destruct (execute_block_Val s v b Hne Hb) as (bs & Hv & Hs & Hx).
  destruct (IH (dam_delivered (s.[dam_blockstore := bs]) (bl_transactions b))) as (bs' & Hr & Hs' & Hx').
  { simpl. destruct Hs as [<- _]. done. }
  { simpl. intros w Hw. destruct (Hl w) as [b' Hb']; [set_solver|].
    destruct (same_blocks_at _ _ _ _ Hs Hb') as (x & -> & _). done. }
  exists bs'. cbn [st_for]. erewrite st_bind_Val by exact Hv. rewrite Hr. split.
  - simpl. rewrite <-(log_txs_same _ _ l Hs). change (v :: l) with ([v] ++ l). rewrite log_txs_app.
    unfold log_txs at 2. simpl. rewrite Hb. simpl. rewrite app_nil_r. by rewrite <-dam_delivered_app.
  - simpl in Hs', Hx'. split; [by eapply same_blocks_trans|]. intros w. rewrite Hx', Hx, elem_of_cons. naive_solver.
Qed.

(** [b] extends a block that extends its own justifying block, whose view is [v]. *)
Definition three_chain bs b (c : SignedCommitment (de_Signature Enc)) (v : N) : Prop :=
  exists jb g gb, block_at bs (SC_get_block_view c) = Some jb /\ bl_justification jb = Quorum g
    /\ block_at bs (SC_get_block_view g) = Some gb /\ bl_view gb = v
    /\ Parent_eq_hash (bl_parent b) (Block_hash_value de_sig_bytes jb) = true
    /\ Parent_eq_hash (bl_parent jb) (Block_hash_value de_sig_bytes gb) = true.

Lemma exec_chain_members bs v l : exec_chain bs v l -> forall w, w ∈ l -> is_Some (block_at bs w).
Proof.
  induction 1 as [|v u l Hx (b & c & Hb & _) _ IH]; intros w; [by intros ?%not_elem_of_nil|].
  intros [->|Hw]%elem_of_cons; [by eexists|by apply IH].
Qed.

Lemma try_execute_from_Val k D s v :
  dam_inv_upto k D s ->
  ((forall l, ~ exec_chain (dam_blockstore s) v l) /\ try_execute_from clock v s = Val ((), s))
  \/ exists l bs s', exec_chain (dam_blockstore s) v l /\ try_execute_from clock v s = Val ((), s')
       /\ same_blocks (dam_blockstore s) bs /\ dam_blockstore s' = bs
       /\ (forall w, executed_at bs w <-> executed_at (dam_blockstore s) w \/ w ∈ l)
       /\ let r := dedup (dam_executed_transactions s) (log_txs (dam_blockstore s) (reverse l)) in
          dam_executed_transactions s' = r.1
          /\ du_delivery (dam_output s') = du_delivery (dam_output s) ++ r.2.
Proof.
  intros Hi. pose proof (bs_nonempty _ (di_store _ _ _ Hi)) as Hne.
  destruct (to_execute_loop_spec (execute_fuel (dam_blockstore s)) (dam_blockstore s) v [])
    as (r & Hr & Hl & Hn); [apply Hi|done|unfold execute_fuel; lia| |].
  { intros [b Hb]. unfold execute_fuel. destruct (decide (length (dam_blockstore s) <= N.to_nat v)); [|lia].
    by rewrite block_at_ge in Hb. }
  unfold try_execute_from. erewrite st_bind_Val by (apply inspect_Val; exact Hr).
  destruct r as [l|]; [right|left; split; [exact (Hn eq_refl)|reflexivity]].
  destruct (Hl l eq_refl) as (ext & -> & Hext). simpl.
  set (s1 := (s.[dam_ticks := S (dam_ticks s)]).[dam_output ::= log_decision_time (clock (dam_ticks s))]).
  destruct (execute_views_Val (reverse ext) s1) as (bs & Hs1 & Hsame & Hx); [done| |].
  { intros w Hw. rewrite elem_of_reverse in Hw. exact (exec_chain_members _ _ _ Hext w Hw). }
  eexists ext, bs, _. split; [done|]. split; [exact Hs1|]. split; [done|]. split; [done|]. split; [|done].
  intros w. rewrite Hx, elem_of_reverse. done.
Qed.

(** C10: the commit rule.  Adding a block whose justifying block is its parent,
    and whose justifying block's justifying block [v] is that one's parent, makes
    the replica execute the chain of blocks from the last executed one up to [v],
    oldest first, and deliver their requests that are new; when a block of that
    chain is missing, or the justifications are not the parents, nothing
    changes. *)
Theorem dam_three_chain_rule k D s b c :
  dam_inv_upto k D s ->
  exists s', try_execute_chain clock b c s = Val ((), s')
    /\ ((s' = s /\ forall v l, three_chain (dam_blockstore s) b c v -> ~ exec_chain (dam_blockstore s) v l)
        \/ exists v l, three_chain (dam_blockstore s) b c v /\ exec_chain (dam_blockstore s) v l
             /\ same_blocks (dam_blockstore s) (dam_blockstore s')
             /\ (forall w, executed_at (dam_blockstore s') w <-> executed_at (dam_blockstore s) w \/ w ∈ l)
             /\ let r := dedup (dam_executed_transactions s) (log_txs (dam_blockstore s) (reverse l)) in
                dam_executed_transactions s' = r.1
                /\ du_delivery (dam_output s') = du_delivery (dam_output s) ++ r.2).
Proof.
  intros Hi. pose proof (bs_nonempty _ (di_store _ _ _ Hi)) as Hne.
  assert (forall w, stored_block w s = Val (block_at (dam_blockstore s) w, s)) as Hget.
  { intros w. unfold stored_block. apply inspect_Val. by apply Blockstore_get_spec. }
  unfold try_execute_chain. erewrite st_bind_Val by apply Hget.
  destruct (block_at _ (SC_get_block_view c)) as [jb|] eqn:Hjb.
  2:{ exists s. split; [done|]. left. split; [done|]. intros v l (? & ? & ? & ? & _). congruence. }
  destruct (bl_justification jb) as [|g] eqn:Hg.
  { exists s. split; [done|]. left. split; [done|]. intros v l (? & ? & ? & ? & ? & _). congruence. }
  erewrite st_bind_Val by apply Hget. destruct (block_at _ (SC_get_block_view g)) as [gb|] eqn:Hgb.
  2:{ exists s. split; [done|]. left. split; [done|]. intros v l (? & ? & ? & ? & ? & ? & _). simplify_eq.
      congruence. }
  assert (forall v, three_chain (dam_blockstore s) b c v <->
    v = bl_view gb /\ Parent_eq_hash (bl_parent b) (Block_hash_value de_sig_bytes jb) && Parent_eq_hash (bl_parent jb) (Block_hash_value de_sig_bytes gb) = true)
    as Hthree.
  { intros v. rewrite andb_true_iff. split; [|by intros (-> & ? & ?); exists jb, g, gb].
    intros (jb' & g' & gb' & ? & Hg' & ? & <- & ? & ?). simplify_eq. rewrite Hg in Hg'. injection Hg' as <-.
    by simplify_eq. }
  destruct (Parent_eq_hash (bl_parent b) _ && _).
  2:{ exists s. split; [done|]. left. split; [done|]. by intros v l [_ ?]%Hthree. }
  destruct (try_execute_from_Val k D s (bl_view gb) Hi) as [[Hno Heq]|(l & bs & s' & Hl & Heq & Hs & <- & Hx & Hd)].
  - exists s. split; [done|]. left. split; [done|]. intros v l [-> _]%Hthree. apply Hno.
  - exists s'. split; [done|]. right. exists (bl_view gb), l. split; [by apply Hthree|done].
Qed.
End execute.

(** ** The block store *)

(** The block store is a map from views to blocks.  It starts with the
    genesis block at view zero; [get] reads the map, [insert] adds a block under
    its view and panics exactly when there is one already, [get_mut] changes the
    block of one view and reports whether there is one; all of them keep the
    store well formed when the mutation keeps views. *)
Theorem dam_blockstore_refines {P : Profile} `{Digests} {Tx Sig : Type}
    (blocks : list (option (Block Tx Sig))) (b : Block Tx Sig) v f :
  Blockstore_wf blocks -> (forall x, bl_view (f x) = bl_view x) ->
  Blockstore_get blocks v = Val (block_at blocks v)
  /\ ((block_at blocks (bl_view b) = None /\ exists blocks', Blockstore_insert blocks b = Val blocks'
         /\ Blockstore_wf blocks'
         /\ forall w, block_at blocks' w = if decide (w = bl_view b) then Some b else block_at blocks w)
      \/ (is_Some (block_at blocks (bl_view b)) /\ Blockstore_insert blocks b = Panic))
  /\ exists blocks', Blockstore_get_mut blocks v f = Val (bool_decide (is_Some (block_at blocks v)), blocks')
       /\ Blockstore_wf blocks'
       /\ forall w, block_at blocks' w = if decide (w = v) then f <$> block_at blocks w else block_at blocks w.
Proof.
  intros Hwf Hf. pose proof Hwf as [Hne Hv]. split; [by apply Blockstore_get_spec|]. split.
  - pose proof (Blockstore_insert_spec blocks b) as Hs.
    destruct (block_at blocks (bl_view b)) as [b0|] eqn:Hb; [right; by split|left]. split; [done|].
    destruct Hs as (bs & Hbs & _). exists bs. split; [done|].
    by destruct (Blockstore_insert_wf _ _ _ Hwf Hbs) as (? & _ & ?).
  - destruct (Blockstore_get_mut_spec blocks v f Hne) as (bs & Hg & Hlen & Hat). exists bs. split; [done|].
    split; [|done]. split; [lia|]. intros w x. rewrite Hat. destruct (decide (w = v)) as [->|]; [|apply Hv].
    intros (y & Hy & ->)%fmap_Some. rewrite Hf. by apply Hv.
Qed.

(** ** What the checks miss *)

Section attacks.
  Context {P : Profile} {B Tx Enc : Type}.
  Context `{BitSetLaws B} `{Digests} `{DamEnclave Enc} `{Transaction Tx} `{UnstableSort}.
  Context (clock : nat -> N).
  Abbreviation Blk := (Block Tx (de_Signature Enc)).
  Implicit Types (s : Damysus B Tx Enc) (b : Blk) (c p : SignedCommitment (de_Signature Enc)).

(** A commitment with another block in it. *)
Definition with_block c (v : N) (h : BlockHash) : SignedCommitment (de_Signature Enc) :=
  SignedCommitment_new ((sc_commitment c).[cm_block_view := v].[cm_block_hash := h]) (sc_signature c).

(** A proposal is not protected.  The hash of a commitment leaves out the
    view and the hash of its block, and the hash of a block its transactions:
    putting any other justifying block and any other transactions into a
    proposed block keeps its hash, and [process_block] checks it with the same
    result, against the unchanged signatures. *)
Theorem dam_proposal_forgeable s b p c v h txs :
  bl_justification b = Quorum c ->
  let b' := b.[bl_justification := Quorum (with_block c v h)].[bl_transactions := txs] in
  Block_hash_value (@de_sig_bytes Enc _) b' = Block_hash_value (@de_sig_bytes Enc _) b
  /\ block_checks b' p s = block_checks b p s.
Proof.
  intros Hj b'.
  assert (Block_hash_value (@de_sig_bytes Enc _) b' = Block_hash_value (@de_sig_bytes Enc _) b) as Hh.
  { unfold Block_hash_value, b'. simpl. rewrite Hj. by destruct (bl_precomputed_hash b). }
  split; [done|]. unfold block_checks. by rewrite Hh, Hj.
Qed.

(** A forged justification stops a replica.  When the block of view [v] in
    the store is justified by a commitment that names [v] itself, which the
    checks of a received block do not exclude, the walk of [try_execute_from]
    from [v] never ends. *)
Theorem dam_execute_diverges s v :
  0 < length (dam_blockstore s) -> ~ executed_at (dam_blockstore s) v -> justified (dam_blockstore s) v v ->
  (forall fuel acc, to_execute_loop fuel (dam_blockstore s) v acc = NoFuel)
  /\ try_execute_from clock v s = NoFuel.
Proof.
  intros Hne Hx Hj.
  assert (forall fuel acc, to_execute_loop fuel (dam_blockstore s) v acc = NoFuel) as Hl
    by (intros fuel acc; by apply to_execute_loop_diverges).
  split; [done|]. unfold try_execute_from, mbind, St_bind, inspect. by rewrite Hl.
Qed.

(** A conflicting old block panics.  A block of a past view that differs
    from the stored one panics the replica, before its signatures are looked at:
    any peer can send one. *)
Theorem dam_conflicting_block_panics s b p existing from :
  0 < length (dam_blockstore s) -> (bl_view b < dam_view s)%N ->
  block_at (dam_blockstore s) (bl_view b) = Some existing ->
  Block_hash_value (@de_sig_bytes Enc _) existing <> Block_hash_value (@de_sig_bytes Enc _) b ->
  dam_dispatch clock (mkDamMessage from (NewBlock b p)) s = Panic.
Proof.
  intros Hne Hv Hb Hh. unfold dam_dispatch, process_block. simpl.
  unfold mbind at 1, St_bind, self. simpl. rewrite (proj2 (N.ltb_lt _ _) Hv).
  unfold stored_block, mbind, St_bind, inspect. simpl. rewrite Blockstore_get_spec, Hb by done. simpl.
  by rewrite bool_decide_eq_false_2.
Qed.
End attacks.

(** ** Witnesses *)

Lemma dam_replica_invariant_witness :
  exists nd : DxNode, dam_inv_upto 0 (dam_delivery (dx_outs nd)) (dx_state nd) /\ (3 <= dam_view (dx_state nd))%N.
Proof.
  destruct (dx_node_Val 6 0 (fun nd => (3 <=? dam_view (dx_state nd))%N)) as (nd & Hv%N.leb_le & Hs & Hr);
    [vm_compute; reflexivity|].
  exists nd. split; [|exact Hv].
  apply (dam_replica_invariant dx_clock 0 (N.of_nat 0) 2 1 2 1000 1000 (dx_start nd) (dx_outs nd) (dx_state nd));
    [reflexivity|vm_compute; discriminate|exact Hs|exact Hr].
Defined.

Lemma dam_delivers_log_witness :
  exists (nd : DxNode) hist, exec_log (dam_blockstore (dx_state nd)) (dam_executed_transactions (dx_state nd)) hist
      (dam_delivery (dx_outs nd)) /\ 2 <= length (dam_delivery (dx_outs nd)).
Proof.
  destruct (dx_node_Val 6 0 (fun nd => 2 <=? length (dam_delivery (dx_outs nd)))) as (nd & Hv%Nat.leb_le & Hs & Hr);
    [vm_compute; reflexivity|].
  destruct (dam_delivers_log dx_clock 0 (N.of_nat 0) 2 1 2 1000 1000 (dx_start nd) (dx_outs nd) (dx_state nd))
    as [hist Hlog]; [reflexivity|vm_compute; discriminate|exact Hs|exact Hr|].
  exists nd, hist. split; [exact Hlog|exact Hv].
Defined.

Lemma dam_exactly_once_witness :
  exists (nd : DxNode) x y, dam_delivery (dx_outs nd) !! 0 = Some x /\ dam_delivery (dx_outs nd) !! 2 = Some y
    /\ client_id x = client_id y /\ (request_id x < request_id y)%N.
Proof.
  destruct (dx_node_Val 6 0 (fun nd => match dam_delivery (dx_outs nd) !! 0, dam_delivery (dx_outs nd) !! 2 with
    | Some x, Some y => (client_id x =? client_id y)%N | _, _ => false end)) as (nd & Hv & Hs & Hr);
    [vm_compute; reflexivity|].
  destruct (dam_delivery (dx_outs nd) !! 0) as [x|] eqn:Hx; [|discriminate].
  destruct (dam_delivery (dx_outs nd) !! 2) as [y|] eqn:Hy; [|discriminate].
  apply N.eqb_eq in Hv. exists nd, x, y. rewrite Hx, Hy. split_and!; [reflexivity..|exact Hv|].
  apply (dam_exactly_once dx_clock 0 (N.of_nat 0) 2 1 2 1000 1000 (dx_start nd) (dx_outs nd) (dx_state nd) 0 2 x y);
    [reflexivity|vm_compute; discriminate|exact Hs|exact Hr|exact Hx|exact Hy|lia|exact Hv].
Defined.

Lemma dam_handlers_terminate_witness :
  exists nd : DxNode, new_view dx_clock (dx_state nd) <> NoFuel
    /\ dam_dispatch dx_clock (mkDamMessage 1 (BlockRequest 1)) (dx_state nd) <> NoFuel.
Proof.
  destruct (dx_node_Val 6 0 (fun nd => (3 <=? dam_view (dx_state nd))%N)) as (nd & _ & Hs & Hr);
    [vm_compute; reflexivity|].
  exists nd.
  destruct (dam_handlers_terminate dx_clock 0 (N.of_nat 0) 2 1 2 1000 1000 (dx_start nd) (dx_outs nd) (dx_state nd)
    (mkDamMessage 1 (BlockRequest 1))) as (Hd & _ & Hn);
    [reflexivity|vm_compute; discriminate|exact Hs|exact Hr|exact I|]. split; [exact Hn|exact Hd].
Defined.

(** The enclave of replica [i] of two after the handshake, asked for a new view. *)
Definition dx_enclave (i : N) :=
  e ← NoopEnclave_add_peer (NoopEnclave_new (B := N) i 2 2) 0 (to_le_bytes 0);
  e ← NoopEnclave_add_peer e.2 1 (to_le_bytes 1);
  DamAutomata_re_sign_last_prepared (Enc := NoopEnclaveTrusted N) e.2.

(** Replica 0 accumulates the two new-view commitments. *)
Definition dx_accumulate :=
  r0 ← dx_enclave 0;
  r1 ← dx_enclave 1;
  match r0.1, r1.1 with
  | Ok c0, Ok c1 =>
      r ← DamAutomata_accumulate (B := N) (Enc := NoopEnclaveTrusted N) r0.2 [c0; c1];
      Val ([c0; c1], r0.2, r.1)
  | _, _ => Panic
  end.

Lemma dam_usig_unique_witness :
  exists cs a', da_calls (B := N) [Op_re_sign; Op_accumulate []; Op_re_sign] (NoopEnclave_new (B := N) 0 2 2) = Val (cs, a')
    /\ length cs = 2 /\ StronglySorted N.lt (SC_get_view <$> List.filter SC_is_usig cs).
Proof.
  destruct (da_calls (B := N) [Op_re_sign; Op_accumulate []; Op_re_sign] (NoopEnclave_new (B := N) 0 2 2))
    as [[cs a']| |] eqn:Hc; [|vm_compute in Hc; discriminate..].
  exists cs, a'. split; [reflexivity|]. split; [vm_compute in Hc; injection Hc as <- _; reflexivity|].
  apply (dam_usig_unique [Op_re_sign; Op_accumulate []; Op_re_sign] (NoopEnclave_new (B := N) 0 2 2) cs a');
    [vm_compute; reflexivity|exact Hc].
Defined.

Lemma dam_accumulate_sound_witness :
  exists (a : DxEnc) cs c, DamAutomata_accumulate (B := N) a cs = Val (Ok c, a) /\ accumulates a cs c.
Proof.
  destruct (holds_Val dx_accumulate (fun r => match DamAutomata_accumulate (B := N) r.1.2 r.1.1 with
    | Val (Ok _, _) => true | _ => false end)) as ([[cs a] r] & _ & Ht); [vm_compute; reflexivity|].
  simpl in Ht. destruct (DamAutomata_accumulate (B := N) a cs) as [[[c|] a']| |] eqn:Ha; try discriminate.
  destruct (dam_accumulate_sound a cs c a' (or_introl dx_checks) Ha) as (-> & _ & _ & _ & Hback).
  exists a, cs, c. split; [exact Ha|exact Hback].
Defined.

Lemma dam_prepare_spec_witness :
  exists (a : DxEnc) c, prepare_allowed a 1 (Quorum c) BlockHash_genesis
    /\ exists p a', DamAutomata_prepare a 1 [7%N] (Quorum c) Parent_None BlockHash_genesis = Val (Ok p, a').
Proof.
  destruct (holds_Val dx_accumulate (fun r => match r.2 with
    | Ok c => bool_decide (SC_get_view c = 0%N) && bool_decide (da_view r.1.2 = 1%N)
              && bool_decide (SC_get_block_hash c = BlockHash_genesis) && SC_is_accumulator c
              && match DamAutomata_verify r.1.2 c with Ok b => b | Err _ => false end
    | Err _ => false end)) as ([[cs a] [c|]] & _ & Ht); [vm_compute; reflexivity| |discriminate].
  cbn [fst snd] in Ht. apply andb_true_iff in Ht as [Ht Hver]. apply andb_true_iff in Ht as [Ht Hacc].
  apply andb_true_iff in Ht as [Ht Hh%bool_decide_eq_true].
  apply andb_true_iff in Ht as [Hcv%bool_decide_eq_true Hv%bool_decide_eq_true].
  assert (prepare_allowed a 1 (Quorum c) BlockHash_genesis) as Hok.
  { exists c. rewrite Hv, Hcv. split_and!; [reflexivity..|exact Hh|exact Hacc|].
    destruct (DamAutomata_verify a c) as [[]|]; [reflexivity|discriminate..]. }
  exists a, c. split; [exact Hok|].
  destruct (dam_prepare_spec a 1 [7%N] (Quorum c) Parent_None BlockHash_genesis) as [_ Hs];
    [by rewrite Hv|intros ? [= <-]; by rewrite Hcv|].
  destruct (Hs Hok) as (a1 & c1 & _ & _ & ->). eexists _, _. reflexivity.
Defined.

(** Some block a node stores, with its accumulator. *)
Definition dx_justified_block (nd : DxNode) (v : N) : option (Block (N * N) (de_Signature DxEnc) * SignedCommitment (de_Signature DxEnc)) :=
  b ← block_at (dam_blockstore (dx_state nd)) v;
  c ← Justification_get_commitment (bl_justification b);
  Some (b, c).

Lemma dx_justified_block_spec nd v b c :
  dx_justified_block nd v = Some (b, c) ->
  block_at (dam_blockstore (dx_state nd)) v = Some b /\ bl_justification b = Quorum c.
Proof.
  intros (x & Hx & (y & Hy & Heq)%bind_Some)%bind_Some. injection Heq as <- <-. split; [done|].
  unfold Justification_get_commitment in Hy. destruct (bl_justification x); congruence.
Qed.

Lemma dam_three_chain_rule_witness :
  exists (nd : DxNode) b c s', dx_justified_block nd 3 = Some (b, c)
    /\ try_execute_chain dx_clock b c (dx_state nd) = Val ((), s').
Proof.
  destruct (dx_node_Val 6 0 (fun nd => bool_decide (is_Some (dx_justified_block nd 3))))
    as (nd & [[b c] Hbc]%bool_decide_eq_true & Hs & Hr); [vm_compute; reflexivity|].
  destruct (dam_new_run dx_clock dx_checks 0 (N.of_nat 0) 2 1 2 1000 1000 (dx_start nd) (dx_outs nd) (dx_state nd))
    as [[Hi _] _]; [vm_compute; discriminate|exact Hs|exact Hr|].
  destruct (dam_three_chain_rule dx_clock 0 (dam_delivery (dx_outs nd)) (dx_state nd) b c Hi) as (s' & Hs' & _).
  exists nd, b, c, s'. split; [exact Hbc|exact Hs'].
Defined.

Lemma dam_blockstore_refines_witness :
  exists blocks : list (option (Block (N * N) (list N))), Blockstore_insert Blockstore_default
      (Block_new 1 3 Genesis Parent_None [(1, 1)%N]) = Val blocks /\ Blockstore_wf blocks.
Proof.
  destruct (dam_blockstore_refines Blockstore_default (Block_new 1 3 Genesis Parent_None [(1, 1)%N] : Block (N * N) (list N))
    3 Block_execute) as (_ & [(_ & blocks & Hb & Hwf & _)|[[x Hx] _]] & _);
    [apply Blockstore_default_wf|reflexivity| |discriminate].
  exists blocks. split; [exact Hb|exact Hwf].
Defined.

Lemma dam_proposal_forgeable_witness :
  exists (nd : DxNode) b c, dx_justified_block nd 3 = Some (b, c)
    /\ block_checks (b.[bl_justification := Quorum (with_block (Enc := DxEnc) c 77 [])].[bl_transactions := [(5, 5)%N]])
         c (dx_state nd) = block_checks b c (dx_state nd).
Proof.
  destruct (dx_node_Val 6 0 (fun nd => bool_decide (is_Some (dx_justified_block nd 3))))
    as (nd & [[b c] Hbc]%bool_decide_eq_true & _); [vm_compute; reflexivity|].
  exists nd, b, c. split; [exact Hbc|].
  apply (dam_proposal_forgeable (dx_state nd) b c c 77 [] [(5, 5)%N]).
  apply dx_justified_block_spec in Hbc as [_ Hj]. exact Hj.
Defined.

(** Replica 1 under [dx_attack] stores a block of view 1 that justifies itself,
    and the messages that follow make it walk from there. *)
Lemma dam_execute_diverges_witness :
  exists nq s, dx_attack 2 = Val nq /\ nq.1 !! 1 = Some s
    /\ dx_forging_drain 10 nq = NoFuel
    /\ try_execute_from dx_clock 1 s = NoFuel
    /\ forall fuel, to_execute_loop fuel (dam_blockstore s) 1 [] = NoFuel.
Proof.
  destruct (holds_Val (dx_attack 2) (fun nq => match nq.1 !! 1 with
    | Some s => (0 <? length (dam_blockstore s)) && match block_at (dam_blockstore s) 1 with
        | Some b => negb (bl_executed b) && match bl_justification b with
            | Quorum c => (SC_get_block_view c =? 1)%N | Genesis => false end
        | None => false end
    | None => false end && match dx_forging_drain 10 nq with NoFuel => true | _ => false end))
    as (nq & Hnq & [Ht Hd]%andb_true_iff); [vm_compute; reflexivity|].
  destruct (nq.1 !! 1) as [s|] eqn:Hs; [|discriminate]. apply andb_true_iff in Ht as [Hne%Nat.ltb_lt Ht].
  destruct (block_at (dam_blockstore s) 1) as [b|] eqn:Hb; [|discriminate].
  apply andb_true_iff in Ht as [Hx%negb_true_iff Ht].
  destruct (bl_justification b) as [|c] eqn:Hj; [discriminate|]. apply N.eqb_eq in Ht.
  exists nq, s. split; [exact Hnq|]. split; [exact Hs|].
  split; [destruct (dx_forging_drain 10 nq); [discriminate..|reflexivity]|].
  destruct (dam_execute_diverges dx_clock s 1) as [Hl Hf].
  - exact Hne.
  - intros (x & Hxb & Hxx). congruence.
  - exists b, c. split_and!; [exact Hb|exact Hj|exact Ht].
  - split; [exact Hf|]. intros fuel. apply Hl.
Defined.

Lemma dam_conflicting_block_panics_witness :
  exists (nd : DxNode) (b : Block (N * N) (de_Signature DxEnc)) p, dam_dispatch dx_clock (mkDamMessage 1 (NewBlock b p)) (dx_state nd) = Panic.
Proof.
  destruct (dx_node_Val 6 0 (fun nd => match dx_justified_block nd 3 with
    | Some (b, c) => (0 <? length (dam_blockstore (dx_state nd))) && (3 <? dam_view (dx_state nd))%N
        && negb (bool_decide (Block_hash_value (@de_sig_bytes DxEnc _) b = Block_hash_value (@de_sig_bytes DxEnc _) (Block_new 9 3 Genesis Parent_None [] : Block (N * N) (de_Signature DxEnc))))
    | None => false end)) as (nd & Ht & _); [vm_compute; reflexivity|].
  destruct (dx_justified_block nd 3) as [[b c]|] eqn:Hbc; [|discriminate].
  apply andb_true_iff in Ht as [Ht Hh%negb_true_iff%bool_decide_eq_false].
  apply andb_true_iff in Ht as [Hne%Nat.ltb_lt Hv%N.ltb_lt].
  exists nd, (Block_new 9 3 Genesis Parent_None []), c.
  apply (dam_conflicting_block_panics dx_clock (dx_state nd) (Block_new 9 3 Genesis Parent_None []) c b 1 Hne Hv); [|exact Hh].
  apply dx_justified_block_spec in Hbc as [Hb _]. exact Hb.
Defined.
