(* ===== verification/MbUsig.v ===== *)
(** * MinBFT: the USIG service

    Models [src/atomic-broadcast/minbft/usig/src]: [lib.rs] ([Count], [Counter],
    [UsigError], the trait [Usig]), [noop.rs] ([UsigNoOp]) and [signature.rs]
    ([UsigSignature], generic in a signature scheme).

    A USIG (unique sequential identifier generator) gives each message it signs
    the next number of a counter.  [Usig] is the trait the replica is generic in;
    the associated types of the source are parameters of the class.  A USIG and
    its two halves are values, and a method with a mutable receiver returns the
    new one.  The crates behind [Signer] and [Verifier] are the parameter
    [SignatureScheme].

    [UsigLaws] is what the replica's theorems need of a USIG: an abstract counter
    that each signature carries and advances.  Both implementations discharge it. *)

From Stdlib Require Import ZArith Lia.
From stdpp Require Import base list gmap sets numbers option.
From S2P Require Import Prelude Ids.

(** ** [Count] and [Counter] *)

Abbreviation Count := N (only parsing).

Definition Count_hash (c : N) : list N := to_le_bytes c.
Definition Count_add `{Profile} (c rhs : N) : Outcome N := u64_add c rhs.
Definition Count_add_assign `{Profile} (c rhs : N) : Outcome N := u64_add c rhs.

Class Counter (T : Type) := counter : T -> N.

Inductive UsigError :=
| UnknownId (id : N)
| InvalidSignature
| RemoteAttestationFailed
| SigningFailed.

#[export] Instance UsigError_eq_dec : EqDecision UsigError.
Proof. solve_decision. Defined.

(** ** The trait [Usig] *)

Class Usig (U Sig Att : Type) `{Counter Sig} := {
  us_sign : U -> list N -> Outcome (Result Sig UsigError * U);
  us_attest : U -> Outcome (Result Att UsigError * U);
  us_verify : U -> N -> list N -> Sig -> Result () UsigError;
  us_add_remote_party : U -> N -> Att -> bool * U;
}.

(** What the code relies on: every signature carries the value of the USIG's
    counter, which then advances by one and never goes back. *)
Class UsigLaws (U Sig Att : Type) `{Usig U Sig Att} := {
  us_next : U -> N;
  us_sign_ok u msg sig u' :
    us_sign u msg = Val (Ok sig, u') -> counter sig = us_next u /\ us_next u' = (us_next u + 1)%N;
  us_sign_err u msg e u' : us_sign u msg = Val (Err e, u') -> us_next u' = us_next u;
  us_sign_fuel u msg : us_sign u msg <> NoFuel;
  us_attest_next u r u' : us_attest u = Val (r, u') -> us_next u' = us_next u;
  us_attest_fuel u : us_attest u <> NoFuel;
  us_add_next u id att : us_next (us_add_remote_party u id att).2 = us_next u;
}.

(** ** [UsigNoOp] *)

Module NoOp.
Section noop.
  Context {P : Profile}.

Record NoOpSignature := mkNoOpSignature { sig_count : N }.
Definition NoOpSignature_hash (s : NoOpSignature) : list N := to_le_bytes (sig_count s).
Definition fake (counter : N) : NoOpSignature := mkNoOpSignature counter.
#[global] Instance NoOpSignature_Counter : Counter NoOpSignature := sig_count.
#[global] Instance NoOpSignature_Hashbar : Hashbar NoOpSignature := NoOpSignature_hash.

Inductive DummyAttestation := mkDummyAttestation.
Definition DummyAttestation_hash (a : DummyAttestation) : list N := [0%N].
#[global] Instance DummyAttestation_Hashbar : Hashbar DummyAttestation := DummyAttestation_hash.
#[global] Instance DummyAttestation_eq_dec : EqDecision DummyAttestation.
Proof. solve_decision. Defined.

Record UsigNoOpSignHalf := mkSignHalf { ns_counter : N }.
Record UsigNoOpVerifyHalf := mkVerifyHalf { nv_ids : gset N }.
Record UsigNoOp := mkUsigNoOp { no_sign_half : UsigNoOpSignHalf; no_verify_half : UsigNoOpVerifyHalf }.

Definition UsigNoOpSignHalf_sign (h : UsigNoOpSignHalf) (message : list N)
    : Outcome (Result NoOpSignature UsigError * UsigNoOpSignHalf) :=
  let counter := ns_counter h in
  next ← u64_add (ns_counter h) 1;
  Val (Ok (mkNoOpSignature counter), mkSignHalf next).

Definition UsigNoOpSignHalf_attest (h : UsigNoOpSignHalf)
    : Outcome (Result DummyAttestation UsigError * UsigNoOpSignHalf) := Val (Ok mkDummyAttestation, h).

Definition UsigNoOpVerifyHalf_verify (h : UsigNoOpVerifyHalf) (id : N) (message : list N)
    (signature : NoOpSignature) : Result () UsigError :=
  if bool_decide (id ∈ nv_ids h) then Ok () else Err (UnknownId id).

Definition UsigNoOpVerifyHalf_add_remote_party (h : UsigNoOpVerifyHalf) (id : N)
    (attestation : DummyAttestation) : bool * UsigNoOpVerifyHalf :=
  (true, mkVerifyHalf ({[id]} ∪ nv_ids h)).

Definition UsigNoOp_new : UsigNoOp := mkUsigNoOp (mkSignHalf 0) (mkVerifyHalf ∅).
Definition UsigNoOp_split (u : UsigNoOp) : UsigNoOpSignHalf * UsigNoOpVerifyHalf :=
  (no_sign_half u, no_verify_half u).

#[global] Instance UsigNoOp_impl : Usig UsigNoOp NoOpSignature DummyAttestation := {|
  us_sign := fun u message =>
    r ← UsigNoOpSignHalf_sign (no_sign_half u) message; Val (r.1, mkUsigNoOp r.2 (no_verify_half u));
  us_attest := fun u =>
    r ← UsigNoOpSignHalf_attest (no_sign_half u); Val (r.1, mkUsigNoOp r.2 (no_verify_half u));
  us_verify := fun u id message signature => UsigNoOpVerifyHalf_verify (no_verify_half u) id message signature;
  us_add_remote_party := fun u id attestation =>
    let r := UsigNoOpVerifyHalf_add_remote_party (no_verify_half u) id attestation in
    (r.1, mkUsigNoOp (no_sign_half u) r.2);
|}.
End noop.
End NoOp.

(** ** [UsigSignature] *)

(** The traits [Signer], [Verifier] and [SignatureEncoding] of the [signature]
    crate, for a secret key [S], a public key [V] and a signature [Q]. *)
Class SignatureScheme (Q S V : Type) := {
  ss_sign : S -> list N -> Q;
  ss_verify : V -> list N -> Q -> bool;
  ss_to_bytes : Q -> list N;
  ss_key_bytes : V -> list N;
}.

(** The documented contract: what a key signs verifies under its public key. *)
Class SignatureSchemeLaws (Q S V : Type) `{SignatureScheme Q S V} := {
  ss_pair : S -> V -> Prop;
  ss_correct sk vk data : ss_pair sk vk -> ss_verify vk data (ss_sign sk data) = true;
}.

(** [u64::to_be_bytes] *)
Definition to_be_bytes (a : N) : list N := reverse (to_le_bytes a).

Module Sgn.
Section signature.
  Context {P : Profile} {Q S V : Type} `{SignatureScheme Q S V} `{EqDecision V}.

Record Signature := mkSignature { sig_counter : N; sig_signature : Q }.
Definition Signature_hash (s : Signature) : list N :=
  to_le_bytes (sig_counter s) ++ ss_to_bytes (sig_signature s).
#[global] Instance Signature_Counter : Counter Signature := sig_counter.
#[global] Instance Signature_Hashbar : Hashbar Signature := Signature_hash.

Record PubKey := mkPubKey { pk_key : V }.
Definition PubKey_hash (k : PubKey) : list N := ss_key_bytes (pk_key k).
#[global] Instance PubKey_Hashbar : Hashbar PubKey := PubKey_hash.
#[global] Instance PubKey_eq_dec : EqDecision PubKey.
Proof. solve_decision. Defined.

Record UsigSignatureSignHalf := mkSignHalf { sh_counter : N; sh_private_key : S; sh_public_key : V }.
Definition UsigSignatureSignHalf_new (private_key : S) (public_key : V) : UsigSignatureSignHalf :=
  mkSignHalf 0 private_key public_key.

(** The bytes that are signed: the counter, then the message. *)
Definition signed_bytes (counter : N) (message : list N) : list N := to_be_bytes counter ++ message.

Definition UsigSignatureSignHalf_sign (h : UsigSignatureSignHalf) (message : list N)
    : Outcome (Result Signature UsigError * UsigSignatureSignHalf) :=
  let counter := sh_counter h in
  next ← u64_add (sh_counter h) 1;
  let signature := ss_sign (sh_private_key h) (signed_bytes counter message) in
  Val (Ok (mkSignature counter signature), mkSignHalf next (sh_private_key h) (sh_public_key h)).

Definition UsigSignatureSignHalf_attest (h : UsigSignatureSignHalf)
    : Outcome (Result PubKey UsigError * UsigSignatureSignHalf) := Val (Ok (mkPubKey (sh_public_key h)), h).

Record UsigSignatureVerifyHalf := mkVerifyHalf { vh_other_keys : gmap N V }.

Definition UsigSignatureVerifyHalf_verify (h : UsigSignatureVerifyHalf) (id : N) (message : list N)
    (signature : Signature) : Result () UsigError :=
  match vh_other_keys h !! id with
  | Some key =>
      if ss_verify key (signed_bytes (sig_counter signature) message) (sig_signature signature)
      then Ok () else Err InvalidSignature
  | None => Err (UnknownId id)
  end.

Definition UsigSignatureVerifyHalf_add_remote_party (h : UsigSignatureVerifyHalf) (id : N)
    (attestation : PubKey) : bool * UsigSignatureVerifyHalf :=
  (true, mkVerifyHalf (<[id := pk_key attestation]> (vh_other_keys h))).

Record UsigSignature := mkUsigSignature {
  sg_sign_half : UsigSignatureSignHalf;
  sg_verify_half : UsigSignatureVerifyHalf;
}.

Definition UsigSignature_new (private_key : S) (public_key : V) : UsigSignature :=
  mkUsigSignature (UsigSignatureSignHalf_new private_key public_key) (mkVerifyHalf ∅).
Definition UsigSignature_split (u : UsigSignature) : UsigSignatureSignHalf * UsigSignatureVerifyHalf :=
  (sg_sign_half u, sg_verify_half u).

#[global] Instance UsigSignature_impl : Usig UsigSignature Signature PubKey := {|
  us_sign := fun u message =>
    r ← UsigSignatureSignHalf_sign (sg_sign_half u) message; Val (r.1, mkUsigSignature r.2 (sg_verify_half u));
  us_attest := fun u =>
    r ← UsigSignatureSignHalf_attest (sg_sign_half u); Val (r.1, mkUsigSignature r.2 (sg_verify_half u));
  us_verify := fun u id message signature => UsigSignatureVerifyHalf_verify (sg_verify_half u) id message signature;
  us_add_remote_party := fun u id attestation =>
    let r := UsigSignatureVerifyHalf_add_remote_party (sg_verify_half u) id attestation in
    (r.1, mkUsigSignature (sg_sign_half u) r.2);
|}.
End signature.
Arguments Signature Q : clear implicits.
Arguments PubKey V : clear implicits.
Arguments UsigSignatureSignHalf S V : clear implicits.
Arguments UsigSignatureVerifyHalf V : clear implicits.
Arguments UsigSignature S V : clear implicits.
End Sgn.

(** ** The laws of the implementations *)

Section laws.
  Context {P : Profile} (Hoc : overflow_checks = true).

Lemma u64_add_next a b : u64_add a 1 = Val b -> b = (a + 1)%N.
Proof.
  unfold u64_add. destruct (_ <? _)%N; [by intros [= <-]|]. by rewrite Hoc.
Qed.

Lemma u64_add_no_fuel a b : u64_add a b <> NoFuel.
Proof. unfold u64_add. by repeat case_match. Qed.

#[export, refine] Instance UsigNoOp_laws : UsigLaws NoOp.UsigNoOp NoOp.NoOpSignature NoOp.DummyAttestation := {|
  us_next := fun u => NoOp.ns_counter (NoOp.no_sign_half u);
|}.
Proof.
  all: intros u; unfold us_sign, us_attest, NoOp.UsigNoOp_impl, NoOp.UsigNoOpSignHalf_sign; try done.
  - intros msg sig u'. destruct (u64_add _ 1) as [next| |] eqn:Hn; simpl; try done.
    intros [= <- <-]. simpl. by apply u64_add_next in Hn as ->.
  - intros msg e u'. by destruct (u64_add _ 1).
  - intros msg. pose proof (u64_add_no_fuel (NoOp.ns_counter (NoOp.no_sign_half u)) 1).
    by destruct (u64_add _ 1).
  - simpl. by intros r u' [= <- <-].
Defined.

Context {Q S V : Type} `{SignatureScheme Q S V} `{EqDecision V}.

#[export, refine] Instance UsigSignature_laws : UsigLaws (Sgn.UsigSignature S V) (Sgn.Signature Q) (Sgn.PubKey V) := {|
  us_next := fun u => Sgn.sh_counter (Sgn.sg_sign_half u);
|}.
Proof.
  all: intros u; unfold us_sign, us_attest, Sgn.UsigSignature_impl, Sgn.UsigSignatureSignHalf_sign; try done.
  - intros msg sig u'. destruct (u64_add _ 1) as [next| |] eqn:Hn; simpl; try done.
    intros [= <- <-]. simpl. by apply u64_add_next in Hn as ->.
  - intros msg e u'. by destruct (u64_add _ 1).
  - intros msg. pose proof (u64_add_no_fuel (Sgn.sh_counter (Sgn.sg_sign_half u)) 1).
    by destruct (u64_add _ 1).
  - simpl. by intros r u' [= <- <-].
Defined.
End laws.
