(* ===== verification/MbBase.v ===== *)
(** * MinBFT: configuration, requests, timeouts and errors

    Models [config.rs], [timeout.rs], [client_request.rs], [error.rs], the
    timeout requests of [output.rs], and the data types at the top of [lib.rs]
    ([ReplicaStorage], [RecoveryRequestPayload], [WrappedRequestPayload],
    [View]) of [src/atomic-broadcast/minbft/minbft/src].

    A [View] is its number, a [Duration] its number of nanoseconds, a [Nonce] an
    [N].  The iteration order of a [HashMap] or [HashSet] is left open by the
    standard library: [hash_order] turns the entries in some order into the
    entries in the order the iterator yields them. *)

From Stdlib Require Import ZArith Lia String SpecFloat.
From stdpp Require Import base list gmap sets numbers option.
From S2P Require Import Prelude Ids MbUsig.

Abbreviation View := N (only parsing).
Abbreviation Nonce := N (only parsing).
Abbreviation Duration := N (only parsing).

(** ** The standard library *)

Class HashOrder := hash_order : forall {A : Type}, list A -> list A.
Class HashOrderLaws `{HashOrder} : Prop :=
  hash_order_permutation : forall {A} (l : list A), hash_order l ≡ₚ l.

(** [HashMap::iter] and [HashSet::iter]. *)
Definition hash_iter `{HashOrder} {K A} `{Countable K} (m : gmap K A) : list (K * A) := hash_order (map_to_list m).
Definition hash_elements `{HashOrder} {K} `{Countable K} (X : gset K) : list K := hash_order (elements X).

Lemma elem_of_hash_iter `{HashOrderLaws} {K A} `{Countable K} (m : gmap K A) k a :
  (k, a) ∈ hash_iter m <-> m !! k = Some a.
Proof. unfold hash_iter. by rewrite hash_order_permutation, elem_of_map_to_list. Qed.

Lemma elem_of_hash_elements `{HashOrderLaws} {K} `{Countable K} (X : gset K) k : k ∈ hash_elements X <-> k ∈ X.
Proof. unfold hash_elements. by rewrite hash_order_permutation, elem_of_elements. Qed.

(** The order of [Option]: [None] first. *)
Definition option_leb (a b : option N) : bool :=
  match a, b with
  | None, _ => true
  | Some _, None => false
  | Some a, Some b => (a <=? b)%N
  end.
Definition option_ltb (a b : option N) : bool := negb (option_leb b a).

(** [Duration::MAX], and [Duration *= u32], which panics on overflow. *)
Definition duration_max : N := u64_max * 1000000000 + 999999999.
Definition Duration_mul (d k : N) : Outcome N := if (d * k <=? duration_max)%N then Val (d * k)%N else Panic.

(** ** [Config] *)

(** [f32], as the Standard Library's specification of binary floats. *)
Abbreviation f32 := spec_float (only parsing).

Inductive BatchConfiguration :=
| BC_Trivial (batch_timeout : N) (max_batch_size : option N)
| BC_AESC (max_batch_size max_inflight : N)
| BC_EMA (commit_decay arrival_decay : f32).

Section config.
  Context {P : Profile}.

Record Config := mkConfig {
  cfg_n : N;
  cfg_t : N;
  cfg_id : N;
  cfg_batcher_configuration : BatchConfiguration;
  cfg_initial_timeout_duration : N;
  cfg_checkpoint_period : N;
  cfg_backoff_multiplier : N;
}.
Implicit Types c : Config.

Definition Config_validate c : Outcome () :=
  rust_assert (cfg_id c <? cfg_n c)%N ;;
  t2 ← u64_mul 2 (cfg_t c);
  rust_assert (t2 <? cfg_n c)%N.
Definition Config_me c : N := cfg_id c.
Definition Config_primary c (view : N) : N := (view mod cfg_n c)%N.
Definition Config_is_primary c (view replica : N) : Outcome bool :=
  rust_assert (replica <? cfg_n c)%N ;;
  Val (replica =? Config_primary c view)%N.
Definition Config_me_primary c (view : N) : Outcome bool := Config_is_primary c view (Config_me c).
Definition Config_all_replicas c : list N := range 0 (cfg_n c).
End config.

Definition View_add `{Profile} (v rhs : N) : Outcome N := u64_add v rhs.
Definition View_hash (v : N) : list N := to_le_bytes v.

(** ** Timeouts *)

Inductive TimeoutType := TT_Batch | TT_Client | TT_ViewChange.

Record Timeout := mkTimeout { to_type : TimeoutType; to_duration : N; to_stop_class : N }.
Record TimeoutAny := mkTimeoutAny { ta_type : TimeoutType; ta_duration : N }.

Definition TimeoutAny_client (duration : N) : TimeoutAny := mkTimeoutAny TT_Client duration.
Definition Timeout_batch (duration : N) : Timeout := mkTimeout TT_Batch duration 0.
Definition Timeout_client (client_id duration : N) : Timeout := mkTimeout TT_Client duration (as_u64 client_id).
Definition Timeout_view_change (duration : N) : Timeout := mkTimeout TT_ViewChange duration 0.
Definition stop_class_as_u64 (t : Timeout) : N := to_stop_class t.

Inductive TimeoutRequest :=
| TR_Start (timeout : Timeout)
| TR_Stop (timeout : Timeout)
| TR_StopAny (timeout : TimeoutAny).

Definition new_start_client_req (client_id duration : N) : TimeoutRequest := TR_Start (Timeout_client client_id duration).
Definition new_start_view_change (duration : N) : TimeoutRequest := TR_Start (Timeout_view_change duration).
Definition new_stop_batch_req : TimeoutRequest := TR_Stop (Timeout_batch 0).
Definition new_stop_client_req (client_id : N) : TimeoutRequest := TR_Stop (Timeout_client client_id 0).
Definition new_stop_view_change : TimeoutRequest := TR_Stop (Timeout_view_change 0).
Definition new_stop_any_client_req : TimeoutRequest := TR_StopAny (TimeoutAny_client 0).

(** ** Requests *)

Section requests.
  Context {P Att : Type} `{Hashbar P} `{Hashbar Att}.

Record RecoveryRequestPayload := mkRecoveryRequest {
  rr_request_id : N;
  rr_replica_id : N;
  rr_attestation : Att;
  rr_nonce : N;
}.
Definition RecoveryRequestPayload_hash (r : RecoveryRequestPayload) : list N :=
  to_le_bytes (rr_request_id r) ++ to_le_bytes (rr_replica_id r) ++ hash_bytes (rr_attestation r)
  ++ le_bytes 16 (rr_nonce r).

Inductive WrappedRequestPayload :=
| WP_Client (request_id : N) (payload : P)
| WP_Internal (req : RecoveryRequestPayload).

Definition WP_id (w : WrappedRequestPayload) : N :=
  match w with WP_Client id _ => id | WP_Internal req => rr_request_id req end.
Definition WP_hash (w : WrappedRequestPayload) : list N :=
  match w with
  | WP_Client id payload => 0%N :: to_le_bytes id ++ hash_bytes payload
  | WP_Internal req => 1%N :: RecoveryRequestPayload_hash req
  end.

Record ClientRequest := mkClientRequest { cr_client : N; cr_payload : WrappedRequestPayload }.
(** [request.id()], through [Deref]. *)
Definition cr_id (r : ClientRequest) : N := WP_id (cr_payload r).
Definition ClientRequest_hash (r : ClientRequest) : list N := to_le_bytes (cr_client r) ++ WP_hash (cr_payload r).

Record RequestBatch := RequestBatch_new { rb_batch : list ClientRequest }.
Definition RequestBatch_hash (b : RequestBatch) : list N := concat (ClientRequest_hash <$> rb_batch b).
(** Every request passes. *)
Definition RequestBatch_validate (b : RequestBatch) : Result () () := Ok ().
Definition RequestBatch_first (b : RequestBatch) : option ClientRequest := head (rb_batch b).
Definition RequestBatch_len (b : RequestBatch) : N := N.of_nat (length (rb_batch b)).
End requests.
Arguments RecoveryRequestPayload Att : clear implicits.
Arguments WrappedRequestPayload P Att : clear implicits.
Arguments ClientRequest P Att : clear implicits.
Arguments RequestBatch P Att : clear implicits.

(** ** [ReplicaStorage] *)

Record ReplicaStorage := mkReplicaStorage { st_last_hash : list N }.
Definition ReplicaStorage_new : ReplicaStorage := mkReplicaStorage (replicate 32 0%N).
Definition ReplicaStorage_execute_request `{Digests} {P} `{Hashbar P} (s : ReplicaStorage)
    (client_id request_id : N) (request : P) : ReplicaStorage :=
  mkReplicaStorage (sha256 (st_last_hash s ++ to_le_bytes client_id ++ to_le_bytes request_id ++ hash_bytes request)).
Definition ReplicaStorage_hash (s : ReplicaStorage) : list N := st_last_hash s.

#[export] Instance ReplicaStorage_eq_dec : EqDecision ReplicaStorage.
Proof. solve_decision. Defined.

(** ** Errors *)

Inductive InnerError :=
| CommitFromPrimary (receiver primary : N)
| PrepareFromBackup (receiver backup view : N)
| RequestInPrepare (receiver origin : N)
| CheckpointCertNotSufficientMsgs (receiver origin : N)
| CheckpointCertNotAllSameStateHash (receiver origin : N)
| CheckpointCertNotAllDifferentOrigin (receiver origin : N)
| NewViewIncorrectNewPrimary (receiver : N)
| NewViewCheckpointCertNotSufficientMsgs (receiver : N)
| NewViewCheckpointCertNotAllSameNextView (receiver : N)
| NewViewCheckpointCertNotAllDifferentOrigin (receiver : N)
| NewViewContentUnexpectedNextView (receiver origin_actual origin_expected : N)
| InnerError_Usig (usig_error : UsigError) (replica : N) (msg_type : string) (origin : N)
| ViewChangeHolesInMessageLog (receiver origin : N)
| ViewChangeMessageLogEmptyWithCert (receiver origin : N)
| ViewChangeFirstUnexpectedCounter (receiver origin counter_first_msg counter_expected : N)
| ViewChangeLastUnexpectedCounter (receiver origin counter_last_msg counter_expected : N)
| ViewChangeLogUnexpectedlyEmpty (receiver origin : N)
| ReqViewChangeIncompatiblePrevNextView (receiver origin : N).

Definition parse_usig_error (usig_error : UsigError) (replica : N) (msg_type : string) (origin : N) : InnerError :=
  InnerError_Usig usig_error replica msg_type origin.

Inductive Error :=
| Error_Commit (receiver origin : N)
| Error_Prepare (receiver origin : N)
| Error_CheckpointCert (receiver origin : N)
| Error_NewViewCheckpointCert (receiver : N)
| Error_NewView (receiver origin : N)
| Error_ViewChange (receiver origin : N)
| Error_ReqViewChange (receiver origin : N)
| Error_Attestation (receiver origin : N)
| Error_Request (receiver client_id : N)
| Error_Usig (replica : N) (msg_type : string) (usig_error : UsigError)
| StateTransferRequired (replica : N).

Definition Error_from (inner : InnerError) : Error :=
  match inner with
  | CommitFromPrimary receiver primary => Error_Commit receiver primary
  | PrepareFromBackup receiver backup _ => Error_Prepare receiver backup
  | RequestInPrepare receiver origin => Error_Prepare receiver origin
  | CheckpointCertNotSufficientMsgs receiver origin => Error_CheckpointCert receiver origin
  | CheckpointCertNotAllSameStateHash receiver origin => Error_CheckpointCert receiver origin
  | NewViewIncorrectNewPrimary receiver => Error_NewViewCheckpointCert receiver
  | CheckpointCertNotAllDifferentOrigin receiver origin => Error_CheckpointCert receiver origin
  | NewViewCheckpointCertNotSufficientMsgs receiver => Error_NewViewCheckpointCert receiver
  | NewViewCheckpointCertNotAllSameNextView receiver => Error_NewViewCheckpointCert receiver
  | NewViewCheckpointCertNotAllDifferentOrigin receiver => Error_NewViewCheckpointCert receiver
  | NewViewContentUnexpectedNextView receiver origin_actual _ => Error_NewView receiver origin_actual
  | ViewChangeHolesInMessageLog receiver origin => Error_ViewChange receiver origin
  | ViewChangeMessageLogEmptyWithCert receiver origin => Error_ViewChange receiver origin
  | ViewChangeFirstUnexpectedCounter receiver origin _ _ => Error_ViewChange receiver origin
  | ViewChangeLastUnexpectedCounter receiver origin _ _ => Error_ViewChange receiver origin
  | ViewChangeLogUnexpectedlyEmpty receiver origin => Error_ViewChange receiver origin
  | ReqViewChangeIncompatiblePrevNextView receiver origin => Error_ReqViewChange receiver origin
  | InnerError_Usig usig_error replica msg_type _ => Error_Usig replica msg_type usig_error
  end.
