(* ===== verification/MbMessages.v ===== *)
(** * MinBFT: messages and their validation

    Models [peer_message] of [src/atomic-broadcast/minbft/minbft/src]:
    [usig_message/signed.rs], [prepare.rs], [commit.rs], [checkpoint.rs],
    [view_change.rs], [new_view.rs], [req_view_change.rs], [recovery_reply.rs]
    and the enums of the three [mod.rs].

    The type parameter of [UsigMessageV] (with or without the log of a
    [ViewChange]) is kept; the recursion of the source's types, a [NewView] in
    the log of a [ViewChange] in a [NewView], goes through [NewView].  The bytes a
    [Hashbar] implementation feeds to a hasher are the functions [.._hash] and
    [.._content].  A [validate] returns the [Result] in an [Outcome]: its
    assertions and subtractions can panic. *)

From Stdlib Require Import ZArith Lia String.
From stdpp Require Import sorting base list gmap sets numbers option.
From S2P Require Import Prelude Ids MbUsig MbBase.

(** [?] on a [Result]. *)
Definition try_bind {A B E} (m : Outcome (Result A E)) (k : A -> Outcome (Result B E)) : Outcome (Result B E) :=
  match m with
  | Val (Ok a) => k a
  | Val (Err e) => Val (Err e)
  | Panic => Panic
  | NoFuel => NoFuel
  end.
Notation "x ←? m ; k" := (try_bind m (fun x => k)) (at level 20, m at level 100, k at level 200, right associativity).
Notation "m ?; k" := (try_bind m (fun _ => k)) (at level 100, k at level 200, right associativity).

(** [for x in xs { check(x)?; }] *)
Fixpoint try_for {A E} (xs : list A) (check : A -> Outcome (Result () E)) : Outcome (Result () E) :=
  match xs with
  | [] => Val (Ok ())
  | x :: xs => check x ?; try_for xs check
  end.

(** [iter().sorted_by_key(|x| x.0)] of a map. *)
Definition key_le {A} (x y : N * A) : Prop := (x.1 <= y.1)%N.
#[export] Instance key_le_dec {A} : RelDecision (@key_le A).
Proof. intros x y. unfold key_le. apply _. Defined.
Definition sorted_entries {A} (m : gmap N A) : list (N * A) := merge_sort key_le (map_to_list m).

(** ** [UsigSigned] *)

Record UsigSigned (T Sig : Type) := mkSigned { us_data : T; us_signature : Sig }.
Arguments mkSigned {_ _} _ _.
Arguments us_data {_ _} _.
Arguments us_signature {_ _} _.

#[export] Instance UsigSigned_Counter {T Sig} `{Counter Sig} : Counter (UsigSigned T Sig) :=
  fun m => counter (us_signature m).

Class UsigSignable (T : Type) := {
  us_origin : T -> N;
  hash_content : T -> list N;
}.

Section signed.
  Context {T U Sig Att : Type} `{Usig U Sig Att} `{Digests}.

Definition UsigSigned_hash (content : T -> list N) (sig_hash : Sig -> list N) (m : UsigSigned T Sig) : list N :=
  content (us_data m) ++ sig_hash (us_signature m).
Definition clone_signature {D} (m : UsigSigned T Sig) (data : D) : UsigSigned D Sig := mkSigned data (us_signature m).

Definition UsigSigned_sign `{UsigSignable T} (data : T) (usig : U)
    : Outcome (Result (UsigSigned T Sig) UsigError * U) :=
  r ← us_sign usig (sha256 (hash_content data));
  Val (match r.1 with Ok signature => Ok (mkSigned data signature) | Err e => Err e end, r.2).

Definition UsigSigned_verify `{UsigSignable T} (m : UsigSigned T Sig) (usig : U) : Result () UsigError :=
  us_verify usig (us_origin (us_data m)) (sha256 (hash_content (us_data m))) (us_signature m).
End signed.

(** ** The messages *)

Section messages.
  Context {P Sig Att : Type}.

Record PrepareContent := mkPrepare { pr_origin : N; pr_view : N; pr_request_batch : RequestBatch P Att }.
Definition Prepare : Type := UsigSigned PrepareContent Sig.

Record CommitContent := mkCommit { co_origin : N; co_prepare : Prepare }.
Definition Commit : Type := UsigSigned CommitContent Sig.

Inductive ViewPeerMessage :=
| VPrepare (prepare : Prepare)
| VCommit (commit : Commit).

Record CheckpointContent := mkCheckpoint {
  cp_origin : N;
  cp_counter_latest_prep : N;
  cp_view_latest_prep : N;
  cp_state_hash : list N;
  cp_total_amount_accepted_batches : N;
  cp_last_executed_client_req : gmap N N;
  cp_usig_attestations : gmap N Att;
  cp_recovering_replicas : gmap N N;
}.
Definition Checkpoint : Type := UsigSigned CheckpointContent Sig.

Record CheckpointCertificate := mkCertificate {
  cc_my_checkpoint : Checkpoint;
  cc_other_checkpoints : list Checkpoint;
}.

Record ViewChangeVariantNoLog := mkNoLog { nl_hash : list N }.
Record ViewChangeVariantLog (M : Type) := mkLog { message_log : list M }.

Record ViewChangeContent (V : Type) := mkViewChange {
  vc_origin : N;
  vc_next_view : N;
  vc_checkpoint_cert : option CheckpointCertificate;
  vc_variant : V;
}.
Definition ViewChangeV (V : Type) : Type := UsigSigned (ViewChangeContent V) Sig.

Record NewViewCertificate (VC : Type) := mkNewViewCertificate { nvc_view_changes : list VC }.
Record NewViewContent (VC : Type) := mkNewViewContent {
  nv_origin : N;
  nv_next_view : N;
  nv_certificate : NewViewCertificate VC;
}.

(** [UsigMessageV], with the type of a [NewView] as a parameter to tie the knot. *)
Inductive UsigMessageF (V NV : Type) :=
| MView (m : ViewPeerMessage)
| MViewChange (m : ViewChangeV V)
| MNewView (m : NV)
| MCheckpoint (m : Checkpoint).

Inductive NewView := mkNewView
  (nv_signed : UsigSigned (NewViewContent (ViewChangeV (ViewChangeVariantLog
                 (UsigMessageF ViewChangeVariantNoLog NewView)))) Sig).
End messages.
Arguments PrepareContent P Att : clear implicits.
Arguments Prepare P Sig Att : clear implicits.
Arguments CommitContent P Sig Att : clear implicits.
Arguments Commit P Sig Att : clear implicits.
Arguments ViewPeerMessage P Sig Att : clear implicits.
Arguments CheckpointContent Att : clear implicits.
Arguments Checkpoint Sig Att : clear implicits.
Arguments CheckpointCertificate Sig Att : clear implicits.
Arguments mkLog {_} _.
Arguments message_log {_} _.
Arguments ViewChangeContent Sig Att V : clear implicits.
Arguments mkViewChange {_ _ _} _ _ _ _.
Arguments vc_origin {_ _ _} _.
Arguments vc_next_view {_ _ _} _.
Arguments vc_checkpoint_cert {_ _ _} _.
Arguments vc_variant {_ _ _} _.
Arguments ViewChangeV Sig Att V : clear implicits.
Arguments mkNewViewCertificate {_} _.
Arguments nvc_view_changes {_} _.
Arguments mkNewViewContent {_} _ _ _.
Arguments nv_origin {_} _.
Arguments nv_next_view {_} _.
Arguments nv_certificate {_} _.
Arguments UsigMessageF P Sig Att V NV : clear implicits.
Arguments MView {_ _ _ _ _} _.
Arguments MViewChange {_ _ _ _ _} _.
Arguments MNewView {_ _ _ _ _} _.
Arguments MCheckpoint {_ _ _ _ _} _.
Arguments NewView P Sig Att : clear implicits.
Arguments mkNewView {_ _ _} _.

Section aliases.
  Context (P Sig Att : Type).

Definition UsigMessageV (V : Type) : Type := UsigMessageF P Sig Att V (NewView P Sig Att).
Definition MessageLog : Type := ViewChangeVariantLog (UsigMessageV ViewChangeVariantNoLog).
Definition ViewChange : Type := ViewChangeV Sig Att MessageLog.
Definition UsigMessage : Type := UsigMessageV MessageLog.
End aliases.

Definition nv_signed {P Sig Att} (nv : NewView P Sig Att) : UsigSigned (NewViewContent (ViewChange P Sig Att)) Sig :=
  match nv with mkNewView s => s end.
Definition nv_data {P Sig Att} (nv : NewView P Sig Att) : NewViewContent (ViewChange P Sig Att) :=
  us_data (nv_signed nv).

Record ReqViewChange := mkReqViewChange { rvc_prev_view : N; rvc_next_view : N }.

Section peer.
  Context {P Sig Att : Type}.

Record RecoveryReply := mkRecoveryReply {
  rp_certificate : CheckpointCertificate Sig Att;
  rp_nonce : N;
  rp_storage : ReplicaStorage;
}.

Inductive ValidatedPeerMessage :=
| Hello (attestation : Att)
| PReqViewChange (m : ReqViewChange)
| PUsig (m : UsigMessage P Sig Att)
| RecoveryRequest (attestation : Att) (nonce : N)
| PRecoveryReply (nonce : N) (storage : ReplicaStorage) (certificate : CheckpointCertificate Sig Att)
| Forward (nonce : N) (m : UsigMessage P Sig Att) (pending_new_views : list (UsigMessage P Sig Att)).

(** [PeerMessage] is a transparent wrapper around a message not yet validated. *)
Record PeerMessage := mkPeerMessage { pm_message : ValidatedPeerMessage }.

Definition RecoveryReply_into (r : RecoveryReply) : ValidatedPeerMessage :=
  PRecoveryReply (rp_nonce r) (rp_storage r) (rp_certificate r).
End peer.
Arguments RecoveryReply Sig Att : clear implicits.
Arguments ValidatedPeerMessage P Sig Att : clear implicits.
Arguments PeerMessage P Sig Att : clear implicits.

(** ** Accessors *)

Section accessors.
  Context {P Sig Att : Type} `{Counter Sig}.

#[export] Instance ViewPeerMessage_Counter : Counter (ViewPeerMessage P Sig Att) := fun m =>
  match m with VPrepare prepare => counter prepare | VCommit commit => counter commit end.
#[export] Instance NewView_Counter : Counter (NewView P Sig Att) := fun nv => counter (nv_signed nv).
#[export] Instance UsigMessage_Counter {V} : Counter (UsigMessageV P Sig Att V) := fun m =>
  match m with
  | MView view => counter view
  | MViewChange view_change => counter view_change
  | MNewView new_view => counter new_view
  | MCheckpoint checkpoint => counter checkpoint
  end.

Definition ViewPeerMessage_origin (m : ViewPeerMessage P Sig Att) : N :=
  match m with
  | VPrepare prepare => pr_origin (us_data prepare)
  | VCommit commit => co_origin (us_data commit)
  end.
Definition ViewPeerMessage_view (m : ViewPeerMessage P Sig Att) : N :=
  match m with
  | VPrepare prepare => pr_view (us_data prepare)
  | VCommit commit => pr_view (us_data (co_prepare (us_data commit)))
  end.
Definition UsigMessage_origin {V} (m : UsigMessageV P Sig Att V) : N :=
  match m with
  | MView view => ViewPeerMessage_origin view
  | MViewChange view_change => vc_origin (us_data view_change)
  | MNewView new_view => nv_origin (nv_data new_view)
  | MCheckpoint checkpoint => cp_origin (us_data checkpoint)
  end.

Definition ViewPeerMessage_msg_type (m : ViewPeerMessage P Sig Att) : string :=
  match m with VCommit _ => "Commit" | VPrepare _ => "Prepare" end.
Definition UsigMessage_msg_type {V} (m : UsigMessageV P Sig Att V) : string :=
  match m with
  | MNewView _ => "NewView"
  | MViewChange _ => "ViewChange"
  | MView m => ViewPeerMessage_msg_type m
  | MCheckpoint _ => "Checkpoint"
  end.
Definition PeerMessage_msg_type (m : ValidatedPeerMessage P Sig Att) : string :=
  match m with
  | Hello _ => "Hello"
  | PReqViewChange _ => "ReqViewChange"
  | PUsig m => UsigMessage_msg_type m
  | Forward _ m _ => UsigMessage_msg_type m
  | RecoveryRequest _ _ => "RecoveryRequest"
  | PRecoveryReply _ _ _ => "RecoveryReply"
  end.

(** [Eq] and [Ord] of a [Prepare] are those of its counter. *)
Definition Prepare_eqb (a b : Prepare P Sig Att) : bool := (counter a =? counter b)%N.
Definition Prepare_cmp (a b : Prepare P Sig Att) : comparison := (counter a ?= counter b)%N.
End accessors.

(** ** The signed bytes *)

Section hashing.
  Context {P Sig Att : Type} `{Hashbar P, Hashbar Sig, Hashbar Att} `{Digests}.

Definition PrepareContent_bytes (c : PrepareContent P Att) : list N :=
  to_le_bytes (pr_origin c) ++ View_hash (pr_view c) ++ RequestBatch_hash (pr_request_batch c).
Definition Prepare_hash (m : Prepare P Sig Att) : list N := UsigSigned_hash PrepareContent_bytes hash_bytes m.
#[export] Instance PrepareContent_signable : UsigSignable (PrepareContent P Att) :=
  {| us_origin := pr_origin; hash_content := PrepareContent_bytes |}.

Definition CommitContent_bytes (c : CommitContent P Sig Att) : list N :=
  to_le_bytes (co_origin c) ++ Prepare_hash (co_prepare c).
Definition Commit_hash (m : Commit P Sig Att) : list N := UsigSigned_hash CommitContent_bytes hash_bytes m.
#[export] Instance CommitContent_signable : UsigSignable (CommitContent P Sig Att) :=
  {| us_origin := co_origin; hash_content := CommitContent_bytes |}.

Definition ViewPeerMessage_hash (m : ViewPeerMessage P Sig Att) : list N :=
  match m with
  | VPrepare prepare => 0%N :: Prepare_hash prepare
  | VCommit commit => 1%N :: Commit_hash commit
  end.

Definition entries_bytes {A} (value : A -> list N) (m : gmap N A) : list N :=
  concat ((fun '(k, v) => to_le_bytes k ++ value v) <$> sorted_entries m).

Definition CheckpointContent_bytes (c : CheckpointContent Att) : list N :=
  to_le_bytes (cp_origin c)
  ++ entries_bytes to_le_bytes (cp_last_executed_client_req c)
  ++ Count_hash (cp_counter_latest_prep c)
  ++ entries_bytes hash_bytes (cp_usig_attestations c)
  ++ View_hash (cp_view_latest_prep c)
  ++ entries_bytes (le_bytes 16) (cp_recovering_replicas c)
  ++ cp_state_hash c
  ++ to_le_bytes (cp_total_amount_accepted_batches c).
Definition Checkpoint_hash (m : Checkpoint Sig Att) : list N := UsigSigned_hash CheckpointContent_bytes hash_bytes m.
#[export] Instance CheckpointContent_signable : UsigSignable (CheckpointContent Att) :=
  {| us_origin := cp_origin; hash_content := CheckpointContent_bytes |}.

Definition CheckpointCertificate_hash (c : CheckpointCertificate Sig Att) : list N :=
  Checkpoint_hash (cc_my_checkpoint c) ++ concat (Checkpoint_hash <$> cc_other_checkpoints c).

(** The hash of the log comes from the variant: the digest of the log, or the
    digest the variant without a log stores. *)
Definition ViewChangeContent_bytes {V} (variant_hash : V -> list N) (c : ViewChangeContent Sig Att V) : list N :=
  to_le_bytes (vc_origin c) ++ View_hash (vc_next_view c)
  ++ match vc_checkpoint_cert c with Some cert => CheckpointCertificate_hash cert | None => [] end
  ++ variant_hash (vc_variant c).

Definition ViewChangeV_hash {V} (variant_hash : V -> list N) (m : ViewChangeV Sig Att V) : list N :=
  UsigSigned_hash (ViewChangeContent_bytes variant_hash) hash_bytes m.

Definition UsigMessageF_hash {NV} (new_view_hash : NV -> list N)
    (m : UsigMessageF P Sig Att ViewChangeVariantNoLog NV) : list N :=
  match m with
  | MView m => 0%N :: ViewPeerMessage_hash m
  | MViewChange m => 1%N :: ViewChangeV_hash nl_hash m
  | MNewView m => 2%N :: new_view_hash m
  | MCheckpoint m => 3%N :: Checkpoint_hash m
  end.

(** [ViewChangeVariantLog::hash], for a hash of the messages of the log. *)
Definition log_hash {M} (message_hash : M -> list N) (v : ViewChangeVariantLog M) : list N :=
  sha256 (concat (map message_hash (message_log v))).

Definition NewViewCertificate_hash {VC} (vc_hash : VC -> list N) (c : NewViewCertificate VC) : list N :=
  0%N :: concat (map vc_hash (nvc_view_changes c)).
Definition NewViewContent_bytes {VC} (vc_hash : VC -> list N) (c : NewViewContent VC) : list N :=
  to_le_bytes (nv_origin c) ++ View_hash (nv_next_view c) ++ NewViewCertificate_hash vc_hash (nv_certificate c).

Fixpoint NewView_hash (nv : NewView P Sig Att) : list N :=
  match nv with
  | mkNewView s =>
      UsigSigned_hash (NewViewContent_bytes (ViewChangeV_hash (log_hash (UsigMessageF_hash NewView_hash)))) hash_bytes s
  end.

Definition UsigMessage_hash (m : UsigMessageV P Sig Att ViewChangeVariantNoLog) : list N :=
  UsigMessageF_hash NewView_hash m.
Definition ViewChangeVariantLog_hash (v : MessageLog P Sig Att) : list N := log_hash UsigMessage_hash v.

#[export] Instance ViewChangeContent_signable : UsigSignable (ViewChangeContent Sig Att (MessageLog P Sig Att)) :=
  {| us_origin := vc_origin; hash_content := ViewChangeContent_bytes ViewChangeVariantLog_hash |}.
#[export] Instance ViewChangeContent_NoLog_signable : UsigSignable (ViewChangeContent Sig Att ViewChangeVariantNoLog) :=
  {| us_origin := vc_origin; hash_content := ViewChangeContent_bytes nl_hash |}.
#[export] Instance NewViewContent_signable : UsigSignable (NewViewContent (ViewChange P Sig Att)) :=
  {| us_origin := nv_origin; hash_content := NewViewContent_bytes (ViewChangeV_hash ViewChangeVariantLog_hash) |}.

Definition ViewChange_to_no_log (m : ViewChange P Sig Att) : ViewChangeV Sig Att ViewChangeVariantNoLog :=
  let c := us_data m in
  clone_signature m (mkViewChange (vc_origin c) (vc_next_view c) (vc_checkpoint_cert c)
                       (mkNoLog (ViewChangeVariantLog_hash (vc_variant c)))).
Definition UsigMessage_to_no_log (m : UsigMessage P Sig Att) : UsigMessageV P Sig Att ViewChangeVariantNoLog :=
  match m with
  | MView v => MView v
  | MViewChange v => MViewChange (ViewChange_to_no_log v)
  | MNewView n => MNewView n
  | MCheckpoint c => MCheckpoint c
  end.
Definition ViewChangeContent_new (origin next_view : N) (checkpoint : option (CheckpointCertificate Sig Att))
    (log : list (UsigMessage P Sig Att)) : ViewChangeContent Sig Att (MessageLog P Sig Att) :=
  mkViewChange origin next_view checkpoint (mkLog (UsigMessage_to_no_log <$> log)).
End hashing.

(** ** Validation *)

Definition u64_le (a b : N) : Prop := (a <= b)%N.
#[export] Instance u64_le_dec : RelDecision u64_le.
Proof. intros a b. unfold u64_le. apply _. Defined.
(** [sort_unstable] on [u64]s. *)
Definition sort_u64 (l : list N) : list N := merge_sort u64_le l.

Section validate.
  Context {Pr : Profile} {P U Sig Att : Type}.
  Context `{Hashbar P, Hashbar Sig, Hashbar Att} `{Digests} `{Usig U Sig Att} `{EqDecision Att}.
  Implicit Types (config : Config) (usig : U).

(** [self.verify(usig)], with the error mapped by [parse_usig_error]. *)
Definition verify_as {T} `{UsigSignable T} (msg_type : string) config usig (m : UsigSigned T Sig)
    : Outcome (Result () InnerError) :=
  match UsigSigned_verify m usig with
  | Err usig_error => Val (Err (parse_usig_error usig_error (cfg_id config) msg_type (us_origin (us_data m))))
  | Ok v => Val (Ok v)
  end.

Definition Prepare_validate config usig (m : Prepare P Sig Att) : Outcome (Result () InnerError) :=
  let d := us_data m in
  is_primary ← Config_is_primary config (pr_view d) (pr_origin d);
  if negb is_primary then Val (Err (PrepareFromBackup (cfg_id config) (pr_origin d) (pr_view d)))
  else
    match RequestBatch_validate (pr_request_batch d) with
    | Err _ => Val (Err (RequestInPrepare (cfg_id config) (pr_origin d)))
    | Ok _ => verify_as "Prepare" config usig m
    end.

Definition Commit_validate config usig (m : Commit P Sig Att) : Outcome (Result () InnerError) :=
  let d := us_data m in
  if (co_origin d =? pr_origin (us_data (co_prepare d)))%N
  then Val (Err (CommitFromPrimary (cfg_id config) (co_origin d)))
  else
    Prepare_validate config usig (co_prepare d) ?;
    verify_as "Commit" config usig m.

Definition ViewPeerMessage_validate config usig (m : ViewPeerMessage P Sig Att) : Outcome (Result () InnerError) :=
  match m with
  | VPrepare prepare => Prepare_validate config usig prepare
  | VCommit commit => Commit_validate config usig commit
  end.

Definition same_checkpoint (a b : Checkpoint Sig Att) : bool :=
  let a := us_data a in let b := us_data b in
  (cp_counter_latest_prep a =? cp_counter_latest_prep b)%N
  && (cp_view_latest_prep a =? cp_view_latest_prep b)%N
  && bool_decide (cp_state_hash a = cp_state_hash b)
  && (cp_total_amount_accepted_batches a =? cp_total_amount_accepted_batches b)%N
  && bool_decide (cp_last_executed_client_req a = cp_last_executed_client_req b)
  && bool_decide (cp_usig_attestations a = cp_usig_attestations b)
  && bool_decide (cp_recovering_replicas a = cp_recovering_replicas b).

Definition Checkpoint_validate config usig (m : Checkpoint Sig Att) : Outcome (Result () InnerError) :=
  verify_as "Checkpoint" config usig m.

(** [for m in msgs { if !origins.insert(m.origin) { return Err } }]: whether the
    origins differ from one another and from [seen]. *)
Fixpoint distinct_origins (seen : gset N) (origins : list N) : bool :=
  match origins with
  | [] => true
  | o :: origins => if bool_decide (o ∈ seen) then false else distinct_origins ({[o]} ∪ seen) origins
  end.

Definition CheckpointCertificate_validate config usig (c : CheckpointCertificate Sig Att)
    : Outcome (Result () InnerError) :=
  let my := cc_my_checkpoint c in
  let others := cc_other_checkpoints c in
  let my_origin := cp_origin (us_data my) in
  if (N.of_nat (length others) <? cfg_t config)%N
  then Val (Err (CheckpointCertNotSufficientMsgs (cfg_id config) my_origin))
  else if negb (distinct_origins {[my_origin]} ((fun m => cp_origin (us_data m)) <$> others))
  then Val (Err (CheckpointCertNotAllDifferentOrigin (cfg_id config) my_origin))
  else if negb (forallb (same_checkpoint my) others)
  then Val (Err (CheckpointCertNotAllSameStateHash (cfg_id config) my_origin))
  else
    Checkpoint_validate config usig my ?;
    try_for others (Checkpoint_validate config usig).

(** The first counter of the log, in ascending order. *)
Definition ViewChange_validate_first config usig (m : ViewChange P Sig Att) (seq_num_msgs : list N)
    : Outcome (Result () InnerError) :=
  let d := us_data m in
  match vc_checkpoint_cert d with
  | Some checkpoint_cert =>
      CheckpointCertificate_validate config usig checkpoint_cert ?;
      match head seq_num_msgs with
      | None => Val (Err (ViewChangeMessageLogEmptyWithCert (cfg_id config) (vc_origin d)))
      | Some first =>
          let expected := counter (cc_my_checkpoint checkpoint_cert) in
          if (expected <? first)%N
          then Val (Err (ViewChangeFirstUnexpectedCounter (cfg_id config) (vc_origin d) first expected))
          else Val (Ok ())
      end
  | None =>
      match head seq_num_msgs with
      | Some first =>
          if negb (first =? 0)%N
          then Val (Err (ViewChangeFirstUnexpectedCounter (cfg_id config) (vc_origin d) first 0))
          else Val (Ok ())
      | None => Val (Ok ())
      end
  end.

(** No holes: as many messages as counters between the first and the last. *)
Definition ViewChange_validate_holes config (m : ViewChange P Sig Att) (seq_num_msgs : list N)
    : Outcome (Result () InnerError) :=
  match head seq_num_msgs, list.last seq_num_msgs with
  | Some first, Some last =>
      d ← u64_sub last first;
      amount ← u64_add d 1;
      if negb (N.of_nat (length seq_num_msgs) =? amount)%N
      then Val (Err (ViewChangeHolesInMessageLog (cfg_id config) (vc_origin (us_data m))))
      else Val (Ok ())
  | _, _ => Val (Ok ())
  end.

(** The last message is the one before the [ViewChange]. *)
Definition ViewChange_validate_last config (m : ViewChange P Sig Att) : Outcome (Result () InnerError) :=
  let d := us_data m in
  match list.last (message_log (vc_variant d)) with
  | Some last =>
      expected ← u64_sub (counter m) 1;
      if negb (counter last =? expected)%N
      then Val (Err (ViewChangeLastUnexpectedCounter (cfg_id config) (vc_origin d) (counter last) expected))
      else Val (Ok ())
  | None =>
      if negb (counter m =? 0)%N
      then Val (Err (ViewChangeLogUnexpectedlyEmpty (cfg_id config) (vc_origin d)))
      else Val (Ok ())
  end.

Definition ViewChange_validate config usig (m : ViewChange P Sig Att) : Outcome (Result () InnerError) :=
  verify_as "Commit" config usig m ?;
  let seq_num_msgs := sort_u64 (counter <$> message_log (vc_variant (us_data m))) in
  ViewChange_validate_first config usig m seq_num_msgs ?;
  ViewChange_validate_holes config m seq_num_msgs ?;
  ViewChange_validate_last config m.

Definition NewViewContent_validate config (d : NewViewContent (ViewChange P Sig Att)) : Outcome (Result () InnerError) :=
  is_primary ← Config_is_primary config (nv_next_view d) (nv_origin d);
  if negb is_primary
  then Val (Err (NewViewContentUnexpectedNextView (cfg_id config) (nv_origin d) (nv_next_view d mod cfg_n config)))
  else Val (Ok ()).

(** The first test only logs. *)
Definition NewView_validate config usig (m : NewView P Sig Att) : Outcome (Result () InnerError) :=
  _ ← Config_is_primary config (nv_next_view (nv_data m)) (nv_origin (nv_data m));
  verify_as "NewView" config usig (nv_signed m) ?;
  NewViewContent_validate config (nv_data m).

Definition NewViewCertificate_validate config usig (c : NewViewCertificate (ViewChange P Sig Att)) (origin next_view : N)
    : Outcome (Result () InnerError) :=
  let view_changes := nvc_view_changes c in
  if negb (origin =? next_view mod cfg_n config)%N then Val (Err (NewViewIncorrectNewPrimary (cfg_id config)))
  else if (N.of_nat (length view_changes) <=? cfg_t config)%N
  then Val (Err (NewViewCheckpointCertNotSufficientMsgs (cfg_id config)))
  else if negb (forallb (fun m => next_view =? vc_next_view (us_data m))%N view_changes)
  then Val (Err (NewViewCheckpointCertNotAllSameNextView (cfg_id config)))
  else if negb (distinct_origins ∅ ((fun m => vc_origin (us_data m)) <$> view_changes))
  then Val (Err (NewViewCheckpointCertNotAllDifferentOrigin (cfg_id config)))
  else try_for view_changes (ViewChange_validate config usig).

Definition UsigMessage_validate config usig (m : UsigMessage P Sig Att) : Outcome (Result () InnerError) :=
  match m with
  | MView view_peer_message => ViewPeerMessage_validate config usig view_peer_message
  | MViewChange view_change => ViewChange_validate config usig view_change
  | MNewView new_view => NewView_validate config usig new_view
  | MCheckpoint checkpoint => Checkpoint_validate config usig checkpoint
  end.

Definition ReqViewChange_validate config (origin : N) (m : ReqViewChange) : Outcome (Result () InnerError) :=
  if (rvc_prev_view m <? rvc_next_view m)%N then Val (Ok ())
  else Val (Err (ReqViewChangeIncompatiblePrevNextView (cfg_id config) origin)).

Definition PeerMessage_validate config usig (replica : N) (m : PeerMessage P Sig Att)
    : Outcome (Result (ValidatedPeerMessage P Sig Att) InnerError) :=
  match pm_message m with
  | Hello _ => Val (Ok ())
  | PUsig usig_message => UsigMessage_validate config usig usig_message
  | PReqViewChange req_view_change => ReqViewChange_validate config replica req_view_change
  | Forward _ forward_message _ => UsigMessage_validate config usig forward_message
  | RecoveryRequest _ _ => Val (Ok ())
  | PRecoveryReply _ _ _ => Val (Ok ())
  end ?;
  Val (Ok (pm_message m)).
End validate.
