(* ===== verification/MbOrder.v ===== *)
(** * MinBFT: the order enforcer

    Models [src/atomic-broadcast/minbft/minbft/src/usig_msg_order_enforcer.rs].

    One enforcer per replica hands the messages of that replica on in the order
    of their counters, each counter once, and keeps a message that came too early.
    [BinaryHeap<UsigMessageWrapper>], ordered by the reversed counter, is the
    [MinHeap] of [Heaps]; [PeekMut::pop] is its [pop], which takes the element
    [peek_mut] showed.  The iterators the methods return are all collected by
    their callers, so a method returns the list. *)

From Stdlib Require Import ZArith Lia.
From stdpp Require Import base list gmap sets numbers option.
From S2P Require Import Prelude Ids Heaps MbUsig MbBase MbMessages.

Inductive CountCheckerError := AlreadySeen | NotNext.

Section order.
  Context {Pr : Profile} {P Sig Att : Type} `{Counter Sig} `{HashOrder}.
  Local Abbreviation Msg := (UsigMessage P Sig Att).

#[export] Instance UsigMessage_Keyable : Keyable Msg N := counter.

(** [CountChecker] is its field [next_count]. *)
Record UsigMsgOrderEnforcer := mkEnforcer {
  oe_next_count : N;
  oe_unprocessed : list Msg;
  oe_pending_new_views : gmap N (list Msg);
}.
#[export] Instance UsigMsgOrderEnforcer_eta : Eta UsigMsgOrderEnforcer := fun e => mkEnforcer
  (oe_next_count e) (oe_unprocessed e) (oe_pending_new_views e).

Definition UsigMsgOrderEnforcer_default : UsigMsgOrderEnforcer := mkEnforcer 0 [] ∅.

Definition CountChecker_next (next_count count : N) : Outcome (Result () CountCheckerError * N) :=
  match (count ?= next_count)%N with
  | Lt => Val (Err AlreadySeen, next_count)
  | Eq => next ← Count_add_assign next_count 1; Val (Ok (), next)
  | Gt => Val (Err NotNext, next_count)
  end.

(** [entry(view).or_default().push(msg)] *)
Definition push_pending (view : N) (msg : Msg) (m : gmap N (list Msg)) : gmap N (list Msg) :=
  <[view := default [] (m !! view) ++ [msg]]> m.

(** [yield_to_be_processed], collected: the messages yielded, the next counter
    and the heap that is left.  Every turn but the last takes a message off the heap. *)
Fixpoint yield_loop (fuel : nat) (next_count : N) (heap : list Msg) : Outcome (list Msg * N * list Msg) :=
  match fuel with
  | O => NoFuel
  | S fuel =>
      match MinHeap_peek heap with
      | None => Val ([], next_count, heap)
      | Some head =>
          r ← CountChecker_next next_count (counter head);
          match r.1 with
          | Ok _ =>
              y ← yield_loop fuel r.2 (MinHeap_pop (K := N) heap).2;
              Val (head :: y.1.1, y.1.2, y.2)
          | Err AlreadySeen => yield_loop fuel next_count (MinHeap_pop (K := N) heap).2
          | Err NotNext => Val ([], next_count, heap)
          end
      end
  end.

Definition yield_to_be_processed : St UsigMsgOrderEnforcer (list Msg) :=
  next_count ← self oe_next_count;
  heap ← self oe_unprocessed;
  r ← lift (yield_loop (S (length heap)) next_count heap);
  oe_next_count <~ r.1.2 ;;
  oe_unprocessed <~ r.2 ;;
  mret r.1.1.

Definition push_to_handle (msg : Msg) : St UsigMsgOrderEnforcer (list Msg) :=
  match msg with
  | MNewView new_view => oe_pending_new_views <~> push_pending (nv_next_view (nv_data new_view)) msg
  | MViewChange view_change => oe_pending_new_views <~> push_pending (vc_next_view (us_data view_change)) msg
  | _ => mret ()
  end ;;
  next_count ← self oe_next_count;
  r ← lift (CountChecker_next next_count (counter msg));
  oe_next_count <~ r.2 ;;
  match r.1 with
  | Ok _ => msgs ← yield_to_be_processed; mret (msg :: msgs)
  | Err AlreadySeen => mret []
  | Err NotNext => oe_unprocessed <~> (fun heap => MinHeap_push (K := N) heap msg) ;; mret []
  end.

(** The order of the views is that of a hash map. *)
Definition get_pending_new_views (e : UsigMsgOrderEnforcer) (current_view : N) : list Msg :=
  concat ((fun '(view, messages) => if (current_view <? view)%N then messages else [])
          <$> hash_iter (oe_pending_new_views e)).

(** [while next_count <= counter { next_count += 1; unprocessed.pop() }] *)
Fixpoint update_in_new_view_loop (fuel : nat) (counter_accepted_prep next_count : N) (heap : list Msg)
    : Outcome (N * list Msg) :=
  match fuel with
  | O => NoFuel
  | S fuel =>
      if (next_count <=? counter_accepted_prep)%N then
        next_count ← Count_add_assign next_count 1;
        update_in_new_view_loop fuel counter_accepted_prep next_count (MinHeap_pop (K := N) heap).2
      else Val (next_count, heap)
  end.

(** One turn per counter from [next_count] to [counter_accepted_prep]. *)
Definition update_fuel (counter_accepted_prep next_count : N) : nat :=
  S (N.to_nat (counter_accepted_prep + 1 - next_count)).

Definition update_in_new_view (counter_accepted_prep : N) : St UsigMsgOrderEnforcer () :=
  next_count ← self oe_next_count;
  heap ← self oe_unprocessed;
  r ← lift (update_in_new_view_loop (update_fuel counter_accepted_prep next_count)
              counter_accepted_prep next_count heap);
  oe_next_count <~ r.1 ;;
  oe_unprocessed <~ r.2.

Definition update_after_finished_new_view (new_view : N) (e : UsigMsgOrderEnforcer) : UsigMsgOrderEnforcer :=
  e.[oe_pending_new_views ::= filter (fun kv => (new_view < kv.1)%N)].

(** The messages below [counter_accepted_prep] leave the heap: at most all of them. *)
Fixpoint drop_below (fuel : nat) (counter_accepted_prep : N) (heap : list Msg) : list Msg :=
  match fuel with
  | O => heap
  | S fuel =>
      match MinHeap_peek heap with
      | None => heap
      | Some head =>
          if (counter head <? counter_accepted_prep)%N
          then drop_below fuel counter_accepted_prep (MinHeap_pop (K := N) heap).2 else heap
      end
  end.

Definition update_after_recovered_counter (counter_accepted_prep : N) : St UsigMsgOrderEnforcer (list Msg) :=
  modify (fun e : UsigMsgOrderEnforcer =>
    if (oe_next_count e <? counter_accepted_prep)%N then e.[oe_next_count := counter_accepted_prep] else e) ;;
  oe_unprocessed <~> (fun heap => drop_below (length heap) counter_accepted_prep heap) ;;
  yield_to_be_processed.
End order.
Arguments UsigMsgOrderEnforcer P Sig Att : clear implicits.
