(* ===== verification/MbCollectors.v ===== *)
(** * MinBFT: the collectors

    Models [peer_message_processor/collector] of
    [src/atomic-broadcast/minbft/minbft/src]: [CollectorMessages] and its instance
    for checkpoints, [CollectorCommits], [CollectorReqViewChanges],
    [CollectorViewChanges] and [CollectorForwards].

    A [HashMap] is a [gmap]; where the code iterates over one, the order is
    [hash_iter].  The [BTreeMap] of prepares is the list of its entries in the
    order of the keys. *)

From Stdlib Require Import ZArith Lia.
From stdpp Require Import base list gmap sets numbers option.
From S2P Require Import Prelude Ids MbUsig MbBase MbMessages.

(** [len() as u64] of a map. *)
Definition map_len {K A} `{Countable K} (m : gmap K A) : N := N.of_nat (size m).
Definition set_len {K} `{Countable K} (X : gset K) : N := N.of_nat (size X).

(** ** [CollectorMessages] *)

Section collector_messages.
  Context {K M : Type} `{Countable K} `{HashOrder}.
  (** [n > key], the order of the keys. *)
  Context (key_gtb : K -> K -> bool).

Definition CollectorMessages : Type := gmap K (gmap N M).
Implicit Types c : CollectorMessages.

Definition CollectorMessages_new : CollectorMessages := ∅.

Definition CollectorMessages_collect (msg : M) (from : N) (key : K) : St CollectorMessages N :=
  fun c : gmap K (gmap N M) =>
  match c !! key with
  | Some messages =>
      match messages !! from with
      | Some _ => Val (map_len messages, c)
      | None => let messages := <[from := msg]> messages in Val (map_len messages, <[key := messages]> c)
      end
  | None => let messages : gmap N M := {[from := msg]} in Val (map_len messages, <[key := messages]> c)
  end.

Definition CollectorMessages_retrieve (key : K) (config : Config) : St CollectorMessages (option (M * list M)) :=
  fun c : gmap K (gmap N M) =>
  match c !! key with
  | None => Val (None, c)
  | Some messages =>
      if (map_len messages <=? cfg_t config)%N then Val (None, c)
      else
        match messages !! cfg_id config with
        | None => Val (None, c)
        | Some my_retrieved_message =>
            let others := (filter (fun p => p.1 <> cfg_id config) (hash_iter messages)).*2 in
            let c := filter (fun p => key_gtb p.1 key = true) (delete key c) in
            Val (Some (my_retrieved_message, others), c)
        end
  end.
End collector_messages.
Arguments CollectorMessages K M {_ _}.

(** ** [CollectorCheckpoints] *)

Record KeyCheckpoints := mkKeyCheckpoints {
  kc_state_hash : list N;
  kc_total_amount_accepted_batches : N;
  kc_counter_latest_prep : N;
  kc_view_latest_prep : N;
}.
#[export] Instance KeyCheckpoints_eq_dec : EqDecision KeyCheckpoints.
Proof. solve_decision. Defined.
#[export] Instance KeyCheckpoints_countable : Countable KeyCheckpoints.
Proof.
  refine (inj_countable' (fun k => (kc_state_hash k, kc_total_amount_accepted_batches k,
                                    kc_counter_latest_prep k, kc_view_latest_prep k))
            (fun '(a, b, c, d) => mkKeyCheckpoints a b c d) _).
  by intros [].
Defined.
(** [Ord] compares the number of accepted batches only. *)
Definition KeyCheckpoints_cmp (a b : KeyCheckpoints) : comparison :=
  (kc_total_amount_accepted_batches a ?= kc_total_amount_accepted_batches b)%N.
Definition KeyCheckpoints_gtb (a b : KeyCheckpoints) : bool :=
  match KeyCheckpoints_cmp a b with Gt => true | _ => false end.

Section checkpoints.
  Context {Sig Att : Type} `{HashOrder}.

Definition CollectorCheckpoints : Type := CollectorMessages KeyCheckpoints (Checkpoint Sig Att).

Definition checkpoint_key (msg : Checkpoint Sig Att) : KeyCheckpoints :=
  let d := us_data msg in
  mkKeyCheckpoints (cp_state_hash d) (cp_total_amount_accepted_batches d) (cp_counter_latest_prep d)
    (cp_view_latest_prep d).

Definition collect_checkpoint (msg : Checkpoint Sig Att) : St CollectorCheckpoints N :=
  CollectorMessages_collect msg (cp_origin (us_data msg)) (checkpoint_key msg).

Definition retrieve_collected_checkpoints (msg : Checkpoint Sig Att) (config : Config)
    : St CollectorCheckpoints (option (CheckpointCertificate Sig Att)) :=
  retrieved ← CollectorMessages_retrieve KeyCheckpoints_gtb (checkpoint_key msg) config;
  mret ((fun r => mkCertificate r.1 r.2) <$> retrieved).
End checkpoints.
Arguments CollectorCheckpoints Sig Att : clear implicits.

(** ** [CollectorCommits] *)

(** [BTreeMap::insert] *)
Fixpoint btree_insert {A} (k : N) (a : A) (m : list (N * A)) : list (N * A) :=
  match m with
  | [] => [(k, a)]
  | (k', a') :: m' =>
      match (k ?= k')%N with
      | Lt => (k, a) :: m
      | Eq => (k, a) :: m'
      | Gt => (k', a') :: btree_insert k a m'
      end
  end.

Section commits.
  Context {P Sig Att : Type} `{Counter Sig}.

Record CollectorCommits := mkCollectorCommits {
  cl_recv_commits : gmap N (gset N);
  cl_recv_commit_msgs : gmap N (list (UsigMessage P Sig Att));
  cl_prepare : list (N * Prepare P Sig Att);
}.
#[export] Instance CollectorCommits_eta : Eta CollectorCommits := fun c => mkCollectorCommits
  (cl_recv_commits c) (cl_recv_commit_msgs c) (cl_prepare c).

Definition CollectorCommits_new : CollectorCommits := mkCollectorCommits ∅ ∅ [].

(** One arm of [collect]: note the origin and the message under the counter of
    the prepare, and the prepare itself. *)
Definition collect_origin (count origin : N) (msg : ViewPeerMessage P Sig Att) (prepare : Prepare P Sig Att)
    : St CollectorCommits () :=
  recv_commits ← self cl_recv_commits;
  match recv_commits !! count with
  | Some collected_commit_origins =>
      cl_recv_commits <~ <[count := {[origin]} ∪ collected_commit_origins]> recv_commits ;;
      msgs ← self cl_recv_commit_msgs;
      l ← lift (unwrap (msgs !! count) : Outcome (list (UsigMessage P Sig Att)));
      cl_recv_commit_msgs <~ <[count := l ++ [MView msg]]> msgs
  | None =>
      cl_recv_commits <~ <[count := {[origin]}]> recv_commits ;;
      cl_recv_commit_msgs <~> (fun msgs => <[count := [MView msg]]> msgs)
  end ;;
  cl_prepare <~> btree_insert count prepare.

(** [while let Some(entry) = self.prepare.first_entry()], over the entries. *)
Fixpoint take_acceptable (t : N) (entries : list (N * Prepare P Sig Att)) (recv_commits : gmap N (gset N))
    (recv_commit_msgs : gmap N (list (UsigMessage P Sig Att)))
    : Outcome (list (Prepare P Sig Att * list (UsigMessage P Sig Att)) * CollectorCommits) :=
  match entries with
  | [] => Val ([], mkCollectorCommits recv_commits recv_commit_msgs [])
  | (k, prepare) :: rest =>
      commits ← unwrap (recv_commits !! k);
      if (set_len commits <=? t)%N then Val ([], mkCollectorCommits recv_commits recv_commit_msgs entries)
      else
        commit_msgs ← (unwrap (recv_commit_msgs !! k) : Outcome (list (UsigMessage P Sig Att)));
        r ← take_acceptable t rest (delete k recv_commits) (delete k recv_commit_msgs);
        Val ((prepare, commit_msgs) :: r.1, r.2)
  end.

Definition accept_prepares (t : N)
    : St CollectorCommits (list (Prepare P Sig Att * list (UsigMessage P Sig Att))) := fun c =>
  take_acceptable t (cl_prepare c) (cl_recv_commits c) (cl_recv_commit_msgs c).

Definition CollectorCommits_collect (msg : ViewPeerMessage P Sig Att) (config : Config)
    : St CollectorCommits (list (Prepare P Sig Att * list (UsigMessage P Sig Att))) :=
  match msg with
  | VPrepare prepare => collect_origin (counter prepare) (pr_origin (us_data prepare)) msg prepare
  | VCommit commit =>
      let prepare := co_prepare (us_data commit) in
      collect_origin (counter prepare) (co_origin (us_data commit)) msg prepare
  end ;;
  accept_prepares (cfg_t config).
End commits.
Arguments CollectorCommits P Sig Att : clear implicits.

(** ** [CollectorReqViewChanges] *)

Record KeyRVC := mkKeyRVC { kr_prev_view : N; kr_next_view : N }.
#[export] Instance KeyRVC_eq_dec : EqDecision KeyRVC.
Proof. solve_decision. Defined.
#[export] Instance KeyRVC_countable : Countable KeyRVC.
Proof.
  refine (inj_countable' (fun k => (kr_prev_view k, kr_next_view k)) (fun p => mkKeyRVC p.1 p.2) _).
  by intros [].
Defined.
Definition KeyRVC_cmp (a b : KeyRVC) : comparison :=
  match (kr_prev_view a ?= kr_prev_view b)%N with
  | Lt => Lt
  | Eq => (kr_next_view a ?= kr_next_view b)%N
  | Gt => Gt
  end.

Definition CollectorReqViewChanges : Type := gmap KeyRVC (gset N).
Definition CollectorReqViewChanges_new : CollectorReqViewChanges := ∅.

Definition CollectorReqViewChanges_collect (msg : ReqViewChange) (from : N) : St CollectorReqViewChanges N :=
  fun c : gmap KeyRVC (gset N) =>
  let key := mkKeyRVC (rvc_prev_view msg) (rvc_next_view msg) in
  let old : option (gset N) := c !! key in
  let collected_rvc : gset N := match old with Some l => {[from]} ∪ l | None => {[from]} end in
  Val (set_len collected_rvc, <[key := collected_rvc]> c).

Definition CollectorReqViewChanges_clean_up (prev_view next_view : N) (c : CollectorReqViewChanges)
    : CollectorReqViewChanges :=
  filter (fun kv => KeyRVC_cmp kv.1 (mkKeyRVC prev_view next_view) = Gt) c.

(** ** [CollectorViewChanges] *)

Section view_changes.
  Context {P Sig Att : Type} `{HashOrder}.

Definition CollectorViewChanges : Type := gmap N (gmap N (ViewChange P Sig Att)).
Definition CollectorViewChanges_new : CollectorViewChanges := ∅.

Definition collect_view_change (msg : ViewChange P Sig Att) : St CollectorViewChanges N := fun c =>
  let from := vc_origin (us_data msg) in
  let next_view := vc_next_view (us_data msg) in
  let messages := default ∅ (c !! next_view) in
  match messages !! from with
  | Some _ => Val (map_len messages, <[next_view := messages]> c)
  | None => let messages := <[from := msg]> messages in Val (map_len messages, <[next_view := messages]> c)
  end.

Definition retrieve_collected_view_changes (msg : ViewChange P Sig Att) (config : Config)
    : St CollectorViewChanges (option (list (ViewChange P Sig Att))) := fun c =>
  let next_view := vc_next_view (us_data msg) in
  match c !! next_view with
  | Some messages =>
      if (map_len messages <=? cfg_t config)%N then Val (None, c)
      else Val (Some (hash_iter messages).*2, delete next_view c)
  | None => Val (None, c)
  end.
End view_changes.
Arguments CollectorViewChanges P Sig Att : clear implicits.

(** ** [CollectorForwards] *)

Section forwards.
  Context {P Sig Att : Type} `{Counter Sig} `{HashOrder}.
  Local Abbreviation Forwarded := (N * list (UsigMessage P Sig Att))%type.

(** By original sender and forwarder: the counter and the view messages sent
    along.  The entry of a replica that is done, and of this replica, is [None]. *)
Definition CollectorForwards : Type := list (option (list (option Forwarded))).

Definition CollectorForwards_new (config : Config) : Outcome CollectorForwards :=
  let n := N.to_nat (cfg_n config) in
  assign_u64 (replicate n (Some (replicate n None))) (cfg_id config) None.

(** The two maps built for one original sender: how often each counter was
    forwarded, and the view messages that came last with it. *)
Definition count_forwards (counts : list (option Forwarded)) : gmap N N * gmap N (list (UsigMessage P Sig Att)) :=
  foldl (fun acc e => (<[e.1 := default 0 (acc.1 !! e.1) + 1]> acc.1, <[e.1 := e.2]> acc.2)%N)
    (∅, ∅) (omap id counts).

Definition recovered_counts (t : N) (counts : list (option Forwarded)) : list Forwarded :=
  let '(h, nv) := count_forwards counts in
  omap (fun '(c, count) => if (t <? count)%N then (fun m => (c, m)) <$> nv !! c else None) (hash_iter h).

Definition CollectorForwards_collect (forwarder : N) (msg : ViewPeerMessage P Sig Att)
    (pending_new_views : list (UsigMessage P Sig Att)) (config : Config)
    : St CollectorForwards (list (N * Forwarded)) := fun c =>
  let original_sender := ViewPeerMessage_origin msg in
  c ← match nth_u64 c original_sender with
      | Some (Some received) =>
          received ← assign_u64 received forwarder (Some (counter msg, pending_new_views));
          assign_u64 c original_sender (Some received)
      | _ => Val c
      end;
  let vec := concat (imap (fun replica_id counts_entry =>
               match counts_entry with
               | Some counts => (fun e => (N.of_nat replica_id, e)) <$> recovered_counts (cfg_t config) counts
               | None => []
               end) c) in
  c ← for_each vec c (fun c e => assign_u64 c e.1 None);
  Val (vec, c).
End forwards.
Arguments CollectorForwards P Sig Att : clear implicits.
