(* ===== verification/MbBatcher.v ===== *)
(** * MinBFT: request batchers

    Models [request_batcher] of [src/atomic-broadcast/minbft/minbft/src] (the
    trait [RequestBatcher], [TrivialRequestBatcher], [AESC], [EMABatcher]) and
    [BatchConfiguration::init] of [config.rs].

    [RequestBatcher] is the trait as a class; the replica is generic in it.
    [BoxedBatcher] is the sum of the three implementations, the [Box<dyn
    RequestBatcher>] the code creates.  [clock k] is the batcher's [k]-th reading
    of the clock, [rng k] its [k]-th draw from [-1..1].  [f32] is computed by the
    Standard Library's [SpecFloat] with 24 bits of precision. *)

From Stdlib Require Import ZArith Lia SpecFloat.
From stdpp Require Import base list gmap sets numbers option.
From S2P Require Import Prelude Ids Heaps MbUsig MbBase.

(** ** [f32] and [Duration] *)

Definition f32_add : f32 -> f32 -> f32 := SFadd 24 128.
Definition f32_sub : f32 -> f32 -> f32 := SFsub 24 128.
Definition f32_mul : f32 -> f32 -> f32 := SFmul 24 128.
Definition f32_div : f32 -> f32 -> f32 := SFdiv 24 128.
Definition f32_ltb : f32 -> f32 -> bool := SFltb.
Definition f32_of_N (n : N) : f32 := binary_normalize 24 128 (Z.of_N n) 0 false.
Definition f32_one : f32 := f32_of_N 1.

(** [x.ceil() as usize]: the conversion saturates and takes NaN to zero. *)
Definition f32_ceil_as_usize (x : f32) : N :=
  match x with
  | S754_zero _ | S754_nan => 0
  | S754_infinity s => if s then 0 else u64_max
  | S754_finite true _ _ => 0
  | S754_finite false m e =>
      let v := (if (0 <=? e)%Z then Z.pos m * 2 ^ e else - (- Z.pos m / 2 ^ (- e)))%Z in
      N.min (Z.to_N v) u64_max
  end.

Definition nanos_per_sec : N := 1000000000.
Definition as_secs_f32 (d : N) : f32 :=
  f32_add (f32_of_N (d / nanos_per_sec)) (f32_div (f32_of_N (d mod nanos_per_sec)) (f32_of_N nanos_per_sec)).

(** [a / b] rounded to the nearest integer, ties to even. *)
Definition div_round_even (a b : Z) : Z :=
  let q := (a / b)%Z in let r := (a mod b)%Z in
  match (2 * r ?= b)%Z with
  | Lt => q
  | Gt => q + 1
  | Eq => if Z.even q then q else q + 1
  end%Z.

(** Panics on a negative, infinite, undefined or too large number of seconds. *)
Definition from_secs_f32 (x : f32) : Outcome N :=
  match x with
  | S754_zero _ => Val 0%N
  | S754_nan | S754_infinity _ | S754_finite true _ _ => Panic
  | S754_finite false m e =>
      let n := (Z.pos m * Z.of_N nanos_per_sec)%Z in
      let nanos := Z.to_N (if (0 <=? e)%Z then n * 2 ^ e else div_round_even n (2 ^ (- e)))%Z in
      if (nanos <=? duration_max)%N then Val nanos else Panic
  end.

Definition Duration_saturating_add (a b : N) : N := N.min (a + b) duration_max.
Definition Duration_saturating_sub (a b : N) : N := (a - b)%N.
Definition from_millis (ms : N) : N := (ms * 1000000)%N.

(** ** The trait *)

Definition ControllerOutput (P Att : Type) : Type := option (RequestBatch P Att) * option Timeout.

Class RequestBatcher (Bt P Att : Type) := {
  bt_batch : ClientRequest P Att -> St Bt (ControllerOutput P Att);
  bt_timeout : St Bt (ControllerOutput P Att);
  bt_update : RequestBatch P Att -> St Bt (ControllerOutput P Att);
  bt_init : BatchConfiguration -> Outcome Bt;
}.

Definition is_nil {A} (l : list A) : bool := match l with [] => true | _ => false end.

(** ** [TrivialRequestBatcher] *)

Section trivial.
  Context {P Att : Type}.

Record TrivialRequestBatcher := mkTrivial {
  tb_next_batch : list (ClientRequest P Att);
  tb_timeout : N;
  tb_max_size : option N;
  tb_timeout_started : bool;
}.
#[export] Instance TrivialRequestBatcher_eta : Eta TrivialRequestBatcher := fun b => mkTrivial
  (tb_next_batch b) (tb_timeout b) (tb_max_size b) (tb_timeout_started b).

Definition TrivialRequestBatcher_new (timeout : N) (max_size : option N) : TrivialRequestBatcher :=
  mkTrivial [] timeout max_size false.

Definition Trivial_batch (request : ClientRequest P Att) : St TrivialRequestBatcher (ControllerOutput P Att) :=
  tb_next_batch <~> (fun l => l ++ [request]) ;;
  next_batch ← self tb_next_batch;
  max_size ← self tb_max_size;
  if match max_size with Some max_size => (max_size <=? N.of_nat (length next_batch))%N | None => false end then
    tb_timeout_started <~ false ;;
    tb_next_batch <~ [] ;;
    mret (Some (RequestBatch_new next_batch), None)
  else
    timeout_started ← self tb_timeout_started;
    if timeout_started : bool then mret (None, None)
    else
      tb_timeout_started <~ true ;;
      timeout ← self tb_timeout;
      mret (None, Some (Timeout_batch timeout)).

Definition Trivial_timeout : St TrivialRequestBatcher (ControllerOutput P Att) :=
  tb_timeout_started <~ false ;;
  next_batch ← self tb_next_batch;
  if is_nil next_batch then mret (None, None)
  else
    tb_next_batch <~ [] ;;
    mret (Some (RequestBatch_new next_batch), None).

Definition Trivial_update (committed_batch : RequestBatch P Att) : St TrivialRequestBatcher (ControllerOutput P Att) :=
  mret (None, None).
End trivial.
Arguments TrivialRequestBatcher P Att : clear implicits.

(** ** [AESC] *)

Inductive Direction := Increasing | Descreasing.

Record ESO := mkESO { eso_waiting_time : N; eso_perf_index : N; eso_probing_direction : Direction }.
#[export] Instance ESO_eta : Eta ESO := fun e => mkESO
  (eso_waiting_time e) (eso_perf_index e) (eso_probing_direction e).
Definition ESO_new : ESO := mkESO 0 duration_max Increasing.

(** [pertupation]: the number drawn from [-1..1]. *)
Definition ESO_update (pertupation : Z) (new_perf_index : N) (e : ESO) : Direction * ESO :=
  let direction :=
    if (new_perf_index <=? eso_perf_index e)%N then eso_probing_direction e
    else match eso_probing_direction e with Increasing => Descreasing | Descreasing => Increasing end in
  let gamma := 1%Z in
  let delta := ((match direction with Increasing => gamma | Descreasing => - gamma end) + pertupation)%Z in
  let delta_duration := from_millis (Z.to_N (Z.abs delta)) in
  if (0 <? delta)%Z
  then (Increasing, mkESO (Duration_saturating_add (eso_waiting_time e) delta_duration) new_perf_index direction)
  else (Descreasing, mkESO (Duration_saturating_sub (eso_waiting_time e) delta_duration) new_perf_index direction).
Definition ESO_get_timeout (e : ESO) : N := eso_waiting_time e.
Definition ESO_set_timeout (new_duration : N) (e : ESO) : ESO := e.[eso_waiting_time := new_duration].

Section aesc.
  Context {P Att : Type} (clock : nat -> N) (rng : nat -> Z).

Record AESC := mkAESC {
  ae_requests : list (ClientRequest P Att);
  ae_optimizers : list ESO;
  ae_issue_events : gmap (N * N) N;
  ae_last_batch : option N;
  ae_max_inflight : N;
  ae_ticks : nat;
  ae_draws : nat;
}.
#[export] Instance AESC_eta : Eta AESC := fun a => mkAESC (ae_requests a) (ae_optimizers a) (ae_issue_events a)
  (ae_last_batch a) (ae_max_inflight a) (ae_ticks a) (ae_draws a).

Definition AESC_new (max_batch_size max_inflight : N) : AESC :=
  mkAESC [] (replicate (N.to_nat max_batch_size) ESO_new) ∅ None max_inflight 0 0.

Definition ae_now : St AESC N := k ← self ae_ticks; ae_ticks <~ S k ;; mret (clock k).

(** The id of a batch: client and id of its first request. *)
Definition first_id (r : ClientRequest P Att) : N * N := (cr_client r, cr_id r).

Definition AESC_get_next_batch : St AESC (ControllerOutput P Att) :=
  requests ← self ae_requests;
  if is_nil requests then mret (None, None)
  else
    issue_events ← self ae_issue_events;
    max_inflight ← self ae_max_inflight;
    if (max_inflight <=? N.of_nat (size issue_events))%N then mret (None, None)
    else
      optimizers ← self ae_optimizers;
      eso ← lift (unwrap (match optimizers !! (length requests - 1) with
                          | Some eso => Some eso
                          | None => list.last optimizers
                          end));
      last_batch ← self ae_last_batch;
      time_since_last ← match last_batch with
                        | Some event => now ← ae_now; mret (now - event)%N
                        | None => mret duration_max
                        end;
      if (ESO_get_timeout eso <=? time_since_last)%N then
        let max_batch_size := length optimizers in
        let k := min max_batch_size (length requests) in
        let batch := take k requests in
        ae_requests <~ drop k requests ;;
        first_req ← lift (unwrap (head batch));
        now ← ae_now;
        ae_last_batch <~ Some now ;;
        ae_issue_events <~> (fun m => <[first_id first_req := now]> m) ;;
        mret (Some (RequestBatch_new batch), None)
      else
        mret (None, Some (Timeout_batch (Duration_saturating_sub (ESO_get_timeout eso) time_since_last))).

Definition AESC_batch (new_request : ClientRequest P Att) : St AESC (ControllerOutput P Att) :=
  ae_requests <~> (fun l => l ++ [new_request]) ;;
  AESC_get_next_batch.

Definition AESC_timeout : St AESC (ControllerOutput P Att) := AESC_get_next_batch.

(** The other optimizers follow the one that was updated. *)
Definition AESC_propagate (direction : Direction) (batch_size : nat) (new_timeout : N) (optimizers : list ESO)
    : list ESO :=
  imap (fun i other =>
    match direction with
    | Increasing =>
        if (Nat.leb (batch_size - 1) i) && (ESO_get_timeout other <? new_timeout)%N
        then ESO_set_timeout new_timeout other else other
    | Descreasing =>
        if (Nat.ltb i (batch_size - 1)) && (new_timeout <? ESO_get_timeout other)%N
        then ESO_set_timeout new_timeout other else other
    end) optimizers.

Definition AESC_update (batch : RequestBatch P Att) : St AESC (ControllerOutput P Att) :=
  match RequestBatch_first batch with
  | None => AESC_get_next_batch
  | Some req =>
      let batch_id := first_id req in
      issue_events ← self ae_issue_events;
      match issue_events !! batch_id with
      | None => AESC_get_next_batch
      | Some issue_event =>
          ae_issue_events <~ delete batch_id issue_events ;;
          now ← ae_now;
          let latency := (now - issue_event)%N in
          let batch_size := length (rb_batch batch) in
          optimizers ← self ae_optimizers;
          optimizer ← lift (unwrap (optimizers !! (batch_size - 1)));
          k ← self ae_draws;
          ae_draws <~ S k ;;
          let '(update_direction, optimizer) := ESO_update (rng k) latency optimizer in
          let new_timeout := ESO_get_timeout optimizer in
          ae_optimizers <~ AESC_propagate update_direction batch_size new_timeout
                             (<[batch_size - 1 := optimizer]> optimizers) ;;
          AESC_get_next_batch
      end
  end.
End aesc.
Arguments AESC P Att : clear implicits.

(** ** [EMABatcher] *)

Record ExponentialMovingAverage := mkEMA { ema_last_value : option f32; ema_decay : f32 }.
Definition ExponentialMovingAverage_new (decay : f32) : ExponentialMovingAverage := mkEMA None decay.
Definition ExponentialMovingAverage_update (new_val : N) (a : ExponentialMovingAverage) : ExponentialMovingAverage :=
  mkEMA (Some (f32_add (f32_mul (f32_sub f32_one (ema_decay a)) (default (as_secs_f32 new_val) (ema_last_value a)))
                       (f32_mul (ema_decay a) (as_secs_f32 new_val))))
        (ema_decay a).
Definition ExponentialMovingAverage_get (a : ExponentialMovingAverage) : option f32 := ema_last_value a.

Record TimeoutScheduler := mkScheduler { ts_timeout_started : option N; ts_timeout : N }.
Definition TimeoutScheduler_new : TimeoutScheduler := mkScheduler None duration_max.
Definition TimeoutScheduler_set_new_duration (timeout : N) (s : TimeoutScheduler) : TimeoutScheduler :=
  mkScheduler (ts_timeout_started s) timeout.
Definition TimeoutScheduler_timeout (now : N) (s : TimeoutScheduler) : Timeout * TimeoutScheduler :=
  match ts_timeout_started s with
  | Some start_time => (Timeout_batch (Duration_saturating_sub (ts_timeout s) (now - start_time)), s)
  | None => (Timeout_batch (ts_timeout s), mkScheduler (Some now) (ts_timeout s))
  end.

Section ema.
  Context {P Att : Type} (clock : nat -> N).

Record EMABatcher := mkEMABatcher {
  eb_next_batch : list (ClientRequest P Att);
  eb_last_arrival : N;
  eb_timeout_scheduler : TimeoutScheduler;
  eb_max_batch_size : N;
  eb_start_times : gmap (N * N) N;
  eb_mean_time_to_ordering : ExponentialMovingAverage;
  eb_mean_time_between_arrivals : ExponentialMovingAverage;
  eb_ticks : nat;
}.
#[export] Instance EMABatcher_eta : Eta EMABatcher := fun b => mkEMABatcher
  (eb_next_batch b) (eb_last_arrival b) (eb_timeout_scheduler b) (eb_max_batch_size b) (eb_start_times b)
  (eb_mean_time_to_ordering b) (eb_mean_time_between_arrivals b) (eb_ticks b).

Definition EMABatcher_new (commit_decay arrival_decay : f32) : Outcome EMABatcher :=
  rust_assert (f32_ltb (f32_of_N 0) commit_decay) ;;
  rust_assert (f32_ltb commit_decay f32_one) ;;
  Val (mkEMABatcher [] (clock 0) TimeoutScheduler_new 1 ∅
         (ExponentialMovingAverage_new commit_decay) (ExponentialMovingAverage_new arrival_decay) 1).

Definition eb_now : St EMABatcher N := k ← self eb_ticks; eb_ticks <~ S k ;; mret (clock k).

(** [batch_id]: of an empty batch there is none. *)
Definition ema_batch_id (batch : RequestBatch P Att) : option (N * N) :=
  (fun r => (cr_client r, cr_id r)) <$> RequestBatch_first batch.

Definition EMA_get_next_batch (timeout : bool) : St EMABatcher (ControllerOutput P Att) :=
  next_batch ← self eb_next_batch;
  max_batch_size ← self eb_max_batch_size;
  if (max_batch_size <=? N.of_nat (length next_batch))%N || (negb (is_nil next_batch) && timeout) then
    eb_next_batch <~ [] ;;
    let batch := RequestBatch_new next_batch in
    batch_id ← lift (unwrap (ema_batch_id batch));
    now ← eb_now;
    eb_start_times <~> (fun m => <[batch_id := now]> m) ;;
    mret (Some batch, None)
  else if negb (is_nil next_batch) then
    now ← eb_now;
    scheduler ← self eb_timeout_scheduler;
    let '(timeout, scheduler) := TimeoutScheduler_timeout now scheduler in
    eb_timeout_scheduler <~ scheduler ;;
    mret (None, Some timeout)
  else mret (None, None).

Definition EMA_adapt_batch_parameters : St EMABatcher () :=
  between ← self eb_mean_time_between_arrivals;
  to_ordering ← self eb_mean_time_to_ordering;
  match ExponentialMovingAverage_get between, ExponentialMovingAverage_get to_ordering with
  | Some time_between_arrivals, Some time_to_ordering =>
      eb_max_batch_size <~ f32_ceil_as_usize (f32_div time_to_ordering time_between_arrivals) ;;
      if f32_ltb time_to_ordering time_between_arrivals then eb_max_batch_size <~ 1%N
      else
        duration ← lift (from_secs_f32 time_to_ordering);
        eb_timeout_scheduler <~> TimeoutScheduler_set_new_duration duration
  | _, _ => mret ()
  end.

Definition EMA_batch (request : ClientRequest P Att) : St EMABatcher (ControllerOutput P Att) :=
  eb_next_batch <~> (fun l => l ++ [request]) ;;
  now ← eb_now;
  last_arrival ← self eb_last_arrival;
  eb_last_arrival <~ now ;;
  eb_mean_time_between_arrivals <~> ExponentialMovingAverage_update (now - last_arrival)%N ;;
  EMA_adapt_batch_parameters ;;
  EMA_get_next_batch false.

Definition EMA_timeout : St EMABatcher (ControllerOutput P Att) := EMA_get_next_batch true.

Definition EMA_update (commited_batch : RequestBatch P Att) : St EMABatcher (ControllerOutput P Att) :=
  now ← eb_now;
  batch_id ← lift (unwrap (ema_batch_id commited_batch));
  start_times ← self eb_start_times;
  start ← lift (unwrap (start_times !! batch_id));
  eb_start_times <~ delete batch_id start_times ;;
  eb_mean_time_to_ordering <~> ExponentialMovingAverage_update (now - start)%N ;;
  EMA_adapt_batch_parameters ;;
  EMA_get_next_batch false.
End ema.
Arguments EMABatcher P Att : clear implicits.

(** ** [Box<dyn RequestBatcher>] *)

Section boxed.
  Context {P Att : Type} (clock : nat -> N) (rng : nat -> Z).

Inductive BoxedBatcher :=
| BTrivial (b : TrivialRequestBatcher P Att)
| BAESC (b : AESC P Att)
| BEMA (b : EMABatcher P Att).

Definition BatchConfiguration_init (c : BatchConfiguration) : Outcome BoxedBatcher :=
  match c with
  | BC_Trivial batch_timeout max_batch_size => Val (BTrivial (TrivialRequestBatcher_new batch_timeout max_batch_size))
  | BC_AESC max_batch_size max_inflight => Val (BAESC (AESC_new max_batch_size max_inflight))
  | BC_EMA commit_decay arrival_decay =>
      b ← EMABatcher_new clock commit_decay arrival_decay; Val (BEMA b)
  end.

(** A method called through the vtable. *)
Definition boxed_call {A} (trivial : St (TrivialRequestBatcher P Att) A) (aesc : St (AESC P Att) A)
    (ema : St (EMABatcher P Att) A) : St BoxedBatcher A := fun b =>
  match b with
  | BTrivial b => r ← trivial b; Val (r.1, BTrivial r.2)
  | BAESC b => r ← aesc b; Val (r.1, BAESC r.2)
  | BEMA b => r ← ema b; Val (r.1, BEMA r.2)
  end.

#[export] Instance BoxedBatcher_impl : RequestBatcher BoxedBatcher P Att := {|
  bt_batch := fun r => boxed_call (Trivial_batch r) (AESC_batch clock r) (EMA_batch clock r);
  bt_timeout := boxed_call Trivial_timeout (AESC_timeout clock) (EMA_timeout clock);
  bt_update := fun b => boxed_call (Trivial_update b) (AESC_update clock rng b) (EMA_update clock b);
  bt_init := BatchConfiguration_init;
|}.
End boxed.
Arguments BoxedBatcher P Att : clear implicits.

(** ** MinBFT: what the AESC batcher promises

    The batcher [AESC] of [request_batcher/aesc.rs] over any sequence of calls of
    the trait: it returns, keeps its queue in order, and bounds the size of its
    batches and the number of batches in flight ([aesc_calls_served]). *)

(** ** Total correctness

    [achieves m s Q]: the computation returns from [s], with a result and a state
    that satisfy [Q]. *)

Definition achieves {S A} (m : St S A) (s : S) (Q : A -> S -> Prop) : Prop :=
  exists a s', m s = Val (a, s') /\ Q a s'.

Lemma achieves_ret {S A} (a : A) (s : S) Q : Q a s -> achieves (mret a) s Q.
Proof. by exists a, s. Qed.
Lemma achieves_bind {S A B} (m : St S A) (f : A -> St S B) s Q :
  achieves m s (fun a s' => achieves (f a) s' Q) -> achieves (m ≫= f) s Q.
Proof. intros (a & s' & Hm & b & s2 & Hf & HQ). exists b, s2. unfold mbind, St_bind. by rewrite Hm. Qed.
Lemma achieves_self {S A} (f : S -> A) s Q : Q (f s) s -> achieves (self f) s Q.
Proof. by exists (f s), s. Qed.
Lemma achieves_modify {S} (f : S -> S) s Q : Q () (f s) -> achieves (modify f) s Q.
Proof. by exists (), (f s). Qed.
Lemma achieves_unwrap {S A} (o : option A) a (s : S) Q : o = Some a -> Q a s -> achieves (lift (unwrap o)) s Q.
Proof. intros ->. by exists a, s. Qed.
Lemma achieves_weaken {S A} (m : St S A) s Q R : achieves m s Q -> (forall a s', Q a s' -> R a s') -> achieves m s R.
Proof. intros (a & s' & Hm & HQ) HR. exists a, s'. auto. Qed.

Ltac achieve := repeat lazymatch goal with
  | |- achieves (_ ≫= _) _ _ => apply achieves_bind
  | |- achieves (self _) _ _ => apply achieves_self
  | |- achieves (modify _) _ _ => apply achieves_modify
  | |- achieves (mret _) _ _ => apply achieves_ret
  end.

Section aesc.
  Context {P Att : Type} (clock : nat -> N) (rng : nat -> Z).
  Local Abbreviation Req := (ClientRequest P Att).
  Implicit Types (a : AESC P Att) (o : ControllerOutput P Att).

(** The calls of the trait, and what they return one after the other. *)
Inductive AescCall :=
| AC_Batch (request : Req)
| AC_Timeout
| AC_Update (batch : RequestBatch P Att).

Definition aesc_call (c : AescCall) : St (AESC P Att) (ControllerOutput P Att) :=
  match c with
  | AC_Batch request => AESC_batch clock request
  | AC_Timeout => AESC_timeout clock
  | AC_Update batch => AESC_update clock rng batch
  end.

Fixpoint aesc_calls (cs : list AescCall) : St (AESC P Att) (list (ControllerOutput P Att)) :=
  match cs with
  | [] => mret []
  | c :: cs => o ← aesc_call c; os ← aesc_calls cs; mret (o :: os)
  end.

(** The requests a call brings, and those an answer takes away. *)
Definition call_requests (c : AescCall) : list Req := match c with AC_Batch r => [r] | _ => [] end.
Definition issued o : list Req := match o.1 with Some b => rb_batch b | None => [] end.
Definition call_fits (max_batch_size : N) (c : AescCall) : Prop :=
  match c with AC_Update b => (RequestBatch_len b <= max_batch_size)%N | _ => True end.

Section bounds.
  Context (max_batch_size max_inflight : N).

Record aesc_inv a : Prop := {
  ai_optimizers : N.of_nat (length (ae_optimizers a)) = max_batch_size;
  ai_max_inflight : ae_max_inflight a = max_inflight;
  ai_inflight : (N.of_nat (size (ae_issue_events a)) <= max_inflight)%N;
}.

(** A batch that goes out is not empty and not too long. *)
Definition batch_fits o : Prop :=
  forall b, o.1 = Some b -> (0 < RequestBatch_len b <= max_batch_size)%N.

(** What an operation does in a good state: it returns, and moves requests from
    the queue into the batch it returns. *)
Definition served (queue : list Req) o a' : Prop :=
  aesc_inv a' /\ batch_fits o /\ issued o ++ ae_requests a' = queue.

Lemma size_insert_le {K A} `{Countable K} (m : gmap K A) k x : size (<[k := x]> m) <= S (size m).
Proof. rewrite map_size_insert. destruct (m !! k); cbn; lia. Qed.

Lemma last_is_Some {A} (l : list A) : l <> [] -> is_Some (list.last l).
Proof. induction l as [|x [|y l] IH]; intros Hl; [done|by eexists|]. cbn in *. by apply IH. Qed.

(** The queue waits. *)
Lemma wait_served queue a (timeout : option Timeout) :
  aesc_inv a -> ae_requests a = queue -> served queue (None, timeout) a.
Proof. intros Hi Hq. split_and!; [done|by intros b [=]|done]. Qed.

(** A batch goes out: at most [max_batch_size] requests from the front of the queue. *)
Lemma issue_served a a' key now :
  let k := min (length (ae_optimizers a)) (length (ae_requests a)) in
  (0 < max_batch_size)%N -> aesc_inv a -> (N.of_nat (size (ae_issue_events a)) < max_inflight)%N ->
  ae_requests a <> [] -> ae_optimizers a' = ae_optimizers a -> ae_max_inflight a' = ae_max_inflight a ->
  ae_issue_events a' = <[key := now]> (ae_issue_events a) -> ae_requests a' = drop k (ae_requests a) ->
  served (ae_requests a) (Some (RequestBatch_new (take k (ae_requests a))), None) a'.
Proof.
  intros k Hpos [Ho Hm Hi] Hlt Hne Ha1 Ha2 Ha3 Ha4. split_and!.
  - split; [by rewrite Ha1|by rewrite Ha2|]. rewrite Ha3. pose proof (size_insert_le (ae_issue_events a) key now). lia.
  - intros b [= <-]. unfold RequestBatch_len. cbn. rewrite length_take. subst k.
    destruct (ae_requests a); [done|]. cbn [length]. lia.
  - rewrite Ha4. apply take_drop.
Qed.

Lemma AESC_next_served queue a : (0 < max_batch_size)%N -> aesc_inv a -> ae_requests a = queue ->
  achieves (AESC_get_next_batch clock) a (served queue).
Proof.
  intros Hpos Hinv <-. pose proof Hinv as [Ho Hm Hi]. unfold AESC_get_next_batch, ae_now. achieve.
  destruct (is_nil (ae_requests a)) eqn:Hr; achieve; [by apply wait_served|].
  destruct (_ <=? _)%N eqn:Hfl; achieve; [by apply wait_served|]. rewrite Hm in Hfl. apply N.leb_gt in Hfl.
  assert (ae_requests a <> []) as Hne by (intros Hn; by rewrite Hn in Hr).
  assert (ae_optimizers a <> []) as Hno by (intros Hn; rewrite Hn in Ho; cbn in Ho; lia).
  assert (is_Some (match ae_optimizers a !! (length (ae_requests a) - 1) with
                   | Some eso => Some eso | None => list.last (ae_optimizers a) end)) as [eso Heso].
  { destruct (ae_optimizers a !! _); [by eexists|by apply last_is_Some]. }
  apply (achieves_unwrap _ eso); [done|]. achieve.
  apply (achieves_weaken _ _ (fun _ a1 => exists tk, a1 = a.[ae_ticks := tk])).
  { destruct (ae_last_batch a) as [event|]; achieve; [by eexists|]. exists (ae_ticks a). by destruct a. }
  intros since a1 [tk ->]. destruct (_ <=? _)%N; achieve; [|apply wait_served; [by split|done]].
  destruct (head (take (min (length (ae_optimizers a)) (length (ae_requests a))) (ae_requests a))) as [r|] eqn:Hh.
  - apply (achieves_unwrap _ r); [done|]. achieve. by eapply issue_served.
  - destruct (ae_requests a); [done|]. by destruct (ae_optimizers a).
Qed.

Lemma AESC_propagate_length d k t os : length (AESC_propagate d k t os) = length os.
Proof. apply length_imap. Qed.

(** Every call is served; an update needs a batch of at most [max_batch_size]. *)
Lemma aesc_call_served c a : (0 < max_batch_size)%N -> aesc_inv a -> call_fits max_batch_size c ->
  achieves (aesc_call c) a (served (ae_requests a ++ call_requests c)).
Proof.
  intros Hpos Hinv Hfit. destruct c as [r| |b]; cbn; rewrite ?app_nil_r.
  - unfold AESC_batch. achieve. destruct Hinv. apply AESC_next_served; [done|by split|done].
  - by apply AESC_next_served.
  - unfold AESC_update, ae_now. unfold call_fits, RequestBatch_len in Hfit.
    destruct (RequestBatch_first b) as [req|] eqn:Hf; [|by apply AESC_next_served]. achieve.
    destruct (ae_issue_events a !! first_id req) as [event|] eqn:He; [|by apply AESC_next_served]. achieve.
    destruct Hinv as [Ho Hm Hi].
    assert (is_Some (ae_optimizers a !! (length (rb_batch b) - 1))) as [opt Hopt].
    { apply lookup_lt_is_Some. unfold RequestBatch_first in Hf. destruct (rb_batch b); cbn in *; [done|lia]. }
    apply (achieves_unwrap _ opt); [done|]. achieve. destruct (ESO_update _ _ _) as [d opt']. achieve.
    apply AESC_next_served; [done| |done]. split; cbn.
    + by rewrite AESC_propagate_length, length_insert.
    + done.
    + rewrite map_size_delete, He. cbn. lia.
Qed.
End bounds.

(** Over any calls: the answers take the requests in the order they came. *)
Lemma aesc_calls_served max_batch_size max_inflight cs a : (0 < max_batch_size)%N -> aesc_inv max_batch_size max_inflight a ->
  Forall (call_fits max_batch_size) cs ->
  achieves (aesc_calls cs) a (fun os a' =>
    aesc_inv max_batch_size max_inflight a' /\ Forall (batch_fits max_batch_size) os
    /\ concat (issued <$> os) ++ ae_requests a' = ae_requests a ++ concat (call_requests <$> cs)).
Proof.
  intros Hpos Hinv Hall. revert a Hinv. induction Hall as [|c cs Hc _ IH]; intros a Hinv; cbn.
  - apply achieves_ret. by rewrite app_nil_r.
  - apply achieves_bind. eapply achieves_weaken; [by eapply aesc_call_served|]. intros o a1 (Hinv1 & Hb & Hq1).
    apply achieves_bind. eapply achieves_weaken; [by apply IH|]. intros os a2 (Hinv2 & Hbs & Hq2).
    apply achieves_ret. split_and!; [done|by constructor|]. cbn. by rewrite <-app_assoc, Hq2, app_assoc, Hq1, <-app_assoc.
Qed.
End aesc.
