(* ===== verification/MbRequests.v ===== *)
(** * MinBFT: the request processor

    Models [request_processor/mod.rs] and [checkpoint_generator.rs] of
    [src/atomic-broadcast/minbft/minbft/src].

    [accept_prepare] also writes the recovering replicas, the replica's storage
    and the output, which the code passes as mutable references: [Exec] is the
    record of the four.  [clock k] is the [k]-th reading of the clock
    ([Instant::now()]), counted in [rp_ticks]. *)

From Stdlib Require Import ZArith Lia String.
From stdpp Require Import base list gmap sets numbers option.
From S2P Require Import Prelude Ids MbUsig MbBase MbMessages MbCollectors MbBatcher.

(** ** MinBFT: the view state and the output of a handler

    Models [ViewState] ([lib.rs]) and [output.rs] of
    [src/atomic-broadcast/minbft/minbft/src], up to [reflect], which calls the
    replica and is part of [MbReplica].  [broadcast] also writes the log of sent
    messages: it returns the two. *)

Inductive ViewInfo :=
| VI_InView (view : N)
| VI_ViewChange (from to : N).

Record ChangeInProgress := mkChangeInProgress {
  cip_prev_view : N;
  cip_next_view : N;
  cip_has_broadcast_view_change : bool;
}.

Section output.
  Context {P Sig Att : Type}.
  Local Abbreviation Peer := (ValidatedPeerMessage P Sig Att).

Record InView := mkInView {
  iv_view : N;
  iv_has_requested_view_change : bool;
  iv_collector_commits : CollectorCommits P Sig Att;
}.

Inductive ViewState :=
| VS_InView (in_view : InView)
| VS_ChangeInProgress (in_progress : ChangeInProgress).

Definition ViewState_new : ViewState := VS_InView (mkInView 0 false CollectorCommits_new).

Record NotReflectedOutput := mkOutput {
  no_broadcasts : list Peer;
  no_direct_messages : list (N * Peer);
  no_responses : list (N * WrappedRequestPayload P Att);
  no_timeout_requests : list TimeoutRequest;
  no_errors : list Error;
  no_ready_for_client_requests : bool;
  no_round_times : list N;
}.
#[export] Instance NotReflectedOutput_eta : Eta NotReflectedOutput := fun o => mkOutput
  (no_broadcasts o) (no_direct_messages o) (no_responses o) (no_timeout_requests o) (no_errors o)
  (no_ready_for_client_requests o) (no_round_times o).
Implicit Types o : NotReflectedOutput.

Definition NotReflectedOutput_new (ready_for_client_requests : bool) : NotReflectedOutput :=
  mkOutput [] [] [] [] [] ready_for_client_requests [].

Definition Output_broadcast (message : Peer) o (message_log : list (UsigMessage P Sig Att))
    : NotReflectedOutput * list (UsigMessage P Sig Att) :=
  (o.[no_broadcasts ::= fun l => l ++ [message]],
   match message with PUsig msg => message_log ++ [msg] | _ => message_log end).

(** [unimplemented!] for a USIG message. *)
Definition Output_send (message : Peer) (receiver : N) o : Outcome NotReflectedOutput :=
  match message with
  | PUsig _ => Panic
  | _ => Val o.[no_direct_messages ::= fun l => l ++ [(receiver, message)]]
  end.

Definition Output_response (client_id : N) (output : WrappedRequestPayload P Att) o : NotReflectedOutput :=
  o.[no_responses ::= fun l => l ++ [(client_id, output)]].
Definition Output_timeout_request (timeout_request : TimeoutRequest) o : NotReflectedOutput :=
  o.[no_timeout_requests ::= fun l => l ++ [timeout_request]].
Definition Output_error (e : Error) o : NotReflectedOutput := o.[no_errors ::= fun l => l ++ [e]].
Definition Output_process_usig_error (usig_error : UsigError) (replica : N) (msg_type : string) o : NotReflectedOutput :=
  Output_error (Error_Usig replica msg_type usig_error) o.
Definition Output_set_ready o : NotReflectedOutput := o.[no_ready_for_client_requests := true].
Definition Output_log_round_change (now : N) o : NotReflectedOutput := o.[no_round_times ::= fun l => l ++ [now]].

(** What a handler returns. *)
Record Output := mkReflectedOutput {
  ou_broadcasts : list (PeerMessage P Sig Att);
  ou_direct_messages : list (N * PeerMessage P Sig Att);
  ou_responses : list (N * WrappedRequestPayload P Att);
  ou_timeout_requests : list TimeoutRequest;
  ou_errors : list Error;
  ou_ready_for_client_requests : bool;
  ou_primary : option N;
  ou_view_info : ViewInfo;
  ou_round : N;
  ou_round_times : list N;
}.
End output.
Arguments InView P Sig Att : clear implicits.
Arguments ViewState P Sig Att : clear implicits.
Arguments NotReflectedOutput P Sig Att : clear implicits.
Arguments Output P Sig Att : clear implicits.

(** ** MinBFT: the request processor *)

Section client_state.
  Context {P Att : Type}.

Record ClientState := mkClientState {
  cs_last_accepted_req : option N;
  cs_currently_processing_req : option (N * ClientRequest P Att);
}.
Definition ClientState_default : ClientState := mkClientState None None.

Definition update_upon_request_receival (request_id : N) (client_req : ClientRequest P Att) (c : ClientState)
    : bool * ClientState :=
  if option_leb (Some request_id) (cs_last_accepted_req c) then (false, c)
  else
    match cs_currently_processing_req c with
    | Some processing =>
        match (request_id ?= processing.1)%N with
        | Lt | Eq => (false, c)
        | Gt => (true, mkClientState (cs_last_accepted_req c) (Some (request_id, client_req)))
        end
    | None => (true, mkClientState (cs_last_accepted_req c) (Some (request_id, client_req)))
    end.

Definition update_upon_request_completion (request_id : N) (c : ClientState) : bool * ClientState :=
  if option_leb (Some request_id) (cs_last_accepted_req c) then (false, c)
  else
    (true, mkClientState (Some request_id)
             (match cs_currently_processing_req c with
              | Some processing => if (processing.1 <=? request_id)%N then None else Some processing
              | None => None
              end)).
End client_state.
Arguments ClientState P Att : clear implicits.

Section processor.
  Context {Pr : Profile} {P Sig Att Bt : Type}.
  Context `{Hashbar P} `{Digests} `{Counter Sig} `{HashOrder} `{RequestBatcher Bt P Att}.
  Context (clock : nat -> N).

Record RequestProcessor := mkRequestProcessor {
  rp_clients_state : gmap N (ClientState P Att);
  rp_currently_processing_reqs : list (N * ClientRequest P Att * N);
  rp_request_batcher : Bt;
  rp_recv_attestations : gmap N Att;
  rp_round : N;
  rp_ticks : nat;
}.
#[export] Instance RequestProcessor_eta : Eta RequestProcessor := fun r => mkRequestProcessor
  (rp_clients_state r) (rp_currently_processing_reqs r) (rp_request_batcher r) (rp_recv_attestations r)
  (rp_round r) (rp_ticks r).

Definition RequestProcessor_new (request_batcher : Bt) : RequestProcessor :=
  mkRequestProcessor ∅ [] request_batcher ∅ 0 0.

Definition RequestProcessor_new_recovered (request_batcher : Bt) (clients_last_req : gmap N N) (round : N)
    (recv_attestations : gmap N Att) : RequestProcessor :=
  (RequestProcessor_new request_batcher)
    .[rp_clients_state := (fun last_accepted_req => mkClientState (Some last_accepted_req) None) <$> clients_last_req]
    .[rp_round := round]
    .[rp_recv_attestations := recv_attestations].

(** [clients_state.entry(client).or_default()] *)
Definition client_entry (m : gmap N (ClientState P Att)) (client : N) : ClientState P Att :=
  default ClientState_default (m !! client).

Definition next_client_req_id (r : RequestProcessor) (client_id : N) : Outcome N :=
  highest_req_id ← match rp_clients_state r !! client_id with
                   | Some client_state =>
                       match cs_last_accepted_req client_state with
                       | Some id => u64_add (as_u64 id) 1
                       | None => Val 0%N
                       end
                   | None => Val 0%N
                   end;
  for_each (rp_currently_processing_reqs r) highest_req_id (fun highest_req_id e =>
    let req := e.1.2 in
    if (cr_client req =? client_id)%N && (highest_req_id <=? cr_id req)%N
    then u64_add (cr_id req) 1 else Val highest_req_id).

Definition rp_now : St RequestProcessor N := k ← self rp_ticks; rp_ticks <~ S k ;; mret (clock k).
Definition batcher_call {A} (m : St Bt A) : St RequestProcessor A :=
  zoom rp_request_batcher (fun r b => r.[rp_request_batcher := b]) m.

Definition process_client_req (client_request : ClientRequest P Att) (view_state : ViewState P Sig Att)
    (client_timeout_duration : N) (config : Config)
    : St RequestProcessor (option TimeoutRequest * option (RequestBatch P Att) * option Timeout) :=
  let request_id := cr_id client_request in
  let client := cr_client client_request in
  clients_state ← self rp_clients_state;
  let '(updated, client_state) :=
    update_upon_request_receival request_id client_request (client_entry clients_state client) in
  rp_clients_state <~ <[client := client_state]> clients_state ;;
  if negb updated then mret (None, None, None)
  else
    now ← rp_now;
    rp_currently_processing_reqs <~> (fun q => q ++ [(request_id, client_request, now)]) ;;
    let start_client_timeout := Some (new_start_client_req client client_timeout_duration) in
    match view_state with
    | VS_InView in_view =>
        me_primary ← lift (Config_me_primary config (iv_view in_view));
        if me_primary : bool then
          r ← batcher_call (bt_batch client_request);
          mret (start_client_timeout, r.1, r.2)
        else mret (start_client_timeout, None, None)
    | VS_ChangeInProgress _ => mret (start_client_timeout, None, None)
    end.

(** The requests not accepted yet, one per client. *)
Definition currently_processing_all (r : RequestProcessor) : list (N * ClientRequest P Att) :=
  omap (fun e => cs_currently_processing_req e.2) (hash_iter (rp_clients_state r)).

(** ** Accepting *)

Record Exec := mkExec {
  ex_processor : RequestProcessor;
  ex_recovering_replicas : gmap N N;
  ex_replica_storage : ReplicaStorage;
  ex_output : NotReflectedOutput P Sig Att;
}.
#[export] Instance Exec_eta : Eta Exec := fun e => mkExec
  (ex_processor e) (ex_recovering_replicas e) (ex_replica_storage e) (ex_output e).

(** [while let Some(oldest_req) = self.currently_processing_reqs.front()]: the
    queue that is left, and the client whose request is now the oldest. *)
Fixpoint drop_accepted (clients_state : gmap N (ClientState P Att)) (queue : list (N * ClientRequest P Att * N))
    : list (N * ClientRequest P Att * N) * option N :=
  match queue with
  | [] => ([], None)
  | oldest_req :: rest =>
      match clients_state !! cr_client oldest_req.1.2 with
      | None => drop_accepted clients_state rest
      | Some client_state =>
          if option_ltb (cs_last_accepted_req client_state) (Some oldest_req.1.1)
          then (queue, Some (cr_client oldest_req.1.2))
          else drop_accepted clients_state rest
      end
  end.

Definition accept_request (request : ClientRequest P Att) (curr_full_timeout_duration : N)
    : St Exec (bool * option (N * RecoveryRequestPayload Att)) :=
  let client := cr_client request in
  clients_state ← self (fun e => rp_clients_state (ex_processor e));
  let '(updated, client_state) := update_upon_request_completion (cr_id request) (client_entry clients_state client) in
  let clients_state := <[client := client_state]> clients_state in
  ex_processor <~> (fun r => r.[rp_clients_state := clients_state]) ;;
  if negb updated then mret (false, None)
  else
    ex_output <~> Output_timeout_request (new_stop_client_req client) ;;
    queue ← self (fun e => rp_currently_processing_reqs (ex_processor e));
    let '(queue, oldest) := drop_accepted clients_state queue in
    ex_processor <~> (fun r => r.[rp_currently_processing_reqs := queue]) ;;
    match cr_payload request with
    | WP_Client request_id payload =>
        ex_replica_storage <~> (fun s => ReplicaStorage_execute_request s client request_id payload)
    | WP_Internal _ => mret ()
    end ;;
    ex_output <~> Output_response client (cr_payload request) ;;
    match oldest with
    | Some oldest_client =>
        ex_output <~> Output_timeout_request (new_start_client_req oldest_client curr_full_timeout_duration)
    | None => mret ()
    end ;;
    mret (true, match cr_payload request with
                | WP_Client _ _ => None
                | WP_Internal recovery_request => Some (client, recovery_request)
                end).

Definition generate_checkpoint (prepare : Prepare P Sig Att) (storage_hash : list N)
    (last_executed_client_req : gmap N N) (usig_attestations : gmap N Att) (recovering_replicas : gmap N N)
    (total_amount_accepted_batches : N) (config : Config) : option (CheckpointContent Att) :=
  if negb (total_amount_accepted_batches mod cfg_checkpoint_period config =? 0)%N then None
  else Some {|
    cp_origin := cfg_id config;
    cp_state_hash := storage_hash;
    cp_counter_latest_prep := counter prepare;
    cp_total_amount_accepted_batches := total_amount_accepted_batches;
    cp_last_executed_client_req := last_executed_client_req;
    cp_usig_attestations := usig_attestations;
    cp_recovering_replicas := recovering_replicas;
    cp_view_latest_prep := pr_view (us_data prepare);
  |}.

(** The loop of [accept_prepare]: whether a request was accepted, and the
    recovery requests among them. *)
Fixpoint accept_requests (requests : list (ClientRequest P Att)) (timeout_duration : N) (accepted : bool)
    (recovery_requests : list (N * RecoveryRequestPayload Att))
    : St Exec (bool * list (N * RecoveryRequestPayload Att)) :=
  match requests with
  | [] => mret (accepted, recovery_requests)
  | request :: requests =>
      r ← accept_request request timeout_duration;
      match r.2 with
      | Some (client_id, recovery_request) =>
          ex_recovering_replicas <~> (fun m => <[as_u64 client_id := rr_nonce recovery_request]> m) ;;
          accept_requests requests timeout_duration (r.1 || accepted)
            (recovery_requests ++ [(client_id, recovery_request)])
      | None => accept_requests requests timeout_duration (r.1 || accepted) recovery_requests
      end
  end.

(** The last accepted request of each client that has one. *)
Definition last_executed (clients_state : gmap N (ClientState P Att)) : gmap N N :=
  omap cs_last_accepted_req clients_state.

Definition processor_call {A} (m : St RequestProcessor A) : St Exec A :=
  zoom ex_processor (fun e r => e.[ex_processor := r]) m.

Definition accept_prepare (config : Config) (prepare : Prepare P Sig Att) (timeout_duration : N) (common_case : bool)
    : St Exec (option (CheckpointContent Att) * list (N * RecoveryRequestPayload Att)
               * option (RequestBatch P Att) * option Timeout) :=
  let batch := pr_request_batch (us_data prepare) in
  batching ← (if common_case then processor_call (batcher_call (bt_update batch)) else mret (None, None));
  r ← accept_requests (rb_batch batch) timeout_duration false [];
  (if r.1 : bool then
     round ← self (fun e => rp_round (ex_processor e));
     round ← lift (u64_add round 1);
     ex_processor <~> (fun p => p.[rp_round := round]) ;;
     now ← processor_call rp_now;
     ex_output <~> Output_log_round_change now
   else mret ()) ;;
  e ← self id;
  let p := ex_processor e in
  mret (generate_checkpoint prepare (ReplicaStorage_hash (ex_replica_storage e)) (last_executed (rp_clients_state p))
          (rp_recv_attestations p) (ex_recovering_replicas e) (rp_round p) config,
        r.2, batching.1, batching.2).
End processor.
Arguments RequestProcessor P Att Bt : clear implicits.
Arguments Exec P Sig Att Bt : clear implicits.
