(* ===== verification/MbReplica.v ===== *)
(** * MinBFT: the replica

    Models [MinBft] of [src/atomic-broadcast/minbft/minbft/src]: the state and the
    public handlers of [lib.rs], the message processors of
    [peer_message_processor], and [reflect] of [output.rs].

    The [output] argument all methods share is the field [mb_output]; a public
    handler starts with a fresh one, runs, and lets the replica process its own
    broadcasts ([reflect]) until it makes no new ones.  The number of turns of that
    loop, and the nesting of [process_peer_message] in [handle_recovery_reply],
    are bounded by the fuel parameter of the handlers.  [ReplicaState] has one
    field and is the order enforcer itself.  Log output is not modelled. *)

From Stdlib Require Import ZArith Lia String.
From stdpp Require Import base list gmap sets numbers option.
From S2P Require Import Prelude Ids Heaps MbUsig MbBase MbMessages MbOrder MbCollectors MbBatcher MbRequests.

Section replica.
  Context {Pr : Profile} {P U Sig Att Bt : Type}.
  Context `{Hashbar P, Hashbar Sig, Hashbar Att} `{Digests} `{Usig U Sig Att} `{EqDecision Att} `{HashOrder}.
  Context `{RequestBatcher Bt P Att}.
  (** [Instant::now()] *)
  Context (clock : nat -> N).

Local Abbreviation Msg := (UsigMessage P Sig Att).
Local Abbreviation Peer := (ValidatedPeerMessage P Sig Att).
Local Abbreviation Prep := (Prepare P Sig Att).

#[export] Instance Prepare_Keyable : Keyable Prep N := counter.

Record MinBft := mkMinBft {
  mb_usig : U;
  mb_config : Config;
  mb_request_processor : RequestProcessor P Att Bt;
  mb_sent_usig_msgs : list Msg;
  mb_replicas_state : list (UsigMsgOrderEnforcer P Sig Att);
  mb_view_state : ViewState P Sig Att;
  mb_counter_last_accepted_prep : option N;
  mb_collector_rvc : CollectorReqViewChanges;
  mb_collector_vc : CollectorViewChanges P Sig Att;
  mb_collector_recovery_forwards : CollectorForwards P Sig Att;
  mb_last_checkpoint_cert : option (CheckpointCertificate Sig Att);
  mb_collector_checkpoints : CollectorCheckpoints Sig Att;
  mb_current_timeout_duration : N;
  mb_replica_storage : ReplicaStorage;
  mb_checkpoint_replica_storage : ReplicaStorage;
  mb_recovering : bool;
  mb_recovering_nonce : option N;
  mb_recovery_unverified_usig_messages : list (N * PeerMessage P Sig Att);
  mb_recovering_replicas : gmap N N;
  mb_awaiting_recovery_reply : gset N;
  mb_output : NotReflectedOutput P Sig Att;
}.
#[export] Instance MinBft_eta : Eta MinBft := fun s => mkMinBft
  (mb_usig s) (mb_config s) (mb_request_processor s) (mb_sent_usig_msgs s) (mb_replicas_state s)
  (mb_view_state s) (mb_counter_last_accepted_prep s) (mb_collector_rvc s) (mb_collector_vc s)
  (mb_collector_recovery_forwards s) (mb_last_checkpoint_cert s) (mb_collector_checkpoints s)
  (mb_current_timeout_duration s) (mb_replica_storage s) (mb_checkpoint_replica_storage s) (mb_recovering s)
  (mb_recovering_nonce s) (mb_recovery_unverified_usig_messages s) (mb_recovering_replicas s)
  (mb_awaiting_recovery_reply s) (mb_output s).

Definition MinBft_primary (s : MinBft) : option N :=
  match mb_view_state s with
  | VS_InView v => Some (Config_primary (mb_config s) (iv_view v))
  | VS_ChangeInProgress _ => None
  end.

Definition ready_for_client_requests (s : MinBft) : bool :=
  (map_len (rp_recv_attestations (mb_request_processor s)) =? cfg_n (mb_config s))%N && negb (mb_recovering s).

(** ** Output, USIG, collectors, enforcers and the request processor *)

Definition broadcast (message : Peer) : St MinBft () :=
  modify (fun s : MinBft =>
    let '(o, log) := Output_broadcast message (mb_output s) (mb_sent_usig_msgs s) in
    s.[mb_output := o].[mb_sent_usig_msgs := log]).
Definition send (message : Peer) (receiver : N) : St MinBft () :=
  update (fun s : MinBft => o ← Output_send message receiver (mb_output s); Val s.[mb_output := o]).
Definition timeout_request (r : TimeoutRequest) : St MinBft () := mb_output <~> Output_timeout_request r.
Definition output_error (e : Error) : St MinBft () := mb_output <~> Output_error e.

Definition sign {T} `{UsigSignable T} (data : T) : St MinBft (Result (UsigSigned T Sig) UsigError) :=
  zoom mb_usig (fun s u => s.[mb_usig := u]) (UsigSigned_sign data).
Definition add_remote_party (id : N) (attestation : Att) : St MinBft bool := fun s =>
  let r := us_add_remote_party (mb_usig s) id attestation in Val (r.1, s.[mb_usig := r.2]).

(** [self.config.t < amount] and the like read the configuration. *)
Definition conf {A} (f : Config -> A) : St MinBft A := self (fun s => f (mb_config s)).

(** A method of [self.replicas_state[from]]. *)
Definition enforcer_call {A} (from : N) (m : St (UsigMsgOrderEnforcer P Sig Att) A) : St MinBft A := fun s =>
  e ← index_u64 (mb_replicas_state s) from;
  r ← m e;
  l ← assign_u64 (mb_replicas_state s) from r.2;
  Val (r.1, s.[mb_replicas_state := l]).

Definition processor_state_call {A} (m : St (RequestProcessor P Att Bt) A) : St MinBft A :=
  zoom mb_request_processor (fun s r => s.[mb_request_processor := r]) m.

Definition get_exec (s : MinBft) : Exec P Sig Att Bt :=
  mkExec (mb_request_processor s) (mb_recovering_replicas s) (mb_replica_storage s) (mb_output s).
Definition put_exec (s : MinBft) (e : Exec P Sig Att Bt) : MinBft :=
  s.[mb_request_processor := ex_processor e]
   .[mb_recovering_replicas := ex_recovering_replicas e]
   .[mb_replica_storage := ex_replica_storage e]
   .[mb_output := ex_output e].
Definition exec_call {A} (m : St (Exec P Sig Att Bt) A) : St MinBft A := zoom get_exec put_exec m.

(** ** Batches and client requests *)

Definition process_batching_output (maybe_batch : option (RequestBatch P Att)) (timeout : option Timeout)
    : St MinBft () :=
  match timeout with
  | Some timeout => timeout_request new_stop_batch_req ;; timeout_request (TR_Start timeout)
  | None => mret ()
  end ;;
  origin ← conf Config_me;
  match maybe_batch with
  | None => mret ()
  | Some batch =>
      view_state ← self mb_view_state;
      match view_state with
      | VS_ChangeInProgress _ => lift Panic
      | VS_InView in_view =>
          config ← self mb_config;
          me_primary ← lift (Config_me_primary config (iv_view in_view));
          if me_primary : bool then
            r ← sign (mkPrepare origin (iv_view in_view) batch);
            match r with
            | Ok prepare => broadcast (PUsig (MView (VPrepare prepare)))
            | Err usig_error => mb_output <~> Output_process_usig_error usig_error origin "Prepare"
            end
          else mret ()
      end
  end.

Definition handle_internal_client_message (client_id : N) (request : WrappedRequestPayload P Att) : St MinBft () :=
  let client_request := mkClientRequest client_id request in
  view_state ← self mb_view_state;
  duration ← self mb_current_timeout_duration;
  config ← self mb_config;
  r ← processor_state_call (process_client_req clock client_request view_state duration config);
  match r.1.1 with
  | Some client_timeout => timeout_request client_timeout
  | None => mret ()
  end ;;
  match view_state with
  | VS_InView _ => process_batching_output r.1.2 r.2
  | VS_ChangeInProgress _ => mret ()
  end.

(** ** Prepares and commits *)

Definition process_new_checkpoint : St MinBft () :=
  modify (fun s : MinBft => s.[mb_checkpoint_replica_storage := mb_replica_storage s]).

Definition handle_recovery_request (client_id : N) (request : RecoveryRequestPayload Att) : St MinBft () :=
  let replica_id := rr_replica_id request in
  me ← conf cfg_id;
  recv_attestations ← self (fun s => rp_recv_attestations (mb_request_processor s));
  if negb (as_u64 client_id =? as_u64 replica_id)%N then mret ()
  else if (replica_id =? me)%N then mret ()
  else match recv_attestations !! replica_id with
  | None => mret ()
  | Some _ =>
      _ ← add_remote_party replica_id (rr_attestation request);
      mb_request_processor <~> (fun r => r.[rp_recv_attestations ::= fun m => <[replica_id := rr_attestation request]> m]) ;;
      enforcer_call replica_id (modify (fun _ => UsigMsgOrderEnforcer_default)) ;;
      mb_recovering_replicas <~> (fun m => <[replica_id := rr_nonce request]> m) ;;
      mb_awaiting_recovery_reply <~> (fun X => {[replica_id]} ∪ X)
  end.

(** The body of the loops over acceptable prepares in [process_prepare] and
    [process_commit], up to the checkpoint: the content of the one to sign. *)
Definition accept_acceptable (prepare : Prep) : St MinBft (option (CheckpointContent Att)) :=
  config ← self mb_config;
  duration ← self mb_current_timeout_duration;
  r ← exec_call (accept_prepare clock config prepare duration true);
  let '(checkpoint_content, recovery_requests, new_batch, new_timeout) := r in
  process_batching_output new_batch new_timeout ;;
  st_for recovery_requests (fun '(client_id, request) => handle_recovery_request client_id request) ;;
  mret checkpoint_content.

(** Sign and broadcast the checkpoint; whether that worked. *)
Definition broadcast_checkpoint (checkpoint_content : CheckpointContent Att) : St MinBft bool :=
  process_new_checkpoint ;;
  r ← sign checkpoint_content;
  match r with
  | Ok checkpoint => broadcast (PUsig (MCheckpoint checkpoint)) ;; mret true
  | Err usig_error =>
      me ← conf cfg_id;
      output_error (Error_Usig me "Prepare" usig_error) ;;
      mret false
  end.

(** The loop of [process_prepare], which returns when a checkpoint cannot be
    signed ([stop]), and of [process_commit], which goes on. *)
Fixpoint accept_all (stop : bool) (acceptable : list (Prep * list Msg)) : St MinBft () :=
  match acceptable with
  | [] => mret ()
  | (prepare, _) :: acceptable =>
      checkpoint_content ← accept_acceptable prepare;
      signed ← match checkpoint_content with
               | Some checkpoint_content => broadcast_checkpoint checkpoint_content
               | None => mret true
               end;
      if negb signed && stop then mret ()
      else
        mb_counter_last_accepted_prep <~ Some (counter prepare) ;;
        accept_all stop acceptable
  end.

Definition collect_commit (in_view : InView P Sig Att) (msg : ViewPeerMessage P Sig Att) : St MinBft (list (Prep * list Msg)) := fun s =>
  r ← CollectorCommits_collect msg (mb_config s) (iv_collector_commits in_view);
  Val (r.1, s.[mb_view_state := VS_InView (mkInView (iv_view in_view) (iv_has_requested_view_change in_view) r.2)]).

Definition process_prepare (prepare : Prep) : St MinBft () :=
  view_state ← self mb_view_state;
  match view_state with
  | VS_ChangeInProgress _ => lift Panic
  | VS_InView in_view =>
      last ← self mb_counter_last_accepted_prep;
      if option_leb (Some (counter prepare)) last then mret ()
      else
        me ← conf Config_me;
        committed ←
          (if negb (pr_origin (us_data prepare) =? me)%N then
             r ← sign (mkCommit me prepare);
             match r with
             | Ok commit => broadcast (PUsig (MView (VCommit commit))) ;; mret true
             | Err usig_error => output_error (Error_Usig me "Prepare" usig_error) ;; mret false
             end
           else mret true);
        if negb committed then mret ()
        else
          acceptable ← collect_commit in_view (VPrepare prepare);
          accept_all true acceptable
  end.

Definition process_commit (commit : Commit P Sig Att) : St MinBft () :=
  view_state ← self mb_view_state;
  match view_state with
  | VS_ChangeInProgress _ => lift Panic
  | VS_InView in_view =>
      last ← self mb_counter_last_accepted_prep;
      if option_leb (Some (counter (co_prepare (us_data commit)))) last then mret ()
      else
        acceptable ← collect_commit in_view (VCommit commit);
        accept_all false acceptable
  end.

(** ** Checkpoints *)

(** The messages for the prepare a stable checkpoint ends with. *)
Definition is_for_prepare (view count : N) (m : Msg) : bool :=
  match m with
  | MView (VPrepare p) => (pr_view (us_data p) =? view)%N && (counter p =? count)%N
  | MView (VCommit c) =>
      let p := co_prepare (us_data c) in (pr_view (us_data p) =? view)%N && (counter p =? count)%N
  | _ => false
  end.

Definition truncate_log (cert : CheckpointCertificate Sig Att) (log : list Msg) : list Msg :=
  let d := us_data (cc_my_checkpoint cert) in
  match list_find (fun m => is_for_prepare (cp_view_latest_prep d) (cp_counter_latest_prep d) m = true) log with
  | Some (_, m) => filter (fun x => (counter m < counter x)%N) log
  | None => log
  end.

(** A replica that asked for recovery gets the checkpoint when its nonce is in
    it, and waits for the next one otherwise. *)
Definition answer_recovery (cert : CheckpointCertificate Sig Att) (replica_id : N) : St MinBft () :=
  me ← conf cfg_id;
  if (replica_id =? me)%N then mret ()
  else
    recovering_replicas ← self mb_recovering_replicas;
    nonce ← lift (unwrap (recovering_replicas !! replica_id));
    if match cp_recovering_replicas (us_data (cc_my_checkpoint cert)) !! replica_id with
       | Some cert_nonce => negb (cert_nonce =? nonce)%N
       | None => true
       end
    then mb_awaiting_recovery_reply <~> (fun X => {[replica_id]} ∪ X)
    else
      storage ← self mb_checkpoint_replica_storage;
      send (RecoveryReply_into (mkRecoveryReply cert nonce storage)) replica_id.

Definition process_checkpoint (checkpoint : Checkpoint Sig Att) : St MinBft () :=
  amount_collected ← zoom mb_collector_checkpoints (fun s c => s.[mb_collector_checkpoints := c])
                       (collect_checkpoint checkpoint);
  config ← self mb_config;
  if (amount_collected <=? cfg_t config)%N then mret ()
  else
    cert ← zoom mb_collector_checkpoints (fun s c => s.[mb_collector_checkpoints := c])
             (retrieve_collected_checkpoints checkpoint config);
    match cert with
    | None => mret ()
    | Some cert =>
        mb_sent_usig_msgs <~> truncate_log cert ;;
        awaiting_recovery ← self mb_awaiting_recovery_reply;
        mb_awaiting_recovery_reply <~ ∅ ;;
        st_for (hash_elements awaiting_recovery) (answer_recovery cert) ;;
        mb_last_checkpoint_cert <~ Some cert
    end.

(** ** View changes *)

Definition process_req_view_change (from : N) (req : ReqViewChange) : St MinBft () :=
  view_state ← self mb_view_state;
  if match view_state with
     | VS_InView in_view => (rvc_next_view req <=? iv_view in_view)%N
     | VS_ChangeInProgress in_progress =>
         (rvc_prev_view req <? cip_prev_view in_progress)%N
         || ((rvc_prev_view req =? cip_prev_view in_progress)%N && (rvc_next_view req <? cip_next_view in_progress)%N)
     end then mret ()
  else
    amount_collected ← zoom mb_collector_rvc (fun s c => s.[mb_collector_rvc := c])
                         (CollectorReqViewChanges_collect req from);
    t ← conf cfg_t;
    if (amount_collected <=? t)%N then mret ()
    else if match view_state with
            | VS_InView _ => false
            | VS_ChangeInProgress in_progress => cip_has_broadcast_view_change in_progress
            end then mret ()
    else
      mb_view_state <~ VS_ChangeInProgress (mkChangeInProgress (rvc_prev_view req) (rvc_next_view req) true) ;;
      timeout_request new_stop_any_client_req ;;
      origin ← conf Config_me;
      checkpoint ← self mb_last_checkpoint_cert;
      log ← self mb_sent_usig_msgs;
      r ← sign (ViewChangeContent_new origin (rvc_next_view req) checkpoint log);
      match r with
      | Ok view_change => broadcast (PUsig (MViewChange view_change))
      | Err usig_error => output_error (Error_Usig origin "ViewChange" usig_error)
      end.

Definition collect_vc (msg : ViewChange P Sig Att) : St MinBft N :=
  zoom mb_collector_vc (fun s c => s.[mb_collector_vc := c]) (collect_view_change msg).
Definition retrieve_vc (msg : ViewChange P Sig Att) : St MinBft (option (list (ViewChange P Sig Att))) :=
  config ← self mb_config;
  zoom mb_collector_vc (fun s c => s.[mb_collector_vc := c]) (retrieve_collected_view_changes msg config).
Definition start_view_change_timeout : St MinBft () :=
  duration ← self mb_current_timeout_duration;
  timeout_request (new_start_view_change duration).

Definition process_view_change (msg : ViewChange P Sig Att) : St MinBft () :=
  let next := vc_next_view (us_data msg) in
  view_state ← self mb_view_state;
  t ← conf cfg_t;
  match view_state with
  | VS_InView in_view =>
      if (next <=? iv_view in_view)%N then mret ()
      else
        amount_collected ← collect_vc msg;
        if (amount_collected <=? t)%N then mret ()
        else
          mb_view_state <~ VS_ChangeInProgress (mkChangeInProgress (iv_view in_view) next false) ;;
          _ ← retrieve_vc msg;
          start_view_change_timeout
  | VS_ChangeInProgress in_progress =>
      amount_collected ← collect_vc msg;
      if (next <? cip_next_view in_progress)%N then mret ()
      else if (amount_collected <=? t)%N then mret ()
      else
        view_changes ← retrieve_vc msg;
        config ← self mb_config;
        me_primary ← lift (Config_me_primary config (cip_next_view in_progress));
        if negb me_primary then start_view_change_timeout
        else
          view_changes ← lift (unwrap view_changes);
          origin ← conf Config_me;
          r ← sign (mkNewViewContent origin (cip_next_view in_progress) (mkNewViewCertificate view_changes));
          match r with
          | Ok new_view => broadcast (PUsig (MNewView (mkNewView new_view)))
          | Err usig_error => output_error (Error_Usig origin "NewView" usig_error)
          end
  end.

(** ** New views *)

(** The prepares above the last accepted one in a log, and the latest checkpoint. *)
Definition scan_log_message (counter_last_accepted_prep : option N)
    (acc : list Prep * option (Checkpoint Sig Att)) (m : UsigMessageV P Sig Att ViewChangeVariantNoLog)
    : list Prep * option (Checkpoint Sig Att) :=
  let '(preps, last_cp) := acc in
  match m with
  | MView view =>
      let prepare := match view with VPrepare prepare => prepare | VCommit commit => co_prepare (us_data commit) end in
      if option_ltb counter_last_accepted_prep (Some (counter prepare))
      then (MinHeap_push (K := N) preps prepare, last_cp) else acc
  | MViewChange _ | MNewView _ => acc
  | MCheckpoint checkpoint =>
      match last_cp with
      | Some latest =>
          if (cp_counter_latest_prep (us_data latest) <? cp_counter_latest_prep (us_data checkpoint))%N
          then (preps, Some checkpoint) else acc
      | None => (preps, Some checkpoint)
      end
  end.

(** Of the prepares popped off the heap, those whose counter is not the one just taken. *)
Fixpoint unique_prepares (last : option N) (popped : list Prep) : list Prep :=
  match popped with
  | [] => []
  | min_prep :: popped =>
      if match last with None => true | Some c => negb (c =? counter min_prep)%N end
      then min_prep :: unique_prepares (Some (counter min_prep)) popped
      else unique_prepares last popped
  end.

Definition compute_new_view_state (counter_last_accepted_prep : option N)
    (cert : NewViewCertificate (ViewChange P Sig Att)) : option (Checkpoint Sig Att) * list Prep :=
  let messages := concat ((fun vc => message_log (vc_variant (us_data vc))) <$> nvc_view_changes cert) in
  let '(preps, last_cp) := foldl (scan_log_message counter_last_accepted_prep) ([], None) messages in
  (last_cp, unique_prepares None (MinHeap_drain (K := N) preps)).

(** [sorted_by_key((view, counter)).last()]: the last of the greatest. *)
Definition cert_key (c : CheckpointCertificate Sig Att) : N * N :=
  let d := us_data (cc_my_checkpoint c) in (cp_view_latest_prep d, cp_counter_latest_prep d).
Definition latest_cert (certs : list (CheckpointCertificate Sig Att)) : option (CheckpointCertificate Sig Att) :=
  foldl (fun best c =>
    match best with
    | None => Some c
    | Some b => if ord_ltb (cert_key c) (cert_key b) then Some b else Some c
    end) None certs.

(** What the checkpoints say about a new view: go on, reject it, or the state
    transfer that is then required. *)
Inductive NewViewDecision := NV_Accept | NV_Reject | NV_StateTransfer.

Definition new_view_decision (latest own : option (CheckpointCertificate Sig Att)) : NewViewDecision :=
  match latest, own with
  | None, None => NV_Accept
  | None, Some _ => NV_Reject
  | Some c1, Some c2 =>
      let c1 := cc_my_checkpoint c1 in let c2 := cc_my_checkpoint c2 in
      if same_checkpoint c1 c2 then NV_Accept
      else
        let d1 := us_data c1 in let d2 := us_data c2 in
        if (cp_view_latest_prep d1 <=? cp_view_latest_prep d2)%N
           || ((cp_view_latest_prep d1 =? cp_view_latest_prep d2)%N
               && (cp_counter_latest_prep d1 <=? cp_counter_latest_prep d2)%N)
        then NV_Reject else NV_StateTransfer
  | Some _, None => NV_StateTransfer
  end.

(** [Forward] a message with a recovery request to the replica that asked. *)
Definition forward_recovery (request : ClientRequest P Att) (m : Msg) (pending_of view : N) : St MinBft () :=
  match cr_payload request with
  | WP_Client _ _ => mret ()
  | WP_Internal recovery_request =>
      me ← conf cfg_id;
      if (rr_replica_id recovery_request =? me)%N then mret ()
      else
        pending ← inspect (fun s => e ← index_u64 (mb_replicas_state s) pending_of; Val (get_pending_new_views e view));
        send (Forward (rr_nonce recovery_request) m pending) (rr_replica_id recovery_request)
  end.

Definition accept_unique_prep (unique_prep : Prep) : St MinBft () :=
  let d := us_data unique_prep in
  config ← self mb_config;
  duration ← self mb_current_timeout_duration;
  r ← exec_call (accept_prepare clock config unique_prep duration false);
  let '(_, recovery_requests, new_batch, new_timeout) := r in
  process_batching_output new_batch new_timeout ;;
  me ← conf Config_me;
  (if negb (is_nil recovery_requests) && negb (pr_origin d =? me)%N then
     r ← sign (mkCommit me unique_prep);
     match r with
     | Ok commit => broadcast (PUsig (MView (VCommit commit)))
     | Err usig_error => output_error (Error_Usig me "Prepare" usig_error)
     end ;;
     st_for (rb_batch (pr_request_batch d)) (fun request =>
       forward_recovery request (MView (VPrepare unique_prep)) me (pr_view d))
   else mret ()) ;;
  st_for recovery_requests (fun '(client_id, request) => handle_recovery_request client_id request) ;;
  enforcer_call (pr_origin d) (update_in_new_view (counter unique_prep)).

Definition finish_new_view (next_view count : N) : St MinBft () :=
  mb_collector_rvc <~> CollectorReqViewChanges_clean_up next_view next_view ;;
  mb_view_state <~ VS_InView (mkInView next_view false CollectorCommits_new) ;;
  mb_counter_last_accepted_prep <~ Some count ;;
  config ← self mb_config;
  me_primary ← lift (Config_me_primary config next_view);
  done ←
    (if negb me_primary then mret true
     else
       all ← self (fun s => currently_processing_all (mb_request_processor s));
       let requests_to_batch := all.*2 in
       let origin := Config_me config in
       if is_nil requests_to_batch then mret true
       else
         r ← sign (mkPrepare origin next_view (RequestBatch_new requests_to_batch));
         match r with
         | Ok prepare => broadcast (PUsig (MView (VPrepare prepare))) ;; mret true
         | Err usig_error => output_error (Error_Usig origin "Prepare" usig_error) ;; mret false
         end);
  if negb done then mret ()
  else mb_replicas_state <~> fmap (update_after_finished_new_view next_view).

(** The result of validating the certificate is not used. *)
Definition process_new_view (new_view : NewView P Sig Att) : St MinBft () :=
  let d := nv_data new_view in
  _ ← inspect (fun s : MinBft => NewViewCertificate_validate (mb_config s) (mb_usig s) (nv_certificate d)
                                   (nv_origin d) (nv_next_view d));
  view_state ← self mb_view_state;
  match view_state with
  | VS_InView _ => mret ()
  | VS_ChangeInProgress in_progress =>
      if (cip_next_view in_progress <? nv_next_view d)%N then mret ()
      else
        counter_last_accepted_prep ← self mb_counter_last_accepted_prep;
        let '(last_cp, unique_preps) := compute_new_view_state counter_last_accepted_prep (nv_certificate d) in
        own ← self mb_last_checkpoint_cert;
        match new_view_decision
                (latest_cert (omap (fun vc => vc_checkpoint_cert (us_data vc)) (nvc_view_changes (nv_certificate d)))) own with
        | NV_Reject => mret ()
        | NV_StateTransfer =>
            lift (rust_assert (bool_decide (is_Some last_cp))) ;;
            me ← conf cfg_id;
            output_error (StateTransferRequired me)
        | NV_Accept =>
            timeout_request new_stop_view_change ;;
            st_for unique_preps accept_unique_prep ;;
            finish_new_view (nv_next_view d) (counter new_view)
        end
  end.

(** ** USIG messages *)

Definition process_usig_message_ordered (usig_message : Msg) : St MinBft () :=
  match usig_message with
  | MView view =>
      view_state ← self mb_view_state;
      match view_state with
      | VS_InView in_view =>
          if (ViewPeerMessage_view view =? iv_view in_view)%N then
            match view with
            | VPrepare prepare => process_prepare prepare
            | VCommit commit => process_commit commit
            end
          else mret ()
      | VS_ChangeInProgress _ => mret ()
      end ;;
      let prepare := match view with VPrepare prepare => prepare | VCommit commit => co_prepare (us_data commit) end in
      st_for (rb_batch (pr_request_batch (us_data prepare))) (fun request =>
        forward_recovery request usig_message (UsigMessage_origin usig_message) (pr_view (us_data prepare)))
  | MViewChange view_change => process_view_change view_change
  | MNewView new_view => process_new_view new_view
  | MCheckpoint checkpoint => process_checkpoint checkpoint
  end.

(** Pass a message to the enforcer of its origin, and process what it yields. *)
Definition enforce (usig_message : Msg) : St MinBft () :=
  messages ← enforcer_call (UsigMessage_origin usig_message) (push_to_handle usig_message);
  st_for messages process_usig_message_ordered.

(** A message of the log of a [ViewChange].  A [ViewChange] in it is not passed on. *)
Definition enforce_log_message (m : UsigMessageV P Sig Att ViewChangeVariantNoLog) : St MinBft () :=
  match m with
  | MView view_peer_message => enforce (MView view_peer_message)
  | MViewChange view_change => enforcer_call (vc_origin (us_data view_change)) (mret ())
  | MNewView new_view => enforce (MNewView new_view)
  | MCheckpoint checkpoint => enforce (MCheckpoint checkpoint)
  end.

(** The inner messages of a message, then the message itself.  [rec] is the call
    for the [ViewChange]s of a [NewView]. *)
Definition process_usig_message_body (rec : Msg -> St MinBft ()) (usig_message : Msg) : St MinBft () :=
  match usig_message with
  | MView (VCommit commit) => enforce (MView (VPrepare (co_prepare (us_data commit))))
  | MView (VPrepare _) => mret ()
  | MViewChange view_change => st_for (message_log (vc_variant (us_data view_change))) enforce_log_message
  | MNewView new_view => st_for (nvc_view_changes (nv_certificate (nv_data new_view))) (fun vc => rec (MViewChange vc))
  | MCheckpoint _ => mret ()
  end ;;
  enforce usig_message.

(** The recursion is one level deep: a [ViewChange] makes no call. *)
Definition process_usig_message (usig_message : Msg) : St MinBft () :=
  process_usig_message_body (process_usig_message_body (fun _ => lift NoFuel)) usig_message.

Definition recheck_usig_msg_queue (replica_id count : N) : St MinBft () :=
  to_handle ← enforcer_call replica_id (update_after_recovered_counter count);
  st_for to_handle process_usig_message_ordered.

(** ** Hello and recovery *)

Definition process_hello_message (from : N) (attestation : Att) : St MinBft () :=
  ok ← add_remote_party from attestation;
  if ok : bool then
    mb_request_processor <~> (fun r => r.[rp_recv_attestations ::= fun m => <[from := attestation]> m]) ;;
    recv_attestations ← self (fun s => rp_recv_attestations (mb_request_processor s));
    n ← conf cfg_n;
    if (map_len recv_attestations =? n)%N then mb_output <~> Output_set_ready else mret ()
  else
    me ← conf cfg_id;
    output_error (Error_Attestation me from).

Definition process_recovery_request (from : N) (attestation : Att) (nonce : N) : St MinBft () :=
  me ← conf cfg_id;
  if (from =? me)%N then mret ()
  else
    let client_id := as_u64 from in
    next_req_id ← inspect (fun s => next_client_req_id (mb_request_processor s) client_id);
    handle_internal_client_message client_id (WP_Internal (mkRecoveryRequest next_req_id from attestation nonce)).

Definition process_recovered_views (new_views : list Msg) : St MinBft () :=
  st_for new_views (fun usig =>
    match usig with
    | MViewChange vc => process_view_change vc
    | MNewView nv =>
        view_state ← self mb_view_state;
        match view_state with
        | VS_InView in_view =>
            mb_view_state <~ VS_ChangeInProgress (mkChangeInProgress (iv_view in_view) (nv_next_view (nv_data nv)) false)
        | VS_ChangeInProgress _ => mret ()
        end ;;
        process_new_view nv
    | _ => lift Panic
    end).

Definition process_forward_message (from nonce : N) (msg : Msg) (pending_new_views : list Msg) : St MinBft () :=
  config ← self mb_config;
  recovering_nonce ← self mb_recovering_nonce;
  if (from =? cfg_id config)%N then mret ()
  else if match recovering_nonce with None => true | Some expected => negb (nonce =? expected)%N end then mret ()
  else match msg with
  | MView view_msg =>
      if (ViewPeerMessage_origin view_msg =? cfg_id config)%N then mret ()
      else
        recovered_counters ← zoom mb_collector_recovery_forwards (fun s c => s.[mb_collector_recovery_forwards := c])
                               (CollectorForwards_collect from view_msg pending_new_views config);
        st_for recovered_counters (fun '(replica_id, (count, new_views)) =>
          process_recovered_views new_views ;;
          recheck_usig_msg_queue replica_id count)
  | _ => mret ()
  end.

Definition validate_checkpoint_certificate (me t : N) (certificate : CheckpointCertificate Sig Att) (nonce : N) : bool :=
  let others := cc_other_checkpoints certificate in
  let my := us_data (cc_my_checkpoint certificate) in
  if (set_len (list_to_set ((fun c => cp_origin (us_data c)) <$> others) : gset N) <? t)%N then false
  else forallb (fun c =>
    let c := us_data c in
    (cp_view_latest_prep c =? cp_view_latest_prep my)%N
    && bool_decide (cp_state_hash c = cp_state_hash my)
    && (cp_counter_latest_prep c =? cp_counter_latest_prep my)%N
    && (cp_total_amount_accepted_batches c =? cp_total_amount_accepted_batches my)%N
    && bool_decide (cp_last_executed_client_req c = cp_last_executed_client_req my)
    && bool_decide (cp_usig_attestations c = cp_usig_attestations my)
    && match cp_recovering_replicas c !! me with Some cp_nonce => (nonce =? cp_nonce)%N | None => true end) others.

(** The state a recovery reply is adopted into, before the stored messages are
    processed. *)
Definition adopt_recovery_reply (certificate : CheckpointCertificate Sig Att) (storage : ReplicaStorage) : St MinBft () :=
  let cert := us_data (cc_my_checkpoint certificate) in
  st_for (hash_iter (cp_usig_attestations cert)) (fun '(replica_id, attestation) =>
    ok ← add_remote_party replica_id attestation;
    if ok : bool then mret () else lift Panic) ;;
  mb_counter_last_accepted_prep <~ Some (cp_counter_latest_prep cert) ;;
  mb_view_state <~ VS_InView (mkInView (cp_view_latest_prep cert) false CollectorCommits_new) ;;
  config ← self mb_config;
  request_batcher ← lift (bt_init (cfg_batcher_configuration config));
  mb_request_processor <~ RequestProcessor_new_recovered request_batcher (cp_last_executed_client_req cert)
    (cp_total_amount_accepted_batches cert) (cp_usig_attestations cert) ;;
  mb_replica_storage <~ storage ;;
  mb_checkpoint_replica_storage <~ storage ;;
  mb_recovering_replicas <~ cp_recovering_replicas cert ;;
  mb_last_checkpoint_cert <~ Some certificate ;;
  mb_recovering <~ false.

Section peer_messages.
  (** [process_peer_message] *)
  Variable process : N -> Peer -> St MinBft ().

Definition retry_message (replica_id : N) (peer_message : PeerMessage P Sig Att) : St MinBft () :=
  r ← inspect (fun s : MinBft => PeerMessage_validate (mb_config s) (mb_usig s) replica_id peer_message);
  match r with
  | Ok message => process replica_id message
  | Err inner_error => output_error (Error_from inner_error)
  end.

Definition handle_recovery_reply (nonce : N) (certificate : CheckpointCertificate Sig Att) (storage : ReplicaStorage)
    : St MinBft () :=
  recovering ← self mb_recovering;
  if negb recovering then mret ()
  else
    recovering_nonce ← self mb_recovering_nonce;
    expected ← lift (unwrap recovering_nonce);
    if negb (expected =? nonce)%N then mret ()
    else
      adopt_recovery_reply certificate storage ;;
      messages ← self mb_recovery_unverified_usig_messages;
      st_for messages (fun '(replica_id, peer_message) => retry_message replica_id peer_message).

Definition process_recovery_reply (from nonce : N) (storage : ReplicaStorage) (certificate : CheckpointCertificate Sig Att)
    : St MinBft () :=
  config ← self mb_config;
  if validate_checkpoint_certificate (cfg_id config) (cfg_t config) certificate nonce then
    if bool_decide (cp_state_hash (us_data (cc_my_checkpoint certificate)) = ReplicaStorage_hash storage)
    then handle_recovery_reply nonce certificate storage
    else mret ()
  else mret ().
End peer_messages.

(** [process_peer_message], nested at most [fuel] deep. *)
Fixpoint process_peer_message (fuel : nat) (from : N) (message : Peer) : St MinBft () :=
  match message with
  | PReqViewChange req_view_change => process_req_view_change from req_view_change
  | PUsig usig_message => process_usig_message usig_message
  | Hello attestation => process_hello_message from attestation
  | RecoveryRequest attestation nonce => process_recovery_request from attestation nonce
  | PRecoveryReply nonce storage certificate =>
      match fuel with
      | O => lift NoFuel
      | S fuel => process_recovery_reply (process_peer_message fuel) from nonce storage certificate
      end
  | Forward nonce forward_message pending_new_views =>
      process_forward_message from nonce forward_message pending_new_views
  end.

(** ** Reflection *)

(** The replica processes its own broadcasts from [last_len] on. *)
Fixpoint reflect_loop (nesting fuel : nat) (last_len : nat) : St MinBft () :=
  match fuel with
  | O => lift NoFuel
  | S fuel =>
      broadcasts ← self (fun s => no_broadcasts (mb_output s));
      let cur_len := length broadcasts in
      if Nat.eqb last_len cur_len then mret ()
      else
        me ← conf Config_me;
        st_for (drop last_len broadcasts) (process_peer_message nesting me) ;;
        reflect_loop nesting fuel cur_len
  end.

Definition view_info (s : MinBft) : ViewInfo :=
  match mb_view_state s with
  | VS_InView v => VI_InView (iv_view v)
  | VS_ChangeInProgress v => VI_ViewChange (cip_prev_view v) (cip_next_view v)
  end.

Definition finish_output (s : MinBft) : Output P Sig Att :=
  let o := mb_output s in {|
    ou_broadcasts := mkPeerMessage <$> no_broadcasts o;
    ou_direct_messages := (fun '(r, m) => (r, mkPeerMessage m)) <$> no_direct_messages o;
    ou_responses := no_responses o;
    ou_timeout_requests := no_timeout_requests o;
    ou_errors := no_errors o;
    ou_ready_for_client_requests := no_ready_for_client_requests o;
    ou_primary := MinBft_primary s;
    ou_view_info := view_info s;
    ou_round := rp_round (mb_request_processor s);
    ou_round_times := no_round_times o;
  |}.

Definition reflect (fuel : nat) : St MinBft (Output P Sig Att) :=
  reflect_loop 2 fuel 0 ;;
  self finish_output.

(** A handler: a fresh output, the handler's body, reflection. *)
Definition new_output : St MinBft () :=
  modify (fun s : MinBft => s.[mb_output := NotReflectedOutput_new (ready_for_client_requests s)]).
Definition handler (fuel : nat) (body : St MinBft ()) : St MinBft (Output P Sig Att) :=
  new_output ;; body ;; reflect fuel.

(** ** The public handlers *)

Definition handle_wrapped_client_message (fuel : nat) (client_id : N) (request : WrappedRequestPayload P Att)
    : St MinBft (Output P Sig Att) :=
  handler fuel (handle_internal_client_message client_id request).

Definition handle_client_message (fuel : nat) (client_id request_id : N) (request : P) : St MinBft (Output P Sig Att) :=
  handle_wrapped_client_message fuel client_id (WP_Client request_id request).

(** A message that is not valid is an error, or is kept while recovering. *)
Definition on_peer_message (from : N) (message : PeerMessage P Sig Att) : St MinBft () :=
  r ← inspect (fun s : MinBft => PeerMessage_validate (mb_config s) (mb_usig s) from message);
  match r with
  | Ok message => process_peer_message 2 from message
  | Err inner_error =>
      recovering ← self mb_recovering;
      if recovering : bool then mb_recovery_unverified_usig_messages <~> (fun l => l ++ [(from, message)])
      else output_error (Error_from inner_error)
  end.

Definition handle_peer_message (fuel : nat) (from : N) (message : PeerMessage P Sig Att) : St MinBft (Output P Sig Att) :=
  config ← self mb_config;
  lift (rust_assert (negb (from =? Config_me config)%N)) ;;
  lift (rust_assert (from <? cfg_n config)%N) ;;
  handler fuel (on_peer_message from message).

(** [self.current_timeout_duration *= self.config.backoff_multiplier] *)
Definition back_off : St MinBft () :=
  update (fun s : MinBft =>
    d ← Duration_mul (mb_current_timeout_duration s) (cfg_backoff_multiplier (mb_config s));
    Val s.[mb_current_timeout_duration := d]).

Definition on_timeout (timeout_type : TimeoutType) : St MinBft () :=
  view_state ← self mb_view_state;
  match timeout_type, view_state with
  | TT_Batch, VS_InView _ =>
      r ← processor_state_call (batcher_call bt_timeout);
      process_batching_output r.1 r.2
  | TT_Batch, VS_ChangeInProgress _ => mret ()
  | TT_Client, VS_InView in_view =>
      if negb (iv_has_requested_view_change in_view) then
        mb_view_state <~ VS_InView (mkInView (iv_view in_view) true (iv_collector_commits in_view)) ;;
        back_off ;;
        next_view ← lift (View_add (iv_view in_view) 1);
        broadcast (PReqViewChange (mkReqViewChange (iv_view in_view) next_view))
      else mret ()
  | TT_Client, VS_ChangeInProgress _ => mret ()
  | TT_ViewChange, VS_InView _ => mret ()
  | TT_ViewChange, VS_ChangeInProgress in_progress =>
      back_off ;;
      mb_view_state <~ VS_ChangeInProgress
        (mkChangeInProgress (cip_prev_view in_progress) (cip_next_view in_progress) false) ;;
      next_view ← lift (View_add (cip_next_view in_progress) 1);
      broadcast (PReqViewChange (mkReqViewChange (cip_prev_view in_progress) next_view))
  end.

Definition handle_timeout (fuel : nat) (timeout_type : TimeoutType) : St MinBft (Output P Sig Att) :=
  handler fuel (on_timeout timeout_type).

Definition usig_attest : St MinBft (Result Att UsigError) := zoom mb_usig (fun s u => s.[mb_usig := u]) us_attest.

(** The result is an error of the USIG, or nothing. *)
Definition attest : St MinBft (Result () UsigError) :=
  attestation ← usig_attest;
  match attestation with
  | Err e => mret (Err e)
  | Ok attestation => new_output ;; broadcast (Hello attestation) ;; mret (Ok ())
  end.

(** [nonce]: the random number drawn. *)
Definition create_recovery_request (nonce : N) : St MinBft (Result () UsigError) :=
  attestation ← usig_attest;
  match attestation with
  | Err e => mret (Err e)
  | Ok attestation =>
      mb_recovering_nonce <~ Some nonce ;;
      ready ← self ready_for_client_requests;
      lift (rust_assert (negb ready)) ;;
      new_output ;;
      broadcast (RecoveryRequest attestation nonce) ;;
      mret (Ok ())
  end.

Definition MinBft_initial (usig : U) (config : Config) (recovering : bool) : Outcome MinBft :=
  Config_validate config ;;
  request_batcher ← bt_init (cfg_batcher_configuration config);
  forwards ← CollectorForwards_new config;
  Val {|
    mb_replicas_state := (fun _ => UsigMsgOrderEnforcer_default) <$> Config_all_replicas config;
    mb_last_checkpoint_cert := None;
    mb_sent_usig_msgs := [];
    mb_usig := usig;
    mb_request_processor := RequestProcessor_new request_batcher;
    mb_view_state := ViewState_new;
    mb_counter_last_accepted_prep := None;
    mb_collector_rvc := CollectorReqViewChanges_new;
    mb_collector_vc := CollectorViewChanges_new;
    mb_collector_recovery_forwards := forwards;
    mb_collector_checkpoints := CollectorMessages_new;
    mb_current_timeout_duration := cfg_initial_timeout_duration config;
    mb_config := config;
    mb_replica_storage := ReplicaStorage_new;
    mb_checkpoint_replica_storage := ReplicaStorage_new;
    mb_recovering := recovering;
    mb_recovering_nonce := None;
    mb_recovery_unverified_usig_messages := [];
    mb_awaiting_recovery_reply := ∅;
    mb_recovering_replicas := ∅;
    mb_output := NotReflectedOutput_new false;
  |}.

Definition MinBft_new (fuel : nat) (usig : U) (config : Config) (recovering : bool) (nonce : N)
    : Outcome (Result (MinBft * Output P Sig Att) UsigError) :=
  minbft ← MinBft_initial usig config recovering;
  r ← (if recovering then create_recovery_request nonce else attest) minbft;
  match r.1 with
  | Err e => Val (Err e)
  | Ok _ => o ← reflect fuel r.2; Val (Ok (o.2, o.1))
  end.
End replica.
Arguments MinBft P U Sig Att Bt : clear implicits.
