(* ===== verification/MbOrderFacts.v ===== *)
(** * MinBFT: what the order enforcer does

    [ordered msgs out] is the specification: of the messages [msgs] received so far,
    [out] holds one with counter 0, one with counter 1, and so on up to the first
    counter that is missing.  Which of several messages with one counter it is
    depends on the order in which the heap pops equal counters, and is left open.
    [push_all_ordered] shows that an enforcer that receives [msgs] one by one yields
    such a list, whatever the order of arrival, and does not panic. *)

From Stdlib Require Import ZArith Lia Sorting.
From stdpp Require Import sorting base list gmap sets numbers option.
From S2P Require Import Prelude Ids Heaps MbUsig MbBase MbMessages MbOrder.

Section facts.
  Context {Pr : Profile} {P Sig Att : Type} `{Counter Sig}.
  Local Abbreviation Msg := (UsigMessage P Sig Att).
  Local Abbreviation Enforcer := (UsigMsgOrderEnforcer P Sig Att).

(** A message with counter [c] is among [msgs]. *)
Definition arrived (c : N) (msgs : list Msg) : Prop := exists m, m ∈ msgs /\ counter m = c.

Definition ordered (msgs out : list Msg) : Prop :=
  (forall k m, out !! k = Some m -> m ∈ msgs /\ counter m = N.of_nat k)
  /\ ~ arrived (N.of_nat (length out)) msgs.

(** Pushing messages one after the other, and everything that was yielded. *)
Fixpoint push_all (msgs : list Msg) : St Enforcer (list Msg) :=
  match msgs with
  | [] => mret []
  | m :: msgs => out ← push_to_handle m; rest ← push_all msgs; mret (out ++ rest)
  end.

(** The counters that [ordered] lets through are those up to the first missing one. *)
Lemma ordered_counters msgs out : ordered msgs out -> counter <$> out = N.of_nat <$> seq 0 (length out).
Proof.
  intros [Ho _]. apply list_eq. intros k. rewrite !list_lookup_fmap. destruct (out !! k) as [m|] eqn:E; cbn.
  - destruct (Ho k m E) as [_ ->]. apply lookup_lt_Some in E. by rewrite lookup_seq_lt.
  - apply lookup_ge_None in E. by rewrite lookup_seq_ge.
Qed.

(** ** The loop that yields *)

(** All counters of a heap at least [n]. *)
Definition heap_above (n : N) (heap : list Msg) : Prop := Forall (fun m => n <= counter m)%N heap.

Lemma heap_le_counter (m x : Msg) : heap_le (K := N) m x <-> (counter m <= counter x)%N.
Proof.
  unfold heap_le, ord_leb, ord_cmp, N_Ord, key, UsigMessage_Keyable.
  destruct (N.compare_spec (counter m) (counter x)); split; (done || lia).
Qed.

Lemma heap_above_peek n m (heap : list Msg) :
  MinHeap_wf (K := N) heap -> MinHeap_peek heap = Some m -> (n <= counter m)%N -> heap_above n heap.
Proof.
  intros Hwf Hp Hn. apply list.Forall_forall. intros x Hx.
  pose proof (MinHeap_wf_root _ _ Hwf Hp x Hx) as Hle%heap_le_counter. lia.
Qed.

(** The messages that leave the heap were yielded or have a counter that was seen. *)
Lemma yield_loop_spec fuel : forall next (heap : list Msg),
  length heap < fuel -> MinHeap_wf (K := N) heap -> (next + N.of_nat (length heap) < 2 ^ 64)%N ->
  exists ys heap',
    yield_loop fuel next heap = Val (ys, next + N.of_nat (length ys), heap')%N
    /\ MinHeap_wf (K := N) heap' /\ heap_above (next + N.of_nat (length ys) + 1) heap'
    /\ length ys + length heap' <= length heap
    /\ (forall k m, ys !! k = Some m -> m ∈ heap /\ counter m = (next + N.of_nat k)%N)
    /\ heap' ⊆ heap
    /\ (forall m, m ∈ heap -> m ∈ heap' \/ (counter m < next + N.of_nat (length ys))%N).
Proof.
  induction fuel as [|fuel IH]; intros next heap Hf Hwf Hn; [lia|]. cbn [yield_loop].
  destruct (MinHeap_pop_cases (K := N) heap) as [[-> Hpop]|(h & tl & rest & -> & Hpop & Hperm)].
  { exists [], []. cbn. rewrite N.add_0_r. split_and!; try done; [constructor|set_solver]. }
  set (heap := h :: tl) in *. replace (MinHeap_peek heap) with (Some h) by done. rewrite Hpop. cbn [fst snd].
  destruct (MinHeap_pop_spec _ _ _ Hwf Hpop) as (_ & Hwf' & Hmin).
  assert (S (length rest) = length heap) as Hlen by (by rewrite Hperm).
  assert (forall x, x ∈ heap <-> x = h \/ x ∈ rest) as Hin by (intros x; rewrite Hperm; apply elem_of_cons).
  unfold CountChecker_next. destruct (N.compare_spec (counter h) next) as [Heq|Hlt|Hgt].
  - unfold Count_add_assign. rewrite u64_add_Val by lia. cbn [mbind Outcome_bind fst snd].
    destruct (IH (next + 1)%N rest) as (ys & heap' & -> & Hwf2 & Hab & Hl & Hy & Hsub & Hc); [lia|done|lia|].
    exists (h :: ys), heap'. cbn [mbind Outcome_bind fst snd length].
    replace (next + N.of_nat (S (length ys)))%N with (next + 1 + N.of_nat (length ys))%N by lia.
    split_and!; [done|done|done|lia| | |].
    + intros [|k] m; cbn [lookup list_lookup].
      * intros [= ->]. split; [by apply Hin; left|lia].
      * intros [Hm Hcm]%Hy. split; [apply Hin; by right|lia].
    + intros x Hx. apply Hin. right. by apply Hsub.
    + intros m [->|Hm]%Hin; [right; lia|by apply Hc].
  - cbn [mbind Outcome_bind fst snd].
    destruct (IH next rest) as (ys & heap' & -> & Hwf2 & Hab & Hl & Hy & Hsub & Hc); [lia|done|lia|].
    exists ys, heap'. split_and!; [done|done|done|lia| | |].
    + intros k m [Hm Hcm]%Hy. split; [apply Hin; by right|done].
    + intros x Hx. apply Hin. right. by apply Hsub.
    + intros m [->|Hm]%Hin; [right; lia|by apply Hc].
  - cbn [mbind Outcome_bind fst snd]. exists [], heap. cbn [length]. rewrite N.add_0_r.
    split_and!; try done; [|by auto]. apply (heap_above_peek _ h); [done|done|lia].
Qed.

(** ** The invariant *)

(** The state [e] of an enforcer that received [msgs] and yielded [out]. *)
Record enforcer_inv (msgs out : list Msg) (e : Enforcer) : Prop := {
  ei_next : oe_next_count e = N.of_nat (length out);
  ei_out : forall k m, out !! k = Some m -> m ∈ msgs /\ counter m = N.of_nat k;
  ei_sub : oe_unprocessed e ⊆ msgs;
  ei_heap : forall m, m ∈ msgs -> (oe_next_count e <= counter m)%N -> m ∈ oe_unprocessed e;
  ei_wf : MinHeap_wf (K := N) (oe_unprocessed e);
  ei_above : heap_above (oe_next_count e + 1) (oe_unprocessed e);
  ei_len : length out + length (oe_unprocessed e) <= length msgs;
}.

Lemma enforcer_inv_default : enforcer_inv [] [] UsigMsgOrderEnforcer_default.
Proof. split; try done; try constructor. Qed.

Lemma heap_above_push n (heap : list Msg) m :
  heap_above n heap -> (n <= counter m)%N -> heap_above n (MinHeap_push (K := N) heap m).
Proof. intros Hh Hm. unfold heap_above. rewrite MinHeap_push_Permutation. by constructor. Qed.

Lemma length_push (heap : list Msg) m : length (MinHeap_push (K := N) heap m) = S (length heap).
Proof. by rewrite MinHeap_push_Permutation. Qed.

(** The view changes noted on the way do not matter here. *)
Lemma enforcer_inv_pending msgs out e e' :
  oe_next_count e' = oe_next_count e -> oe_unprocessed e' = oe_unprocessed e ->
  enforcer_inv msgs out e -> enforcer_inv msgs out e'.
Proof. intros Hn Hu [? ? ? ? ? ? ?]. split; rewrite ?Hn, ?Hu; done. Qed.

Definition note_pending (m : Msg) (e : Enforcer) : Enforcer :=
  match m with
  | MNewView new_view => e.[oe_pending_new_views ::= push_pending (nv_next_view (nv_data new_view)) m]
  | MViewChange view_change => e.[oe_pending_new_views ::= push_pending (vc_next_view (us_data view_change)) m]
  | _ => e
  end.

Lemma push_to_handle_eq m e :
  push_to_handle m e
  = (r ← CountChecker_next (oe_next_count e) (counter m);
     let e := (note_pending m e).[oe_next_count := r.2] in
     match r.1 with
     | Ok _ => y ← yield_to_be_processed e; Val (m :: y.1, y.2)
     | Err AlreadySeen => Val ([], e)
     | Err NotNext => Val ([], e.[oe_unprocessed ::= fun heap => MinHeap_push (K := N) heap m])
     end).
Proof.
  destruct e as [n h p]. unfold push_to_handle. destruct m; cbn [note_pending];
    unfold mbind, St_bind, modify, self, lift, mret, St_ret; cbn;
    (destruct (CountChecker_next n _) as [[[?|[]] n']| |]; cbn; [|done|done|done|done]);
    unfold mbind, St_bind, Outcome_bind; by destruct (yield_to_be_processed _) as [[]| |].
Qed.

Lemma push_inv msgs out e m :
  enforcer_inv msgs out e -> (N.of_nat (length msgs) + 1 < 2 ^ 64)%N ->
  exists ys e', push_to_handle m e = Val (ys, e') /\ enforcer_inv (msgs ++ [m]) (out ++ ys) e'.
Proof.
  intros [Hnext Hout Hsub Hheap Hwf Hab Hlen] Hmax. rewrite push_to_handle_eq. unfold CountChecker_next.
  assert (forall k x, out !! k = Some x -> x ∈ msgs ++ [m] /\ counter x = N.of_nat k) as Hout'.
  { intros k x [Hx Hc]%Hout. split; [set_solver|done]. }
  destruct (N.compare_spec (counter m) (oe_next_count e)) as [Heq|Hlt|Hgt]; cbn [mbind Outcome_bind fst snd].
  - unfold Count_add_assign. rewrite u64_add_Val by lia. cbn [mbind Outcome_bind fst snd].
    destruct (yield_loop_spec (S (length (oe_unprocessed e))) (oe_next_count e + 1) (oe_unprocessed e))
      as (ys & heap' & Hy & Hwf' & Hab' & Hlen' & Hys & Hs' & Hc); [lia|done|lia|].
    eexists (m :: ys), _. split.
    { unfold yield_to_be_processed, mbind, St_bind, self, lift, modify, mret, St_ret. cbn -[yield_loop].
      replace (oe_unprocessed (note_pending m e)) with (oe_unprocessed e) by (by destruct e, m).
      rewrite Hy. cbn. reflexivity. }
    split; cbn.
    + rewrite length_app. cbn. lia.
    + intros k x. rewrite lookup_app_Some. intros [Hk|[Hk Hx]]; [by apply Hout'|].
      destruct (k - length out) as [|j] eqn:Hj; cbn in Hx.
      * injection Hx as <-. split; [set_solver|lia].
      * apply Hys in Hx as [Hx Hcx]. apply Hsub in Hx. split; [set_solver|lia].
    + intros x Hx%Hs'%Hsub. set_solver.
    + intros x [Hx| ->%list_elem_of_singleton]%elem_of_app Hcx; [|lia].
      destruct (Hc x) as [|]; [apply Hheap; [done|lia]|done|lia].
    + done.
    + eapply Forall_impl; [|exact Hab']. cbn. intros. lia.
    + rewrite !length_app. cbn. lia.
  - eexists [], _. split; [done|]. rewrite app_nil_r. eapply (enforcer_inv_pending _ _ e); [by destruct e, m..|].
    split; try done.
    + set_solver.
    + intros x [Hx| ->%list_elem_of_singleton]%elem_of_app Hcx; [by apply Hheap|lia].
    + rewrite length_app. lia.
  - eexists [], _. split; [done|]. rewrite app_nil_r.
    eapply (enforcer_inv_pending _ _ e.[oe_unprocessed ::= fun heap => MinHeap_push (K := N) heap m]);
      [by destruct e, m..|].
    destruct e as [n h p]. cbn in *. split; cbn -[MinHeap_push]; try done.
    + intros x. rewrite MinHeap_push_Permutation. set_solver.
    + intros x Hx Hcx. rewrite MinHeap_push_Permutation. apply elem_of_app in Hx as [Hx|Hx]; set_solver.
    + by apply MinHeap_push_wf.
    + apply heap_above_push; [done|lia].
    + rewrite length_push, length_app. cbn. lia.
Qed.

Lemma push_all_inv msgs' : forall msgs out e,
  enforcer_inv msgs out e -> (N.of_nat (length msgs + length msgs') < 2 ^ 64)%N ->
  exists ys e', push_all msgs' e = Val (ys, e') /\ enforcer_inv (msgs ++ msgs') (out ++ ys) e'.
Proof.
  induction msgs' as [|m msgs' IH]; intros msgs out e He Hmax.
  - exists [], e. rewrite !app_nil_r. done.
  - cbn [push_all length] in *. destruct (push_inv _ _ _ m He) as (ys & e1 & Hp & He1); [lia|].
    destruct (IH _ _ _ He1) as (zs & e2 & Hq & He2); [rewrite length_app; cbn; lia|].
    exists (ys ++ zs), e2. unfold mbind, St_bind. rewrite Hp, Hq. split; [done|].
    by rewrite <-app_assoc, <-app_assoc in He2.
Qed.

Lemma enforcer_inv_ordered msgs out e : enforcer_inv msgs out e -> ordered msgs out.
Proof.
  intros [Hnext Hout Hsub Hheap Hwf Hab Hlen]. split; [done|]. intros (m & Hm & Hc).
  unfold heap_above in Hab. rewrite list.Forall_forall in Hab. specialize (Hab m). rewrite Hnext, <-Hc in Hab.
  assert (counter m + 1 <= counter m)%N; [|lia]. apply Hab, Hheap; [done|lia].
Qed.

Lemma push_all_ordered msgs :
  (N.of_nat (length msgs) < 2 ^ 64)%N ->
  exists out e, push_all msgs UsigMsgOrderEnforcer_default = Val (out, e)
    /\ ordered msgs out /\ oe_next_count e = N.of_nat (length out).
Proof.
  intros Hmax. destruct (push_all_inv msgs [] [] _ enforcer_inv_default) as (ys & e & -> & He); [done|].
  exists ys, e. split_and!; [done|by eapply enforcer_inv_ordered|apply He].
Qed.
End facts.
