(* ===== verification/MbCertFacts.v ===== *)
(** * MinBFT: what validation guarantees

    Characterisations of the [validate] methods of [MbMessages]: when they accept,
    and what a quorum of distinct origins gives against [t] faulty replicas. *)

From Stdlib Require Import ZArith Lia String Sorting.
From stdpp Require Import sorting base list gmap sets numbers option.
From S2P Require Import Prelude Triple Ids MbUsig MbBase MbMessages.

(** ** Loops and sets *)

Lemma try_bind_ok {A B E} (m : Outcome (Result A E)) (k : A -> Outcome (Result B E)) b :
  try_bind m k = Val (Ok b) <-> exists a, m = Val (Ok a) /\ k a = Val (Ok b).
Proof. destruct m as [[a|e]| |]; cbn; naive_solver. Qed.

Lemma try_for_ok {A E} (xs : list A) (check : A -> Outcome (Result () E)) :
  try_for xs check = Val (Ok ()) <-> Forall (fun x => check x = Val (Ok ())) xs.
Proof.
  induction xs as [|x xs IH]; cbn [try_for]; [by split; [constructor|]|].
  rewrite try_bind_ok, list.Forall_cons. setoid_rewrite IH. split; [intros ([] & ? & ?)|intros [? ?]]; eauto.
Qed.

Lemma distinct_origins_spec origins : forall seen,
  distinct_origins seen origins = true <-> NoDup origins /\ (forall o, o ∈ origins -> o ∉ seen).
Proof.
  induction origins as [|o origins IH]; intros seen; cbn [distinct_origins].
  - split; [intros _|done]. split; [constructor|]. by intros o ?%not_elem_of_nil.
  - case_bool_decide as Ho; [split; [done|]; intros [_ Hs]; by destruct (Hs o); [set_solver|]|].
    rewrite IH, list.NoDup_cons. set_solver.
Qed.

(** Of more than [t] distinct origins, one is outside any [t] replicas. *)
Lemma quorum_outside (origins : list N) (F : gset N) (t : N) :
  NoDup origins -> (t < N.of_nat (length origins))%N -> (N.of_nat (size F) <= t)%N ->
  exists o, o ∈ origins /\ o ∉ F.
Proof.
  intros Hnd Ht HF. destruct (decide (Forall (fun o => o ∈ F) origins)) as [Hall|Hnot].
  - exfalso. assert ((list_to_set origins : gset N) ⊆ F) as Hsub.
    { intros o Ho. rewrite elem_of_list_to_set in Ho. rewrite list.Forall_forall in Hall. by apply Hall. }
    apply subseteq_size in Hsub. rewrite size_list_to_set in Hsub by done. lia.
  - apply not_Forall_Exists in Hnot; [|apply _]. apply list.Exists_exists in Hnot. exact Hnot.
Qed.

(** Numbers between two bounds, as many as there are: all of them. *)
Lemma counters_complete (l : list N) (lo hi : N) :
  NoDup l -> (forall x, x ∈ l -> lo <= x <= hi)%N -> N.of_nat (length l) = (hi - lo + 1)%N ->
  forall c, (lo <= c <= hi)%N -> c ∈ l.
Proof.
  intros Hnd Hb Hlen c Hc. set (R := range lo (hi + 1)).
  assert (forall x, x ∈ R <-> (lo <= x <= hi)%N) as HR.
  { intros x. unfold R, range. rewrite list_elem_of_fmap. setoid_rewrite elem_of_seq. split.
    - intros (k & -> & Hk). lia.
    - intros Hx. exists (N.to_nat (x - lo)). lia. }
  assert (l ⊆+ R) as Hsub.
  { apply NoDup_submseteq; [done|]. intros x Hx. apply HR. by apply Hb. }
  assert (length R = length l) as HlenR by (unfold R; rewrite length_range; lia).
  apply submseteq_length_Permutation in Hsub; [|lia]. rewrite Hsub. by apply HR.
Qed.

(** A sorted list lies between its first and its last element. *)
Lemma sorted_bounds (l : list N) first last :
  StronglySorted u64_le l -> head l = Some first -> list.last l = Some last ->
  forall x, x ∈ l -> (first <= x <= last)%N.
Proof.
  intros Hs Hf Hl x Hx. destruct l as [|y l]; [done|]. cbn in Hf. injection Hf as ->.
  apply list_elem_of_lookup in Hx as [k Hk]. apply last_Some in Hl as [l' Hl'].
  split.
  - apply StronglySorted_inv in Hs as [_ Hall]. destruct k as [|k]; cbn in Hk; [injection Hk as ->; lia|].
    rewrite list.Forall_forall in Hall. apply Hall. by eapply list_elem_of_lookup_2.
  - rewrite Hl' in Hs, Hk. apply lookup_app_Some in Hk as [Hk|[_ Hk]].
    + clear Hl'. induction l' as [|z l' IH] in k, Hk, Hs |- *; [done|]. cbn in Hs.
      apply StronglySorted_inv in Hs as [Hs Hall]. destruct k as [|k]; cbn in Hk.
      * injection Hk as ->. rewrite list.Forall_forall in Hall. apply Hall. set_solver.
      * by eapply IH.
    + destruct (k - _); cbn in Hk; [|done]. injection Hk as ->. lia.
Qed.

Lemma sort_u64_sorted l : StronglySorted u64_le (sort_u64 l).
Proof. apply StronglySorted_merge_sort; intros x y; unfold u64_le; lia. Qed.
Lemma sort_u64_permutation l : sort_u64 l ≡ₚ l.
Proof. apply merge_sort_Permutation. Qed.

Section validate.
  Context {Pr : Profile} {P U Sig Att : Type}.
  Context `{Hashbar P, Hashbar Sig, Hashbar Att} `{Digests} `{Usig U Sig Att} `{EqDecision Att}.
  Implicit Types (config : Config) (usig : U).

Lemma verify_as_ok {T} `{UsigSignable T} ty config usig (m : UsigSigned T Sig) :
  verify_as ty config usig m = Val (Ok ()) <-> UsigSigned_verify m usig = Ok ().
Proof. unfold verify_as. by destruct (UsigSigned_verify m usig) as [[]|]. Qed.

(** The origins of a certificate. *)
Definition cert_origins (c : CheckpointCertificate Sig Att) : list N :=
  (fun m => cp_origin (us_data m)) <$> (cc_my_checkpoint c :: cc_other_checkpoints c).

Lemma CheckpointCertificate_validate_ok config usig (c : CheckpointCertificate Sig Att) :
  CheckpointCertificate_validate config usig c = Val (Ok ())
  <-> (cfg_t config <= N.of_nat (length (cc_other_checkpoints c)))%N
      /\ NoDup (cert_origins c)
      /\ Forall (fun m => same_checkpoint (cc_my_checkpoint c) m = true) (cc_other_checkpoints c)
      /\ Forall (fun m => UsigSigned_verify m usig = Ok ()) (cc_my_checkpoint c :: cc_other_checkpoints c).
Proof.
  unfold CheckpointCertificate_validate, cert_origins, Checkpoint_validate. rewrite list.Forall_cons, fmap_cons, list.NoDup_cons.
  destruct (N.ltb_spec (N.of_nat (length (cc_other_checkpoints c))) (cfg_t config)) as [Hlt|Hge].
  { split; [done|]. intros [? _]. lia. }
  destruct (distinct_origins _ _) eqn:Hd; cbn [negb].
  2:{ split; [done|]. intros (_ & [Hn1 Hn2] & _). apply not_true_iff_false in Hd. destruct Hd.
      apply distinct_origins_spec. split; [done|]. intros o Ho ->%elem_of_singleton. done. }
  apply distinct_origins_spec in Hd as [Hd1 Hd2].
  destruct (forallb _ _) eqn:Hs; cbn [negb].
  2:{ split; [done|]. intros (_ & _ & Hall & _). apply not_true_iff_false in Hs. destruct Hs.
      apply forallb_forall. intros x Hx. rewrite list.Forall_forall in Hall. apply Hall. by apply list_elem_of_In. }
  rewrite try_bind_ok. setoid_rewrite try_for_ok. setoid_rewrite verify_as_ok.
  assert (Forall (fun m => same_checkpoint (cc_my_checkpoint c) m = true) (cc_other_checkpoints c)) as Hall.
  { apply list.Forall_forall. intros x Hx. rewrite forallb_forall in Hs. apply Hs. by apply list_elem_of_In. }
  split.
  - intros ([] & Hmy%verify_as_ok & Ho). split_and!; try done.
    intros Hin. destruct (Hd2 _ Hin). by apply elem_of_singleton.
  - intros (_ & _ & _ & Hmy & Ho). exists (). split; [by apply verify_as_ok|done].
Qed.

(** The origins of the view changes of a certificate. *)
Definition vc_origins (c : NewViewCertificate (ViewChange P Sig Att)) : list N :=
  (fun m => vc_origin (us_data m)) <$> nvc_view_changes c.

Lemma NewViewCertificate_validate_ok config usig (c : NewViewCertificate (ViewChange P Sig Att)) origin next_view :
  NewViewCertificate_validate config usig c origin next_view = Val (Ok ())
  <-> origin = (next_view mod cfg_n config)%N
      /\ (cfg_t config < N.of_nat (length (nvc_view_changes c)))%N
      /\ Forall (fun m => vc_next_view (us_data m) = next_view) (nvc_view_changes c)
      /\ NoDup (vc_origins c)
      /\ Forall (fun m => ViewChange_validate config usig m = Val (Ok ())) (nvc_view_changes c).
Proof.
  unfold NewViewCertificate_validate. fold (vc_origins c).
  destruct (N.eqb_spec origin (next_view mod cfg_n config)) as [Ho|Ho]; cbn [negb]; [|by split; [done|intros [? _]]].
  destruct (N.leb_spec (N.of_nat (length (nvc_view_changes c))) (cfg_t config)) as [Hl|Hl].
  { split; [done|]. intros (_ & ? & _). lia. }
  destruct (forallb _ _) eqn:Hs; cbn [negb].
  2:{ split; [done|]. intros (_ & _ & Hall & _). apply not_true_iff_false in Hs. destruct Hs.
      apply forallb_forall. intros x Hx. apply N.eqb_eq. rewrite list.Forall_forall in Hall. symmetry. apply Hall.
      by apply list_elem_of_In. }
  destruct (distinct_origins _ _) eqn:Hd; cbn [negb].
  2:{ split; [done|]. intros (_ & _ & _ & Hnd & _). apply not_true_iff_false in Hd. destruct Hd.
      apply distinct_origins_spec. split; [done|]. set_solver. }
  apply distinct_origins_spec in Hd as [Hd _]. rewrite try_for_ok.
  assert (Forall (fun m => vc_next_view (us_data m) = next_view) (nvc_view_changes c)) as Hall.
  { apply list.Forall_forall. intros x Hx. rewrite forallb_forall in Hs. symmetry. apply N.eqb_eq, Hs.
    by apply list_elem_of_In. }
  split; [done|]. by intros (_ & _ & _ & _ & ?).
Qed.

(** The counters of the log of a view change. *)
Definition vc_counters (m : ViewChange P Sig Att) : list N := counter <$> message_log (vc_variant (us_data m)).

(** What an accepted view change guarantees about its log. *)
Lemma ViewChange_validate_inv config usig (m : ViewChange P Sig Att) :
  overflow_checks = true ->
  ViewChange_validate config usig m = Val (Ok ()) ->
  UsigSigned_verify m usig = Ok ()
  /\ (forall c, vc_checkpoint_cert (us_data m) = Some c ->
        CheckpointCertificate_validate config usig c = Val (Ok ()) /\ vc_counters m <> []
        /\ exists k, k ∈ vc_counters m /\ (k <= counter (cc_my_checkpoint c))%N)
  /\ (vc_checkpoint_cert (us_data m) = None -> vc_counters m <> [] -> 0%N ∈ vc_counters m)
  /\ (vc_counters m = [] -> counter m = 0%N)
  /\ (forall last, list.last (vc_counters m) = Some last -> counter m = (last + 1)%N)
  /\ (NoDup (vc_counters m) -> forall first c, first ∈ vc_counters m -> (first <= c < counter m)%N -> c ∈ vc_counters m).
Proof.
  intros Hoc. unfold ViewChange_validate. rewrite try_bind_ok. intros ([] & Hv%verify_as_ok & Hk).
  fold (vc_counters m) in Hk. rewrite try_bind_ok in Hk. destruct Hk as ([] & Hfirst & Hk).
  rewrite try_bind_ok in Hk. destruct Hk as ([] & Hholes & Hlast).
  pose proof (sort_u64_permutation (vc_counters m)) as Hperm.
  pose proof (sort_u64_sorted (vc_counters m)) as Hsorted.
  set (s := sort_u64 (vc_counters m)) in *.
  assert (forall l, list.last (vc_counters m) = Some l -> counter m = (l + 1)%N) as Hl.
  { intros l. unfold vc_counters. rewrite fmap_last. unfold ViewChange_validate_last in Hlast.
    destruct (list.last (message_log _)) as [x|]; [|done]. cbn. intros [= <-].
    apply outcome_bind_inv in Hlast as (e & He & Hlast). destruct (N.eqb_spec (counter x) e) as [<-|]; [|done].
    unfold u64_sub in He. rewrite Hoc in He. destruct (N.leb_spec 1 (counter m)); [|done]. injection He as He. lia. }
  split_and!; [done| | | |exact Hl|].
  - intros c Hc. unfold ViewChange_validate_first in Hfirst. rewrite Hc in Hfirst.
    rewrite try_bind_ok in Hfirst. destruct Hfirst as ([] & Hcert & Hf). split; [done|].
    destruct s as [|f s'] eqn:Hs; [done|]. cbn in Hf. destruct (N.ltb_spec (counter (cc_my_checkpoint c)) f); [done|].
    split; [intros Hnil; rewrite Hnil in Hperm; by apply Permutation_nil_r in Hperm|].
    exists f. split; [rewrite <-Hperm; set_solver|done].
  - intros Hc Hne. unfold ViewChange_validate_first in Hfirst. rewrite Hc in Hfirst.
    destruct s as [|f s'] eqn:Hs; [by symmetry in Hperm; apply Permutation_nil_r in Hperm|].
    cbn in Hfirst. destruct (N.eqb_spec f 0) as [->|]; [|done]. rewrite <-Hperm. set_solver.
  - intros Hnil. unfold ViewChange_validate_last in Hlast. unfold vc_counters in Hnil.
    apply fmap_nil_inv in Hnil. rewrite Hnil in Hlast. cbn in Hlast. by destruct (N.eqb_spec (counter m) 0).
  - intros Hnd first c Hf Hc. rewrite <-Hperm in Hf |- *.
    assert (exists lo hi, head s = Some lo /\ list.last s = Some hi) as (lo & hi & Hlo & Hhi).
    { destruct s as [|lo s']; [by apply not_elem_of_nil in Hf|]. exists lo.
      destruct (list.last (lo :: s')) as [hi|] eqn:E; [by exists hi|]. by apply last_None in E. }
    pose proof (sorted_bounds s lo hi Hsorted Hlo Hhi) as Hb.
    unfold ViewChange_validate_holes in Hholes. rewrite Hlo, Hhi in Hholes.
    apply outcome_bind_inv in Hholes as (d & Hd & Hholes). apply outcome_bind_inv in Hholes as (a & Ha & Hholes).
    unfold u64_sub in Hd. unfold u64_add in Ha. rewrite Hoc in Hd, Ha.
    destruct (N.leb_spec lo hi); [|done]. injection Hd as <-. destruct (_ <? _)%N; [|done]. injection Ha as <-.
    destruct (N.eqb_spec (N.of_nat (length s)) (hi - lo + 1)) as [Hlen|]; [|done].
    apply (counters_complete s lo hi); [by rewrite Hperm|done|done|].
    assert (c <= hi)%N; [|specialize (Hb first Hf); lia].
    destruct (list.last (vc_counters m)) as [l|] eqn:El.
    + specialize (Hl l eq_refl). assert (l ∈ s) as Hin.
      { rewrite Hperm. apply last_Some in El as [l' ->]. set_solver. }
      specialize (Hb l Hin). lia.
    + apply last_None in El. rewrite El in Hperm. by rewrite Hperm in Hf; apply not_elem_of_nil in Hf.
Qed.

(** ** Validation returns *)

Lemma try_bind_fuel {A B E} (m : Outcome (Result A E)) (k : A -> Outcome (Result B E)) :
  m <> NoFuel -> (forall a, k a <> NoFuel) -> try_bind m k <> NoFuel.
Proof. intros Hm Hk. destruct m as [[a|e]| |]; cbn; [apply Hk|done..]. Qed.

Lemma try_for_fuel {A E} (xs : list A) (check : A -> Outcome (Result () E)) :
  (forall x, check x <> NoFuel) -> try_for xs check <> NoFuel.
Proof. intros Hc. induction xs as [|x xs IH]; cbn [try_for]; [done|]. by apply try_bind_fuel. Qed.

Lemma verify_as_fuel {T} `{UsigSignable T} msg_type config usig (m : UsigSigned T Sig) : verify_as msg_type config usig m <> NoFuel.
Proof. unfold verify_as. by case_match. Qed.

Lemma Config_is_primary_fuel config v o : Config_is_primary config v o <> NoFuel.
Proof. unfold Config_is_primary, rust_assert. by repeat case_match. Qed.

#[local] Ltac fuel :=
  repeat match goal with
  | |- try_bind _ _ <> NoFuel => apply try_bind_fuel
  | |- try_for _ _ <> NoFuel => apply try_for_fuel; intros ?
  | |- (_ ≫= _) <> NoFuel => apply outcome_bind_fuel
  | |- forall _, _ => intros ?
  | |- Val _ <> NoFuel => done
  | |- Panic <> NoFuel => done
  | |- verify_as _ _ _ _ <> NoFuel => apply verify_as_fuel
  | |- Config_is_primary _ _ _ <> NoFuel => apply Config_is_primary_fuel
  | |- u64_add _ _ <> NoFuel => apply u64_add_fuel
  | |- u64_sub _ _ <> NoFuel => apply u64_sub_fuel
  | |- (match ?x with _ => _ end) <> NoFuel => destruct x
  end.

Lemma CheckpointCertificate_validate_fuel config usig (c : CheckpointCertificate Sig Att) :
  CheckpointCertificate_validate config usig c <> NoFuel.
Proof. unfold CheckpointCertificate_validate, Checkpoint_validate. fuel. Qed.

Lemma ViewChange_validate_fuel config usig (m : ViewChange P Sig Att) : ViewChange_validate config usig m <> NoFuel.
Proof.
  unfold ViewChange_validate. apply try_bind_fuel; [apply verify_as_fuel|intros _].
  apply try_bind_fuel; [unfold ViewChange_validate_first|intros _].
  { destruct (vc_checkpoint_cert _); [apply try_bind_fuel; [apply CheckpointCertificate_validate_fuel|]|]; fuel. }
  apply try_bind_fuel; [unfold ViewChange_validate_holes|intros _; unfold ViewChange_validate_last]; fuel.
Qed.

Lemma NewViewCertificate_validate_fuel config usig (c : NewViewCertificate (ViewChange P Sig Att)) o v :
  NewViewCertificate_validate config usig c o v <> NoFuel.
Proof. unfold NewViewCertificate_validate. repeat case_match; try done. apply try_for_fuel. apply ViewChange_validate_fuel. Qed.

Lemma UsigMessage_validate_fuel config usig (m : UsigMessage P Sig Att) : UsigMessage_validate config usig m <> NoFuel.
Proof.
  destruct m as [[p|c]|vc|nv|c]; cbn.
  - unfold Prepare_validate. fuel.
  - unfold Commit_validate, Prepare_validate. fuel.
  - apply ViewChange_validate_fuel.
  - unfold NewView_validate, NewViewContent_validate. fuel.
  - apply verify_as_fuel.
Qed.

Lemma PeerMessage_validate_fuel config usig from (m : PeerMessage P Sig Att) : PeerMessage_validate config usig from m <> NoFuel.
Proof.
  unfold PeerMessage_validate. apply try_bind_fuel; [|done].
  destruct (pm_message m); try done; try apply UsigMessage_validate_fuel. cbn. unfold ReqViewChange_validate. by case_match.
Qed.
End validate.
