(* ===== verification/MbCollectFacts.v ===== *)
(** * MinBFT: what the collectors guarantee

    [commits_inv ms c]: the commit collector [c] after collecting the messages
    [ms].  [collect_commits_spec] shows that [collect] keeps it, does not panic,
    and hands out a prepare only with messages of more than [t] replicas for it,
    in the order of the counters.  [checkpoints_inv] and [retrieve_checkpoints_spec]
    say the same of checkpoints and their certificate. *)

From Stdlib Require Import ZArith Lia Sorting.
From stdpp Require Import sorting base list gmap sets numbers option.
From S2P Require Import Prelude Ids MbUsig MbBase MbMessages MbCollectors MbCertFacts.

Section btree.
  Context {A : Type}.
  Implicit Types m : list (N * A).

Definition btree_wf m : Prop := StronglySorted N.lt m.*1.

Lemma btree_insert_keys k a m x : x ∈ (btree_insert k a m).*1 <-> x = k \/ x ∈ m.*1.
Proof.
  induction m as [|[k' a'] m IH]; cbn [btree_insert]; [set_solver|].
  destruct (N.compare_spec k k') as [->|Hlt|Hgt]; cbn; set_solver.
Qed.

Lemma btree_insert_elem k a m p : p ∈ btree_insert k a m -> p = (k, a) \/ p ∈ m.
Proof.
  induction m as [|[k' a'] m IH]; cbn [btree_insert]; [set_solver|].
  destruct (N.compare_spec k k') as [->|Hlt|Hgt]; set_solver.
Qed.

Lemma btree_insert_wf k a m : btree_wf m -> btree_wf (btree_insert k a m).
Proof.
  unfold btree_wf. induction m as [|[k' a'] m IH]; cbn [btree_insert]; [repeat constructor|].
  cbn. intros [Hs Hall]%StronglySorted_inv. destruct (N.compare_spec k k') as [->|Hlt|Hgt]; cbn.
  - by constructor.
  - constructor; [by constructor|]. constructor; [done|]. eapply Forall_impl; [|exact Hall]. cbn. lia.
  - constructor; [by apply IH|]. apply list.Forall_forall. intros x Hx%btree_insert_keys.
    destruct Hx as [->|Hx]; [done|]. rewrite list.Forall_forall in Hall. by apply Hall.
Qed.
End btree.

Section commits.
  Context {P Sig Att : Type} `{Counter Sig}.
  Local Abbreviation Msg := (UsigMessage P Sig Att).
  Local Abbreviation VMsg := (ViewPeerMessage P Sig Att).

(** The prepare a message is for. *)
Definition msg_prepare (v : VMsg) : Prepare P Sig Att :=
  match v with VPrepare prepare => prepare | VCommit commit => co_prepare (us_data commit) end.

(** [l] are messages among [ms] for the counter [k]. *)
Definition msgs_for (ms : list VMsg) (k : N) (l : list Msg) : Prop :=
  Forall (fun m => exists v, m = MView v /\ v ∈ ms /\ counter (msg_prepare v) = k) l.

Definition origins_of (l : list Msg) : gset N := list_to_set (UsigMessage_origin <$> l).

Record commits_inv (ms : list VMsg) (c : CollectorCommits P Sig Att) : Prop := {
  ci_wf : btree_wf (cl_prepare c);
  ci_keys : forall k, k ∈ (cl_prepare c).*1 <-> is_Some (cl_recv_commits c !! k);
  ci_msgs : forall k o, cl_recv_commits c !! k = Some o ->
    exists l, cl_recv_commit_msgs c !! k = Some l /\ o = origins_of l /\ msgs_for ms k l;
  ci_prep : forall k p, (k, p) ∈ cl_prepare c -> counter p = k /\ exists v, v ∈ ms /\ msg_prepare v = p;
}.

Lemma commits_inv_new : commits_inv [] CollectorCommits_new.
Proof.
  split; cbn.
  - constructor.
  - intros k. rewrite lookup_empty. split; [by intros ?%not_elem_of_nil|by intros []].
  - intros k o. by rewrite lookup_empty.
  - by intros k p ?%not_elem_of_nil.
Qed.

Lemma msgs_for_mono ms ms' k l : ms ⊆ ms' -> msgs_for ms k l -> msgs_for ms' k l.
Proof. intros Hm. apply Forall_impl. intros m (v & -> & Hv & Hk). eauto. Qed.

(** What is handed out: a prepare with messages of more than [t] replicas. *)
Definition acceptable (t : N) (ms : list VMsg) (e : Prepare P Sig Att * list Msg) : Prop :=
  (t < set_len (origins_of e.2))%N /\ msgs_for ms (counter e.1) e.2 /\ exists v, v ∈ ms /\ msg_prepare v = e.1.

Lemma collect_origin_spec ms c v :
  commits_inv ms c ->
  exists c', collect_origin (counter (msg_prepare v)) (UsigMessage_origin (MView v : Msg)) v (msg_prepare v) c = Val ((), c')
    /\ commits_inv (ms ++ [v]) c'
    /\ cl_prepare c' = btree_insert (counter (msg_prepare v)) (msg_prepare v) (cl_prepare c).
Proof.
  intros [Hwf Hkeys Hmsgs Hprep]. set (k := counter (msg_prepare v)).
  assert (forall l, msgs_for ms k l -> msgs_for (ms ++ [v]) k (l ++ [MView v])) as Hsnoc.
  { intros l Hl. apply Forall_app. split; [eapply msgs_for_mono; [|exact Hl]; set_solver|].
    constructor; [|constructor]. exists v. set_solver. }
  assert (forall k' p, (k', p) ∈ btree_insert k (msg_prepare v) (cl_prepare c) ->
            counter p = k' /\ exists v', v' ∈ ms ++ [v] /\ msg_prepare v' = p) as Hprep'.
  { intros k' p [[= -> ->]|Hin]%btree_insert_elem; [split; [done|exists v; set_solver]|].
    destruct (Hprep _ _ Hin) as (? & v' & ? & ?). split; [done|]. exists v'. set_solver. }
  unfold collect_origin, mbind, St_bind, self, modify, lift. cbn.
  destruct (cl_recv_commits c !! k) as [o|] eqn:Ho; cbn.
  - destruct (Hmsgs k o Ho) as (l & Hl & -> & Hfor). rewrite Hl. cbn. eexists. split; [done|]. split; [|done].
    split; cbn; [by apply btree_insert_wf| | |done].
    + intros x. rewrite btree_insert_keys, Hkeys. destruct (decide (x = k)) as [->|Hne].
      * rewrite lookup_insert_eq. naive_solver.
      * rewrite lookup_insert_ne by done. naive_solver.
    + intros x o'. destruct (decide (x = k)) as [->|Hne].
      * rewrite lookup_insert_eq. intros [= <-]. eexists. rewrite lookup_insert_eq. split; [done|]. split; [|by apply Hsnoc].
        unfold origins_of. rewrite fmap_app, list_to_set_app_L. cbn. set_solver.
      * rewrite !lookup_insert_ne by done. intros Hx. destruct (Hmsgs x o' Hx) as (l' & ? & ? & ?).
        exists l'. split_and!; [done..|]. eapply msgs_for_mono; [|done]. set_solver.
  - eexists. split; [done|]. split; [|done]. split; cbn; [by apply btree_insert_wf| | |done].
    + intros x. rewrite btree_insert_keys, Hkeys. destruct (decide (x = k)) as [->|Hne].
      * rewrite lookup_insert_eq. naive_solver.
      * rewrite lookup_insert_ne by done. naive_solver.
    + intros x o'. destruct (decide (x = k)) as [->|Hne].
      * rewrite lookup_insert_eq. intros [= <-]. eexists. rewrite lookup_insert_eq. split; [done|].
        split; [unfold origins_of; cbn; set_solver|]. constructor; [|constructor]. exists v. set_solver.
      * rewrite !lookup_insert_ne by done. intros Hx. destruct (Hmsgs x o' Hx) as (l' & ? & ? & ?).
        exists l'. split_and!; [done..|]. eapply msgs_for_mono; [|done]. set_solver.
Qed.

Lemma take_acceptable_spec t ms entries : forall recv msgs,
  commits_inv ms (mkCollectorCommits recv msgs entries) ->
  exists acc c', take_acceptable t entries recv msgs = Val (acc, c')
    /\ commits_inv ms c' /\ Forall (acceptable t ms) acc
    /\ entries = ((fun e => (counter e.1, e.1)) <$> acc) ++ cl_prepare c'.
Proof.
  induction entries as [|[k p] entries IH]; intros recv msgs Hinv.
  - eexists [], _. by split_and!.
  - cbn [take_acceptable]. pose proof Hinv as [Hwf Hkeys Hmsgs Hprep]. cbn in *.
    destruct (proj1 (Hkeys k)) as [o Ho]; [set_solver|]. rewrite Ho. cbn.
    destruct (Hmsgs k o Ho) as (l & Hl & -> & Hfor).
    destruct (Hprep k p) as (Hc & v & Hv & Hvp); [set_solver|].
    destruct (N.leb_spec (set_len (origins_of l)) t) as [Hle|Hgt].
    { eexists [], _. by split_and!. }
    rewrite Hl. cbn. apply StronglySorted_inv in Hwf as [Hwf Hall]. rewrite list.Forall_forall in Hall.
    destruct (IH (delete k recv) (delete k msgs)) as (acc & c' & -> & Hinv' & Hacc & Heq).
    { split; cbn; [done| | |].
      - intros x. destruct (decide (x = k)) as [->|Hne].
        + rewrite lookup_delete_eq. split; [|by intros []]. intros Hx. specialize (Hall _ Hx). cbn in Hall. lia.
        + rewrite lookup_delete_ne, <-Hkeys by done. cbn. set_solver.
      - intros x o'. destruct (decide (x = k)) as [->|Hne]; [by rewrite lookup_delete_eq|].
        rewrite !lookup_delete_ne by done. apply Hmsgs.
      - intros x q Hx. apply Hprep. set_solver. }
    eexists ((p, l) :: acc), c'. cbn. split_and!; [done..| |by rewrite Hc, <-Heq].
    constructor; [|done]. split_and!; cbn; [done|by rewrite Hc|eauto].
Qed.

Lemma CollectorCommits_collect_eq (v : VMsg) config c :
  CollectorCommits_collect v config c
  = (collect_origin (counter (msg_prepare v)) (UsigMessage_origin (MView v : Msg)) v (msg_prepare v)
     ;; accept_prepares (cfg_t config)) c.
Proof. by destruct v. Qed.

Lemma collect_commits_spec ms c v config :
  commits_inv ms c ->
  exists acc c', CollectorCommits_collect v config c = Val (acc, c')
    /\ commits_inv (ms ++ [v]) c' /\ Forall (acceptable (cfg_t config) (ms ++ [v])) acc
    /\ btree_insert (counter (msg_prepare v)) (msg_prepare v) (cl_prepare c)
       = ((fun e => (counter e.1, e.1)) <$> acc) ++ cl_prepare c'.
Proof.
  intros Hinv. rewrite CollectorCommits_collect_eq.
  destruct (collect_origin_spec ms c v Hinv) as (c1 & Hc & Hinv1 & Hp).
  unfold mbind, St_bind. rewrite Hc. unfold accept_prepares.
  destruct (take_acceptable_spec (cfg_t config) (ms ++ [v]) (cl_prepare c1) (cl_recv_commits c1) (cl_recv_commit_msgs c1))
    as (acc & c' & -> & Hinv' & Hacc & Heq); [by destruct c1|].
  eexists acc, c'. split_and!; try done. by rewrite <-Hp.
Qed.

(** The prepares handed out at once, and those that stay, have ascending counters. *)
Lemma collect_commits_sorted ms c v (acc : list (Prepare P Sig Att * list Msg)) c' :
  commits_inv ms c ->
  btree_insert (counter (msg_prepare v)) (msg_prepare v) (cl_prepare c)
    = ((fun e => (counter e.1, e.1)) <$> acc) ++ cl_prepare c' ->
  StronglySorted N.lt (((fun e => counter e.1) <$> acc) ++ (cl_prepare c').*1).
Proof.
  intros [Hwf _ _ _] Heq. eapply (btree_insert_wf (counter (msg_prepare v)) (msg_prepare v)) in Hwf. unfold btree_wf in Hwf.
  rewrite Heq, fmap_app, <-list_fmap_compose in Hwf. done.
Qed.
End commits.

(** ** [CollectorMessages] *)

Lemma NoDup_filter_fst {A B} (p : A * B -> Prop) `{!forall x, Decision (p x)} (l : list (A * B)) :
  NoDup l.*1 -> NoDup (filter p l).*1.
Proof.
  induction l as [|x l IH]; [done|]. rewrite fmap_cons, filter_cons. intros [Hx Hl]%list.NoDup_cons.
  case_decide; [|by apply IH]. cbn. apply list.NoDup_cons. split; [|by apply IH].
  intros (y & Hy & Hin)%list_elem_of_fmap. apply list_elem_of_filter in Hin as [_ Hin]. apply Hx.
  apply list_elem_of_fmap. eauto.
Qed.

Section messages.
  Context {K M : Type} `{Countable K} `{HashOrderLaws} (gtb : K -> K -> bool).
  Implicit Types c : gmap K (gmap N M).

(** The messages stored under a key. *)
Definition stored c (key : K) (from : N) (m : M) : Prop :=
  exists messages : gmap N M, c !! key = Some messages /\ messages !! from = Some m.

Lemma collect_stored msg from key c :
  exists n c', CollectorMessages_collect msg from key c = Val (n, c')
    /\ forall k f m, stored c' k f m -> stored c k f m \/ (k = key /\ f = from /\ m = msg).
Proof.
  unfold CollectorMessages_collect. destruct (c !! key) as [messages|] eqn:Hk.
  - destruct (messages !! from) eqn:Hf; eexists _, _; (split; [reflexivity|]); [by left|].
    intros k f m (ms & Hl & Hm). destruct (decide (k = key)) as [->|Hne].
    + rewrite lookup_insert_eq in Hl. injection Hl as <-. destruct (decide (f = from)) as [->|Hne'].
      * rewrite lookup_insert_eq in Hm. injection Hm as <-. by right.
      * rewrite lookup_insert_ne in Hm by done. left. by exists messages.
    + rewrite lookup_insert_ne in Hl by done. left. by exists ms.
  - eexists _, _. split; [reflexivity|]. intros k f m (ms & Hl & Hm). destruct (decide (k = key)) as [->|Hne].
    + rewrite lookup_insert_eq in Hl. injection Hl as <-. apply lookup_singleton_Some in Hm as [<- <-]. by right.
    + rewrite lookup_insert_ne in Hl by done. left. by exists ms.
Qed.

(** What [retrieve] returns: the own message, and at least [t] of other senders. *)
Lemma retrieve_stored key config c :
  exists r c', CollectorMessages_retrieve gtb key config c = Val (r, c')
    /\ (forall k f m, stored c' k f m -> stored c k f m)
    /\ (forall my others, r = Some (my, others) ->
          stored c key (cfg_id config) my
          /\ (cfg_t config <= N.of_nat (length others))%N
          /\ exists from, NoDup (cfg_id config :: from)
                          /\ Forall2 (fun f m => stored c key f m) from others).
Proof.
  unfold CollectorMessages_retrieve. destruct (c !! key) as [messages|] eqn:Hk; [|by eexists None, _].
  destruct (N.leb_spec (map_len messages) (cfg_t config)) as [|Ht]; [by eexists None, _|].
  destruct (messages !! cfg_id config) as [my|] eqn:Hmy; [|by eexists None, _].
  set (others := filter (fun p => p.1 <> cfg_id config) (hash_iter messages)).
  eexists (Some _), _. split; [reflexivity|]. split.
  { intros k f m (ms & Hl & Hm). apply map_lookup_filter_Some in Hl as [Hl _].
    apply lookup_delete_Some in Hl as [_ Hl]. by exists ms. }
  intros my' others' [= <- <-]. split; [by exists messages|].
  assert (hash_iter messages ≡ₚ map_to_list messages) as Hperm by apply hash_order_permutation.
  assert (forall k m, (k, m) ∈ others -> messages !! k = Some m /\ k <> cfg_id config) as Hoth.
  { intros k m [Hne Hin]%list_elem_of_filter. split; [by apply elem_of_hash_iter|done]. }
  assert (NoDup others.*1) as Hnd.
  { apply NoDup_filter_fst. rewrite Hperm. apply NoDup_fst_map_to_list. }
  assert (size messages = S (length others)) as Hsize.
  { rewrite <-length_map_to_list, <-Hperm.
    rewrite <-(filter_app_complement (fun p => p.1 = cfg_id config) (hash_iter messages)), length_app.
    assert (filter (fun p => p.1 = cfg_id config) (hash_iter messages) ≡ₚ [(cfg_id config, my)]) as ->; [|done].
    apply NoDup_Permutation; [apply list.NoDup_filter; rewrite Hperm; apply NoDup_map_to_list|apply NoDup_singleton|].
    intros [k m]. rewrite list_elem_of_filter, list_elem_of_singleton, elem_of_hash_iter. cbn. naive_solver. }
  rewrite length_fmap. unfold map_len in Ht. split; [lia|]. exists others.*1. split.
  - apply list.NoDup_cons. split; [|done]. intros ([k m] & Heq & Hin)%list_elem_of_fmap. by destruct (Hoth _ _ Hin).
  - apply Forall2_fmap. apply Forall_Forall2_diag. apply list.Forall_forall. intros [k m] Hin.
    destruct (Hoth _ _ Hin) as [Hl _]. by exists messages.
Qed.
End messages.

(** ** Checkpoints *)

Section checkpoints.
  Context {Sig Att : Type} `{HashOrderLaws}.

(** Each stored checkpoint is stored under its key and its origin. *)
Definition checkpoints_inv (c : CollectorCheckpoints Sig Att) : Prop :=
  forall key from m, stored c key from m -> cp_origin (us_data m) = from /\ checkpoint_key m = key.

Lemma checkpoints_inv_new : checkpoints_inv CollectorMessages_new.
Proof.
  intros key from m (messages & Hk & _).
  by pose proof (eq_trans (eq_sym (lookup_empty (M := gmap KeyCheckpoints) key)) Hk).
Qed.

Lemma collect_checkpoint_spec c msg :
  checkpoints_inv c -> exists n c', collect_checkpoint msg c = Val (n, c') /\ checkpoints_inv c'.
Proof.
  intros Hinv. unfold collect_checkpoint.
  destruct (collect_stored msg (cp_origin (us_data msg)) (checkpoint_key msg) c) as (n & c' & -> & Hst).
  exists n, c'. split; [done|]. intros k f m [Hs|(-> & -> & ->)]%Hst; [by apply Hinv|done].
Qed.

(** The certificate: own checkpoint, [t] or more others, pairwise different
    origins, one key. *)
Lemma retrieve_checkpoints_spec c msg config :
  checkpoints_inv c ->
  exists r c', retrieve_collected_checkpoints msg config c = Val (r, c') /\ checkpoints_inv c'
    /\ (forall cert, r = Some cert ->
          cp_origin (us_data (cc_my_checkpoint cert)) = cfg_id config
          /\ (cfg_t config <= N.of_nat (length (cc_other_checkpoints cert)))%N
          /\ NoDup (cert_origins cert)
          /\ Forall (fun m => checkpoint_key m = checkpoint_key msg) (cc_my_checkpoint cert :: cc_other_checkpoints cert)).
Proof.
  intros Hinv. unfold retrieve_collected_checkpoints, mbind, St_bind.
  destruct (retrieve_stored KeyCheckpoints_gtb (checkpoint_key msg) config c) as (r & c' & -> & Hst & Hr).
  eexists _, c'. split; [reflexivity|]. split; [intros k f m Hs%Hst; by apply Hinv|].
  intros cert Hc. destruct r as [[my others]|]; [|done]. injection Hc as <-. cbn.
  destruct (Hr my others eq_refl) as (Hmy & Hlen & from & Hnd & Hall).
  destruct (Hinv _ _ _ Hmy) as [Homy Hkmy].
  assert ((fun m => cp_origin (us_data m)) <$> others = from) as Hfrom.
  { clear Hr Hnd Hlen. induction Hall as [|f m from others Hm Hall IH]; [done|]. cbn. rewrite IH.
    by destruct (Hinv _ _ _ Hm) as [-> _]. }
  split_and!; [done|done| |].
  - unfold cert_origins. cbn. by rewrite Hfrom, Homy.
  - constructor; [done|]. apply list.Forall_forall. intros m Hm. apply list_elem_of_lookup in Hm as [i Hi].
    destruct (Forall2_lookup_r _ _ _ _ _ Hall Hi) as (f & _ & Hs). by destruct (Hinv _ _ _ Hs).
Qed.
End checkpoints.
