(* ===== verification/MbRequestFacts.v ===== *)
(** * MinBFT: requests are executed once and in order

    [exec_log hist txs e]: after the requests [txs] were put to the request
    processor, the responses so far ([hist], and those in the current output) and
    the storage are those of the deduplicated [txs], and the last accepted
    requests are those of the deduplication of [Requests].  [accept_prepare_log]
    extends it by the batch of a prepare. *)

From Stdlib Require Import ZArith Lia.
From stdpp Require Import base list gmap sets numbers option.
From S2P Require Import Prelude Triple Ids Requests MbUsig MbBase MbMessages MbCollectors MbBatcher MbRequests.

#[export] Instance ClientRequest_Transaction {P Att} : Transaction (ClientRequest P Att) :=
  {| client_id := cr_client; request_id := cr_id |}.

(** ** Batchers do not loop *)

Class BatcherLaws (Bt P Att : Type) `{RequestBatcher Bt P Att} : Prop := {
  bt_batch_fuel r b : bt_batch r b <> NoFuel;
  bt_timeout_fuel b : bt_timeout b <> NoFuel;
  bt_update_fuel r b : bt_update r b <> NoFuel;
  bt_init_fuel c : bt_init c <> NoFuel;
}.

(** Methods without a loop: nothing is said of the states. *)
Definition total {S} : relation S := fun _ _ => True.
#[export] Instance total_PreOrder {S} : PreOrder (@total S).
Proof. by split. Qed.
Definition fuel_free {S A} (m : St S A) : Prop := runs total m.

Lemma fuel_free_spec {S A} (m : St S A) : fuel_free m -> forall s, m s <> NoFuel.
Proof. intros Hm s. by eapply triple_fuel; [apply Hm|]. Qed.

Ltac fuel_free_tac := unfold fuel_free in *; repeat first [runs_step | done].

Section batcher.
  Context {P Att : Type} (clock : nat -> N) (rng : nat -> Z).

Lemma Trivial_batch_fuel (r : ClientRequest P Att) : fuel_free (Trivial_batch r).
Proof. unfold Trivial_batch. fuel_free_tac. Qed.
Lemma Trivial_timeout_fuel : fuel_free (@Trivial_timeout P Att).
Proof. unfold Trivial_timeout. fuel_free_tac. Qed.

Lemma AESC_next_fuel : fuel_free (@AESC_get_next_batch P Att clock).
Proof. unfold AESC_get_next_batch, ae_now. fuel_free_tac. Qed.
Lemma AESC_batch_fuel r : fuel_free (@AESC_batch P Att clock r).
Proof. unfold AESC_batch. pose proof AESC_next_fuel. fuel_free_tac. Qed.
Lemma AESC_update_fuel r : fuel_free (@AESC_update P Att clock rng r).
Proof. unfold AESC_update, ae_now. pose proof AESC_next_fuel. fuel_free_tac. Qed.

Lemma from_secs_f32_fuel x : from_secs_f32 x <> NoFuel.
Proof. unfold from_secs_f32. by repeat case_match. Qed.
Hint Resolve from_secs_f32_fuel : triple.
Lemma EMA_next_fuel b : fuel_free (@EMA_get_next_batch P Att clock b).
Proof. unfold EMA_get_next_batch, eb_now. fuel_free_tac. Qed.
Lemma EMA_adapt_fuel : fuel_free (@EMA_adapt_batch_parameters P Att).
Proof. unfold EMA_adapt_batch_parameters. fuel_free_tac. Qed.
Lemma EMA_batch_fuel r : fuel_free (@EMA_batch P Att clock r).
Proof. unfold EMA_batch, eb_now. pose proof EMA_next_fuel. pose proof EMA_adapt_fuel. fuel_free_tac. Qed.
Lemma EMA_update_fuel r : fuel_free (@EMA_update P Att clock r).
Proof. unfold EMA_update, eb_now. pose proof EMA_next_fuel. pose proof EMA_adapt_fuel. fuel_free_tac. Qed.

Lemma boxed_call_fuel {A} (m1 : St (TrivialRequestBatcher P Att) A) (m2 : St (AESC P Att) A) (m3 : St (EMABatcher P Att) A) b :
  fuel_free m1 -> fuel_free m2 -> fuel_free m3 -> boxed_call m1 m2 m3 b <> NoFuel.
Proof.
  intros H1 H2 H3. destruct b as [b|b|b]; cbn.
  - pose proof (fuel_free_spec m1 H1 b). by destruct (m1 b).
  - pose proof (fuel_free_spec m2 H2 b). by destruct (m2 b).
  - pose proof (fuel_free_spec m3 H3 b). by destruct (m3 b).
Qed.

#[export] Instance BoxedBatcher_laws : @BatcherLaws (BoxedBatcher P Att) P Att (BoxedBatcher_impl clock rng).
Proof.
  split; cbn.
  - intros r b. apply boxed_call_fuel; [apply Trivial_batch_fuel|apply AESC_batch_fuel|apply EMA_batch_fuel].
  - intros b. apply boxed_call_fuel; [apply Trivial_timeout_fuel|apply AESC_next_fuel|apply EMA_next_fuel].
  - intros r b. apply boxed_call_fuel; [apply runs_ret|apply AESC_update_fuel|apply EMA_update_fuel].
  - intros [| |c a]; cbn; [done..|]. unfold EMABatcher_new, rust_assert. by repeat case_match.
Qed.
End batcher.

(** ** Client states *)

Section clients.
  Context {P Att : Type}.
  Implicit Types m : gmap N (ClientState P Att).

Lemma last_executed_lookup m c : last_executed m !! c = cs_last_accepted_req (client_entry m c).
Proof. unfold last_executed, client_entry. rewrite lookup_omap. by destruct (m !! c). Qed.

Lemma last_executed_insert m c s :
  last_executed (<[c := s]> m)
  = match cs_last_accepted_req s with Some r => <[c := r]> (last_executed m) | None => delete c (last_executed m) end.
Proof.
  apply map_eq. intros k. rewrite last_executed_lookup. unfold client_entry.
  destruct (decide (k = c)) as [->|Hne].
  - rewrite lookup_insert_eq. cbn. destruct (cs_last_accepted_req s); [by rewrite lookup_insert_eq|by rewrite lookup_delete_eq].
  - rewrite lookup_insert_ne by done. fold (client_entry m k). rewrite <-last_executed_lookup.
    destruct (cs_last_accepted_req s); [by rewrite lookup_insert_ne|by rewrite lookup_delete_ne].
Qed.

(** A request that only arrives changes no last accepted request. *)
Lemma receival_last m id (req : ClientRequest P Att) c :
  last_executed (<[c := (update_upon_request_receival id req (client_entry m c)).2]> m) = last_executed m.
Proof.
  assert (forall s, cs_last_accepted_req (update_upon_request_receival id req s).2 = cs_last_accepted_req s) as Hl.
  { intros s. unfold update_upon_request_receival. by repeat case_match. }
  rewrite last_executed_insert, Hl, <-last_executed_lookup. apply map_eq. intros k.
  destruct (last_executed m !! c) eqn:E; destruct (decide (k = c)) as [->|Hne];
    rewrite ?lookup_insert_eq, ?lookup_delete_eq, ?lookup_insert_ne, ?lookup_delete_ne by done; done.
Qed.

(** Completion accepts what [deliver_tx] delivers. *)
Lemma completion_deliver m (req : ClientRequest P Att) :
  let r := update_upon_request_completion (cr_id req) (client_entry m (cr_client req)) in
  match deliver_tx (last_executed m) req with
  | Some last => r.1 = true /\ last_executed (<[cr_client req := r.2]> m) = last
  | None => r.1 = false /\ last_executed (<[cr_client req := r.2]> m) = last_executed m
  end.
Proof.
  unfold deliver_tx, update_upon_request_completion. cbn [client_id request_id ClientRequest_Transaction].
  rewrite last_executed_lookup. set (s := client_entry m (cr_client req)).
  assert (last_executed (<[cr_client req := s]> m) = last_executed m) as Hsame.
  { rewrite last_executed_insert. unfold s. rewrite <-last_executed_lookup.
    destruct (last_executed m !! cr_client req) as [r|] eqn:E; [by apply insert_id|by apply delete_id]. }
  destruct (cs_last_accepted_req s) as [r|] eqn:E; cbn.
  - destruct (cr_id req <=? r)%N; cbn; [done|]. split; [done|]. by rewrite last_executed_insert.
  - split; [done|]. by rewrite last_executed_insert.
Qed.
End clients.

(** ** Accepting the requests of a prepare *)

Section accept.
  Context {Pr : Profile} {P Sig Att Bt : Type}.
  Context `{Hashbar P} `{Digests} `{Counter Sig} `{HashOrder} `{BatcherLaws Bt P Att}.
  Context (clock : nat -> N).
  Local Abbreviation Req := (ClientRequest P Att).
  Implicit Types (e : Exec P Sig Att Bt) (txs : list Req).

(** What executing a request does to the storage; an internal request does nothing. *)
Definition execute (s : ReplicaStorage) (r : Req) : ReplicaStorage :=
  match cr_payload r with
  | WP_Client id payload => ReplicaStorage_execute_request s (cr_client r) id payload
  | WP_Internal _ => s
  end.
Definition response_of (r : Req) : N * WrappedRequestPayload P Att := (cr_client r, cr_payload r).

(** The requests that are executed when [txs] are put to the processor. *)
Definition executed txs : list Req := (dedup ∅ txs).2.

Record exec_log (hist : list (N * WrappedRequestPayload P Att)) txs (last : gmap N N) (storage : ReplicaStorage)
    (responses : list (N * WrappedRequestPayload P Att)) : Prop := {
  el_last : last = (dedup ∅ txs).1;
  el_responses : hist ++ responses = response_of <$> executed txs;
  el_storage : storage = foldl execute ReplicaStorage_new (executed txs);
}.
Definition exec_state hist txs e : Prop :=
  exec_log hist txs (last_executed (rp_clients_state (ex_processor e))) (ex_replica_storage e) (no_responses (ex_output e)).

Lemma dedup_snoc txs (r : Req) :
  dedup ∅ (txs ++ [r])
  = match deliver_tx (dedup ∅ txs).1 r with
    | Some last => (last, executed txs ++ [r])
    | None => dedup ∅ txs
    end.
Proof.
  unfold executed, dedup at 1. rewrite foldl_app. fold (dedup ∅ txs). simpl. unfold dedup_step.
  by destruct (dedup ∅ txs) as [l o], (deliver_tx l r).
Qed.

Lemma accept_request_log hist txs r d b :
  triple (fun e => exec_state hist txs e /\ no_broadcasts (ex_output e) = b) (accept_request r d)
    (fun _ e => exec_state hist (txs ++ [r]) e /\ no_broadcasts (ex_output e) = b).
Proof.
  intros e [[Hl Hr Hs] Hb]. unfold accept_request, mbind, St_bind, self, modify.
  pose proof (completion_deliver (rp_clients_state (ex_processor e)) r) as Hc. cbv zeta in Hc.
  destruct (update_upon_request_completion _ _) as [updated cs]. cbn [fst snd] in Hc.
  rewrite Hl in Hc. pose proof (dedup_snoc txs r) as Hd.
  destruct (deliver_tx (dedup ∅ txs).1 r) as [last|]; destruct Hc as [-> Hlast].
  - cbn. match goal with |- context [drop_accepted ?m ?q] => destruct (drop_accepted m q) as [queue oldest] end.
    unfold exec_state. destruct (cr_payload r) as [id payload|rr] eqn:Ep, oldest as [c|]; cbn; (split; [split|done]);
      unfold executed; rewrite Hd; cbn; rewrite ?fmap_app, ?foldl_app, ?app_assoc; cbn;
      rewrite <-?Hr, <-?Hs; unfold execute, response_of; rewrite ?Ep; done.
  - cbn. unfold exec_state. cbn. split; [split|done]; unfold executed; rewrite Hd; done.
Qed.

Lemma accept_requests_log hist rs d b : forall acc recs txs,
  triple (fun e => exec_state hist txs e /\ no_broadcasts (ex_output e) = b) (accept_requests rs d acc recs)
    (fun _ e => exec_state hist (txs ++ rs) e /\ no_broadcasts (ex_output e) = b).
Proof.
  induction rs as [|r rs IH]; intros acc recs txs; cbn [accept_requests].
  - rewrite app_nil_r. by apply triple_ret.
  - replace (txs ++ r :: rs) with ((txs ++ [r]) ++ rs) by (by rewrite <-app_assoc).
    eapply triple_bind; [apply accept_request_log|]. intros [u [[c rr]|]]; cbn [fst snd].
    + eapply triple_bind; [apply (triple_modify _ _ (fun _ e => exec_state hist (txs ++ [r]) e /\ no_broadcasts (ex_output e) = b)); by intros e|].
      intros ?. apply IH.
    + apply IH.
Qed.

Lemma batcher_call_log {A} (m : St Bt A) hist txs b :
  (forall bt, m bt <> NoFuel) ->
  triple (fun e : Exec P Sig Att Bt => exec_state hist txs e /\ no_broadcasts (ex_output e) = b) (processor_call (batcher_call m))
    (fun _ e => exec_state hist txs e /\ no_broadcasts (ex_output e) = b).
Proof.
  intros Hm. unfold processor_call, batcher_call, zoom. intros e He. specialize (Hm (rp_request_batcher (ex_processor e))).
  cbn. destruct (m _) as [[a bt]| |]; cbn; done.
Qed.

(** [c] is a checkpoint due with the prepare [p]. *)
Definition completes (config : Config) (p : Prepare P Sig Att) (c : CheckpointContent Att) : Prop :=
  cp_origin c = cfg_id config /\ cp_counter_latest_prep c = counter p /\ cp_view_latest_prep c = pr_view (us_data p)
  /\ (cp_total_amount_accepted_batches c mod cfg_checkpoint_period config = 0)%N.

Lemma accept_prepare_log hist txs config prepare d common b :
  triple (fun e : Exec P Sig Att Bt => exec_state hist txs e /\ no_broadcasts (ex_output e) = b)
    (accept_prepare clock config prepare d common)
    (fun r e => (exec_state hist (txs ++ rb_batch (pr_request_batch (us_data prepare))) e /\ no_broadcasts (ex_output e) = b)
       /\ (forall c, r.1.1.1 = Some c -> completes config prepare c) /\ (common = false -> r.1.2 = None)).
Proof.
  unfold accept_prepare.
  eapply (triple_bind _ _ _ (fun bo e => (exec_state hist txs e /\ no_broadcasts (ex_output e) = b) /\ (common = false -> bo.1 = None))).
  { destruct common; [|by apply triple_ret]. eapply triple_weaken;
      [apply (batcher_call_log (bt_update _)); intros bt; apply bt_update_fuel|intros e He; exact He|]. intros bo e He. by split. }
  intros bo. apply triple_pre. intros e0 [He0 Hbo]. eapply triple_bind.
  { eapply triple_weaken; [apply accept_requests_log|by intros ? <-|]. intros a e He. exact He. }
  intros [accepted recs]. cbn [fst snd].
  eapply (triple_bind _ _ _ (fun _ e => exec_state hist (txs ++ rb_batch (pr_request_batch (us_data prepare))) e
                                        /\ no_broadcasts (ex_output e) = b)).
  - destruct accepted; [|by apply triple_ret]. intros e He. unfold mbind, St_bind, self, modify, lift, processor_call, rp_now, zoom. cbn.
    pose proof (u64_add_fuel (rp_round (ex_processor e)) 1) as Hf.
    destruct (u64_add _ 1) as [round| |]; cbn; done.
  - intros ? e He. split; [exact He|]. split; [|exact Hbo]. intros c. cbn. unfold generate_checkpoint.
    case_match eqn:Hmod; [done|]. intros [= <-]. apply negb_false_iff, N.eqb_eq in Hmod. by split_and!.
Qed.
End accept.
