(* ===== verification/MbInvariant.v ===== *)
(** * MinBFT: the replica's invariant

    What a replica that did not start by recovering keeps at all times:

    - its journal ([journal]) is a run of an abstract machine with two kinds of
      steps: a prepare of the current view, with a counter above the last one, is
      committed when messages of more than [t] replicas for that view and counter
      were heard; or a new view is adopted, with the prepares of its view changes
      above the last one;
    - its responses and its storage are those of the requests of the journal, each
      client's in increasing order and once ([exec_log]);
    - its USIG signs exactly the messages in its log: the counters in the log are
      consecutive, up to the USIG's counter, and start at zero as long as there is
      no stable checkpoint;
    - everything it keeps (early messages, view changes, collected commits) was
      heard: received, a part of a message received, or broadcast by itself in this
      run ([sent_by]).  What a handler may rely on is what was sent before it
      ([pa_known]).

    [Core] are the parts of the state the invariant depends on; a method that keeps
    them ([quiet]) keeps the invariant. *)

From Stdlib Require Import ZArith Lia.
From stdpp Require Import base list gmap sets numbers option sorting.
From S2P Require Import Prelude Triple Ids Heaps Requests MbUsig MbBase MbMessages MbOrder MbCollectors MbBatcher.
From S2P Require Import MbRequests MbReplica MbCertFacts MbCollectFacts MbRequestFacts.

(** ** Ranges *)

Lemma range_snoc lo hi : (lo <= hi)%N -> range lo (hi + 1) = range lo hi ++ [hi].
Proof.
  intros Hle. unfold range. replace (N.to_nat (hi + 1 - lo)) with (N.to_nat (hi - lo) + 1) by lia.
  rewrite seq_app, fmap_app. simpl. do 2 f_equal. lia.
Qed.

Lemma range_cons lo hi : (lo < hi)%N -> range lo hi = lo :: range (lo + 1) hi.
Proof.
  intros Hlt. unfold range. replace (N.to_nat (hi - lo)) with (S (N.to_nat (hi - (lo + 1)))) by lia.
  rewrite <-cons_seq, <-fmap_S_seq, fmap_cons, <-list_fmap_compose. f_equal; [lia|].
  apply list_fmap_ext. intros i k Hk. simpl. lia.
Qed.

Lemma range_nil lo hi : (hi <= lo)%N -> range lo hi = [].
Proof. intros Hle. unfold range. by replace (N.to_nat (hi - lo)) with 0 by lia. Qed.

(** The messages above a counter, of messages with consecutive counters. *)
Lemma range_filter {A} (f : A -> N) c (l : list A) : forall lo hi, (lo <= hi)%N -> f <$> l = range lo hi ->
  f <$> filter (fun x => (c < f x)%N) l = range (N.min hi (N.max lo (c + 1))) hi.
Proof.
  induction l as [|x l IH]; intros lo hi Hle Heq.
  - rewrite range_nil; [done|]. destruct (decide (lo = hi)) as [->|]; [lia|]. rewrite range_cons in Heq by lia. done.
  - destruct (decide (lo = hi)) as [->|]; [by rewrite range_nil in Heq|]. rewrite range_cons in Heq by lia.
    injection Heq as Hx Heq. specialize (IH (lo + 1)%N hi ltac:(lia) Heq).
    rewrite filter_cons. case_decide as Hc.
    + rewrite fmap_cons, IH, Hx. replace (N.min hi (N.max lo (c + 1))) with lo by lia. rewrite (range_cons lo) by lia.
      f_equal. f_equal. lia.
    + rewrite IH. f_equal. lia.
Qed.

Section invariant.
  Context {Pr : Profile} {P U Sig Att Bt : Type}.
  Context `{Hashbar P, Hashbar Sig, Hashbar Att} `{Digests} `{UsigLaws U Sig Att} `{EqDecision Att} `{HashOrderLaws}.
  Context `{BatcherLaws Bt P Att}.
  Context (clock : nat -> N).
  Local Abbreviation Msg := (UsigMessage P Sig Att).
  Local Abbreviation VMsg := (ViewPeerMessage P Sig Att).
  Local Abbreviation Peer := (ValidatedPeerMessage P Sig Att).
  Local Abbreviation Prep := (Prepare P Sig Att).
  Local Abbreviation Req := (ClientRequest P Att).
  Local Abbreviation Replica := (MinBft P U Sig Att Bt).

(** ** Messages heard *)

(** A message of the log of a [ViewChange] that is passed on. *)
Definition of_log (m : UsigMessageV P Sig Att ViewChangeVariantNoLog) : option Msg :=
  match m with
  | MView v => Some (MView v)
  | MViewChange _ => None
  | MNewView nv => Some (MNewView nv)
  | MCheckpoint c => Some (MCheckpoint c)
  end.

(** [part_of p m]: the message [p] is [m] or is carried in [m]. *)
Inductive part_of (p : Msg) : Msg -> Prop :=
| part_self : part_of p p
| part_commit c : part_of p (MView (VPrepare (co_prepare (us_data c)))) -> part_of p (MView (VCommit c))
| part_log vc x m : x ∈ message_log (vc_variant (us_data vc)) -> of_log x = Some m -> part_of p m -> part_of p (MViewChange vc)
| part_new_view nv vc : vc ∈ nvc_view_changes (nv_certificate (nv_data nv)) -> part_of p (MViewChange vc) -> part_of p (MNewView nv).

Lemma part_of_trans p q m : part_of p q -> part_of q m -> part_of p m.
Proof. intros Hpq Hqm. induction Hqm; [done|by econstructor..]. Qed.

(** The configuration, and the messages received.  [sent] are messages the replica
    has broadcast. *)
Context (cfg : Config) (received : list Msg).
Implicit Types sent : list Msg.

Definition heard sent (m : Msg) : Prop := m ∈ sent \/ exists r, r ∈ received /\ part_of m r.

(** Everything in the message was heard. *)
Definition complete sent (m : Msg) : Prop := forall p, part_of p m -> heard sent p.

Lemma heard_mono sent sent' m : sent ⊆ sent' -> heard sent m -> heard sent' m.
Proof. intros Hsub [Hm|Hm]; [left; by apply Hsub|by right]. Qed.

Lemma complete_mono sent sent' m : sent ⊆ sent' -> complete sent m -> complete sent' m.
Proof. intros Hsub Hm p Hp. by eapply heard_mono, Hm. Qed.

Lemma complete_part sent p m : complete sent m -> part_of p m -> complete sent p.
Proof. intros Hm Hp q Hq. apply Hm. by eapply part_of_trans. Qed.

Lemma received_complete sent m : m ∈ received -> complete sent m.
Proof. intros Hm p Hp. right. eauto. Qed.

Lemma complete_prepare sent (v : VMsg) : complete sent (MView v) -> complete sent (MView (VPrepare (msg_prepare v))).
Proof. destruct v as [p|c]; [done|]. intros Hc. eapply complete_part; [exact Hc|]. apply part_commit, part_self. Qed.

Lemma complete_log sent vc x m :
  complete sent (MViewChange vc) -> x ∈ message_log (vc_variant (us_data vc)) -> of_log x = Some m -> complete sent m.
Proof. intros Hvc Hx Hm. eapply complete_part; [exact Hvc|]. eapply part_log; [done..|apply part_self]. Qed.

(** A message that is sent is complete when what it carries is. *)
Definition carries_heard sent (m : Msg) : Prop := forall p, part_of p m -> p = m \/ heard sent p.

Lemma carries_complete sent sent' m : carries_heard sent m -> sent ⊆ sent' -> m ∈ sent' -> complete sent' m.
Proof. intros Hm Hsub Hin p [->|Hp]%Hm; [by left|by eapply heard_mono]. Qed.

Lemma commit_carries sent c :
  complete sent (MView (VPrepare (co_prepare (us_data c)))) -> carries_heard sent (MView (VCommit c)).
Proof. intros Hp q Hq. inversion Hq; subst; [by left|right; by apply Hp]. Qed.

Lemma view_change_carries sent vc :
  (forall x m, x ∈ message_log (vc_variant (us_data vc)) -> of_log x = Some m -> complete sent m) ->
  carries_heard sent (MViewChange vc).
Proof. intros Hl q Hq. inversion Hq; subst; [by left|right]. by eapply Hl. Qed.

Lemma new_view_carries sent nv :
  (forall vc, vc ∈ nvc_view_changes (nv_certificate (nv_data nv)) -> complete sent (MViewChange vc)) ->
  carries_heard sent (MNewView nv).
Proof. intros Hl q Hq. inversion Hq; subst; [by left|right]. by eapply Hl. Qed.

(** ** The journal *)

Inductive Entry :=
| Committed (p : Prep) (msgs : list Msg)
| Adopted (nv : NewView P Sig Att) (preps : list Prep).

Definition entry_preps (e : Entry) : list Prep :=
  match e with Committed p _ => [p] | Adopted _ preps => preps end.
Definition preps_requests (ps : list Prep) : list Req :=
  concat ((fun p => rb_batch (pr_request_batch (us_data p))) <$> ps).
Definition journal_requests (l : list Entry) : list Req := preps_requests (concat (entry_preps <$> l)).

(** Messages of more than [t] replicas for a prepare with the view and the counter
    of [p], and [p] itself heard, alone or in a commit.  That two prepares with one
    view and counter are the same is up to the USIG of the primary: the code only
    compares counters. *)
Definition same_slot sent (p : Prep) (m : Msg) : Prop :=
  exists v, m = MView v /\ complete sent m /\ ViewPeerMessage_view v = pr_view (us_data p) /\ counter (msg_prepare v) = counter p.
Definition committed_by sent (p : Prep) (msgs : list Msg) : Prop :=
  (cfg_t cfg < set_len (origins_of msgs))%N /\ Forall (same_slot sent p) msgs
  /\ complete sent (MView (VPrepare p)).

(** The USIG refused to sign the checkpoint that [p] completes. *)
Definition refused (p : Prep) : Prop :=
  exists c u e u', completes cfg p c /\ us_sign (U := U) u (sha256 (hash_content c)) = Val (Err e, u').

(** [journal sent view last l]: the machine.  A committed prepare is the last one
    from then on; it is not noted where the USIG refused the checkpoint. *)
Inductive journal sent : N -> option N -> list Entry -> Prop :=
| journal_start : journal sent 0 None []
| journal_commit view last l p msgs :
    journal sent view last l -> pr_view (us_data p) = view -> option_ltb last (Some (counter p)) = true ->
    committed_by sent p msgs -> journal sent view (Some (counter p)) (l ++ [Committed p msgs])
| journal_refused view last l p msgs :
    journal sent view last l -> pr_view (us_data p) = view -> option_ltb last (Some (counter p)) = true ->
    committed_by sent p msgs -> refused p -> journal sent view last (l ++ [Committed p msgs])
| journal_adopt view last l nv :
    journal sent view last l -> complete sent (MNewView nv) ->
    journal sent (nv_next_view (nv_data nv)) (Some (counter nv))
      (l ++ [Adopted nv (compute_new_view_state last (nv_certificate (nv_data nv))).2]).

Lemma committed_by_mono sent sent' p msgs : sent ⊆ sent' -> committed_by sent p msgs -> committed_by sent' p msgs.
Proof.
  intros Hsub (Hq & Hall & Hp). split_and!; [done| |by eapply complete_mono].
  eapply Forall_impl; [exact Hall|]. intros m (w & -> & Hw & ? & ?). exists w. split_and!; [done|by eapply complete_mono|done..].
Qed.

Lemma journal_mono sent sent' view last l : sent ⊆ sent' -> journal sent view last l -> journal sent' view last l.
Proof.
  intros Hsub. induction 1; [constructor|eapply journal_commit|eapply journal_refused|eapply journal_adopt];
    eauto using committed_by_mono, complete_mono.
Qed.

(** ** The invariant *)

Record Core := mkCore {
  c_config : Config;
  c_recovering : bool * option N;
  c_next : N;
  c_sent : list Msg;
  c_early : list (list Msg);
  c_view_state : ViewState P Sig Att;
  c_last : option N;
  c_vcs : CollectorViewChanges P Sig Att;
  c_cert : bool;
  c_executed : gmap N N;
  c_storage : ReplicaStorage;
  c_broadcasts : list Peer;
  c_responses : list (N * WrappedRequestPayload P Att);
}.
Definition core (s : Replica) : Core := {|
  c_config := mb_config s;
  c_recovering := (mb_recovering s, mb_recovering_nonce s);
  c_next := us_next (mb_usig s);
  c_sent := mb_sent_usig_msgs s;
  c_early := oe_unprocessed <$> mb_replicas_state s;
  c_view_state := mb_view_state s;
  c_last := mb_counter_last_accepted_prep s;
  c_vcs := mb_collector_vc s;
  c_cert := bool_decide (is_Some (mb_last_checkpoint_cert s));
  c_executed := last_executed (rp_clients_state (mb_request_processor s));
  c_storage := mb_replica_storage s;
  c_broadcasts := no_broadcasts (mb_output s);
  c_responses := no_responses (mb_output s);
|}.

(** The commits collected in a view: all of that view, above the last prepare. *)
Definition collecting sent (view : N) (last : option N) (c : CollectorCommits P Sig Att) : Prop :=
  exists ms, commits_inv ms c /\ Forall (fun v => complete sent (MView v) /\ ViewPeerMessage_view v = view) ms
    /\ Forall (fun k => option_ltb last (Some k) = true) (cl_prepare c).*1.

Definition view_inv sent (l : list Entry) (last : option N) (v : ViewState P Sig Att) : Prop :=
  match v with
  | VS_InView iv => journal sent (iv_view iv) last l /\ collecting sent (iv_view iv) last (iv_collector_commits iv)
  | VS_ChangeInProgress _ => exists view, journal sent view last l
  end.

Lemma view_inv_mono sent sent' l last v : sent ⊆ sent' -> view_inv sent l last v -> view_inv sent' l last v.
Proof.
  intros Hsub. destruct v as [iv|ip]; cbn; [|intros [view Hj]; exists view; by eapply journal_mono].
  intros [Hj (ms & ? & Hms & ?)]. split; [by eapply journal_mono|]. exists ms. split_and!; [done| |done].
  eapply Forall_impl; [exact Hms|]. intros w [? ?]. by split; [eapply complete_mono|].
Qed.

(** The counters of the log: [pending] messages are signed and not sent yet. *)
Definition log_inv sent (cert : bool) (next : N) (log : list Msg) : Prop :=
  Forall (complete sent) log
  /\ exists lo, (lo <= next)%N /\ counter <$> log = range lo next /\ (cert = false -> lo = 0%N).

(** The log a [ViewChange] carries: all messages before it, or those after a
    checkpoint. *)
Definition log_sound (m : Msg) : Prop :=
  match m with
  | MViewChange vc => exists lo, (lo <= counter vc)%N /\ counter <$> message_log (vc_variant (us_data vc)) = range lo (counter vc)
      /\ (vc_checkpoint_cert (us_data vc) = None -> lo = 0%N)
  | _ => True
  end.

(** What the calls before this one left: the responses, the counter of the USIG,
    and the messages sent; [pa_known] are messages known to be sent by now. *)
Record Past := mkPast {
  pa_responses : list (N * WrappedRequestPayload P Att);
  pa_next : N;
  pa_sent : list Msg;
  pa_known : list Msg;
}.

(** The messages to be sent, and all sent up to now. *)
Definition usig_messages (ms : list Peer) : list Msg :=
  omap (fun m => match m with PUsig m => Some m | _ => None end) ms.
Definition sent_by (hist : Past) (ms : list Peer) : list Msg :=
  foldl (fun sent m => match m with PUsig m => sent ++ [m] | _ => sent end) (pa_sent hist) ms.
#[local] Arguments sent_by : simpl never.

Lemma sent_by_snoc hist ms m : sent_by hist (ms ++ [PUsig m]) = sent_by hist ms ++ [m].
Proof. unfold sent_by. by rewrite foldl_app. Qed.

Lemma sent_by_other hist ms m : (forall u, m <> PUsig u) -> sent_by hist (ms ++ [m]) = sent_by hist ms.
Proof. intros Hm. unfold sent_by. rewrite foldl_app. destruct m; (done || by edestruct Hm). Qed.

Lemma sent_by_messages hist ms : sent_by hist ms = pa_sent hist ++ usig_messages ms.
Proof.
  induction ms as [|m ms IH] using rev_ind; [symmetry; apply app_nil_r|]. unfold usig_messages in *. rewrite omap_app.
  destruct m; (rewrite sent_by_snoc || rewrite sent_by_other by done); rewrite IH; cbn; by rewrite ?app_nil_r, ?app_assoc.
Qed.

(** The counters of the messages to be sent. *)
Definition usig_counters (ms : list Peer) : list N :=
  omap (fun m => match m with PUsig m => Some (counter m) | _ => None end) ms.

(** [extra]: requests of a journal entry under way.  [pending]: 1 between a
    signature and the broadcast of the message. *)
Record core_inv (hist : Past) (l : list Entry) (extra : list Req) (pending : N)
    (c : Core) : Prop := {
  ci_config : c_config c = cfg;
  ci_recovering : c_recovering c = (false, None);
  ci_pending : (pending <= c_next c)%N;
  ci_log : log_inv (sent_by hist (c_broadcasts c)) (c_cert c) (c_next c - pending) (c_sent c);
  ci_early : Forall (Forall (complete (sent_by hist (c_broadcasts c)))) (c_early c);
  ci_replicas : length (c_early c) = N.to_nat (cfg_n cfg);
  ci_vcs : forall view m from vc, (c_vcs c : gmap N (gmap N (ViewChange P Sig Att))) !! view = Some m -> m !! from = Some vc ->
    complete (sent_by hist (c_broadcasts c)) (MViewChange vc);
  ci_broadcasts : forall m, PUsig m ∈ c_broadcasts c -> complete (sent_by hist (c_broadcasts c)) m /\ log_sound m;
  ci_counters : (pa_next hist <= c_next c - pending)%N
    /\ usig_counters (c_broadcasts c) = range (pa_next hist) (c_next c - pending);
  ci_exec : exec_log (pa_responses hist) (journal_requests l ++ extra) (c_executed c) (c_storage c) (c_responses c);
  ci_view : view_inv (sent_by hist (c_broadcasts c)) l (c_last c) (c_view_state c);
  ci_known : pa_known hist ⊆ sent_by hist (c_broadcasts c);
}.
(** [F] says what is known of the view state and the last accepted prepare. *)
Implicit Types (F : ViewState P Sig Att -> option N -> Prop).
Definition inv_at F hist l extra pending (s : Replica) : Prop :=
  core_inv hist l extra pending (core s) /\ F (mb_view_state s) (mb_counter_last_accepted_prep s).
Definition inv F hist l extra (s : Replica) : Prop := inv_at F hist l extra 0 s.

(** More is known to be sent. *)
Definition know (hist : Past) sent : Past := mkPast (pa_responses hist) (pa_next hist) (pa_sent hist) sent.
Definition sent_now hist (s : Replica) : list Msg := sent_by hist (no_broadcasts (mb_output s)).

Lemma inv_know F hist l extra pending s :
  inv_at F hist l extra pending s ->
  pa_known hist ⊆ sent_now hist s /\ inv_at F (know hist (sent_now hist s)) l extra pending s.
Proof. intros [Hs HF]. split; [apply (ci_known _ _ _ _ _ Hs)|]. split; [|done]. destruct Hs. by constructor. Qed.

Lemma inv_forget F hist sent l extra pending s :
  pa_known hist ⊆ sent -> inv_at F (know hist sent) l extra pending s -> inv_at F hist l extra pending s.
Proof.
  intros Hsub [Hs HF]. split; [|done]. destruct Hs as [? ? ? ? ? ? ? ? ? ? ? Hk]. constructor; try done. by etransitivity.
Qed.

(** Sending one more message keeps what was known of the others. *)
Lemma core_sent_mono sent sent' (c : Core) l :
  sent ⊆ sent' -> Forall (Forall (complete sent)) (c_early c) -> view_inv sent l (c_last c) (c_view_state c) ->
  Forall (Forall (complete sent')) (c_early c) /\ view_inv sent' l (c_last c) (c_view_state c).
Proof.
  intros Hsub He Hv. split; [|by eapply view_inv_mono]. eapply Forall_impl; [exact He|]. intros ms Hms.
  eapply Forall_impl; [exact Hms|]. intros m. by apply complete_mono.
Qed.
Definition anywhere : ViewState P Sig Att -> option N -> Prop := fun _ _ => True.
Definition at_view v last : ViewState P Sig Att -> option N -> Prop := fun v' last' => v' = v /\ last' = last.

Definition quiet (s s' : Replica) : Prop := core s' = core s.
#[export] Instance quiet_PreOrder : PreOrder quiet.
Proof. split; [done|]. unfold quiet. intros x y z Hxy Hyz. congruence. Qed.

Lemma runs_inv {A} (m : St Replica A) F hist l extra pending :
  runs quiet m -> triple (inv_at F hist l extra pending) m (fun _ => inv_at F hist l extra pending).
Proof.
  intros Hm. eapply runs_triple; [exact Hm|]. unfold inv_at. intros s s' Hq [Hc HF]. rewrite Hq. split; [done|].
  change (F (c_view_state (core s')) (c_last (core s'))). by rewrite Hq.
Qed.

#[local] Ltac quiet_tac := repeat first [runs_step | reflexivity].

(** ** Methods that are quiet *)

Lemma timeout_request_quiet r : runs quiet (timeout_request (U := U) (Bt := Bt) (P := P) (Sig := Sig) (Att := Att) r).
Proof. unfold timeout_request. quiet_tac. Qed.
Lemma output_error_quiet e : runs quiet (output_error (U := U) (Bt := Bt) (P := P) (Sig := Sig) (Att := Att) e).
Proof. unfold output_error. quiet_tac. Qed.
Lemma send_quiet (m : Peer) r : runs quiet (send (U := U) (Bt := Bt) m r).
Proof.
  unfold send. apply runs_update.
  - intros s. by destruct m.
  - intros s s'. by destruct m; simpl; intros [= <-].
Qed.
Lemma add_remote_party_quiet id (att : Att) :
  runs quiet (add_remote_party (P := P) (U := U) (Sig := Sig) (Bt := Bt) id att).
Proof. intros s ? <-. unfold quiet, core. cbn. by rewrite us_add_next. Qed.
#[local] Hint Resolve timeout_request_quiet output_error_quiet send_quiet add_remote_party_quiet : runs.

Lemma conf_quiet {A} (f : Config -> A) : runs quiet (conf (U := U) (Bt := Bt) (P := P) (Sig := Sig) (Att := Att) f).
Proof. apply runs_self. Qed.
#[local] Hint Resolve conf_quiet : runs.
Lemma Config_me_primary_fuel config v : Config_me_primary config v <> NoFuel.
Proof. unfold Config_me_primary, Config_is_primary, rust_assert. by repeat case_match. Qed.
#[local] Hint Resolve Config_me_primary_fuel : triple.

Lemma process_client_req_quiet (req : Req) view_state d config :
  runs quiet (processor_state_call (U := U) (process_client_req (Bt := Bt) (Sig := Sig) clock req view_state d config)).
Proof.
  intros s ? <-. unfold processor_state_call, process_client_req, batcher_call, rp_now, zoom, lift, mbind, St_bind, self, modify. cbn.
  pose proof (receival_last (rp_clients_state (mb_request_processor s)) (cr_id req) req (cr_client req)) as Hl.
  destruct (update_upon_request_receival _ _ _) as [[] cs]; unfold quiet, core; cbn; cbn in Hl; [|by f_equal].
  destruct view_state as [iv|cip]; cbn; [|by f_equal].
  pose proof (Config_me_primary_fuel config (iv_view iv)) as Hf.
  destruct (Config_me_primary config (iv_view iv)) as [[]| |]; cbn; try done; [|by f_equal].
  pose proof (bt_batch_fuel req (rp_request_batcher (mb_request_processor s))) as Hb.
  destruct (bt_batch _ _) as [[a bt]| |]; cbn; [by f_equal|done|done].
Qed.
#[local] Hint Resolve process_client_req_quiet : runs.

(** ** Signing and sending *)

(** Between a signature and the broadcast. *)
Definition signed_state {T} F hist l extra (data : T) (m : UsigSigned T Sig) (s : Replica) : Prop :=
  us_data m = data /\ (counter m + 1 = us_next (mb_usig s))%N /\ inv_at F hist l extra 1 s.

Lemma sign_triple {T} `{UsigSignable T} (data : T) F hist l extra :
  triple (inv F hist l extra) (sign data)
    (fun r s => match r with Ok m => signed_state F hist l extra data m s | Err _ => inv F hist l extra s end).
Proof.
  intros s [Hs HF]. unfold sign, zoom, UsigSigned_sign. cbn.
  pose proof (us_sign_fuel (mb_usig s) (sha256 (hash_content data))) as Hf.
  destruct (us_sign _ _) as [[[sig|e] u]| |] eqn:Hsig; cbn; try done.
  - apply us_sign_ok in Hsig as [Hc Hn]. split_and!; [done|cbn; unfold counter, UsigSigned_Counter; cbn; lia|]. split; [|done].
    destruct Hs. constructor; cbn in *; try done; try lia.
    all: rewrite Hn; by replace (us_next (mb_usig s) + 1 - 1)%N with (us_next (mb_usig s) - 0)%N by lia.
  - apply us_sign_err in Hsig. split; [|done]. unfold core in *. cbn in *. by rewrite Hsig.
Qed.

(** A failure to sign is one of the USIG. *)
Lemma sign_refused {T} `{UsigSignable T} (data : T) F hist l extra :
  triple (inv F hist l extra) (sign data)
    (fun r s => match r with
                | Ok m => signed_state F hist l extra data m s
                | Err e => inv F hist l extra s
                           /\ exists (u u' : U), us_sign u (sha256 (hash_content data)) = Val (Err e, u')
                end).
Proof.
  intros s Hs. pose proof (sign_triple data F hist l extra s Hs) as Ht. unfold sign, zoom, UsigSigned_sign in *. cbn in *.
  destruct (us_sign _ _) as [[[sig|e] u]| |] eqn:Hsig; cbn in *; try done. eauto.
Qed.

(** [f m] can be sent: what it carries was heard. *)
Definition sendable {T} sent (f : UsigSigned T Sig -> Msg) (data : T) : Prop :=
  forall m, us_data m = data ->
  counter (f m) = counter m /\ carries_heard sent (f m) /\ forall vc, f m <> MViewChange vc.

(** What is kept, once one more message is sent. *)
Lemma send_core hist l extra pending (c : Core) (m : Msg) :
  core_inv hist l extra pending c -> carries_heard (sent_by hist (c_broadcasts c)) m -> log_sound m ->
  let sent' := sent_by hist (c_broadcasts c ++ [PUsig m]) in
  sent_by hist (c_broadcasts c) ⊆ sent' /\ pa_known hist ⊆ sent'
  /\ Forall (complete sent') (c_sent c ++ [m]) /\ Forall (Forall (complete sent')) (c_early c)
  /\ (forall view vcs from vc, (c_vcs c : gmap N (gmap N (ViewChange P Sig Att))) !! view = Some vcs -> vcs !! from = Some vc ->
      complete sent' (MViewChange vc))
  /\ (forall m', PUsig m' ∈ c_broadcasts c ++ [PUsig m] -> complete sent' m' /\ log_sound m')
  /\ view_inv sent' l (c_last c) (c_view_state c).
Proof.
  intros [? ? ? [Hlog _] Hearly ? Hvcs Hb _ ? Hview Hk] Hm Hs sent'. unfold sent'. rewrite sent_by_snoc. set (sent := sent_by _ _) in *.
  assert (sent ⊆ sent ++ [m]) as Hsub by set_solver. assert (complete (sent ++ [m]) m) as Hcm by (eapply carries_complete; set_solver).
  split_and!; [done|by etransitivity| | |..].
  - apply Forall_app. split; [|by constructor]. eapply Forall_impl; [exact Hlog|]. intros x. by apply complete_mono.
  - eapply Forall_impl; [exact Hearly|]. intros ms Hms. eapply Forall_impl; [exact Hms|]. intros x. by apply complete_mono.
  - intros. eapply complete_mono; [exact Hsub|]. by eapply Hvcs.
  - intros m'. rewrite elem_of_app, list_elem_of_singleton. intros [[? ?]%Hb| [= ->]]; [|done].
    split; [by eapply complete_mono|done].
  - by eapply view_inv_mono.
Qed.

Lemma broadcast_triple {T} (f : UsigSigned T Sig -> Msg) F hist l extra (data : T) (m : UsigSigned T Sig) :
  sendable (pa_known hist) f data ->
  triple (signed_state F hist l extra data m) (broadcast (PUsig (f m))) (fun _ => inv F hist l extra).
Proof.
  intros Hf s (Hd & Hn & Hs & HF). destruct (Hf m Hd) as (Hc & Hp & Hvc). unfold broadcast, modify. cbn. split; [|done].
  destruct (send_core _ _ _ _ _ (f m) Hs) as (Hsub & ? & ? & ? & ? & ? & ?).
  { intros p [->|Hp']%Hp; [by left|right]. eapply heard_mono; [apply (ci_known _ _ _ _ _ Hs)|done]. }
  { destruct (f m); try done. by edestruct Hvc. }
  destruct Hs as [? ? ? [_ (lo & Hlo & Hr & Hz)] ? ? ? _ [Hpa Hcs] ? ? ?]. constructor; cbn in *; try done; try lia.
  - split; [done|]. exists lo. split_and!; [lia| |done].
    rewrite fmap_app, Hr. simpl. rewrite Hc. replace (us_next (mb_usig s) - 0)%N with (us_next (mb_usig s) - 1 + 1)%N by lia.
    rewrite range_snoc by done. do 3 f_equal. lia.
  - split; [lia|]. unfold usig_counters in *. rewrite omap_app, Hcs. cbn. rewrite Hc.
    replace (us_next (mb_usig s) - 0)%N with (us_next (mb_usig s) - 1 + 1)%N by lia.
    rewrite range_snoc by done. do 3 f_equal. lia.
Qed.

Lemma broadcast_other_triple (m : Peer) F hist l extra :
  (forall u, m <> PUsig u) -> triple (inv F hist l extra) (broadcast m) (fun _ => inv F hist l extra).
Proof.
  intros Hm s [Hs HF]. unfold broadcast, modify. cbn. split; [|done]. destruct Hs.
  constructor; cbn in *; rewrite ?sent_by_other by done; try done.
  - destruct m; (done || by edestruct Hm).
  - intros u. rewrite elem_of_app, list_elem_of_singleton. intros [?| <-]; [naive_solver|by edestruct Hm].
  - destruct ci_counters0 as [? Hcs]. split; [done|]. unfold usig_counters in *. rewrite omap_app, Hcs. cbn.
    destruct m; rewrite ?app_nil_r; (done || by edestruct Hm).
Qed.

(** Sign, and send or report. *)
Lemma sign_broadcast {T B} `{UsigSignable T} (f : UsigSigned T Sig -> Msg) (data : T) (k1 : St Replica B) k2 F hist l extra Q :
  sendable (pa_known hist) f data -> triple (inv F hist l extra) k1 Q -> (forall e, triple (inv F hist l extra) (k2 e) Q) ->
  triple (inv F hist l extra)
    (r ← sign data; match r with Ok m => broadcast (PUsig (f m)) ;; k1 | Err e => k2 e end) Q.
Proof.
  intros Hf Hk1 Hk2. eapply triple_bind; [apply sign_triple|]. intros [m|e]; [|done].
  eapply triple_bind; [by apply broadcast_triple|]. by intros ?.
Qed.
Lemma sign_broadcast_last {T} `{UsigSignable T} (f : UsigSigned T Sig -> Msg) (data : T) k2 F hist l extra :
  sendable (pa_known hist) f data -> (forall e, runs quiet (k2 e)) ->
  triple (inv F hist l extra)
    (r ← sign data; match r with Ok m => broadcast (PUsig (f m)) | Err e => k2 e end) (fun _ => inv F hist l extra).
Proof.
  intros Hf Hk. eapply triple_bind; [apply sign_triple|]. intros [m|e]; [by apply broadcast_triple|by apply runs_inv].
Qed.

(** Messages that carry no others. *)
Lemma sendable_simple {T} sent (f : UsigSigned T Sig -> Msg) (data : T) :
  (forall m, counter (f m) = counter m) -> (forall m p, part_of p (f m) -> p = f m) ->
  (forall m vc, f m <> MViewChange vc) -> sendable sent f data.
Proof. intros Hc Hp Hvc m Hm. split_and!; [done| |done]. intros p ->%Hp. by left. Qed.

#[local] Ltac simple_message := apply sendable_simple; [done|intros ? q Hq; by inversion Hq|done].

(** ** Reading *)

Lemma inv_pin {A} (m : St Replica A) F hist l extra Q :
  (forall v last, F v last -> triple (inv (at_view v last) hist l extra) m Q) -> triple (inv F hist l extra) m Q.
Proof. intros Hm s [Hs HF]. by apply (Hm _ _ HF s). Qed.

Lemma inv_any {A} (m : St Replica A) F hist l extra :
  triple (inv anywhere hist l extra) m (fun _ => inv anywhere hist l extra) ->
  triple (inv F hist l extra) m (fun _ => inv anywhere hist l extra).
Proof. intros Hm. eapply triple_weaken; [exact Hm| |done]. by intros s [? _]. Qed.

Lemma inv_config F hist l extra pending s : inv_at F hist l extra pending s -> mb_config s = cfg.
Proof. intros [Hs _]. apply Hs. Qed.

Lemma config_pre {A B} (f : Config -> A) (k : A -> St Replica B) F hist l extra Q :
  triple (inv F hist l extra) (k (f cfg)) Q -> triple (inv F hist l extra) (conf f ≫= k) Q.
Proof. intros Hk s Hs. unfold conf, self, mbind, St_bind. rewrite (inv_config _ _ _ _ _ _ Hs). by apply Hk. Qed.

Lemma view_pre {B} (k : ViewState P Sig Att -> St Replica B) v last hist l extra Q :
  triple (inv (at_view v last) hist l extra) (k v) Q ->
  triple (inv (at_view v last) hist l extra) (self mb_view_state ≫= k) Q.
Proof. intros Hk s Hs. unfold self, mbind, St_bind. rewrite (proj1 (proj2 Hs)). by apply Hk. Qed.

Lemma last_pre {B} (k : option N -> St Replica B) v last hist l extra Q :
  triple (inv (at_view v last) hist l extra) (k last) Q ->
  triple (inv (at_view v last) hist l extra) (self mb_counter_last_accepted_prep ≫= k) Q.
Proof. intros Hk s Hs. unfold self, mbind, St_bind. rewrite (proj2 (proj2 Hs)). by apply Hk. Qed.

Lemma quiet_bind {A B} (m : St Replica A) (k : A -> St Replica B) F hist l extra Q :
  runs quiet m -> (forall a, triple (inv F hist l extra) (k a) Q) -> triple (inv F hist l extra) (m ≫= k) Q.
Proof. intros Hm Hk. eapply triple_bind; [by apply runs_inv|done]. Qed.

#[local] Ltac inv_quiet := apply runs_inv; quiet_tac.
#[local] Ltac ret := by apply triple_ret.
#[local] Ltac qbind := apply quiet_bind; [solve [quiet_tac]|intros ?].

(** ** Batches *)

Lemma process_batching_output_inv batch timeout F hist l extra :
  triple (inv F hist l extra) (process_batching_output (U := U) (Bt := Bt) batch timeout) (fun _ => inv F hist l extra).
Proof.
  unfold process_batching_output. qbind. apply config_pre. destruct batch as [batch|]; [|ret].
  qbind. destruct a0 as [iv|cip]; [|apply triple_panic]. apply (config_pre id). qbind.
  destruct a0; [|ret]. apply (sign_broadcast_last (fun m => MView (VPrepare m))); [|intros e; quiet_tac].
  simple_message.
Qed.

Lemma handle_internal_client_message_inv client req F hist l extra :
  triple (inv F hist l extra) (handle_internal_client_message (U := U) (Bt := Bt) (Sig := Sig) clock client req)
    (fun _ => inv F hist l extra).
Proof.
  unfold handle_internal_client_message. do 4 qbind. qbind.
  destruct a as [iv|cip]; [apply process_batching_output_inv|ret].
Qed.

(** ** Enforcers *)

Definition early_ok sent (e : UsigMsgOrderEnforcer P Sig Att) : Prop := Forall (complete sent) (oe_unprocessed e).

Lemma index_u64_inv {A} (xs : list A) i x : index_u64 xs i = Val x -> xs !! N.to_nat i = Some x.
Proof. unfold index_u64. rewrite nth_u64_lookup. by destruct (xs !! _); [intros [= ->]|]. Qed.

Lemma enforcer_call_inv {A} from (m : St (UsigMsgOrderEnforcer P Sig Att) A) (Q : list Msg -> A -> Prop) F hist l extra :
  (forall sent, pa_known hist ⊆ sent -> triple (early_ok sent) m (fun a e => early_ok sent e /\ Q sent a)) ->
  triple (inv F hist l extra) (enforcer_call from m)
    (fun a s => exists sent, pa_known hist ⊆ sent /\ inv F (know hist sent) l extra s /\ Q sent a).
Proof.
  intros Hm s [Hs HF]. unfold enforcer_call. destruct (index_u64 _ _) as [e| |] eqn:He; cbn; [|done|].
  2:{ unfold index_u64, unwrap in He. by case_match. }
  apply index_u64_inv in He. destruct Hs as [? ? ? ? Hearly Hlen ? ? ? ? ? Hk]. cbn in *.
  assert (early_ok (sent_now hist s) e) as Hok.
  { rewrite list.Forall_forall in Hearly. apply Hearly. apply list_elem_of_fmap. exists e. split; [done|].
    by eapply list_elem_of_lookup_2. }
  specialize (Hm _ Hk e Hok). destruct (m e) as [[a e']| |]; cbn; [|done|done]. destruct Hm as [Hok' Ha].
  unfold assign_u64. rewrite (proj2 (N.ltb_lt _ _)) by (apply lookup_lt_Some in He; lia). cbn.
  exists (sent_now hist s). split; [done|]. split; [|done]. split; [|done]. constructor; cbn; try done.
  - rewrite list_fmap_insert. by apply Forall_insert.
  - by rewrite list_fmap_insert, length_insert.
Qed.

Lemma enforcer_reset_inv from F hist l extra :
  triple (inv F hist l extra) (enforcer_call from (modify (fun _ => UsigMsgOrderEnforcer_default))) (fun _ => inv F hist l extra).
Proof.
  eapply triple_weaken; [apply (enforcer_call_inv _ _ (fun _ _ => True))|done|by intros a s' (? & ? & ?%inv_forget & _)].
  intros sent _ e He. cbn. split; [constructor|done].
Qed.

Lemma handle_recovery_request_inv client (req : RecoveryRequestPayload Att) F hist l extra :
  triple (inv F hist l extra) (handle_recovery_request (P := P) (U := U) (Sig := Sig) (Bt := Bt) client req)
    (fun _ => inv F hist l extra).
Proof.
  unfold handle_recovery_request. apply config_pre. qbind. destruct (negb _); [ret|]. destruct (_ =? _)%N; [ret|].
  destruct (a !! _); [|ret]. do 2 qbind. eapply triple_bind; [apply enforcer_reset_inv|]. intros ?. inv_quiet.
Qed.

(** ** Accepting prepares *)

Lemma exec_call_inv config (p : Prep) d common F hist l extra :
  config = cfg ->
  triple (inv F hist l extra) (exec_call (U := U) (accept_prepare (Bt := Bt) clock config p d common))
    (fun r s => inv F hist l (extra ++ rb_batch (pr_request_batch (us_data p))) s
                /\ (forall c, r.1.1.1 = Some c -> completes cfg p c) /\ (common = false -> r.1.2 = None)).
Proof.
  intros -> s [Hs HF]. unfold exec_call, zoom.
  pose proof (accept_prepare_log clock (pa_responses hist) (journal_requests l ++ extra) cfg p d common (no_broadcasts (mb_output s)) (get_exec s)) as Hp.
  destruct Hs as [? ? ? ? ? ? ? ? Hcs Hx ? ?]. specialize (Hp (conj Hx eq_refl)).
  destruct (accept_prepare _ _ _ _ _ _) as [[r e]| |]; cbn in *; [|done|done].
  destruct Hp as [[Hlog Hb] Hr]. split; [|done]. split; [|done].
  constructor; cbn; rewrite ?Hb; try done. by rewrite app_assoc.
Qed.

Lemma config_self_pre {B} (k : Config -> St Replica B) F hist l extra Q :
  triple (inv F hist l extra) (k cfg) Q -> triple (inv F hist l extra) (self mb_config ≫= k) Q.
Proof. apply (config_pre id). Qed.

Lemma accept_acceptable_inv (p : Prep) F hist l :
  triple (inv F hist l []) (accept_acceptable (U := U) (Bt := Bt) clock p)
    (fun r s => inv F hist l (rb_batch (pr_request_batch (us_data p))) s /\ forall c, r = Some c -> completes cfg p c).
Proof.
  unfold accept_acceptable. apply config_self_pre. qbind. eapply triple_bind; [by apply exec_call_inv|].
  intros [[[cp recs] batch] timeout]. apply triple_pre. intros s0 (Hs0 & Hcp & _). cbn in Hcp.
  eapply triple_weaken; [|by intros s <-; apply Hs0|intros r s Hr; exact Hr].
  eapply triple_bind; [apply process_batching_output_inv|]. intros ?.
  eapply triple_bind; [apply triple_for; intros [c r] _; apply handle_recovery_request_inv|]. intros ?. by apply triple_ret.
Qed.

(** It says that it failed only where the USIG refused. *)
Lemma broadcast_checkpoint_inv content (p : Prep) F hist l extra :
  completes cfg p content ->
  triple (inv F hist l extra) (broadcast_checkpoint (P := P) (U := U) (Bt := Bt) (Sig := Sig) content)
    (fun signed s => inv F hist l extra s /\ (signed = false -> refused p)).
Proof.
  intros Hp. unfold broadcast_checkpoint, process_new_checkpoint. qbind.
  eapply triple_bind; [apply sign_refused|]. intros [m|e]; cbn.
  - eapply triple_bind; [apply (broadcast_triple MCheckpoint); simple_message|]. intros ?. by apply triple_ret.
  - apply triple_pre. intros s0 [Hs0 (u & u' & Hu)]. assert (refused p) as Hrf by by exists content, u, e, u'.
    apply (triple_weaken _ (inv F hist l extra) _ _ (fun _ => inv F hist l extra)); [inv_quiet|by intros s <-|done].
Qed.

(** A replica between two messages. *)
Definition good hist (s : Replica) : Prop := exists l, inv anywhere hist l [] s.

Lemma mb_triple_good {A} (m : St Replica A) hist :
  (forall l v last, triple (inv (at_view v last) hist l []) m (fun _ => good hist)) ->
  triple (good hist) m (fun _ => good hist).
Proof. intros Hm s [l [Hs _]]. apply (Hm l (mb_view_state s) (mb_counter_last_accepted_prep s)). by split. Qed.

Lemma good_of_inv {A} (m : St Replica A) F hist l :
  triple (inv F hist l []) m (fun _ => inv F hist l []) -> triple (inv F hist l []) m (fun _ => good hist).
Proof. intros Hm. eapply triple_weaken; [exact Hm|done|]. intros _ s [Hs _]. by exists l. Qed.

Lemma good_inv {A} (m : St Replica A) hist :
  (forall F l, triple (inv F hist l []) m (fun _ => inv F hist l [])) -> triple (good hist) m (fun _ => good hist).
Proof. intros Hm. apply mb_triple_good. intros l v last. by apply good_of_inv. Qed.

Lemma good_quiet {A} (m : St Replica A) hist : runs quiet m -> triple (good hist) m (fun _ => good hist).
Proof. intros Hm. apply good_inv. intros F l. by apply runs_inv. Qed.

Lemma good_forget hist sent s : pa_known hist ⊆ sent -> good (know hist sent) s -> good hist s.
Proof. intros Hsub [l Hs]. exists l. by eapply inv_forget. Qed.

(** The rest of a method, once more is known to be sent. *)
Lemma triple_know {A} (m : St Replica A) hist sent (I : Replica -> Prop) :
  pa_known hist ⊆ sent -> triple I m (fun _ => good (know hist sent)) -> triple I m (fun _ => good hist).
Proof. intros Hsub Hm. eapply triple_weaken; [exact Hm|done|]. intros a s. by apply good_forget. Qed.

Lemma good_ret {A} (a : A) F hist l : triple (inv F hist l []) (mret a) (fun _ => good hist).
Proof. apply good_of_inv. ret. Qed.

(** A journal entry, one that noted the prepare and one that did not. *)
Lemma journal_requests_snoc l e : journal_requests (l ++ [e]) = journal_requests l ++ preps_requests (entry_preps e).
Proof. unfold journal_requests, preps_requests. by rewrite !fmap_app, concat_app, fmap_app, concat_app; cbn; rewrite app_nil_r. Qed.

Lemma commit_requests l p msgs :
  journal_requests (l ++ [Committed p msgs]) = journal_requests l ++ rb_batch (pr_request_batch (us_data p)).
Proof. rewrite journal_requests_snoc. unfold preps_requests. cbn. by rewrite app_nil_r. Qed.

Definition above (last : option N) (k : N) : Prop := option_ltb last (Some k) = true.

Lemma above_trans last k k' : above last k -> (k < k')%N -> above (Some k) k'.
Proof. unfold above, option_ltb, option_leb. intros _ Hlt. rewrite negb_true_iff, N.leb_gt. lia. Qed.

(** The prepares the collector hands out: committed in the view, ascending, above
    the last one and below those that stay. *)
Definition ready_to_accept sent view (last : option N) (acc : list (Prep * list Msg)) (keys : list N) : Prop :=
  Forall (fun e => committed_by sent e.1 e.2 /\ pr_view (us_data e.1) = view) acc
  /\ StronglySorted N.lt (((fun e => counter e.1) <$> acc) ++ keys)
  /\ Forall (above last) (((fun e => counter e.1) <$> acc) ++ keys).

Lemma set_last_inv iv last hist l (p : Prep) msgs :
  committed_by (pa_known hist) p msgs -> pr_view (us_data p) = iv_view iv -> above last (counter p) ->
  Forall (N.lt (counter p)) (cl_prepare (iv_collector_commits iv)).*1 ->
  triple (inv (at_view (VS_InView iv) last) hist l (rb_batch (pr_request_batch (us_data p))))
    (mb_counter_last_accepted_prep <~ Some (counter p))
    (fun _ => inv (at_view (VS_InView iv) (Some (counter p))) hist (l ++ [Committed p msgs]) []).
Proof.
  intros Hc Hv Hab Hkeys s [Hs [Hvs Hlast]]. unfold modify. split; [|done].
  destruct Hs as [? ? ? ? ? ? ? ? ? Hx Hview ?]. constructor; cbn in *; try done.
  - by rewrite commit_requests, app_nil_r.
  - rewrite Hvs, Hlast in *. destruct Hview as [Hj (ms & Hms & Hheard & Hk)]. split.
    + eapply journal_commit; eauto using committed_by_mono.
    + exists ms. split_and!; [done..|]. eapply Forall_impl; [exact Hkeys|]. intros k Hk'. by eapply (above_trans last).
Qed.

Lemma unsigned_good iv last hist l (p : Prep) msgs s :
  refused p -> committed_by (pa_known hist) p msgs -> pr_view (us_data p) = iv_view iv -> above last (counter p) ->
  inv (at_view (VS_InView iv) last) hist l (rb_batch (pr_request_batch (us_data p))) s -> good hist s.
Proof.
  intros Hrf Hc Hv Hab [Hs [Hvs Hlast]]. exists (l ++ [Committed p msgs]). split; [|done].
  destruct Hs as [? ? ? ? ? ? ? ? ? Hx Hview ?]. constructor; cbn in *; try done.
  - by rewrite commit_requests, app_nil_r.
  - rewrite Hvs, Hlast in *. destruct Hview as [Hj Hcol]. split; [|done].
    eapply journal_refused; eauto using committed_by_mono.
Qed.

Lemma accept_all_good stop acc : forall iv last hist l,
  ready_to_accept (pa_known hist) (iv_view iv) last acc (cl_prepare (iv_collector_commits iv)).*1 ->
  triple (inv (at_view (VS_InView iv) last) hist l []) (accept_all (U := U) (Bt := Bt) clock stop acc) (fun _ => good hist).
Proof.
  induction acc as [|[p msgs] acc IH]; intros iv last hist l (Hacc & Hsort & Habove); cbn [accept_all]; [apply good_ret|].
  apply list.Forall_cons in Hacc as [[Hc Hv] Hacc]. cbn in Hsort, Habove. apply StronglySorted_inv in Hsort as [Hsort Hlt].
  apply list.Forall_cons in Habove as [Hab Habove]. cbn in Hc, Hv.
  eapply triple_bind; [apply accept_acceptable_inv|]. intros content. apply triple_pre. intros s0 [Hs0 Ho].
  eapply triple_weaken; [|intros s <-; exact Hs0|intros r s Hr; exact Hr].
  eapply (triple_bind _ _ _ (fun signed s => inv (at_view (VS_InView iv) last) hist l (rb_batch (pr_request_batch (us_data p))) s
                                             /\ (signed = false -> refused p))).
  { destruct content as [content|]; [|by apply triple_ret]. by apply broadcast_checkpoint_inv, Ho. }
  intros signed. apply triple_pre. intros s1 [Hs1 Hrf]. eapply triple_weaken; [|intros s <-; exact Hs1|intros r s Hr; exact Hr].
  destruct (negb signed && stop) eqn:Hstop.
  - apply andb_prop in Hstop as [Hsigned%negb_true_iff _]. apply triple_ret. intros s Hs. by eapply unsigned_good; [apply Hrf|..].
  - eapply triple_bind; [apply set_last_inv; try done; by apply Forall_app in Hlt as [_ ?]|]. intros ?. apply IH.
    split_and!; [done|done|]. eapply Forall_impl; [exact Hlt|]. intros k Hk. by eapply (above_trans last).
Qed.

Lemma option_ltb_leb a b : option_leb b a = false -> option_ltb a b = true.
Proof. unfold option_ltb. by intros ->. Qed.

Lemma collect_commit_inv iv last (v : VMsg) hist l :
  complete (pa_known hist) (MView v) -> ViewPeerMessage_view v = iv_view iv -> above last (counter (msg_prepare v)) ->
  triple (inv (at_view (VS_InView iv) last) hist l []) (collect_commit (U := U) (Bt := Bt) iv v)
    (fun acc s => exists c sent, pa_known hist ⊆ sent
       /\ inv (at_view (VS_InView (mkInView (iv_view iv) (iv_has_requested_view_change iv) c)) last) (know hist sent) l [] s
       /\ ready_to_accept sent (iv_view iv) last acc (cl_prepare c).*1).
Proof.
  intros Hv Hview Hab s [Hs [Hvs Hlast]]. unfold collect_commit. rewrite (ci_config _ _ _ _ _ Hs : mb_config s = cfg).
  destruct Hs as [? ? ? ? ? ? ? ? ? ? Hvi Hkn]. cbn in *. rewrite Hvs, Hlast in Hvi. destruct Hvi as [Hj (ms & Hms & Hheard & Hk)].
  destruct (collect_commits_spec ms (iv_collector_commits iv) v cfg Hms) as (acc & c & -> & Hinv & Hacc & Heq). cbn.
  pose proof (collect_commits_sorted _ _ _ _ _ Hms Heq) as Hsort.
  assert (Forall (above last) (((fun e => counter e.1) <$> acc) ++ (cl_prepare c).*1)) as Habove.
  { assert (((fun e => counter e.1) <$> acc) ++ (cl_prepare c).*1
            = (btree_insert (counter (msg_prepare v)) (msg_prepare v) (cl_prepare (iv_collector_commits iv))).*1) as ->.
    { rewrite Heq, fmap_app, <-list_fmap_compose. done. }
    apply list.Forall_forall. intros k [-> | Hin]%btree_insert_keys; [done|]. rewrite list.Forall_forall in Hk. by apply Hk. }
  assert (Forall (fun v0 => complete (sent_now hist s) (MView v0) /\ ViewPeerMessage_view v0 = iv_view iv) (ms ++ [v])) as Hms'.
  { apply Forall_app. split; [done|]. constructor; [by split; [eapply complete_mono|]|constructor]. }
  exists c, (sent_now hist s). split; [done|]. split.
  - split; [|done]. constructor; cbn; try done. rewrite Hlast. split; [done|]. exists (ms ++ [v]). split_and!; [done..|].
    by apply Forall_app in Habove as [_ ?].
  - split_and!; [|done|done]. eapply Forall_impl; [exact Hacc|]. intros [p msgs] (Hq & Hfor & w & Hw & Hp). cbn in Hp, Hfor, Hq. cbn [fst snd].
    rewrite list.Forall_forall in Hms'.
    assert (pr_view (us_data p) = iv_view iv) as Hpv by (rewrite <-Hp; destruct (Hms' w Hw) as [_ <-]; by destruct w).
    split; [|done]. split_and!; [done| |].
    + eapply Forall_impl; [exact Hfor|]. intros m (u & -> & Hu & Hcu). destruct (Hms' u Hu) as [? Hvu]. exists u.
      split_and!; [done|done| |done]. cbn. congruence.
    + rewrite <-Hp. by apply complete_prepare, (Hms' w Hw).
Qed.

(** ** Prepares and commits *)

Lemma sendable_commit sent (p : Prep) :
  complete sent (MView (VPrepare p)) -> sendable sent (fun m => MView (VCommit m)) (mkCommit (cfg_id cfg) p).
Proof. intros Hp m Hm. split_and!; [done| |done]. apply commit_carries. by rewrite Hm. Qed.

Lemma process_prepare_good (p : Prep) iv last hist l :
  complete (pa_known hist) (MView (VPrepare p)) -> pr_view (us_data p) = iv_view iv ->
  triple (inv (at_view (VS_InView iv) last) hist l []) (process_prepare (U := U) (Bt := Bt) clock p) (fun _ => good hist).
Proof.
  intros Hp Hv. unfold process_prepare. apply view_pre, last_pre. destruct (option_leb _ last) eqn:Hle; [apply good_ret|].
  apply config_pre. eapply (triple_bind _ _ _ (fun _ => inv (at_view (VS_InView iv) last) hist l [])).
  { destruct (negb _); [|ret]. apply (sign_broadcast (fun m => MView (VCommit m))); [by apply sendable_commit|ret|].
    intros e. inv_quiet. }
  intros committed. destruct (negb committed); [apply good_ret|].
  eapply triple_bind; [by apply (collect_commit_inv iv last (VPrepare p)); try done; apply option_ltb_leb|].
  intros acc. apply triple_pre. intros s0 (c & sent & Hsub & Hs0 & Hacc). apply (triple_know _ _ _ _ Hsub).
  eapply triple_weaken; [by apply (accept_all_good true acc (mkInView (iv_view iv) (iv_has_requested_view_change iv) c) last (know hist sent) l)|by intros s <-|done].
Qed.

Lemma process_commit_good (m : Commit P Sig Att) iv last hist l :
  complete (pa_known hist) (MView (VCommit m)) -> pr_view (us_data (co_prepare (us_data m))) = iv_view iv ->
  triple (inv (at_view (VS_InView iv) last) hist l []) (process_commit (U := U) (Bt := Bt) clock m) (fun _ => good hist).
Proof.
  intros Hm Hv. unfold process_commit. apply view_pre, last_pre. destruct (option_leb _ last) eqn:Hle; [apply good_ret|].
  eapply triple_bind; [by apply (collect_commit_inv iv last (VCommit m)); try done; apply option_ltb_leb|].
  intros acc. apply triple_pre. intros s0 (c & sent & Hsub & Hs0 & Hacc). apply (triple_know _ _ _ _ Hsub).
  eapply triple_weaken; [by apply (accept_all_good false acc (mkInView (iv_view iv) (iv_has_requested_view_change iv) c) last (know hist sent) l)|by intros s <-|done].
Qed.

(** ** Checkpoints *)

Lemma zoom_quiet {T A} (get : Replica -> T) put (m : St T A) :
  (forall t, m t <> NoFuel) -> (forall s t, core (put s t) = core s) -> runs quiet (zoom get put m).
Proof. intros Hf Hc s. apply triple_zoom; [done|]. intros ? a t <- _. apply Hc. Qed.

(** A call on the request processor that keeps the clients. *)
Lemma zoom_quiet_some {A} (m : St (RequestProcessor P Att Bt) A) :
  (forall r, match m r with
             | Val (_, r') => rp_clients_state r' = rp_clients_state r
             | Panic => True
             | NoFuel => False
             end) -> runs quiet (processor_state_call (U := U) (Sig := Sig) m).
Proof.
  intros Hm s ? <-. unfold processor_state_call, zoom. specialize (Hm (mb_request_processor s)).
  destruct (m _) as [[a r]| |]; cbn; [|done|done]. unfold quiet, core. cbn. by rewrite Hm.
Qed.

Lemma truncate_log_inv sent cert (log : list Msg) next b :
  log_inv sent b next log -> log_inv sent true next (truncate_log cert log).
Proof.
  intros [Hown (lo & Hlo & Hr & _)]. unfold truncate_log. destruct (list_find _ log) as [[i m]|]; [|by split; [|exists lo]].
  split.
  - apply list.Forall_forall. intros x [_ Hx]%list_elem_of_filter. rewrite list.Forall_forall in Hown. by apply Hown.
  - exists (N.min next (N.max lo (counter m + 1))). split_and!; [lia| |done]. by apply range_filter.
Qed.

(** The invariant once the checkpoint is noted. *)
Definition with_cert cert (s : Replica) : Replica := s.[mb_last_checkpoint_cert := Some cert].

Lemma quiet_cert {A} (m : St Replica A) cert F hist l extra :
  runs quiet m -> triple (fun s => inv F hist l extra (with_cert cert s)) m (fun _ s => inv F hist l extra (with_cert cert s)).
Proof.
  intros Hm. eapply runs_triple; [exact Hm|]. intros s s' Hq.
  unfold inv, inv_at, with_cert, core in *. unfold quiet, core in Hq. cbn in *. injection Hq as -> -> -> -> -> -> -> -> -> _ -> -> -> ->.
  done.
Qed.

Lemma answer_recovery_quiet cert r : runs quiet (answer_recovery (P := P) (U := U) (Sig := Sig) (Att := Att) (Bt := Bt) cert r).
Proof. unfold answer_recovery. quiet_tac. Qed.
#[local] Hint Resolve answer_recovery_quiet : runs.

Lemma CollectorMessages_fuel {K M} `{Countable K} (msg : M) from (key : K) c : CollectorMessages_collect msg from key c <> NoFuel.
Proof. unfold CollectorMessages_collect. by repeat case_match. Qed.
Lemma retrieve_fuel (msg : Checkpoint Sig Att) config c : retrieve_collected_checkpoints msg config c <> NoFuel.
Proof.
  unfold retrieve_collected_checkpoints, CollectorMessages_retrieve, mbind, St_bind. by repeat case_match.
Qed.

Lemma process_checkpoint_inv (m : Checkpoint Sig Att) F hist l extra :
  triple (inv F hist l extra) (process_checkpoint (P := P) (U := U) (Bt := Bt) m) (fun _ => inv F hist l extra).
Proof.
  unfold process_checkpoint. apply quiet_bind; [apply zoom_quiet; [intros t; apply CollectorMessages_fuel|done]|intros amount].
  apply config_self_pre. destruct (_ <=? _)%N; [ret|].
  apply quiet_bind; [apply zoom_quiet; [intros t; apply retrieve_fuel|done]|intros cert]. destruct cert as [cert|]; [|ret].
  eapply (triple_bind _ _ _ (fun _ s => inv F hist l extra (with_cert cert s))).
  { apply triple_modify. intros s [Hs HF]. split; [|done]. destruct Hs. constructor; cbn in *; try done. by eapply truncate_log_inv. }
  intros ?. eapply triple_bind; [apply quiet_cert; quiet_tac|]. intros awaiting.
  eapply triple_bind; [apply quiet_cert; quiet_tac|]. intros ?.
  eapply triple_bind; [apply quiet_cert; quiet_tac|]. intros ?. by apply triple_modify.
Qed.

(** ** View changes *)

Lemma set_change_inv x F hist l extra :
  triple (inv F hist l extra) (mb_view_state <~ VS_ChangeInProgress x)
    (fun _ s => exists last, inv (at_view (VS_ChangeInProgress x) last) hist l extra s).
Proof.
  intros s [Hs _]. exists (mb_counter_last_accepted_prep s). split; [|done].
  destruct Hs as [? ? ? ? ? ? ? ? ? ? Hv ?]. constructor; cbn in *; try done.
  destruct (mb_view_state s); [destruct Hv as [? _]; eauto|done].
Qed.

Lemma of_to_no_log (m : Msg) y : of_log (UsigMessage_to_no_log m) = Some y -> y = m.
Proof. by destruct m; cbn; intros [= <-]. Qed.

Lemma counter_no_log (m : Msg) : counter (UsigMessage_to_no_log m) = counter m.
Proof. by destruct m. Qed.

Lemma log_sound_intro (vc : ViewChange P Sig Att) c lo :
  counter vc = c -> (lo <= c)%N -> counter <$> message_log (vc_variant (us_data vc)) = range lo c ->
  (vc_checkpoint_cert (us_data vc) = None -> lo = 0%N) -> log_sound (MViewChange vc).
Proof. intros <- ? ? ?. by exists lo. Qed.

(** The replica's own view change: its log as it is when it signs. *)
Lemma sign_view_change_inv next_view F hist l extra Q k2 :
  (forall e, runs quiet (k2 e)) -> (forall s, inv F hist l extra s -> Q s) ->
  triple (inv F hist l extra)
    (checkpoint ← self mb_last_checkpoint_cert; log ← self mb_sent_usig_msgs;
     r ← sign (ViewChangeContent_new (cfg_id cfg) next_view checkpoint log);
     match r with Ok vc => broadcast (PUsig (MViewChange vc)) | Err e => k2 e end)
    (fun _ => Q).
Proof.
  intros Hk HQ s Hs. unfold mbind at 1, St_bind at 1, self at 1. unfold mbind at 1, St_bind at 1, self at 1.
  unfold mbind, St_bind, sign, zoom, UsigSigned_sign. cbn.
  set (data := ViewChangeContent_new _ _ _ _).
  pose proof (us_sign_fuel (mb_usig s) (sha256 (hash_content data))) as Hf.
  destruct (us_sign _ _) as [[[sig|e] u]| |] eqn:Hsig; cbn; try done.
  - apply us_sign_ok in Hsig as [Hc Hn]. apply HQ. destruct Hs as [Hs HF]. split; [|done].
    set (vc := mkSigned data sig : ViewChange P Sig Att).
    assert (counter vc = us_next (mb_usig s)) as Hcvc by exact Hc.
    destruct (ci_log _ _ _ _ _ Hs) as [Hown (lo & Hlo & Hr & Hz)]. cbn in Hown, Hlo, Hr, Hz. rewrite N.sub_0_r in *.
    destruct (send_core _ _ _ _ _ (MViewChange vc) Hs) as (Hsub & ? & ? & ? & ? & ? & ?).
    { apply view_change_carries. intros x m Hx Hm. cbn in Hx. apply list_elem_of_fmap in Hx as (y & -> & Hy).
      apply of_to_no_log in Hm as ->. rewrite list.Forall_forall in Hown. by apply Hown. }
    { apply (log_sound_intro _ _ lo Hcvc); [done| |].
      - cbn. rewrite <-list_fmap_compose, <-Hr. apply list_fmap_ext. intros i x _. apply counter_no_log.
      - intros Hnone. apply Hz. cbn in Hnone. by rewrite Hnone. }
    destruct Hs as [? ? ? _ ? ? ? _ [Hpa Hcs] ? ? ?]. cbn in *. rewrite N.sub_0_r in *.
    constructor; cbn; try done; try lia.
    + rewrite N.sub_0_r, Hn. split; [done|].
      exists lo. split_and!; [lia| |done]. rewrite fmap_app, Hr, range_snoc by done. cbn. by rewrite <-Hcvc.
    + rewrite N.sub_0_r, Hn. split; [lia|]. unfold usig_counters in *. rewrite omap_app, Hcs, range_snoc by done.
      cbn. by rewrite <-Hcvc.
  - apply us_sign_err in Hsig.
    assert (inv F hist l extra s.[mb_usig := u]) as Hs'.
    { destruct Hs as [Hs HF]. split; [|done]. unfold core in *. cbn in *. by rewrite Hsig. }
    pose proof (runs_inv (k2 e) F hist l extra 0 (Hk e) _ Hs') as Hr. cbn in Hr.
    destruct (k2 e _) as [[a s']| |]; [by apply HQ|done|done].
Qed.

Lemma process_req_view_change_good from req hist :
  triple (good hist) (process_req_view_change (P := P) (U := U) (Sig := Sig) (Att := Att) (Bt := Bt) from req) (fun _ => good hist).
Proof.
  apply mb_triple_good. intros l v last. unfold process_req_view_change. apply view_pre.
  destruct (match v with VS_InView _ => _ | VS_ChangeInProgress _ => _ end); [apply good_ret|].
  apply quiet_bind; [by apply zoom_quiet|intros amount]. apply config_pre. destruct (_ <=? _)%N; [apply good_ret|].
  destruct (match v with VS_InView _ => _ | VS_ChangeInProgress _ => _ end); [apply good_ret|].
  eapply triple_bind; [apply set_change_inv|]. intros ?. apply triple_pre. intros s0 [last' Hs0].
  eapply triple_weaken; [|intros s <-; exact Hs0|intros r s Hr; exact Hr].
  qbind. apply config_pre. apply sign_view_change_inv; [intros e; quiet_tac|]. intros s [Hs _]. by exists l.
Qed.

Lemma collect_vc_inv (vc : ViewChange P Sig Att) F hist l extra :
  complete (pa_known hist) (MViewChange vc) -> triple (inv F hist l extra) (collect_vc (U := U) (Bt := Bt) vc) (fun _ => inv F hist l extra).
Proof.
  intros Hvc s [Hs HF]. apply (complete_mono _ _ _ (ci_known _ _ _ _ _ Hs)) in Hvc. unfold collect_vc, zoom, collect_view_change.
  destruct (default ∅ _ !! _) as [m0|] eqn:E; cbn; (split; [|done]); destruct Hs as [? ? ? ? ? ? Hvcs ? ? ? ? ?]; constructor; cbn in *; try done; unfold CollectorViewChanges in *.
  - intros view m from x. destruct (decide (view = vc_next_view (us_data vc))) as [->|Hne].
    + rewrite lookup_insert_eq. intros [= <-] Hx. destruct (_ !! vc_next_view (us_data vc)) eqn:E2; [by eapply Hvcs|done].
    + rewrite lookup_insert_ne by done. apply Hvcs.
  - intros view m from x. destruct (decide (view = vc_next_view (us_data vc))) as [->|Hne].
    + rewrite lookup_insert_eq. intros [= <-]. destruct (decide (from = vc_origin (us_data vc))) as [->|Hne].
      * rewrite lookup_insert_eq. by intros [= <-].
      * rewrite lookup_insert_ne by done. intros Hx. destruct (_ !! vc_next_view (us_data vc)) eqn:E2; [by eapply Hvcs|done].
    + rewrite lookup_insert_ne by done. apply Hvcs.
Qed.

Lemma retrieve_vc_inv (vc : ViewChange P Sig Att) F hist l extra :
  triple (inv F hist l extra) (retrieve_vc (U := U) (Bt := Bt) vc)
    (fun r s => exists sent, pa_known hist ⊆ sent /\ inv F (know hist sent) l extra s
       /\ forall vcs, r = Some vcs -> Forall (fun x => complete sent (MViewChange x)) vcs).
Proof.
  unfold retrieve_vc. apply config_self_pre. intros s [Hs HF]. unfold zoom, retrieve_collected_view_changes.
  destruct Hs as [? ? ? ? ? ? Hvcs ? ? ? ? Hk]. cbn in *. unfold CollectorViewChanges in *.
  destruct ((mb_collector_vc s : gmap N (gmap N (ViewChange P Sig Att))) !! vc_next_view (us_data vc)) as [m|] eqn:E; cbn;
    [|by exists (sent_now hist s); split; [|split; [split; [constructor|]|]]].
  destruct (_ <=? _)%N; cbn; exists (sent_now hist s); (split; [exact Hk|]); [by split; [split; [constructor|]|]|].
  split; [split; [constructor|]|]; cbn; try done; unfold CollectorViewChanges in *.
  - intros view m' from x Hm' Hx. eapply Hvcs; [|exact Hx]. by apply lookup_delete_Some in Hm' as [_ ?].
  - intros vcs [= <-]. apply list.Forall_forall. intros x ([from y] & -> & Hy)%list_elem_of_fmap.
    apply elem_of_hash_iter in Hy. by eapply Hvcs.
Qed.

Lemma start_view_change_timeout_quiet :
  runs quiet (start_view_change_timeout (P := P) (U := U) (Sig := Sig) (Att := Att) (Bt := Bt)).
Proof. unfold start_view_change_timeout. quiet_tac. Qed.
#[local] Hint Resolve start_view_change_timeout_quiet : runs.

Lemma process_view_change_good (vc : ViewChange P Sig Att) hist :
  complete (pa_known hist) (MViewChange vc) -> triple (good hist) (process_view_change (U := U) (Bt := Bt) vc) (fun _ => good hist).
Proof.
  intros Hvc. apply mb_triple_good. intros l v last. unfold process_view_change. apply view_pre, config_pre.
  destruct v as [iv|cip].
  - destruct (_ <=? _)%N; [apply good_ret|]. eapply triple_bind; [by apply collect_vc_inv|]. intros amount.
    destruct (_ <=? _)%N; [apply good_ret|]. eapply triple_bind; [apply set_change_inv|]. intros ?. apply triple_pre.
    intros s0 [last' Hs0]. eapply triple_weaken; [|intros s <-; exact Hs0|intros r s Hr; exact Hr].
    eapply triple_bind; [apply retrieve_vc_inv|]. intros r.
    apply triple_pre. intros s1 (sent & Hsub & Hs1 & _). apply (triple_know _ _ _ _ Hsub).
    eapply triple_weaken; [apply good_of_inv, runs_inv, start_view_change_timeout_quiet|intros s <-; exact Hs1|done].
  - eapply triple_bind; [by apply collect_vc_inv|]. intros amount. destruct (_ <? _)%N; [apply good_ret|].
    destruct (_ <=? _)%N; [apply good_ret|]. eapply triple_bind; [apply retrieve_vc_inv|]. intros r.
    apply triple_pre. intros s0 (sent & Hsub & Hs0 & Hr). apply (triple_know _ _ _ _ Hsub). eapply triple_weaken; [|intros s <-; exact Hs0|intros r' s Hr'; exact Hr'].
    apply config_self_pre. qbind. destruct (negb _); [apply good_of_inv; inv_quiet|].
    apply triple_lift_pre; [apply unwrap_fuel|]. intros vcs Hv. apply config_pre. apply good_of_inv.
    apply (sign_broadcast_last (fun m => MNewView (mkNewView m))); [|intros e; quiet_tac].
    intros m Hm. split_and!; [done| |done]. apply new_view_carries.
    assert (nvc_view_changes (nv_certificate (nv_data (mkNewView m))) = vcs) as ->
      by exact (f_equal (fun d => nvc_view_changes (nv_certificate d)) Hm).
    apply list.Forall_forall. apply Hr. by destruct r; cbn in Hv; [injection Hv as ->|].
Qed.

(** ** New views *)

Lemma forward_recovery_quiet (req : Req) (m : Msg) i view :
  runs quiet (forward_recovery (U := U) (Bt := Bt) req m i view).
Proof.
  unfold forward_recovery. repeat runs_step; try done.
  unfold index_u64, unwrap. by case_match.
Qed.
#[local] Hint Resolve forward_recovery_quiet : runs.

(** The loop of [update_in_new_view] ends when its counter reaches the prepare's:
    without overflow checks it would wrap around for the greatest counter. *)
Context (Hoc : overflow_checks = true).

Lemma update_loop_spec counter_accepted fuel : forall next (heap : list Msg), update_fuel counter_accepted next <= fuel ->
  match update_in_new_view_loop fuel counter_accepted next heap with
  | Val (_, heap') => heap' ⊆ heap
  | Panic => True
  | NoFuel => False
  end.
Proof.
  unfold update_fuel. induction fuel as [|fuel IH]; intros next heap Hf; [lia|]. cbn.
  destruct (N.leb_spec next counter_accepted) as [Hle|]; [|done]. unfold Count_add_assign.
  destruct (u64_add next 1) as [next'| |] eqn:Hn; cbn; [|done|by apply u64_add_fuel in Hn].
  apply u64_add_inv in Hn as ->; [|done]. specialize (IH (next + 1)%N (MinHeap_pop (K := N) heap).2 ltac:(lia)).
  destruct (update_in_new_view_loop _ _ _ _) as [[? heap']| |]; [|done|done]. etransitivity; [exact IH|].
  intros x. apply MinHeap_pop_elem.
Qed.

Lemma update_in_new_view_early count :
  forall sent, triple (early_ok sent) (update_in_new_view count) (fun _ e => early_ok sent e /\ True).
Proof.
  intros sent e He. unfold update_in_new_view, mbind, St_bind, self, modify, lift. cbn -[update_in_new_view_loop update_fuel].
  pose proof (update_loop_spec count _ (oe_next_count e) (oe_unprocessed e) (Nat.le_refl _)) as Hl.
  destruct (update_in_new_view_loop _ _ _ _) as [[next heap]| |]; cbn; [|done|done]. split; [|done].
  unfold early_ok in *. cbn. rewrite list.Forall_forall in *. intros x Hx. by apply He, Hl.
Qed.

Lemma accept_unique_prep_inv (p : Prep) F hist l extra :
  complete (pa_known hist) (MView (VPrepare p)) ->
  triple (inv F hist l extra) (accept_unique_prep (U := U) (Bt := Bt) clock p)
    (fun _ => inv F hist l (extra ++ rb_batch (pr_request_batch (us_data p)))).
Proof.
  intros Hp. unfold accept_unique_prep. apply config_self_pre. qbind. eapply triple_bind; [by apply exec_call_inv|].
  intros [[[cp recs] batch] timeout]. set (extra' := extra ++ _).
  eapply (triple_weaken _ (inv F hist l extra')); [|intros s Hs; exact (proj1 Hs)|intros r s Hr; exact Hr].
  eapply triple_bind; [apply process_batching_output_inv|]. intros ?. apply config_pre.
  eapply (triple_bind _ _ _ (fun _ => inv F hist l extra')).
  { destruct (_ && _); [|by apply triple_ret]. eapply triple_bind; [apply sign_triple|]. intros r.
    eapply (triple_bind _ _ _ (fun _ => inv F hist l extra')); [|intros u; inv_quiet].
    destruct r as [m|e]; [by apply (broadcast_triple (fun m => MView (VCommit m))), sendable_commit|inv_quiet]. }
  intros ?. eapply triple_bind; [apply triple_for; intros [c r] _; apply handle_recovery_request_inv|]. intros ?.
  eapply triple_weaken; [apply (enforcer_call_inv _ _ (fun _ _ => True)); intros sent _; apply update_in_new_view_early
                        |intros s Hs; exact Hs|by intros ? s (? & ? & ?%inv_forget & _)].
Qed.

Lemma accept_unique_preps_inv (ps : list Prep) : forall F hist l extra,
  Forall (fun p => complete (pa_known hist) (MView (VPrepare p))) ps ->
  triple (inv F hist l extra) (st_for ps (accept_unique_prep (U := U) (Bt := Bt) clock))
    (fun _ => inv F hist l (extra ++ preps_requests ps)).
Proof.
  induction ps as [|p ps IH]; intros F hist l extra Hps; cbn [st_for].
  - unfold preps_requests. cbn. rewrite app_nil_r. ret.
  - apply list.Forall_cons in Hps as [Hp Hps]. eapply triple_bind; [by apply accept_unique_prep_inv|]. intros ?.
    unfold preps_requests. cbn. rewrite app_assoc. by apply IH.
Qed.

(** The prepares of a new view come from the logs of its view changes. *)
Definition new_view_log (nv : NewView P Sig Att) : list (UsigMessageV P Sig Att ViewChangeVariantNoLog) :=
  concat ((fun vc => message_log (vc_variant (us_data vc))) <$> nvc_view_changes (nv_certificate (nv_data nv))).

Lemma scan_log_elem last (ms : list (UsigMessageV P Sig Att ViewChangeVariantNoLog)) : forall acc (p : Prep),
  p ∈ (foldl (scan_log_message last) acc ms).1 -> p ∈ acc.1 \/ exists v, MView v ∈ ms /\ msg_prepare v = p.
Proof.
  induction ms as [|m ms IH]; intros acc p Hp; [by left|]. cbn in Hp.
  apply IH in Hp as [Hp|(v & Hv & <-)]; [|right; exists v; set_solver].
  destruct acc as [preps cp], m as [v| | |c]; cbn in Hp; try by left.
  - fold (msg_prepare v) in Hp. destruct (option_ltb _ _); [|by left]. cbn in Hp.
    rewrite MinHeap_push_Permutation in Hp. apply elem_of_cons in Hp as [->|Hp]; [|by left]. right. exists v. set_solver.
  - left. cbn. by repeat case_match; simplify_eq.
Qed.

Lemma unique_prepares_elem heap : forall last (p : Prep), p ∈ unique_prepares last heap -> p ∈ heap.
Proof.
  induction heap as [|q heap IH]; intros last p; cbn; [done|]. case_match; rewrite ?elem_of_cons.
  - intros [->|Hp]; [by left|]. right. by eapply IH.
  - intros Hp. right. by eapply IH.
Qed.

Lemma new_view_preps_complete sent (nv : NewView P Sig Att) last :
  complete sent (MNewView nv) ->
  Forall (fun p => complete sent (MView (VPrepare p))) (compute_new_view_state last (nv_certificate (nv_data nv))).2.
Proof.
  intros Hnv. apply list.Forall_forall. intros p. unfold compute_new_view_state.
  destruct (foldl _ _ _) as [preps cp] eqn:E. cbn. intros Hp%unique_prepares_elem%MinHeap_drain_elem.
  assert (p ∈ (foldl (scan_log_message last) ([], None) (new_view_log nv)).1) as Hp' by (unfold new_view_log; by rewrite E).
  apply scan_log_elem in Hp' as [Hin|(v & Hv & <-)]; [by apply elem_of_nil in Hin|]. apply complete_prepare.
  unfold new_view_log in Hv. apply list_elem_of_In, in_concat in Hv as (log & Hlog & Hv).
  apply list_elem_of_In in Hlog, Hv. apply list_elem_of_fmap in Hlog as (vc & -> & Hvc).
  eapply (complete_log _ vc); [|exact Hv|done]. eapply complete_part; [exact Hnv|]. eapply part_new_view; [done|apply part_self].
Qed.

(** The prepares of a journal are in messages received or sent. *)
Lemma journal_preps sent view last l :
  journal sent view last l -> Forall (fun p => complete sent (MView (VPrepare p))) (concat (entry_preps <$> l)).
Proof.
  induction 1 as [|view last l p msgs _ IH _ _ Hc|view last l p msgs _ IH _ _ Hc _|view last l nv _ IH Hnv]; [by apply Forall_nil_2|..];
    rewrite fmap_app, concat_app; cbn; rewrite ?app_nil_r; apply Forall_app; (split; [done|]).
  - constructor; [apply Hc|constructor].
  - constructor; [apply Hc|constructor].
  - by apply new_view_preps_complete.
Qed.

(** Adopting a view: its prepares are executed, and its message is the last one. *)
Lemma set_view_inv view ip last hist l extra :
  triple (inv (at_view (VS_ChangeInProgress ip) last) hist l extra)
    (mb_view_state <~ VS_InView (mkInView view false CollectorCommits_new))
    (fun _ s => exists s0, inv (at_view (VS_ChangeInProgress ip) last) hist l extra s0
                           /\ s = s0.[mb_view_state := VS_InView (mkInView view false CollectorCommits_new)]).
Proof. intros s Hs. exists s. done. Qed.

Lemma adopt_inv (nv : NewView P Sig Att) ip last hist l s0 :
  let preps := (compute_new_view_state last (nv_certificate (nv_data nv))).2 in
  let v := VS_InView (mkInView (nv_next_view (nv_data nv)) false CollectorCommits_new) in
  complete (pa_known hist) (MNewView nv) ->
  inv (at_view (VS_ChangeInProgress ip) last) hist l (preps_requests preps) s0 ->
  inv (at_view v (Some (counter nv))) hist (l ++ [Adopted nv preps]) []
    s0.[mb_view_state := v].[mb_counter_last_accepted_prep := Some (counter nv)].
Proof.
  intros preps v Hh [Hs [Hv Hlast]]. split; [|done]. destruct Hs as [? ? ? ? ? ? ? ? ? Hx Hview ?].
  constructor; cbn in *; try done.
  - rewrite app_nil_r, journal_requests_snoc. done.
  - rewrite Hv, Hlast in Hview. destruct Hview as [view Hj]. split; [eapply journal_adopt; eauto using complete_mono|].
    exists []. split_and!; [apply commits_inv_new|constructor|constructor].
Qed.

Lemma update_finished_quiet view :
  runs quiet (mb_replicas_state <~> fmap (update_after_finished_new_view view) : St Replica ()).
Proof.
  apply runs_modify. intros s. unfold quiet, core. cbn. f_equal. rewrite <-list_fmap_compose.
  by apply list_fmap_ext.
Qed.
#[local] Hint Resolve update_finished_quiet : runs.

Lemma finish_new_view_good (nv : NewView P Sig Att) ip last hist l :
  complete (pa_known hist) (MNewView nv) ->
  triple (inv (at_view (VS_ChangeInProgress ip) last) hist l
            (preps_requests (compute_new_view_state last (nv_certificate (nv_data nv))).2))
    (finish_new_view (U := U) (Bt := Bt) (nv_next_view (nv_data nv)) (counter nv)) (fun _ => good hist).
Proof.
  intros Hh. unfold finish_new_view. qbind. eapply triple_bind; [apply set_view_inv|]. intros ?.
  set (F := at_view (VS_InView (mkInView (nv_next_view (nv_data nv)) false CollectorCommits_new)) (Some (counter nv))).
  set (l' := l ++ [Adopted nv (compute_new_view_state last (nv_certificate (nv_data nv))).2]).
  eapply (triple_bind _ _ _ (fun _ => inv F hist l' [])).
  { apply triple_modify. intros s (s0 & Hs0 & ->). by eapply adopt_inv. }
  intros ?. apply config_self_pre. qbind. apply good_of_inv.
  eapply (triple_bind _ _ _ (fun _ => inv F hist l' [])).
  - destruct (negb _); [ret|]. qbind. destruct (is_nil _); [ret|].
    apply (sign_broadcast (fun m => MView (VPrepare m))); [simple_message|ret|intros e; inv_quiet].
  - intros finished. destruct (negb finished); [ret|]. inv_quiet.
Qed.

Lemma process_new_view_good (nv : NewView P Sig Att) hist :
  complete (pa_known hist) (MNewView nv) -> triple (good hist) (process_new_view (U := U) (Bt := Bt) clock nv) (fun _ => good hist).
Proof.
  intros Hnv. apply mb_triple_good. intros l v last. unfold process_new_view.
  apply quiet_bind; [apply runs_inspect; intros s; apply NewViewCertificate_validate_fuel|intros ?]. apply view_pre.
  destruct v as [iv|ip]; [apply good_ret|]. destruct (_ <? _)%N; [apply good_ret|]. apply last_pre.
  pose proof (new_view_preps_complete _ nv last Hnv) as Hps. pose proof (finish_new_view_good nv ip last hist l Hnv) as Hfin.
  destruct (compute_new_view_state last _) as [cp preps]. cbn in Hps, Hfin. qbind. destruct (new_view_decision _ _).
  - qbind. eapply triple_bind; [apply (accept_unique_preps_inv preps _ _ _ [] Hps)|]. intros ?. exact Hfin.
  - apply good_ret.
  - apply good_of_inv. inv_quiet.
Qed.

(** ** USIG messages *)

Lemma CountChecker_next_fuel next count : CountChecker_next next count <> NoFuel.
Proof.
  unfold CountChecker_next, Count_add_assign. case_match; try done. apply outcome_bind_fuel; [apply u64_add_fuel|done].
Qed.

Lemma yield_loop_sub fuel : forall next (heap : list Msg), length heap < fuel ->
  match yield_loop fuel next heap with
  | Val (msgs, _, rest) => msgs ⊆ heap /\ rest ⊆ heap
  | Panic => True
  | NoFuel => False
  end.
Proof.
  induction fuel as [|fuel IH]; intros next heap Hf; [lia|]. cbn [yield_loop].
  destruct (MinHeap_peek heap) as [h|] eqn:Hp; [|by split; [apply list_subseteq_nil|]].
  assert (h ∈ heap) as Hh by (destruct heap; [done|]; injection Hp as ->; set_solver).
  pose proof (MinHeap_pop_elem heap) as Hsub. pose proof (MinHeap_pop_length heap) as Hlen.
  assert (length (MinHeap_pop (K := N) heap).2 < fuel) as Hf' by (rewrite Hlen; destruct heap; [done|cbn in *; lia]).
  pose proof (CountChecker_next_fuel next (counter h)) as Hcf. destruct (CountChecker_next _ _) as [[r next']| |]; cbn; [|done|done].
  destruct r as [[]|[]]; cbn; [specialize (IH next' _ Hf')|specialize (IH next _ Hf')|by split; [apply list_subseteq_nil|]].
  - destruct (yield_loop _ _ _) as [[[msgs n] rest]| |]; cbn; [|done|done]. set_solver.
  - destruct (yield_loop _ _ _) as [[[msgs n] rest]| |]; cbn; [|done|done]. set_solver.
Qed.

Lemma yield_early sent :
  triple (early_ok sent) yield_to_be_processed (fun msgs e => early_ok sent e /\ Forall (complete sent) msgs).
Proof.
  intros e He. unfold yield_to_be_processed, mbind, St_bind, self, modify, lift. cbn -[yield_loop].
  pose proof (yield_loop_sub (S (length (oe_unprocessed e))) (oe_next_count e) (oe_unprocessed e) ltac:(lia)) as Hy.
  destruct (yield_loop _ _ _) as [[[msgs n] rest]| |]; cbn; [|done|done]. unfold early_ok in *. cbn.
  rewrite !list.Forall_forall in *. destruct Hy as [Hm Hr]. split; intros x Hx; [by apply He, Hr|by apply He, Hm].
Qed.

Lemma push_to_handle_early sent (m : Msg) :
  complete sent m -> triple (early_ok sent) (push_to_handle m) (fun msgs e => early_ok sent e /\ Forall (complete sent) msgs).
Proof.
  intros Hm. unfold push_to_handle. eapply (triple_bind _ _ _ (fun _ => early_ok sent)).
  { destruct m; by (apply triple_ret || apply triple_modify). }
  intros ?. eapply (triple_bind _ _ _ (fun _ => early_ok sent)); [by apply triple_self|]. intros next.
  apply triple_lift_pre; [apply CountChecker_next_fuel|]. intros r _.
  eapply (triple_bind _ _ _ (fun _ => early_ok sent)); [by apply triple_modify|]. intros ?. destruct (r.1) as [_|[]].
  - eapply triple_bind; [apply yield_early|]. intros msgs. apply triple_ret. intros e [He Hmsgs]. split; [done|]. by constructor.
  - apply triple_ret. intros e He. by split; [|constructor].
  - eapply (triple_bind _ _ _ (fun _ => early_ok sent)); [apply triple_modify|intros u_; apply triple_ret; intros e He; by split; [|constructor]].
    intros e He. unfold early_ok in *. cbn -[MinHeap_push]. rewrite MinHeap_push_Permutation. by constructor.
Qed.

Lemma process_usig_message_ordered_good (m : Msg) hist :
  complete (pa_known hist) m -> triple (good hist) (process_usig_message_ordered (U := U) (Bt := Bt) clock m) (fun _ => good hist).
Proof.
  intros Hm. destruct m as [v|vc|nv|c]; cbn.
  - apply mb_triple_good. intros l vs last. apply view_pre. eapply triple_bind; [|intros u_; apply good_quiet; quiet_tac].
    destruct vs as [iv|cip]; [|apply good_ret].
    destruct (N.eqb_spec (ViewPeerMessage_view v) (iv_view iv)); [|apply good_ret].
    destruct v; [by apply process_prepare_good|by apply process_commit_good].
  - by apply process_view_change_good.
  - by apply process_new_view_good.
  - apply good_inv. intros F l. apply process_checkpoint_inv.
Qed.

Lemma enforcer_call_good {A} from (m : St (UsigMsgOrderEnforcer P Sig Att) A) (Q : list Msg -> A -> Prop) hist :
  (forall sent, pa_known hist ⊆ sent -> triple (early_ok sent) m (fun a e => early_ok sent e /\ Q sent a)) ->
  triple (good hist) (enforcer_call from m)
    (fun a s => exists sent, pa_known hist ⊆ sent /\ good (know hist sent) s /\ Q sent a).
Proof.
  intros Hm s [l Hs]. pose proof (enforcer_call_inv from m Q anywhere hist l [] Hm s Hs) as Hr.
  destruct (enforcer_call from m s) as [[a s']| |]; [|done|done]. destruct Hr as (sent & ? & ? & ?). exists sent. split_and!; [done|by exists l|done].
Qed.

Lemma process_all_good (ms : list Msg) hist :
  Forall (complete (pa_known hist)) ms -> triple (good hist) (st_for ms (process_usig_message_ordered (U := U) (Bt := Bt) clock)) (fun _ => good hist).
Proof.
  intros Hms. apply triple_for. intros m Hm. apply process_usig_message_ordered_good.
  rewrite list.Forall_forall in Hms. by apply Hms.
Qed.

Lemma enforce_good (m : Msg) hist :
  complete (pa_known hist) m -> triple (good hist) (enforce (U := U) (Bt := Bt) clock m) (fun _ => good hist).
Proof.
  intros Hm. unfold enforce. eapply triple_bind.
  { apply (enforcer_call_good _ _ (fun sent => Forall (complete sent))). intros sent Hsub.
    by eapply push_to_handle_early, complete_mono. }
  intros ms. apply triple_pre. intros s0 (sent & Hsub & Hs0 & Hms). apply (triple_know _ _ _ _ Hsub).
  eapply triple_weaken; [by apply (process_all_good ms (know hist sent))|by intros s <-|done].
Qed.

Lemma enforce_log_message_good x hist :
  (forall m, of_log x = Some m -> complete (pa_known hist) m) ->
  triple (good hist) (enforce_log_message (U := U) (Bt := Bt) clock x) (fun _ => good hist).
Proof.
  intros Hx. destruct x as [v|vc|nv|c]; cbn; try by apply enforce_good, Hx.
  eapply triple_weaken; [apply (enforcer_call_good _ _ (fun _ _ => True))|intros s Hs; exact Hs
                        |by intros ? s (? & ? & ?%good_forget & _)].
  intros sent _. by apply triple_ret.
Qed.

Lemma process_usig_message_body_good rec (m : Msg) hist :
  (forall nv vc, m = MNewView nv -> vc ∈ nvc_view_changes (nv_certificate (nv_data nv)) ->
     triple (good hist) (rec (MViewChange vc)) (fun _ => good hist)) ->
  complete (pa_known hist) m -> triple (good hist) (process_usig_message_body (U := U) (Bt := Bt) clock rec m) (fun _ => good hist).
Proof.
  intros Hrec Hm. unfold process_usig_message_body. eapply triple_bind; [|intros u_; by apply enforce_good].
  destruct m as [[p|c]|vc|nv|c].
  - by apply triple_ret.
  - by apply enforce_good, (complete_prepare _ (VCommit c)).
  - apply triple_for. intros x Hx. apply enforce_log_message_good. intros m Hx'. by eapply complete_log.
  - apply triple_for. intros vc Hvc. by eapply Hrec.
  - by apply triple_ret.
Qed.

Lemma process_usig_message_good (m : Msg) hist :
  complete (pa_known hist) m -> triple (good hist) (process_usig_message (U := U) (Bt := Bt) clock m) (fun _ => good hist).
Proof.
  intros Hm. apply process_usig_message_body_good; [|done]. intros nv vc -> Hvc.
  apply process_usig_message_body_good; [by intros ? ?|].
  eapply complete_part; [exact Hm|]. eapply part_new_view; [done|apply part_self].
Qed.

(** ** Peer messages *)

Lemma process_hello_message_quiet from att : runs quiet (process_hello_message (P := P) (U := U) (Sig := Sig) (Bt := Bt) from att).
Proof. unfold process_hello_message. quiet_tac. Qed.

Lemma next_client_req_id_fuel (r : RequestProcessor P Att Bt) c : next_client_req_id r c <> NoFuel.
Proof.
  unfold next_client_req_id. apply outcome_bind_fuel; [repeat case_match; by try apply u64_add_fuel|]. intros id _.
  generalize (rp_currently_processing_reqs r) as q. clear. intros q. revert id.
  induction q as [|e q IH]; intros id; cbn; [done|]. apply outcome_bind_fuel; [case_match; [apply u64_add_fuel|done]|].
  intros a _. apply IH.
Qed.

Lemma process_recovery_request_good from att nonce hist :
  triple (good hist) (process_recovery_request (P := P) (U := U) (Sig := Sig) (Bt := Bt) clock from att nonce) (fun _ => good hist).
Proof.
  apply good_inv. intros F l. unfold process_recovery_request. apply config_pre. destruct (_ =? _)%N; [ret|].
  apply quiet_bind; [apply runs_inspect; intros s; apply next_client_req_id_fuel|]. intros id.
  apply handle_internal_client_message_inv.
Qed.

Definition peer_complete sent (m : Peer) : Prop := match m with PUsig m => complete sent m | _ => True end.

Lemma not_recovering hist s : good hist s -> mb_recovering s = false /\ mb_recovering_nonce s = None.
Proof. intros (l & Hs & _). pose proof (ci_recovering _ _ _ _ _ Hs) as Hr. by injection Hr. Qed.

(** The nesting of [handle_recovery_reply] is never needed: the replica is not recovering. *)
Lemma process_peer_message_good fuel from (m : Peer) hist :
  0 < fuel -> peer_complete (pa_known hist) m -> triple (good hist) (process_peer_message (U := U) (Bt := Bt) clock fuel from m) (fun _ => good hist).
Proof.
  intros Hf Hm. destruct fuel as [|fuel]; [lia|]. destruct m as [att|req|m|att nonce|nonce storage cert|nonce m pending]; cbn [process_peer_message].
  1: apply good_quiet, process_hello_message_quiet.
  1: apply process_req_view_change_good.
  1: by apply process_usig_message_good.
  1: apply process_recovery_request_good.
  - intros s Hs. unfold process_recovery_reply, handle_recovery_reply, mbind, St_bind, self. cbn.
    destruct (validate_checkpoint_certificate _ _ _ _); [|done]. destruct (bool_decide _); [|done].
    by rewrite (proj1 (not_recovering _ _ Hs)).
  - intros s Hs. unfold process_forward_message, mbind, St_bind, self. cbn.
    destruct (_ =? _)%N; [done|]. by rewrite (proj2 (not_recovering _ _ Hs)).
Qed.

Lemma reflect_loop_good fuel : forall len hist s, good hist s ->
  match reflect_loop (U := U) (Bt := Bt) clock 2 fuel len s with Val (_, s') => good hist s' | _ => True end.
Proof.
  induction fuel as [|fuel IH]; intros len hist s Hs; [done|]. cbn [reflect_loop].
  unfold mbind at 1, St_bind at 1, self at 1. cbv beta zeta. destruct (Nat.eqb _ _); [done|].
  unfold mbind at 1, St_bind at 1, conf at 1, self at 1. cbv beta. unfold mbind at 1, St_bind at 1.
  destruct Hs as (l & Hs & _). destruct (inv_know anywhere hist l [] 0 s (conj Hs I)) as [Hsub Hkn].
  assert (good (know hist (sent_now hist s)) s) as Hs' by by exists l.
  assert (triple (good (know hist (sent_now hist s))) (st_for (drop len (no_broadcasts (mb_output s))) (process_peer_message (U := U) (Bt := Bt) clock 2 (Config_me (mb_config s))))
            (fun _ => good (know hist (sent_now hist s)))) as Hloop.
  { apply triple_for. intros m Hm. apply process_peer_message_good; [lia|]. destruct m as [| |m| | |]; try done.
    apply (ci_broadcasts _ _ _ _ _ Hs). cbn. rewrite <-(take_drop len (no_broadcasts (mb_output s))). apply elem_of_app. by right. }
  specialize (Hloop s Hs'). destruct (st_for _ _ s) as [[u s1]| |]; [|done|done]. by eapply IH, good_forget.
Qed.

End invariant.
