(* ===== verification/MbRun.v ===== *)
(** * MinBFT: runs of a replica

    [mb_run received outs s]: a replica was created, not as a recovering one, its
    public handlers were called with any requests, messages and timeouts, the USIG
    messages it received are [received], it returned the outputs [outs], and is now
    in state [s].  [mb_run_good] carries the invariant of [MbInvariant] over runs. *)

From Stdlib Require Import ZArith Lia.
From stdpp Require Import base list gmap sets numbers option sorting.
From S2P Require Import Prelude Triple Ids Heaps Requests MbUsig MbBase MbMessages MbOrder MbCollectors MbBatcher.
From S2P Require Import MbRequests MbReplica MbCertFacts MbCollectFacts MbRequestFacts MbInvariant.

Section run.
  Context {Pr : Profile} {P U Sig Att Bt : Type}.
  Context `{Hashbar P, Hashbar Sig, Hashbar Att} `{Digests} `{UsigLaws U Sig Att} `{EqDecision Att} `{HashOrderLaws}.
  Context `{BatcherLaws Bt P Att}.
  Context (clock : nat -> N).
  Local Abbreviation Msg := (UsigMessage P Sig Att).
  Local Abbreviation Replica := (MinBft P U Sig Att Bt).
  Local Abbreviation Out := (Output P Sig Att).
  Context (cfg : Config).

(** The USIG message in a peer message. *)
Definition usig_of (m : PeerMessage P Sig Att) : list Msg :=
  match pm_message m with PUsig m => [m] | _ => [] end.

Inductive mb_run : list Msg -> list Out -> Replica -> Prop :=
| run_new fuel usig nonce s o :
    us_next usig = 0%N -> MinBft_new clock fuel usig cfg false nonce = Val (Ok (s, o)) -> mb_run [] [o] s
| run_client fuel client request payload received outs s o s' :
    mb_run received outs s -> handle_client_message clock fuel client request payload s = Val (o, s') ->
    mb_run received (outs ++ [o]) s'
| run_message fuel from m received outs s o s' :
    mb_run received outs s -> handle_peer_message clock fuel from m s = Val (o, s') ->
    mb_run (received ++ usig_of m) (outs ++ [o]) s'
| run_timeout fuel t received outs s o s' :
    mb_run received outs s -> handle_timeout clock fuel t s = Val (o, s') ->
    mb_run received (outs ++ [o]) s'.

(** What the outputs of a run say: the responses, and the USIG messages and the
    counters sent. *)
Definition responses (outs : list Out) : list (N * WrappedRequestPayload P Att) := concat (ou_responses <$> outs).
Definition sent_messages (outs : list Out) : list Msg :=
  concat ((fun o => usig_messages (pm_message <$> ou_broadcasts o)) <$> outs).
Definition sent_counters (outs : list Out) : list N :=
  concat ((fun o => usig_counters (pm_message <$> ou_broadcasts o)) <$> outs).

Context (Hoc : overflow_checks = true) (received : list Msg).
Local Abbreviation inv := (MbInvariant.inv (U := U) (Bt := Bt) cfg received).
Local Abbreviation good := (MbInvariant.good (U := U) (Bt := Bt) cfg received).

(** ** Handlers *)

#[local] Arguments sent_by : simpl never.

(** The past of the next call. *)
Definition past_of (hist : Past) (s : Replica) : Past :=
  mkPast (pa_responses hist ++ no_responses (mb_output s)) (us_next (mb_usig s)) (sent_now hist s) [].

Lemma new_output_good hist s :
  good hist s ->
  good (past_of hist s) s.[mb_output := NotReflectedOutput_new (ready_for_client_requests s)].
Proof.
  intros (l & Hs & _). exists l. split; [|done]. destruct Hs as [? ? ? ? ? ? ? ? ? [Hl Hr Hst] ? ?].
  constructor; cbn in *; try done.
  - by intros m ?%not_elem_of_nil.
  - split; [lia|]. by rewrite range_nil by lia.
  - constructor; [done| |done]. by rewrite app_nil_r.
  - apply list_subseteq_nil.
Qed.

(** What holds of a handler's result: the invariant, and the output it returns. *)
Definition returns (hist : Past) (o : Out) (s : Replica) : Prop := good hist s /\ o = finish_output s.

Lemma handler_good hist fuel body s o s' :
  triple (good (past_of hist s)) body (fun _ => good (past_of hist s)) ->
  good hist s -> handler clock fuel body s = Val (o, s') -> returns (past_of hist s) o s'.
Proof.
  intros Hb Hs. unfold handler, new_output, reflect, mbind, St_bind, modify, self.
  specialize (Hb _ (new_output_good hist s Hs)). destruct (body _) as [[u s1]| |]; [|done|done].
  pose proof (reflect_loop_good clock cfg received Hoc fuel 0 (past_of hist s) s1 Hb) as Hr.
  destruct (reflect_loop _ _ _ _ s1) as [[u' s2]| |]; [|done|done]. intros [= <- <-]. done.
Qed.

Lemma back_off_quiet : runs quiet (back_off (P := P) (U := U) (Sig := Sig) (Att := Att) (Bt := Bt)).
Proof.
  unfold back_off. apply runs_update.
  - intros s. unfold Duration_mul. by repeat case_match.
  - intros s s'. unfold Duration_mul. by repeat case_match; cbn; intros [= <-].
Qed.

Lemma set_requested_inv iv b last hist l extra :
  triple (inv (at_view (VS_InView iv) last) hist l extra)
    (mb_view_state <~ VS_InView (mkInView (iv_view iv) b (iv_collector_commits iv)))
    (fun _ => inv (anywhere) hist l extra).
Proof.
  intros s [Hs [Hv Hl]]. split; [|done]. destruct Hs as [? ? ? ? ? ? ? ? ? ? Hview ?]. constructor; cbn in *; try done.
  by rewrite Hv in Hview.
Qed.

(** [View::add] and the broadcast of a request for a view change. *)
Lemma request_view_change_good view prev F hist l :
  triple (inv F hist l [])
    (next_view ← lift (View_add view 1); broadcast (PReqViewChange (mkReqViewChange prev next_view))) (fun _ => good hist).
Proof.
  apply triple_lift_pre; [unfold View_add; apply u64_add_fuel|]. intros next _. apply good_of_inv. by apply broadcast_other_triple.
Qed.

Lemma bt_timeout_quiet :
  runs quiet (processor_state_call (P := P) (U := U) (Sig := Sig) (Att := Att) (batcher_call (Bt := Bt) bt_timeout)).
Proof.
  apply zoom_quiet_some. intros r. unfold batcher_call, zoom. pose proof (bt_timeout_fuel (rp_request_batcher r)) as Hf.
  by destruct (bt_timeout _) as [[a b]| |]; cbn.
Qed.

Lemma on_timeout_good t hist : triple (good hist) (on_timeout (U := U) (Bt := Bt) t) (fun _ => good hist).
Proof.
  unfold on_timeout. apply mb_triple_good. intros l v last. apply view_pre. destruct t, v as [iv|ip]; try apply good_ret.
  - apply good_of_inv. apply quiet_bind; [apply bt_timeout_quiet|]. intros r. apply process_batching_output_inv.
  - destruct (negb _); [|apply good_ret]. eapply triple_bind; [apply set_requested_inv|]. intros ?.
    apply quiet_bind; [apply back_off_quiet|]. intros ?. apply request_view_change_good.
  - apply quiet_bind; [apply back_off_quiet|]. intros ?. eapply triple_bind; [apply set_change_inv|]. intros ?. apply triple_pre.
    intros s0 [last' Hs0]. eapply triple_weaken; [apply request_view_change_good|intros s <-; exact Hs0|intros r s Hr; exact Hr].
Qed.

Lemma PeerMessage_validate_inv config usig from (m : PeerMessage P Sig Att) v :
  PeerMessage_validate config usig from m = Val (Ok v) -> v = pm_message m.
Proof. unfold PeerMessage_validate. rewrite try_bind_ok. by intros (u & _ & [= <-]). Qed.

Lemma on_peer_message_good from (m : PeerMessage P Sig Att) hist :
  Forall (complete received (pa_known hist)) (usig_of m) ->
  triple (good hist) (on_peer_message (U := U) (Bt := Bt) clock from m) (fun _ => good hist).
Proof.
  intros Hm. unfold on_peer_message. apply triple_pre. intros s Hs.
  apply triple_inspect_pre; [apply PeerMessage_validate_fuel|]. intros [v|e] Hv.
  - apply PeerMessage_validate_inv in Hv as ->. apply (triple_weaken _ (good hist) _ _ (fun _ => good hist)); [|by intros ? <-|done].
    apply process_peer_message_good; [done|lia|]. unfold usig_of in Hm. destruct (pm_message m); try done. exact (proj1 (list.Forall_singleton _ _) Hm).
  - apply (triple_weaken _ (good hist) _ _ (fun _ => good hist)); [|by intros ? <-|done]. apply good_quiet. apply runs_bind; [apply runs_self|]. intros [].
    + by apply runs_modify.
    + apply output_error_quiet.
Qed.

Lemma handle_client_message_good fuel client request payload hist s o s' :
  good hist s -> handle_client_message clock fuel client request payload s = Val (o, s') -> returns (past_of hist s) o s'.
Proof.
  apply handler_good. apply good_inv. intros F l. apply handle_internal_client_message_inv.
Qed.

Lemma handle_timeout_good fuel t hist s o s' :
  good hist s -> handle_timeout clock fuel t s = Val (o, s') -> returns (past_of hist s) o s'.
Proof. apply handler_good, on_timeout_good. Qed.

Lemma handle_peer_message_good fuel from m hist s o s' :
  usig_of m ⊆ received -> good hist s -> handle_peer_message clock fuel from m s = Val (o, s') -> returns (past_of hist s) o s'.
Proof.
  intros Hm Hs. unfold handle_peer_message, mbind, St_bind, self, lift.
  destruct (rust_assert _); cbn; [|done..]. destruct (rust_assert _); cbn; [|done..]. apply handler_good; [|done].
  apply on_peer_message_good. apply list.Forall_forall. intros x Hx. by apply received_complete, Hm.
Qed.

(** ** The start *)

Lemma MinBft_initial_good usig s :
  us_next usig = 0%N -> MinBft_initial usig cfg false = Val s -> good (mkPast [] 0 [] []) s /\ (no_responses (mb_output s) = [] /\ no_broadcasts (mb_output s) = []) /\ us_next (mb_usig s) = 0%N.
Proof.
  intros Hu. unfold MinBft_initial. destruct (Config_validate cfg) as [[]| |]; cbn; [|done..].
  destruct (bt_init _) as [b| |]; cbn; [|done..]. destruct (CollectorForwards_new cfg) as [f| |]; cbn; [|done..].
  intros [= <-]. split_and!; [|done..]. exists []. split; [|done]. constructor; cbn; try done.
  - lia.
  - rewrite Hu. split; [constructor|]. exists 0%N. by split_and!.
  - rewrite <-list_fmap_compose. apply Forall_fmap, list.Forall_forall. intros x _. constructor.
  - rewrite !length_fmap. unfold Config_all_replicas. rewrite length_range. lia.
  - by intros m ?%not_elem_of_nil.
  - rewrite Hu. by split.
  - split; [constructor|]. exists []. split_and!; [apply commits_inv_new|constructor|constructor].
Qed.

Lemma usig_attest_quiet : runs quiet (usig_attest (P := P) (U := U) (Sig := Sig) (Att := Att) (Bt := Bt)).
Proof.
  intros s ? <-. unfold usig_attest, zoom. pose proof (us_attest_fuel (mb_usig s)) as Hf.
  destruct (us_attest _) as [[r u]| |] eqn:Ha; cbn; [|done|done]. apply us_attest_next in Ha.
  unfold quiet, core. cbn. by rewrite Ha.
Qed.

Lemma attest_good s r s' :
  good (mkPast [] 0 [] []) s -> no_responses (mb_output s) = [] /\ no_broadcasts (mb_output s) = [] -> us_next (mb_usig s) = 0%N ->
  attest (U := U) (Bt := Bt) s = Val (Ok r, s') -> good (mkPast [] 0 [] []) s'.
Proof.
  intros Hs [Hr Hbr] Hn. unfold attest, mbind at 1, St_bind at 1. pose proof (usig_attest_quiet s s eq_refl) as Hq.
  destruct (usig_attest s) as [[[att|e] s1]| |]; [|done..].
  assert (good (mkPast [] 0 [] []) s1) as Hs1 by (destruct Hs as [l [Hs _]]; exists l; split; [by rewrite Hq|done]).
  pose proof (new_output_good _ _ Hs1) as Hs2.
  assert (past_of (mkPast [] 0 [] []) s1 = mkPast [] 0 [] []) as Hpast.
  { injection Hq as _ _ _ Hnext _ _ _ _ _ _ _ _ Hbs Hresp. unfold past_of, sent_now, sent_by. cbn. by rewrite Hnext, Hresp, Hbs, Hr, Hbr, Hn. }
  rewrite Hpast in Hs2. unfold new_output, modify, mbind, St_bind. destruct Hs2 as [l Hs2].
  pose proof (broadcast_other_triple cfg received (Hello att) anywhere (mkPast [] 0 [] []) l [] (fun u Hu => ltac:(discriminate)) _ Hs2) as Hb.
  destruct (broadcast _ _) as [[u s2]| |]; [|done..]. intros [= _ <-]. by exists l.
Qed.

Lemma MinBft_new_good fuel usig nonce s o :
  us_next usig = 0%N -> MinBft_new clock fuel usig cfg false nonce = Val (Ok (s, o)) -> returns (mkPast [] 0 [] []) o s.
Proof.
  intros Hu. unfold MinBft_new. destruct (MinBft_initial usig cfg false) as [s0| |] eqn:Hs0; cbn; [|done..].
  destruct (MinBft_initial_good usig s0 Hu Hs0) as (Hg & Hr & Hn).
  destruct (attest s0) as [[[u|e] s1]| |] eqn:Ha; cbn; [|done..]. pose proof (attest_good s0 u s1 Hg Hr Hn Ha) as Hs1.
  unfold reflect, mbind, St_bind, self.
  pose proof (reflect_loop_good clock cfg received Hoc fuel 0 _ s1 Hs1) as Hl.
  destruct (reflect_loop _ _ _ _ s1) as [[u' s2]| |]; cbn; [|done..]. by intros [= <- <-].
Qed.

(** ** Runs *)

(** The invariant at the end of a run, and what its outputs say. *)
Record run_inv (outs : list Out) (s : Replica) : Prop := {
  ri_good : exists hist, good hist s /\ pa_responses hist ++ no_responses (mb_output s) = responses outs
    /\ sent_now hist s = sent_messages outs /\ sent_counters outs = range 0 (us_next (mb_usig s));
  ri_logs : forall o m, o ∈ outs -> mkPeerMessage (PUsig m) ∈ ou_broadcasts o -> log_sound m;
}.

Lemma finish_broadcasts (s : Replica) : pm_message <$> ou_broadcasts (finish_output s) = no_broadcasts (mb_output s).
Proof. cbn. rewrite <-list_fmap_compose. apply list_fmap_id. Qed.

Lemma returns_logs hist o s : returns hist o s -> forall m, mkPeerMessage (PUsig m) ∈ ou_broadcasts o -> log_sound m.
Proof.
  intros [(l & Hs & _) ->] m Hm. apply (ci_broadcasts _ _ _ _ _ _ _ Hs). cbn.
  apply list_elem_of_fmap in Hm as (x & [= <-] & Hx). done.
Qed.

Lemma returns_counters hist o s :
  returns hist o s ->
  (pa_next hist <= us_next (mb_usig s))%N
  /\ usig_counters (pm_message <$> ou_broadcasts o) = range (pa_next hist) (us_next (mb_usig s)).
Proof.
  intros [(l & Hs & _) ->]. rewrite finish_broadcasts. pose proof (ci_counters _ _ _ _ _ _ _ Hs) as Hc. cbn in Hc.
  by rewrite N.sub_0_r in Hc.
Qed.

Lemma range_app a b c : (a <= b <= c)%N -> range a b ++ range b c = range a c.
Proof.
  intros Hle. unfold range. replace (N.to_nat (c - a)) with (N.to_nat (b - a) + N.to_nat (c - b)) by lia.
  rewrite seq_app, fmap_app. f_equal. apply list_eq. intros i. rewrite !list_lookup_fmap.
  destruct (decide (i < N.to_nat (c - b))).
  - rewrite !lookup_seq_lt by done. cbn. f_equal. lia.
  - by rewrite !lookup_seq_ge by lia.
Qed.

Lemma run_inv_new o s : returns (mkPast [] 0 [] []) o s -> run_inv [o] s.
Proof.
  intros Hr. split.
  - exists (mkPast [] 0 [] []). destruct (returns_counters _ _ _ Hr) as [_ Hc]. destruct Hr as [Hg ->]. split_and!; [done| | |].
    + unfold responses. cbn. by rewrite app_nil_r.
    + unfold sent_messages. cbn -[finish_output]. unfold sent_now. by rewrite app_nil_r, finish_broadcasts, sent_by_messages.
    + unfold sent_counters. cbn -[finish_output]. by rewrite app_nil_r, Hc.
  - intros o' m ->%list_elem_of_singleton. by eapply returns_logs.
Qed.

Lemma run_inv_step outs s o s' :
  (forall hist, good hist s -> returns (past_of hist s) o s') -> run_inv outs s -> run_inv (outs ++ [o]) s'.
Proof.
  intros Hstep [(hist & Hg & Hresp & Hsent & Hcs) Hlogs]. specialize (Hstep hist Hg). split.
  - exists (past_of hist s). destruct (returns_counters _ _ _ Hstep) as [Hle Hc]. cbn in Hle, Hc.
    pose proof Hstep as [Hg' Ho]. split_and!; [done| | |].
    + unfold responses in *. rewrite fmap_app, concat_app, <-Hresp. cbn. by rewrite app_nil_r, Ho.
    + unfold sent_messages in *. rewrite fmap_app, concat_app, <-Hsent. unfold sent_now. rewrite sent_by_messages. cbn -[finish_output]. by rewrite app_nil_r, Ho, finish_broadcasts.
    + unfold sent_counters in *. rewrite fmap_app, concat_app, Hcs. cbn. rewrite app_nil_r, Hc. apply range_app. lia.
  - intros o' m [Ho'|Ho']%elem_of_app; [by apply Hlogs|]. apply list_elem_of_singleton in Ho' as ->. by eapply returns_logs.
Qed.

Lemma mb_run_good rec outs s : mb_run rec outs s -> rec ⊆ received -> run_inv outs s.
Proof.
  induction 1 as [fuel usig nonce s o Hu Hn|fuel c r p rec outs s o s' _ IH Hh|fuel from m rec outs s o s' _ IH Hh
                 |fuel t rec outs s o s' _ IH Hh]; intros Hsub.
  - by apply run_inv_new, (MinBft_new_good fuel usig nonce).
  - eapply run_inv_step; [|by apply IH]. intros hist Hg. by eapply handle_client_message_good.
  - eapply run_inv_step; [|apply IH; set_solver]. intros hist Hg. eapply handle_peer_message_good; [|done..]. set_solver.
  - eapply run_inv_step; [|by apply IH]. intros hist Hg. by eapply handle_timeout_good.
Qed.
End run.

(** The answers to one client have increasing numbers. *)
Lemma mb_responses_increasing {Pr : Profile} {P U Sig Att Bt : Type}
    `{Hashbar P, Hashbar Sig, Hashbar Att} `{Digests} `{UsigLaws U Sig Att} `{EqDecision Att} `{HashOrderLaws}
    `{BatcherLaws Bt P Att} (clock : nat -> N) cfg received outs (s : MinBft P U Sig Att Bt) i j client
    (x y : WrappedRequestPayload P Att) :
  overflow_checks = true -> mb_run clock cfg received outs s ->
  responses outs !! i = Some (client, x) -> responses outs !! j = Some (client, y) -> i < j -> (WP_id x < WP_id y)%N.
Proof.
  intros Hoc Hr Hi Hj Hij.
  destruct (mb_run_good clock cfg Hoc received _ _ _ Hr (reflexivity _)) as [(hist & (l & Hs & _) & Hresp & _) _].
  destruct (ci_exec _ _ _ _ _ _ _ Hs) as [_ Hx _]. rewrite app_nil_r in Hx. cbn in Hx. rewrite Hresp in Hx.
  rewrite Hx, list_lookup_fmap in Hi, Hj. apply fmap_Some in Hi as (rx & Hrx & [= -> ->]), Hj as (ry & Hry & [= Hc ->]).
  exact (increasing_lookup ∅ _ i j rx ry (proj1 (dedup_increasing ∅ _)) Hrx Hry Hij Hc).
Qed.
