(* ===== verification/MbExamples.v ===== *)
(** * MinBFT: a concrete system

    Three replicas ([t = 1]) with [UsigSignature] over a signature scheme whose
    signatures are the key and the signed bytes, the trivial batcher with batches
    of one request, and digests that keep the bytes: the inputs at which the
    theorems are evaluated.  The network delivers messages in the order they were
    sent. *)

From Stdlib Require Import ZArith Lia String.
From stdpp Require Import base list gmap sets numbers option.
From S2P Require Import Prelude Triple Ids Heaps MbUsig MbBase MbMessages MbOrder MbCollectors MbBatcher MbRequests.
From S2P Require Import MbReplica MbRequestFacts MbRun.

#[export] Existing Instance prerelease.

#[export] Instance mx_digests : Digests := {| sha256 := fun l => l; blake2b512 := fun l => l |}.
#[export] Instance mx_order : HashOrder := fun A l => l.
#[export] Instance mx_order_laws : HashOrderLaws.
Proof. intros A l. reflexivity. Qed.

(** A payload is its bytes, as in [abcperf-noop]. *)
#[export] Instance mx_payload : Hashbar (list N) := id.

Definition MxSig : Type := N * list N.
#[export] Instance mx_scheme : SignatureScheme MxSig N N := {|
  ss_sign := fun k data => (k, data);
  ss_verify := fun k data sig => bool_decide (sig = (k, data));
  ss_to_bytes := fun sig => to_le_bytes sig.1;
  ss_key_bytes := to_le_bytes;
|}.
#[export, refine] Instance mx_scheme_laws : SignatureSchemeLaws MxSig N N := {| ss_pair := eq |}.
Proof. intros sk vk data ->. by apply bool_decide_eq_true. Defined.

Definition mx_clock (k : nat) : N := N.of_nat k.
Definition mx_rng (k : nat) : Z := 0%Z.
#[export] Instance mx_batcher : RequestBatcher (BoxedBatcher (list N) (Sgn.PubKey N)) (list N) (Sgn.PubKey N) :=
  BoxedBatcher_impl mx_clock mx_rng.

Abbreviation MxUsig := (Sgn.UsigSignature N N).
Abbreviation MxAtt := (Sgn.PubKey N).
Abbreviation MxS := (Sgn.Signature MxSig).
Abbreviation MxReplica := (MinBft (list N) MxUsig MxS MxAtt (BoxedBatcher (list N) MxAtt)).
Abbreviation MxPeer := (PeerMessage (list N) MxS MxAtt).
Abbreviation MxOut := (Output (list N) MxS MxAtt).

Lemma mx_checks : overflow_checks = true.
Proof. reflexivity. Qed.

#[export] Instance mx_usig_laws : UsigLaws MxUsig MxS MxAtt := UsigSignature_laws mx_checks.
#[export] Instance mx_batcher_laws : BatcherLaws (BoxedBatcher (list N) MxAtt) (list N) MxAtt :=
  BoxedBatcher_laws mx_clock mx_rng.

Definition mx_config (i : N) : Config := mkConfig 3 1 i (BC_Trivial 1000 (Some 1%N)) 1000 2 2.
(** The key of replica [i]. *)
Definition mx_key (i : N) : N := (100 + i)%N.

(** ** One replica *)

Inductive MxEvent :=
| MxMessage (from : N) (m : MxPeer)
| MxRequest (client request : N) (payload : list N)
| MxTimeout (t : TimeoutType).

Definition mx_step (e : MxEvent) : St MxReplica MxOut :=
  match e with
  | MxMessage from m => handle_peer_message mx_clock 20 from m
  | MxRequest client request payload => handle_client_message mx_clock 20 client request payload
  | MxTimeout t => handle_timeout mx_clock 20 t
  end.

Definition mx_new (i : N) (recovering : bool) : Outcome (Result (MxReplica * MxOut) UsigError) :=
  MinBft_new mx_clock 20 (Sgn.UsigSignature_new (mx_key i) (mx_key i)) (mx_config i) recovering 7.

(** ** The network

    A node: the replica, the USIG messages it received and what it returned. *)

Record MxNode := mkMxNode { mn_replica : MxReplica; mn_received : list (UsigMessage (list N) MxS MxAtt); mn_outs : list MxOut }.
Abbreviation MxNet := (list MxNode).
Abbreviation MxQueue := (list (N * N * MxPeer)).

Definition mx_received (e : MxEvent) : list (UsigMessage (list N) MxS MxAtt) :=
  match e with MxMessage _ m => usig_of m | _ => [] end.

(** Sender, receiver and message of everything in an output. *)
Definition mx_sends (me : N) (o : MxOut) : MxQueue :=
  concat ((fun m => (fun t => (me, t, m)) <$> List.filter (fun t => negb (t =? me)%N) [0%N; 1%N; 2%N])
          <$> ou_broadcasts o)
  ++ ((fun '(t, m) => (me, t, m)) <$> ou_direct_messages o).

Definition mx_net_step (i : N) (e : MxEvent) (nq : MxNet * MxQueue) : Outcome (MxNet * MxQueue) :=
  nd ← index_u64 nq.1 i;
  r ← mx_step e (mn_replica nd);
  net ← assign_u64 nq.1 i (mkMxNode r.2 (mn_received nd ++ mx_received e) (mn_outs nd ++ [r.1]));
  Val (net, nq.2 ++ mx_sends i r.1).

Fixpoint mx_drain (fuel : nat) (nq : MxNet * MxQueue) : Outcome (MxNet * MxQueue) :=
  match fuel, nq.2 with
  | O, _ | _, [] => Val nq
  | S fuel, (from, to, m) :: q =>
      nq ← mx_net_step to (MxMessage from m) (nq.1, q);
      mx_drain fuel nq
  end.

Definition mx_input (nq : MxNet * MxQueue) (ie : N * MxEvent) : Outcome (MxNet * MxQueue) :=
  nq ← mx_net_step ie.1 ie.2 nq; mx_drain 400 nq.

Definition mx_add (nq : MxNet * MxQueue) (i : N) : Outcome (MxNet * MxQueue) :=
  r ← mx_new i false;
  match r with
  | Ok (s, o) => Val (nq.1 ++ [mkMxNode s [] [o]], nq.2 ++ mx_sends i o)
  | Err _ => Panic
  end.
Definition mx_start : Outcome (MxNet * MxQueue) :=
  nq ← for_each [0%N; 1%N; 2%N] ([], []) mx_add;
  mx_drain 400 nq.

Definition mx_run (inputs : list (N * MxEvent)) : Outcome (MxNet * MxQueue) :=
  nq ← mx_start; for_each inputs nq mx_input.

(** Replica [i] at the end of a run of the network. *)
Definition mx_node (inputs : list (N * MxEvent)) (i : N) : Outcome MxNode :=
  nq ← mx_run inputs; index_u64 nq.1 i.

(** ** Every node of the network is a run *)

Definition node_run (i : nat) (nd : MxNode) : Prop :=
  mb_run mx_clock (mx_config (N.of_nat i)) (mn_received nd) (mn_outs nd) (mn_replica nd).
Definition net_ok (nq : MxNet * MxQueue) : Prop := forall i nd, nq.1 !! i = Some nd -> node_run i nd.

Lemma mx_step_run i nd e o s' :
  node_run i nd -> mx_step e (mn_replica nd) = Val (o, s') ->
  node_run i (mkMxNode s' (mn_received nd ++ mx_received e) (mn_outs nd ++ [o])).
Proof.
  unfold node_run. intros Hr. destruct e as [from m|c r p|t]; cbn; rewrite ?app_nil_r; intros Hs.
  - by eapply run_message.
  - by eapply run_client.
  - by eapply run_timeout.
Qed.

Lemma mx_net_step_ok i e nq nq' : net_ok nq -> mx_net_step i e nq = Val nq' -> net_ok nq'.
Proof.
  intros Hok. unfold mx_net_step. destruct (index_u64 _ _) as [nd| |] eqn:Hi; cbn; [|done..].
  unfold index_u64 in Hi. rewrite nth_u64_lookup in Hi. destruct (nq.1 !! N.to_nat i) as [nd'|] eqn:Hl; [|done].
  injection Hi as ->. destruct (mx_step e _) as [[o s']| |] eqn:Hs; cbn; [|done..].
  unfold assign_u64. destruct (_ <? _)%N; cbn; [|done]. intros [= <-] j nd'. cbn.
  rewrite list_lookup_insert_Some. intros [(<- & <- & _)|[_ Hj]]; [|by apply Hok].
  apply mx_step_run; [by apply Hok|done].
Qed.

Lemma mx_drain_ok fuel : forall nq nq', net_ok nq -> mx_drain fuel nq = Val nq' -> net_ok nq'.
Proof.
  induction fuel as [|fuel IH]; intros nq nq' Hok; cbn; [by intros [= <-]|].
  destruct (nq.2) as [|[[from to] m] q]; [by intros [= <-]|].
  destruct (mx_net_step _ _ _) as [nq1| |] eqn:H1; cbn; [|done..]. apply IH. by eapply mx_net_step_ok; [|exact H1].
Qed.

Lemma for_each_net {A} (xs : list A) (f : MxNet * MxQueue -> A -> Outcome (MxNet * MxQueue)) : forall nq nq',
  (forall nq x nq', x ∈ xs -> net_ok nq -> f nq x = Val nq' -> net_ok nq') ->
  net_ok nq -> for_each xs nq f = Val nq' -> net_ok nq'.
Proof.
  induction xs as [|x xs IH]; intros nq nq' Hf Hok; cbn; [by intros [= <-]|].
  destruct (f nq x) as [nq1| |] eqn:H1; cbn; [|done..]. apply IH; [intros nq2 y nq3 Hy; apply Hf; set_solver|].
  eapply Hf; [|exact Hok|exact H1]. set_solver.
Qed.

Lemma mx_add_ok i nq nq' : length nq.1 = N.to_nat i -> net_ok nq -> mx_add nq i = Val nq' ->
  net_ok nq' /\ length nq'.1 = S (N.to_nat i).
Proof.
  intros Hl Hok. unfold mx_add. destruct (mx_new i false) as [[[s o]|e]| |] eqn:Hn; cbn; [|done..].
  intros [= <-]. cbn. split; [|rewrite length_app; cbn; lia]. intros j nd. cbn. rewrite lookup_app_Some. intros [Hj|[Hj Hnd]]; [by apply Hok|].
  destruct (j - length nq.1) as [|k] eqn:Hjk; cbn in Hnd; [|done]. injection Hnd as <-. unfold node_run. cbn.
  replace (N.of_nat j) with i by lia. unfold mx_new in Hn. eapply (run_new _ _ _ _ _ _ _ _ Hn). Unshelve. done.
Qed.

Lemma mx_adds_ok ks : forall nq nq',
  (forall j k, ks !! j = Some k -> length nq.1 + j = N.to_nat k) -> net_ok nq -> for_each ks nq mx_add = Val nq' -> net_ok nq'.
Proof.
  induction ks as [|k ks IH]; intros nq nq' Hks Hok; cbn [for_each]; [by intros [= <-]|].
  destruct (mx_add nq k) as [nq1| |] eqn:E1; [|done..]. pose proof (Hks 0 k eq_refl) as Hk.
  apply mx_add_ok in E1 as [H1 L1]; [|lia|done]. apply IH; [|done]. intros j k' Hj. specialize (Hks (S j) k' Hj). lia.
Qed.

Lemma mx_start_ok nq : mx_start = Val nq -> net_ok nq.
Proof.
  unfold mx_start. destruct (for_each _ _ _) as [nq1| |] eqn:E; [|done..]. apply mx_drain_ok.
  revert E. apply mx_adds_ok; [|by intros [|i] nd Hi].
  intros j k Hj. destruct j as [|[|[|]]]; cbn in Hj; by simplify_eq.
Qed.

Lemma mx_input_ok nq ie nq' : net_ok nq -> mx_input nq ie = Val nq' -> net_ok nq'.
Proof.
  intros Hok. unfold mx_input. destruct (mx_net_step _ _ _) as [nq1| |] eqn:E1; [|done..].
  apply mx_drain_ok. by eapply mx_net_step_ok; [|exact E1].
Qed.

Lemma mx_node_run inputs i nd : mx_node inputs i = Val nd -> node_run (N.to_nat i) nd.
Proof.
  unfold mx_node, mx_run. destruct mx_start as [nq| |] eqn:E0; [|done..]. apply mx_start_ok in E0.
  unfold mbind, Outcome_bind. destruct (for_each _ _ _) as [nq1| |] eqn:E1; [|done..]. intros Hi.
  unfold index_u64 in Hi. rewrite nth_u64_lookup in Hi. destruct (nq1.1 !! N.to_nat i) as [nd'|] eqn:Hl; [|done].
  injection Hi as ->. revert Hl. apply (for_each_net inputs mx_input nq nq1); [|done|done].
  intros nq2 x nq3 _. apply mx_input_ok.
Qed.

(** A replica after a run of the network that passes a test, evaluated. *)
Lemma mx_node_Val inputs i (test : MxNode -> bool) :
  holds (mx_node inputs i) test = true -> exists nd, test nd = true /\ node_run (N.to_nat i) nd.
Proof. intros (nd & Hn & Ht)%holds_Val. exists nd. split; [done|]. by eapply mx_node_run. Qed.
