(* ===== verification/MbTheorems.v ===== *)
(** * MinBFT: the properties

    What a replica of MinBFT guarantees on every run ([mb_run]), with witnesses on
    the network of [MbExamples]. *)

From Stdlib Require Import ZArith Lia String.
From stdpp Require Import sorting base list gmap sets numbers option.
From S2P Require Import Prelude Triple Ids Heaps Requests MbUsig MbBase MbMessages MbOrder MbCollectors MbBatcher.
From S2P Require Import MbRequests MbReplica MbOrderFacts MbCertFacts MbCollectFacts MbRequestFacts MbInvariant.
From S2P Require Import MbRun.

Section theorems.
  Context {Pr : Profile} {P U Sig Att Bt : Type}.
  Context `{Hashbar P, Hashbar Sig, Hashbar Att} `{Digests} `{UsigLaws U Sig Att} `{EqDecision Att} `{HashOrderLaws}.
  Context `{BatcherLaws Bt P Att}.
  Context (clock : nat -> N).
  Local Abbreviation Msg := (UsigMessage P Sig Att).
  Implicit Types (s : MinBft P U Sig Att Bt) (cfg : Config) (received : list Msg).

(** ** Runs *)

(** C2: refinement of the log, with overflow checks and for a replica that did not
    start by recovering.  What a replica has answered over a run, and its storage,
    are those of the requests in a journal, the requests of each client in
    increasing order and once.  The journal is a history of prepares of the current
    view with ascending counters, each with messages of more than [t] replicas for
    its view and counter, and of new views adopted with the prepares their view
    changes carry; a counter is not noted only where the USIG refused to sign the
    checkpoint due.  Every message of the journal and every prepare in it was in
    the outputs of the run, received, or in a message received. *)
Theorem mb_refines_journal cfg received outs s :
  overflow_checks = true -> mb_run clock cfg received outs s ->
  exists l view,
    journal (U := U) cfg received (sent_messages outs) view (mb_counter_last_accepted_prep s) l
    /\ Forall (fun p => heard received (sent_messages outs) (MView (VPrepare p))) (concat (entry_preps <$> l))
    /\ (forall in_view, mb_view_state s = VS_InView in_view -> iv_view in_view = view)
    /\ responses outs = response_of <$> executed (journal_requests l)
    /\ mb_replica_storage s = foldl execute ReplicaStorage_new (executed (journal_requests l)).
Proof.
  intros Hoc Hr. destruct (mb_run_good clock cfg Hoc received _ _ _ Hr (reflexivity _))
    as [(hist & (l & Hs & _) & Hresp & Hsent & _) _].
  destruct (ci_exec _ _ _ _ _ _ _ Hs) as [_ Hx Hst]. rewrite app_nil_r in Hx, Hst. cbn in Hx, Hst. rewrite Hresp in Hx.
  pose proof (ci_view _ _ _ _ _ _ _ Hs) as Hv. unfold view_inv in Hv. cbn -[sent_by] in Hv. fold (sent_now hist s) in Hv. rewrite Hsent in Hv.
  exists l. destruct (mb_view_state s) as [iv|ip]; [destruct Hv as [Hj _]; exists (iv_view iv)|destruct Hv as [view Hj]; exists view];
    (split_and!; [done| | |done|done]); try by intros ? [= <-].
  all: eapply list.Forall_impl; [by eapply journal_preps|]; intros p Hp; apply Hp, part_self.
Qed.

(** Integrity.  Over a run the requests of one client are answered with
    strictly increasing numbers; in particular none is executed twice. *)
Theorem mb_exactly_once cfg received outs s i j client (x y : WrappedRequestPayload P Att) :
  overflow_checks = true -> mb_run clock cfg received outs s ->
  responses outs !! i = Some (client, x) -> responses outs !! j = Some (client, y) -> i < j -> (WP_id x < WP_id y)%N.
Proof.
  apply mb_responses_increasing.
Qed.

(** C13: the USIG's counters.  The messages a replica broadcasts over a run carry
    the counters 0, 1, 2, ... up to its USIG's, in this order: each value is used
    for one message, and none is left out, which would block its receivers. *)
Theorem mb_counters_sent cfg received outs s :
  overflow_checks = true -> mb_run clock cfg received outs s ->
  sent_counters outs = range 0 (us_next (mb_usig s)).
Proof.
  intros Hoc Hr. by destruct (mb_run_good clock cfg Hoc received _ _ _ Hr (reflexivity _)) as [(hist & _ & _ & _ & Hc) _].
Qed.

(** A range is sorted, and has its bounds at its ends. *)
Lemma sort_range lo hi : sort_u64 (range lo hi) = range lo hi.
Proof.
  apply (StronglySorted_unique u64_le).
  - apply sort_u64_sorted.
  - induction (range_sorted lo hi) as [|x l _ IH Hall]; constructor; [done|]. eapply list.Forall_impl; [exact Hall|].
    unfold u64_le. intros y. lia.
  - apply sort_u64_permutation.
Qed.

Lemma range_ends lo hi : (lo < hi)%N -> head (range lo hi) = Some lo /\ list.last (range lo hi) = Some (hi - 1)%N.
Proof.
  intros Hlt. split; [by rewrite range_cons|]. replace hi with (hi - 1 + 1)%N at 1 by lia.
  rewrite range_snoc by lia. apply last_snoc.
Qed.

(** The three tests of the log, on a log that ends before the view change. *)
Lemma log_sound_holes config (vc : ViewChange P Sig Att) lo :
  (lo <= counter vc)%N -> is_u64 (counter vc) -> vc_counters vc = range lo (counter vc) ->
  ViewChange_validate_holes config vc (sort_u64 (vc_counters vc)) = Val (Ok ()).
Proof.
  intros Hle Hu ->. rewrite sort_range. unfold ViewChange_validate_holes.
  destruct (decide (lo = counter vc)) as [->|Hne]; [by rewrite range_nil|].
  destruct (range_ends lo (counter vc)) as [-> ->]; [lia|]. unfold is_u64 in Hu.
  rewrite u64_sub_Val by lia. cbn. rewrite u64_add_Val by lia. cbn. rewrite length_range, N2Nat.id.
  by replace (counter vc - lo =? _)%N with true by (symmetry; apply N.eqb_eq; lia).
Qed.

Lemma log_sound_ends config usig (vc : ViewChange P Sig Att) :
  vc_checkpoint_cert (us_data vc) = None -> vc_counters vc = range 0 (counter vc) ->
  ViewChange_validate_first (U := U) config usig vc (sort_u64 (vc_counters vc)) = Val (Ok ())
  /\ ViewChange_validate_last config vc = Val (Ok ()).
Proof.
  intros Hnone Hr. rewrite Hr, sort_range. unfold ViewChange_validate_first, ViewChange_validate_last. rewrite Hnone.
  unfold vc_counters in Hr. destruct (decide (counter vc = 0%N)) as [Hz|Hz].
  - rewrite Hz, range_nil in Hr by lia. apply fmap_nil_inv in Hr. rewrite Hr, Hz, range_nil by lia. done.
  - destruct (range_ends 0 (counter vc)) as [-> Hl]; [lia|]. split; [done|]. rewrite <-Hr, fmap_last in Hl.
    destruct (list.last _) as [x|]; [|done]. injection Hl as Hx. rewrite u64_sub_Val by lia. cbn. by rewrite Hx, N.eqb_refl.
Qed.

(** Own view changes are acceptable.  The log of a view change a replica
    broadcasts passes the receivers' test for holes, whatever was truncated; as
    long as there is no stable checkpoint it also passes the tests of its first and
    its last message. *)
Theorem mb_view_change_acceptable cfg received outs s o (vc : ViewChange P Sig Att) config (usig : U) :
  overflow_checks = true -> mb_run clock cfg received outs s ->
  o ∈ outs -> mkPeerMessage (PUsig (MViewChange vc)) ∈ ou_broadcasts o -> is_u64 (counter vc) ->
  ViewChange_validate_holes config vc (sort_u64 (vc_counters vc)) = Val (Ok ())
  /\ (vc_checkpoint_cert (us_data vc) = None ->
      ViewChange_validate_first config usig vc (sort_u64 (vc_counters vc)) = Val (Ok ())
      /\ ViewChange_validate_last config vc = Val (Ok ())).
Proof.
  intros Hoc Hr Ho Hvc Hu. destruct (mb_run_good clock cfg Hoc received _ _ _ Hr (reflexivity _)) as [_ Hlogs].
  destruct (Hlogs o _ Ho Hvc) as (lo & Hle & Hcs & Hz). split; [by eapply log_sound_holes|].
  intros Hnone. apply log_sound_ends; [done|]. by rewrite <-(Hz Hnone).
Qed.

(** C32: the handlers terminate, with overflow checks.  In every state a run
    reaches, processing a message, a client request or a timeout returns or panics,
    up to the processing of the replica's own broadcasts: the nesting of two calls
    of [process_peer_message] is enough.  Without overflow checks a prepare with
    the greatest counter in a new view is met with an endless loop
    ([mb_new_view_update_diverges]). *)
Theorem mb_handlers_terminate cfg received outs s from m client request payload t :
  overflow_checks = true -> mb_run clock cfg received outs s ->
  on_peer_message clock from m s <> NoFuel
  /\ handle_internal_client_message clock client (WP_Client request payload) s <> NoFuel
  /\ on_timeout t s <> NoFuel.
Proof.
  intros Hoc Hr.
  destruct (mb_run_good clock cfg Hoc (received ++ usig_of m) _ _ _ Hr ltac:(set_solver)) as [(hist & Hg & _) _].
  split_and!.
  - eapply triple_fuel; [|exact Hg]. apply on_peer_message_good; [done|]. apply list.Forall_forall.
    intros x Hx. apply received_complete. set_solver.
  - eapply triple_fuel; [|exact Hg]. apply good_inv. intros F l. apply handle_internal_client_message_inv.
  - eapply triple_fuel; [|exact Hg]. by apply on_timeout_good.
Qed.
End theorems.

(** ** Witnesses

    Two clients send requests; then the clients of replica 0 time out at all
    replicas, and the network changes the view. *)

From S2P Require Import MbExamples.

Definition mx_requests : list (N * MxEvent) :=
  [(0, MxRequest 3 1 [7]); (0, MxRequest 4 1 [8]); (0, MxRequest 3 2 [9])]%N.
Definition mx_view_change : list (N * MxEvent) :=
  [(0, MxRequest 3 1 [7]); (0, MxTimeout TT_Client); (1, MxTimeout TT_Client); (2, MxTimeout TT_Client)]%N.

Lemma mb_refines_journal_witness :
  exists nd l view, journal (U := MxUsig) (mx_config 1) (mn_received nd) (sent_messages (mn_outs nd)) view
                      (mb_counter_last_accepted_prep (mn_replica nd)) l
    /\ responses (mn_outs nd) = response_of <$> executed (journal_requests l)
    /\ responses (mn_outs nd) = [(3, WP_Client 1 [7]); (4, WP_Client 1 [8]); (3, WP_Client 2 [9])]%N.
Proof.
  destruct (mx_node_Val mx_requests 1 (fun nd => bool_decide (
    (fun r => (r.1, WP_id r.2, match r.2 with WP_Client _ p => p | WP_Internal _ => [] end)) <$> responses (mn_outs nd)
    = [(3, 1, [7]); (4, 1, [8]); (3, 2, [9])]%N))) as (nd & Ht%bool_decide_eq_true & Hr); [vm_compute; reflexivity|].
  destruct (mb_refines_journal mx_clock (mx_config 1) (mn_received nd) (mn_outs nd) (mn_replica nd) mx_checks Hr)
    as (l & view & Hj & _ & _ & Hresp & _).
  exists nd, l, view. split; [exact Hj|]. split; [exact Hresp|]. clear Hresp.
  destruct (responses (mn_outs nd)) as [|[? []] [|[? []] [|[? []] [|]]]]; cbn in Ht; try discriminate Ht.
  by injection Ht as -> -> -> -> -> -> -> -> ->.
Defined.

Lemma mb_exactly_once_witness :
  exists (nd : MxNode) (x y : WrappedRequestPayload (list N) MxAtt),
    responses (mn_outs nd) !! 0 = Some (3%N, x) /\ responses (mn_outs nd) !! 2 = Some (3%N, y) /\ (WP_id x < WP_id y)%N.
Proof.
  destruct (mx_node_Val mx_requests 2 (fun nd => match responses (mn_outs nd) !! 0, responses (mn_outs nd) !! 2 with
    | Some (c, _), Some (d, _) => (c =? 3)%N && (d =? 3)%N | _, _ => false end)) as (nd & Ht & Hr); [vm_compute; reflexivity|].
  destruct (responses (mn_outs nd) !! 0) as [[c x]|] eqn:Hx; [|discriminate].
  destruct (responses (mn_outs nd) !! 2) as [[d y]|] eqn:Hy; [|discriminate].
  apply andb_prop in Ht as [->%N.eqb_eq ->%N.eqb_eq]. exists nd, x, y. split; [exact Hx|]. split; [exact Hy|].
  eapply (mb_exactly_once mx_clock (mx_config 2) (mn_received nd) (mn_outs nd) (mn_replica nd) 0 2 3 x y mx_checks Hr Hx Hy). lia.
Defined.

Lemma mb_counters_sent_witness :
  exists nd : MxNode, sent_counters (mn_outs nd) = range 0 (us_next (mb_usig (mn_replica nd)))
    /\ us_next (mb_usig (mn_replica nd)) = 4%N.
Proof.
  destruct (mx_node_Val mx_requests 1 (fun nd => (us_next (mb_usig (mn_replica nd)) =? 4)%N)) as (nd & Ht%N.eqb_eq & Hr);
    [vm_compute; reflexivity|].
  exists nd. split; [|exact Ht]. exact (mb_counters_sent mx_clock (mx_config 1) (mn_received nd) _ _ mx_checks Hr).
Defined.

(** The first view change in the outputs of a replica. *)
Definition mx_view_change_of (o : MxOut) : option (ViewChange (list N) MxS MxAtt) :=
  head (omap (fun m => match pm_message m with PUsig (MViewChange vc) => Some vc | _ => None end) (ou_broadcasts o)).

Lemma mx_view_change_of_elem o vc :
  mx_view_change_of o = Some vc -> mkPeerMessage (PUsig (MViewChange vc)) ∈ ou_broadcasts o.
Proof.
  unfold mx_view_change_of. intros Hh. assert (vc ∈ omap (fun m => match pm_message m with PUsig (MViewChange vc) => Some vc | _ => None end)
    (ou_broadcasts o)) as Hin by (destruct (omap _ _); [done|injection Hh as ->; by left]).
  apply list_elem_of_omap in Hin as ([m] & Hm & Hvc). cbn in Hvc. destruct m as [| |[| | |]| | |]; try done. by injection Hvc as ->.
Qed.

Lemma mb_view_change_acceptable_witness :
  exists (nd : MxNode) o (vc : ViewChange (list N) MxS MxAtt),
    o ∈ mn_outs nd /\ mkPeerMessage (PUsig (MViewChange vc)) ∈ ou_broadcasts o /\ vc_counters vc = [0%N]
    /\ ViewChange_validate_holes (mx_config 0) vc (sort_u64 (vc_counters vc)) = Val (Ok ())
    /\ ViewChange_validate_last (mx_config 0) vc = Val (Ok ()).
Proof.
  destruct (mx_node_Val mx_view_change 1 (fun nd => match head (omap mx_view_change_of (mn_outs nd)) with
    | Some vc => (counter vc =? 1)%N && bool_decide (vc_counters vc = [0%N])
                 && match vc_checkpoint_cert (us_data vc) with None => true | Some _ => false end
    | None => false end)) as (nd & Ht & Hr); [vm_compute; reflexivity|].
  destruct (head (omap mx_view_change_of (mn_outs nd))) as [vc|] eqn:Hvc; [|discriminate].
  apply andb_prop in Ht as [Ht Hnone]. apply andb_prop in Ht as [Hc%N.eqb_eq Hcs%bool_decide_eq_true].
  destruct (vc_checkpoint_cert (us_data vc)) eqn:Hcert; [discriminate|].
  assert (vc ∈ omap mx_view_change_of (mn_outs nd)) as Hin by (destruct (omap _ _); [done|injection Hvc as ->; by left]).
  apply list_elem_of_omap in Hin as (o & Ho & Hov).
  destruct (mb_view_change_acceptable mx_clock (mx_config 1) (mn_received nd) (mn_outs nd) (mn_replica nd) o vc (mx_config 0)
    (mb_usig (mn_replica nd)) mx_checks Hr Ho (mx_view_change_of_elem o vc Hov)) as [Hh Hends].
  { unfold is_u64. change (counter vc < 2 ^ 64)%N. rewrite Hc. reflexivity. }
  exists nd, o, vc. split; [exact Ho|]. split; [exact (mx_view_change_of_elem o vc Hov)|]. split; [exact Hcs|].
  split; [exact Hh|]. exact (proj2 (Hends Hcert)).
Defined.

(** The new view of replica 1, given to replica 0. *)
Definition mx_new_view_of (nd : MxNode) : option MxPeer :=
  head (List.filter (fun m => match pm_message m with PUsig (MNewView _) => true | _ => false end) (mn_outs nd ≫= ou_broadcasts)).
Definition mx_new_view : Outcome MxPeer := nd ← mx_node mx_view_change 1; unwrap (mx_new_view_of nd).

Lemma mb_handlers_terminate_witness :
  exists (nd : MxNode) m, mx_new_view = Val m /\ on_peer_message mx_clock 1 m (mn_replica nd) <> NoFuel
    /\ on_timeout TT_Client (mn_replica nd) <> NoFuel.
Proof.
  destruct (holds_Val mx_new_view (fun _ => true)) as (m & Hm & _); [vm_compute; reflexivity|].
  destruct (mx_node_Val mx_requests 0 (fun _ => true)) as (nd & _ & Hr); [vm_compute; reflexivity|].
  destruct (mb_handlers_terminate mx_clock (mx_config 0) (mn_received nd) (mn_outs nd) (mn_replica nd) 1 m 3 4 [1%N] TT_Client
    mx_checks Hr) as (Hp & _ & Ht).
  exists nd, m. split; [exact Hm|]. split; [exact Hp|exact Ht].
Defined.
