(* ===== verification/MbPartTheorems.v ===== *)
(** * MinBFT: properties of its components

    The USIG, the order enforcer, the collector of commits, certificates, the state
    of a new view and the AESC batcher, each on any input.  Their witnesses, and the inputs on
    which a replica panics or is misled, are evaluated on [MbExamples]. *)

From Stdlib Require Import ZArith Lia String.
From stdpp Require Import sorting base list gmap sets numbers option.
From S2P Require Import Prelude Triple Ids Heaps Requests MbUsig MbBase MbMessages MbOrder MbCollectors MbBatcher.
From S2P Require Import MbRequests MbReplica MbOrderFacts MbCertFacts MbCollectFacts MbRequestFacts MbInvariant.
From S2P Require Import MbRun.

(** ** The USIG *)

Section usig.
  Context {Pr : Profile} {Q S V : Type} `{SignatureSchemeLaws Q S V} `{EqDecision V}.

(** What a USIG signs, another one accepts.  A signature of [UsigSignature]
    is accepted by every USIG that took its key from the attestation, for the
    message signed and under the sender's id; it carries the counter before the
    call, and the next one carries the next counter. *)
Theorem mb_usig_roundtrip (u v : Sgn.UsigSignature S V) id msg sig u' att u2 :
  overflow_checks = true ->
  ss_pair (Sgn.sh_private_key (Sgn.sg_sign_half u)) (Sgn.sh_public_key (Sgn.sg_sign_half u)) ->
  us_attest (Sig := Sgn.Signature Q) u = Val (Ok att, u2) ->
  us_sign u msg = Val (Ok sig, u') ->
  us_verify (us_add_remote_party (Sig := Sgn.Signature Q) v id att).2 id msg sig = Ok ()
  /\ Sgn.sig_counter sig = Sgn.sh_counter (Sgn.sg_sign_half u)
  /\ Sgn.sh_counter (Sgn.sg_sign_half u') = (Sgn.sig_counter sig + 1)%N.
Proof.
  intros Hoc Hpair Hatt Hsig. injection Hatt as <- _.
  destruct (us_sign_ok (UsigLaws := UsigSignature_laws Hoc) u msg sig u' Hsig) as [Hc Hn].
  unfold us_sign, Sgn.UsigSignature_impl, Sgn.UsigSignatureSignHalf_sign in Hsig.
  destruct (u64_add _ 1) as [next| |]; [|done..]. injection Hsig as <- <-. cbn in *. split_and!; [|done|exact Hn].
  unfold Sgn.UsigSignatureVerifyHalf_verify. cbn. rewrite lookup_insert_eq. by rewrite ss_correct.
Qed.
End usig.

Section parts.
  Context {Pr : Profile} {P U Sig Att : Type}.
  Context `{Hashbar P, Hashbar Sig, Hashbar Att} `{Digests} `{Usig U Sig Att} `{EqDecision Att} `{HashOrderLaws}.
  Local Abbreviation Msg := (UsigMessage P Sig Att).
  Local Abbreviation VMsg := (ViewPeerMessage P Sig Att).
  Local Abbreviation Prep := (Prepare P Sig Att).

(** ** The order enforcer *)

(** C12: the enforcer refines [ordered].  Whatever the order in which messages of
    a replica arrive, and however often, the enforcer does not panic and hands on,
    for each counter from zero up to the first one that is missing, exactly one of
    the messages received with that counter, in the order of the counters. *)
Theorem mb_order_enforcer (msgs : list Msg) :
  (N.of_nat (length msgs) < 2 ^ 64)%N ->
  exists out e, push_all msgs UsigMsgOrderEnforcer_default = Val (out, e)
    /\ ordered msgs out /\ oe_next_count e = N.of_nat (length out).
Proof. apply push_all_ordered. Qed.

(** [update_in_new_view] takes one early message per counter off the heap, whether
    or not the message has that counter: messages above the prepare can be lost. *)
Lemma update_loop_drops c fuel : forall next (heap : list Msg),
  (next <= c + 1)%N -> (c + 1 < 2 ^ 64)%N -> N.to_nat (c + 1 - next) < fuel ->
  update_in_new_view_loop fuel c next heap
  = Val ((c + 1)%N, Nat.iter (N.to_nat (c + 1 - next)) (fun heap => (MinHeap_pop (K := N) heap).2) heap).
Proof.
  induction fuel as [|fuel IH]; intros next heap Hle Hmax Hf; [lia|]. cbn [update_in_new_view_loop].
  destruct (N.leb_spec next c) as [Hn|Hn].
  - unfold Count_add_assign. rewrite u64_add_Val by lia. cbn [mbind Outcome_bind]. rewrite IH by lia. do 2 f_equal.
    replace (N.to_nat (c + 1 - next)) with (S (N.to_nat (c + 1 - (next + 1)))) by lia. by rewrite Nat.iter_succ_r.
  - replace next with (c + 1)%N by lia. by rewrite N.sub_diag.
Qed.

(** Without overflow checks the loop does not end for the greatest counter: the
    counter wraps around and stays at most the prepare's. *)
Theorem mb_new_view_update_diverges fuel : forall next (heap : list Msg),
  overflow_checks = false -> (next < 2 ^ 64)%N -> update_in_new_view_loop fuel (2 ^ 64 - 1) next heap = NoFuel.
Proof.
  induction fuel as [|fuel IH]; intros next heap Hoc Hn; [done|]. cbn [update_in_new_view_loop].
  destruct (N.leb_spec next (2 ^ 64 - 1)) as [_|]; [|lia]. unfold Count_add_assign, u64_add.
  destruct (N.ltb_spec (next + 1) (2 ^ 64)); [by apply IH|]. rewrite Hoc. apply IH; [done|]. by apply N.mod_lt.
Qed.

Theorem mb_new_view_update_drops c (e : UsigMsgOrderEnforcer P Sig Att) :
  (oe_next_count e <= c)%N -> (c + 1 < 2 ^ 64)%N ->
  exists heap', update_in_new_view c e = Val ((), e.[oe_next_count := (c + 1)%N].[oe_unprocessed := heap'])
    /\ length heap' = length (oe_unprocessed e) - N.to_nat (c + 1 - oe_next_count e).
Proof.
  intros Hle Hmax. unfold update_in_new_view, mbind, St_bind, self, modify, lift. cbn -[update_in_new_view_loop update_fuel Nat.iter MinHeap_pop].
  rewrite update_loop_drops; [|lia|done|unfold update_fuel; lia]. eexists. split; [reflexivity|].
  generalize (N.to_nat (c + 1 - oe_next_count e)) as n. induction n as [|n IH]; [cbn; lia|].
  cbn [snd] in *. rewrite Nat.iter_succ. cbn beta. rewrite MinHeap_pop_length, IH. lia.
Qed.

(** ** The collector of commits *)

Fixpoint collect_all (vs : list VMsg) (config : Config)
    : St (CollectorCommits P Sig Att) (list (Prep * list Msg)) :=
  match vs with
  | [] => mret []
  | v :: vs => acc ← CollectorCommits_collect v config; rest ← collect_all vs config; mret (acc ++ rest)
  end.

(** The first prepare that stays has too few messages. *)
Definition waits (t : N) (c : CollectorCommits P Sig Att) : Prop :=
  forall k p rest, cl_prepare c = (k, p) :: rest -> exists o, cl_recv_commits c !! k = Some o /\ (set_len o <= t)%N.

Lemma take_acceptable_waits t (entries : list (N * Prep)) : forall recv msgs acc c,
  take_acceptable t entries recv msgs = Val (acc, c) -> waits t c.
Proof.
  induction entries as [|[k p] entries IH]; intros recv msgs acc c; cbn; [by intros [= <- <-]|].
  intros (o & Ho & Hr)%outcome_bind_inv. destruct (N.leb_spec (set_len o) t) as [Hle|].
  - injection Hr as <- <-. intros k' p' rest [= <- <- <-]. exists o. split; [|done]. cbn.
    by destruct (recv !! k); [injection Ho as ->|].
  - apply outcome_bind_inv in Hr as (l & _ & Hr). apply outcome_bind_inv in Hr as ([acc' c'] & Hr & [= <- <-]). by eapply IH.
Qed.

Lemma set_outside (X F : gset N) (t : N) : (t < set_len X)%N -> (set_len F <= t)%N -> exists o, o ∈ X /\ o ∉ F.
Proof.
  unfold set_len. intros Ht HF. destruct (quorum_outside (elements X) F t) as (o & Ho & HoF).
  - apply NoDup_elements.
  - done.
  - done.
  - exists o. by rewrite <-elem_of_elements.
Qed.

Lemma collect_all_spec config vs : forall ms c, commits_inv ms c -> waits (cfg_t config) c ->
  exists acc c', collect_all vs config c = Val (acc, c') /\ Forall (acceptable (cfg_t config) (ms ++ vs)) acc
    /\ waits (cfg_t config) c'.
Proof.
  induction vs as [|v vs IH]; intros ms c Hinv Hw; cbn [collect_all]; [by exists [], c|].
  destruct (collect_commits_spec ms c v config Hinv) as (acc & c1 & Hc & Hinv1 & Hacc & _).
  assert (waits (cfg_t config) c1) as Hw1.
  { rewrite CollectorCommits_collect_eq in Hc. unfold mbind, St_bind in Hc.
    destruct (collect_origin _ _ _ _ c) as [[u c0]| |]; [|done..]. by eapply take_acceptable_waits. }
  destruct (IH _ _ Hinv1 Hw1) as (rest & c2 & Hr & Hrest & Hw2). exists (acc ++ rest), c2.
  unfold mbind, St_bind in *. rewrite Hc, Hr. split; [done|]. rewrite <-app_assoc in Hrest. split; [|done].
  apply Forall_app. split; [|done]. eapply list.Forall_impl; [exact Hacc|]. intros e (? & Hfor & w & Hw' & ?).
  split_and!; [done| |exists w; set_solver]. eapply msgs_for_mono; [|exact Hfor]. set_solver.
Qed.

(** No two prepares have one counter: what the USIG of the primary guarantees for
    the messages of a view. *)
Definition unequivocal (vs : list VMsg) : Prop :=
  forall v w, v ∈ vs -> w ∈ vs -> counter (msg_prepare v) = counter (msg_prepare w) -> msg_prepare v = msg_prepare w.

(** C11: a commit needs a quorum, and a quorum suffices.  Whatever messages the
    collector is given, every prepare it hands out is in one of them, and outside
    any [t] replicas there is one that sent a message for a prepare with the same
    counter; it is the same prepare where no two of the prepares given have one
    counter.  The first prepare the collector keeps has messages of at most [t]
    replicas. *)
Theorem mb_commit_quorum (vs : list VMsg) config :
  exists acc c, collect_all vs config CollectorCommits_new = Val (acc, c)
    /\ (forall p msgs, (p, msgs) ∈ acc ->
          (exists w, w ∈ vs /\ msg_prepare w = p)
          /\ forall faulty : gset N, (set_len faulty <= cfg_t config)%N ->
              exists v, v ∈ vs /\ MView v ∈ msgs /\ ViewPeerMessage_origin v ∉ faulty /\ counter (msg_prepare v) = counter p
                /\ (unequivocal vs -> msg_prepare v = p))
    /\ waits (cfg_t config) c.
Proof.
  destruct (collect_all_spec config vs [] CollectorCommits_new commits_inv_new) as (acc & c & Hc & Hacc & Hw); [done|].
  exists acc, c. split_and!; [done| |done]. intros p msgs Hp. rewrite list.Forall_forall in Hacc.
  destruct (Hacc _ Hp) as (Hq & Hfor & w & Hin & Hwp). cbn in Hq, Hfor, Hin, Hwp. split; [by exists w|].
  intros faulty HF. destruct (set_outside _ _ _ Hq HF) as (o & Ho & HoF).
  unfold origins_of in Ho. rewrite elem_of_list_to_set in Ho. apply list_elem_of_fmap in Ho as (m & -> & Hm).
  unfold msgs_for in Hfor. rewrite list.Forall_forall in Hfor. destruct (Hfor m Hm) as (v & -> & Hv & Hk). exists v.
  split_and!; [done..|]. intros Hu. rewrite <-Hwp in *. by apply Hu.
Qed.

(** ** Certificates *)

(** A valid checkpoint certificate speaks for a correct replica.  When a
    certificate is accepted, then outside any [t] replicas there is one whose
    checkpoint is in it, correctly signed, and it says the same as the first one:
    the state, the number of batches, the view and counter of the last prepare, the
    last requests, the attestations and the recovering replicas. *)
Theorem mb_checkpoint_certificate config usig (c : CheckpointCertificate Sig Att) (faulty : gset N) :
  CheckpointCertificate_validate config usig c = Val (Ok ()) -> (set_len faulty <= cfg_t config)%N ->
  exists m, m ∈ cc_my_checkpoint c :: cc_other_checkpoints c /\ cp_origin (us_data m) ∉ faulty
    /\ UsigSigned_verify m usig = Ok ()
    /\ (m = cc_my_checkpoint c \/ same_checkpoint (cc_my_checkpoint c) m = true).
Proof.
  rewrite CheckpointCertificate_validate_ok. intros (Hlen & Hnd & Hsame & Hver) HF.
  destruct (quorum_outside (cert_origins c) faulty (cfg_t config)) as (o & Ho & HoF); [done| |done|].
  { unfold cert_origins. rewrite length_fmap, length_cons. lia. }
  unfold cert_origins in Ho. apply list_elem_of_fmap in Ho as (m & -> & Hm). rewrite list.Forall_forall in Hver, Hsame.
  exists m. split_and!; [done|done|by apply Hver|]. apply elem_of_cons in Hm as [->|Hm]; [by left|right; by apply Hsame].
Qed.

(** C30: a valid new view speaks for a correct replica.  When the certificate of
    a [NewView] is accepted, its sender is the primary of the view, and outside any
    [t] replicas there is one whose view change for this view is in it and valid;
    if the counters of its log are pairwise different, the log has a message for
    each counter from its first one up to the view change. *)
Theorem mb_new_view_certificate config usig (c : NewViewCertificate (ViewChange P Sig Att)) origin next_view (faulty : gset N) :
  overflow_checks = true ->
  NewViewCertificate_validate config usig c origin next_view = Val (Ok ()) -> (set_len faulty <= cfg_t config)%N ->
  origin = Config_primary config next_view
  /\ exists vc, vc ∈ nvc_view_changes c /\ vc_origin (us_data vc) ∉ faulty /\ vc_next_view (us_data vc) = next_view
       /\ UsigSigned_verify vc usig = Ok ()
       /\ (NoDup (vc_counters vc) ->
           forall first k, first ∈ vc_counters vc -> (first <= k < counter vc)%N -> k ∈ vc_counters vc).
Proof.
  intros Hoc. rewrite NewViewCertificate_validate_ok. intros (Ho & Hlen & Hview & Hnd & Hval) HF. split; [done|].
  destruct (quorum_outside (vc_origins c) faulty (cfg_t config)) as (o & Hin & HoF); [done| |done|].
  { unfold vc_origins. by rewrite length_fmap. }
  unfold vc_origins in Hin. apply list_elem_of_fmap in Hin as (vc & -> & Hvc). rewrite list.Forall_forall in Hview, Hval.
  destruct (ViewChange_validate_inv config usig vc Hoc (Hval vc Hvc)) as (Hs & _ & _ & _ & _ & Hall).
  exists vc. split_and!; [done|done|by apply Hview|done|done].
Qed.

(** ** The state of a new view *)

(** The prepares of a log above the last accepted one. *)
Definition log_prepares (last : option N) (ms : list (UsigMessageV P Sig Att ViewChangeVariantNoLog)) : list Prep :=
  filter (fun p => option_ltb last (Some (counter p)) = true) (omap (fun m => match m with MView v => Some (msg_prepare v) | _ => None end) ms).

Lemma scan_log_prepares last ms : forall acc,
  (foldl (scan_log_message last) acc ms).1 = foldl (MinHeap_push (K := N)) acc.1 (log_prepares last ms).
Proof.
  induction ms as [|m ms IH]; intros [preps cp]; [done|]. cbn [foldl]. rewrite IH. unfold log_prepares.
  destruct m as [v|vc|nv|c]; cbn [omap list_omap scan_log_message fst].
  - fold (msg_prepare v). rewrite filter_cons. by destruct (option_ltb _ _) eqn:E; case_decide.
  - done.
  - done.
  - by repeat case_match.
Qed.

Definition counter_le (p q : Prep) : Prop := (counter p <= counter q)%N.

Lemma prepare_heap_le : forall p q : Prep, heap_le (K := N) p q <-> counter_le p q.
Proof.
  intros p q. unfold heap_le, counter_le, ord_leb, ord_cmp, N_Ord, key, Prepare_Keyable.
  destruct (N.compare_spec (counter p) (counter q)); split; (done || lia).
Qed.

(** Without a lower bound every counter is new; with one, those above it are. *)
Definition fresh (last : option N) (k : N) : Prop := forall c, last = Some c -> (c < k)%N.

Lemma unique_prepares_spec (heap : list Prep) : forall last,
  StronglySorted counter_le heap -> Forall (fun p => forall c, last = Some c -> (c <= counter p)%N) heap ->
  StronglySorted N.lt (counter <$> unique_prepares last heap)
  /\ Forall (fun p => fresh last (counter p)) (unique_prepares last heap)
  /\ forall p, p ∈ heap -> last = Some (counter p) \/ exists q, q ∈ unique_prepares last heap /\ counter q = counter p.
Proof.
  induction heap as [|h heap IH]; intros last Hs Hb; cbn [unique_prepares].
  { split_and!; [constructor|constructor|]. by intros p ?%elem_of_nil. }
  apply StronglySorted_inv in Hs as [Hs Hh]. apply list.Forall_cons in Hb as [Hb Hbs].
  destruct (match last with None => true | Some c => negb (c =? counter h)%N end) eqn:E.
  - destruct (IH (Some (counter h)) Hs) as (Hsort & Hfresh & Hall).
    { eapply list.Forall_impl; [exact Hh|]. by intros q Hq c [= <-]. }
    assert (fresh last (counter h)) as Hf.
    { intros c ->. specialize (Hb c eq_refl). apply negb_true_iff, N.eqb_neq in E. lia. }
    split_and!.
    + cbn. constructor; [done|]. apply Forall_fmap. eapply list.Forall_impl; [exact Hfresh|]. intros q Hq. by apply Hq.
    + constructor; [done|]. eapply list.Forall_impl; [exact Hfresh|]. intros q Hq c Hc.
      specialize (Hf c Hc). specialize (Hq (counter h) eq_refl). lia.
    + intros p [->|Hp]%elem_of_cons; [right; exists h; set_solver|].
      destruct (Hall p Hp) as [[= <-]|(q & Hq & Hc)]; right; [exists h|exists q]; set_solver.
  - destruct last as [c|]; [|done]. apply negb_false_iff, N.eqb_eq in E as ->.
    destruct (IH (Some (counter h)) Hs Hbs) as (Hsort & Hfresh & Hall). split_and!; [done|done|].
    intros p [->|Hp]%elem_of_cons; [by left|by apply Hall].
Qed.

(** The lookup of a strictly ascending list is injective. *)
Lemma ascending_lookup {A} (f : A -> N) (l : list A) i j x y :
  StronglySorted N.lt (f <$> l) -> l !! i = Some x -> l !! j = Some y -> f x = f y -> i = j.
Proof.
  revert i j. induction l as [|z l IH]; intros i j Hs Hi Hj Hf; [done|]. cbn in Hs. apply StronglySorted_inv in Hs as [Hs Hz].
  rewrite list.Forall_forall in Hz. destruct i as [|i], j as [|j]; cbn in Hi, Hj; [done| | |f_equal; by eapply IH].
  - injection Hi as ->. assert (f x < f y)%N; [|lia]. apply Hz, list_elem_of_fmap. exists y. split; [done|]. by eapply list_elem_of_lookup_2.
  - injection Hj as ->. assert (f y < f x)%N; [|lia]. apply Hz, list_elem_of_fmap. exists x. split; [done|]. by eapply list_elem_of_lookup_2.
Qed.

Lemma compute_preps_spec last (cert : NewViewCertificate (ViewChange P Sig Att)) :
  let log := concat ((fun vc => message_log (vc_variant (us_data vc))) <$> nvc_view_changes cert) in
  let preps := (compute_new_view_state last cert).2 in
  StronglySorted N.lt (counter <$> preps)
  /\ (forall p, p ∈ preps -> above last (counter p) /\ exists v, MView v ∈ log /\ msg_prepare v = p)
  /\ (forall v, MView v ∈ log -> above last (counter (msg_prepare v)) ->
        exists p, p ∈ preps /\ counter p = counter (msg_prepare v)).
Proof.
  intros log preps. unfold preps, compute_new_view_state. fold log.
  pose proof (scan_log_prepares last log ([], None)) as Hheap. destruct (foldl _ _ log) as [heap cp]. cbn in Hheap |- *.
  assert (MinHeap_wf (K := N) heap) as Hwf by (rewrite Hheap; apply foldl_push_wf, MinHeap_wf_nil).
  destruct (MinHeap_drain_spec heap Hwf) as [Hperm Hsorted].
  assert (StronglySorted counter_le (MinHeap_drain (K := N) heap)) as Hsort.
  { clear -Hsorted. induction Hsorted as [|x l _ IH Hall]; [constructor|]. constructor; [done|].
    eapply list.Forall_impl; [exact Hall|]. intros y. apply prepare_heap_le. }
  assert (forall p, p ∈ MinHeap_drain (K := N) heap <-> p ∈ log_prepares last log) as Hin.
  { intros p. rewrite Hperm, Hheap, foldl_push_Permutation, app_nil_r. done. }
  assert (forall p, p ∈ log_prepares last log <-> above last (counter p) /\ exists v, MView v ∈ log /\ msg_prepare v = p) as Hlog.
  { intros p. unfold log_prepares. rewrite list_elem_of_filter, list_elem_of_omap. split.
    - intros (Ha & m & Hm & Hp). split; [done|]. destruct m as [v|vc|nv|c]; try done. injection Hp as <-. by exists v.
    - intros (Ha & v & Hv & <-). split; [done|]. by exists (MView v). }
  destruct (unique_prepares_spec _ None Hsort) as (Hs & _ & Hall); [by apply list.Forall_forall|].
  split_and!; [done| |].
  - intros p Hp%unique_prepares_elem. by apply Hlog, Hin.
  - intros v Hv Ha. destruct (Hall (msg_prepare v)) as [|(q & Hq & Hc)]; [|done|by exists q].
    apply Hin, Hlog. split; [done|]. by exists v.
Qed.

(** C31: the prepares of a new view.  The prepares a replica executes on a
    [NewView] have strictly ascending counters above the last one it accepted, each
    is in the log of a view change, and every prepare in these logs with a counter
    above the last accepted one is executed, or another one with its counter. *)
Theorem mb_new_view_prepares last (cert : NewViewCertificate (ViewChange P Sig Att)) :
  let log := concat ((fun vc => message_log (vc_variant (us_data vc))) <$> nvc_view_changes cert) in
  let preps := (compute_new_view_state last cert).2 in
  StronglySorted N.lt (counter <$> preps)
  /\ (forall p, p ∈ preps -> above last (counter p) /\ exists v, MView v ∈ log /\ msg_prepare v = p)
  /\ (forall v, MView v ∈ log -> above last (counter (msg_prepare v)) ->
        exists p, p ∈ preps /\ counter p = counter (msg_prepare v)).
Proof. apply compute_preps_spec. Qed.
End parts.

(** ** Inputs that stop or mislead a replica *)

Section batcher.
  Context {P Att : Type} (clock : nat -> N) (rng : nat -> Z).

(** C35: bounds of the AESC batcher.  Over any calls whose committed batches have
    at most [max_batch_size] requests it does not panic; the batches it returns
    hold the requests it was given, each once and in their order, up to those that
    still wait; each batch has one to [max_batch_size] requests, and at most
    [max_inflight] batches are in flight. *)
Theorem mb_aesc_bounds max_batch_size max_inflight (cs : list (AescCall (P := P) (Att := Att))) :
  (0 < max_batch_size)%N -> Forall (call_fits max_batch_size) cs ->
  exists os a, aesc_calls clock rng cs (AESC_new max_batch_size max_inflight) = Val (os, a)
    /\ concat (issued <$> os) ++ ae_requests a = concat (call_requests <$> cs)
    /\ (forall o b, o ∈ os -> o.1 = Some b -> (0 < RequestBatch_len b <= max_batch_size)%N)
    /\ (N.of_nat (size (ae_issue_events a)) <= max_inflight)%N.
Proof.
  intros Hpos Hcs.
  destruct (aesc_calls_served clock rng max_batch_size max_inflight cs (AESC_new max_batch_size max_inflight))
    as (os & a & Hr & [_ _ Hi] & Hb & Hq); [done| |done|].
  - split; cbn; [rewrite length_replicate; lia|done|rewrite map_size_empty; lia].
  - exists os, a. split_and!; [done|done| |done]. rewrite list.Forall_forall in Hb. intros o b Ho. by apply Hb.
Qed.

(** A longer batch that starts with the request of one in flight panics the
    batcher.  The primary of a new view proposes all waiting requests in one
    batch, of any length. *)
Theorem mb_aesc_update_panics (a : AESC P Att) (b : RequestBatch P Att) r :
  RequestBatch_first b = Some r -> is_Some (ae_issue_events a !! first_id r) ->
  (N.of_nat (length (ae_optimizers a)) < RequestBatch_len b)%N -> AESC_update clock rng b a = Panic.
Proof.
  intros Hf [event He] Hl. unfold AESC_update, ae_now, RequestBatch_len in *. rewrite Hf.
  unfold mbind, St_bind. cbn. rewrite He. cbn. rewrite lookup_ge_None_2 by lia. done.
Qed.
End batcher.

Section panics.
  Context {Pr : Profile} {P U Sig Att Bt : Type}.
  Context `{Hashbar P, Hashbar Sig, Hashbar Att} `{Digests} `{Usig U Sig Att} `{EqDecision Att} `{HashOrderLaws}.
  Context `{RequestBatcher Bt P Att} (clock : nat -> N).

(** A prepare that claims to be from a replica that does not exist panics its
    receiver, before the signature is checked: any peer can stop a replica. *)
Theorem mb_unknown_origin_panics fuel from (p : Prepare P Sig Att) (s : MinBft P U Sig Att Bt) :
  (cfg_n (mb_config s) <= pr_origin (us_data p))%N ->
  handle_peer_message clock fuel from (mkPeerMessage (PUsig (MView (VPrepare p)))) s = Panic.
Proof.
  intros Hn. unfold handle_peer_message, handler, on_peer_message, new_output, mbind, St_bind, self, lift, inspect, modify.
  destruct (rust_assert _) as [[]| |] eqn:E1; [|done|by destruct (negb _) in E1].
  destruct (rust_assert (from <? _)%N) as [[]| |] eqn:E2; [|done|by destruct (_ <? _)%N in E2]. cbn.
  unfold PeerMessage_validate, UsigMessage_validate, ViewPeerMessage_validate, Prepare_validate, Config_is_primary. cbn.
  by rewrite (proj2 (N.ltb_ge _ _) Hn).
Qed.

(** A checkpoint of the same view as the own one is rejected as an older one,
    although its prepare may be the later one: the second test is never reached. *)
Theorem mb_newer_checkpoint_rejected (c1 c2 : CheckpointCertificate Sig Att) :
  same_checkpoint (cc_my_checkpoint c1) (cc_my_checkpoint c2) = false ->
  cp_view_latest_prep (us_data (cc_my_checkpoint c1)) = cp_view_latest_prep (us_data (cc_my_checkpoint c2)) ->
  new_view_decision (Some c1) (Some c2) = NV_Reject.
Proof. intros Hs Hv. unfold new_view_decision. rewrite Hs, Hv. by rewrite (proj2 (N.leb_le _ _) (N.le_refl _)). Qed.

(** The batcher of a replica that did not create the batch has no start time for it:
    with [EMABatcher] a backup panics when it accepts a prepare. *)
Theorem mb_ema_update_panics (batch : RequestBatch P Att) (b : EMABatcher P Att) id :
  ema_batch_id batch = Some id -> eb_start_times b !! id = None -> EMA_update clock batch b = Panic.
Proof.
  intros Hid Hs. unfold EMA_update, eb_now, mbind, St_bind, self, modify, lift. rewrite Hid. cbn. by rewrite Hs.
Qed.

(** One prepare per counter.  The prepares a new view executes are chosen by
    their counters alone.  Prepares of two views are signed by the USIGs of two
    primaries and can have the same counter: then one of them is not executed. *)
Theorem mb_new_view_drops_prepare last (cert : NewViewCertificate (ViewChange P Sig Att)) (p q : Prepare P Sig Att) :
  p <> q -> counter p = counter q ->
  p ∈ (compute_new_view_state last cert).2 -> ~ (q ∈ (compute_new_view_state last cert).2).
Proof.
  intros Hne Hc Hp Hq. destruct (compute_preps_spec last cert) as (Hs & _).
  apply list_elem_of_lookup in Hp as [i Hi], Hq as [j Hj].
  assert (i = j) as ->; [|congruence]. by eapply ascending_lookup.
Qed.
End panics.

(** ** On the concrete system *)

From S2P Require Import MbExamples.

Abbreviation MxPrep := (Prepare (list N) MxS MxAtt).
Abbreviation MxMsg := (UsigMessage (list N) MxS MxAtt).
Abbreviation MxVc := (ViewChange (list N) MxS MxAtt).

(** What the USIG of replica [i] signs with counter [k]. *)
Definition mx_signed {T} `{UsigSignable T} (i k : N) (data : T) : UsigSigned T MxS :=
  mkSigned data (Sgn.mkSignature k (mx_key i, Sgn.signed_bytes k (sha256 (hash_content data)))).

(** A USIG that knows the keys of the replicas. *)
Definition mx_knows : MxUsig :=
  foldl (fun u i => (us_add_remote_party (Sig := MxS) u i (Sgn.mkPubKey (mx_key i))).2)
    (Sgn.UsigSignature_new (mx_key 0) (mx_key 0)) [0; 1; 2]%N.

Definition mx_checkpoint (i : N) : CheckpointContent MxAtt := mkCheckpoint i 4 0 [1%N] 2 ∅ ∅ ∅.
Definition mx_batch (payload : list N) : RequestBatch (list N) MxAtt :=
  RequestBatch_new [mkClientRequest 3 (WP_Client 1 payload)].

#[export] Instance ChangeInProgress_eq_dec : EqDecision ChangeInProgress.
Proof. solve_decision. Defined.
#[export] Instance InnerError_eq_dec : EqDecision InnerError.
Proof. solve_decision. Defined.
#[export] Instance ViewInfo_eq_dec : EqDecision ViewInfo.
Proof. solve_decision. Defined.
#[export] Instance Result_eq_dec {A E} `{EqDecision A, EqDecision E} : EqDecision (Result A E).
Proof. solve_decision. Defined.
#[export] Instance Outcome_eq_dec {A} `{EqDecision A} : EqDecision (Outcome A).
Proof. solve_decision. Defined.
#[export] Instance RecoveryRequestPayload_eq_dec {A} `{EqDecision A} : EqDecision (RecoveryRequestPayload A).
Proof. solve_decision. Defined.
#[export] Instance WrappedRequestPayload_eq_dec {A B} `{EqDecision A, EqDecision B} : EqDecision (WrappedRequestPayload A B).
Proof. solve_decision. Defined.

(** The test for holes counts.  A view change is accepted whose log has no
    message for the counter 1: the log has as many messages as it should, because
    it has another one twice. *)
Theorem mb_log_hole_accepted :
  exists vc : MxVc, ViewChange_validate (mx_config 0) mx_knows vc = Val (Ok ())
    /\ counter vc = 3%N /\ vc_counters vc = [0; 0; 2]%N.
Proof.
  exists (mx_signed 1 3 (mkViewChange 1 1 None (mkLog
    [MCheckpoint (mx_signed 1 0 (mx_checkpoint 1)); MCheckpoint (mx_signed 1 0 (mx_checkpoint 1));
     MCheckpoint (mx_signed 1 2 (mx_checkpoint 1))]))).
  by vm_compute.
Qed.

(** Two batches, one signature.  Requests are hashed one after the other
    without their lengths.  There are two different batches, of one and of two
    requests, such that every signature of a prepare with one of them is valid for
    the prepare with the other: a primary can commit replicas to different batches
    under one counter. *)
Theorem mb_batch_signature_reused :
  exists b1 b2 : RequestBatch (list N) MxAtt, b1 <> b2
    /\ forall origin view (sig : MxS) (usig : MxUsig),
         UsigSigned_verify (mkSigned (mkPrepare origin view b1) sig) usig
         = UsigSigned_verify (mkSigned (mkPrepare origin view b2) sig) usig.
Proof.
  set (r2 := mkClientRequest 4 (WP_Client 1 [9%N]) : ClientRequest (list N) MxAtt).
  exists (mx_batch (7%N :: ClientRequest_hash r2)), (RequestBatch_new (rb_batch (mx_batch [7%N]) ++ [r2])).
  split; [by intros [=]|]. intros origin view sig usig. unfold UsigSigned_verify. do 2 f_equal.
Qed.

(** C40: a forged prepare is executed.  The messages in the log of a view change
    are processed without checking their signatures.  Replica 2 alone makes replica
    1 execute a request of its choice, with a view change signed by its USIG whose
    log holds a prepare in the name of the primary 0 that does not validate. *)
Theorem mb_forged_prepare_executed :
  exists (nd : MxNode) (vc : MxVc) (forged : MxPrep) o s,
    node_run 1 nd
    /\ vc_origin (us_data vc) = 2%N /\ UsigSigned_verify vc (mb_usig (mn_replica nd)) = Ok ()
    /\ message_log (vc_variant (us_data vc)) = [MView (VPrepare forged)] /\ pr_origin (us_data forged) = 0%N
    /\ Prepare_validate (mx_config 1) (mb_usig (mn_replica nd)) forged = Val (Err (InnerError_Usig InvalidSignature 1 "Prepare" 0))
    /\ handle_peer_message mx_clock 20 2 (mkPeerMessage (PUsig (MViewChange vc))) (mn_replica nd) = Val (o, s)
    /\ ou_responses o = response_of <$> rb_batch (pr_request_batch (us_data forged)) /\ ou_responses o <> [].
Proof.
  set (forged := mx_signed 2 0 (mkPrepare 0 0 (mx_batch [66%N])) : MxPrep).
  set (vc := mx_signed 2 1 (mkViewChange 2 1 None (mkLog [MView (VPrepare forged)])) : MxVc).
  destruct (mx_node_Val [] 1 (fun nd =>
    bool_decide (UsigSigned_verify vc (mb_usig (mn_replica nd)) = Ok ())
    && bool_decide (Prepare_validate (mx_config 1) (mb_usig (mn_replica nd)) forged
                    = Val (Err (InnerError_Usig InvalidSignature 1 "Prepare" 0)))
    && holds (handle_peer_message mx_clock 20 2 (mkPeerMessage (PUsig (MViewChange vc))) (mn_replica nd))
         (fun r => bool_decide (ou_responses r.1 = [(3, WP_Client 1 [66])]%N)))) as (nd & Ht & Hr); [vm_compute; reflexivity|].
  apply andb_prop in Ht as [[Hvc%bool_decide_eq_true Hp%bool_decide_eq_true]%andb_prop Hh].
  apply holds_Val in Hh as ([o s] & Hh & Ho%bool_decide_eq_true). exists nd, vc, forged, o, s.
  split_and!; [exact Hr|reflexivity|exact Hvc|reflexivity|reflexivity|exact Hp|exact Hh|exact Ho|].
  cbn in Ho. by rewrite Ho.
Qed.

(** The certificate of a new view is not enforced.  Replica 2 has stopped view
    0 and waits for view 4.  It adopts view 1, an earlier one, on a message from
    replica 1 whose certificate holds no view change and does not validate. *)
Theorem mb_new_view_unchecked :
  exists (nd : MxNode) (nv : NewView (list N) MxS MxAtt) o s,
    node_run 2 nd
    /\ mb_view_state (mn_replica nd) = VS_ChangeInProgress (mkChangeInProgress 0 4 true)
    /\ NewViewCertificate_validate (mx_config 2) (mb_usig (mn_replica nd)) (nv_certificate (nv_data nv)) 1 1
       = Val (Err (NewViewCheckpointCertNotSufficientMsgs 2))
    /\ handle_peer_message mx_clock 20 1 (mkPeerMessage (PUsig (MNewView nv))) (mn_replica nd) = Val (o, s)
    /\ ou_view_info o = VI_InView 1.
Proof.
  set (rvc := mkPeerMessage (PReqViewChange (mkReqViewChange 0 4)) : MxPeer).
  set (nv := mkNewView (mx_signed 1 0 (mkNewViewContent 1 1 (mkNewViewCertificate (@nil MxVc))))).
  destruct (mx_node_Val [(2, MxMessage 0 rvc); (2, MxMessage 1 rvc)]%N 2 (fun nd =>
    match mb_view_state (mn_replica nd),
          NewViewCertificate_validate (mx_config 2) (mb_usig (mn_replica nd)) (nv_certificate (nv_data nv)) 1 1,
          handle_peer_message mx_clock 20 1 (mkPeerMessage (PUsig (MNewView nv))) (mn_replica nd) with
    | VS_ChangeInProgress ip, Val (Err e), Val (o, _) =>
        bool_decide (ip = mkChangeInProgress 0 4 true) && bool_decide (e = NewViewCheckpointCertNotSufficientMsgs 2)
        && bool_decide (ou_view_info o = VI_InView 1)
    | _, _, _ => false
    end)) as (nd & Ht & Hr); [vm_compute; reflexivity|].
  exists nd, nv. destruct (mb_view_state (mn_replica nd)) as [|ip] eqn:Hv; [discriminate|].
  destruct (NewViewCertificate_validate _ _ _ _ _) as [[|e]| |] eqn:Hc; try discriminate.
  destruct (handle_peer_message _ _ _ _ _) as [[o s]| |] eqn:Hh; try discriminate. exists o, s.
  apply andb_prop in Ht as [[->%bool_decide_eq_true ->%bool_decide_eq_true]%andb_prop Ho%bool_decide_eq_true].
  done.
Qed.

(** ** Witnesses *)

Lemma mb_usig_roundtrip_witness :
  exists (u' : MxUsig) sig, us_sign (Sgn.UsigSignature_new 101%N 101%N) [5%N] = Val (Ok sig, u')
    /\ us_verify (us_add_remote_party (Sig := MxS) mx_knows 7 (Sgn.mkPubKey 101%N)).2 7 [5%N] sig = Ok ().
Proof.
  eexists _, _. split; [vm_compute; reflexivity|].
  refine (proj1 (mb_usig_roundtrip (Sgn.UsigSignature_new 101%N 101%N) mx_knows 7 [5%N] _ _ (Sgn.mkPubKey 101%N) _ mx_checks _ _ _));
    vm_compute; reflexivity.
Defined.

(** Messages of replica 1, most of them early, the one with counter 2 twice, one after a gap. *)
Definition mx_arrivals : list MxMsg :=
  (fun k => MCheckpoint (mx_signed 1 k (mx_checkpoint 1))) <$> [2; 1; 2; 4; 0]%N.

Lemma mb_order_enforcer_witness :
  exists out e, push_all mx_arrivals UsigMsgOrderEnforcer_default = Val (out, e)
    /\ ordered mx_arrivals out /\ counter <$> out = [0; 1; 2]%N.
Proof.
  destruct (mb_order_enforcer mx_arrivals) as (out & e & He & Ho & _); [vm_compute; reflexivity|].
  exists out, e. split; [exact He|]. split; [exact Ho|].
  assert (exists e', push_all mx_arrivals UsigMsgOrderEnforcer_default
            = Val ((fun k => MCheckpoint (mx_signed 1 k (mx_checkpoint 1))) <$> [0; 1; 2]%N, e')) as [e' He']
    by (eexists; vm_compute; reflexivity).
  rewrite He in He'. injection He' as -> _. vm_compute. reflexivity.
Defined.

Lemma mb_checkpoint_certificate_witness :
  exists m, m ∈ [mx_signed 0 5 (mx_checkpoint 0); mx_signed 1 6 (mx_checkpoint 1)]
    /\ cp_origin (us_data m) ∉ ({[0%N]} : gset N).
Proof.
  destruct (mb_checkpoint_certificate (mx_config 2) mx_knows
    (mkCertificate (mx_signed 0 5 (mx_checkpoint 0)) [mx_signed 1 6 (mx_checkpoint 1)]) {[0%N]}) as (m & Hm & Ho & _);
    [vm_compute; reflexivity|vm_compute; discriminate|].
  exists m. split; [exact Hm|exact Ho].
Defined.

(** Two view changes without a log. *)
Definition mx_vc (i : N) : MxVc := mx_signed i 0 (mkViewChange i 1 None (mkLog [])).

Lemma mb_new_view_certificate_witness :
  exists vc, vc ∈ [mx_vc 1; mx_vc 2] /\ vc_origin (us_data vc) ∉ ({[1%N]} : gset N).
Proof.
  destruct (mb_new_view_certificate (mx_config 0) mx_knows (mkNewViewCertificate [mx_vc 1; mx_vc 2]) 1 1 {[1%N]})
    as (_ & vc & Hvc & Ho & _); [exact mx_checks|vm_compute; reflexivity|vm_compute; discriminate|].
  exists vc. split; [exact Hvc|exact Ho].
Defined.

(** A prepare of view 0 by replica 0 and one of view 1 by replica 1, both with counter 5. *)
Definition mx_prepare_0 : MxPrep := mx_signed 0 5 (mkPrepare 0 0 (mx_batch [7%N])).
Definition mx_prepare_1 : MxPrep := mx_signed 1 5 (mkPrepare 1 1 (mx_batch [8%N])).
Definition mx_two_views : NewViewCertificate MxVc :=
  mkNewViewCertificate [mx_signed 2 9 (mkViewChange 2 2 None (mkLog [MView (VPrepare mx_prepare_0); MView (VPrepare mx_prepare_1)]))].

Lemma mb_new_view_drops_prepare_witness :
  Prepare_validate (mx_config 2) mx_knows mx_prepare_0 = Val (Ok ())
  /\ Prepare_validate (mx_config 2) mx_knows mx_prepare_1 = Val (Ok ())
  /\ ~ (mx_prepare_1 ∈ (compute_new_view_state (Some 3%N) mx_two_views).2).
Proof.
  split; [vm_compute; reflexivity|]. split; [vm_compute; reflexivity|].
  apply (mb_new_view_drops_prepare (Some 3%N) mx_two_views mx_prepare_0 mx_prepare_1);
    [by intros [=]|reflexivity|vm_compute; by left].
Defined.

Lemma mb_unknown_origin_panics_witness :
  exists nd : MxNode, node_run 0 nd
    /\ handle_peer_message mx_clock 20 1 (mkPeerMessage (PUsig (MView (VPrepare (mx_signed 1 0 (mkPrepare 9 0 (mx_batch [])))))))
         (mn_replica nd) = Panic.
Proof.
  destruct (mx_node_Val [] 0 (fun nd => (cfg_n (mb_config (mn_replica nd)) <=? 9)%N)) as (nd & Hn%N.leb_le & Hr); [vm_compute; reflexivity|].
  exists nd. split; [exact Hr|]. apply mb_unknown_origin_panics. exact Hn.
Defined.

(** Three requests, batches of at most two, one in flight: the first request goes
    out alone, the others when its batch was committed. *)
Definition mx_request (k : N) : ClientRequest (list N) MxAtt := mkClientRequest 3 (WP_Client k [k]).
Definition mx_aesc : list AescCall :=
  [AC_Batch (mx_request 1); AC_Batch (mx_request 2); AC_Batch (mx_request 3); AC_Update (RequestBatch_new [mx_request 1])].

Lemma mb_aesc_bounds_witness :
  exists os a, aesc_calls mx_clock mx_rng mx_aesc (AESC_new 2 1) = Val (os, a)
    /\ concat (issued <$> os) ++ ae_requests a = [mx_request 1; mx_request 2; mx_request 3].
Proof.
  destruct (mb_aesc_bounds mx_clock mx_rng 2 1 mx_aesc) as (os & a & Hr & Hq & _);
    [reflexivity|repeat constructor; vm_compute; discriminate|].
  exists os, a. split; [exact Hr|exact Hq].
Defined.

(** The prepare of replica 0 and the commit of replica 1 make a quorum. *)
Lemma mb_commit_quorum_witness :
  exists acc c, collect_all [VPrepare mx_prepare_0; VCommit (mx_signed 1 0 (mkCommit 1 mx_prepare_0))] (mx_config 2)
                  CollectorCommits_new = Val (acc, c)
    /\ acc.*1 = [mx_prepare_0] /\ waits 1 c.
Proof.
  destruct (mb_commit_quorum [VPrepare mx_prepare_0; VCommit (mx_signed 1 0 (mkCommit 1 mx_prepare_0))] (mx_config 2))
    as (acc & c & Hr & _ & Hw).
  exists acc, c. split; [exact Hr|]. split; [|exact Hw]. vm_compute in Hr. injection Hr as <- <-. vm_compute. reflexivity.
Defined.

(** The collector counts by counters: where replica 0 makes two prepares with one
    counter, the second one is handed out with the messages for the first. *)
Theorem mb_commit_counts_counters :
  exists (acc : list (MxPrep * _)) c,
    collect_all [VPrepare mx_prepare_0; VCommit (mx_signed 2 0 (mkCommit 2 (mx_signed 0 5 (mkPrepare 0 0 (mx_batch [8%N])))))]
      (mx_config 1) CollectorCommits_new = Val (acc, c)
    /\ acc.*1 = [mx_signed 0 5 (mkPrepare 0 0 (mx_batch [8%N]))].
Proof. eexists _, _. split; vm_compute; reflexivity. Qed.

(** Of the two prepares of counter 5 one is executed. *)
Lemma mb_new_view_prepares_witness :
  exists p, p ∈ (compute_new_view_state (Some 3%N) mx_two_views).2 /\ counter p = counter mx_prepare_1.
Proof.
  apply (proj2 (proj2 (mb_new_view_prepares (Some 3%N) mx_two_views)) (VPrepare mx_prepare_1)); [|reflexivity].
  vm_compute. right. left.
Defined.
