(* ===== verification/Wrapper.v ===== *)
(** * The runtime of an atomic broadcast

    Models [src/atomic-broadcast/abcperf-abcwrapper]: the trait [AbcWrapper] a
    protocol implements, and the three concurrent tasks that [start] connects by
    channels: [async_to_sync_worker], which turns messages, client requests and
    elapsed timeouts into commands; [abc_worker], which runs the protocol on
    them; and the [OutputHandler], which carries out what the protocol asks for.

    The tasks interleave.  [step a s] is what the action [a] does to the state
    [s] of the three tasks and their channels, [None] when the task of [a] waits;
    the actions of the environment put messages into the channels, take what the
    tasks put there, close channels, keep the network from taking messages and let
    time pass.  A channel is the list of what is in it, a bounded one makes its
    sender wait when it holds [channel_capacity] elements.  Of the channels to the
    environment, everything that was ever put into them is recorded, with the number
    of elements that were taken.  [now] is the clock, in nanoseconds.  Log output is
    left out. *)

From Stdlib Require Import ZArith Lia String.
From stdpp Require Import base list sets option numbers.
From S2P Require Import Prelude.

(** ** [abcperf]: message destinations and live information *)

Inductive MessageDestination := MD_Unicast (id : N) | MD_Broadcast.
Inductive MessageType := MT_Unicast | MT_Broadcast.

Record AtomicBroadcastInfo := mkInfo {
  ai_ready : bool;
  ai_state : string;
  ai_leader : option N;
}.
#[export] Instance AtomicBroadcastInfo_eq_dec : EqDecision AtomicBroadcastInfo.
Proof. solve_decision. Defined.

(** ** [timeout.rs] *)

Record StopClass := mkStopClass { sc_class : N }.
#[export] Instance StopClass_eq_dec : EqDecision StopClass.
Proof. solve_decision. Defined.

Section timeout_list.
  Context {T : Type} `{EqDecision T}.

Record TimeoutListEntry := mkEntry { te_timeout : N; te_typ : T; te_stop_class : StopClass }.

(** [TimeoutList] is the [BinaryHeap], as the list of its entries; the order in it
    is not observable but through [wait_for_timeout]. *)
Local Abbreviation TimeoutList := (list TimeoutListEntry).

Definition TimeoutList_remove (typ : T) (stop_class : StopClass) (l : TimeoutList) : TimeoutList :=
  filter (fun e => te_typ e <> typ \/ te_stop_class e <> stop_class) l.

Definition TimeoutList_remove_all (typ : T) (l : TimeoutList) : TimeoutList :=
  filter (fun e => te_typ e <> typ) l.

Definition TimeoutList_insert (typ : T) (timeout : N) (stop_class : StopClass) (l : TimeoutList) : TimeoutList :=
  mkEntry timeout typ stop_class :: TimeoutList_remove_all typ l.

(** A greatest entry in the order of the heap, which reverses that of the instants. *)
Definition earliest (e : TimeoutListEntry) (l : TimeoutList) : bool :=
  forallb (fun e' => te_timeout e <=? te_timeout e')%N l.

(** The future is ready when the earliest timeout has elapsed.  Among entries with
    the same instant the heap may have any at its top: [k] is the one it has. *)
Definition wait_for_timeout (now : N) (k : nat) (l : TimeoutList) : option (N * T * TimeoutList) :=
  match l !! k with
  | Some e => if earliest e l && (te_timeout e <=? now)%N then Some (te_timeout e, te_typ e, delete k l) else None
  | None => None
  end.

End timeout_list.
Arguments TimeoutListEntry : clear implicits.
Abbreviation TimeoutList T := (list (TimeoutListEntry T)).

(** ** The interface of a protocol *)

Inductive TimeoutChanage :=
| TC_Set (time : N) (stop_class : StopClass)
| TC_Remove (stop_class : StopClass)
| TC_RemoveAll.

Inductive TimeoutChanageStarted :=
| TS_Set (time : N) (stop_class : StopClass)
| TS_Remove (stop_class : StopClass)
| TS_RemoveAll.

(** [Instant] is not bounded here, so that [now() + time] does not overflow. *)
Definition TimeoutChanage_start (now : N) (c : TimeoutChanage) : TimeoutChanageStarted :=
  match c with
  | TC_Set time stop_class => TS_Set (now + time)%N stop_class
  | TC_Remove stop_class => TS_Remove stop_class
  | TC_RemoveAll => TS_RemoveAll
  end.

(** What [destructure] returns. *)
Record Destructured (T M R I : Type) := mkDestructured {
  ds_timeouts : list (T * TimeoutChanage);
  ds_messages : list (MessageDestination * M);
  ds_decisions : list (N * N * R);
  ds_info : I;
  ds_decision_times : list N;
}.
Arguments mkDestructured {T M R I}.
Arguments ds_timeouts {T M R I}.
Arguments ds_messages {T M R I}.
Arguments ds_decisions {T M R I}.
Arguments ds_info {T M R I}.
Arguments ds_decision_times {T M R I}.

(** The traits [AbcWrapper], [AbcOutput] and [GenAtomicBroadcastInfo]. *)
Class AbcWrapper := {
  Abc : Type;
  AbcTimeout : Type;
  AbcTimeout_eq_dec :: EqDecision AbcTimeout;
  AbcMessage : Type;
  AbcRequest : Type;
  AbcOutput : Type;
  AbcBackup : Type;
  AbcInfo : Type;
  abc_init : St Abc AbcOutput;
  abc_handle_timeout : AbcTimeout -> St Abc AbcOutput;
  abc_handle_peer_message : MessageType -> N -> AbcMessage -> St Abc AbcOutput;
  abc_handle_client_request : N * N * AbcRequest -> St Abc AbcOutput;
  abc_backup : St Abc AbcBackup;
  abc_restore : AbcBackup -> St Abc (option AbcOutput);
  out_is_empty : AbcOutput -> bool;
  out_sets_ready : AbcOutput -> bool;
  out_do_backup : AbcOutput -> bool;
  out_destructure : AbcOutput -> bool -> Destructured AbcTimeout AbcMessage AbcRequest AbcInfo;
  (** [generate_info(&mut self, prev)]: the information to send, and the new [self]. *)
  generate_info : AbcInfo -> option AbcInfo -> option AtomicBroadcastInfo * AbcInfo;
}.

(** [GenAtomicBroadcastInfo for AtomicBroadcastInfo] *)
Definition AtomicBroadcastInfo_generate_info (self : AtomicBroadcastInfo) (prev : option AtomicBroadcastInfo)
    : option AtomicBroadcastInfo * AtomicBroadcastInfo :=
  if bool_decide (Some self <> prev) then (Some self, self) else (None, self).

Section wrapper.
  Context `{W : AbcWrapper}.

Inductive AbcCommand :=
| Cmd_Timeout (typ : AbcTimeout)
| Cmd_PeerMessage (typ : MessageType) (from : N) (m : AbcMessage)
| Cmd_ClientRequest (r : N * N * AbcRequest)
| Cmd_Backup
| Cmd_Recover.

(** [mpsc::channel(1000)] *)
Definition channel_capacity : nat := 1000.

(** [mpsc::channel(100)], of [update_info] *)
Definition info_capacity : nat := 100.

(** ** The tasks *)

(** [abc_worker], at its suspension points: before [init], waiting for a command,
    waiting to send an output, ended (returned or panicked, as [sy_panicked] says), or
    in a handler that does not return. *)
Inductive WorkerPhase :=
| W_Init
| W_Recv
| W_Send (o : AbcOutput)
| W_Ended
| W_Diverges.

(** [async_to_sync_worker]: in [select!], waiting to send a command, returned. *)
Inductive AsyncPhase :=
| A_Select
| A_Send (c : AbcCommand)
| A_Ended.

(** [OutputHandler::run]: waiting for an output; in [process_output], sending
    timeouts, decisions or messages; returned.  The rest of an output travels with
    the phase. *)
Inductive HandlerPhase :=
| H_Recv
| H_Timeouts (now : option N) (d : Destructured AbcTimeout AbcMessage AbcRequest AbcInfo)
| H_Decisions (d : Destructured AbcTimeout AbcMessage AbcRequest AbcInfo)
| H_Messages (d : Destructured AbcTimeout AbcMessage AbcRequest AbcInfo)
| H_Ended.

Record System := mkSystem {
  (* [abc_worker] *)
  sy_abc : Abc;
  sy_backup : option AbcBackup;
  sy_worker : WorkerPhase;
  (* [async_to_sync_worker] *)
  sy_async : AsyncPhase;
  sy_timeout_list : TimeoutList AbcTimeout;
  sy_replica_open : bool;
  sy_client_open : bool;
  sy_ignore_timeouts_until : N;
  (* [OutputHandler] *)
  sy_handler : HandlerPhase;
  sy_ready_for_clients : bool; (* whether the function has not been taken yet *)
  sy_ready : bool;
  sy_last_info : option AbcInfo;
  sy_stats : list N;
  (* channels between the tasks *)
  sy_commands : list AbcCommand;
  sy_outputs : list AbcOutput;
  sy_timeouts : list (AbcTimeout * TimeoutChanageStarted);
  sy_do_backup : list ();
  (* channels from and to the environment *)
  sy_now : N;
  sy_peers : list (MessageType * N * AbcMessage);
  sy_peers_closed : bool;
  sy_requests : list (N * N * AbcRequest);
  sy_requests_closed : bool;
  sy_do_recover : list ();
  sy_decisions_closed : bool;
  sy_delivered : list (N * N * AbcRequest);
  sy_sent : list (MessageDestination * AbcMessage);
  sy_infos : list AtomicBroadcastInfo;
  sy_ready_calls : nat;
  sy_taken : nat; (* of [sy_delivered] *)
  sy_net_busy : bool;
  sy_infos_taken : nat; (* of [sy_infos] *)
  sy_infos_closed : bool;
  (* a handler of the protocol panicked *)
  sy_panicked : bool;
}.
#[export] Instance System_eta : Eta System := fun s =>
  mkSystem (sy_abc s) (sy_backup s) (sy_worker s) (sy_async s) (sy_timeout_list s) (sy_replica_open s)
    (sy_client_open s) (sy_ignore_timeouts_until s) (sy_handler s) (sy_ready_for_clients s) (sy_ready s)
    (sy_last_info s) (sy_stats s) (sy_commands s) (sy_outputs s) (sy_timeouts s) (sy_do_backup s) (sy_now s)
    (sy_peers s) (sy_peers_closed s) (sy_requests s) (sy_requests_closed s) (sy_do_recover s)
    (sy_decisions_closed s) (sy_delivered s) (sy_sent s) (sy_infos s) (sy_ready_calls s)
    (sy_taken s) (sy_net_busy s) (sy_infos_taken s) (sy_infos_closed s) (sy_panicked s).

(** [start], with the protocol [T::new] made and the clock read at [now]; the
    duration is in seconds. *)
Definition start (abc : Abc) (ignore_timeouts_for : option N) (now : N) : System := {|
  sy_abc := abc; sy_backup := None; sy_worker := W_Init;
  sy_async := A_Select; sy_timeout_list := []; sy_replica_open := true; sy_client_open := true;
  sy_ignore_timeouts_until := (now + default 0 ignore_timeouts_for * 1000000000)%N;
  sy_handler := H_Recv; sy_ready_for_clients := true; sy_ready := false; sy_last_info := None; sy_stats := [];
  sy_commands := []; sy_outputs := []; sy_timeouts := []; sy_do_backup := [];
  sy_now := now; sy_peers := []; sy_peers_closed := false; sy_requests := []; sy_requests_closed := false;
  sy_do_recover := []; sy_decisions_closed := false; sy_delivered := []; sy_sent := []; sy_infos := [];
  sy_ready_calls := 0;
  sy_taken := 0; sy_net_busy := false; sy_infos_taken := 0; sy_infos_closed := false; sy_panicked := false;
|}.

(** *** [abc_worker] *)

(** The [match cmd] of the loop: the output of a command, [None] for [continue]. *)
Definition run_command (c : AbcCommand) (abc : Abc) (backup : option AbcBackup)
    : Outcome (option AbcOutput * Abc * option AbcBackup) :=
  match c with
  | Cmd_ClientRequest r => '(o, abc) ← abc_handle_client_request r abc; Val (Some o, abc, backup)
  | Cmd_PeerMessage typ from m => '(o, abc) ← abc_handle_peer_message typ from m abc; Val (Some o, abc, backup)
  | Cmd_Timeout typ => '(o, abc) ← abc_handle_timeout typ abc; Val (Some o, abc, backup)
  | Cmd_Backup => '(b, abc) ← abc_backup abc; Val (None, abc, Some b)
  | Cmd_Recover =>
      match backup with
      | Some b => '(o, abc) ← abc_restore b abc; Val (o, abc, backup)
      | None => Val (None, abc, backup)
      end
  end.

(** Whether the output is sent: [None] and empty outputs [continue]. *)
Definition to_send (o : option AbcOutput) : WorkerPhase :=
  match o with
  | Some o => if out_is_empty o then W_Recv else W_Send o
  | None => W_Recv
  end.

(** A panic ends the thread, which drops its ends of the channels. *)
Definition step_worker (s : System) : option System :=
  match sy_worker s with
  | W_Init =>
      match abc_init (sy_abc s) with
      | Val (o, abc) => Some s.[sy_abc := abc].[sy_worker := W_Send o]
      | Panic => Some s.[sy_worker := W_Ended].[sy_panicked := true]
      | NoFuel => Some s.[sy_worker := W_Diverges]
      end
  | W_Recv =>
      match sy_commands s with
      | c :: cs =>
          match run_command c (sy_abc s) (sy_backup s) with
          | Val (o, abc, b) => Some s.[sy_commands := cs].[sy_abc := abc].[sy_backup := b].[sy_worker := to_send o]
          | Panic => Some s.[sy_commands := cs].[sy_worker := W_Ended].[sy_panicked := true]
          | NoFuel => Some s.[sy_commands := cs].[sy_worker := W_Diverges]
          end
      | [] =>
          match sy_async s with
          | A_Ended => Some s.[sy_worker := W_Ended]
          | _ => None
          end
      end
  | W_Send o =>
      if length (sy_outputs s) <? channel_capacity
      then Some s.[sy_outputs ::= fun os => os ++ [o]].[sy_worker := W_Recv]
      else None
  | W_Ended | W_Diverges => None
  end.

(** *** [async_to_sync_worker] *)

Definition change_timeout (typ : AbcTimeout) (c : TimeoutChanageStarted) (l : TimeoutList AbcTimeout)
    : TimeoutList AbcTimeout :=
  match c with
  | TS_Set time stop_class => TimeoutList_insert typ time stop_class l
  | TS_Remove stop_class => TimeoutList_remove typ stop_class l
  | TS_RemoveAll => TimeoutList_remove_all typ l
  end.

(** The branches of the biased [select!], in their order: the first that is ready
    is taken; [None] when none is.  [k] resolves ties of the timeouts. *)
Definition step_select (k : nat) (s : System) : option System :=
  if negb (sy_replica_open s || sy_client_open s) then Some s.[sy_async := A_Ended]
  else match sy_do_backup s with
  | _ :: q => Some s.[sy_do_backup := q].[sy_async := A_Send Cmd_Backup]
  | [] =>
  match sy_do_recover s with
  | _ :: q => Some s.[sy_do_recover := q].[sy_async := A_Send Cmd_Recover]
  | [] =>
  match sy_timeouts s with
  | (typ, c) :: q => Some s.[sy_timeouts := q].[sy_timeout_list ::= change_timeout typ c]
  | [] =>
  match sy_replica_open s, sy_peers s, sy_peers_closed s with
  | true, (typ, from, m) :: q, _ => Some s.[sy_peers := q].[sy_async := A_Send (Cmd_PeerMessage typ from m)]
  | true, [], true => Some s.[sy_replica_open := false]
  | _, _, _ =>
  match sy_client_open s, sy_requests s, sy_requests_closed s with
  | true, r :: q, _ => Some s.[sy_requests := q].[sy_async := A_Send (Cmd_ClientRequest r)]
  | true, [], true => Some s.[sy_client_open := false]
  | _, _, _ =>
  match wait_for_timeout (sy_now s) k (sy_timeout_list s) with
  | Some (time, typ, l) =>
      if (time <? sy_ignore_timeouts_until s)%N then Some s.[sy_timeout_list := l]
      else Some s.[sy_timeout_list := l].[sy_async := A_Send (Cmd_Timeout typ)]
  | None => None
  end end end end end end.

(** The worker holds the receiver of the commands until it ends. *)
Definition step_async (k : nat) (s : System) : option System :=
  match sy_async s with
  | A_Select => step_select k s
  | A_Send c =>
      match sy_worker s with
      | W_Ended => Some s.[sy_async := A_Ended]
      | _ =>
          if length (sy_commands s) <? channel_capacity
          then Some s.[sy_commands ::= fun cs => cs ++ [c]].[sy_async := A_Select]
          else None
      end
  | A_Ended => None
  end.

(** *** [OutputHandler] *)

(** [self.do_backup.try_send(())], the channel has one place. *)
Definition try_send_backup (s : System) : System :=
  match sy_async s, sy_do_backup s with
  | A_Ended, _ => s
  | _, [] => s.[sy_do_backup := [()]]
  | _, _ => s
  end.

(** [if let Some(f) = self.ready_for_clients.take() { self.ready = true; f(); }] *)
Definition call_ready (s : System) : System :=
  if sy_ready_for_clients s
  then s.[sy_ready_for_clients := false].[sy_ready := true].[sy_ready_calls ::= S]
  else s.

(** [process_output] up to the first [await]. *)
Definition begin_output (o : AbcOutput) (s : System) : System :=
  let s := if out_do_backup o then try_send_backup s else s in
  let s := if out_sets_ready o then call_ready s else s in
  s.[sy_handler := H_Timeouts None (out_destructure o (sy_ready s))].

(** [self.update_info.try_send(new_info)]: nothing happens where the channel is full or closed. *)
Definition try_send_info (i : AtomicBroadcastInfo) (s : System) : System :=
  if sy_infos_closed s then s
  else if length (sy_infos s) - sy_infos_taken s <? info_capacity then s.[sy_infos ::= fun l => l ++ [i]]
  else s.

(** The end of [process_output]. *)
Definition finish_output (d : Destructured AbcTimeout AbcMessage AbcRequest AbcInfo) (s : System) : System :=
  let '(new_info, new_info_gen) := generate_info (ds_info d) (sy_last_info s) in
  let s := match new_info with Some i => try_send_info i s | None => s end in
  s.[sy_last_info := Some new_info_gen].[sy_stats ::= fun ts => ts ++ ds_decision_times d].[sy_handler := H_Recv].

Definition step_handler (s : System) : option System :=
  match sy_handler s with
  | H_Recv =>
      match sy_outputs s with
      | o :: os => Some (begin_output o s.[sy_outputs := os])
      | [] =>
          match sy_worker s with
          | W_Ended => Some s.[sy_handler := H_Ended]
          | _ => None
          end
      end
  | H_Timeouts now (mkDestructured ((typ, c) :: ts) ms ds i dt) =>
      let now := match c with TC_Set _ _ => Some (default (sy_now s) now) | _ => now end in
      let rest := H_Timeouts now (mkDestructured ts ms ds i dt) in
      match sy_async s with
      | A_Ended => Some s.[sy_handler := rest]
      | _ =>
          if length (sy_timeouts s) <? channel_capacity
          then Some s.[sy_timeouts ::= fun q => q ++ [(typ, TimeoutChanage_start (default 0%N now) c)]]
                     .[sy_handler := rest]
          else None
      end
  | H_Timeouts _ (mkDestructured [] _ _ _ _ as d) => Some s.[sy_handler := H_Decisions d]
  | H_Decisions (mkDestructured ts ms (r :: ds) i dt) =>
      let rest := H_Decisions (mkDestructured ts ms ds i dt) in
      if sy_decisions_closed s then Some s.[sy_handler := rest]
      else if length (sy_delivered s) - sy_taken s <? channel_capacity
           then Some s.[sy_delivered ::= fun rs => rs ++ [r]].[sy_handler := rest]
           else None
  | H_Decisions (mkDestructured _ _ [] _ _ as d) => Some s.[sy_handler := H_Messages d]
  | H_Messages (mkDestructured ts (m :: ms) ds i dt) =>
      if sy_net_busy s then None
      else Some s.[sy_sent ::= fun l => l ++ [m]].[sy_handler := H_Messages (mkDestructured ts ms ds i dt)]
  | H_Messages (mkDestructured _ [] _ _ _ as d) => Some (finish_output d s)
  | H_Ended => None
  end.

(** ** The system *)

Inductive Action :=
| Env_Peer (m : MessageType * N * AbcMessage)
| Env_ClosePeers
| Env_Request (r : N * N * AbcRequest)
| Env_CloseRequests
| Env_Recover
| Env_CloseDecisions
| Env_Tick (d : N)
| Env_TakeDecision
| Env_Net (busy : bool)
| Env_TakeInfo
| Env_CloseInfos
| Do_Async (k : nat)
| Do_Worker
| Do_Handler.

Definition step (a : Action) (s : System) : option System :=
  match a with
  | Env_Peer m => if sy_peers_closed s then None else Some s.[sy_peers ::= fun q => q ++ [m]]
  | Env_ClosePeers => Some s.[sy_peers_closed := true]
  | Env_Request r => if sy_requests_closed s then None else Some s.[sy_requests ::= fun q => q ++ [r]]
  | Env_CloseRequests => Some s.[sy_requests_closed := true]
  | Env_Recover => Some s.[sy_do_recover ::= fun q => q ++ [()]]
  | Env_CloseDecisions => Some s.[sy_decisions_closed := true]
  | Env_Tick d => Some s.[sy_now ::= N.add d]
  | Env_TakeDecision => if sy_taken s <? length (sy_delivered s) then Some s.[sy_taken ::= S] else None
  | Env_Net busy => Some s.[sy_net_busy := busy]
  | Env_TakeInfo => if sy_infos_taken s <? length (sy_infos s) then Some s.[sy_infos_taken ::= S] else None
  | Env_CloseInfos => Some s.[sy_infos_closed := true]
  | Do_Async k => step_async k s
  | Do_Worker => step_worker s
  | Do_Handler => step_handler s
  end.

Fixpoint run (acts : list Action) (s : System) : option System :=
  match acts with
  | [] => Some s
  | a :: acts => s ← step a s; run acts s
  end.

End wrapper.

(** What the runtime relies on: the decisions, messages and timeouts of an output
    do not depend on the flag [destructure] is given, and an output that is dropped
    for being empty has none, sets nothing ready and asks for no backup.  [out_ok]
    describes the outputs the protocol makes. *)
Class AbcWrapperLaws `{AbcWrapper} := {
  out_ok : AbcOutput -> Prop;
  init_ok s o s' : abc_init s = Val (o, s') -> out_ok o;
  command_ok c s b o s' b' : run_command c s b = Val (Some o, s', b') -> out_ok o;
  destructure_ready o b : let d := out_destructure o b in let d' := out_destructure o false in
    ds_timeouts d = ds_timeouts d' /\ ds_messages d = ds_messages d' /\ ds_decisions d = ds_decisions d';
  empty_output o : out_ok o -> out_is_empty o = true ->
    let d := out_destructure o false in
    ds_timeouts d = [] /\ ds_messages d = [] /\ ds_decisions d = [] /\ out_sets_ready o = false /\ out_do_backup o = false;
}.
