(* ===== verification/WrapperFacts.v ===== *)
(** * The runtime: what the tasks do together

    [protocol_run] is the protocol alone, run on a sequence of commands.
    [refines] relates a state of the runtime to such a run: what is delivered, on
    its way in a channel or held by a task is what the run put out.  The bounds of
    [credit] keep the channels from blocking each other, and [work] counts what
    is left to do once the inputs are closed. *)

From Stdlib Require Import ZArith Lia String.
From stdpp Require Import base list sets option numbers.
From S2P Require Import Prelude Wrapper.

(** ** The list of timeouts as a map *)

Section timeout_list.
  Context {T : Type} `{EqDecision T}.
  Implicit Types (l : TimeoutList T) (e : TimeoutListEntry T).

(** The timeout of a type that is running. *)
Fixpoint running (l : TimeoutList T) (typ : T) : option (N * StopClass) :=
  match l with
  | [] => None
  | e :: l => if decide (te_typ e = typ) then Some (te_timeout e, te_stop_class e) else running l typ
  end.

(** At most one timeout of a type. *)
Definition one_per_type (l : TimeoutList T) : Prop := NoDup (te_typ <$> l).

Lemma elem_of_running l e : one_per_type l -> e ∈ l <-> running l (te_typ e) = Some (te_timeout e, te_stop_class e).
Proof.
  induction l as [|x l IH]; intros Hl; cbn; [set_solver|].
  apply list.NoDup_cons in Hl as [Hx Hl]. rewrite list.elem_of_cons. case_decide as Ht.
  - split.
    + intros [->|He]; [done|]. exfalso. apply Hx. rewrite Ht. by apply list_elem_of_fmap_2.
    + intros [= ? ?]. left. destruct x, e; naive_solver.
  - rewrite <-IH by done. naive_solver.
Qed.

Lemma running_elem l typ t c : running l typ = Some (t, c) -> mkEntry t typ c ∈ l.
Proof.
  induction l as [|x l IH]; cbn; [done|]. case_decide as Ht; [|set_solver].
  intros [= <- <-]. rewrite <-Ht. destruct x. set_solver.
Qed.

Lemma one_per_type_filter l (P : TimeoutListEntry T -> Prop) `{forall e, Decision (P e)} :
  one_per_type l -> one_per_type (filter P l).
Proof.
  intros Hl. unfold one_per_type. eapply sublist_NoDup; [exact Hl|]. apply fmap_sublist, sublist_filter.
Qed.

Lemma one_per_type_insert typ t c l : one_per_type l -> one_per_type (TimeoutList_insert typ t c l).
Proof.
  intros Hl. unfold one_per_type, TimeoutList_insert. rewrite fmap_cons.
  apply list.NoDup_cons. split; [|by apply one_per_type_filter].
  rewrite list_elem_of_fmap. intros (e & He & Hin). apply list_elem_of_filter in Hin as [Hne _]. cbn in He. congruence.
Qed.

Lemma one_per_type_delete k l : one_per_type l -> one_per_type (delete k l).
Proof. intros Hl. unfold one_per_type. eapply sublist_NoDup; [exact Hl|]. apply fmap_sublist, sublist_delete. Qed.

Lemma running_None l typ : running l typ = None <-> typ ∉ te_typ <$> l.
Proof.
  induction l as [|x l IH]; cbn; [set_solver|]. rewrite list.elem_of_cons. case_decide as Ht; [naive_solver|].
  rewrite IH. naive_solver.
Qed.

(** A filter that keeps or drops an entry by [P]. *)
Lemma running_filter l (P : TimeoutListEntry T -> Prop) `{forall e, Decision (P e)} typ :
  one_per_type l ->
  running (filter P l) typ
  = match running l typ with
    | Some (t, c) => if decide (P (mkEntry t typ c)) then Some (t, c) else None
    | None => None
    end.
Proof.
  induction l as [|[t ty c] l IH]; intros Hl; [done|]. apply list.NoDup_cons in Hl as [Hx Hl]. cbn in Hx.
  rewrite list.filter_cons. specialize (IH Hl). cbn [running te_typ te_timeout te_stop_class].
  destruct (decide (ty = typ)) as [<-|Hne].
  - destruct (decide (P (mkEntry t ty c))); cbn; [by rewrite decide_True|].
    rewrite IH. by rewrite (proj2 (running_None _ _) Hx).
  - destruct (decide (P (mkEntry t ty c))); cbn; [by rewrite decide_False by done|done].
Qed.

Lemma running_delete l k e typ :
  one_per_type l -> l !! k = Some e ->
  running (delete k l) typ = if decide (te_typ e = typ) then None else running l typ.
Proof.
  revert k. induction l as [|x l IH]; intros k Hl Hk; [done|]. apply list.NoDup_cons in Hl as [Hx Hl].
  destruct k as [|k]; simplify_eq/=.
  - case_decide as Ht; [|done]. apply running_None. by rewrite <-Ht.
  - rewrite (IH _ Hl Hk). repeat case_decide; try done. exfalso. apply Hx.
    replace (te_typ x) with (te_typ e) by congruence. apply list_elem_of_fmap_2. by eapply list_elem_of_lookup_2.
Qed.

(** Some entry is earliest. *)
Lemma earliest_exists l : l <> [] -> exists k e, l !! k = Some e /\ earliest e l = true.
Proof.
  assert (forall l, l <> [] -> exists e, e ∈ l /\ forall e', e' ∈ l -> (te_timeout e <= te_timeout e')%N) as Hmin.
  { clear l. induction l as [|x l IH]; intros Hl; [done|]. destruct (decide (l = [])) as [->|Hne].
    - exists x. split; [set_solver|]. intros e' He'. apply list_elem_of_singleton in He' as ->. lia.
    - destruct (IH Hne) as (e & He & Hle). destruct (N.le_ge_cases (te_timeout x) (te_timeout e)) as [Hc|Hc].
      + exists x. split; [set_solver|]. intros e' [->|He']%list.elem_of_cons; [lia|]. specialize (Hle e' He'). lia.
      + exists e. split; [set_solver|]. intros e' [->|He']%list.elem_of_cons; [done|]. by apply Hle. }
  intros Hl. destruct (Hmin l Hl) as (e & He & Hle). apply list_elem_of_lookup in He as [k Hk].
  exists k, e. split; [done|]. unfold earliest. apply forallb_forall. intros e' He'%list_elem_of_In.
  apply N.leb_le. by apply Hle.
Qed.

Lemma earliest_le l e e' : earliest e l = true -> e' ∈ l -> (te_timeout e <= te_timeout e')%N.
Proof. unfold earliest. rewrite forallb_forall. intros He Hin%list_elem_of_In. by apply N.leb_le, He. Qed.
End timeout_list.

Section runtime.
  Context `{WL : AbcWrapperLaws}.
  Implicit Types (s : System) (o : AbcOutput) (os : list AbcOutput) (c : AbcCommand) (cs : list AbcCommand).

(** ** The protocol alone *)

(** The protocol [abc0] was initialised, ran the commands [cs], put out [os], and
    is now in state [abc] with the backup [b]. *)
Inductive protocol_run (abc0 : Abc) : list AbcCommand -> list AbcOutput -> Abc -> option AbcBackup -> Prop :=
| pr_init o abc :
    abc_init abc0 = Val (o, abc) -> protocol_run abc0 [] [o] abc None
| pr_command cs os abc b c (o : option AbcOutput) abc' b' :
    protocol_run abc0 cs os abc b -> run_command c abc b = Val (o, abc', b') ->
    protocol_run abc0 (cs ++ [c]) (os ++ option_list o) abc' b'.

(** What an output asks for. *)
Definition decisions_of o : list (N * N * AbcRequest) := ds_decisions (out_destructure o false).
Definition messages_of o : list (MessageDestination * AbcMessage) := ds_messages (out_destructure o false).
Definition timeouts_of o : list (AbcTimeout * TimeoutChanage) := ds_timeouts (out_destructure o false).
Definition decisions os : list (N * N * AbcRequest) := concat (decisions_of <$> os).
Definition messages os : list (MessageDestination * AbcMessage) := concat (messages_of <$> os).

(** What a command hands to the protocol. *)
Definition requests_of c : list (N * N * AbcRequest) := match c with Cmd_ClientRequest r => [r] | _ => [] end.
Definition peers_of c : list (MessageType * N * AbcMessage) :=
  match c with Cmd_PeerMessage typ from m => [(typ, from, m)] | _ => [] end.
Definition requests cs : list (N * N * AbcRequest) := concat (requests_of <$> cs).
Definition peers cs : list (MessageType * N * AbcMessage) := concat (peers_of <$> cs).

(** What the environment sent. *)
Definition arrived_requests (acts : list Action) : list (N * N * AbcRequest) :=
  omap (fun a => match a with Env_Request r => Some r | _ => None end) acts.
Definition arrived_peers (acts : list Action) : list (MessageType * N * AbcMessage) :=
  omap (fun a => match a with Env_Peer m => Some m | _ => None end) acts.

(** What a task holds. *)
Definition worker_outputs (w : WorkerPhase) : list AbcOutput := match w with W_Send o => [o] | _ => [] end.
Definition async_commands (a : AsyncPhase) : list AbcCommand := match a with A_Send c => [c] | _ => [] end.
Definition handler_decisions (h : HandlerPhase) : list (N * N * AbcRequest) :=
  match h with H_Timeouts _ d | H_Decisions d => ds_decisions d | _ => [] end.
Definition handler_messages (h : HandlerPhase) : list (MessageDestination * AbcMessage) :=
  match h with H_Timeouts _ d | H_Decisions d | H_Messages d => ds_messages d | _ => [] end.

(** The outputs that reach the handler: the first and those that are not empty. *)
Definition kept os : list AbcOutput :=
  match os with o :: os => o :: filter (fun o => out_is_empty o = false) os | [] => [] end.

(** Decisions and messages on their way. *)
Definition undelivered s : list (N * N * AbcRequest) :=
  handler_decisions (sy_handler s) ++ decisions (sy_outputs s ++ worker_outputs (sy_worker s)).
Definition unsent s : list (MessageDestination * AbcMessage) :=
  handler_messages (sy_handler s) ++ messages (sy_outputs s ++ worker_outputs (sy_worker s)).

Lemma decisions_app os os' : decisions (os ++ os') = decisions os ++ decisions os'.
Proof. unfold decisions. by rewrite fmap_app, concat_app. Qed.
Lemma messages_app os os' : messages (os ++ os') = messages os ++ messages os'.
Proof. unfold messages. by rewrite fmap_app, concat_app. Qed.
Lemma requests_app cs cs' : requests (cs ++ cs') = requests cs ++ requests cs'.
Proof. unfold requests. by rewrite fmap_app, concat_app. Qed.
Lemma peers_app cs cs' : peers (cs ++ cs') = peers cs ++ peers cs'.
Proof. unfold peers. by rewrite fmap_app, concat_app. Qed.

Lemma kept_decisions os : Forall out_ok os -> decisions (kept os) = decisions os.
Proof.
  destruct os as [|o os]; [done|]. intros [_ Hos]%list.Forall_cons. unfold decisions. cbn. f_equal.
  induction os as [|o' os IH]; [done|]. apply list.Forall_cons in Hos as [Hok Hos].
  rewrite filter_cons. case_decide as He; cbn; rewrite (IH Hos); [done|].
  destruct (out_is_empty o') eqn:Ho; [|done]. unfold decisions_of. by destruct (empty_output o' Hok Ho) as (_ & _ & -> & _).
Qed.

Lemma kept_messages os : Forall out_ok os -> messages (kept os) = messages os.
Proof.
  destruct os as [|o os]; [done|]. intros [_ Hos]%list.Forall_cons. unfold messages. cbn. f_equal.
  induction os as [|o' os IH]; [done|]. apply list.Forall_cons in Hos as [Hok Hos].
  rewrite filter_cons. case_decide as He; cbn; rewrite (IH Hos); [done|].
  destruct (out_is_empty o') eqn:Ho; [|done]. unfold messages_of. by destruct (empty_output o' Hok Ho) as (_ & -> & _).
Qed.

Lemma kept_snoc os (o : option AbcOutput) : os <> [] -> kept (os ++ option_list o) = kept os ++ worker_outputs (to_send o).
Proof.
  destruct os as [|o' os]; [done|]. intros _. destruct o as [o|]; cbn; [|by rewrite !app_nil_r].
  rewrite list.filter_app. f_equal. f_equal. rewrite filter_cons. destruct (out_is_empty o); cbn; done.
Qed.

Lemma protocol_run_ok abc0 cs os abc b : protocol_run abc0 cs os abc b -> Forall out_ok os.
Proof.
  induction 1 as [o abc Hi|cs os abc b c o abc' b' _ IH Hc].
  - apply list.Forall_singleton. by eapply init_ok.
  - apply list.Forall_app. split; [done|]. destruct o as [o|]; [|done]. apply list.Forall_singleton. by eapply command_ok.
Qed.

Lemma protocol_run_output abc0 cs os abc b : protocol_run abc0 cs os abc b -> os <> [].
Proof. induction 1; [done|]. by destruct os. Qed.

(** ** Refinement *)

(** The runtime has run the protocol on [cs] with outputs [os]; [handled] are those
    the handler took; [lost] are decisions it could not deliver, because the
    application had closed the channel. *)
Record refines (abc0 : Abc) s cs os (handled : list AbcOutput) (lost : list (N * N * AbcRequest)) : Prop := {
  rf_run : match sy_worker s with
           | W_Init => sy_abc s = abc0 /\ sy_backup s = None /\ cs = [] /\ os = []
           | _ => protocol_run abc0 cs os (sy_abc s) (sy_backup s)
                  \/ (sy_worker s = W_Ended /\ sy_panicked s = true \/ sy_worker s = W_Diverges) /\ cs = [] /\ os = []
                     /\ sy_abc s = abc0 /\ sy_backup s = None
           end;
  rf_kept : kept os = handled ++ sy_outputs s ++ worker_outputs (sy_worker s);
  rf_decisions : decisions handled = sy_delivered s ++ lost ++ handler_decisions (sy_handler s);
  rf_lost : sy_decisions_closed s = false -> lost = [];
  rf_messages : messages handled = sy_sent s ++ handler_messages (sy_handler s);
  rf_ready : sy_ready s = existsb out_sets_ready handled;
  rf_ready_once : sy_ready_for_clients s = negb (sy_ready s) /\ sy_ready_calls s = Nat.b2n (sy_ready s);
}.

Lemma refines_start abc0 ignore now : refines abc0 (start abc0 ignore now) [] [] [] [].
Proof. by constructor. Qed.

(** A step that leaves the worker, the handler and what is delivered alone. *)
Lemma refines_frame abc0 s s' cs os handled lost :
  sy_abc s' = sy_abc s -> sy_backup s' = sy_backup s -> sy_worker s' = sy_worker s -> sy_handler s' = sy_handler s ->
  sy_outputs s' = sy_outputs s -> sy_delivered s' = sy_delivered s -> sy_sent s' = sy_sent s ->
  (sy_decisions_closed s' = false -> sy_decisions_closed s = false) ->
  sy_ready s' = sy_ready s -> sy_ready_for_clients s' = sy_ready_for_clients s -> sy_ready_calls s' = sy_ready_calls s ->
  sy_panicked s' = sy_panicked s ->
  refines abc0 s cs os handled lost -> refines abc0 s' cs os handled lost.
Proof.
  intros E1 E2 E3 E4 E5 E6 E7 Hc E8 E9 E10 E11 [? ? ? ? ? ? ?].
  constructor; rewrite ?E1, ?E2, ?E3, ?E4, ?E5, ?E6, ?E7, ?E8, ?E9, ?E10, ?E11; auto.
Qed.

(** [step_async] in its cases. *)
Ltac step_cases H :=
  repeat match type of H with
  | None = Some _ => discriminate H
  | Some _ = Some _ => injection H as <-
  | context [match ?x with _ => _ end] => destruct x eqn:?
  | context [if ?x then _ else _] => destruct x eqn:?
  end.

Lemma refines_async abc0 s k s' cs os handled lost :
  refines abc0 s cs os handled lost -> step_async k s = Some s' -> refines abc0 s' cs os handled lost.
Proof.
  intros Hr Hs. unfold step_async, step_select in Hs.
  step_cases Hs; (eapply refines_frame; [..|exact Hr]); done.
Qed.

Lemma refines_worker abc0 s s' cs os handled lost :
  refines abc0 s cs os handled lost -> step_worker s = Some s' ->
  exists cs' os', refines abc0 s' cs' os' handled lost /\
    (cs' = cs /\ (sy_commands s' = sy_commands s \/ sy_worker s' = W_Ended /\ sy_panicked s' = true \/ sy_worker s' = W_Diverges)
     \/ exists c, cs' = cs ++ [c] /\ sy_commands s = c :: sy_commands s').
Proof.
  intros [Hrun Hk Hd Hl Hm Hy Ho] Hs. unfold step_worker in Hs.
  destruct (sy_worker s) as [| |o| |] eqn:Hw; [| | |done..].
  - destruct Hrun as (Habc & Hb & -> & ->). rewrite Habc in Hs. cbn in Hk.
    symmetry in Hk. apply app_eq_nil in Hk as [-> [Hout _]%app_eq_nil].
    destruct (abc_init abc0) as [[o abc]| |] eqn:Hi; injection Hs as <-.
    + exists [], [o]. split; [|by eauto 10]. constructor; cbn; try done.
      * left. rewrite Hb. by constructor.
      * by rewrite Hout.
    + exists [], []. split; [|by eauto 10]. constructor; cbn; try done; [right; by auto 10|by rewrite Hout].
    + exists [], []. split; [|by eauto 10]. constructor; cbn; try done; [right; by auto 10|by rewrite Hout].
  - destruct Hrun as [Hrun|[[[? _]|?] _]]; [|done..].
    destruct (sy_commands s) as [|c q] eqn:Hq.
    { destruct (sy_async s); try done. injection Hs as <-. exists cs, os. split; [|by eauto 10].
      constructor; cbn; auto. }
    destruct (run_command c (sy_abc s) (sy_backup s)) as [[[o abc] b]| |] eqn:Hc; injection Hs as <-.
    + exists (cs ++ [c]), (os ++ option_list o). split; [|by eauto 10].
      pose proof (pr_command _ _ _ _ _ _ _ _ _ Hrun Hc) as Hrun'.
      constructor; cbn; try done.
      * assert (to_send o <> W_Init) by (destruct o as [o|]; cbn; [destruct (out_is_empty o)|]; done).
        destruct (to_send o); try done; by left.
      * rewrite kept_snoc by (by eapply protocol_run_output). rewrite Hk. cbn. by rewrite app_nil_r, <-app_assoc.
    + exists cs, os. split; [|by eauto 10]. constructor; cbn; auto.
    + exists cs, os. split; [|by eauto 10]. constructor; cbn; auto.
  - destruct Hrun as [Hrun|[[[? _]|?] _]]; [|done..].
    destruct (length (sy_outputs s) <? channel_capacity); [|done]. injection Hs as <-.
    exists cs, os. split; [|by eauto 10]. constructor; cbn; auto. rewrite Hk. cbn. by rewrite app_nil_r.
Qed.

Lemma refines_begin abc0 s o q cs os handled lost :
  sy_handler s = H_Recv -> sy_outputs s = o :: q -> refines abc0 s cs os handled lost ->
  refines abc0 (begin_output o s.[sy_outputs := q]) cs os (handled ++ [o]) lost.
Proof.
  intros Hh Hq [Hrun Hk Hd Hl Hm Hy [Hf Ho]]. rewrite Hh in Hd, Hm. cbn in Hd, Hm. rewrite app_nil_r in Hm, Hd.
  rewrite Hq in Hk. unfold begin_output.
  set (s1 := if out_do_backup o then try_send_backup s.[sy_outputs := q] else s.[sy_outputs := q]).
  assert (exists b, s1 = s.[sy_outputs := q].[sy_do_backup := b]) as [b ->].
  { subst s1. unfold try_send_backup. exists (if out_do_backup o
      then match sy_async s, sy_do_backup s with A_Ended, x => x | _, [] => [()] | _, x => x end else sy_do_backup s).
    destruct s as []. cbn. destruct (out_do_backup o); [|done].
    by destruct sy_async, sy_do_backup. }
  cbn.
  assert (forall r, handler_decisions (H_Timeouts None (out_destructure o r)) = decisions_of o /\
                    handler_messages (H_Timeouts None (out_destructure o r)) = messages_of o) as Hdes.
  { intros r. cbn. unfold decisions_of, messages_of. by destruct (destructure_ready o r) as (_ & -> & ->). }
  assert (decisions (handled ++ [o]) = sy_delivered s ++ lost ++ decisions_of o) as Hd'.
  { rewrite decisions_app, Hd, <-app_assoc. unfold decisions. cbn. by rewrite app_nil_r. }
  assert (messages (handled ++ [o]) = sy_sent s ++ messages_of o) as Hm'.
  { rewrite messages_app, Hm. unfold messages. cbn. by rewrite app_nil_r. }
  assert (existsb out_sets_ready (handled ++ [o]) = sy_ready s || out_sets_ready o) as Hy'.
  { rewrite existsb_app, <-Hy. cbn. by rewrite orb_false_r. }
  unfold call_ready. destruct (out_sets_ready o); cbn; [rewrite Hf; destruct (sy_ready s) eqn:Hrd; cbn|];
    (constructor; cbn -[handler_decisions handler_messages];
      rewrite ?Hrd, ?Hd', ?Hm', ?Hy', ?(proj1 (Hdes _)), ?(proj2 (Hdes _)), ?orb_true_r, ?orb_false_r; auto;
      try by rewrite Hk, <-app_assoc); try (split; [done|]; by rewrite Ho).
Qed.

Lemma refines_handler abc0 s s' cs os handled lost :
  refines abc0 s cs os handled lost -> step_handler s = Some s' ->
  exists handled' lost', refines abc0 s' cs os handled' lost'.
Proof.
  intros Hr Hs. unfold step_handler in Hs.
  destruct (sy_handler s) as [|now d|d|d|] eqn:Hh; [| | | |done].
  - destruct (sy_outputs s) as [|o q] eqn:Hq.
    + destruct (sy_worker s); try done. injection Hs as <-. exists handled, lost.
      destruct Hr as [? ? Hd ? Hm ? ?]. rewrite Hh in Hd, Hm. by constructor.
    + injection Hs as <-. exists (handled ++ [o]), lost. by apply refines_begin.
  - exists handled, lost. destruct Hr as [? ? Hd ? Hm ? ?]. rewrite Hh in Hd, Hm.
    destruct d as [[|[typ c] ts] ms ds i dt]; step_cases Hs; by constructor.
  - destruct Hr as [? ? Hd Hl Hm ? ?]. rewrite Hh in Hd, Hm. destruct d as [ts ms [|r ds] i dt]; cbn in Hd, Hm.
    { injection Hs as <-. exists handled, lost. by constructor. }
    destruct (sy_decisions_closed s) eqn:Hc; [|destruct (_ <? channel_capacity); [|done]]; injection Hs as <-.
    + exists handled, (lost ++ [r]). constructor; cbn; auto; [|by rewrite Hc]. by rewrite Hd, <-!app_assoc.
    + exists handled, []. rewrite (Hl eq_refl) in Hd. constructor; cbn; auto. by rewrite Hd, <-app_assoc.
  - destruct Hr as [? ? Hd Hl Hm ? ?]. rewrite Hh in Hd, Hm. destruct d as [ts [|m ms] ds i dt]; cbn in Hd, Hm.
    + injection Hs as <-. exists handled, lost. unfold finish_output, try_send_info.
      destruct (generate_info _ _) as [[i'|] g]; [destruct (sy_infos_closed s); [|destruct (_ <? info_capacity)]|]; by constructor.
    + destruct (sy_net_busy s); [done|]. injection Hs as <-. exists handled, lost. constructor; cbn; auto. by rewrite Hm, <-app_assoc.
Qed.

(** ** Inputs *)

Definition alive (w : WorkerPhase) : Prop := w <> W_Ended /\ w <> W_Diverges.

(** The worker runs, or has ended because there are no more commands. *)
Definition intact s : Prop := alive (sy_worker s) \/ sy_worker s = W_Ended /\ sy_panicked s = false.

(** Commands not yet run. *)
Definition waiting s : list AbcCommand := sy_commands s ++ async_commands (sy_async s).

Definition no_recover (acts : list Action) : Prop := Forall (fun a => a <> Env_Recover) acts.

(** Backups and recoveries only come from those who ask for them. *)
Record control (acts : list Action) s cs : Prop := {
  ct_backup : (forall o, out_do_backup o = false) -> sy_do_backup s = [] /\ Cmd_Backup ∉ cs ++ waiting s;
  ct_recover : no_recover acts -> sy_do_recover s = [] /\ Cmd_Recover ∉ cs ++ waiting s;
}.

(** An input that is not read any more was closed and is empty; a task ends after the
    one before it, or because a handler panicked. *)
Record tidy s : Prop := {
  td_replica : sy_replica_open s = false -> sy_peers s = [] /\ sy_peers_closed s = true;
  td_client : sy_client_open s = false -> sy_requests s = [] /\ sy_requests_closed s = true;
  td_panicked : sy_worker s = W_Ended -> sy_panicked s = true \/ sy_async s = A_Ended /\ sy_commands s = [];
  td_ended : sy_async s = A_Ended -> sy_panicked s = true \/ sy_replica_open s = false /\ sy_client_open s = false;
  td_handler : sy_handler s = H_Ended -> sy_worker s = W_Ended /\ sy_outputs s = [];
  td_timeouts : one_per_type (sy_timeout_list s);
}.

(** The protocol gets what arrived, in order; unless a handler panicked or did not
    return, what it did not get yet is on its way. *)
Record inputs (acts : list Action) s cs : Prop := {
  in_requests : requests cs `prefix_of` arrived_requests acts;
  in_peers : peers cs `prefix_of` arrived_peers acts;
  in_waiting : intact s ->
    arrived_requests acts = requests (cs ++ waiting s) ++ sy_requests s
    /\ arrived_peers acts = peers (cs ++ waiting s) ++ sy_peers s;
}.

Lemma inputs_start abc0 ignore now : inputs [] (start abc0 ignore now) [].
Proof. by constructor. Qed.

Lemma inputs_equal acts s s' cs :
  (intact s' -> intact s) ->
  waiting s' = waiting s -> sy_requests s' = sy_requests s -> sy_peers s' = sy_peers s ->
  inputs acts s cs -> inputs acts s' cs.
Proof. intros Ha E1 E2 E3 [? ? Hw]. constructor; [done..|]. rewrite E1, E2, E3. auto. Qed.

(** The worker takes the first waiting command. *)
Lemma inputs_command acts s s' cs c :
  alive (sy_worker s) -> waiting s = c :: waiting s' -> sy_requests s' = sy_requests s -> sy_peers s' = sy_peers s ->
  inputs acts s cs -> inputs acts s' (cs ++ [c]).
Proof.
  intros Ha Hw E1 E2 [_ _ Hin]. destruct (Hin (or_introl Ha)) as [Hr Hp]. rewrite Hw in Hr, Hp.
  replace (cs ++ c :: waiting s') with ((cs ++ [c]) ++ waiting s') in Hr, Hp by (by rewrite <-app_assoc).
  constructor; [| |by rewrite E1, E2].
  - rewrite Hr, (requests_app (cs ++ [c])), <-app_assoc. by apply prefix_app_r.
  - rewrite Hp, (peers_app (cs ++ [c])), <-app_assoc. by apply prefix_app_r.
Qed.

Lemma waiting_async s k s' :
  sy_worker s <> W_Ended -> step_async k s = Some s' ->
  sy_worker s' = sy_worker s /\
  requests (waiting s') ++ sy_requests s' = requests (waiting s) ++ sy_requests s /\
  peers (waiting s') ++ sy_peers s' = peers (waiting s) ++ sy_peers s.
Proof.
  intros Ha Hs. unfold step_async, step_select in Hs. unfold waiting.
  step_cases Hs; try done; cbn; rewrite ?requests_app, ?peers_app;
    repeat match goal with H : sy_async _ = _ |- _ => rewrite H; clear H end;
    repeat match goal with H : sy_requests _ = _ |- _ => rewrite H; clear H end;
    repeat match goal with H : sy_peers _ = _ |- _ => rewrite H; clear H end;
    unfold requests, peers; rewrite ?fmap_app, ?concat_app, ?app_nil_r; cbn; rewrite <-?app_assoc; done.
Qed.

Lemma inputs_async acts s k s' cs : tidy s -> inputs acts s cs -> step_async k s = Some s' -> inputs acts s' cs.
Proof.
  intros Htd [Hr Hp Hw] Hs. constructor; [done..|]. intros Ha.
  assert (sy_worker s' = sy_worker s /\ sy_panicked s' = sy_panicked s) as [Ew Ep].
  { unfold step_async, step_select in Hs. by step_cases Hs. }
  unfold intact in Ha. rewrite Ew, Ep in Ha. fold (intact s) in Ha.
  assert (sy_worker s <> W_Ended) as He.
  { intros He. destruct Ha as [[Ha _]|[_ Hnp]]; [done|]. destruct (td_panicked _ Htd He) as [|[Hend _]]; [congruence|].
    unfold step_async in Hs. by rewrite Hend in Hs. }
  destruct (waiting_async s k s' He Hs) as (Hws & E1 & E2). destruct (Hw Ha) as [-> ->].
  by rewrite !requests_app, !peers_app, <-!app_assoc, E1, E2.
Qed.

Lemma begin_output_eq o s :
  exists b f r n, begin_output o s
    = s.[sy_do_backup := b].[sy_ready_for_clients := f].[sy_ready := r].[sy_ready_calls := n]
       .[sy_handler := H_Timeouts None (out_destructure o r)]
    /\ (out_do_backup o = false -> b = sy_do_backup s).
Proof.
  destruct s as []. unfold begin_output, try_send_backup, call_ready. cbn.
  destruct (out_do_backup o), (out_sets_ready o), sy_async, sy_do_backup, sy_ready_for_clients; cbn; eexists _, _, _, _; by split.
Qed.

(** What the handler leaves alone. *)
Lemma handler_frame s s' :
  step_handler s = Some s' ->
  sy_commands s' = sy_commands s /\ sy_async s' = sy_async s /\ sy_worker s' = sy_worker s
  /\ sy_requests s' = sy_requests s /\ sy_peers s' = sy_peers s /\ sy_timeout_list s' = sy_timeout_list s
  /\ sy_replica_open s' = sy_replica_open s /\ sy_client_open s' = sy_client_open s
  /\ sy_peers_closed s' = sy_peers_closed s /\ sy_requests_closed s' = sy_requests_closed s
  /\ sy_do_recover s' = sy_do_recover s /\ sy_panicked s' = sy_panicked s.
Proof.
  intros Hs. unfold step_handler in Hs. destruct (sy_handler s) as [|now d|d|d|]; [| | | |done].
  - destruct (sy_outputs s) as [|o q]; [by step_cases Hs|]. injection Hs as <-.
    unfold begin_output, try_send_backup, call_ready. cbn.
    by destruct (out_do_backup o), (out_sets_ready o), (sy_async s), (sy_do_backup s), (sy_ready_for_clients s).
  - destruct d as [[|[typ c] ts] ms ds i dt]; by step_cases Hs.
  - destruct d as [ts ms [|r ds] i dt], (sy_decisions_closed s); by step_cases Hs.
  - destruct d as [ts [|m ms] ds i dt]; [|by step_cases Hs]. injection Hs as <-. unfold finish_output, try_send_info.
    by destruct (generate_info _ _) as [[i'|] g]; [destruct (sy_infos_closed s); [|destruct (_ <? info_capacity)]|].
Qed.

(** What an action that is not the worker's or the command side's leaves alone. *)
Lemma other_frame a s s' :
  step a s = Some s' -> match a with Do_Async _ | Do_Worker => False | _ => True end ->
  sy_commands s' = sy_commands s /\ sy_async s' = sy_async s /\ sy_worker s' = sy_worker s
  /\ sy_requests s' = sy_requests s ++ arrived_requests [a] /\ sy_peers s' = sy_peers s ++ arrived_peers [a]
  /\ sy_timeout_list s' = sy_timeout_list s /\ sy_panicked s' = sy_panicked s.
Proof.
  intros Hs Ha. destruct a as [m| |r| | | |d| |b| | |k| |]; cbn in Hs |- *; try done.
  12: { apply handler_frame in Hs as (? & ? & ? & ? & ? & ? & _ & _ & _ & _ & _ & ?). by rewrite !app_nil_r. }
  all: step_cases Hs; cbn; by rewrite ?app_nil_r.
Qed.

(** The worker leaves the rest of the commands alone. *)
Lemma worker_frame s s' :
  step_worker s = Some s' ->
  sy_async s' = sy_async s /\ sy_requests s' = sy_requests s /\ sy_peers s' = sy_peers s
  /\ sy_timeout_list s' = sy_timeout_list s /\ alive (sy_worker s)
  /\ sy_do_backup s' = sy_do_backup s /\ sy_do_recover s' = sy_do_recover s.
Proof. intros Hs. unfold step_worker in Hs. by destruct (sy_worker s) eqn:Hw; step_cases Hs. Qed.

Lemma arrived_requests_app acts acts' :
  arrived_requests (acts ++ acts') = arrived_requests acts ++ arrived_requests acts'.
Proof. apply omap_app. Qed.
Lemma arrived_peers_app acts acts' : arrived_peers (acts ++ acts') = arrived_peers acts ++ arrived_peers acts'.
Proof. apply omap_app. Qed.

Lemma inputs_other acts a s s' cs :
  inputs acts s cs -> step a s = Some s' -> match a with Do_Async _ | Do_Worker => False | _ => True end ->
  inputs (acts ++ [a]) s' cs.
Proof.
  intros [Hr Hp Hw] Hs Ha. destruct (other_frame a s s' Hs Ha) as (E1 & E2 & E3 & E4 & E5 & _ & E6).
  constructor; rewrite ?arrived_requests_app, ?arrived_peers_app.
  - by apply prefix_app_r.
  - by apply prefix_app_r.
  - unfold intact. rewrite E3, E6. intros Hal. destruct (Hw Hal) as [-> ->]. unfold waiting.
    by rewrite E1, E2, E4, E5, (app_assoc _ (sy_requests s)), (app_assoc _ (sy_peers s)).
Qed.

Definition tracked (abc0 : Abc) (acts : list Action) s : Prop :=
  exists cs os handled lost, refines abc0 s cs os handled lost /\ inputs acts s cs /\ control acts s cs.

Lemma no_recover_snoc acts a : no_recover (acts ++ [a]) -> no_recover acts /\ a <> Env_Recover.
Proof. unfold no_recover. by rewrite list.Forall_app, list.Forall_singleton. Qed.

(** An action that adds no command and no wish for one. *)
Lemma control_mono acts a s s' cs cs' :
  control acts s cs ->
  (forall c, c ∈ cs' ++ waiting s' -> c ∈ cs ++ waiting s) ->
  ((forall o, out_do_backup o = false) -> sy_do_backup s = [] -> sy_do_backup s' = []) ->
  (a <> Env_Recover -> sy_do_recover s = [] -> sy_do_recover s' = []) ->
  control (acts ++ [a]) s' cs'.
Proof.
  intros [Hb Hr] Hc Hb' Hr'. constructor.
  - intros Ho. destruct (Hb Ho) as [? ?]. split; auto.
  - intros [Hno Ha]%no_recover_snoc. destruct (Hr Hno) as [? ?]. split; auto.
Qed.

(** What a task holds, by its phase. *)
Ltac solve_held :=
  match goal with Ha : sy_async _ = _ |- _ => rewrite ?Ha in * end; cbn in *;
  repeat match goal with
  | H : _ ∈ [] |- _ => by apply not_elem_of_nil in H
  | H : _ ∈ [_] |- _ => apply list_elem_of_singleton in H
  end; simplify_eq; try done.

Lemma control_async acts k s s' cs : control acts s cs -> step_async k s = Some s' -> control (acts ++ [Do_Async k]) s' cs.
Proof.
  intros [Hb Hr] Hs. constructor.
  - intros Ho. destruct (Hb Ho) as [E Hn]. unfold step_async, step_select in Hs. rewrite E in Hs. clear Hb Hr.
    unfold waiting in *. step_cases Hs; cbn in *; (split; [done|]);
      rewrite ?app_nil_r, ?not_elem_of_app, ?list.not_elem_of_cons in *; intuition (done || solve_held).
  - intros [Hno Ha]%no_recover_snoc. destruct (Hr Hno) as [E Hn]. unfold step_async, step_select in Hs. clear Hb Hr.
    unfold waiting in *. rewrite E in Hs. step_cases Hs; cbn in *; (split; [done|]);
      rewrite ?app_nil_r, ?not_elem_of_app, ?list.not_elem_of_cons in *; intuition (done || solve_held).
Qed.

Lemma control_start abc0 ignore now : control [] (start abc0 ignore now) [].
Proof. constructor; intros _; (split; [done|]); set_solver. Qed.

Lemma control_worker acts s s' cs cs' :
  control acts s cs -> step_worker s = Some s' ->
  (cs' = cs /\ (sy_commands s' = sy_commands s \/ sy_worker s' = W_Ended /\ sy_panicked s' = true \/ sy_worker s' = W_Diverges)
   \/ exists c, cs' = cs ++ [c] /\ sy_commands s = c :: sy_commands s') ->
  control (acts ++ [Do_Worker]) s' cs'.
Proof.
  intros Hc Hs Hcs. destruct (worker_frame s s' Hs) as (E1 & _ & _ & _ & _ & E2 & E3).
  assert (forall c, c ∈ sy_commands s' -> c ∈ sy_commands s) as Hsub.
  { unfold step_worker in Hs. clear Hcs E1 E2 E3 Hc. destruct (sy_worker s); step_cases Hs; cbn; intros c Hc;
      try match goal with E : sy_commands s = _ |- _ => rewrite E in * end; first [done|by apply list.elem_of_cons; right]. }
  eapply control_mono; [exact Hc| |by rewrite E2|by rewrite E3].
  unfold waiting. rewrite E1. destruct Hcs as [[-> _]|(c & -> & Hq)]; [set_solver|]. rewrite Hq. set_solver.
Qed.

Lemma handler_backup s s' :
  (forall o, out_do_backup o = false) -> step_handler s = Some s' -> sy_do_backup s' = sy_do_backup s.
Proof.
  intros Ho Hs. unfold step_handler in Hs. destruct (sy_handler s) as [|now d|d|d|]; [| | | |done].
  - destruct (sy_outputs s) as [|o q]; [by step_cases Hs|]. injection Hs as <-.
    destruct (begin_output_eq o s.[sy_outputs := q]) as (b & f & r & n & Heq & Hb).
    apply (f_equal sy_do_backup) in Heq. etrans; [exact Heq|]. cbn. by rewrite Hb.
  - destruct d as [[|[typ c] ts] ms ds i dt]; by step_cases Hs.
  - destruct d as [ts ms [|r ds] i dt], (sy_decisions_closed s); by step_cases Hs.
  - destruct d as [ts [|m ms] ds i dt]; [|by step_cases Hs]. injection Hs as <-. unfold finish_output, try_send_info.
    by destruct (generate_info _ _) as [[i'|] g]; [destruct (sy_infos_closed s); [|destruct (_ <? info_capacity)]|].
Qed.

Lemma control_other acts a s s' cs :
  control acts s cs -> step a s = Some s' -> match a with Do_Async _ | Do_Worker => False | _ => True end ->
  control (acts ++ [a]) s' cs.
Proof.
  intros Hc Hs Ha. destruct (other_frame a s s' Hs Ha) as (E1 & E2 & _).
  eapply control_mono; [exact Hc|unfold waiting; by rewrite E1, E2|..]; intros Ho E;
    (destruct a as [m| |r| | | |d| |b| | |k| |]; cbn in Hs; try done; [..|]); try by step_cases Hs.
  - by rewrite (handler_backup s s').
  - destruct (handler_frame s s' Hs) as (_ & _ & _ & _ & _ & _ & _ & _ & _ & _ & E3 & _). by rewrite E3.
Qed.

Lemma inputs_silent acts a s cs :
  arrived_requests [a] = [] -> arrived_peers [a] = [] -> inputs acts s cs -> inputs (acts ++ [a]) s cs.
Proof.
  intros E1 E2 [? ? ?].
  constructor; rewrite ?arrived_requests_app, ?arrived_peers_app, ?E1, ?E2, ?app_nil_r; done.
Qed.

Lemma tracked_step abc0 acts a s s' :
  tidy s -> tracked abc0 acts s -> step a s = Some s' -> tracked abc0 (acts ++ [a]) s'.
Proof.
  intros Htd (cs & os & handled & lost & Hr & Hin & Hct) Hs.
  destruct (match a with Do_Async _ | Do_Worker => true | _ => false end) eqn:Ha.
  - destruct a as [m| |r| | | |d| |b| | |k| |]; try done; cbn in Hs.
    + exists cs, os, handled, lost. split; [by eapply refines_async|]. split; [|by eapply control_async].
      apply inputs_silent; [done..|]. by eapply inputs_async.
    + destruct (refines_worker _ _ _ _ _ _ _ Hr Hs) as (cs' & os' & Hr' & Hcs).
      destruct (worker_frame s s' Hs) as (E1 & E2 & E3 & _ & Hal & _).
      exists cs', os', handled, lost. split; [done|]. split; [|by eapply control_worker]. apply inputs_silent; [done..|].
      destruct Hcs as [[-> [Hq|Hend]]|(c & -> & Hq)].
      * eapply inputs_equal; [..|exact Hin]; [by left| |done|done]. unfold waiting. by rewrite Hq, E1.
      * destruct Hin as [? ? _]. constructor; [done..|].
        intros [[? ?]|[? ?]]; destruct Hend as [[? ?]|?]; congruence.
      * eapply inputs_command; [done| |done|done|exact Hin]. unfold waiting. by rewrite Hq, E1.
  - assert (exists cs' os' handled' lost', refines abc0 s' cs' os' handled' lost' /\ cs' = cs) as (cs' & os' & h' & l' & Hr' & ->).
    { destruct a as [m| |r| | | |d| |b| | |k| |]; try done; cbn in Hs.
      12: { eapply refines_handler in Hs as (h' & l' & Hr'); [|done]. eauto 10. }
      all: step_cases Hs; exists cs, os, handled, lost; split; [|done]; (eapply refines_frame; [..|exact Hr]); done. }
    exists cs, os', h', l'. split; [done|].
    split; [eapply inputs_other; [done..|]; by destruct a|]. eapply control_other; [done..|]. by destruct a.
Qed.

Lemma run_app acts acts' s : run (acts ++ acts') s = s' ← run acts s; run acts' s'.
Proof.
  revert s. induction acts as [|a acts IH]; intros s; [done|]. cbn. destruct (step a s) as [s1|]; cbn; [apply IH|done].
Qed.

(** An invariant of the steps holds after any run. *)
Lemma run_invariant (P : list Action -> System -> Prop) s0 acts s :
  P [] s0 -> (forall acts a s s', P acts s -> step a s = Some s' -> P (acts ++ [a]) s') ->
  run acts s0 = Some s -> P acts s.
Proof.
  intros H0 Hstep. revert s. induction acts as [|a acts IH] using rev_ind; intros s Hrun.
  { by injection Hrun as <-. }
  rewrite run_app in Hrun. destruct (run acts s0) as [s1|]; [|done]. cbn in Hrun.
  destruct (step a s1) as [s2|] eqn:Hs; [|done]. injection Hrun as <-. eauto.
Qed.

(** ** The channels do not block each other *)

(** Timeout changes the handler still has to send. *)
Definition handler_timeouts (h : HandlerPhase) : list (AbcTimeout * TimeoutChanage) :=
  match h with H_Timeouts _ d => ds_timeouts d | _ => [] end.

(** The worker owes an output. *)
Definition owes (w : WorkerPhase) : nat := match w with W_Init | W_Send _ => 1 | _ => 0 end.

(** Free places in the two channels behind the command side. *)
Definition free s : nat := channel_capacity - length (sy_commands s) + (channel_capacity - length (sy_outputs s)).

(** No output of the protocol has more than [K] timeout changes or asks for a backup. *)
Definition modest (abc0 : Abc) (K : nat) : Prop :=
  forall cs os abc b o, protocol_run abc0 cs os abc b -> o ∈ os ->
    length (timeouts_of o) <= K /\ out_do_backup o = false.

Lemma capacity_pos : 0 < channel_capacity.
Proof. unfold channel_capacity. lia. Qed.
#[local] Opaque channel_capacity.

(** While the command side waits to send, each output the handler takes leaves a
    free place, so that the changes in flight are bounded by the free places. *)
Record credit (K : nat) s : Prop := {
  cr_backup : sy_do_backup s = [];
  cr_recover : sy_do_recover s = [];
  cr_commands : length (sy_commands s) <= channel_capacity;
  cr_outputs : length (sy_outputs s) <= channel_capacity;
  cr_handler : length (handler_timeouts (sy_handler s)) <= K;
  cr_waits : forall c, sy_async s = A_Send c ->
    length (sy_timeouts s) + length (handler_timeouts (sy_handler s)) <= K * (free s + 2 - owes (sy_worker s));
}.

Lemma owes_le w : owes w <= 1.
Proof. destruct w; cbn; lia. Qed.

Lemma credit_start K abc0 ignore now : credit K (start abc0 ignore now).
Proof. constructor; cbn; try done; lia. Qed.

(** The bound grows with the places. *)
Lemma credit_mono K n x y : n <= K * x -> x <= y -> n <= K * y.
Proof. intros. etrans; [done|]. by apply Nat.mul_le_mono_l. Qed.

Lemma credit_async K k s s' : credit K s -> step_async k s = Some s' -> credit K s'.
Proof.
  intros [Hb Hr Hc Ho Hh Hw] Hs. unfold step_async in Hs.
  destruct (sy_async s) as [|c|] eqn:Ha; [| |done].
  - unfold step_select in Hs. rewrite Hb, Hr in Hs. pose proof (owes_le (sy_worker s)).
    step_cases Hs; constructor; cbn; try done; intros c' Hc'; simplify_eq; try congruence;
      match goal with H : sy_timeouts _ = [] |- _ => rewrite H end;
      (apply (credit_mono K _ 1); [cbn; lia|]; unfold free; cbn; lia).
  - destruct (sy_worker s) eqn:Hws; step_cases Hs; constructor; cbn; try done; rewrite length_app; cbn;
      repeat match goal with H : (_ <? _) = true |- _ => apply Nat.ltb_lt in H end; lia.
Qed.

Lemma credit_worker K s s' : credit K s -> step_worker s = Some s' -> credit K s'.
Proof.
  intros [Hb Hr Hc Ho Hh Hw] Hs. unfold step_worker in Hs.
  destruct (sy_worker s) as [| |o| |] eqn:Hws; [| | |done..].
  - step_cases Hs; constructor; cbn in *; try done; intros c' Hc'; (eapply credit_mono; [exact (Hw c' Hc')|]);
      unfold free; cbn; lia.
  - destruct (sy_commands s) as [|c q] eqn:Hq.
    + step_cases Hs. constructor; cbn in *; try done; [by rewrite Hq|]. intros c' Hc'. congruence.
    + assert (length q <= channel_capacity) by (cbn in Hc; lia).
      assert (forall w, owes w <= 1 -> channel_capacity - S (length q) + (channel_capacity - length (sy_outputs s)) + 2 - 0
        <= channel_capacity - length q + (channel_capacity - length (sy_outputs s)) + 2 - owes w) as Hfree
        by (intros; cbn in Hc; lia).
      step_cases Hs; constructor; cbn in *; try done; intros c' Hc'; specialize (Hw c' Hc'); unfold free in *; cbn in *;
        rewrite Hq in Hw; (eapply credit_mono; [exact Hw|]); cbn; first [apply (Hfree (to_send _)), owes_le|apply (Hfree W_Ended); cbn; lia].
  - destruct (Nat.ltb_spec (length (sy_outputs s)) channel_capacity); [|done]. injection Hs as <-.
    constructor; cbn in *; try done; rewrite ?length_app; cbn; [lia|].
    intros c' Hc'. eapply credit_mono; [exact (Hw c' Hc')|]. unfold free. cbn. rewrite length_app. cbn. lia.
Qed.

Lemma timeouts_of_ready o r : ds_timeouts (out_destructure o r) = timeouts_of o.
Proof. by destruct (destructure_ready o r) as (-> & _). Qed.

Lemma credit_handler K s s' :
  (forall o, o ∈ sy_outputs s -> length (timeouts_of o) <= K /\ out_do_backup o = false) ->
  credit K s -> step_handler s = Some s' -> credit K s'.
Proof.
  intros Hmod [Hb Hr Hc Ho Hh Hw] Hs. unfold step_handler in Hs.
  destruct (sy_handler s) as [|now d|d|d|] eqn:Hhs; [| | | |done].
  - destruct (sy_outputs s) as [|o q] eqn:Hq.
    { step_cases Hs; (constructor; cbn in *; rewrite ?Hq; try done).
      intros c' Hc'. unfold free in *. cbn in *. rewrite Heqw. rewrite Hq in Hw. by apply (Hw c'). }
    injection Hs as <-. destruct (Hmod o) as [Hlen Hnb]; [set_solver|].
    destruct (begin_output_eq o s.[sy_outputs := q]) as (b & f & r & n & Heq & Hbeq). cbn in Ho.
    refine (eq_ind_r (credit K) _ Heq).
    constructor; cbn; try done; [by rewrite Hbeq|lia|by rewrite timeouts_of_ready|].
    intros c' Hc'. specialize (Hw c' Hc'). rewrite timeouts_of_ready. cbn in Hw. unfold free in *. cbn. rewrite Hq in Hw.
    cbn in Hw. pose proof (owes_le (sy_worker s)).
    transitivity (K * (channel_capacity - length (sy_commands s) + (channel_capacity - S (length q)) + 2 - owes (sy_worker s)) + K * 1);
      [lia|]. rewrite <-Nat.mul_add_distr_l. apply Nat.mul_le_mono_l. lia.
  - destruct d as [[|[typ c] ts] ms ds i dt]; cbn in Hh, Hw.
    { injection Hs as <-. constructor; cbn; try done. }
    assert (forall c', sy_async s = A_Send c' ->
      length (sy_timeouts s ++ [(typ, TimeoutChanage_start 0%N c)]) + length ts <= K * (free s + 2 - owes (sy_worker s))) as Hw'.
    { intros c' Hc'. specialize (Hw c' Hc'). rewrite length_app. cbn. lia. }
    step_cases Hs; constructor; cbn; try done; try lia; intros c' Hc'; rewrite ?length_app in *; cbn in *;
      congruence || (rewrite Heqa in Hc'; specialize (Hw' c' Hc'); unfold free in *; cbn in *; lia).
  - destruct d as [ts ms [|r ds] i dt]; step_cases Hs; by constructor.
  - destruct d as [ts [|m ms] ds i dt]; [injection Hs as <-|step_cases Hs; by constructor].
    unfold finish_output, try_send_info. destruct (generate_info _ _) as [[i'|] g]; [destruct (sy_infos_closed s); [|destruct (_ <? info_capacity)]|]; by constructor.
Qed.

(** ** Closed inputs *)

Lemma tidy_start abc0 ignore now : tidy (start abc0 ignore now).
Proof. constructor; cbn; try done. by apply list.NoDup_nil. Qed.

Lemma change_timeout_one typ (c : TimeoutChanageStarted) (l : TimeoutList AbcTimeout) : one_per_type l -> one_per_type (change_timeout typ c l).
Proof. intros Hl. destruct c; cbn; [by apply one_per_type_insert|by apply one_per_type_filter..]. Qed.

Lemma wait_one now k (l l' : TimeoutList AbcTimeout) t typ :
  wait_for_timeout now k l = Some (t, typ, l') -> one_per_type l -> one_per_type l'.
Proof.
  unfold wait_for_timeout. intros Hw Hl. destruct (l !! k); [|done]. destruct (_ && _); [|done].
  injection Hw as <- <- <-. by apply one_per_type_delete.
Qed.

Lemma tidy_async k s s' : tidy s -> step_async k s = Some s' -> tidy s'.
Proof.
  intros [Hr Hc Hp He Hd Ht] Hs.
  assert (sy_worker s = W_Ended -> sy_panicked s = true) as Hp'.
  { intros Hw. destruct (Hp Hw) as [|[Ha _]]; [done|]. unfold step_async in Hs. by rewrite Ha in Hs. }
  clear Hp. unfold step_async, step_select in Hs.
  step_cases Hs; constructor; cbn; try done; eauto using change_timeout_one, wait_one.
  all: intros; try congruence; try (right; by destruct (sy_replica_open s), (sy_client_open s)).
  all: destruct (Hd ltac:(done)) as [? ?]; first [congruence|split; congruence].
Qed.

Lemma handler_ends s s' :
  step_handler s = Some s' -> sy_handler s' = H_Ended -> sy_worker s = W_Ended /\ sy_outputs s' = [].
Proof.
  intros Hs He. unfold step_handler in Hs. destruct (sy_handler s) as [|now d|d|d|]; [| | | |done].
  - destruct (sy_outputs s) as [|o q] eqn:Hq; [step_cases Hs; by split|]. injection Hs as <-.
    destruct (begin_output_eq o s.[sy_outputs := q]) as (b & f & r & n & Heq & _).
    apply (f_equal sy_handler) in Heq. by pose proof (eq_trans (eq_sym Heq) He).
  - destruct d as [[|[typ c] ts] ms ds i dt]; by step_cases Hs.
  - destruct d as [ts ms [|r ds] i dt], (sy_decisions_closed s); by step_cases Hs.
  - destruct d as [ts [|m ms] ds i dt]; [|by step_cases Hs]. injection Hs as <-. unfold finish_output, try_send_info in He.
    by destruct (generate_info _ _) as [[i'|] g]; [destruct (sy_infos_closed s); [|destruct (_ <? info_capacity)]|].
Qed.

Lemma to_send_ended (o : option AbcOutput) : to_send o <> W_Ended.
Proof. destruct o as [o|]; cbn; [by destruct (out_is_empty o)|done]. Qed.

Lemma tidy_other a s s' :
  tidy s -> step a s = Some s' -> match a with Do_Async _ => False | _ => True end -> tidy s'.
Proof.
  intros [Hr Hc Hp He Hd Ht] Hs Ha. destruct a as [m| |r| | | |d| |b| | |k| |]; cbn in Hs; try done.
  12: { unfold step_worker in Hs. destruct (sy_worker s) eqn:Hw; step_cases Hs; constructor; cbn; try done; auto;
        intros; try congruence; try (destruct (He ltac:(done)); [by left|by right]);
        first [by destruct (Hd ltac:(done))|by exfalso; eapply to_send_ended]. }
  12: { destruct (handler_frame s s' Hs) as (E0 & E1 & E2 & E3 & E4 & E5 & E6 & E7 & E8 & E9 & _ & E10).
       constructor; rewrite ?E0, ?E1, ?E2, ?E3, ?E4, ?E5, ?E6, ?E7, ?E8, ?E9, ?E10; try done. intros Hend.
       by apply (handler_ends s s'). }
  all: step_cases Hs; constructor; cbn; try done; intros; try (by destruct Hr) || (by destruct Hc).
Qed.

(** ** At rest *)

(** No task can go on by itself. *)
Definition blocked s : Prop := (forall k, step_async k s = None) /\ step_worker s = None /\ step_handler s = None.

(** The command side takes the first thing that waits. *)
Lemma select_blocked s :
  (forall k, step_select k s = None) -> tidy s ->
  sy_timeouts s = [] /\ sy_peers s = [] /\ sy_requests s = [].
Proof.
  intros Hb [Hr Hc _ _ _]. specialize (Hb 0). unfold step_select in Hb.
  destruct (sy_replica_open s) eqn:Ho, (sy_client_open s) eqn:Hcl; cbn in Hb; try done.
  all: destruct (sy_do_backup s), (sy_do_recover s), (sy_timeouts s) as [|[]]; try done.
  all: destruct (sy_peers s) as [|[[]]], (sy_peers_closed s); try done.
  all: destruct (sy_requests s), (sy_requests_closed s); try done.
  all: try (by destruct (Hr eq_refl)); by destruct (Hc eq_refl).
Qed.

(** The environment keeps nobody waiting: the network takes messages, and the channel
    to the application has a place or is closed. *)
Definition env_ready s : Prop :=
  sy_net_busy s = false
  /\ (sy_decisions_closed s = true \/ length (sy_delivered s) - sy_taken s < channel_capacity).

Lemma blocked_handler s : step_handler s = None ->
  match sy_handler s with
  | H_Recv => sy_outputs s = [] /\ sy_worker s <> W_Ended
  | H_Timeouts _ d => ds_timeouts d <> [] /\ sy_async s <> A_Ended /\ channel_capacity <= length (sy_timeouts s)
  | H_Ended => True
  | H_Decisions _ | H_Messages _ => ~ env_ready s
  end.
Proof.
  unfold step_handler. intros Hs. destruct (sy_handler s) as [|now d|d|d|]; [| | | |done].
  - destruct (sy_outputs s); [|done]. by destruct (sy_worker s).
  - destruct d as [[|[typ c] ts] ms ds i dt]; [done|].
    destruct (sy_async s); try done; destruct (Nat.ltb_spec (length (sy_timeouts s)) channel_capacity); done.
  - intros [_ He]. destruct d as [ts ms [|r ds] i dt]; [done|]. destruct (sy_decisions_closed s); [done|].
    destruct He as [|He]; [done|]. by rewrite (proj2 (Nat.ltb_lt _ _) He) in Hs.
  - intros [He _]. destruct d as [ts [|m ms] ds i dt]; [done|]. by rewrite He in Hs.
Qed.

(** A runtime whose worker is not gone stands still only when nothing is on its way. *)
Lemma blocked_quiescent K s :
  K <= channel_capacity -> credit K s -> tidy s -> blocked s -> env_ready s -> alive (sy_worker s) ->
  waiting s = [] /\ sy_requests s = [] /\ sy_peers s = [] /\ sy_outputs s = [] /\ worker_outputs (sy_worker s) = []
  /\ sy_handler s = H_Recv.
Proof.
  intros HK Hcr Htd (Ha & Hw & Hh%blocked_handler) Hready [Hal1 Hal2]. pose proof capacity_pos as Hpos.
  assert (sy_async s = A_Select -> sy_timeouts s = [] /\ sy_peers s = [] /\ sy_requests s = []) as Hsel.
  { intros Has. apply select_blocked; [|done]. intros k. specialize (Ha k). unfold step_async in Ha. by rewrite Has in Ha. }
  assert (forall c, sy_async s = A_Send c -> channel_capacity <= length (sy_commands s)) as Hsend.
  { intros c Has. specialize (Ha 0). unfold step_async in Ha. rewrite Has in Ha.
    destruct (Nat.ltb_spec (length (sy_commands s)) channel_capacity); [|done]. by destruct (sy_worker s). }
  assert (match sy_worker s with
          | W_Recv => sy_commands s = [] /\ sy_async s <> A_Ended
          | W_Send _ => channel_capacity <= length (sy_outputs s)
          | _ => False end) as Hwk.
  { unfold step_worker in Hw. destruct (sy_worker s) as [| |o| |]; try done.
    - by destruct (abc_init (sy_abc s)) as [[]| |].
    - destruct (sy_commands s) as [|c q]; [by destruct (sy_async s)|].
      by destruct (run_command c (sy_abc s) (sy_backup s)) as [[[]]| |].
    - by destruct (Nat.ltb_spec (length (sy_outputs s)) channel_capacity). }
  destruct (sy_handler s) as [|now d|d|d|] eqn:Hhs; [|exfalso|done|done|exfalso].
  - destruct Hh as [Hh _]. rewrite Hh in *. destruct (sy_worker s) as [| |o| |]; try done; [|cbn in Hwk; lia].
    destruct Hwk as [Hq Hne]. unfold waiting. rewrite Hq. destruct (sy_async s) as [|c|]; try done.
    + by destruct (Hsel eq_refl) as (_ & -> & ->).
    + specialize (Hsend c eq_refl). rewrite Hq in Hsend. cbn in Hsend. lia.
  - destruct Hh as (Hts & Hne & Hfull). destruct (sy_async s) as [|c|] eqn:Has; try done.
    { destruct (Hsel eq_refl) as (HT & _). rewrite HT in Hfull. cbn in Hfull. lia. }
    specialize (Hsend c eq_refl). destruct (sy_worker s) as [| |o| |] eqn:Hws; try done.
    { destruct Hwk as [Hq _]. rewrite Hq in Hsend. cbn in Hsend. lia. }
    pose proof (cr_waits _ _ Hcr c Has) as Hcw. rewrite Hhs, Hws in Hcw. unfold free in Hcw. cbn in Hcw.
    destruct (ds_timeouts d); [done|]. cbn in Hcw.
    replace (channel_capacity - length (sy_commands s) + (channel_capacity - length (sy_outputs s)) + 2 - 1) with 1 in Hcw by lia.
    lia.
  - apply Hal1. by apply (td_handler _ Htd).
Qed.


(** Outputs on their way are outputs of the protocol. *)
Lemma refines_outputs abc0 s cs os handled lost o :
  refines abc0 s cs os handled lost -> o ∈ sy_outputs s -> o ∈ os /\ exists cs abc b, protocol_run abc0 cs os abc b.
Proof.
  intros [Hrun Hk _ _ _ _ _] Ho. assert (o ∈ kept os) as Hin by (rewrite Hk; set_solver).
  assert (o ∈ os) as Hos.
  { destruct os as [|o' os]; [done|]. cbn in Hin. apply list.elem_of_cons in Hin as [->|Hin]; [set_solver|].
    apply list_elem_of_filter in Hin as [_ Hin]. set_solver. }
  split; [done|]. destruct (sy_worker s); [destruct Hrun as (_ & _ & _ & ->); set_solver|..];
    (destruct Hrun as [Hrun|(_ & _ & -> & _)]; [by eauto|set_solver]).
Qed.

Lemma tidy_step a s s' : tidy s -> step a s = Some s' -> tidy s'.
Proof.
  intros Htd Hs. destruct (match a with Do_Async _ => true | _ => false end) eqn:Ha.
  - destruct a; try done. by eapply tidy_async.
  - eapply tidy_other; [done..|]. by destruct a.
Qed.

Lemma run_tidy abc0 ignore now acts s : run acts (start abc0 ignore now) = Some s -> tidy s.
Proof. apply (run_invariant (fun _ => tidy)); [apply tidy_start|]. intros _ a s1 s2. apply tidy_step. Qed.

Lemma run_tracked abc0 ignore now acts s : run acts (start abc0 ignore now) = Some s -> tracked abc0 acts s.
Proof.
  intros Hrun. apply (run_invariant (fun acts s => tracked abc0 acts s /\ tidy s)) in Hrun as [? _]; [done|..].
  - split; [|apply tidy_start]. exists [], [], [], []. split; [apply refines_start|]. split; [apply inputs_start|apply control_start].
  - intros acts' a s1 s2 [Htr Htd] Hs. split; [by eapply tracked_step|by eapply tidy_step].
Qed.

Lemma run_reachable abc0 K ignore now acts s :
  modest abc0 K -> run acts (start abc0 ignore now) = Some s ->
  tracked abc0 acts s /\ tidy s /\ (no_recover acts -> credit K s).
Proof.
  intros Hmod. apply (run_invariant (fun acts s => tracked abc0 acts s /\ tidy s /\ (no_recover acts -> credit K s))).
  { split; [|split; [apply tidy_start|intros _; apply credit_start]].
    exists [], [], [], []. split; [apply refines_start|]. split; [apply inputs_start|apply control_start]. }
  clear acts s. intros acts a s s' (Htr & Htd & Hcr) Hs. split; [by eapply tracked_step|]. split.
  { by eapply tidy_step. }
  intros [Hnr Hna]%Forall_app. rewrite list.Forall_singleton in Hna. specialize (Hcr Hnr).
  destruct a as [m| |r| | | |d| |b| | |k| |]; cbn in Hs.
  12: by eapply credit_async.
  12: by eapply credit_worker.
  12: { eapply credit_handler; [|done..]. intros o Ho. destruct Htr as (cs & os & h & l & Href & _).
       destruct (refines_outputs _ _ _ _ _ _ o Href Ho) as (Hos & cs' & abc & b & Hrun). by eapply Hmod. }
  5: by destruct Hna.
  all: destruct Hcr; step_cases Hs; by constructor.
Qed.

(** ** Coming to rest *)

Definition internal (a : Action) : Prop :=
  match a with Do_Async _ | Do_Worker | Do_Handler => True | _ => False end.
Definition internal_step s s' : Prop := exists a, internal a /\ step a s = Some s'.
Definition inputs_closed s : Prop := sy_peers_closed s = true /\ sy_requests_closed s = true.

Definition is_backup c : bool := match c with Cmd_Backup => true | _ => false end.
Definition commands_left (cs : list AbcCommand) : nat := length (List.filter (fun c => negb (is_backup c)) cs).
Definition backups_left (cs : list AbcCommand) : nat := length (List.filter is_backup cs).

(** Commands to run, outputs to handle, and steps besides. *)
Definition init_left (w : WorkerPhase) : nat := match w with W_Init => 1 | _ => 0 end.
Definition worker_left (w : WorkerPhase) : nat := match w with W_Ended | W_Diverges => 0 | _ => 1 end.
Definition async_left (a : AsyncPhase) : nat := match a with A_Ended => 0 | _ => 1 end.
Definition handler_left (h : HandlerPhase) : nat :=
  match h with
  | H_Timeouts _ d => 2 * length (ds_timeouts d) + length (ds_decisions d) + length (ds_messages d) + 4
  | H_Decisions d => length (ds_decisions d) + length (ds_messages d) + 3
  | H_Messages d => length (ds_messages d) + 2
  | H_Recv => 1
  | H_Ended => 0
  end.

Definition work1 s : nat :=
  3 * (length (sy_peers s) + length (sy_requests s) + length (sy_do_recover s))
  + 2 * commands_left (async_commands (sy_async s)) + commands_left (sy_commands s) + init_left (sy_worker s).
Definition work2 s : nat := 2 * length (worker_outputs (sy_worker s)) + length (sy_outputs s).
Definition work3 s : nat :=
  3 * length (sy_do_backup s) + 2 * backups_left (async_commands (sy_async s)) + backups_left (sy_commands s)
  + handler_left (sy_handler s) + length (sy_timeouts s) + Nat.b2n (sy_replica_open s) + Nat.b2n (sy_client_open s)
  + async_left (sy_async s) + worker_left (sy_worker s).

Definition less_work s' s : Prop :=
  work1 s' < work1 s \/ work1 s' <= work1 s /\ (work2 s' < work2 s \/ work2 s' <= work2 s /\ work3 s' < work3 s).

Lemma commands_left_cons c cs : commands_left (c :: cs) = Nat.b2n (negb (is_backup c)) + commands_left cs.
Proof. unfold commands_left. cbn. by destruct (is_backup c). Qed.
Lemma backups_left_cons c cs : backups_left (c :: cs) = Nat.b2n (is_backup c) + backups_left cs.
Proof. unfold backups_left. cbn. by destruct (is_backup c). Qed.
Lemma commands_left_app cs cs' : commands_left (cs ++ cs') = commands_left cs + commands_left cs'.
Proof. unfold commands_left. by rewrite List.filter_app, length_app. Qed.
Lemma backups_left_app cs cs' : backups_left (cs ++ cs') = backups_left cs + backups_left cs'.
Proof. unfold backups_left. by rewrite List.filter_app, length_app. Qed.
Lemma commands_left_nil : commands_left [] = 0.
Proof. done. Qed.
Lemma backups_left_nil : backups_left [] = 0.
Proof. done. Qed.
#[local] Opaque commands_left backups_left.
Create Rewrite HintDb work.
#[local] Hint Rewrite commands_left_cons backups_left_cons commands_left_app backups_left_app
  commands_left_nil backups_left_nil @length_app : work.

(** Unfolds the measure at the two states of a step and compares. *)
Ltac less_work :=
  unfold less_work, work1, work2, work3; cbn;
  repeat match goal with H : ?f ?s = _ |- context [?f ?s] => rewrite H end; cbn;
  autorewrite with work;
  repeat match goal with H : is_backup _ = _ |- _ => rewrite H end; cbn; try lia.

Lemma less_work_async k s s' : inputs_closed s -> tidy s -> step_async k s = Some s' -> less_work s' s.
Proof.
  intros [Hp Hq] [Hr Hc _ _ _] Hs. unfold step_async, step_select in Hs. rewrite Hp, Hq in Hs. clear Hr Hc Hp Hq.
  destruct (sy_async s) as [|c|] eqn:Ha; [| |done].
  - destruct (sy_replica_open s) eqn:Ho, (sy_client_open s) eqn:Hcl; cbn in Hs; step_cases Hs; less_work.
  - destruct (sy_worker s) eqn:Hw; step_cases Hs; destruct (is_backup c) eqn:Hb; less_work.
Qed.

Lemma init_left_send (o : option AbcOutput) : init_left (to_send o) = 0.
Proof. destruct o as [o|]; cbn; [by destruct (out_is_empty o)|done]. Qed.

Lemma less_work_worker s s' : step_worker s = Some s' -> less_work s' s.
Proof.
  intros Hs. unfold step_worker in Hs. destruct (sy_worker s) as [| |o| |] eqn:Hw; [| | |done..].
  - step_cases Hs; less_work.
  - destruct (sy_commands s) as [|c q] eqn:Hq; [step_cases Hs; less_work|].
    destruct (is_backup c) eqn:Hb.
    + destruct c; try done. cbn in Hs. destruct (abc_backup (sy_abc s)) as [[b abc]| |]; injection Hs as <-; less_work.
    + destruct (run_command c (sy_abc s) (sy_backup s)) as [[[o abc] b]| |]; injection Hs as <-;
        try pose proof (init_left_send o); less_work.
  - step_cases Hs; less_work.
Qed.

Lemma less_work_handler s s' : step_handler s = Some s' -> less_work s' s.
Proof.
  intros Hs. unfold step_handler in Hs. destruct (sy_handler s) as [|now d|d|d|] eqn:Hh; [| | | |done].
  - destruct (sy_outputs s) as [|o q] eqn:Hq; [step_cases Hs; less_work|]. injection Hs as <-.
    destruct (begin_output_eq o s.[sy_outputs := q]) as (b & f & r & n & Heq & _).
    refine (eq_ind_r (fun x => less_work x s) _ Heq). less_work.
  - destruct d as [[|[typ c] ts] ms ds i dt]; step_cases Hs; less_work.
  - destruct d as [ts ms [|r ds] i dt]; step_cases Hs; less_work.
  - destruct d as [ts [|m ms] ds i dt]; [injection Hs as <-|step_cases Hs; less_work].
    unfold finish_output, try_send_info. destruct (generate_info _ _) as [[i'|] g]; [destruct (sy_infos_closed s); [|destruct (_ <? info_capacity)]|]; less_work.
Qed.

(** A measure of three numbers, compared from the first, leaves no infinite descent. *)
Lemma less_work_acc (R : System -> System -> Prop) (P : System -> Prop) :
  (forall s s', P s -> R s s' -> P s' /\ less_work s' s) -> forall s, P s -> Acc (fun x y => R y x) s.
Proof.
  intros HR.
  assert (forall n1 n2 n3 s, work1 s < n1 -> work2 s < n2 -> work3 s < n3 -> P s -> Acc (fun x y => R y x) s) as Hall.
  { induction n1 as [|n1 IH1]; [lia|]. induction n2 as [|n2 IH2]; [lia|]. induction n3 as [|n3 IH3]; [lia|].
    intros s H1 H2 H3 HP. constructor. intros s' Hs. destruct (HR s s' HP Hs) as [HP' [Hl|[Hl [Hl'|[Hl' Hl'']]]]].
    - apply (IH1 (S (work2 s')) (S (work3 s'))); [lia..|done].
    - apply (IH2 (S (work3 s'))); [lia..|done].
    - apply IH3; [lia..|done]. }
  intros s. apply (Hall (S (work1 s)) (S (work2 s)) (S (work3 s))); lia.
Qed.

Lemma closed_internal s s' :
  inputs_closed s /\ tidy s -> internal_step s s' -> (inputs_closed s' /\ tidy s') /\ less_work s' s.
Proof.
  intros [Hc Htd] (a & Ha & Hs). destruct a as [m| |r| | | |d| |b| | |k| |]; try done; cbn in Hs.
  - split; [|by eapply less_work_async]. split; [|by eapply tidy_async].
    destruct Hc as [Hp Hq]. unfold step_async, step_select in Hs. rewrite Hp, Hq in Hs.
    unfold inputs_closed. step_cases Hs; done.
  - split; [|by eapply less_work_worker]. split; [|by eapply (tidy_other Do_Worker)].
    destruct Hc as [Hp Hq]. unfold inputs_closed. unfold step_worker in Hs. by step_cases Hs.
  - split; [|by eapply less_work_handler]. split; [|by eapply (tidy_other Do_Handler)].
    destruct Hc as [Hp Hq]. destruct (handler_frame s s' Hs) as (_ & _ & _ & _ & _ & _ & _ & _ & E1 & E2 & _).
    unfold inputs_closed. by rewrite E1, E2.
Qed.

(** ** What a run has delivered *)

Lemma run_decided abc0 ignore now acts s :
  run acts (start abc0 ignore now) = Some s ->
  sy_delivered s = [] /\ sy_sent s = [] /\ sy_abc s = abc0 /\ sy_backup s = None \/
  exists cs os, protocol_run abc0 cs os (sy_abc s) (sy_backup s)
    /\ sy_delivered s `prefix_of` decisions os /\ sy_sent s `prefix_of` messages os
    /\ requests cs `prefix_of` arrived_requests acts /\ peers cs `prefix_of` arrived_peers acts
    /\ ((forall o, out_do_backup o = false) -> Cmd_Backup ∉ cs) /\ (no_recover acts -> Cmd_Recover ∉ cs).
Proof.
  intros (cs & os & handled & lost & [Hrun Hk Hd _ Hm _ _] & [Hq Hp _] & [Hb Hr])%run_tracked.
  assert (Forall out_ok os -> sy_delivered s `prefix_of` decisions os /\ sy_sent s `prefix_of` messages os) as Hpre.
  { intros Hok. rewrite <-kept_decisions, <-kept_messages, Hk, decisions_app, messages_app, Hd, Hm, <-!app_assoc by done.
    split; by apply prefix_app_r. }
  assert (protocol_run abc0 cs os (sy_abc s) (sy_backup s) \/ os = [] /\ sy_abc s = abc0 /\ sy_backup s = None)
    as [Hpr|(-> & Habc & Hbk)]; [|right|left].
  { destruct (sy_worker s); naive_solver. }
  2: { destruct (Hpre ltac:(done)) as [Hdel Hsent]. by apply prefix_nil_inv in Hdel, Hsent. }
  destruct (Hpre (protocol_run_ok _ _ _ _ _ Hpr)) as [Hdel Hsent].
  exists cs, os. repeat (split; [done|]).
  split; [intros Ho; destruct (Hb Ho)|intros Hno; destruct (Hr Hno)]; rewrite not_elem_of_app in *; naive_solver.
Qed.

(** The outputs have been handled to the end. *)
Definition all_handled (abc0 : Abc) (acts : list Action) s : Prop :=
  exists cs os, protocol_run abc0 cs os (sy_abc s) (sy_backup s)
    /\ requests cs = arrived_requests acts /\ peers cs = arrived_peers acts
    /\ (sy_decisions_closed s = false -> sy_delivered s = decisions os) /\ sy_sent s = messages os.

Lemma quiescent_handled abc0 acts s :
  tracked abc0 acts s -> intact s -> sy_worker s <> W_Init ->
  waiting s = [] -> sy_requests s = [] -> sy_peers s = [] -> sy_outputs s = [] -> worker_outputs (sy_worker s) = [] ->
  sy_handler s = H_Recv \/ sy_handler s = H_Ended -> all_handled abc0 acts s.
Proof.
  intros (cs & os & handled & lost & Href & Hin & _) Ha Hni Hwt Hrq Hpe Hou Hwo Hh.
  destruct Href as [Hpr Hk Hd Hl Hm _ _]. rewrite Hou, Hwo, !app_nil_r in Hk.
  replace (handler_decisions (sy_handler s)) with (@nil (N * N * AbcRequest)) in Hd by (by destruct Hh as [->| ->]).
  replace (handler_messages (sy_handler s)) with (@nil (MessageDestination * AbcMessage)) in Hm by (by destruct Hh as [->| ->]).
  rewrite !app_nil_r in Hd, Hm. exists cs, os.
  assert (protocol_run abc0 cs os (sy_abc s) (sy_backup s)) as Hrun'.
  { destruct (sy_worker s) eqn:Hw; try done; (destruct Hpr as [Hpr|[Hend _]]; [done|]);
      exfalso; destruct Ha as [[? ?]|[? ?]]; destruct Hend as [[? ?]|?]; congruence. }
  split; [done|]. destruct (in_waiting _ _ _ Hin Ha) as [-> ->]. rewrite Hwt, Hrq, Hpe, !app_nil_r.
  pose proof (protocol_run_ok _ _ _ _ _ Hrun') as Hok.
  rewrite <-(kept_decisions os), <-(kept_messages os), Hk, Hd, Hm by done.
  repeat (split; [done|]). split; [|done]. intros Hc. by rewrite (Hl Hc), app_nil_r.
Qed.

(** Where no task can go on, the worker is not gone and the environment is ready, all work is done. *)
Lemma run_at_rest abc0 ignore now acts s :
  modest abc0 channel_capacity -> no_recover acts ->
  run acts (start abc0 ignore now) = Some s -> blocked s -> env_ready s -> alive (sy_worker s) -> all_handled abc0 acts s.
Proof.
  intros Hmod Hnr Hrun Hb He Ha.
  destruct (run_reachable _ _ _ _ _ _ Hmod Hrun) as (Htr & Htd & Hcr).
  destruct (blocked_quiescent _ s (le_n _) (Hcr Hnr) Htd Hb He Ha) as (Hwt & Hrq & Hpe & Hou & Hwo & Hh).
  apply quiescent_handled; try done; [by left| |by left].
  intros Hw. destruct Hb as (_ & Hb & _). unfold step_worker in Hb. rewrite Hw in Hb. by destruct (abc_init (sy_abc s)) as [[]| |].
Qed.

(** ** Shutting down *)

(** The command side does not wait once the inputs are closed. *)
Lemma select_closed s : inputs_closed s -> step_select 0 s <> None.
Proof.
  intros [Hp Hq]. unfold step_select. rewrite Hp, Hq.
  destruct (sy_replica_open s), (sy_client_open s); cbn; try done;
    destruct (sy_do_backup s), (sy_do_recover s), (sy_timeouts s) as [|[]], (sy_peers s) as [|[[]]], (sy_requests s); done.
Qed.

Lemma closed_worker_ends K s :
  K <= channel_capacity -> credit K s -> tidy s -> inputs_closed s -> blocked s -> env_ready s ->
  sy_worker s <> W_Diverges -> sy_worker s = W_Ended.
Proof.
  intros HK Hcr Htd Hcl Hb He Hnd. assert (sy_worker s = W_Ended \/ alive (sy_worker s)) as [|Ha]; [|done|].
  { unfold alive. destruct (sy_worker s); by auto. }
  exfalso. destruct (blocked_quiescent K s HK Hcr Htd Hb He Ha) as (Hwt & _ & _ & Hou & Hwo & _).
  destruct Hb as (Has & Hw & _). specialize (Has 0). unfold step_async in Has.
  unfold waiting in Hwt. apply app_eq_nil in Hwt as [Hq Hac].
  destruct (sy_async s) as [|c|] eqn:Ea; [by apply select_closed in Has|done|].
  unfold step_worker in Hw. rewrite Hq, Ea in Hw. destruct (sy_worker s) as [| |o| |]; try done; [by destruct (abc_init (sy_abc s)) as [[]| |]|by destruct Ha].
Qed.

Lemma ended_tasks s :
  inputs_closed s -> blocked s -> env_ready s -> sy_worker s = W_Ended -> sy_async s = A_Ended /\ sy_handler s = H_Ended.
Proof.
  intros Hcl (Has & _ & Hh%blocked_handler) He Hw.
  assert (sy_async s = A_Ended) as Ha.
  { specialize (Has 0). unfold step_async in Has. rewrite Hw in Has. destruct (sy_async s); [by apply select_closed in Has|done|done]. }
  split; [done|]. destruct (sy_handler s); [by destruct Hh|by destruct Hh as (_ & ? & _)|done..].
Qed.

(** What the environment may do while the tasks shut down. *)
Definition patient (a : Action) : Prop := ~ internal a /\ a <> Env_Recover.

(** A step of a task, after any actions of the environment. *)
Definition task_step s s' : Prop := exists es s1, Forall patient es /\ run es s = Some s1 /\ internal_step s1 s'.

Lemma patient_step a s s' :
  patient a -> inputs_closed s /\ tidy s -> step a s = Some s' ->
  (inputs_closed s' /\ tidy s') /\ work1 s' = work1 s /\ work2 s' = work2 s /\ work3 s' = work3 s.
Proof.
  intros [Hi Hr] [[Hp Hq] Htd] Hs. split; [split|].
  - unfold inputs_closed. destruct a as [m| |r| | | |d| |b| | |k| |]; try (by destruct Hi); try done; cbn in Hs; by step_cases Hs.
  - by eapply tidy_step.
  - destruct a as [m| |r| | | |d| |b| | |k| |]; try (by destruct Hi); try done; cbn in Hs; rewrite ?Hp, ?Hq in Hs; step_cases Hs; done.
Qed.

Lemma closed_task s s' : inputs_closed s /\ tidy s -> task_step s s' -> (inputs_closed s' /\ tidy s') /\ less_work s' s.
Proof.
  intros HP (es & s1 & Hes & Hrun & Hs).
  assert ((inputs_closed s1 /\ tidy s1) /\ work1 s1 = work1 s /\ work2 s1 = work2 s /\ work3 s1 = work3 s) as (HP1 & E1 & E2 & E3).
  { clear Hs s'. revert s HP Hrun. induction es as [|a es IH]; intros s HP Hrun; [by injection Hrun as <-|].
    apply list.Forall_cons in Hes as [Ha Hes]. cbn in Hrun. destruct (step a s) as [s2|] eqn:Hs2; [|done]. cbn in Hrun.
    destruct (patient_step a s s2 Ha HP Hs2) as (HP2 & <- & <- & <-). by apply IH. }
  destruct (closed_internal s1 s' HP1 Hs) as [HP' Hl]. split; [done|]. unfold less_work in *. by rewrite <-E1, <-E2, <-E3.
Qed.

(** Where no task can go on after the inputs were closed, all have ended. *)
Lemma run_shut_down abc0 ignore now acts s :
  modest abc0 channel_capacity -> no_recover acts -> run acts (start abc0 ignore now) = Some s ->
  inputs_closed s -> blocked s -> env_ready s -> sy_worker s <> W_Diverges ->
  sy_worker s = W_Ended /\ sy_async s = A_Ended /\ sy_handler s = H_Ended
  /\ (sy_panicked s = false -> all_handled abc0 acts s).
Proof.
  intros Hmod Hnr Hrun Hcl Hb He Hnd.
  destruct (run_reachable _ _ _ _ _ _ Hmod Hrun) as (Htr & Htd & Hcr).
  pose proof (closed_worker_ends _ s (le_n _) (Hcr Hnr) Htd Hcl Hb He Hnd) as Hw.
  destruct (ended_tasks s Hcl Hb He Hw) as [Ha Hh]. split_and!; [done..|]. intros Hnp.
  destruct (td_panicked _ Htd Hw) as [|[_ Hq]]; [congruence|].
  destruct (td_ended _ Htd Ha) as [|[Hro Hco]]; [congruence|].
  destruct (td_replica _ Htd Hro) as [Hpe _]. destruct (td_client _ Htd Hco) as [Hrq _].
  apply quiescent_handled; try done.
  - right. done.
  - congruence.
  - unfold waiting. by rewrite Hq, Ha.
  - by apply (td_handler _ Htd).
  - by rewrite Hw.
  - by right.
Qed.
End runtime.
