(* ===== verification/WrapperTheorems.v ===== *)
(** * The runtime: theorems

    What the runtime of [Wrapper] promises for any protocol, witnessed on a small
    protocol, [echo]: it decides every request at once and asks for [k] timeouts
    with each answer. *)

From Stdlib Require Import ZArith Lia String.
From stdpp Require Import base list sets option numbers.
From S2P Require Import Prelude Wrapper WrapperFacts.

(** ** An example *)

Record EchoOutput := mkEchoOutput { eo_decisions : list (N * N * N); eo_timeouts : nat }.

Definition echo_timeout : N * TimeoutChanage := (0%N, TC_Set 10 (mkStopClass 0)).

Definition echo (k : nat) : AbcWrapper := {|
  Abc := ();
  AbcTimeout := N;
  AbcMessage := N;
  AbcRequest := N;
  AbcOutput := EchoOutput;
  AbcBackup := ();
  AbcInfo := AtomicBroadcastInfo;
  abc_init := mret (mkEchoOutput [] 0);
  abc_handle_timeout := fun _ => mret (mkEchoOutput [] 0);
  abc_handle_peer_message := fun _ _ _ => mret (mkEchoOutput [] 0);
  abc_handle_client_request := fun r => mret (mkEchoOutput [r] k);
  abc_backup := mret ();
  abc_restore := fun _ => mret None;
  out_is_empty := fun o => false;
  out_sets_ready := fun o => match eo_decisions o with [] => true | _ => false end;
  out_do_backup := fun _ => false;
  out_destructure := fun o ready => {|
    ds_timeouts := repeat echo_timeout (eo_timeouts o);
    ds_messages := []; ds_decisions := eo_decisions o;
    ds_info := {| ai_ready := ready; ai_state := EmptyString; ai_leader := None |};
    ds_decision_times := [];
  |};
  generate_info := AtomicBroadcastInfo_generate_info;
|}.

Definition echo_laws k : @AbcWrapperLaws (echo k).
Proof. by apply (@Build_AbcWrapperLaws (echo k) (fun _ => True)). Defined.

Definition echo_start (k : nat) : @System (echo k) := @start (echo k) () None 0%N.

(** Two requests are handled to the end. *)
Definition echo_acts : list (@Action (echo 2)) :=
  [Do_Worker; Do_Worker; @Env_Request (echo 2) (1, 1, 7)%N; @Env_Request (echo 2) (2, 1, 8)%N;
   Do_Async 0; Do_Async 0; Do_Worker; Do_Worker; Do_Async 0; Do_Async 0; Do_Worker; Do_Worker]
  ++ repeat Do_Handler 18 ++ repeat (Do_Async 0) 4.

Definition echo_end : @System (echo 2) := Eval vm_compute in default (echo_start 2) (run echo_acts (echo_start 2)).

Lemma echo_run : run echo_acts (echo_start 2) = Some echo_end.
Proof. vm_compute. reflexivity. Qed.

Lemma no_recover_test `{AbcWrapper} (acts : list Action) :
  forallb (fun a => match a with Env_Recover => false | _ => true end) acts = true -> no_recover acts.
Proof.
  rewrite forallb_forall. intros Hall. apply list.Forall_forall. intros a Ha%list_elem_of_In ->. by specialize (Hall _ Ha).
Qed.

Lemma echo_modest k : k <= channel_capacity -> @modest (echo k) () channel_capacity.
Proof.
  intros Hk cs os abc b o Hr Ho. split; [|done]. unfold timeouts_of. cbn. rewrite repeat_length.
  revert o Ho. apply list.Forall_forall. induction Hr as [o abc Hi|cs os abc b c o abc' b' _ IH Hc].
  - injection Hi as <- <-. apply list.Forall_singleton. cbn. lia.
  - apply list.Forall_app. split; [done|]. destruct c as [typ|typ from m|r| |]; cbn in Hc; [..|destruct b; cbn in Hc];
      injection Hc as <- <- <-; first [apply list.Forall_nil; done|apply list.Forall_singleton; cbn; lia].
Qed.

Section theorems.
  Context `{WL : AbcWrapperLaws}.

(** C3: Refinement.  However the three tasks interleave, what they do together is what the
    protocol does alone on a sequence of commands: what it decided is what was
    delivered, then what the closed channel of the application lost, then what is on
    its way, in the order in which it was decided, and the same for messages; the
    protocol gets the requests and messages of the environment in their order,
    leaving none out; and the application is told at most once that the protocol is
    ready. *)
Theorem wr_refines_protocol abc0 ignore now acts s :
  run acts (start abc0 ignore now) = Some s ->
  (sy_delivered s = [] /\ sy_sent s = [] /\ sy_ready_calls s = 0 \/
   exists cs os lost, protocol_run abc0 cs os (sy_abc s) (sy_backup s)
    /\ decisions os = sy_delivered s ++ lost ++ undelivered s /\ (sy_decisions_closed s = false -> lost = [])
    /\ messages os = sy_sent s ++ unsent s
    /\ requests cs `prefix_of` arrived_requests acts /\ peers cs `prefix_of` arrived_peers acts
    /\ (alive (sy_worker s) -> arrived_requests acts = requests (cs ++ waiting s) ++ sy_requests s
                              /\ arrived_peers acts = peers (cs ++ waiting s) ++ sy_peers s))
  /\ sy_ready_calls s <= 1.
Proof.
  intros (cs & os & handled & lost & [Hrun Hk Hd Hl Hm Hy [_ Ho]] & [Hq Hp Hw] & _)%run_tracked.
  split; [|rewrite Ho; destruct (sy_ready s); cbn; lia].
  assert (protocol_run abc0 cs os (sy_abc s) (sy_backup s) \/ os = []) as [Hpr|Hnil].
  { destruct (sy_worker s); naive_solver. }
  - right. exists cs, os, lost. split; [done|]. pose proof (protocol_run_ok _ _ _ _ _ Hpr) as Hok.
    rewrite <-(kept_decisions os), <-(kept_messages os), Hk, decisions_app, messages_app, Hd, Hm by done.
    unfold undelivered, unsent. rewrite <-!app_assoc. split_and!; try done. intros Ha. apply Hw. by left.
  - left. subst os. symmetry in Hk. apply app_eq_nil in Hk as [-> _]. symmetry in Hd, Hm.
    apply app_eq_nil in Hd as [-> _], Hm as [-> _]. by rewrite Ho, Hy.
Qed.

(** C24: Rest.  If no output of the protocol has more than 1000 timeouts, the protocol asks
    for no backup and nobody asks it to recover, then the bounded channels between the
    tasks do not block each other: where no task can go on although the environment keeps
    none waiting (the network takes messages, and the channel to the application has a
    place or is closed), and the worker has neither ended nor is in a handler that does
    not return, every request and message that arrived was handled, every message sent,
    and every decision delivered if the application has not closed its channel. *)
Theorem wr_rest abc0 ignore now acts s :
  modest abc0 channel_capacity -> no_recover acts ->
  run acts (start abc0 ignore now) = Some s -> blocked s -> env_ready s -> alive (sy_worker s) ->
  exists cs os, protocol_run abc0 cs os (sy_abc s) (sy_backup s)
    /\ requests cs = arrived_requests acts /\ peers cs = arrived_peers acts
    /\ (sy_decisions_closed s = false -> sy_delivered s = decisions os) /\ sy_sent s = messages os.
Proof. apply run_at_rest. Qed.

(** C25: Shutdown.  Under the conditions of [wr_rest], once the environment has closed the
    channels of messages and requests, the tasks take only finitely many further steps,
    whatever the environment does in between short of asking for a recovery; and where
    no task can go on, either the environment keeps the output handler waiting, or the
    worker is in a handler that does not return, or all three tasks have ended.  If they
    have and no handler panicked, every request and message that arrived was handled,
    every message sent, and every decision delivered if the application has not closed its
    channel. *)
Theorem wr_shutdown abc0 ignore now acts s :
  modest abc0 channel_capacity -> no_recover acts ->
  run acts (start abc0 ignore now) = Some s -> inputs_closed s ->
  Acc (fun s' s => task_step s s') s
  /\ (blocked s -> env_ready s -> sy_worker s <> W_Diverges ->
      sy_worker s = W_Ended /\ sy_async s = A_Ended /\ sy_handler s = H_Ended
      /\ (sy_panicked s = false ->
          exists cs os, protocol_run abc0 cs os (sy_abc s) (sy_backup s)
            /\ requests cs = arrived_requests acts /\ peers cs = arrived_peers acts
            /\ (sy_decisions_closed s = false -> sy_delivered s = decisions os) /\ sy_sent s = messages os)).
Proof.
  intros Hmod Hnr Hrun Hc. split; [|intros Hb He Hnd; by apply (run_shut_down abc0 ignore now)].
  apply (less_work_acc task_step (fun s => inputs_closed s /\ tidy s)); [apply closed_task|]. split; [done|]. by eapply run_tidy.
Qed.

(** The list of timeouts.  Reached by any run, it holds at most one timeout per type,
    and as a map from types to instants and stop classes: [insert] sets the timeout
    of its type, whatever its class was; [remove] deletes it if the class matches;
    [remove_all] deletes it; [wait_for_timeout] returns and deletes one that has
    elapsed and is not later than any other, and some choice is possible whenever one
    has elapsed. *)
Theorem wr_timeout_list abc0 ignore now0 acts s :
  run acts (start abc0 ignore now0) = Some s ->
  let l := sy_timeout_list s in
  one_per_type l
  /\ (forall typ t c typ', running (TimeoutList_insert typ t c l) typ'
     = if decide (typ = typ') then Some (t, c) else running l typ')
  /\ (forall typ c typ', running (TimeoutList_remove typ c l) typ'
     = match running l typ' with
       | Some (t, c') => if decide (typ = typ' /\ c = c') then None else Some (t, c')
       | None => None
       end)
  /\ (forall typ typ', running (TimeoutList_remove_all typ l) typ' = if decide (typ = typ') then None else running l typ')
  /\ (forall now k t typ l', wait_for_timeout now k l = Some (t, typ, l') ->
       (exists c, running l typ = Some (t, c)) /\ (t <= now)%N
       /\ (forall typ' t' c', running l typ' = Some (t', c') -> (t <= t')%N)
       /\ forall typ', running l' typ' = if decide (typ = typ') then None else running l typ')
  /\ (forall now typ t c, running l typ = Some (t, c) -> (t <= now)%N -> exists k, wait_for_timeout now k l <> None).
Proof.
  intros Hrun l. pose proof (td_timeouts _ (run_tidy _ _ _ _ _ Hrun)) as Hl. fold l in Hl. clearbody l.
  split; [done|]. split_and!.
  - intros typ t c typ'. cbn. case_decide; [done|]. unfold TimeoutList_remove_all. rewrite running_filter by done.
    destruct (running l typ') as [[t' c']|]; [|done]. by rewrite decide_True by (cbn; congruence).
  - intros typ c typ'. unfold TimeoutList_remove. rewrite running_filter by done.
    destruct (running l typ') as [[t' c']|]; [|done]. cbn. destruct (decide (typ = typ' /\ c = c')) as [[-> ->]|Hne].
    + rewrite decide_False; [done|]. naive_solver.
    + rewrite decide_True; [done|]. destruct (decide (typ' = typ)); [right|left]; naive_solver.
  - intros typ typ'. unfold TimeoutList_remove_all. rewrite running_filter by done.
    destruct (running l typ') as [[t' c']|]; [|by case_decide]. cbn. case_decide; case_decide; naive_solver.
  - intros now k t typ l' Hw. unfold wait_for_timeout in Hw. destruct (l !! k) as [e|] eqn:Hk; [|done].
    destruct (earliest e l) eqn:He; [|done]. cbn in Hw. destruct (N.leb_spec (te_timeout e) now); [|done].
    injection Hw as <- <- <-. assert (e ∈ l) as Hin by (by eapply list_elem_of_lookup_2).
    split; [exists (te_stop_class e); by apply elem_of_running|]. split; [done|]. split.
    + intros typ' t' c' Hr%running_elem. by apply (earliest_le _ _ _ He Hr).
    + intros typ'. by apply running_delete.
  - intros now typ t c Hr%running_elem Hle. destruct (earliest_exists l) as (k & e & Hk & He); [by intros ->; apply not_elem_of_nil in Hr|].
    exists k. unfold wait_for_timeout. rewrite Hk, He. cbn.
    pose proof (earliest_le _ _ _ He Hr) as Hee. cbn in Hee. by rewrite (proj2 (N.leb_le _ _)) by lia.
Qed.
End theorems.

Lemma wr_refines_protocol_witness :
  run echo_acts (echo_start 2) = Some echo_end /\ sy_delivered echo_end = [(1, 1, 7); (2, 1, 8)]%N
  /\ sy_ready_calls echo_end <= 1.
Proof.
  split; [exact echo_run|]. split; [reflexivity|].
  exact (proj2 (wr_refines_protocol (WL := echo_laws 2) () None 0%N echo_acts echo_end echo_run)).
Defined.

Lemma echo_blocked : blocked echo_end.
Proof. split; [|done]. intros [|[|k]]; reflexivity. Qed.

Lemma wr_rest_witness : exists cs os, @protocol_run (echo 2) () cs os (sy_abc echo_end) (sy_backup echo_end)
  /\ requests cs = [(1, 1, 7); (2, 1, 8)]%N /\ sy_delivered echo_end = decisions os.
Proof.
  destruct (wr_rest (WL := echo_laws 2) () None 0%N echo_acts echo_end) as (cs & os & Hr & Hq & _ & Hd & _).
  - apply echo_modest. unfold channel_capacity. lia.
  - apply no_recover_test. reflexivity.
  - exact echo_run.
  - exact echo_blocked.
  - split; [reflexivity|]. right. apply Nat.ltb_lt. reflexivity.
  - split; discriminate.
  - exists cs, os. split; [exact Hr|]. split; [exact Hq|exact (Hd eq_refl)].
Defined.

(** The inputs are closed, and the tasks end one after the other. *)
Definition echo_stop : list (@Action (echo 2)) :=
  echo_acts ++ [Env_ClosePeers; Env_CloseRequests] ++ repeat (Do_Async 0) 3 ++ [Do_Worker; Do_Handler].
Definition echo_stopped : @System (echo 2) := Eval vm_compute in default (echo_start 2) (run echo_stop (echo_start 2)).
Lemma echo_stop_run : run echo_stop (echo_start 2) = Some echo_stopped.
Proof. vm_compute. reflexivity. Qed.

Lemma wr_shutdown_witness :
  Acc (fun s' s => task_step s s') echo_stopped
  /\ sy_worker echo_stopped = W_Ended /\ sy_async echo_stopped = A_Ended /\ sy_handler echo_stopped = H_Ended
  /\ exists cs os, @protocol_run (echo 2) () cs os (sy_abc echo_stopped) (sy_backup echo_stopped)
       /\ requests cs = [(1, 1, 7); (2, 1, 8)]%N /\ sy_delivered echo_stopped = decisions os.
Proof.
  destruct (wr_shutdown (WL := echo_laws 2) () None 0%N echo_stop echo_stopped) as [Hacc Hend].
  - apply echo_modest. unfold channel_capacity. lia.
  - apply no_recover_test. reflexivity.
  - exact echo_stop_run.
  - split; reflexivity.
  - split; [exact Hacc|]. destruct Hend as (Hw & Ha & Hh & Hall).
    + split; [intros k; reflexivity|]. split; reflexivity.
    + split; [reflexivity|]. right. apply Nat.ltb_lt. reflexivity.
    + discriminate.
    + split; [exact Hw|]. split; [exact Ha|]. split; [exact Hh|].
      destruct (Hall eq_refl) as (cs & os & Hr & Hq & _ & Hd & _). exists cs, os. split; [exact Hr|]. split; [exact Hq|exact (Hd eq_refl)].
Defined.

Lemma wr_timeout_list_witness : running (sy_timeout_list echo_end) 0%N = Some (10%N, mkStopClass 0)
  /\ running (TimeoutList_remove_all 0%N (sy_timeout_list echo_end)) 0%N = None.
Proof.
  split; [reflexivity|].
  destruct (wr_timeout_list (H := echo 2) () None 0%N echo_acts echo_end echo_run) as (_ & _ & _ & Hr & _).
  exact (Hr 0%N 0%N).
Defined.

(** ** The runtime: a deadlock of its channels

    A run of the protocol [echo] of [WrapperTheorems] with one timeout more in an
    output than the channel of timeouts has places.  [jam] is a state of the runtime
    whose channels hold copies of the same elements, given by their numbers; the
    phases of the run are loops between such states. *)

Abbreviation burst := (S channel_capacity).
#[local] Hint Extern 0 AbcWrapper => exact (echo burst) : typeclass_instances.
Definition jam_request : N * N * N := (1, 1, 7)%N.
Definition jam_command : @AbcCommand (echo burst) := @Cmd_ClientRequest (echo burst) jam_request.
Definition jam_output : @AbcOutput (echo burst) := mkEchoOutput [jam_request] burst.
Definition jam_info : AtomicBroadcastInfo := {| ai_ready := true; ai_state := EmptyString; ai_leader := None |}.

(** [q] requests, [c] commands, [o] outputs and [t] timeouts in the channels. *)
Definition jam (q c o t : nat) w a h : @System (echo burst) :=
  @mkSystem (echo burst) () None w a [] true true 0 h false true (Some jam_info) []
    (repeat jam_command c) (repeat jam_output o) (repeat (0%N, TS_Set 10 (mkStopClass 0)) t) []
    0 [] false (repeat jam_request q) false [] false [] [] [jam_info] 1 0 false 0 false false.

(** The handler with [n] timeouts to send. *)
Definition jam_handler (now : option N) (n : nat) : @HandlerPhase (echo burst) :=
  @H_Timeouts (echo burst) now (mkDestructured (repeat echo_timeout n) [] [jam_request] jam_info []).

Lemma repeat_snoc {A} (x : A) n : repeat x n ++ [x] = repeat x (S n).
Proof. induction n as [|n IH]; [done|]. cbn. by rewrite IH. Qed.

Lemma places n : n < channel_capacity -> (n <? channel_capacity) = true.
Proof. apply Nat.ltb_lt. Qed.
#[local] Opaque channel_capacity.
#[local] Arguments Nat.ltb : simpl never.

Section steps.
  Implicit Types (q c o t : nat) (w : @WorkerPhase (echo burst)) (a : @AsyncPhase (echo burst)) (h : @HandlerPhase (echo burst)).

Lemma jam_select q c o w h : step (Do_Async 0) (jam (S q) c o 0 w A_Select h) = Some (jam q c o 0 w (A_Send jam_command) h).
Proof. reflexivity. Qed.

Lemma jam_push q c o t w h :
  c < channel_capacity -> w <> W_Ended ->
  step (Do_Async 0) (jam q c o t w (A_Send jam_command) h) = Some (jam q (S c) o t w A_Select h).
Proof.
  intros Hc Hw. cbn. rewrite repeat_length, (places c Hc). unfold jam. rewrite <-repeat_snoc. by destruct w.
Qed.

Lemma jam_take q c o t a h : step Do_Worker (jam q (S c) o t W_Recv a h) = Some (jam q c o t (W_Send jam_output) a h).
Proof. reflexivity. Qed.

Lemma jam_send q c o t a h :
  o < channel_capacity -> step Do_Worker (jam q c o t (W_Send jam_output) a h) = Some (jam q c (S o) t W_Recv a h).
Proof. intros Ho. cbn. rewrite repeat_length, (places o Ho). unfold jam. by rewrite <-repeat_snoc. Qed.

Lemma jam_begin q c o t w a : step Do_Handler (jam q c (S o) t w a H_Recv) = Some (jam q c o t w a (jam_handler None burst)).
Proof. reflexivity. Qed.

(** The same for channels that are not empty. *)
Lemma jam_first q c o t w a :
  0 < o -> step Do_Handler (jam q c o t w a H_Recv) = Some (jam q c (pred o) t w a (jam_handler None burst)).
Proof. destruct o as [|o]; [lia|]. intros _. apply jam_begin. Qed.
Lemma jam_next q c o t a h :
  0 < c -> step Do_Worker (jam q c o t W_Recv a h) = Some (jam q (pred c) o t (W_Send jam_output) a h).
Proof. destruct c as [|c]; [lia|]. intros _. apply jam_take. Qed.

Lemma jam_timeout q c o t w now n :
  t < channel_capacity -> default 0%N now = 0%N ->
  step Do_Handler (jam q c o t w (A_Send jam_command) (jam_handler now (S n)))
  = Some (jam q c o (S t) w (A_Send jam_command) (jam_handler (Some 0%N) n)).
Proof. intros Ht Hn. cbn. rewrite repeat_length, (places t Ht). unfold jam. rewrite <-repeat_snoc. cbn. by rewrite Hn. Qed.
End steps.

(** A step at the head of a run. *)
Lemma run_step `{AbcWrapper} a acts s s' : step a s = Some s' -> run (a :: acts) s = run acts s'.
Proof. intros Hs. cbn. by rewrite Hs. Qed.

(** Requests go through to the channel of outputs. *)
Lemma jam_fill_outputs n q o h acts :
  n + o <= channel_capacity ->
  run (concat (repeat [Do_Async 0; Do_Async 0; Do_Worker; Do_Worker] n) ++ acts) (jam (n + q) 0 o 0 W_Recv A_Select h)
  = run acts (jam q 0 (n + o) 0 W_Recv A_Select h).
Proof.
  revert o. induction n as [|n IH]; intros o Hn; [done|]. cbn [repeat concat app Nat.add].
  rewrite (run_step _ _ _ _ (jam_select _ _ _ _ _)), (run_step _ _ _ _ (jam_push (n + q) 0 o 0 W_Recv h ltac:(lia) ltac:(done))),
    (run_step _ _ _ _ (jam_take _ _ _ _ _ _)), (run_step _ _ _ _ (jam_send (n + q) 0 o 0 A_Select h ltac:(lia))).
  rewrite IH by lia. by replace (n + S o) with (S n + o) by lia.
Qed.

(** Requests fill the channel of commands, while the worker waits to send. *)
Lemma jam_fill_commands n q c o h acts :
  n + c <= channel_capacity ->
  run (concat (repeat [Do_Async 0; Do_Async 0] n) ++ acts) (jam (n + q) c o 0 (W_Send jam_output) A_Select h)
  = run acts (jam q (n + c) o 0 (W_Send jam_output) A_Select h).
Proof.
  revert c. induction n as [|n IH]; intros c Hn; [done|]. cbn [repeat concat app Nat.add].
  rewrite (run_step _ _ _ _ (jam_select _ _ _ _ _)),
    (run_step _ _ _ _ (jam_push (n + q) c o 0 (W_Send jam_output) h ltac:(lia) ltac:(done))).
  rewrite IH by lia. by replace (n + S c) with (S n + c) by lia.
Qed.

(** The handler fills the channel of timeouts. *)
Lemma jam_fill_timeouts n k q c o t w acts now :
  n + t <= channel_capacity -> default 0%N now = 0%N -> 0 < n ->
  run (repeat Do_Handler n ++ acts) (jam q c o t w (A_Send jam_command) (jam_handler now (n + k)))
  = run acts (jam q c o (n + t) w (A_Send jam_command) (jam_handler (Some 0%N) k)).
Proof.
  revert t now. induction n as [|n IH]; intros t now Hn Hnow H0; [lia|]. cbn [repeat app Nat.add].
  rewrite (run_step _ _ _ _ (jam_timeout q c o t w now (n + k) ltac:(lia) Hnow)).
  destruct n as [|n]; [done|]. rewrite IH; [|lia|done|lia]. by replace (S n + S t) with (S (S (n + t))) by lia.
Qed.

(** The run. *)
Definition jam_requests : nat := channel_capacity + (1 + (channel_capacity + 2)).
Definition jam_acts : list (@Action (echo burst)) :=
  [Do_Worker; Do_Worker; Do_Handler; Do_Handler; Do_Handler; Do_Handler]
  ++ repeat (@Env_Request (echo burst) jam_request) jam_requests
  ++ concat (repeat [Do_Async 0; Do_Async 0; Do_Worker; Do_Worker] channel_capacity)
  ++ [Do_Async 0; Do_Async 0; Do_Worker]
  ++ concat (repeat [Do_Async 0; Do_Async 0] channel_capacity)
  ++ [Do_Async 0]
  ++ [Do_Handler; Do_Worker; Do_Worker; Do_Async 0; Do_Async 0]
  ++ repeat Do_Handler channel_capacity.

(** Handling the empty first output, and taking in the requests. *)
Lemma jam_begin_run acts :
  run ([Do_Worker; Do_Worker; Do_Handler; Do_Handler; Do_Handler; Do_Handler] ++ acts) (echo_start burst)
  = run acts (jam 0 0 0 0 W_Recv A_Select H_Recv).
Proof. cbn [app]. do 6 (erewrite run_step by (cbn; rewrite ?(places 0 capacity_pos); reflexivity)). reflexivity. Qed.

Lemma jam_arrive n q acts :
  run (repeat (@Env_Request (echo burst) jam_request) n ++ acts) (jam q 0 0 0 W_Recv A_Select H_Recv)
  = run acts (jam (n + q) 0 0 0 W_Recv A_Select H_Recv).
Proof.
  revert q. induction n as [|n IH]; intros q; [done|]. cbn [repeat app].
  rewrite (run_step _ _ _ (jam (S q) 0 0 0 W_Recv A_Select H_Recv)).
  - rewrite IH. by replace (n + S q) with (S n + q) by lia.
  - cbn. unfold jam. by rewrite <-(repeat_snoc jam_request).
Qed.

(** The state in which the run ends. *)
Definition jammed : @System (echo burst) :=
  jam 0 channel_capacity channel_capacity channel_capacity (W_Send jam_output) (A_Send jam_command) (jam_handler (Some 0%N) 1).

Lemma jam_run : run jam_acts (echo_start burst) = Some jammed.
Proof.
  unfold jam_acts, jam_requests, jammed. rewrite jam_begin_run, jam_arrive, Nat.add_0_r, jam_fill_outputs by lia.
  rewrite Nat.add_0_r. cbn [app Nat.add]. pose proof capacity_pos as Hpos.
  rewrite (run_step _ _ _ _ (jam_select _ _ _ _ _)), (run_step _ _ _ _ (jam_push _ 0 _ 0 W_Recv _ Hpos ltac:(done))),
    (run_step _ _ _ _ (jam_take _ _ _ _ _ _)), jam_fill_commands by lia.
  rewrite Nat.add_0_r. cbn [app]. rewrite (run_step _ _ _ _ (jam_select 1 _ _ _ _)).
  assert (S (pred channel_capacity) = channel_capacity) as HS by lia.
  assert (pred channel_capacity < channel_capacity) as Hlt by lia.
  rewrite (run_step _ _ _ _ (jam_first _ _ _ _ _ _ Hpos)), (run_step _ _ _ _ (jam_send _ _ _ _ _ _ Hlt)), HS.
  rewrite (run_step _ _ _ _ (jam_next _ _ _ _ _ _ Hpos)).
  rewrite (run_step _ _ _ _ (jam_push _ _ _ 0 (W_Send jam_output) _ Hlt ltac:(done))), HS.
  rewrite (run_step _ _ _ _ (jam_select 0 _ _ _ _)).
  rewrite <-(app_nil_r (repeat Do_Handler channel_capacity)).
  pose proof (jam_fill_timeouts channel_capacity 1 0 channel_capacity channel_capacity 0 (W_Send jam_output) [] None
    ltac:(lia) eq_refl Hpos) as Hfill.
  rewrite (Nat.add_comm channel_capacity 1), Nat.add_0_r in Hfill. exact Hfill.
Qed.

Lemma no_recover_repeat (a : @Action (echo burst)) n : a <> Env_Recover -> no_recover (repeat a n).
Proof. intros Ha. induction n as [|n IH]; [by apply list.Forall_nil|]. by apply list.Forall_cons. Qed.
Lemma no_recover_loop (l : list (@Action (echo burst))) n : no_recover l -> no_recover (concat (repeat l n)).
Proof. intros Hl. induction n as [|n IH]; [by apply list.Forall_nil|]. by apply list.Forall_app. Qed.

(** Deadlock.  With one timeout more in an output the bound of [wr_rest] fails: after
    a run of [echo burst] no task can ever go on.  The worker waits for a place in
    the channel of outputs, the command side for one in the channel of commands, the
    handler for one in the channel of timeouts, which only the command side empties;
    the decisions made are never delivered. *)
Theorem wr_deadlock :
  no_recover jam_acts /\ run jam_acts (echo_start burst) = Some jammed
  /\ blocked jammed /\ alive (sy_worker jammed) /\ sy_delivered jammed = [] /\ undelivered jammed <> [].
Proof.
  split; [|split; [apply jam_run|]].
  - unfold jam_acts. unfold no_recover at 1. rewrite !list.Forall_app.
    split; [by apply no_recover_test|]. split; [by apply no_recover_repeat|].
    split; [by apply no_recover_loop, no_recover_test|]. split; [by apply no_recover_test|].
    split; [by apply no_recover_loop, no_recover_test|]. split; [by apply no_recover_test|].
    split; [by apply no_recover_test|by apply no_recover_repeat].
  - split; [|done]. assert ((channel_capacity <? channel_capacity) = false) as Hfull by (apply Nat.ltb_ge; lia).
    split_and!; [intros k|..]; cbn; by rewrite repeat_length, Hfull.
Qed.
