(* ===== verification/WrapNx.v ===== *)
(** * The runtime of NxBFT

    Models [src/atomic-broadcast/nxbft/abcperf-nxbft]: NxBFT as a protocol of the
    runtime of [Wrapper], with the backup of the enclave and the recovery from it.
    [fuel] bounds the nesting of reflection in the handlers, [entropy k] is the
    randomness of the enclave's [k]-th creation or initialisation; durations,
    seconds as [f64] in the code, are nanoseconds here. *)

From Stdlib Require Import ZArith Lia String.
From stdpp Require Import base list gmap sets numbers option pretty.
From S2P Require Import Prelude Ids Heaps Requests NxBase NxDag NxDagFacts NxDagGraph NxEnclave NxMessages NxReplica.
From S2P Require Import NxEnclaveFacts NxReplicaFacts NxInvariant NxLog Wrapper WrapperFacts.

Local Open Scope string_scope.

Section my_transaction.
  Context {Tx : Type}.

Record MyTransaction := mkMyTransaction { mt_client_id : N; mt_request_id : N; mt_transaction : Tx }.

(** [From<(ClientId, RequestId, Tx)>] and back. *)
Definition MyTransaction_from (r : N * N * Tx) : MyTransaction :=
  let '(client_id, request_id, transaction) := r in mkMyTransaction client_id request_id transaction.
Definition MyTransaction_into (t : MyTransaction) : N * N * Tx := (mt_client_id t, mt_request_id t, mt_transaction t).

#[export] Instance MyTransaction_transaction : Transaction MyTransaction :=
  {| client_id := mt_client_id; request_id := mt_request_id |}.

#[export] Instance MyTransaction_eq_dec `{EqDecision Tx} : EqDecision MyTransaction.
Proof. solve_decision. Defined.

#[export] Instance MyTransaction_hash `{Hashbar Tx} : Hashbar MyTransaction := fun t =>
  (to_le_bytes (mt_client_id t) ++ to_le_bytes (mt_request_id t) ++ hash_bytes (mt_transaction t))%list.
End my_transaction.
Arguments MyTransaction Tx : clear implicits.

Inductive NxbftTimeoutType := NT_Vertex.
#[export] Instance NxbftTimeoutType_eq_dec : EqDecision NxbftTimeoutType.
Proof. solve_decision. Defined.

(** ** [NxbftAtomicBroadcastInfoGen] *)

Record NxbftAtomicBroadcastInfoGen := mkInfoGen { ig_round : option N; ig_wave : option N; ig_ready : bool }.
#[export] Instance NxbftAtomicBroadcastInfoGen_eq_dec : EqDecision NxbftAtomicBroadcastInfoGen.
Proof. solve_decision. Defined.

(** [a.or(b)] *)
Definition option_or {A} (a b : option A) : option A := match a with Some _ => a | None => b end.

Definition Nxbft_generate_info (self : NxbftAtomicBroadcastInfoGen) (prev : option NxbftAtomicBroadcastInfoGen)
    : option AtomicBroadcastInfo * NxbftAtomicBroadcastInfoGen :=
  let info self := {|
    ai_ready := ig_ready self;
    ai_state := "round " +:+ pretty (default 1%N (ig_round self)) +:+ ", wave " +:+ pretty (default 1%N (ig_wave self));
    ai_leader := None;
  |} in
  match prev with
  | Some prev =>
      let self := mkInfoGen (option_or (ig_round self) (ig_round prev)) (option_or (ig_wave self) (ig_wave prev)) (ig_ready self) in
      if bool_decide (ig_round prev = ig_round self /\ ig_wave prev = ig_wave self /\ ig_ready prev = ig_ready self)
      then (None, self) else (Some (info self), self)
  | None => (Some (info self), self)
  end.

Section adapter.
  Context {P : Profile} {B Tx Enc : Type}.
  Context `{BitSet B} `{Digests} `{Enclave B Enc} `{Hashbar Tx}.
  Context `{EqDecision B, EqDecision Tx}.
  Context (clock : nat -> N) (fuel : nat) (entropy : nat -> Entropy Enc).
  Local Abbreviation Replica := (NxBft B (MyTransaction Tx) Enc).
  Local Abbreviation Out := (Output B (MyTransaction Tx) Enc).
  Local Abbreviation Msg := (PeerMessage B (MyTransaction Tx) Enc).

(** ** [NxbftOutputWrapper] *)

Record NxbftOutputWrapper := mkNxbftOutput {
  no_broadcasts : list Msg;
  no_unicasts : list (N * Msg);
  no_delivery : list (MyTransaction Tx);
  no_backup_enclave : bool;
  no_decision_times : list N;
  no_empty : bool;
  no_ready : bool;
  no_round : option N;
  no_wave : option N;
  no_vertex_timeout : VertexTimeout;
}.

(** The loop over the state messages: readiness, the last round and the last wave. *)
Definition note_state_message (i : NxbftAtomicBroadcastInfoGen) (m : StateMessage B Enc)
    : Outcome NxbftAtomicBroadcastInfoGen :=
  match m with
  | SM_Consensus (Decided waves _ _) =>
      wave ← unwrap (last waves); Val (mkInfoGen (ig_round i) (Some wave) (ig_ready i))
  | SM_Consensus (RoundTransition new_round) => Val (mkInfoGen (Some new_round) (ig_wave i) (ig_ready i))
  | SM_Ready => Val (mkInfoGen (ig_round i) (ig_wave i) true)
  | _ => Val i
  end.

Definition NxbftOutputWrapper_new (o : Out) : Outcome NxbftOutputWrapper :=
  i ← for_each (out_state_messages o) (mkInfoGen None None false) note_state_message;
  Val {|
    no_broadcasts := out_broadcasts o; no_unicasts := out_unicasts o; no_delivery := out_delivery o;
    no_backup_enclave := out_backup_enclave o; no_decision_times := out_decision_times o;
    no_empty := Output_is_empty o; no_ready := ig_ready i; no_round := ig_round i; no_wave := ig_wave i;
    no_vertex_timeout := out_vertex_timeout o;
  |}.

Definition Nxbft_destructure (o : NxbftOutputWrapper) (ready : bool)
    : Destructured NxbftTimeoutType Msg Tx NxbftAtomicBroadcastInfoGen := {|
  ds_timeouts := match no_vertex_timeout o with
                 | VT_Set duration => [(NT_Vertex, TC_Set duration (mkStopClass 0))]
                 | VT_Cancel => [(NT_Vertex, TC_RemoveAll)]
                 | VT_None => []
                 end;
  ds_messages := (((fun m => (MD_Broadcast, m)) <$> no_broadcasts o)
                  ++ ((fun '(d, m) => (MD_Unicast d, m)) <$> no_unicasts o))%list;
  ds_decisions := MyTransaction_into <$> no_delivery o;
  ds_info := mkInfoGen (no_round o) (no_wave o) ready;
  ds_decision_times := no_decision_times o;
|}.

(** ** [NxbftABCWrapper] *)

Record NxbftABCWrapper := mkNxbft { nw_nxbft : Replica; nw_entropy_used : nat }.
#[export] Instance NxbftABCWrapper_eta : Eta NxbftABCWrapper := fun w => mkNxbft (nw_nxbft w) (nw_entropy_used w).

Record ConfigurationExtension := mkExtension {
  ex_vertex_timeout : N;
  ex_min_vertex_size : N;
  ex_max_vertex_size : option N;
}.

Definition NxbftABCWrapper_new (t0 : nat) (replica_id n : N) (e : ConfigurationExtension) : Outcome NxbftABCWrapper :=
  nxbft ← NxBft_new clock (entropy 0) t0 replica_id n (ex_vertex_timeout e) (ex_min_vertex_size e)
            (default u64_max (ex_max_vertex_size e));
  Val (mkNxbft nxbft 1).

(** A handler of the replica, and its output wrapped. *)
Definition Nxbft_call (m : St Replica Out) : St NxbftABCWrapper NxbftOutputWrapper :=
  o ← zoom nw_nxbft (fun w s => w.[nw_nxbft := s]) m;
  lift (NxbftOutputWrapper_new o).

Definition Nxbft_init : St NxbftABCWrapper NxbftOutputWrapper :=
  k ← self nw_entropy_used;
  nw_entropy_used <~ S k ;;
  Nxbft_call (init_handshake clock fuel (entropy k)).

Definition Nxbft_handle_timeout (typ : NxbftTimeoutType) : St NxbftABCWrapper NxbftOutputWrapper :=
  match typ with NT_Vertex => Nxbft_call (process_vertex_timeout clock fuel) end.

Definition Nxbft_backup : St NxbftABCWrapper (Backup B (MyTransaction Tx) Enc) :=
  r ← zoom nw_nxbft (fun w s => w.[nw_nxbft := s]) backup_enclave;
  lift (match r with Ok b => Val b | Err _ => Panic end).

Definition Nxbft_restore (backup : Backup B (MyTransaction Tx) Enc) : St NxbftABCWrapper (option NxbftOutputWrapper) :=
  k ← self nw_entropy_used;
  t0 ← self (fun w => nx_ticks (nw_nxbft w));
  r ← lift (init_recovery clock fuel (entropy k) t0 backup);
  r ← lift (match r with Ok so => Val so | Err _ => Panic end);
  nw_entropy_used <~ S k ;;
  nw_nxbft <~ r.1 ;;
  o ← lift (NxbftOutputWrapper_new r.2);
  mret (Some o).

Definition NxbftWrapper : AbcWrapper := {|
  Abc := NxbftABCWrapper;
  AbcTimeout := NxbftTimeoutType;
  AbcMessage := Msg;
  AbcRequest := Tx;
  AbcOutput := NxbftOutputWrapper;
  AbcBackup := Backup B (MyTransaction Tx) Enc;
  AbcInfo := NxbftAtomicBroadcastInfoGen;
  abc_init := Nxbft_init;
  abc_handle_timeout := Nxbft_handle_timeout;
  abc_handle_peer_message := fun _ _ msg => Nxbft_call (process_peer_message clock fuel msg);
  abc_handle_client_request := fun req => Nxbft_call (receive_client_request clock fuel (MyTransaction_from req));
  abc_backup := Nxbft_backup;
  abc_restore := Nxbft_restore;
  out_is_empty := no_empty;
  out_sets_ready := no_ready;
  out_do_backup := no_backup_enclave;
  out_destructure := Nxbft_destructure;
  generate_info := Nxbft_generate_info;
|}.

(** ** Laws *)

Definition wrapped (o : NxbftOutputWrapper) : Prop := exists out, NxbftOutputWrapper_new out = Val o.

Lemma Nxbft_call_inv (m : St Replica Out) w o w' :
  Nxbft_call m w = Val (o, w') ->
  exists out s', m (nw_nxbft w) = Val (out, s') /\ NxbftOutputWrapper_new out = Val o /\ w' = w.[nw_nxbft := s'].
Proof.
  unfold Nxbft_call, mbind, St_bind, zoom, lift. intros Hc.
  destruct (m (nw_nxbft w)) as [[out s']| |] eqn:Hm; try done. cbn in Hc.
  destruct (NxbftOutputWrapper_new out) as [o'| |] eqn:Ho; try done. injection Hc as <- <-. by exists out, s'.
Qed.

Lemma Nxbft_init_inv w o w' :
  Nxbft_init w = Val (o, w') ->
  exists out s', init_handshake clock fuel (entropy (nw_entropy_used w)) (nw_nxbft w) = Val (out, s')
    /\ NxbftOutputWrapper_new out = Val o /\ nw_nxbft w' = s'.
Proof.
  unfold Nxbft_init. intros (k & w1 & Hk & Hc)%st_bind_inv. injection Hk as <- <-.
  apply st_bind_inv in Hc as ([] & w2 & Hm & Hc). injection Hm as <-.
  apply Nxbft_call_inv in Hc as (out & s' & Hh & Ho & ->). by exists out, s'.
Qed.

Lemma Nxbft_backup_inv w b w' :
  Nxbft_backup w = Val (b, w') -> backup_enclave (nw_nxbft w) = Val (Ok b, nw_nxbft w').
Proof.
  unfold Nxbft_backup. intros (r & w1 & Hz & Hc)%st_bind_inv. unfold lift in Hc.
  destruct r as [b1|]; try done. injection Hc as <- <-. unfold zoom in Hz.
  by apply outcome_bind_inv in Hz as ([r' s'] & Hb & [= -> <-]).
Qed.

Lemma Nxbft_restore_ok b w o w' : Nxbft_restore b w = Val (Some o, w') -> wrapped o.
Proof.
  unfold Nxbft_restore. intros (k & w1 & _ & Hc)%st_bind_inv. apply st_bind_inv in Hc as (t0 & w2 & _ & Hc).
  apply st_bind_inv in Hc as (r & w3 & _ & Hc). apply st_bind_inv in Hc as (r' & w4 & _ & Hc).
  apply st_bind_inv in Hc as ([] & w5 & _ & Hc). apply st_bind_inv in Hc as ([] & w6 & _ & Hc).
  apply st_bind_inv in Hc as (o' & w7 & Ho & Hc). unfold lift in Ho.
  apply outcome_bind_inv in Ho as (o1 & Ho & [= -> ->]). injection Hc as -> _. by exists r'.2.
Qed.

Definition NxbftWrapperLaws : @AbcWrapperLaws NxbftWrapper.
Proof.
  apply (@Build_AbcWrapperLaws NxbftWrapper wrapped).
  - intros s o s' (out & s1 & _ & Ho & _)%Nxbft_init_inv. by exists out.
  - intros c s b o s' b' Hc. destruct c as [[]|typ from m|req| |]; cbn in Hc.
    1-3: apply outcome_bind_inv in Hc as ([o1 s1] & Hc & [= -> _ _]);
      apply Nxbft_call_inv in Hc as (out & s2 & _ & Ho & _); by exists out.
    + by apply outcome_bind_inv in Hc as ([b1 s1] & _ & ?).
    + destruct b as [b|]; [|done]. apply outcome_bind_inv in Hc as ([o1 s1] & Hc & [= -> _ _]).
      by eapply Nxbft_restore_ok.
  - done.
  - intros o [out Ho] He. unfold NxbftOutputWrapper_new in Ho.
    apply outcome_bind_inv in Ho as (i & Hi & [= <-]). cbn in He |- *. unfold Output_is_empty in He.
    rewrite !andb_true_iff in He. destruct He as [[[[[Hb Hu] Hm] Hv] Hd] Hbk].
    destruct (out_broadcasts out), (out_unicasts out), (out_state_messages out), (out_delivery out),
      (out_vertex_timeout out), (out_backup_enclave out); try done. injection Hi as <-. done.
Defined.
End adapter.

(** ** Runs *)

Local Open Scope list_scope.

Section run.
  Context {P : Profile} {B Tx Enc : Type}.
  Context `{BitSetLaws B} `{Digests} `{CommonCoinLaws B Enc} `{Hashbar Tx}.
  Context `{EqDecision B, EqDecision Tx}.
  Context (clock : nat -> N) (fuel : nat) (entropy : nat -> Entropy Enc).

#[local] Instance nx_runtime : AbcWrapper := NxbftWrapper (B := B) (Tx := Tx) clock fuel entropy.
#[local] Instance nx_runtime_laws : AbcWrapperLaws := NxbftWrapperLaws clock fuel entropy.

(** The recovery commits among the messages of the peers carry valid vertices. *)
Definition trusted_peers (quorum : N) (ms : list (MessageType * N * PeerMessage B (MyTransaction Tx) Enc)) : Prop :=
  Forall (fun m => trusted quorum m.2) ms.

Lemma run_delivery_snoc (outs : list (Output B (MyTransaction Tx) Enc)) out :
  run_delivery (outs ++ [out]) = run_delivery outs ++ out_delivery out.
Proof. unfold run_delivery. rewrite fmap_app, concat_app. cbn. by rewrite app_nil_r. Qed.

Lemma wrapped_delivery (out : Output B (MyTransaction Tx) Enc) o :
  NxbftOutputWrapper_new out = Val o -> no_delivery o = out_delivery out.
Proof. unfold NxbftOutputWrapper_new. by intros (i & _ & [= <-])%outcome_bind_inv. Qed.

(** Without recovery, the protocol in the runtime is a run of a replica. *)
Lemma nxbft_protocol_run (w0 : Abc) (cs : list AbcCommand) (os : list AbcOutput) (w : Abc) (b : option AbcBackup) :
  nx_output (nw_nxbft w0) = UnreflectedOutput_new (nx_me (nw_nxbft w0)) ->
  trusted_peers (nx_quorum (nw_nxbft w0)) (peers cs) -> Cmd_Recover ∉ cs -> protocol_run w0 cs os w b ->
  exists outs, nx_trusted_run clock (nw_nxbft w0) outs (nw_nxbft w)
    /\ run_delivery outs = concat (no_delivery <$> os).
Proof.
  intros Hout Ht Hnr Hr. induction Hr as [o' w' Hi|cs os w b c o' w' b' Hr IH Hc].
  - apply Nxbft_init_inv in Hi as (out & s' & Hh & Ho & <-). exists [out]. split.
    + apply (trusted_handshake clock _ [] (nw_nxbft w0) fuel (entropy (nw_entropy_used w0)) out); [constructor|done].
    + apply wrapped_delivery in Ho. unfold run_delivery. cbn. by rewrite Ho.
  - unfold trusted_peers in Ht. rewrite peers_app, list.Forall_app in Ht. destruct Ht as [Ht Hm].
    rewrite not_elem_of_app, list_elem_of_singleton in Hnr. destruct Hnr as [Hnr Hnc].
    destruct (IH Ht Hnr) as (outs & Hrun & Hdel).
    assert (nx_quorum (nw_nxbft w) = nx_quorum (nw_nxbft w0)) as Hq.
    { apply nx_trusted_run_run, nx_run_dedup in Hrun as (_ & _ & ? & _); done. }
    assert (forall out o1, NxbftOutputWrapper_new out = Val o1 ->
      run_delivery (outs ++ [out]) = concat (no_delivery <$> os ++ [o1])) as Hsnoc.
    { intros out o1 Ho%wrapped_delivery. rewrite run_delivery_snoc, Hdel, fmap_app, concat_app. cbn. by rewrite app_nil_r, Ho. }
    destruct c as [[]|typ from m|req| |]; cbn in Hc; [..|done].
    1-3: apply outcome_bind_inv in Hc as ([o1 w1] & Hc & [= <- <- <-]);
      apply Nxbft_call_inv in Hc as (out & s1 & Hh & Ho & ->); exists (outs ++ [out]); cbn; (split; [|by apply Hsnoc]).
    + by eapply trusted_timeout.
    + eapply trusted_message; [done| |done]. unfold peers in Hm. cbn in Hm. rewrite list.Forall_singleton in Hm. by rewrite Hq.
    + by eapply trusted_request.
    + apply outcome_bind_inv in Hc as ([b1 w1] & Hb & [= <- <- <-]). apply Nxbft_backup_inv in Hb.
      exists outs. split; [by eapply trusted_backup|]. by rewrite app_nil_r.
Qed.

Lemma nx_decisions (os : list AbcOutput) : decisions os = MyTransaction_into <$> concat (no_delivery <$> os).
Proof. unfold decisions. induction os as [|o os IH]; [done|]. cbn. rewrite fmap_app. by f_equal. Qed.
End run.
