(* ===== verification/WrapDam.v ===== *)
(** * The runtime of Damysus

    Models [src/atomic-broadcast/damysus/abcperf-damysus]: Damysus as a protocol
    of the runtime of [Wrapper].  [fuel] bounds the nesting of reflection in the
    handlers; durations, seconds as [f64] in the code, are nanoseconds here. *)

From Stdlib Require Import ZArith Lia String.
From stdpp Require Import base list gmap sets numbers option pretty.
From S2P Require Import Prelude Triple Ids Heaps Requests DamBase DamEnclave DamEnclaveFacts DamBlockstore DamReplica.
From S2P Require Import DamInvariant DamRun Wrapper WrapperFacts.

Local Open Scope string_scope.

Section my_transaction.
  Context {Tx : Type}.

Record MyTransaction := mkMyTransaction { mt_client_id : N; mt_request_id : N; mt_transaction : Tx }.

(** [From<(ClientId, RequestId, Tx)>] and back. *)
Definition MyTransaction_from (r : N * N * Tx) : MyTransaction :=
  let '(client_id, request_id, transaction) := r in mkMyTransaction client_id request_id transaction.
Definition MyTransaction_into (t : MyTransaction) : N * N * Tx := (mt_client_id t, mt_request_id t, mt_transaction t).

#[export] Instance MyTransaction_transaction : Transaction MyTransaction :=
  {| client_id := mt_client_id; request_id := mt_request_id |}.
End my_transaction.
Arguments MyTransaction Tx : clear implicits.

Inductive DamysusTimeoutType := DT_Block | DT_View.
#[export] Instance DamysusTimeoutType_eq_dec : EqDecision DamysusTimeoutType.
Proof. solve_decision. Defined.

Section adapter.
  Context {P : Profile} {B Tx Enc : Type}.
  Context `{BitSet B} `{Digests} `{DamEnclave Enc} `{UnstableSort}.
  Context (clock : nat -> N) (fuel : nat).
  Local Abbreviation Replica := (Damysus B (MyTransaction Tx) Enc).
  Local Abbreviation Out := (DamOutput (MyTransaction Tx) Enc).
  Local Abbreviation Msg := (DamPeerMessage (MyTransaction Tx) Enc).

(** ** [DamysusOutputWrapper] *)

(** The timeouts of one kind in an output. *)
Definition timeout_chanages (typ : DamysusTimeoutType) (t : Timeout) : list (DamysusTimeoutType * TimeoutChanage) :=
  match t with
  | Timeout_Set duration => [(typ, TC_Set duration (mkStopClass 0))]
  | Timeout_Cancel => [(typ, TC_RemoveAll)]
  | Timeout_None => []
  end.

Definition Damysus_destructure (o : Out) (ready : bool)
    : Destructured DamysusTimeoutType Msg Tx AtomicBroadcastInfo := {|
  ds_timeouts := timeout_chanages DT_View (dout_view_timeout o) ++ timeout_chanages DT_Block (dout_block_timeout o);
  ds_messages := ((fun m => (MD_Broadcast, m)) <$> dout_broadcasts o)
                 ++ ((fun '(d, m) => (MD_Unicast d, m)) <$> dout_unicasts o);
  ds_decisions := MyTransaction_into <$> dout_delivery o;
  ds_info := {| ai_ready := ready; ai_state := "View " +:+ pretty (dout_view o); ai_leader := None |};
  ds_decision_times := dout_decision_times o;
|}.

(** ** [DamysusABCWrapper] *)

Record ConfigurationExtension := mkExtension {
  ex_initial_view_timeout : N;
  ex_block_timeout : N;
  ex_minimum_block_size : N;
  ex_maximum_block_size : option N;
  ex_ignore_timeouts_for : option N;
}.

(** The field of [DamysusABCWrapper] is the replica. *)
Definition DamysusABCWrapper_new (t0 : nat) (replica_id n : N) (e : ConfigurationExtension) : Outcome Replica :=
  Damysus_new clock t0 replica_id n (ex_minimum_block_size e) (default u64_max (ex_maximum_block_size e))
    (ex_block_timeout e) (ex_initial_view_timeout e).

Definition Damysus_handle_timeout (typ : DamysusTimeoutType) : St Replica Out :=
  match typ with
  | DT_Block => handle_block_timeout clock fuel
  | DT_View => handle_view_timeout clock fuel
  end.

Definition DamysusWrapper : AbcWrapper := {|
  Abc := Replica;
  AbcTimeout := DamysusTimeoutType;
  AbcMessage := Msg;
  AbcRequest := Tx;
  AbcOutput := Out;
  AbcBackup := ();
  AbcInfo := AtomicBroadcastInfo;
  abc_init := dam_init_handshake clock fuel;
  abc_handle_timeout := Damysus_handle_timeout;
  abc_handle_peer_message := fun _ _ msg => dam_process_peer_message clock fuel msg;
  abc_handle_client_request := fun req => dam_receive_client_request clock fuel (MyTransaction_from req);
  abc_backup := mret ();
  abc_restore := fun _ => mret None;
  out_is_empty := DamOutput_is_empty;
  out_sets_ready := dout_ready;
  out_do_backup := fun _ => false;
  out_destructure := Damysus_destructure;
  generate_info := AtomicBroadcastInfo_generate_info;
|}.

Definition DamysusWrapperLaws : @AbcWrapperLaws DamysusWrapper.
Proof.
  apply (@Build_AbcWrapperLaws DamysusWrapper (fun _ => True)); [done..|]. intros o _ He. cbn in He |- *. unfold DamOutput_is_empty in He.
  rewrite !andb_true_iff, !bool_decide_eq_true in He. destruct He as [[[[[Hb Hu] Hv] Hbl] Hd] Hr].
  destruct (dout_broadcasts o), (dout_unicasts o), (dout_delivery o); try done. rewrite Hv, Hbl.
  by destruct (dout_ready o).
Defined.

(** An output has at most two changes of timeouts and asks for no backup. *)
Lemma damysus_modest (s : @Abc DamysusWrapper) : @modest DamysusWrapper s 2.
Proof.
  intros cs os abc b o _ _. split; [|done]. unfold timeouts_of. cbn. rewrite length_app.
  by destruct (dout_view_timeout o), (dout_block_timeout o); cbn; lia.
Qed.
End adapter.

(** ** Runs *)

Section run.
  Context {P : Profile} {B Tx Enc : Type}.
  Context `{BitSetLaws B} `{Digests} `{DamEnclaveLaws Enc} `{UnstableSortLaws}.
  Context (clock : nat -> N) (fuel : nat).

#[local] Instance dam_runtime : AbcWrapper := DamysusWrapper (B := B) (Tx := Tx) (Enc := Enc) clock fuel.
#[local] Instance dam_runtime_laws : AbcWrapperLaws := DamysusWrapperLaws clock fuel.

(** The messages in the channel of the peers are trusted. *)
Definition trusted_peers (ms : list (MessageType * N * DamPeerMessage (MyTransaction Tx) Enc)) : Prop :=
  Forall (fun m => dam_trusted m.2) ms.

Lemma handler_inv {A S} (m : St S A) (s s' : S) (b b' : option ()) (o : option A) :
  ('(o, s) ← m s; Val (Some o, s, b)) = Val (o, s', b') ->
  exists o1, m s = Val (o1, s') /\ o = Some o1 /\ b' = b.
Proof.
  unfold mbind, Outcome_bind. intros Hc. destruct (m s) as [[o1 s1]| |]; try done. injection Hc as <- <- <-. eauto.
Qed.

(** The protocol in the runtime is a run of a replica. *)
Lemma damysus_protocol_run (s0 : Abc) (cs : list AbcCommand) (os : list AbcOutput) (s : Abc) (b : option AbcBackup) :
  trusted_peers (peers cs) -> protocol_run s0 cs os s b -> dam_run clock s0 os s.
Proof.
  intros Ht Hr. induction Hr as [o' s' Hi|cs os s b c o' s' b' Hr IH Hc].
  - apply (drun_snoc clock s0 [] s0); [constructor|]. exact (dstep_handshake clock s0 o' s' fuel Hi).
  - unfold trusted_peers in Ht. rewrite peers_app, list.Forall_app in Ht. destruct Ht as [Ht Hm].
    specialize (IH Ht). destruct c as [typ|typ from m|req| |]; cbn in Hc.
    + apply handler_inv in Hc as (o1 & Hh & -> & _). eapply drun_snoc; [done|].
      destruct typ; [by eapply dstep_block_timeout|by eapply dstep_view_timeout].
    + apply handler_inv in Hc as (o1 & Hh & -> & _). eapply drun_snoc; [done|].
      unfold peers in Hm. cbn in Hm. rewrite list.Forall_singleton in Hm. by eapply dstep_message.
    + apply handler_inv in Hc as (o1 & Hh & -> & _). eapply drun_snoc; [done|]. by eapply dstep_request.
    + injection Hc as <- <- <-. by rewrite app_nil_r.
    + destruct b; injection Hc as <- <- <-; by rewrite app_nil_r.
Qed.

Lemma dam_decisions (os : list AbcOutput) : decisions os = MyTransaction_into <$> dam_delivery os.
Proof.
  unfold decisions, dam_delivery. induction os as [|o os IH]; [done|]. cbn. rewrite fmap_app. by f_equal.
Qed.
End run.
