(* ===== verification/WrapMb.v ===== *)
(** * The runtime of MinBFT

    Models [src/atomic-broadcast/minbft/abcperf-minbft]: MinBFT as a protocol of
    the runtime of [Wrapper].  [MinbftABCWrapper] is the adapter's state; its
    methods make an [AbcWrapper].

    [fuel] bounds the nesting of reflection in the handlers.  [usig_new k] is
    [U::new()] and [nonce k] the random number drawn when the replica is created
    again for the [k]-th time.  The durations of the configuration, seconds as [f64] in the
    code, are nanoseconds here. *)

From Stdlib Require Import ZArith Lia String.
From stdpp Require Import base list gmap sets numbers option pretty.
From S2P Require Import Prelude Triple Ids Heaps Requests MbUsig MbBase MbMessages MbOrder MbCollectors MbBatcher.
From S2P Require Import MbRequests MbReplica MbCertFacts MbCollectFacts MbRequestFacts MbInvariant MbRun.
From S2P Require Import Wrapper WrapperFacts.

Local Open Scope string_scope.

#[export] Instance TimeoutType_eq_dec : EqDecision TimeoutType.
Proof. solve_decision. Defined.

Section adapter.
  Context {Pr : Profile} {P U Sig Att Bt : Type}.
  Context `{Hashbar P, Hashbar Sig, Hashbar Att} `{Digests} `{Usig U Sig Att} `{EqDecision Att} `{HashOrder}.
  Context `{RequestBatcher Bt P Att}.
  Context (clock : nat -> N) (fuel : nat) (usig_new : nat -> U) (nonce : nat -> N).
  Local Abbreviation Replica := (MinBft P U Sig Att Bt).
  Local Abbreviation Out := (Output P Sig Att).

(** ** [MinbftOutputWrapper] *)

Definition timeout_chanage (r : TimeoutRequest) : TimeoutType * TimeoutChanage :=
  match r with
  | TR_Start t => (to_type t, TC_Set (to_duration t) (mkStopClass (stop_class_as_u64 t)))
  | TR_Stop t => (to_type t, TC_Remove (mkStopClass (stop_class_as_u64 t)))
  | TR_StopAny t => (ta_type t, TC_RemoveAll)
  end.

Definition new_info (o : Out) : AtomicBroadcastInfo := {|
  ai_ready := match ou_view_info o with VI_InView _ => true | VI_ViewChange _ _ => false end;
  ai_state := match ou_view_info o with
              | VI_InView view => "round: " +:+ pretty (ou_round o) +:+ ", in view " +:+ pretty view
              | VI_ViewChange from to =>
                  "round: " +:+ pretty (ou_round o) +:+ ", view change from " +:+ pretty from +:+ " to " +:+ pretty to
              end;
  ai_leader := ou_primary o;
|}.

(** The requests of clients among the responses, without those of recovery. *)
Definition delivery (rs : list (N * WrappedRequestPayload P Att)) : list (N * N * P) :=
  omap (fun r => match r with
                 | (client_id, WP_Client request_id payload) => Some (client_id, request_id, payload)
                 | _ => None
                 end) rs.

Definition Minbft_destructure (o : Out) (_ : bool)
    : Destructured TimeoutType (PeerMessage P Sig Att) P AtomicBroadcastInfo := {|
  ds_timeouts := timeout_chanage <$> ou_timeout_requests o;
  ds_messages := ((fun m => (MD_Broadcast, m)) <$> ou_broadcasts o)
                 ++ ((fun '(d, m) => (MD_Unicast d, m)) <$> ou_direct_messages o);
  ds_decisions := delivery (ou_responses o);
  ds_info := new_info o;
  ds_decision_times := ou_round_times o;
|}.

(** ** [MinbftABCWrapper] *)

Record MinbftABCWrapper := mkMinbft {
  mw_minbft : Replica;
  mw_initial_output : option Out;
  mw_config : Config;
  mw_created : nat; (* how often the replica was created, the source of nonces *)
}.
#[export] Instance MinbftABCWrapper_eta : Eta MinbftABCWrapper := fun w =>
  mkMinbft (mw_minbft w) (mw_initial_output w) (mw_config w) (mw_created w).

(** [ConfigurationExtension] and [BatchConfigurationExt] *)
Record ConfigurationExtension := mkExtension {
  ex_backoff_multiplier : N;
  ex_initial_timeout_duration : N;
  ex_checkpoint_period : N;
  ex_ignore_timeouts_for : option N;
  ex_batching : BatchConfiguration;
}.

Definition extension_config (replica_id n t : N) (e : ConfigurationExtension) : Config :=
  mkConfig n t replica_id (ex_batching e) (ex_initial_timeout_duration e) (ex_checkpoint_period e)
    (ex_backoff_multiplier e).

(** [Result::unwrap] *)
Definition unwrap_result {A E} (r : Result A E) : Outcome A := match r with Ok a => Val a | Err _ => Panic end.

(** [usig] is the first [U::new()]. *)
Definition MinbftABCWrapper_new (usig : U) (replica_id n t : N) (e : ConfigurationExtension) : Outcome MinbftABCWrapper :=
  let config := extension_config replica_id n t e in
  r ← MinBft_new clock fuel usig config false (nonce 0);
  r ← unwrap_result r;
  Val (mkMinbft r.1 (Some r.2) config 1).

Definition Minbft_init : St MinbftABCWrapper Out :=
  initial_output ← self mw_initial_output;
  mw_initial_output <~ None ;;
  lift (unwrap initial_output).

Definition Minbft_call (m : St Replica Out) : St MinbftABCWrapper Out :=
  zoom mw_minbft (fun w s => w.[mw_minbft := s]) m.

Definition Minbft_handle_client_request (r : N * N * P) : St MinbftABCWrapper Out :=
  let '(client_id, request_id, request) := r in Minbft_call (handle_client_message clock fuel client_id request_id request).

Definition Minbft_restore (_ : ()) : St MinbftABCWrapper (option Out) :=
  config ← self mw_config;
  k ← self mw_created;
  r ← lift (MinBft_new clock fuel (usig_new k) config true (nonce k));
  r ← lift (unwrap_result r);
  mw_created <~ S k ;;
  mw_minbft <~ r.1 ;;
  mret (Some r.2).

Definition MinbftWrapper : AbcWrapper := {|
  Abc := MinbftABCWrapper;
  AbcTimeout := TimeoutType;
  AbcMessage := PeerMessage P Sig Att;
  AbcRequest := P;
  AbcOutput := Out;
  AbcBackup := ();
  AbcInfo := AtomicBroadcastInfo;
  abc_init := Minbft_init;
  abc_handle_timeout := fun typ => Minbft_call (handle_timeout clock fuel typ);
  abc_handle_peer_message := fun _ from msg => Minbft_call (handle_peer_message clock fuel from msg);
  abc_handle_client_request := Minbft_handle_client_request;
  abc_backup := mret ();
  abc_restore := Minbft_restore;
  out_is_empty := fun _ => false;
  out_sets_ready := ou_ready_for_client_requests;
  out_do_backup := fun _ => false;
  out_destructure := Minbft_destructure;
  generate_info := AtomicBroadcastInfo_generate_info;
|}.

Definition MinbftWrapperLaws : @AbcWrapperLaws MinbftWrapper.
Proof. by apply (@Build_AbcWrapperLaws MinbftWrapper (fun _ => True)). Defined.

End adapter.
Arguments MinbftABCWrapper P U Sig Att Bt : clear implicits.

(** ** Runs *)

(** Elements of a filtered list, in their order in the list. *)
Lemma omap_lookup_lt {A B} (f : A -> option B) (l : list A) i j x y :
  omap f l !! i = Some x -> omap f l !! j = Some y -> i < j ->
  exists i' j' a b, i' < j' /\ l !! i' = Some a /\ l !! j' = Some b /\ f a = Some x /\ f b = Some y.
Proof.
  revert i j. induction l as [|a l IH]; intros i j Hi Hj Hij; csimpl in *; [done|].
  destruct (f a) as [c|] eqn:Ha; cycle 1.
  { destruct (IH i j Hi Hj Hij) as (i' & j' & a' & b' & ? & ? & ? & ? & ?). exists (S i'), (S j'), a', b'.
    split; [lia|done]. }
  destruct j as [|j]; [lia|]. cbn in Hj. destruct i as [|i]; cbn in Hi.
  - simplify_eq. apply list_elem_of_lookup_2, list_elem_of_omap in Hj as (b & Hb & Hy).
    apply list_elem_of_lookup in Hb as [j' Hj']. exists 0, (S j'), a, b. split; [lia|done].
  - destruct (IH i j Hi Hj ltac:(lia)) as (i' & j' & a' & b' & ? & ? & ? & ? & ?). exists (S i'), (S j'), a', b'.
    split; [lia|done].
Qed.

Section run.
  Context {Pr : Profile} {P U Sig Att Bt : Type}.
  Context `{Hashbar P, Hashbar Sig, Hashbar Att} `{Digests} `{UsigLaws U Sig Att} `{EqDecision Att} `{HashOrderLaws}.
  Context `{BatcherLaws Bt P Att}.
  Context (clock : nat -> N) (fuel : nat) (usig_new : nat -> U) (nonce : nat -> N).

#[local] Instance mb_runtime : AbcWrapper := MinbftWrapper (Bt := Bt) (P := P) clock fuel usig_new nonce.
#[local] Instance mb_runtime_laws : AbcWrapperLaws := MinbftWrapperLaws clock fuel usig_new nonce.

(** The USIG messages among the messages of peers. *)
Definition usig_received (ms : list (MessageType * N * PeerMessage P Sig Att)) : list (UsigMessage P Sig Att) :=
  concat ((fun m => usig_of m.2) <$> ms).

Lemma call_inv (m : St (MinBft P U Sig Att Bt) (Output P Sig Att)) (w w' : MinbftABCWrapper P U Sig Att Bt) (b b' : option ())
    (o : option (Output P Sig Att)) :
  ('(o, w) ← Minbft_call m w; Val (Some o, w, b)) = Val (o, w', b') ->
  exists o1 s1, m (mw_minbft w) = Val (o1, s1) /\ o = Some o1 /\ w' = w.[mw_minbft := s1] /\ b' = b.
Proof.
  unfold Minbft_call, zoom, mbind, Outcome_bind. intros Hc. destruct (m (mw_minbft w)) as [[o1 s1]| |]; try done.
  injection Hc as <- <- <-. eauto 10.
Qed.

(** Without backups, which the adapter never asks for, the protocol in the runtime is
    a run of a replica. *)
Lemma minbft_protocol_run usig id n t e (w0 : Abc) (cs : list AbcCommand) (os : list AbcOutput) (w : Abc) (b : option AbcBackup) :
  us_next usig = 0%N -> MinbftABCWrapper_new clock fuel nonce usig id n t e = Val w0 ->
  Cmd_Backup ∉ cs -> protocol_run w0 cs os w b ->
  b = None /\ mb_run clock (extension_config id n t e) (usig_received (peers cs)) os (mw_minbft w).
Proof.
  intros Hu Hw0 Hnb Hr.
  unfold MinbftABCWrapper_new in Hw0. set (cfg := extension_config id n t e) in *.
  destruct (MinBft_new clock fuel usig cfg false (nonce 0)) as [[[s o]|]| |] eqn:Hnew; try done. cbn in Hw0.
  injection Hw0 as <-.
  induction Hr as [o' w' Hi|cs os w b c o' w' b' Hr IH Hc].
  - split; [done|]. cbn in Hi. injection Hi as <- <-. cbn. by eapply run_new.
  - rewrite not_elem_of_app, list_elem_of_singleton in Hnb. destruct Hnb as [Hnb Hnc].
    destruct (IH Hnb) as [-> IHr]. unfold usig_received in *. rewrite peers_app, fmap_app, concat_app.
    destruct c as [typ|typ from m|[[client request] payload]| |]; cbn in Hc |- *; rewrite ?app_nil_r; try done.
    + apply call_inv in Hc as (o1 & s1 & Hh & -> & -> & ->). split; [done|]. by eapply run_timeout.
    + apply call_inv in Hc as (o1 & s1 & Hh & -> & -> & ->). split; [done|]. by eapply run_message.
    + apply call_inv in Hc as (o1 & s1 & Hh & -> & -> & ->). split; [done|]. by eapply run_client.
    + injection Hc as <- <- <-. split; [done|]. by rewrite app_nil_r.
Qed.

Lemma minbft_new_created usig id n t e (w0 : Abc) :
  MinbftABCWrapper_new clock fuel nonce usig id n t e = Val w0 -> mw_created w0 = 1.
Proof.
  unfold MinbftABCWrapper_new. intros (r & _ & Hw)%outcome_bind_inv.
  by apply outcome_bind_inv in Hw as (so & _ & [= <-]).
Qed.

(** Without backups the replica is never created again. *)
Lemma minbft_created usig id n t e (w0 : Abc) (cs : list AbcCommand) (os : list AbcOutput) (w : Abc) (b : option AbcBackup) :
  us_next usig = 0%N -> MinbftABCWrapper_new clock fuel nonce usig id n t e = Val w0 ->
  Cmd_Backup ∉ cs -> protocol_run w0 cs os w b -> mw_created w = 1 /\ b = None.
Proof.
  intros Hu Hw0 Hnb Hr. apply minbft_new_created in Hw0.
  induction Hr as [o' w' Hi|cs os w b c o' w' b' Hr IH Hc].
  - split; [|done]. cbn in Hi. apply st_bind_inv in Hi as (io & w1 & [= <- <-] & Hi).
    apply st_bind_inv in Hi as ([] & w2 & [= <-] & Hi). unfold lift in Hi.
    by apply outcome_bind_inv in Hi as (o1 & _ & [= <- <-]).
  - rewrite not_elem_of_app, list_elem_of_singleton in Hnb. destruct Hnb as [Hnb Hnc].
    destruct (IH Hnb) as [IHc ->].
    destruct c as [typ|typ from m|[[client request] payload]| |]; cbn in Hc; try done.
    1-3: by apply call_inv in Hc as (o1 & s1 & Hh & -> & -> & ->).
    by injection Hc as <- <- <-.
Qed.

Lemma decisions_delivery (os : list AbcOutput) : decisions os = delivery (responses os).
Proof.
  unfold decisions, responses, delivery. induction os as [|o os IH]; [done|]. cbn. rewrite omap_app. by f_equal.
Qed.
End run.
