(* ===== verification/RuntimeNet.v ===== *)
(** * A network of runtimes

    Executable: every replica is a runtime of [Wrapper]; an action of the
    environment is followed by steps of the tasks until none can go on, and what a
    replica sends is put into the channels of its peers.  The examples of
    [RuntimeNx], [RuntimeMb] and [RuntimeDam] are run on it. *)

From Stdlib Require Import ZArith Lia.
From stdpp Require Import base list sets option numbers.
From S2P Require Import Prelude Wrapper WrapperFacts.

Section net.
  Context `{AbcWrapper}.
  (** What a peer receives of a message after its serialization. *)
  Context (wire : AbcMessage -> AbcMessage).

(** A runtime, where it started and what was done to it. *)
Record Node := mkNode { nd_start : System; nd_acts : list Action; nd_sys : System }.

Definition node_ok (nd : Node) : Prop := run (nd_acts nd) (nd_start nd) = Some (nd_sys nd).

(** The first task that can go on. *)
Definition pick (s : System) : option (Action * System) :=
  match step Do_Handler s with
  | Some s' => Some (Do_Handler, s')
  | None =>
  match step Do_Worker s with
  | Some s' => Some (Do_Worker, s')
  | None =>
  match step (Do_Async 0) s with
  | Some s' => Some (Do_Async 0, s')
  | None => None
  end end end.

(** No task can go on, tested: timeouts that are not in the list do not matter. *)
Definition at_rest (s : System) : bool :=
  forallb (fun k => bool_decide (step_async k s = None)) (seq 0 (S (length (sy_timeout_list s))))
  && bool_decide (step_worker s = None) && bool_decide (step_handler s = None).

Lemma step_async_beyond k s :
  length (sy_timeout_list s) <= k -> step_async k s = step_async (length (sy_timeout_list s)) s.
Proof.
  intros Hk. unfold step_async, step_select, wait_for_timeout.
  by rewrite (lookup_ge_None_2 _ k), (lookup_ge_None_2 (sy_timeout_list s) (length _)).
Qed.

Lemma at_rest_blocked s : at_rest s = true -> blocked s.
Proof.
  unfold at_rest, blocked. rewrite !andb_true_iff, !bool_decide_eq_true, forallb_forall. intros [[Ha Hw] Hh].
  split; [|done]. intros k. destruct (decide (length (sy_timeout_list s) <= k)) as [Hk|Hk].
  - rewrite step_async_beyond by done. eapply bool_decide_eq_true_1, Ha, in_seq. lia.
  - eapply bool_decide_eq_true_1, Ha, in_seq. lia.
Qed.

(** At most [fuel] steps of the tasks; the actions are collected in reverse. *)
Fixpoint settle (fuel : nat) (acts : list Action) (s : System) : list Action * System :=
  match fuel with
  | O => (acts, s)
  | S fuel =>
      match pick s with
      | Some (a, s') => settle fuel (a :: acts) s'
      | None => (acts, s)
      end
  end.

Definition node_act (fuel : nat) (a : Action) (nd : Node) : option Node :=
  s ← step a (nd_sys nd);
  let '(acts, s) := settle fuel [a] s in
  Some (mkNode (nd_start nd) (nd_acts nd ++ rev acts) s).

Lemma pick_step s a s' : pick s = Some (a, s') -> step a s = Some s'.
Proof.
  unfold pick. intros Hp.
  destruct (step Do_Handler s) eqn:E1; [by simplify_eq|]. destruct (step Do_Worker s) eqn:E2; [by simplify_eq|].
  destruct (step (Do_Async 0) s) eqn:E3; by simplify_eq.
Qed.

Lemma settle_run fuel acts s s0 :
  run (rev acts) s0 = Some s ->
  run (rev (settle fuel acts s).1) s0 = Some (settle fuel acts s).2.
Proof.
  revert acts s. induction fuel as [|fuel IH]; intros acts s Hr; [done|]. cbn.
  destruct (pick s) as [[a s']|] eqn:Hp; [|done]. apply IH. cbn [rev]. rewrite run_app, Hr. cbn.
  by rewrite (pick_step _ _ _ Hp).
Qed.

Lemma node_act_ok fuel a nd nd' : node_ok nd -> node_act fuel a nd = Some nd' -> node_ok nd' /\ nd_start nd' = nd_start nd.
Proof.
  unfold node_ok, node_act. intros Hok Hn. destruct (step a (nd_sys nd)) as [s|] eqn:Hs; [|done]. cbn in Hn.
  pose proof (settle_run fuel [a] s (nd_sys nd)) as Hr. cbn in Hr. rewrite Hs in Hr. specialize (Hr eq_refl).
  destruct (settle fuel [a] s) as [acts s']. injection Hn as <-. cbn. rewrite run_app, Hok. cbn. done.
Qed.

(** ** The network *)

Abbreviation Net := (list Node).
(** Receiver, kind, sender and message. *)
Abbreviation Queue := (list (nat * (MessageType * N * AbcMessage))).

Definition routed (n me : nat) (m : MessageDestination * AbcMessage) : Queue :=
  match m.1 with
  | MD_Unicast d => [(N.to_nat d, (MT_Unicast, N.of_nat me, wire m.2))]
  | MD_Broadcast => (fun i => (i, (MT_Broadcast, N.of_nat me, wire m.2))) <$> List.filter (fun i => negb (i =? me)) (seq 0 n)
  end.

(** What node [i] sent since it was [nd]. *)
Definition sent_since (n i : nat) (nd nd' : Node) : Queue :=
  concat (routed n i <$> drop (length (sy_sent (nd_sys nd))) (sy_sent (nd_sys nd'))).

Definition net_act (fuel i : nat) (a : Action) (nq : Net * Queue) : option (Net * Queue) :=
  nd ← nq.1 !! i;
  nd' ← node_act fuel a nd;
  Some (<[i := nd']> nq.1, nq.2 ++ sent_since (length nq.1) i nd nd').

(** Delivers messages, at most [k] of them. *)
Fixpoint net_deliver (fuel k : nat) (nq : Net * Queue) : option (Net * Queue) :=
  match k, nq.2 with
  | S k, (i, m) :: q => nq ← net_act fuel i (Env_Peer m) (nq.1, q); net_deliver fuel k nq
  | _, _ => Some nq
  end.

(** Actions of the environment, each followed by the delivery of all messages. *)
Fixpoint net_run (fuel k : nat) (inputs : list (nat * Action)) (nq : Net * Queue) : option (Net * Queue) :=
  match inputs with
  | [] => Some nq
  | (i, a) :: inputs => nq ← net_act fuel i a nq; nq ← net_deliver fuel k nq; net_run fuel k inputs nq
  end.

(** Every node has made a run from where it started. *)
Definition net_ok (starts : list System) (net : Net) : Prop :=
  Forall2 (fun s nd => node_ok nd /\ nd_start nd = s) starts net.

Definition net_start (starts : list System) : Net := (fun s => mkNode s [] s) <$> starts.

Lemma net_start_ok starts : net_ok starts (net_start starts).
Proof. unfold net_ok, net_start. apply Forall2_fmap_r. apply Forall_Forall2_diag. by apply list.Forall_forall. Qed.

Lemma net_act_ok fuel i a starts nq nq' :
  net_ok starts nq.1 -> net_act fuel i a nq = Some nq' -> net_ok starts nq'.1.
Proof.
  intros Hok Hn. unfold net_act in Hn. destruct (nq.1 !! i) as [nd|] eqn:Hi; [|done]. cbn in Hn.
  destruct (node_act fuel a nd) as [nd'|] eqn:Ha; [|done]. injection Hn as <-. cbn.
  destruct (Forall2_lookup_r _ _ _ _ _ Hok Hi) as (s & Hs & Hnd & <-).
  destruct (node_act_ok _ _ _ _ Hnd Ha) as [Hnd' Hst].
  assert (<[i := nd_start nd]> starts = starts) as <- by (by apply list_insert_id). by apply Forall2_insert.
Qed.

Lemma net_deliver_ok fuel k starts nq nq' :
  net_ok starts nq.1 -> net_deliver fuel k nq = Some nq' -> net_ok starts nq'.1.
Proof.
  revert nq. induction k as [|k IH]; intros [net q] Hok Hn; cbn in Hn; [by injection Hn as <-|].
  destruct q as [|[i m] q]; [by injection Hn as <-|].
  destruct (net_act fuel i (Env_Peer m) (net, q)) as [nq1|] eqn:Ha; [|done].
  eapply IH; [|exact Hn]. by eapply (net_act_ok fuel i _ starts (net, q)).
Qed.

Lemma net_run_ok fuel k inputs starts nq nq' :
  net_ok starts nq.1 -> net_run fuel k inputs nq = Some nq' -> net_ok starts nq'.1.
Proof.
  revert nq. induction inputs as [|[i a] inputs IH]; intros nq Hok Hn; cbn in Hn; [by injection Hn as <-|].
  destruct (net_act fuel i a nq) as [nq1|] eqn:Ha; [|done]. cbn in Hn.
  destruct (net_deliver fuel k nq1) as [nq2|] eqn:Hd; [|done].
  eapply IH; [|exact Hn]. eapply net_deliver_ok; [|done]. by eapply net_act_ok.
Qed.

Lemma net_ok_node starts net i nd : net_ok starts net -> net !! i = Some nd ->
  exists s, starts !! i = Some s /\ run (nd_acts nd) s = Some (nd_sys nd).
Proof.
  intros Hok Hi. destruct (Forall2_lookup_r _ _ _ _ _ Hok Hi) as (s & Hs & Hnd & <-). eauto.
Qed.
End net.
Arguments Node {_}.
