(* ===== verification/RuntimeMb.v ===== *)
(** * MinBFT in its runtime: theorems

    The properties of the replica and of the runtime put together, for what the
    application sees, and two ways in which the two do not fit. *)

From Stdlib Require Import ZArith Lia String.
From stdpp Require Import base list gmap sets numbers option.
From S2P Require Import Prelude Triple Ids Heaps Requests MbUsig MbBase MbMessages MbOrder MbCollectors MbBatcher.
From S2P Require Import MbRequests MbReplica MbCertFacts MbCollectFacts MbRequestFacts MbInvariant MbRun.
From S2P Require Import MbExamples Wrapper WrapperFacts WrapMb RuntimeNet.

Section theorems.
  Context {Pr : Profile} {P U Sig Att Bt : Type}.
  Context `{Hashbar P, Hashbar Sig, Hashbar Att} `{Digests} `{UsigLaws U Sig Att} `{EqDecision Att} `{HashOrderLaws}.
  Context `{BatcherLaws Bt P Att}.
  Context (clock : nat -> N) (fuel : nat) (usig_new : nat -> U) (nonce : nat -> N).

#[local] Instance the_runtime : AbcWrapper := MinbftWrapper (Bt := Bt) (P := P) clock fuel usig_new nonce.
#[local] Instance the_runtime_laws : AbcWrapperLaws := MinbftWrapperLaws clock fuel usig_new nonce.

(** C7: Integrity end to end.  However the runtime of a replica is scheduled, whatever
    messages and requests arrive, and whatever recoveries are asked for, the requests
    of one client reach the application in increasing order of their numbers: none
    twice. *)
Theorem mb_runtime_exactly_once usig id n t e (w0 : Abc) ignore now acts s i j client x y p p' :
  overflow_checks = true -> us_next usig = 0%N ->
  MinbftABCWrapper_new clock fuel nonce usig id n t e = Val w0 ->
  run acts (start w0 ignore now) = Some s ->
  sy_delivered s !! i = Some (client, x, p) -> sy_delivered s !! j = Some (client, y, p') -> i < j -> (x < y)%N.
Proof.
  intros Hoc Hu Hw0 Hrun Hi Hj Hij.
  destruct (run_decided _ _ _ _ _ Hrun) as [(Hnil & _)|(cs & os & Hpr & Hdel & _ & _ & _ & Hnb & _)].
  { by rewrite Hnil in Hi. }
  destruct (minbft_protocol_run clock fuel usig_new nonce usig id n t e w0 cs os _ _ Hu Hw0 (Hnb ltac:(done)) Hpr) as [_ Hmb].
  assert (decisions os = delivery (responses os)) as Hdd by exact (decisions_delivery clock fuel usig_new nonce os).
  rewrite Hdd in Hdel.
  eapply prefix_lookup_Some in Hi; [|exact Hdel]. eapply prefix_lookup_Some in Hj; [|exact Hdel].
  destruct (omap_lookup_lt _ _ _ _ _ _ Hi Hj Hij) as (i' & j' & [c1 x1] & [c2 y1] & Hlt & Hi' & Hj' & Hx & Hy).
  destruct x1; [|done]. destruct y1; [|done]. simplify_eq.
  exact (mb_responses_increasing clock _ _ _ _ i' j' client _ _ Hoc Hmb Hi' Hj' Hlt).
Qed.

(** Recovery is never started.  The runtime restores a replica only from a backup, and
    makes one only when an output asks for it; no output of MinBFT does.  However often
    a recovery is asked for, the replica is the one that was created at the start. *)
Theorem mb_runtime_never_recovers usig id n t e (w0 : Abc) ignore now acts s :
  us_next usig = 0%N -> MinbftABCWrapper_new clock fuel nonce usig id n t e = Val w0 ->
  run acts (start w0 ignore now) = Some s ->
  mw_created (sy_abc s) = 1 /\ sy_backup s = None.
Proof.
  intros Hu Hw0 Hrun.
  destruct (run_decided _ _ _ _ _ Hrun) as [(_ & _ & Habc & Hb)|(cs & os & Hpr & _ & _ & _ & _ & Hnb & _)].
  - rewrite Habc. split; [|done]. by eapply (minbft_new_created clock fuel usig_new nonce).
  - exact (minbft_created clock fuel usig_new nonce usig id n t e w0 cs os _ _ Hu Hw0 (Hnb ltac:(done)) Hpr).
Qed.
End theorems.

(** ** A network of three runtimes *)

Definition mr_usig (i : N) : MxUsig := Sgn.UsigSignature_new (mx_key i) (mx_key i).
Definition mr_nonce (k : nat) : N := 7%N.
Abbreviation mr_wrapper :=
  (the_runtime (P := list N) (U := MxUsig) (Sig := MxS) (Att := MxAtt) (Bt := BoxedBatcher (list N) MxAtt)
    mx_clock 20 (fun _ => mr_usig 9) mr_nonce).
#[local] Hint Extern 0 AbcWrapper => exact mr_wrapper : typeclass_instances.

(** A timeout of 1000, batches of one request. *)
Definition mr_extension : ConfigurationExtension := mkExtension 2 1000 2 None (BC_Trivial 1000 (Some 1%N)).
Abbreviation mr_new i :=
  (MinbftABCWrapper_new (Bt := BoxedBatcher (list N) MxAtt) mx_clock 20 mr_nonce (mr_usig i) i 3 1 mr_extension).
Definition mr_start (w : @Abc mr_wrapper) : @System mr_wrapper := @start mr_wrapper w None 0%N.

Abbreviation MrNet := (list (@Node mr_wrapper)).

(** The attestations are exchanged, then the inputs. *)
Definition mr_hello : list (nat * @Action mr_wrapper) := [(0, Env_Tick 0); (1, Env_Tick 0); (2, Env_Tick 0)].
Definition mr_net (inputs : list (nat * @Action mr_wrapper)) : option MrNet :=
  match mr_new 0, mr_new 1, mr_new 2 with
  | Val a, Val b, Val c =>
      fst <$> net_run id 200 300 (mr_hello ++ inputs) (net_start [mr_start a; mr_start b; mr_start c], [])
  | _, _, _ => None
  end.

(** Node 1 of the network is a runtime of replica 1 after a run. *)
Lemma mr_net_node inputs net nd :
  mr_net inputs = Some net -> net !! 1 = Some nd ->
  exists w, mr_new 1 = Val w /\ run (nd_acts nd) (mr_start w) = Some (nd_sys nd).
Proof.
  unfold mr_net. intros Hn Hnd. destruct (mr_new 0) as [a| |]; try done. destruct (mr_new 1) as [b| |]; try done.
  destruct (mr_new 2) as [c| |]; try done.
  destruct (net_run id 200 300 (mr_hello ++ inputs) _) as [[net' q]|] eqn:Hr; [|done]. injection Hn as <-.
  pose proof (net_run_ok _ _ _ _ _ (_, _) _ (net_start_ok [mr_start a; mr_start b; mr_start c]) Hr) as Hok.
  destruct (net_ok_node _ _ _ _ Hok Hnd) as (s & Hs & Hrun). exists b. split; [done|]. by injection Hs as <-.
Qed.

Definition node_test (i : nat) (q : @System mr_wrapper -> bool) (r : option MrNet) : bool :=
  match r with
  | Some net => match net !! i with Some nd => q (nd_sys nd) | None => false end
  | None => false
  end.

Lemma node_test_inv i q r : node_test i q r = true ->
  exists net nd, r = Some net /\ net !! i = Some nd /\ q (nd_sys nd) = true.
Proof. unfold node_test. destruct r as [net|]; [|done]. destruct (net !! i) as [nd|] eqn:Hi; [|done]. eauto. Qed.

Lemma node1_run inputs (q : @System mr_wrapper -> bool) :
  node_test 1 q (mr_net inputs) = true ->
  exists w acts s, mr_new 1 = Val w /\ run acts (mr_start w) = Some s /\ q s = true.
Proof.
  intros (net & nd & Hn & Hnd & Hq)%node_test_inv. destruct (mr_net_node _ _ _ Hn Hnd) as (w & Hw & Hrun). eauto 10.
Qed.

(** Two requests of client 5, which all replicas get. *)
Definition mr_requests : list (nat * @Action mr_wrapper) :=
  (fun '(i, k) => (i, @Env_Request mr_wrapper (5%N, k, [42%N]))) <$> [(0, 1%N); (1, 1%N); (2, 1%N); (0, 2%N); (1, 2%N); (2, 2%N)].

Definition two_delivered (s : @System mr_wrapper) : bool :=
  match sy_delivered s with [(c1, _, _); (c2, _, _)] => (c1 =? 5)%N && (c2 =? 5)%N | _ => false end.

Lemma mb_runtime_exactly_once_witness : exists w acts s x y p p',
  mr_new 1 = Val w /\ run acts (mr_start w) = Some s
  /\ sy_delivered s !! 0 = Some (5%N, x, p) /\ sy_delivered s !! 1 = Some (5%N, y, p') /\ (x < y)%N.
Proof.
  assert (node_test 1 two_delivered (mr_net mr_requests) = true) as Ht by (vm_compute; reflexivity).
  apply node1_run in Ht as (w & acts & s & Hw & Hrun & Hq). unfold two_delivered in Hq.
  destruct (sy_delivered s) as [|[[c1 x] p] [|[[c2 y] p'] [|]]] eqn:Hd; try done.
  apply andb_true_iff in Hq as [->%N.eqb_eq ->%N.eqb_eq].
  exists w, acts, s, x, y, p, p'. split; [exact Hw|]. split; [exact Hrun|]. rewrite Hd. split; [done|]. split; [done|].
  eapply (mb_runtime_exactly_once mx_clock 20 (fun _ => mr_usig 9) mr_nonce (mr_usig 1) 1 3 1 mr_extension w None 0%N acts s
    0 1 5%N x y p p'); [reflexivity|reflexivity|exact Hw|exact Hrun|exact (f_equal (fun l => l !! 0) Hd)|exact (f_equal (fun l => l !! 1) Hd)|lia].
Defined.

Lemma mb_runtime_never_recovers_witness : exists w acts s,
  mr_new 1 = Val w /\ run (Env_Recover :: acts) (mr_start w) = Some s /\ mw_created (sy_abc s) = 1 /\ sy_backup s = None.
Proof.
  destruct (mr_new 1) as [w| |] eqn:Hw; [|exfalso; vm_compute in Hw; discriminate Hw..].
  exists w. assert (exists s, run [Env_Recover; Do_Async 0; Do_Async 0] (mr_start w) = Some s) as [s Hs] by (eexists; reflexivity).
  exists [Do_Async 0; Do_Async 0], s. split; [reflexivity|]. split; [exact Hs|].
  exact (mb_runtime_never_recovers mx_clock 20 (fun _ => mr_usig 9) mr_nonce (mr_usig 1) 1 3 1 mr_extension w None 0%N
    [Env_Recover; Do_Async 0; Do_Async 0] s eq_refl Hw Hs).
Defined.

(** A request to change the view was sent. *)
Definition asked_for_view_change (s : @System mr_wrapper) : bool :=
  existsb (fun m => match pm_message m.2 with PReqViewChange _ => true | _ => false end) (sy_sent s).

(** [k] requests of different clients, one every 900, to replica 1 only. *)
Definition mr_starving (k : nat) : list (nat * @Action mr_wrapper) :=
  concat ((fun i => [(1, @Env_Request mr_wrapper (N.of_nat i, 1, [42])%N); (1, Env_Tick 900)]) <$> seq 0 k).

(** New requests keep the timeout of old ones from elapsing.  MinBFT starts the timeout
    of a client for every new request, and the runtime lets a start replace any running
    timeout of the type, whoever it was for.  Where the primary proposes nothing and a
    single request is waiting, replica 1 asks for a view change after the timeout of
    1000; but where 20 clients each send a request, one every 900, it has not asked for
    one 18 timeouts after the first of them arrived. *)
Theorem mb_client_timeout_starved :
  node_test 1 (fun s => (sy_now s =? 1000)%N && asked_for_view_change s)
    (mr_net (mr_starving 1 ++ [(1, Env_Tick 100)])) = true
  /\ node_test 1 (fun s => (sy_now s =? 18000)%N && negb (asked_for_view_change s) && (length (sy_delivered s) =? 0)
                           && bool_decide (running (sy_timeout_list s) TT_Client = Some (18100%N, mkStopClass 19)))
       (mr_net (mr_starving 20)) = true.
Proof. split; vm_compute; reflexivity. Qed.
