(* ===== verification/RuntimeNx.v ===== *)
(** * NxBFT in its runtime: theorems

    Total order for what the applications of two replicas see, and a network of
    three runtimes on which it is witnessed. *)

From Stdlib Require Import ZArith Lia.
From stdpp Require Import base list gmap sets numbers option.
From S2P Require Import Prelude Ids Heaps Requests NxBase NxDag NxDagFacts NxDagGraph NxEnclave NxMessages NxReplica.
From S2P Require Import NxEnclaveFacts NxCommit NxDagBuilt NxDecide NxOrder NxReplicaFacts NxInvariant NxLog NxExamples.
From S2P Require Import Wrapper WrapperFacts WrapperTheorems WrapNx RuntimeNet.

Section theorems.
  Context {P : Profile} {B Tx Enc : Type}.
  Context `{BitSetLaws B} `{Digests} `{CommonCoinLaws B Enc} `{Hashbar Tx}.
  Context `{EqDecision B, EqDecision Tx}.

Abbreviation nx_wrapper clock fuel entropy := (NxbftWrapper (B := B) (Tx := Tx) (Enc := Enc) clock fuel entropy).

(** What a runtime without recovery has delivered is a prefix of the deliveries of a run
    of its replica.  [created] is the randomness its enclave was created with. *)
Lemma nx_runtime_run clock fuel created entropy t0 me n e (w0 : @Abc (nx_wrapper clock fuel entropy)) ignore now acts s :
  NxbftABCWrapper_new clock created t0 me n e = Val w0 ->
  @run (nx_wrapper clock fuel entropy) acts (start w0 ignore now) = Some s ->
  no_recover acts -> trusted_peers (nx_quorum (nw_nxbft w0)) (arrived_peers acts) ->
  exists outs, nx_trusted_run clock (nw_nxbft w0) outs (nw_nxbft (sy_abc s))
    /\ sy_delivered s `prefix_of` MyTransaction_into <$> run_delivery outs.
Proof.
  intros Hnew Hrun Hnr Ht.
  assert (nx_output (nw_nxbft w0) = UnreflectedOutput_new (nx_me (nw_nxbft w0))) as Hout.
  { unfold NxbftABCWrapper_new in Hnew. apply outcome_bind_inv in Hnew as (s0 & Hs0 & [= <-]).
    by apply NxBft_new_output in Hs0 as [? _]. }
  destruct (run_decided (WL := NxbftWrapperLaws clock fuel entropy) _ _ _ _ _ Hrun)
    as [(Hnil & _ & Habc & _)|(cs & os & Hpr & Hdel & _ & _ & Hp & _ & Hr)].
  - exists []. rewrite Hnil, Habc. split; [constructor|by apply prefix_nil].
  - assert (trusted_peers (nx_quorum (nw_nxbft w0)) (peers cs)) as Ht'.
    { destruct Hp as [k Hk]. unfold trusted_peers in *. rewrite Hk, list.Forall_app in Ht. apply Ht. }
    destruct (nxbft_protocol_run clock fuel entropy w0 cs os _ _ Hout Ht' (Hr Hnr) Hpr) as (outs & Hruns & Hd).
    exists outs. split; [done|]. rewrite Hd.
    assert (@decisions (nx_wrapper clock fuel entropy) os = MyTransaction_into <$> concat (no_delivery <$> os)) as <-
      by exact (nx_decisions clock fuel entropy os). done.
Qed.

(** C6: total order end to end.  Take two replicas in their runtimes, scheduled in any
    way, whose enclaves hold the same coin and whose DAGs contain no two different
    vertices at one address.  Neither is told to recover, the vertices in the recovery
    commits that arrive from peers, which the code adopts unchecked, are valid, and
    overflow checks are on.  Then what one application has been given is a prefix of
    what the other has been given. *)
Theorem nx_runtime_total_order clock1 fuel1 created1 entropy1 t1 me1 e1 clock2 fuel2 created2 entropy2 t2 me2 e2 n
    (w1 : @Abc (nx_wrapper clock1 fuel1 entropy1)) (w2 : @Abc (nx_wrapper clock2 fuel2 entropy2))
    ignore1 now1 acts1 s1 ignore2 now2 acts2 s2 :
  overflow_checks = true -> is_u64 n ->
  NxbftABCWrapper_new clock1 created1 t1 me1 n e1 = Val w1 ->
  NxbftABCWrapper_new clock2 created2 t2 me2 n e2 = Val w2 ->
  @run (nx_wrapper clock1 fuel1 entropy1) acts1 (start w1 ignore1 now1) = Some s1 ->
  @run (nx_wrapper clock2 fuel2 entropy2) acts2 (start w2 ignore2 now2) = Some s2 ->
  no_recover acts1 -> no_recover acts2 ->
  trusted_peers (nx_quorum (nw_nxbft w1)) (arrived_peers acts1) ->
  trusted_peers (nx_quorum (nw_nxbft w2)) (arrived_peers acts2) ->
  (forall w, coin_of (nx_enclave (nw_nxbft (sy_abc s1))) w = coin_of (nx_enclave (nw_nxbft (sy_abc s2))) w) ->
  consistent (nx_dag (nw_nxbft (sy_abc s1))) (nx_dag (nw_nxbft (sy_abc s2))) ->
  sy_delivered s1 `prefix_of` sy_delivered s2 \/ sy_delivered s2 `prefix_of` sy_delivered s1.
Proof.
  intros Hoc Hn Hw1 Hw2 Hr1 Hr2 Hnr1 Hnr2 Ht1 Ht2 Hcoin Hcons.
  destruct (nx_runtime_run _ _ _ _ _ _ _ _ _ _ _ _ _ Hw1 Hr1 Hnr1 Ht1) as (outs1 & Hrun1 & Hd1).
  destruct (nx_runtime_run _ _ _ _ _ _ _ _ _ _ _ _ _ Hw2 Hr2 Hnr2 Ht2) as (outs2 & Hrun2 & Hd2).
  unfold NxbftABCWrapper_new in Hw1, Hw2.
  apply outcome_bind_inv in Hw1 as (r1 & Hs1 & [= <-]), Hw2 as (r2 & Hs2 & [= <-]). cbn in Hrun1, Hrun2.
  destruct (N.le_ge_cases (nx_decided_wave (nw_nxbft (sy_abc s1))) (nx_decided_wave (nw_nxbft (sy_abc s2)))) as [Hle|Hle].
  - pose proof (trusted_runs_prefix _ _ _ _ _ _ _ _ _ _ _ _ _ _ _ _ _ _ _ _ _ Hoc Hn Hs1 Hs2 Hrun1 Hrun2 Hcoin Hcons Hle) as Hp.
    eapply prefix_weak_total; [|exact Hd2]. etrans; [exact Hd1|]. destruct Hp as [k ->]. rewrite fmap_app. by eexists.
  - assert (consistent (nx_dag (nw_nxbft (sy_abc s2))) (nx_dag (nw_nxbft (sy_abc s1)))) as Hcons' by (by apply consistent_sym).
    pose proof (trusted_runs_prefix _ _ _ _ _ _ _ _ _ _ _ _ _ _ _ _ _ _ _ _ _ Hoc Hn Hs2 Hs1 Hrun2 Hrun1
      (fun w => eq_sym (Hcoin w)) Hcons' Hle) as Hp.
    eapply prefix_weak_total; [exact Hd1|]. etrans; [exact Hd2|]. destruct Hp as [k ->]. rewrite fmap_app. by eexists.
Qed.
End theorems.

(** ** A network of three runtimes *)

(** Transactions are 64-bit numbers. *)
#[local] Instance nr_hash : Hashbar N := to_le_bytes.
Definition nr_created (i : N) (_ : nat) : Entropy (B := N) ExEnc := ex_entropy i.
Abbreviation nr_wrapper := (NxbftWrapper (B := N) (Tx := N) (Enc := ExEnc) ex_clock ex_fuel (nr_created 7)).
#[local] Hint Extern 0 AbcWrapper => exact nr_wrapper : typeclass_instances.

(** Vertices of one transaction, a timeout of 1000. *)
Definition nr_extension : ConfigurationExtension := mkExtension 1000 1 (Some 1%N).
Abbreviation nr_new i :=
  (NxbftABCWrapper_new (B := N) (Tx := N) (Enc := ExEnc) ex_clock (nr_created i) 0 i 3 nr_extension).
Definition nr_start (w : @Abc nr_wrapper) : @System nr_wrapper := @start nr_wrapper w None 0%N.

(** The handshake, then [k] rounds of a request and a timeout at every replica. *)
Definition nr_hello : list (nat * @Action nr_wrapper) := [(0, Env_Tick 0); (1, Env_Tick 0); (2, Env_Tick 0)].
Definition nr_rounds (k : nat) : list (nat * @Action nr_wrapper) :=
  concat ((fun r => concat ((fun i => [(i, @Env_Request nr_wrapper (N.of_nat i, N.of_nat r, 42)%N); (i, Env_Tick 1000)]) <$> [0; 1; 2]))
    <$> seq 1 k).

Definition nr_net (inputs : list (nat * @Action nr_wrapper)) : option (list (@Node nr_wrapper)) :=
  match nr_new 0, nr_new 1, nr_new 2 with
  | Val a, Val b, Val c =>
      fst <$> net_run id 200 300 (nr_hello ++ inputs) (net_start [nr_start a; nr_start b; nr_start c], [])
  | _, _, _ => None
  end.

(** Every node of the network is a runtime of its replica after a run. *)
Lemma nr_net_node inputs net j nd :
  nr_net inputs = Some net -> net !! j = Some nd ->
  exists w, nr_new (N.of_nat j) = Val w /\ run (nd_acts nd) (nr_start w) = Some (nd_sys nd).
Proof.
  unfold nr_net. intros Hn Hnd. destruct (nr_new 0) as [a| |] eqn:Ha; try done.
  destruct (nr_new 1) as [b| |] eqn:Hb; try done. destruct (nr_new 2) as [c| |] eqn:Hc; try done.
  destruct (net_run id 200 300 (nr_hello ++ inputs) _) as [[net' q]|] eqn:Hr; [|done]. injection Hn as <-.
  pose proof (net_run_ok _ _ _ _ _ (_, _) _ (net_start_ok [nr_start a; nr_start b; nr_start c]) Hr) as Hok.
  destruct (net_ok_node _ _ _ _ Hok Hnd) as (s & Hs & Hrun).
  destruct j as [|[|[|j]]]; [injection Hs as <-..|done]; eauto.
Qed.

(** Neither recoveries nor recovery commits. *)
Definition nr_plain (acts : list (@Action nr_wrapper)) : bool :=
  forallb (fun a => match a with
    | Env_Recover => false
    | Env_Peer m => match pm_message m.2 with RecoveryCommitMsg _ => false | _ => true end
    | _ => true
    end) acts.

Lemma nr_plain_spec q acts : nr_plain acts = true -> no_recover acts /\ trusted_peers q (arrived_peers acts).
Proof.
  unfold no_recover, trusted_peers, arrived_peers. induction acts as [|a acts IH]; cbn [nr_plain forallb]; [by repeat constructor|].
  intros [Ha Hacts]%andb_true_iff. destruct (IH Hacts) as [H1 H2]. split; [constructor; [by destruct a|done]|].
  destruct a as [[tf [from body]]| | | | | | | | | | | | |]; cbn; try done. constructor; [|done]. by destruct body.
Qed.

(** What two nodes need for the theorem, and how much they have delivered. *)
Definition nr_agree (i j ki kj : nat) (r : option (list (@Node nr_wrapper))) : bool :=
  match r with
  | Some net =>
      match net !! i, net !! j with
      | Some a, Some b =>
          let sa := nw_nxbft (sy_abc (nd_sys a)) in
          let sb := nw_nxbft (sy_abc (nd_sys b)) in
          nr_plain (nd_acts a) && nr_plain (nd_acts b) && consistentb (nx_dag sa) (nx_dag sb)
          && bool_decide (ea_n (nx_enclave sa) = ea_n (nx_enclave sb))
          && bool_decide (ea_seed (nx_enclave sa) = ea_seed (nx_enclave sb))
          && (length (sy_delivered (nd_sys a)) =? ki) && (length (sy_delivered (nd_sys b)) =? kj)
      | _, _ => false
      end
  | None => false
  end.

Lemma nr_agree_inv i j ki kj r : nr_agree i j ki kj r = true ->
  exists net a b, r = Some net /\ net !! i = Some a /\ net !! j = Some b
    /\ nr_plain (nd_acts a) = true /\ nr_plain (nd_acts b) = true
    /\ consistentb (nx_dag (nw_nxbft (sy_abc (nd_sys a)))) (nx_dag (nw_nxbft (sy_abc (nd_sys b)))) = true
    /\ (forall w, coin_of (nx_enclave (nw_nxbft (sy_abc (nd_sys a)))) w = coin_of (nx_enclave (nw_nxbft (sy_abc (nd_sys b)))) w)
    /\ length (sy_delivered (nd_sys a)) = ki /\ length (sy_delivered (nd_sys b)) = kj.
Proof.
  unfold nr_agree. intros Ht. destruct r as [net|]; [|done].
  destruct (net !! i) as [a|] eqn:Ha; [|done]. destruct (net !! j) as [b|] eqn:Hb; [|done].
  rewrite !andb_true_iff, !Nat.eqb_eq, !bool_decide_eq_true in Ht.
  destruct Ht as [[[[[[Hpa Hpb] Hcons] Hsn] Hseed] Hka] Hkb]. exists net, a, b. repeat (split; [done|]).
  split; [|done]. intros w. cbn. unfold ea_coin. by rewrite Hseed, Hsn.
Qed.

(** The DAG of a replica in its runtime is well formed. *)
Lemma nr_dag_shape w i acts s :
  nr_new i = Val w -> run acts (nr_start w) = Some s -> nr_plain acts = true ->
  Dag_shape (nx_dag (nw_nxbft (sy_abc s))).
Proof.
  intros Hw Hr Hp. destruct (nr_plain_spec (nx_quorum (nw_nxbft w)) _ Hp) as [Hnr Ht].
  destruct (nx_runtime_run _ _ _ _ _ _ _ _ _ _ _ _ _ Hw Hr Hnr Ht) as (outs & Hrun & _).
  unfold NxbftABCWrapper_new in Hw. apply outcome_bind_inv in Hw as (r0 & Hs0 & [= <-]).
  assert (both [] r0) as Hstart by (eapply NxBft_new_both; [exact ex_n_u64|exact Hs0]).
  pose proof (trusted_run_both ex_clock ex_checks _ _ _ Hstart Hrun) as [Hinv _]. apply Hinv.
Qed.

Lemma nx_runtime_total_order_witness : exists w0 w1 acts0 acts1 s0 s1,
  nr_new (N.of_nat 0) = Val w0 /\ run acts0 (nr_start w0) = Some s0
  /\ nr_new (N.of_nat 1) = Val w1 /\ run acts1 (nr_start w1) = Some s1
  /\ length (sy_delivered s0) = 7 /\ length (sy_delivered s1) = 11
  /\ (sy_delivered s0 `prefix_of` sy_delivered s1 \/ sy_delivered s1 `prefix_of` sy_delivered s0).
Proof.
  assert (nr_agree 0 1 7 11 (nr_net (nr_rounds 6)) = true) as Ht by (vm_compute; reflexivity).
  apply nr_agree_inv in Ht as (net & a & b & Hn & Ha & Hb & Hpa & Hpb & Hcons & Hcoin & Hka & Hkb).
  destruct (nr_net_node _ _ _ _ Hn Ha) as (w0 & Hw0 & Hr0). destruct (nr_net_node _ _ _ _ Hn Hb) as (w1 & Hw1 & Hr1).
  destruct (nr_plain_spec (nx_quorum (nw_nxbft w0)) _ Hpa) as [Hn0 Ht0].
  destruct (nr_plain_spec (nx_quorum (nw_nxbft w1)) _ Hpb) as [Hn1 Ht1].
  pose proof (consistentb_spec _ _ (nr_dag_shape _ _ _ _ Hw0 Hr0 Hpa) Hcons) as Hcons'.
  exists w0, w1, (nd_acts a), (nd_acts b), (nd_sys a), (nd_sys b).
  refine (conj Hw0 (conj Hr0 (conj Hw1 (conj Hr1 (conj Hka (conj Hkb _)))))).
  exact (nx_runtime_total_order ex_clock ex_fuel (nr_created (N.of_nat 0)) (nr_created 7) 0 (N.of_nat 0) nr_extension
    ex_clock ex_fuel (nr_created (N.of_nat 1)) (nr_created 7) 0 (N.of_nat 1) nr_extension 3 w0 w1 None 0%N (nd_acts a) (nd_sys a)
    None 0%N (nd_acts b) (nd_sys b) eq_refl ex_n_u64 Hw0 Hw1 Hr0 Hr1 Hn0 Hn1 Ht0 Ht1 Hcoin Hcons').
Defined.
