(* ===== verification/RuntimeDam.v ===== *)
(** * Damysus in its runtime: theorems

    What the application of a replica has been given once the tasks of the runtime
    have come to rest, and a network of two runtimes. *)

From Stdlib Require Import ZArith Lia.
From stdpp Require Import base list gmap sets numbers option.
From S2P Require Import Prelude Triple Ids Heaps Requests DamBase DamEnclave DamEnclaveFacts DamBlockstore.
From S2P Require Import DamReplica DamInvariant DamRun DamExamples.
From S2P Require Import Wrapper WrapperFacts WrapperTheorems WrapDam RuntimeNet.

Section theorems.
  Context {P : Profile} {B Tx Enc : Type}.
  Context `{BitSetLaws B} `{Digests} `{DamEnclaveLaws Enc} `{UnstableSortLaws}.
  Context (clock : nat -> N) (fuel : nat).

#[local] Instance the_runtime : AbcWrapper := DamysusWrapper (B := B) (Tx := Tx) (Enc := Enc) clock fuel.
#[local] Instance the_runtime_laws : AbcWrapperLaws := DamysusWrapperLaws clock fuel.

End theorems.

(** ** A network of two runtimes *)

Abbreviation dr_wrapper := (DamysusWrapper (B := N) (Tx := N) (Enc := DxEnc) dx_clock 20).
#[local] Hint Extern 0 AbcWrapper => exact dr_wrapper : typeclass_instances.

(** Blocks of one or two transactions, timeouts of 1000. *)
Definition dr_extension : ConfigurationExtension := mkExtension 1000 1000 1 (Some 2%N) None.
Abbreviation dr_new i := (DamysusABCWrapper_new (B := N) (Tx := N) (Enc := DxEnc) dx_clock 0 i 2 dr_extension).
Definition dr_start (w : @Abc dr_wrapper) : @System dr_wrapper := @start dr_wrapper w None 0%N.

(** The handshake, then [k] requests at every replica. *)
Definition dr_inputs (k : nat) : list (nat * @Action dr_wrapper) :=
  [(0, Env_Tick 0); (1, Env_Tick 0)]
  ++ concat ((fun r => (fun i => (i, @Env_Request dr_wrapper (N.of_nat i, N.of_nat r, 42)%N)) <$> [0; 1]) <$> seq 1 k).

Definition dr_net (k : nat) : option (list (@Node dr_wrapper)) :=
  match dr_new 0, dr_new 1 with
  | Val a, Val b => fst <$> net_run dx_received 200 300 (dr_inputs k) (net_start [dr_start a; dr_start b], [])
  | _, _ => None
  end.

Lemma dr_net_node k net j nd :
  dr_net k = Some net -> net !! j = Some nd ->
  exists w, dr_new (N.of_nat j) = Val w /\ run (nd_acts nd) (dr_start w) = Some (nd_sys nd).
Proof.
  unfold dr_net. intros Hn Hnd. destruct (dr_new 0) as [a| |] eqn:Ha; try done.
  destruct (dr_new 1) as [b| |] eqn:Hb; try done.
  destruct (net_run _ _ _ (dr_inputs k) _) as [[net' q]|] eqn:Hr; [|done]. injection Hn as <-.
  pose proof (net_run_ok _ _ _ _ _ (_, _) _ (net_start_ok [dr_start a; dr_start b]) Hr) as Hok.
  destruct (net_ok_node _ _ _ _ Hok Hnd) as (s & Hs & Hrun).
  destruct j as [|[|j]]; [injection Hs as <-..|done]; eauto.
Qed.

(** Replica [j] has come to rest, knows only trusted messages and has delivered [k] transactions. *)
Definition dr_rested (j k : nat) (r : option (list (@Node dr_wrapper))) : bool :=
  match r with
  | Some net =>
      match net !! j with
      | Some nd =>
          forallb (fun a => match a with Env_Recover => false | Env_Peer m => message_okb m.2 | _ => true end) (nd_acts nd)
          && at_rest (nd_sys nd) && match sy_worker (nd_sys nd) with W_Ended | W_Diverges => false | _ => true end
          && negb (sy_decisions_closed (nd_sys nd)) && negb (sy_net_busy (nd_sys nd)) && (length (sy_delivered (nd_sys nd)) =? k)
          && (length (sy_delivered (nd_sys nd)) - sy_taken (nd_sys nd) <? channel_capacity)
      | None => false
      end
  | None => false
  end.

Lemma dr_rested_inv j k r : dr_rested j k r = true -> exists net nd, r = Some net /\ net !! j = Some nd
  /\ no_recover (nd_acts nd) /\ trusted_peers (arrived_peers (nd_acts nd)) /\ blocked (nd_sys nd) /\ env_ready (nd_sys nd)
  /\ alive (sy_worker (nd_sys nd)) /\ sy_decisions_closed (nd_sys nd) = false /\ length (sy_delivered (nd_sys nd)) = k.
Proof.
  unfold dr_rested. intros Ht. destruct r as [net|]; [|done]. destruct (net !! j) as [nd|] eqn:Hnd; [|done].
  rewrite !andb_true_iff, Nat.eqb_eq, Nat.ltb_lt, !negb_true_iff, forallb_forall in Ht.
  destruct Ht as [[[[[[Ha Hb%at_rest_blocked] Hw] Hd] Hbusy] Hk] Hfree]. exists net, nd. split; [done|]. split; [done|].
  unfold no_recover, trusted_peers, arrived_peers. rewrite !list.Forall_forall. split.
  { intros a Hin ->. apply list_elem_of_In, Ha in Hin. done. }
  split. { intros m (a & Hin & Hm)%list_elem_of_omap. apply list_elem_of_In, Ha in Hin.
    destruct a; try done. injection Hm as ->. by apply message_okb_spec. }
  split; [done|]. split; [by split; [|right]|]. split; [by destruct (sy_worker (nd_sys nd))|done].
Qed.

