(* ===== verification/Sgx.v ===== *)
(** * Calls into an SGX enclave

    Models what the three trusted components share of the calls across the
    boundary of an enclave: [src/other/sgx-utils] (status codes, slices as raw
    pointers), [src/other/enclave-result] (results as bytes) and
    [src/other/remote-attestation-shared] (keys and signatures).

    The SGX runtime and its cryptography are not in the sources: [SgxRuntime] is
    what a call can meet before and after the code of the enclave runs, [Bincode]
    the serializer with its round trip, and the keys and signatures of
    [sgx_crypto] are the class [Ecc].  The memory a pointer leads to is the list
    of what is stored there. *)

From Stdlib Require Import ZArith Lia.
From stdpp Require Import base list numbers option finite.
From S2P Require Import Prelude Ids.

(** ** [sgx-utils]: status codes *)

(** [SgxStatus] is its code, [0] is success; an [SgxError] is a status without it. *)
Record SgxError := mkSgxError { se_inner : N }.
#[export] Instance SgxError_eq_dec : EqDecision SgxError.
Proof. solve_decision. Defined.

(** [SgxError::try_from], then [into_result]. *)
Definition SgxError_try_from (status : N) : Result SgxError () :=
  if (status =? 0)%N then Err () else Ok (mkSgxError status).
Definition into_result (status : N) : Result () SgxError :=
  match SgxError_try_from status with Ok error => Err error | Err () => Ok () end.
Definition into_status (r : Result () SgxError) : N :=
  match r with Ok () => 0%N | Err e => se_inner e end.

Lemma into_status_result status : into_status (into_result status) = status.
Proof. unfold into_result, SgxError_try_from. by destruct (N.eqb_spec status 0) as [->|]. Qed.

(** ** [sgx-utils]: slices as call parameters *)

Definition Ptr (T : Type) : Type := option (list T).

(** A length other than zero needs a pointer that is not null. *)
Definition call_param_to_slice {T} (data : Ptr T) (len : N) : Outcome (list T) :=
  if (len =? 0)%N then Val []
  else match data with None => Panic | Some memory => Val (take (N.to_nat len) memory) end.

Definition call_param_to_ptr {T} (slice : list T) : Ptr T * N :=
  match slice with [] => (None, 0%N) | _ => (Some slice, N.of_nat (length slice)) end.

Lemma call_param_roundtrip {T} (slice : list T) :
  call_param_to_slice (call_param_to_ptr slice).1 (call_param_to_ptr slice).2 = Val slice.
Proof.
  destruct slice as [|x slice]; [done|]. unfold call_param_to_slice. cbn [call_param_to_ptr fst snd].
  rewrite (proj2 (N.eqb_neq _ _)) by (cbn [length]; lia). by rewrite Nat2N.id, firstn_all.
Qed.

(** What the host passes is what the enclave reads. *)
Lemma with_slice {A S} (slice : list N) (k : list N -> St S A) s :
  (x ← lift (call_param_to_slice (call_param_to_ptr slice).1 (call_param_to_ptr slice).2); k x) s = k slice s.
Proof. by erewrite st_bind_Val by (apply lift_Val, call_param_roundtrip). Qed.

(** ** [enclave-result]: results as bytes

    [impl_error_and_result!] declares an enumeration of errors and one of results,
    [Ok] and then the errors in the same order; the discriminant crosses the
    boundary. *)

Section repr.
  Context {E : Type} `{Finite E}.

Definition result_repr (r : Result () E) : N :=
  match r with
  | Ok () => 0%N
  | Err e => N.of_nat (S (from_option fst 0 (list_find (e =.) (enum E))))
  end.

Definition from_repr (n : N) : option (Result () E) :=
  if (n =? 0)%N then Some (Ok ()) else Err <$> enum E !! pred (N.to_nat n).

Lemma from_repr_result r : from_repr (result_repr r) = Some r.
Proof.
  destruct r as [[]|e]; [done|]. unfold from_repr, result_repr.
  destruct (list_find_elem_of (e =.) (enum E) e) as [[i e'] Hf]; [apply elem_of_enum|done|].
  rewrite Hf. apply list_find_Some in Hf as (Hi & <- & _). cbn [from_option fst].
  rewrite (proj2 (N.eqb_neq _ _)) by lia. rewrite Nat2N.id. cbn [pred]. by rewrite Hi.
Qed.
End repr.

(** ** The runtime *)

(** [sgx_create]: the error of creating the enclave, if any; [sgx_refuses k]: the
    error with which the runtime refuses the [k]-th call without entering the
    enclave; [sgx_crashed]: the status of a call in which the enclave aborted and
    of every later one. *)
Class SgxRuntime := {
  sgx_create : option SgxError;
  sgx_refuses : nat -> option SgxError;
  sgx_crashed : SgxError;
}.

Record SgxEnclave (S : Type) := mkSgxEnclave { sg_state : S; sg_crashed : bool; sg_calls : nat }.
Arguments mkSgxEnclave {S} _ _ _.
Arguments sg_state {S} _.
Arguments sg_crashed {S} _.
Arguments sg_calls {S} _.

Section ecall.
  Context `{SgxRuntime} {S : Type}.

(** A panic of the enclave's code aborts the enclave, not the host. *)
Definition ecall {A} (body : St S A) (e : SgxEnclave S) : Outcome (Result A SgxError * SgxEnclave S) :=
  if sg_crashed e then Val (Err sgx_crashed, e)
  else match sgx_refuses (sg_calls e) with
  | Some error => Val (Err error, mkSgxEnclave (sg_state e) false (1 + sg_calls e))
  | None =>
      match body (sg_state e) with
      | Val (a, s) => Val (Ok a, mkSgxEnclave s false (1 + sg_calls e))
      | Panic => Val (Err sgx_crashed, mkSgxEnclave (sg_state e) true (1 + sg_calls e))
      | NoFuel => NoFuel
      end
  end.

(** [enclave_fn!]: the status first, then the byte, which must be one of the results. *)
Definition enclave_fn {E A} `{Finite E} (body : St S (N * A)) (e : SgxEnclave S)
    : Outcome (Result (Result () E * A) SgxError * SgxEnclave S) :=
  r ← ecall body e;
  match r.1 with
  | Err error => Val (Err error, r.2)
  | Ok (ret_val, a) => res ← unwrap (from_repr ret_val); Val (Ok (res, a), r.2)
  end.

(** The enclave's side of the convention. *)
Definition returns {E A} `{Finite E} (m : St S (Result () E * A)) : St S (N * A) :=
  r ← m; mret (result_repr r.1, r.2).

(** Both sides together: the result of the enclave, or an error of the runtime. *)
Lemma enclave_fn_returns {E A} `{Finite E} (m : St S (Result () E * A)) e :
  enclave_fn (returns m) e = ecall m e.
Proof.
  unfold enclave_fn, ecall, returns, mbind, Outcome_bind, St_bind. destruct (sg_crashed e); [done|].
  destruct (sgx_refuses _); [done|]. destruct (m (sg_state e)) as [[[r a] s]| |]; [|done..].
  cbn. by rewrite from_repr_result.
Qed.

Lemma ecall_fuel {A} (m : St S A) e : (forall s, m s <> NoFuel) -> ecall m e <> NoFuel.
Proof.
  unfold ecall. intros Hm. destruct (sg_crashed e); [done|]. destruct (sgx_refuses _); [done|].
  specialize (Hm (sg_state e)). by destruct (m (sg_state e)) as [[]| |].
Qed.

(** The state after a call is the one before, or the one the enclave's code left. *)
Lemma ecall_inv {A} (m : St S A) e r e' :
  ecall m e = Val (r, e') ->
  (exists error, r = Err error /\ sg_state e' = sg_state e)
  \/ (exists a, r = Ok a /\ m (sg_state e) = Val (a, sg_state e')).
Proof.
  unfold ecall. destruct (sg_crashed e); [intros [= <- <-]; left; eauto|].
  destruct (sgx_refuses _); [intros [= <- <-]; left; eauto|].
  destruct (m (sg_state e)) as [[a s]| |]; intros [= <- <-]; [right|left]; eauto.
Qed.

(** Any sequence of calls a host can make, with everything it is handed. *)
Fixpoint session {C O} (body : C -> St S (option O)) (cs : list C) (e : SgxEnclave S) : Outcome (list O * SgxEnclave S) :=
  match cs with
  | [] => Val ([], e)
  | c :: cs =>
      r ← ecall (body c) e;
      rs ← session body cs r.2;
      Val (match r.1 with Ok (Some o) => o :: rs.1 | _ => rs.1 end, rs.2)
  end.
End ecall.

(** The two results of a call: the runtime's and the function's. *)
Definition both_results {A} (r : Result (N * A) SgxError) : Result A SgxError :=
  match r with
  | Err e => Err e
  | Ok (retval, a) => match into_result retval with Err e => Err e | Ok () => Ok a end
  end.

(** ** Buffers

    The caller provides a buffer; the enclave refuses if its result is longer,
    and otherwise copies it to the front and sets the length. *)

Definition write_out {E} (data buffer : list N) (len : nat) (too_small : E) : Result () E * (list N * nat) :=
  if (length buffer <? length data) then (Err too_small, (buffer, len))
  else (Ok (), (data ++ drop (length data) buffer, length data)).

Lemma write_out_take {E} (data buffer : list N) len (too_small : E) :
  length data <= length buffer ->
  write_out data buffer len too_small = (Ok (), (data ++ drop (length data) buffer, length data))
  /\ take (length data) (data ++ drop (length data) buffer) = data.
Proof.
  intros Hl. unfold write_out. rewrite (proj2 (Nat.ltb_ge _ _)) by done. split; [done|]. by rewrite take_app_length.
Qed.

(** ** [bincode] *)

Class Bincode (T : Type) := {
  bincode_serialize : T -> list N;
  bincode_deserialize : list N -> option T;
}.
Class BincodeLaws (T : Type) `{Bincode T} : Prop := {
  bincode_roundtrip : forall x, bincode_deserialize (bincode_serialize x) = Some x;
}.

(** ** [remote-attestation-shared]: keys and signatures *)

(** [Ec256Signature] is two arrays of eight [u32]; [RawSignature] its 64 bytes. *)
Record Ec256Signature := mkEc256Signature { es_x : list N; es_y : list N }.
Record RawSignature := mkRawSignature { rs_xy : list N }.
(** [Ec256PublicKey] and [PubKey] have the same fields. *)
Record PubKey := mkPubKey { pk_gx : list N; pk_gy : list N }.
#[export] Instance RawSignature_eq_dec : EqDecision RawSignature.
Proof. solve_decision. Defined.
#[export] Instance PubKey_eq_dec : EqDecision PubKey.
Proof. solve_decision. Defined.

Definition RawSignature_from (sig : Ec256Signature) : RawSignature :=
  mkRawSignature (concat (le_bytes 4 <$> es_x sig ++ es_y sig)).

(** [u32_from_u8_array!] *)
Definition u32_from_u8_array (xy : list N) : N * list N := (of_le_bytes (take 4 xy), drop 4 xy).
(** [u32_array_from_u8_array!], which takes eight. *)
Fixpoint u32_array_from_u8_array (k : nat) (xy : list N) : list N * list N :=
  match k with
  | O => ([], xy)
  | S k =>
      let '(a, xy) := u32_from_u8_array xy in
      let '(l, xy) := u32_array_from_u8_array k xy in (a :: l, xy)
  end.

Definition Ec256Signature_from (sig : RawSignature) : Ec256Signature :=
  let '(x, y) := u32_array_from_u8_array 8 (rs_xy sig) in
  mkEc256Signature x (u32_array_from_u8_array 8 y).1.

Definition PubKey_as_bytes_for_cert (k : PubKey) : list N := reverse (pk_gx k) ++ reverse (pk_gy k).

Definition Ec256Signature_wf (s : Ec256Signature) : Prop :=
  length (es_x s) = 8 /\ length (es_y s) = 8 /\ Forall (fun a => a < 2 ^ 32)%N (es_x s ++ es_y s).

Lemma u32_array_of_bytes (l rest : list N) :
  Forall (fun a => a < 2 ^ 32)%N l ->
  u32_array_from_u8_array (length l) (concat (le_bytes 4 <$> l) ++ rest) = (l, rest).
Proof.
  induction 1 as [|a l Ha Hl IH]; [done|]. cbn [fmap list_fmap concat length u32_array_from_u8_array u32_from_u8_array].
  rewrite <-app_assoc. rewrite take_app_length' by (symmetry; apply length_le_bytes). rewrite drop_app_length' by (symmetry; apply length_le_bytes).
  change (concat (list_fmap _ _ (le_bytes 4) l)) with (concat (le_bytes 4 <$> l)). rewrite IH, of_le_bytes_le_bytes.
  by rewrite N.mod_small by (change (256 ^ N.of_nat 4)%N with (2 ^ 32)%N; lia).
Qed.

(** A signature survives the conversion to bytes and back. *)
Lemma Ec256Signature_roundtrip s : Ec256Signature_wf s -> Ec256Signature_from (RawSignature_from s) = s.
Proof.
  destruct s as [x y]. intros (Hx & Hy & [Hfx Hfy]%list.Forall_app). cbn in Hx, Hy, Hfx, Hfy.
  unfold Ec256Signature_from, RawSignature_from. cbn [rs_xy es_x es_y].
  pose proof (u32_array_of_bytes x (concat (le_bytes 4 <$> y)) Hfx) as H1.
  pose proof (u32_array_of_bytes y [] Hfy) as H2. rewrite Hx in H1. rewrite Hy, app_nil_r in H2.
  by rewrite fmap_app, concat_app, H1, H2.
Qed.

(** ** [sgx_crypto]: key pairs

    The library on keys it accepts, for which signing and verifying do not fail:
    Damysus and MinBFT unwrap its results.  NxBFT, which handles its errors, has a
    class of its own ([NxCrypto]). *)
Class Ecc := {
  KeyPair : Type;
  kp_public_key : KeyPair -> PubKey;
  kp_sign : KeyPair -> list N -> Ec256Signature;
  ec_verify : PubKey -> list N -> Ec256Signature -> bool;
}.
Class EccLaws `{Ecc} : Prop := {
  kp_sign_wf : forall k m, Ec256Signature_wf (kp_sign k m);
  ec_correct : forall k m, ec_verify (kp_public_key k) m (kp_sign k m) = true;
}.
