(* ===== verification/SgxExamples.v ===== *)
(** * A concrete SGX boundary

    A serializer with its round trip, a runtime that lets every call through and a
    stand-in for the signatures: the parameters at which theorems about the
    trusted components are evaluated. *)

From Stdlib Require Import ZArith Lia.
From stdpp Require Import base list numbers option.
From S2P Require Import Prelude Ids Heaps DamBase Sgx.

(** ** A serializer

    A codec writes a value in front of a list and reads it back. *)

Class Codec (T : Type) := {
  enc : T -> list N;
  dec : list N -> option (T * list N);
}.
Class CodecLaws (T : Type) `{Codec T} : Prop := {
  dec_enc : forall x r, dec (enc x ++ r) = Some (x, r);
}.

#[export] Instance N_codec : Codec N := {| enc := fun n => [n]; dec := fun l => match l with n :: r => Some (n, r) | [] => None end |}.
#[export] Instance N_codec_laws : CodecLaws N.
Proof. done. Qed.

Section list.
  Context `{CodecLaws T}.

Fixpoint dec_list (k : nat) (l : list N) : option (list T * list N) :=
  match k with
  | O => Some ([], l)
  | S k => '(x, l) ← dec l; '(xs, l) ← dec_list k l; Some (x :: xs, l)
  end.
#[export] Instance list_codec : Codec (list T) := {|
  enc := fun l => N.of_nat (length l) :: concat (enc <$> l);
  dec := fun l => match l with k :: l => dec_list (N.to_nat k) l | [] => None end;
|}.
#[export] Instance list_codec_laws : CodecLaws (list T).
Proof.
  split. intros x r. cbn. rewrite Nat2N.id. induction x as [|y x IH]; [done|].
  cbn [length dec_list fmap list_fmap concat]. rewrite <-app_assoc, dec_enc. cbn [mbind option_bind].
  change (list_fmap _ _ enc x) with (enc <$> x). by rewrite IH.
Qed.
End list.

#[export] Instance prod_codec `{Codec A, Codec B} : Codec (A * B) := {|
  enc := fun x => enc x.1 ++ enc x.2;
  dec := fun l => '(a, l) ← dec l; '(b, l) ← dec l; Some ((a, b), l);
|}.
#[export] Instance prod_codec_laws `{CodecLaws A, CodecLaws B} : CodecLaws (A * B).
Proof.
  split. intros [a b] r. cbn [enc dec prod_codec fst snd]. rewrite <-app_assoc, dec_enc. cbn [mbind option_bind].
  by rewrite dec_enc.
Qed.

(** A type whose values are written as those of another. *)
Definition iso_codec {T U} `{Codec U} (f : T -> U) (g : U -> option T) : Codec T := {|
  enc := fun x => enc (f x);
  dec := fun l => '(u, l) ← dec l; x ← g u; Some (x, l);
|}.
Lemma iso_codec_laws {T U} `{CodecLaws U} (f : T -> U) (g : U -> option T) :
  (forall x, g (f x) = Some x) -> @CodecLaws T (iso_codec f g).
Proof. intros Hg. split. intros x r. cbn [enc dec iso_codec]. rewrite dec_enc. cbn [mbind option_bind]. by rewrite Hg. Qed.

#[export] Instance codec_bincode `{Codec T} : Bincode T := {|
  bincode_serialize := enc;
  bincode_deserialize := fun l => match dec l with Some (x, []) => Some x | _ => None end;
|}.
#[export] Instance codec_bincode_laws `{CodecLaws T} : BincodeLaws T.
Proof. split. intros x. cbn. rewrite <-(app_nil_r (enc x)). by rewrite dec_enc. Qed.

(** ** The values of Damysus *)

#[export] Instance RawSignature_codec : Codec RawSignature := iso_codec rs_xy (fun l => Some (mkRawSignature l)).
#[export] Instance RawSignature_codec_laws : CodecLaws RawSignature.
Proof. apply iso_codec_laws. by intros []. Qed.

Definition commitment_tuple (c : Commitment) : N * (N * (N * (list N * (N * (list N * (N * N)))))) :=
  (cm_creator c, (cm_view c, (cm_prepared_block_view c, (cm_prepared_block_hash c, (cm_block_view c, (cm_block_hash c,
    (match cm_phase c with NewView => 0%N | Prepare => 1%N end, match cm_type c with Accumulator => 0%N | Usig => 1%N end))))))).
Definition tuple_commitment (x : N * (N * (N * (list N * (N * (list N * (N * N))))))) : option Commitment :=
  let '(a, (b, (c, (d, (e, (f, (g, h))))))) := x in
  Some (mkCommitment a b c d e f (if (g =? 0)%N then NewView else Prepare) (if (h =? 0)%N then Accumulator else Usig)).
#[export] Instance Commitment_codec : Codec Commitment := iso_codec commitment_tuple tuple_commitment.
#[export] Instance Commitment_codec_laws : CodecLaws Commitment.
Proof. apply iso_codec_laws. by intros [? ? ? ? ? ? [] []]. Qed.

#[export] Instance SC_codec : Codec (SignedCommitment RawSignature) :=
  iso_codec (fun c => (sc_commitment c, sc_signature c)) (fun x => Some (SignedCommitment_new x.1 x.2)).
#[export] Instance SC_codec_laws : CodecLaws (SignedCommitment RawSignature).
Proof. apply iso_codec_laws. by intros []. Qed.

#[export] Instance Justification_codec : Codec (Justification RawSignature) :=
  iso_codec (fun j => match j with Genesis => [] | Quorum c => [c] end)
    (fun l => match l with [] => Some Genesis | [c] => Some (Quorum c) | _ => None end).
#[export] Instance Justification_codec_laws : CodecLaws (Justification RawSignature).
Proof. apply iso_codec_laws. by intros []. Qed.

#[export] Instance Parent_codec : Codec Parent :=
  iso_codec (fun p => match p with Parent_None => [] | Parent_Some h => [h] end)
    (fun l => match l with [] => Some Parent_None | [h] => Some (Parent_Some h) | _ => None end).
#[export] Instance Parent_codec_laws : CodecLaws Parent.
Proof. apply iso_codec_laws. by intros []. Qed.

(** ** A runtime and keys *)

#[export] Instance sx_runtime : SgxRuntime := {|
  sgx_create := None;
  sgx_refuses := fun _ => None;
  sgx_crashed := mkSgxError 4102;
|}.

(** A key pair is a number, which its signatures repeat. *)
#[export] Instance sx_ecc : Ecc := {|
  KeyPair := N;
  kp_public_key := fun k => mkPubKey [(k mod 2 ^ 32)%N] [];
  kp_sign := fun k _ => mkEc256Signature (replicate 8 (k mod 2 ^ 32)%N) (replicate 8 0%N);
  ec_verify := fun k _ s => bool_decide (replicate 8 <$> head (pk_gx k) = Some (es_x s));
|}.
#[export] Instance sx_ecc_laws : EccLaws.
Proof.
  split; intros k m; [|by apply bool_decide_eq_true]. split; [done|]. split; [done|]. apply list.Forall_app.
  split; apply Forall_replicate; [|lia]. apply N.mod_lt. lia.
Qed.
