(* ===== verification/DamTee.v ===== *)
(** * Damysus: the enclave in SGX

    Models [src/atomic-broadcast/damysus/damysus-tee-enclave] (the code in the
    enclave), [damysus-tee-shared] (the errors that cross its boundary) and
    [damysus-tee] (the host's side, a [DamEnclave] like [NoopEnclave]).

    [created] is what [EcKeyPair::create] returns. *)

From Stdlib Require Import ZArith Lia.
From stdpp Require Import base list numbers option finite.
From S2P Require Import Prelude Triple Ids Heaps DamBase DamEnclave DamEnclaveFacts Sgx.

(** ** [damysus-tee-shared] *)

Inductive MyPlatformError := InvalidPeerId.

Inductive InitError := IE_AlreadyInitialized.
Inductive GetPublicKeyError := GE_NotInitialized.
Inductive AddPeerError := AP_InvalidPeerId | AP_NotInitialized | AP_DoubleKeyReceived.
Inductive AccumulateError :=
| AC_Bincode | AC_EnclaveError | AC_InvalidPeerId | AC_NotInitialized | AC_WrongBlockHashLength
| AC_SignedCommitmentBufferToSmall.
Inductive PrepareError :=
| PE_Bincode | PE_EnclaveError | PE_InvalidPeerId | PE_NotInitialized | PE_WrongBlockHashLength
| PE_SignedCommitmentBufferToSmall.
Inductive ReSignLastPrepareError :=
| RE_Bincode | RE_EnclaveError | RE_InvalidPeerId | RE_NotInitialized | RE_SignedCommitmentBufferToSmall.

#[export] Instance InitError_eq_dec : EqDecision InitError.
Proof. solve_decision. Defined.
#[export] Instance GetPublicKeyError_eq_dec : EqDecision GetPublicKeyError.
Proof. solve_decision. Defined.
#[export] Instance AddPeerError_eq_dec : EqDecision AddPeerError.
Proof. solve_decision. Defined.
#[export] Instance AccumulateError_eq_dec : EqDecision AccumulateError.
Proof. solve_decision. Defined.
#[export] Instance PrepareError_eq_dec : EqDecision PrepareError.
Proof. solve_decision. Defined.
#[export] Instance ReSignLastPrepareError_eq_dec : EqDecision ReSignLastPrepareError.
Proof. solve_decision. Defined.

#[local] Ltac solve_finite := first [apply (bool_decide_unpack _); vm_compute; exact I | intros []; apply (bool_decide_unpack _); vm_compute; exact I].
#[export, refine] Instance InitError_finite : Finite InitError := {| enum := [IE_AlreadyInitialized] |}.
Proof. all: solve_finite. Defined.
#[export, refine] Instance GetPublicKeyError_finite : Finite GetPublicKeyError := {| enum := [GE_NotInitialized] |}.
Proof. all: solve_finite. Defined.
#[export, refine] Instance AddPeerError_finite : Finite AddPeerError :=
  {| enum := [AP_InvalidPeerId; AP_NotInitialized; AP_DoubleKeyReceived] |}.
Proof. all: solve_finite. Defined.
#[export, refine] Instance AccumulateError_finite : Finite AccumulateError :=
  {| enum := [AC_Bincode; AC_EnclaveError; AC_InvalidPeerId; AC_NotInitialized; AC_WrongBlockHashLength;
              AC_SignedCommitmentBufferToSmall] |}.
Proof. all: solve_finite. Defined.
#[export, refine] Instance PrepareError_finite : Finite PrepareError :=
  {| enum := [PE_Bincode; PE_EnclaveError; PE_InvalidPeerId; PE_NotInitialized; PE_WrongBlockHashLength;
              PE_SignedCommitmentBufferToSmall] |}.
Proof. all: solve_finite. Defined.
#[export, refine] Instance ReSignLastPrepareError_finite : Finite ReSignLastPrepareError :=
  {| enum := [RE_Bincode; RE_EnclaveError; RE_InvalidPeerId; RE_NotInitialized; RE_SignedCommitmentBufferToSmall] |}.
Proof. all: solve_finite. Defined.

(** [From<EnclaveError<MyPlatformError>>] *)
Definition AccumulateError_from (e : DamEnclaveError MyPlatformError) : AccumulateError :=
  match e with PlatformError InvalidPeerId => AC_InvalidPeerId | _ => AC_EnclaveError end.
Definition PrepareError_from (e : DamEnclaveError MyPlatformError) : PrepareError :=
  match e with PlatformError InvalidPeerId => PE_InvalidPeerId | _ => PE_EnclaveError end.
Definition ReSignLastPrepareError_from (e : DamEnclaveError MyPlatformError) : ReSignLastPrepareError :=
  match e with PlatformError InvalidPeerId => RE_InvalidPeerId | _ => RE_EnclaveError end.

Section tee.
  Context {P : Profile} {B : Type} `{BitSet B} `{Digests} `{Ecc} `{SgxRuntime}.
  Context `{Bincode (SignedCommitment RawSignature)} `{Bincode (list (SignedCommitment RawSignature))}.
  Context `{Bincode (Justification RawSignature)} `{Bincode Parent}.
  Context (created : option KeyPair).
  Local Abbreviation SC := (SignedCommitment RawSignature).

(** ** [damysus-tee-enclave]: the code in the enclave *)

Record EnclaveTrustedImpl := mkTrustedImpl { ti_key_pair : KeyPair; ti_pub_keys : list (option PubKey); ti_n : N }.

(** The map of keys has [n] entries, so the index is in its range. *)
#[export] Instance EnclaveTrustedImpl_trusted : DamEnclaveTrusted EnclaveTrustedImpl := {|
  dt_Signature := RawSignature;
  dt_PlatformError := MyPlatformError;
  dt_sig_bytes := rs_xy;
  dt_sign := fun t hash => Ok (RawSignature_from (kp_sign (ti_key_pair t) hash));
  dt_verify := fun t creator hash signature =>
    if (ti_n t <=? creator)%N then Err (PlatformError InvalidPeerId)
    else match mjoin (nth_u64 (ti_pub_keys t) creator) with
         | None => Err (PlatformError InvalidPeerId)
         | Some pub_key => Ok (ec_verify pub_key hash (Ec256Signature_from signature))
         end;
|}.

Inductive SharedState := Uninitialized | Initialized (state : DamAutomata EnclaveTrustedImpl).

(** [InitializedState::new] *)
Definition InitializedState_new (me n quorum : N) : Outcome (DamAutomata EnclaveTrustedImpl) :=
  key_pair ← unwrap created;
  Val (DamAutomata_new me n quorum (mkTrustedImpl key_pair (IdMap_new None n) n)).

Definition InitializedState_get_public_key (a : DamAutomata EnclaveTrustedImpl) : PubKey :=
  kp_public_key (ti_key_pair (da_enclave a)).

Definition InitializedState_add_peer (a : DamAutomata EnclaveTrustedImpl) (id : N) (key : PubKey)
    : Outcome (Result () AddPeerError * DamAutomata EnclaveTrustedImpl) :=
  let t := da_enclave a in
  if (ti_n t <=? id)%N then Val (Err AP_InvalidPeerId, a)
  else
    entry ← IdMap_index (ti_pub_keys t) id;
    match entry with
    | Some _ => Val (Err AP_DoubleKeyReceived, a)
    | None =>
        pub_keys ← IdMap_index_mut (ti_pub_keys t) id (Some key);
        Val (Ok (), a.[da_enclave := mkTrustedImpl (ti_key_pair t) pub_keys (ti_n t)])
    end.

Definition init_safe (me n quorum : N) : St SharedState (Result () InitError * ()) := fun s =>
  match s with
  | Initialized _ => Val ((Err IE_AlreadyInitialized, ()), s)
  | Uninitialized => a ← InitializedState_new me n quorum; Val ((Ok (), ()), Initialized a)
  end.

(** [pub_key] is the buffer of the caller, which is written on success. *)
Definition get_public_key_safe (pub_key : PubKey) : St SharedState (Result () GetPublicKeyError * PubKey) := fun s =>
  match s with
  | Uninitialized => Val ((Err GE_NotInitialized, pub_key), s)
  | Initialized a => Val ((Ok (), InitializedState_get_public_key a), s)
  end.

Definition add_peer_safe (id : N) (pub_key : PubKey) : St SharedState (Result () AddPeerError * ()) := fun s =>
  match s with
  | Uninitialized => Val ((Err AP_NotInitialized, ()), s)
  | Initialized a => r ← InitializedState_add_peer a id pub_key; Val ((r.1, ()), Initialized r.2)
  end.

(** The end of the calls that return a commitment: its bytes are written to the
    buffer [out] of the caller. *)
Definition emit {E} (from : DamEnclaveError MyPlatformError -> E) (not_initialized too_small : E)
    (call : DamAutomata EnclaveTrustedImpl -> Outcome (Result SC (DamEnclaveError MyPlatformError) * DamAutomata EnclaveTrustedImpl))
    (out : list N) (out_len : nat) : St SharedState (Result () E * (list N * nat)) := fun s =>
  match s with
  | Uninitialized => Val ((Err not_initialized, (out, out_len)), s)
  | Initialized a =>
      r ← call a;
      match r.1 with
      | Err e => Val ((Err (from e), (out, out_len)), Initialized r.2)
      | Ok sc => Val (write_out (bincode_serialize sc) out out_len too_small, Initialized r.2)
      end
  end.

Definition accumulate_safe (commitments out : list N) (out_len : nat)
    : St SharedState (Result () AccumulateError * (list N * nat)) :=
  match bincode_deserialize (T := list SC) commitments with
  | None => mret (Err AC_Bincode, (out, out_len))
  | Some commitments =>
      emit AccumulateError_from AC_NotInitialized AC_SignedCommitmentBufferToSmall
        (fun a => DamAutomata_accumulate (B := B) (Enc := EnclaveTrustedImpl) a commitments) out out_len
  end.

(** [<[u8; 32]>::try_from] *)
Definition try_into_hash (bytes : list N) : option BlockHash := if length bytes =? 32 then Some bytes else None.

Definition prepare_safe (block_view : N) (block_hash block_justification block_parent justification_block_hash out : list N)
    (out_len : nat) : St SharedState (Result () PrepareError * (list N * nat)) :=
  match try_into_hash block_hash with
  | None => mret (Err PE_WrongBlockHashLength, (out, out_len))
  | Some block_hash =>
  match bincode_deserialize (T := Justification RawSignature) block_justification with
  | None => mret (Err PE_Bincode, (out, out_len))
  | Some block_justification =>
  match bincode_deserialize (T := Parent) block_parent with
  | None => mret (Err PE_Bincode, (out, out_len))
  | Some block_parent =>
  match try_into_hash justification_block_hash with
  | None => mret (Err PE_WrongBlockHashLength, (out, out_len))
  | Some justification_block_hash =>
      emit PrepareError_from PE_NotInitialized PE_SignedCommitmentBufferToSmall
        (fun a => DamAutomata_prepare (Enc := EnclaveTrustedImpl) a block_view block_hash block_justification block_parent justification_block_hash)
        out out_len
  end end end end.

Definition re_sign_last_prepared_safe (out : list N) (out_len : nat)
    : St SharedState (Result () ReSignLastPrepareError * (list N * nat)) :=
  emit ReSignLastPrepareError_from RE_NotInitialized RE_SignedCommitmentBufferToSmall
    (DamAutomata_re_sign_last_prepared (Enc := EnclaveTrustedImpl)) out out_len.

(** *** The functions the enclave exports *)

Definition ecall_init (me n quorum : N) : St SharedState (N * ()) := returns (init_safe me n quorum).
Definition ecall_get_public_key (pub_key : PubKey) : St SharedState (N * PubKey) := returns (get_public_key_safe pub_key).
Definition ecall_add_peer (id : N) (pub_key : PubKey) : St SharedState (N * ()) := returns (add_peer_safe id pub_key).

Definition ecall_accumulate (commitments : Ptr N * N) (signed_commitment : Ptr N * N) (signed_commitment_len : nat)
    : St SharedState (N * (list N * nat)) :=
  commitments ← lift (call_param_to_slice commitments.1 commitments.2);
  signed_commitment ← lift (call_param_to_slice signed_commitment.1 signed_commitment.2);
  returns (accumulate_safe commitments signed_commitment signed_commitment_len).

Definition ecall_prepare (block_view : N)
    (block_hash block_justification block_parent justification_block_hash signed_commitment : Ptr N * N)
    (signed_commitment_len : nat) : St SharedState (N * (list N * nat)) :=
  block_hash ← lift (call_param_to_slice block_hash.1 block_hash.2);
  block_justification ← lift (call_param_to_slice block_justification.1 block_justification.2);
  block_parent ← lift (call_param_to_slice block_parent.1 block_parent.2);
  justification_block_hash ← lift (call_param_to_slice justification_block_hash.1 justification_block_hash.2);
  signed_commitment ← lift (call_param_to_slice signed_commitment.1 signed_commitment.2);
  returns (prepare_safe block_view block_hash block_justification block_parent justification_block_hash
             signed_commitment signed_commitment_len).

Definition ecall_re_sign_last_prepared (signed_commitment : Ptr N * N) (signed_commitment_len : nat)
    : St SharedState (N * (list N * nat)) :=
  signed_commitment ← lift (call_param_to_slice signed_commitment.1 signed_commitment.2);
  returns (re_sign_last_prepared_safe signed_commitment signed_commitment_len).

(** ** [damysus-tee]: the host *)

Inductive MyError :=
| ME_Sgx (e : SgxError)
| ME_GetPublicKey (e : GetPublicKeyError)
| ME_AddPeer (e : AddPeerError)
| ME_Accumulate (e : AccumulateError)
| ME_Prepare (e : PrepareError)
| ME_ReSignLastPrepare (e : ReSignLastPrepareError)
| ME_Bincode.

Local Abbreviation Enclave := (SgxEnclave SharedState).

(** A call with a buffer for its result, of which [*_len] bytes are kept. *)
Definition call_with_buffer {E} `{Finite E} (call : Ptr N * N -> nat -> St SharedState (N * (list N * nat))) (max_len : nat)
    (e : Enclave) : Outcome (Result (Result (list N) E) SgxError * Enclave) :=
  r ← enclave_fn (E := E) (call (call_param_to_ptr (replicate max_len 0%N)) 0) e;
  Val (match r.1 with
       | Err error => Err error
       | Ok (Err error, _) => Ok (Err error)
       | Ok (Ok (), (buffer, len)) => Ok (Ok (take len buffer))
       end, r.2).

Definition DamysusEnclave_accumulate (commitments : list N) (max_len : nat) (e : Enclave)
    : Outcome (Result (Result (list N) AccumulateError) SgxError * Enclave) :=
  call_with_buffer (fun buffer len => ecall_accumulate (call_param_to_ptr commitments) buffer len) max_len e.

Definition DamysusEnclave_prepare (block_view : N)
    (block_hash block_justification block_parent justification_block_hash : list N) (max_len : nat) (e : Enclave)
    : Outcome (Result (Result (list N) PrepareError) SgxError * Enclave) :=
  call_with_buffer (fun buffer len =>
    ecall_prepare block_view (call_param_to_ptr block_hash) (call_param_to_ptr block_justification)
      (call_param_to_ptr block_parent) (call_param_to_ptr justification_block_hash) buffer len) max_len e.

Definition DamysusEnclave_re_sign_last_prepared (max_len : nat) (e : Enclave)
    : Outcome (Result (Result (list N) ReSignLastPrepareError) SgxError * Enclave) :=
  call_with_buffer ecall_re_sign_last_prepared max_len e.

Record DamysusTEE := mkDamysusTEE { te_enclave : Enclave; te_pub_keys : list (option PubKey); te_my_pub_key : PubKey }.

(** [DamysusEnclave::new] *)
Definition DamysusEnclave_new : Outcome Enclave :=
  match sgx_create with Some _ => Panic | None => Val (mkSgxEnclave Uninitialized false 0) end.

(** [Ec256PublicKey::default] *)
Definition PubKey_default : PubKey := mkPubKey (replicate 32 0%N) (replicate 32 0%N).

(** [r.unwrap().unwrap()] *)
Definition unwrap_twice {A E E'} (r : Result (Result () E * A) E') : Outcome A :=
  match r with Ok (Ok (), a) => Val a | _ => Panic end.

Definition DamysusTEE_new (me n quorum : N) : Outcome DamysusTEE :=
  enclave ← DamysusEnclave_new;
  r ← enclave_fn (E := InitError) (ecall_init me n quorum) enclave;
  unwrap_twice r.1 ;;
  r ← enclave_fn (E := GetPublicKeyError) (ecall_get_public_key PubKey_default) r.2;
  my_pub_key ← unwrap_twice r.1;
  pub_keys ← IdMap_index_mut (IdMap_new None n) me (Some my_pub_key);
  Val (mkDamysusTEE r.2 pub_keys my_pub_key).

Definition DamysusTEE_add_peer (t : DamysusTEE) (id : N) (key : PubKey)
    : Outcome (Result () (DamEnclaveError MyError) * DamysusTEE) :=
  r ← enclave_fn (E := AddPeerError) (ecall_add_peer id key) (te_enclave t);
  let t := mkDamysusTEE r.2 (te_pub_keys t) (te_my_pub_key t) in
  match r.1 with
  | Err e => Val (Err (PlatformError (ME_Sgx e)), t)
  | Ok (Err e, _) => Val (Err (PlatformError (ME_AddPeer e)), t)
  | Ok (Ok (), _) =>
      pub_keys ← IdMap_index_mut (te_pub_keys t) id (Some key);
      Val (Ok (), mkDamysusTEE (te_enclave t) pub_keys (te_my_pub_key t))
  end.

(** The end of the calls that return a commitment. *)
Definition receive {E} (wrap : E -> MyError) (t : DamysusTEE)
    (r : Result (Result (list N) E) SgxError * Enclave) : Result SC (DamEnclaveError MyError) * DamysusTEE :=
  (match r.1 with
   | Err e => Err (PlatformError (ME_Sgx e))
   | Ok (Err e) => Err (PlatformError (wrap e))
   | Ok (Ok bytes) =>
       match bincode_deserialize bytes with
       | Some signed_commitment => Ok signed_commitment
       | None => Err (PlatformError ME_Bincode)
       end
   end, mkDamysusTEE r.2 (te_pub_keys t) (te_my_pub_key t)).

Definition DamysusTEE_accumulate (t : DamysusTEE) (commitments : list SC)
    : Outcome (Result SC (DamEnclaveError MyError) * DamysusTEE) :=
  r ← DamysusEnclave_accumulate (bincode_serialize commitments) 4096 (te_enclave t);
  Val (receive ME_Accumulate t r).

Definition DamysusTEE_prepare (t : DamysusTEE) (block_view : N) (block_hash : BlockHash)
    (block_justification : Justification RawSignature) (block_parent : Parent) (justification_block_hash : BlockHash)
    : Outcome (Result SC (DamEnclaveError MyError) * DamysusTEE) :=
  r ← DamysusEnclave_prepare block_view block_hash (bincode_serialize block_justification)
        (bincode_serialize block_parent) justification_block_hash 4096 (te_enclave t);
  Val (receive ME_Prepare t r).

Definition DamysusTEE_re_sign_last_prepared (t : DamysusTEE) : Outcome (Result SC (DamEnclaveError MyError) * DamysusTEE) :=
  r ← DamysusEnclave_re_sign_last_prepared 4096 (te_enclave t);
  Val (receive ME_ReSignLastPrepare t r).

Definition DamysusTEE_verify_untrusted (t : DamysusTEE) (creator : N) (hash : CommitmentHash) (signature : RawSignature)
    : Outcome bool :=
  entry ← IdMap_index (te_pub_keys t) creator;
  pub_key ← unwrap entry;
  Val (ec_verify pub_key hash (Ec256Signature_from signature)).

#[export] Instance DamysusTEE_impl : DamEnclave DamysusTEE := {|
  de_PublicKey := PubKey;
  de_Signature := RawSignature;
  de_PlatformError := MyError;
  de_sig_bytes := rs_xy;
  de_new := DamysusTEE_new;
  de_get_public_key := fun t => Ok (te_my_pub_key t);
  de_add_peer := DamysusTEE_add_peer;
  de_accumulate := DamysusTEE_accumulate;
  de_prepare := DamysusTEE_prepare;
  de_re_sign_last_prepared := DamysusTEE_re_sign_last_prepared;
  de_verify_untrusted := DamysusTEE_verify_untrusted;
|}.
End tee.
