(* ===== verification/DamTeeFacts.v ===== *)
(** * Damysus: the enclave in SGX behaves like the automaton

    What crosses the boundary of the enclave is what was put in at the other side,
    so a call of the host is a call of the automaton, unless the runtime fails
    ([call_with_buffer_emit], [tee_call]); [DamysusTEE_laws]: the host's side
    discharges [DamEnclaveLaws], and with it every theorem about a replica. *)

From Stdlib Require Import ZArith Lia.
From stdpp Require Import base list numbers option finite sorting.
From S2P Require Import Prelude Triple Ids Heaps DamBase DamEnclave DamEnclaveFacts Sgx DamTee.

Section facts.
  Context {P : Profile} {B : Type} `{BitSetLaws B} `{Digests} `{Ecc} `{SgxRuntime}.
  Context `{BincodeLaws (SignedCommitment RawSignature)} `{BincodeLaws (list (SignedCommitment RawSignature))}.
  Context `{BincodeLaws (Justification RawSignature)} `{BincodeLaws Parent}.
  Context (created : option KeyPair).
  Local Abbreviation SC := (SignedCommitment RawSignature).
  Local Abbreviation Automata := (DamAutomata EnclaveTrustedImpl).
  Local Abbreviation Enclave := (SgxEnclave SharedState).
  Local Abbreviation Tee := (DamysusTEE (H1 := H2)).

(** What the host receives of the result of a call of the automaton. *)
Definition pack {E} (from : DamEnclaveError MyPlatformError -> E) (too_small : E) (max_len : nat)
    (r : Result SC (DamEnclaveError MyPlatformError)) : Result (list N) E :=
  match r with
  | Err e => Err (from e)
  | Ok sc => if max_len <? length (bincode_serialize sc) then Err too_small else Ok (bincode_serialize sc)
  end.

Definition tee_call {E} (from : DamEnclaveError MyPlatformError -> E) (not_initialized too_small : E)
    (call : Automata -> Outcome (Result SC (DamEnclaveError MyPlatformError) * Automata)) (max_len : nat)
    : St SharedState (Result (list N) E) := fun s =>
  match s with
  | Uninitialized => Val (Err not_initialized, s)
  | Initialized a => r ← call a; Val (pack from too_small max_len r.1, Initialized r.2)
  end.

Lemma call_with_buffer_emit {E} `{Finite E} (from : DamEnclaveError MyPlatformError -> E) not_initialized too_small call
    (f : Ptr N * N -> nat -> St SharedState (N * (list N * nat))) max_len (e : Enclave) :
  (forall buffer len s, f (call_param_to_ptr buffer) len s = returns (emit from not_initialized too_small call buffer len) s) ->
  call_with_buffer (E := E) f max_len e = ecall (tee_call from not_initialized too_small call max_len) e.
Proof.
  intros Hf. unfold call_with_buffer.
  assert (enclave_fn (E := E) (f (call_param_to_ptr (replicate max_len 0%N)) 0) e
    = ecall (emit from not_initialized too_small call (replicate max_len 0%N) 0) e) as ->.
  { rewrite <-enclave_fn_returns. unfold enclave_fn, ecall. by rewrite Hf. }
  unfold ecall, mbind, Outcome_bind. destruct (sg_crashed e); [done|]. destruct (sgx_refuses _); [done|].
  unfold emit, tee_call. destruct (sg_state e) as [|a]; [done|]. unfold mbind, Outcome_bind.
  destruct (call a) as [[r a']| |]; [|done..]. cbn [fst snd]. destruct r as [sc|er]; [|done].
  unfold pack, write_out. rewrite length_replicate. destruct (max_len <? _) eqn:Hl; [done|].
  cbn. by rewrite take_app_length.
Qed.

(** ** The calls of the host *)

Lemma accumulate_call (cs : list SC) e :
  DamysusEnclave_accumulate (B := B) (bincode_serialize cs) 4096 e
  = ecall (tee_call AccumulateError_from AC_NotInitialized AC_SignedCommitmentBufferToSmall
             (fun a => DamAutomata_accumulate (B := B) (Enc := EnclaveTrustedImpl) a cs) 4096) e.
Proof.
  apply call_with_buffer_emit. intros buffer len s. unfold ecall_accumulate. rewrite !with_slice.
  unfold accumulate_safe. by rewrite bincode_roundtrip.
Qed.

Lemma prepare_call v h (j : Justification RawSignature) p jh e :
  length h = 32 -> length jh = 32 ->
  DamysusEnclave_prepare v h (bincode_serialize j) (bincode_serialize p) jh 4096 e
  = ecall (tee_call PrepareError_from PE_NotInitialized PE_SignedCommitmentBufferToSmall
             (fun a => DamAutomata_prepare (Enc := EnclaveTrustedImpl) a v h j p jh) 4096) e.
Proof.
  intros Hh Hjh. apply call_with_buffer_emit. intros buffer len s. unfold ecall_prepare. rewrite !with_slice.
  unfold prepare_safe, try_into_hash. rewrite Hh, Hjh, !bincode_roundtrip. done.
Qed.

Lemma re_sign_call e :
  DamysusEnclave_re_sign_last_prepared 4096 e
  = ecall (tee_call ReSignLastPrepareError_from RE_NotInitialized RE_SignedCommitmentBufferToSmall
             (DamAutomata_re_sign_last_prepared (Enc := EnclaveTrustedImpl)) 4096) e.
Proof. apply call_with_buffer_emit. intros buffer len s. unfold ecall_re_sign_last_prepared. by rewrite with_slice. Qed.

(** Hashes have 32 bytes in the code; others are refused. *)
Lemma prepare_call_short v h (j : Justification RawSignature) p jh e :
  length h <> 32 \/ length jh <> 32 ->
  DamysusEnclave_prepare v h (bincode_serialize j) (bincode_serialize p) jh 4096 e
  = ecall (mret (Err PE_WrongBlockHashLength)) e.
Proof.
  intros Hl. unfold DamysusEnclave_prepare, call_with_buffer.
  assert (forall buffer len s, ecall_prepare v (call_param_to_ptr h) (call_param_to_ptr (bincode_serialize j))
    (call_param_to_ptr (bincode_serialize p)) (call_param_to_ptr jh) (call_param_to_ptr buffer) len s
    = returns (mret (Err PE_WrongBlockHashLength, (buffer, len))) s) as Hf.
  { intros buffer len s. unfold ecall_prepare. rewrite !with_slice. unfold prepare_safe, try_into_hash.
    rewrite !bincode_roundtrip. destruct (Nat.eqb_spec (length h) 32); [|done].
    by destruct (Nat.eqb_spec (length jh) 32); [destruct Hl|]. }
  unfold enclave_fn, ecall, mbind, Outcome_bind. destruct (sg_crashed e); [done|].
  destruct (sgx_refuses _); [done|]. by rewrite Hf.
Qed.

(** ** The laws of the interface *)

#[export] Instance DamysusTEE_state : DamEnclaveState Tee := {|
  de_view := fun t => match sg_state (te_enclave t) with Uninitialized => 0%N | Initialized a => da_view a end;
  de_inv := fun t => match sg_state (te_enclave t) with Uninitialized => True | Initialized a => da_inv a end;
|}.

Lemma tee_call_fuel {E} from not_initialized too_small call max_len s :
  (forall a, call a <> NoFuel) -> tee_call (E := E) from not_initialized too_small call max_len s <> NoFuel.
Proof. intros Hc. unfold tee_call. destruct s as [|a]; [done|]. by apply outcome_bind_fuel. Qed.

Lemma receive_inv {E} (wrap : E -> MyError) from not_initialized too_small call max_len (t : Tee) r :
  ecall (tee_call from not_initialized too_small call max_len) (te_enclave t) = Val r ->
  (sg_state (te_enclave (receive wrap t r).2) = sg_state (te_enclave t) /\ exists e, (receive wrap t r).1 = Err e)
  \/ exists a rr a', sg_state (te_enclave t) = Initialized a /\ call a = Val (rr, a')
       /\ sg_state (te_enclave (receive wrap t r).2) = Initialized a'
       /\ forall c, (receive wrap t r).1 = Ok c -> rr = Ok c.
Proof.
  destruct r as [r e']. intros Hc%ecall_inv. unfold receive. cbn [fst snd te_enclave].
  destruct Hc as [(er & -> & Hs)|(x & -> & Hs)]; [left; eauto|]. unfold tee_call in Hs.
  destruct (sg_state (te_enclave t)) as [|a] eqn:Ht; [injection Hs as <- <-; left; eauto|].
  apply outcome_bind_inv in Hs as ([rr a'] & Hcall & Hs). cbn in Hs. injection Hs as Hx Hst.
  right. exists a, rr, a'. split; [done|]. split; [done|]. split; [done|]. intros c. subst x.
  unfold pack. destruct rr as [sc|]; [|done]. destruct (max_len <? _); [done|].
  rewrite bincode_roundtrip. by intros [= ->].
Qed.

(** Where no call was made, nothing changed. *)
Lemma DamysusTEE_prepare_inv v h (j : Justification RawSignature) p jh (t : Tee) r t' :
  DamysusTEE_prepare t v h j p jh = Val (r, t') ->
  (sg_state (te_enclave t') = sg_state (te_enclave t) /\ exists e, r = Err e)
  \/ exists a rr a', sg_state (te_enclave t) = Initialized a
       /\ DamAutomata_prepare (Enc := EnclaveTrustedImpl) a v h j p jh = Val (rr, a')
       /\ sg_state (te_enclave t') = Initialized a' /\ forall c, r = Ok c -> rr = Ok c.
Proof.
  unfold DamysusTEE_prepare. intros (x & Hx & Hr)%outcome_bind_inv.
  destruct (decide (length h = 32 /\ length jh = 32)) as [[Hh Hjh]|Hl].
  - rewrite prepare_call in Hx by done. apply (receive_inv ME_Prepare) in Hx.
    by destruct (receive ME_Prepare t x) as [r1 t1]; injection Hr as <- <-.
  - rewrite prepare_call_short in Hx by (destruct (decide (length h = 32)); [right|left]; tauto).
    destruct x as [x e']. apply ecall_inv in Hx. left. unfold receive in Hr. injection Hr as <- <-. cbn.
    destruct Hx as [(er & -> & Hs)|(y & -> & [= <- <-])]; eauto.
Qed.

Lemma DamysusTEE_new_state me n q (t : Tee) :
  DamysusTEE_new created me n q = Val t ->
  exists a, sg_state (te_enclave t) = Initialized a /\ InitializedState_new created me n q = Val a.
Proof.
  unfold DamysusTEE_new. intros (e & He & Hn)%outcome_bind_inv. unfold DamysusEnclave_new in He.
  destruct sgx_create; [done|]. injection He as <-. apply outcome_bind_inv in Hn as ([r1 e1] & H1e & Hn).
  unfold ecall_init in H1e. rewrite enclave_fn_returns in H1e. apply outcome_bind_inv in Hn as ([] & Hu & Hn).
  apply outcome_bind_inv in Hn as ([r2 e2] & H2e & Hn). unfold ecall_get_public_key in H2e.
  rewrite enclave_fn_returns in H2e. apply outcome_bind_inv in Hn as (k & Hk & Hn).
  apply outcome_bind_inv in Hn as (ks & _ & [= <-]). cbn [te_enclave fst snd] in *.
  apply ecall_inv in H1e as [(er & -> & _)|(x & -> & Hs)]; [done|]. cbn in Hs.
  apply outcome_bind_inv in Hs as (a & Ha & [= <- Hst]). exists a. split; [|done].
  apply ecall_inv in H2e as [(er & -> & _)|(y & -> & Hs2)]; [done|]. rewrite <-Hst in Hs2. cbn in Hs2.
  by injection Hs2 as _ <-.
Qed.

Lemma assign_u64_fuel {A} (l : list A) i x : assign_u64 l i x <> NoFuel.
Proof. unfold assign_u64. by destruct (_ <? _)%N. Qed.

Lemma unwrap_twice_fuel {A E E'} (r : Result (Result () E * A) E') : unwrap_twice r <> NoFuel.
Proof. by destruct r as [[[[]|] ?]|]. Qed.

Lemma init_fuel me n q s : init_safe created me n q s <> NoFuel.
Proof.
  unfold init_safe. destruct s; [|done]. apply outcome_bind_fuel; [|done]. unfold InitializedState_new.
  by destruct created.
Qed.

Lemma DamysusTEE_new_fuel me n q : DamysusTEE_new created me n q <> NoFuel.
Proof.
  unfold DamysusTEE_new. apply outcome_bind_fuel; [unfold DamysusEnclave_new; by destruct sgx_create|]. intros e _.
  unfold ecall_init, ecall_get_public_key. rewrite enclave_fn_returns.
  apply outcome_bind_fuel; [apply ecall_fuel, init_fuel|]. intros r _.
  apply outcome_bind_fuel; [apply unwrap_twice_fuel|]. intros [] _. rewrite enclave_fn_returns.
  apply outcome_bind_fuel; [apply ecall_fuel; by intros []|]. intros r' _.
  apply outcome_bind_fuel; [apply unwrap_twice_fuel|]. intros k _.
  apply outcome_bind_fuel; [|done]. apply assign_u64_fuel.
Qed.

(** *** Adding a peer *)

Lemma InitializedState_add_peer_fuel a i k : InitializedState_add_peer a i k <> NoFuel.
Proof.
  unfold InitializedState_add_peer. destruct (_ <=? _)%N; [done|]. apply outcome_bind_fuel.
  { unfold IdMap_index, index_u64. by destruct (nth_u64 _ _). }
  intros [k'|] _; [done|]. apply outcome_bind_fuel; [|done]. apply assign_u64_fuel.
Qed.

Lemma InitializedState_add_peer_inv a i k r a' :
  InitializedState_add_peer a i k = Val (r, a') -> a' = a.[da_enclave := da_enclave a'].
Proof.
  unfold InitializedState_add_peer. destruct (_ <=? _)%N; [intros [= <- <-]; by destruct a|].
  intros ([k'|] & _ & He)%outcome_bind_inv; [injection He as <- <-; by destruct a|].
  by apply outcome_bind_inv in He as (ks & _ & [= <- <-]).
Qed.

Lemma add_peer_safe_fuel i k s : add_peer_safe i k s <> NoFuel.
Proof. destruct s as [|a]; [done|]. apply outcome_bind_fuel; [apply InitializedState_add_peer_fuel|done]. Qed.

Lemma DamysusTEE_add_peer_fuel (t : Tee) i k : DamysusTEE_add_peer t i k <> NoFuel.
Proof.
  unfold DamysusTEE_add_peer, ecall_add_peer. rewrite enclave_fn_returns.
  apply outcome_bind_fuel; [apply ecall_fuel, add_peer_safe_fuel|].
  intros [[[[[]|er] []]|er] e] _; [|done..]. apply outcome_bind_fuel; [|done]. apply assign_u64_fuel.
Qed.

(** The call changes no more of the automaton than the keys. *)
Lemma DamysusTEE_add_peer_inv (t : Tee) i k r t' :
  DamysusTEE_add_peer t i k = Val (r, t') ->
  sg_state (te_enclave t') = sg_state (te_enclave t)
  \/ exists a a', sg_state (te_enclave t) = Initialized a /\ sg_state (te_enclave t') = Initialized a'
       /\ a' = a.[da_enclave := da_enclave a'].
Proof.
  unfold DamysusTEE_add_peer, ecall_add_peer. rewrite enclave_fn_returns.
  intros ([x e] & Hx%ecall_inv & Hr)%outcome_bind_inv.
  assert (sg_state (te_enclave t') = sg_state e) as Hs.
  { destruct x as [[[[]|er] []]|er]; cbn in Hr; [|by injection Hr as _ <-..].
    by apply outcome_bind_inv in Hr as (ks & _ & [= _ <-]). }
  rewrite Hs. destruct Hx as [(er & _ & ->)|(y & _ & Hy)]; [by left|]. unfold add_peer_safe in Hy.
  destruct (sg_state (te_enclave t)) as [|a]; [injection Hy as _ <-; by left|]. right.
  apply outcome_bind_inv in Hy as ([r1 a'] & Ha & [= _ <-]). exists a, a'.
  by apply InitializedState_add_peer_inv in Ha.
Qed.

(** *** The interface *)

Lemma DamysusTEE_laws : overflow_checks = true -> DamEnclaveLaws Tee (H := DamysusTEE_impl created (B := B)).
Proof.
  intros Hchecks. split.
  - apply DamysusTEE_new_fuel.
  - intros me n q t (a & Hs & Ha)%DamysusTEE_new_state. unfold de_inv, de_view. cbn. rewrite Hs.
    apply outcome_bind_inv in Ha as (kp & _ & [= <-]). split; [|done]. unfold da_inv. cbn. unfold View_default. lia.
  - intros t i h s. cbn. unfold DamysusTEE_verify_untrusted. apply outcome_bind_fuel.
    { unfold IdMap_index, index_u64. by destruct (nth_u64 _ _). }
    by intros [k|] _.
  - apply DamysusTEE_add_peer_fuel.
  - intros t i k r t' Hi Ha%DamysusTEE_add_peer_inv. unfold de_inv, de_view in *. cbn in *.
    destruct Ha as [->|(a & a' & Hs & -> & Ha)]; [done|]. rewrite Hs in *. by rewrite Ha.
  - intros t cs. apply outcome_bind_fuel; [|done]. rewrite accumulate_call.
    apply ecall_fuel. intros s. apply tee_call_fuel. intros a.
    exact (DamAutomata_accumulate_fuel (B := B) (Enc := EnclaveTrustedImpl) a cs).
  - intros t cs r t' Hi Hcs. cbn. unfold DamysusTEE_accumulate. rewrite accumulate_call.
    intros (x & Hx%(receive_inv ME_Accumulate) & Hr)%outcome_bind_inv.
    destruct (receive ME_Accumulate t x) as [r1 t1]; injection Hr as <- <-. unfold de_inv, de_view in *. cbn in *.
    destruct Hx as [(-> & er & ->)|(a & rr & a' & Hs & Ha & Hs' & Hok)]; [done|]. rewrite Hs, Hs' in *.
    pose proof (DamAutomata_accumulate_ok (B := B) (Enc := EnclaveTrustedImpl) Hchecks) as Hacc.
    destruct (Hacc a cs rr a' Hi Hcs Ha) as (? & ? & Hc).
    split; [done|]. split; [done|]. intros c Hr. by apply Hc, Hok.
  - intros t v h j p jh. cbn. unfold DamysusTEE_prepare. apply outcome_bind_fuel; [|done].
    destruct (decide (length h = 32 /\ length jh = 32)) as [[Hh Hjh]|Hl].
    + rewrite prepare_call by done. apply ecall_fuel. intros s. apply tee_call_fuel. intros a.
      exact (DamAutomata_prepare_fuel (Enc := EnclaveTrustedImpl) a v h j p jh).
    + rewrite prepare_call_short by (destruct (decide (length h = 32)); [right|left]; tauto). by apply ecall_fuel.
  - intros t v h j p jh c t' Hi Hj Hp. apply DamysusTEE_prepare_inv in Hp as [(_ & er & [=])|(a & rr & a' & Hs & Ha & Hs' & Hok)].
    unfold de_inv, de_view in *. cbn in *. rewrite Hs, Hs' in *. specialize (Hok c eq_refl). subst rr.
    pose proof (DamAutomata_prepare_ok (Enc := EnclaveTrustedImpl) Hchecks) as Hprep. eapply Hprep; eauto.
  - intros t. apply outcome_bind_fuel; [|done]. rewrite re_sign_call.
    apply ecall_fuel. intros s. apply tee_call_fuel. intros a.
    exact (DamAutomata_create_usig_fuel (Enc := EnclaveTrustedImpl) a _ _).
  - intros t c t' Hi. cbn. unfold DamysusTEE_re_sign_last_prepared. rewrite re_sign_call.
    intros (x & Hx%(receive_inv ME_ReSignLastPrepare) & Hr)%outcome_bind_inv.
    destruct (receive ME_ReSignLastPrepare t x) as [r1 t1]; injection Hr as -> <-. unfold de_inv, de_view in *. cbn in *.
    destruct Hx as [(_ & er & [=])|(a & rr & a' & Hs & Ha & Hs' & Hok)]. rewrite Hs, Hs' in *.
    specialize (Hok c eq_refl). subst rr.
    pose proof (DamAutomata_re_sign_ok (Enc := EnclaveTrustedImpl) Hchecks) as Hsign. by apply Hsign.
Qed.
End facts.
