(* ===== verification/DamTeeTheorems.v ===== *)
(** * Damysus: theorems about the enclave in SGX

    What a host can and cannot do with the enclave whose functions it calls with
    any bytes, that the host's side answers as the automaton does, and that a
    replica on it keeps the guarantees of a replica. *)

From Stdlib Require Import ZArith Lia.
From stdpp Require Import base list gmap sets numbers option finite sorting.
From S2P Require Import Prelude Triple Ids Heaps Requests DamBase DamEnclave DamEnclaveFacts.
From S2P Require Import DamBlockstore DamReplica DamInvariant DamRun.
From S2P Require Import Sgx DamTee DamTeeFacts.

(** ** A host that is not trusted *)

Section session.
  Context {P : Profile} {B : Type} `{BitSetLaws B} `{Digests} `{Ecc} `{SgxRuntime}.
  Context `{BincodeLaws (SignedCommitment RawSignature)} `{Bincode (list (SignedCommitment RawSignature))}.
  Context `{Bincode (Justification RawSignature)} `{Bincode Parent}.
  Context (created : option KeyPair).
  Local Abbreviation SC := (SignedCommitment RawSignature).
  Local Abbreviation Automata := (DamAutomata EnclaveTrustedImpl).
  Local Abbreviation Enclave := (SgxEnclave SharedState).

(** The functions the enclave exports, with the arguments the host chooses. *)
Inductive tee_ecall :=
| Ec_init (me n quorum : N)
| Ec_get_public_key (pub_key : PubKey)
| Ec_add_peer (id : N) (pub_key : PubKey)
| Ec_accumulate (commitments out : Ptr N * N) (out_len : nat)
| Ec_prepare (block_view : N) (block_hash block_justification block_parent justification_block_hash out : Ptr N * N)
    (out_len : nat)
| Ec_re_sign_last_prepared (out : Ptr N * N) (out_len : nat).

(** What the host finds in the buffer after a call that succeeded. *)
Definition handed_out (r : N * (list N * nat)) : option (list N) :=
  if (r.1 =? 0)%N then Some (take r.2.2 r.2.1) else None.

Definition tee_body (c : tee_ecall) : St SharedState (option (list N)) :=
  match c with
  | Ec_init me n quorum => ecall_init created me n quorum ;; mret None
  | Ec_get_public_key pub_key => ecall_get_public_key pub_key ;; mret None
  | Ec_add_peer id pub_key => ecall_add_peer id pub_key ;; mret None
  | Ec_accumulate commitments out out_len => r ← ecall_accumulate (B := B) commitments out out_len; mret (handed_out r)
  | Ec_prepare v h j p jh out out_len => r ← ecall_prepare v h j p jh out out_len; mret (handed_out r)
  | Ec_re_sign_last_prepared out out_len => r ← ecall_re_sign_last_prepared out out_len; mret (handed_out r)
  end.

Definition me_of (s : SharedState) (me : N) : Prop :=
  match s with Uninitialized => True | Initialized a => da_me a = me end.
Definition view_of (s : SharedState) : N :=
  match s with Uninitialized => 0%N | Initialized a => da_view a end.

(** What one call does: it hands out nothing and keeps the view and the identity,
    or it is a call of the automaton. *)
Inductive body_effect (s : SharedState) : option (list N) -> SharedState -> Prop :=
| be_nothing s' :
    view_of s' = view_of s -> (forall me, me_of s' me -> me_of s me) -> body_effect s None s'
| be_call a op r a' bytes :
    s = Initialized a -> da_call (B := B) (Enc := EnclaveTrustedImpl) op a = Val (r, a') ->
    (forall b, bytes = Some b -> exists c, r = Ok c /\ b = bincode_serialize c) ->
    body_effect s bytes (Initialized a').

Lemma refused_effect {E} `{Finite E} (e : E) x s (r : N * (list N * nat)) s' :
  returns (mret (Err e, x)) s = Val (r, s') -> body_effect s (handed_out r) s'.
Proof. cbn. intros [= <- <-]. by apply be_nothing. Qed.

Lemma emit_effect {E} `{Finite E} (from : DamEnclaveError MyPlatformError -> E) ni ts op out len s r s' :
  returns (emit from ni ts (da_call (B := B) (Enc := EnclaveTrustedImpl) op) out len) s = Val (r, s') ->
  body_effect s (handed_out r) s'.
Proof.
  intros (r1 & s2 & Hr & [= <- <-])%st_bind_inv.
  unfold emit in Hr. destruct s as [|a]; [injection Hr as <- <-; by apply be_nothing|].
  apply outcome_bind_inv in Hr as ([rr a'] & Hc & Hr). cbn [fst snd] in Hr.
  destruct rr as [sc|er]; injection Hr as <- <-; (eapply be_call; [done|exact Hc|]); intros b Hb; [|done].
  unfold write_out, handed_out in Hb. destruct (_ <? _); [done|]. cbn in Hb. rewrite take_app_length in Hb.
  injection Hb as <-. by exists sc.
Qed.

Lemma accumulate_effect cs out len s r s' :
  ecall_accumulate (B := B) cs out len s = Val (r, s') -> body_effect s (handed_out r) s'.
Proof.
  unfold ecall_accumulate. intros (? & _ & (? & _ & Hr)%bind_lift_inv)%bind_lift_inv. unfold accumulate_safe in Hr.
  destruct (bincode_deserialize _) as [l|]; [|by apply refused_effect in Hr]. by apply (emit_effect _ _ _ (@Op_accumulate _ EnclaveTrustedImpl_trusted l)) in Hr.
Qed.

Lemma prepare_effect v h j p jh out len s r s' :
  ecall_prepare v h j p jh out len s = Val (r, s') -> body_effect s (handed_out r) s'.
Proof.
  unfold ecall_prepare. intros (? & _ & Hr)%bind_lift_inv. do 4 apply bind_lift_inv in Hr as (? & _ & Hr).
  unfold prepare_safe in Hr. destruct (try_into_hash _) as [h'|]; [|by apply refused_effect in Hr].
  do 2 (destruct (bincode_deserialize _) as [?|]; [|by apply refused_effect in Hr]).
  destruct (try_into_hash _) as [jh'|]; [|by apply refused_effect in Hr].
  by apply (emit_effect _ _ _ (@Op_prepare _ EnclaveTrustedImpl_trusted v h' _ _ jh')) in Hr.
Qed.

Lemma tee_body_effect c s o s' : tee_body c s = Val (o, s') -> body_effect s o s'.
Proof.
  intros Hb. destruct c; apply st_bind_inv in Hb as (r & s1 & Hr & [= <- <-]).
  - apply st_bind_inv in Hr as (r1 & s2 & Hr & [= _ <-]). unfold init_safe in Hr.
    destruct s; [|injection Hr as _ <-; by apply be_nothing].
    apply outcome_bind_inv in Hr as (a & Ha & [= _ <-]). apply outcome_bind_inv in Ha as (k & _ & [= <-]). by apply be_nothing.
  - apply st_bind_inv in Hr as (r1 & s2 & Hr & [= _ <-]). destruct s; injection Hr as _ <-; by apply be_nothing.
  - apply st_bind_inv in Hr as (r1 & s2 & Hr & [= _ <-]). destruct s as [|a]; [injection Hr as _ <-; by apply be_nothing|].
    apply outcome_bind_inv in Hr as ([r2 a'] & Ha%InitializedState_add_peer_inv & [= _ <-]). cbn [snd].
    rewrite Ha. by apply be_nothing.
  - by apply accumulate_effect in Hr.
  - by apply prepare_effect in Hr.
  - unfold ecall_re_sign_last_prepared in Hr. apply bind_lift_inv in Hr as (? & _ & Hr). unfold re_sign_last_prepared_safe in Hr.
    by apply (emit_effect _ _ _ Op_re_sign) in Hr.
Qed.

(** What was handed out, as commitments. *)
Definition commitments_of (out : list (list N)) : list SC := omap bincode_deserialize out.

(** The usigs are of one creator [me] and their views increase, from [v] on. *)
Definition usigs_from (v me : N) (l : list SC) : Prop :=
  Forall (fun c => SC_is_usig c = true -> SC_get_creator c = me /\ (v <= SC_get_view c)%N) l
  /\ StronglySorted N.lt (SC_get_view <$> List.filter SC_is_usig l).

Lemma usigs_from_le v v' me l : (v' <= v)%N -> usigs_from v me l -> usigs_from v' me l.
Proof.
  intros Hv [Hl Hs]. split; [|done]. eapply Forall_impl; [exact Hl|]. intros c Hc Hu. destruct (Hc Hu). split; [done|lia].
Qed.

Lemma usigs_from_cons v me c l :
  usigs_from (v + 1) me l -> (SC_is_usig c = true -> SC_get_creator c = me /\ SC_get_view c = v) ->
  usigs_from v me (c :: l).
Proof.
  intros Hl Hc. split.
  - constructor; [intros Hu; destruct (Hc Hu); split; [done|lia]|]. by apply (usigs_from_le (v + 1) v) in Hl as [? _]; [|lia].
  - cbn. destruct Hl as [Hl Hs]. destruct (SC_is_usig c); [|done]. cbn. constructor; [done|]. apply list.Forall_forall.
    intros x (y & -> & Hy)%list_elem_of_fmap. apply list_elem_of_In, List.filter_In in Hy as [Hy%list_elem_of_In Hyu].
    rewrite list.Forall_forall in Hl. destruct (Hl y Hy Hyu), (Hc eq_refl). lia.
Qed.

Lemma usigs_from_skip v me c l : usigs_from v me l -> SC_is_usig c = false -> usigs_from v me (c :: l).
Proof. intros [Hl Hs] Hc. split; [constructor; [congruence|done]|]. cbn. by rewrite Hc. Qed.

Lemma tee_session_usigs cs e out e' :
  (view_of (sg_state e) + N.of_nat (length cs) < 2 ^ 64)%N -> session tee_body cs e = Val (out, e') ->
  exists me, me_of (sg_state e) me /\ usigs_from (view_of (sg_state e)) me (commitments_of out).
Proof.
  revert e out. induction cs as [|c cs IH]; intros e out Hv; cbn [session].
  { intros [= <- <-]. exists (match sg_state e with Initialized a => da_me a | _ => 0%N end).
    split; [by destruct (sg_state e)|]. split; constructor. }
  intros ([r e1] & Hc%ecall_inv & Hs)%outcome_bind_inv. apply outcome_bind_inv in Hs as ([out1 e2] & Hs & [= <- <-]).
  cbn [fst snd length] in *.
  destruct Hc as [(er & -> & Hst)|(o & -> & Hb%tee_body_effect)].
  { rewrite <-Hst. apply (IH e1 out1); [rewrite Hst; lia|done]. }
  inversion Hb as [s' Hvw Hme Ho Hs'|a op rr a' bytes Ha Hcall Hout Ho Hs'].
  { destruct (IH e1 out1) as (me & Hm & Hu); [lia|done|]. exists me. rewrite Hvw in Hu. by split; [apply Hme|]. }
  rewrite Ha in Hv |- *. cbn [view_of] in Hv |- *.
  pose proof (da_call_Val (B := B) (Enc := EnclaveTrustedImpl)) as Hcv.
  destruct (Hcv op a rr a') as (Hm & _ & _ & _ & Hcase); [lia|done|].
  destruct (IH e1 out1) as (me & Hm1 & Hu); [rewrite <-Hs'; cbn; destruct Hcase as [[-> _]|[-> _]]; lia|done|].
  rewrite <-Hs' in Hm1, Hu. cbn in Hm1, Hu. exists me. split; [cbn; congruence|].
  destruct o as [b|]; [|eapply usigs_from_le; [|exact Hu]; destruct Hcase as [[-> _]|[-> _]]; lia].
  destruct (Hout b eq_refl) as (sc & -> & ->). unfold commitments_of. cbn [omap list_omap]. rewrite bincode_roundtrip.
  destruct Hcase as [[Hw Hno]|[Hw Hyes]]; rewrite Hw in Hu.
  - apply usigs_from_skip; [done|]. by apply Hno.
  - apply usigs_from_cons; [done|]. intros _. destruct (Hyes sc eq_refl) as (_ & ? & Hcr). split; [|done].
    transitivity (da_me a); [exact Hcr|]. transitivity (da_me a'); done.
Qed.
End session.

(** ** The theorems *)

Section theorems.
  Context {P : Profile} {B : Type} `{BitSetLaws B} `{Digests} `{Ecc} `{SgxRuntime}.
  Context `{BincodeLaws (SignedCommitment RawSignature)} `{BincodeLaws (list (SignedCommitment RawSignature))}.
  Context `{BincodeLaws (Justification RawSignature)} `{BincodeLaws Parent}.
  Context (created : option KeyPair).
  Local Abbreviation SC := (SignedCommitment RawSignature).
  Local Abbreviation Tee := (DamysusTEE (H1 := H2)).

(** C14: No equivocation by the host.  Whatever sequence of fewer than 2^64 calls
    a host makes of the functions the enclave exports, with whatever pointers,
    lengths and bytes, the usigs among the commitments it is handed are of one
    creator and their views increase strictly. *)
Theorem dam_tee_usig_unique cs out e' :
  (N.of_nat (length cs) < 2 ^ 64)%N ->
  session (tee_body (B := B) created) cs (mkSgxEnclave Uninitialized false 0) = Val (out, e') ->
  exists me, Forall (fun c => SC_is_usig c = true -> SC_get_creator c = me) (commitments_of out)
    /\ StronglySorted N.lt (SC_get_view <$> List.filter SC_is_usig (commitments_of out)).
Proof.
  intros Hl Hs. apply tee_session_usigs in Hs as (me & _ & Hu & Hsort); [|cbn [view_of sg_state]; lia].
  exists me. split; [|done]. eapply Forall_impl; [exact Hu|]. intros c Hc Hx. by apply Hc.
Qed.

(** The host's methods, and the errors they report. *)
Definition host_call (op : da_op (Enc := EnclaveTrustedImpl)) (t : Tee)
    : Outcome (Result SC (DamEnclaveError MyError) * Tee) :=
  match op with
  | Op_accumulate cs => DamysusTEE_accumulate (B := B) t cs
  | Op_prepare v h j p jh => DamysusTEE_prepare t v h j p jh
  | Op_re_sign => DamysusTEE_re_sign_last_prepared t
  end.

Definition host_error (op : da_op (Enc := EnclaveTrustedImpl)) (e : DamEnclaveError MyPlatformError) : DamEnclaveError MyError :=
  PlatformError match op with
  | Op_accumulate _ => ME_Accumulate (AccumulateError_from e)
  | Op_prepare _ _ _ _ _ => ME_Prepare (PrepareError_from e)
  | Op_re_sign => ME_ReSignLastPrepare (ReSignLastPrepareError_from e)
  end.

(** The hashes of a block have 32 bytes. *)
Definition op_sized (op : da_op (Enc := EnclaveTrustedImpl)) : Prop :=
  match op with Op_prepare _ h _ _ jh => length h = 32 /\ length jh = 32 | _ => True end.

Lemma receive_tee_call {E} (wrap : E -> MyError) from ni ts call (t : Tee) a r a' :
  sg_state (te_enclave t) = Initialized a -> sg_crashed (te_enclave t) = false ->
  sgx_refuses (sg_calls (te_enclave t)) = None -> call a = Val (r, a') ->
  (forall c, r = Ok c -> length (bincode_serialize c) <= 4096) ->
  (x ← ecall (tee_call from ni ts call 4096) (te_enclave t); Val (receive wrap t x))
  = Val (match r with Ok c => Ok c | Err e => Err (PlatformError (wrap (from e))) end,
         mkDamysusTEE (mkSgxEnclave (Initialized a') false (1 + sg_calls (te_enclave t))) (te_pub_keys t) (te_my_pub_key t)).
Proof.
  intros Hs Hc Hr Hcall Hl. unfold ecall. rewrite Hc, Hr. unfold tee_call. rewrite Hs, Hcall.
  cbn -[Nat.ltb receive]. unfold receive, pack. cbn -[Nat.ltb]. destruct r as [c|e]; [|done].
  rewrite (proj2 (Nat.ltb_ge _ _)) by by apply Hl. by rewrite bincode_roundtrip.
Qed.

(** C17: The host's side refines the automaton.  When the runtime lets a call
    through and the commitment fits the buffer of 4096 bytes, each of the three
    calls returns exactly what the automaton in the enclave returns, its errors
    as the platform errors of that call, and leaves it in the same state. *)
Theorem dam_tee_refines_automaton op (t : Tee) a r a' :
  sg_state (te_enclave t) = Initialized a -> sg_crashed (te_enclave t) = false ->
  sgx_refuses (sg_calls (te_enclave t)) = None -> op_sized op ->
  da_call (B := B) (Enc := EnclaveTrustedImpl) op a = Val (r, a') ->
  (forall c, r = Ok c -> length (bincode_serialize c) <= 4096) ->
  host_call op t
  = Val (match r with Ok c => Ok c | Err e => Err (host_error op e) end,
         mkDamysusTEE (mkSgxEnclave (Initialized a') false (1 + sg_calls (te_enclave t))) (te_pub_keys t) (te_my_pub_key t)).
Proof.
  intros Hs Hc Hr Hop Hcall Hl. destruct op as [cs|v h j p jh|]; cbn [host_call host_error].
  - unfold DamysusTEE_accumulate. rewrite accumulate_call. by apply receive_tee_call with (a := a).
  - destruct Hop. unfold DamysusTEE_prepare. rewrite prepare_call by done. by apply receive_tee_call with (a := a).
  - unfold DamysusTEE_re_sign_last_prepared. rewrite re_sign_call. by apply receive_tee_call with (a := a).
Qed.

(** ** Replicas on the enclave *)

  Context {Tx : Type} `{Transaction Tx} `{UnstableSortLaws} (clock : nat -> N).
  Local Abbreviation TeeReplica := (Damysus B Tx Tee).
  #[local] Hint Extern 0 (DamEnclave (DamysusTEE (H1 := H2))) => exact (DamysusTEE_impl (B := B) created) : typeclass_instances.

(** A replica whose trusted component is the SGX enclave keeps the invariant
    of a replica over every run, whatever its runtime refuses and even when the
    enclave aborts, and what it delivered is the log of its executed blocks. *)
Theorem dam_tee_replica t0 me n mn mx bt it (s : TeeReplica) os s' :
  overflow_checks = true -> (it <= duration_max)%N ->
  Damysus_new clock t0 me n mn mx bt it = Val s -> dam_run clock s os s' ->
  dam_inv_upto 0 (dam_delivery os) s' /\ dam_grows s s'
  /\ exists hist, exec_log (dam_blockstore s') (dam_executed_transactions s') hist (dam_delivery os).
Proof.
  intros Hchecks Hit Hs Hr. pose proof (DamysusTEE_laws (B := B) created Hchecks) as Hlaws.
  destruct (dam_new_run clock Hchecks _ _ _ _ _ _ _ _ _ _ Hit Hs Hr) as [[Hi Hg] Hq]. unfold dam_quiet in Hq.
  split; [done|]. split; [done|].
  destruct (di_log _ _ _ Hi) as (hist & Hlog). rewrite Hq, app_nil_r in Hlog. by exists hist.
Qed.

(** A commitment that names a creator whose key the host does not hold, one
    outside the group included, panics the replica: [verify_untrusted] indexes
    and unwraps the key before anything of the message is known to be true. *)
Theorem dam_tee_unknown_creator_panics (s : TeeReplica) (c : SignedCommitment (de_Signature Tee)) :
  mjoin (nth_u64 (te_pub_keys (dam_enclave s)) (SC_get_creator c)) = None ->
  (SC_get_view c + 1 < 2 ^ 64)%N -> (dam_view s <= SC_get_view c + 1)%N ->
  dam_dispatch clock (mkDamMessage (SC_get_creator c) (CommitmentMsg c) : DamPeerMessage Tx Tee) s = Panic.
Proof.
  intros Hk Hv Hge. unfold dam_dispatch. cbn [dm_message dm_from]. unfold process_commitment. rewrite N.eqb_refl. cbn [negb].
  unfold SC_get_view_usable_for, View_get_successor.
  erewrite st_bind_Val by (apply lift_Val, u64_add_Val; done). erewrite st_bind_Val by reflexivity.
  rewrite (proj2 (N.ltb_ge _ _)) by done. unfold verify_signed, inspect, mbind, St_bind. cbn.
  unfold DamysusTEE_verify_untrusted, IdMap_index, index_u64, mbind, Outcome_bind.
  by destruct (nth_u64 _ _) as [[k|]|].
Qed.
End theorems.

(** ** Witnesses *)

From S2P Require Import DamExamples SgxExamples.

Abbreviation TxTee := (DamysusTEE (H1 := sx_ecc)).
Abbreviation TxReplica := (Damysus N (N * N) TxTee).
Definition tx_created : option (@KeyPair sx_ecc) := Some 7%N.
#[export] Instance tx_impl : DamEnclave TxTee := DamysusTEE_impl (B := N) tx_created.

(** A host that skips the replica's code: it initializes twice, accumulates and
    prepares garbage, and asks three times for a commitment, once with a buffer
    that is too small. *)
Definition tx_session : list tee_ecall := [
  Ec_init 1 2 2; Ec_init 0 2 2; Ec_add_peer 0 PubKey_default;
  Ec_re_sign_last_prepared (Some (replicate 200 0%N), 200%N) 0;
  Ec_accumulate (Some [9%N], 1%N) (None, 0%N) 0;
  Ec_re_sign_last_prepared (Some [0%N], 1%N) 0;
  Ec_prepare 3 (Some [1%N], 1%N) (None, 0%N) (None, 0%N) (None, 0%N) (None, 0%N) 0;
  Ec_re_sign_last_prepared (Some (replicate 200 0%N), 200%N) 0].

Lemma dam_tee_usig_unique_witness :
  exists out e', session (tee_body (B := N) tx_created) tx_session (mkSgxEnclave Uninitialized false 0) = Val (out, e')
    /\ (SC_get_view <$> commitments_of out) = [0%N; 2%N]
    /\ exists me, Forall (fun c => SC_is_usig c = true -> SC_get_creator c = me) (commitments_of out)
         /\ StronglySorted N.lt (SC_get_view <$> List.filter SC_is_usig (commitments_of out)).
Proof.
  destruct (session (tee_body (B := N) tx_created) tx_session (mkSgxEnclave Uninitialized false 0)) as [[out e']| |] eqn:Hs;
    [|vm_compute in Hs; discriminate..].
  exists out, e'. split; [reflexivity|]. split.
  - vm_compute in Hs. injection Hs as <- _. vm_compute. reflexivity.
  - apply (dam_tee_usig_unique (B := N) tx_created tx_session out e'); [vm_compute; reflexivity|exact Hs].
Defined.

(** The automaton of replica [me] of two. *)
Definition tx_automaton (me : N) : DamAutomata EnclaveTrustedImpl :=
  DamAutomata_new me 2 2 (mkTrustedImpl (H1 := sx_ecc) 7%N [None; None] 2).
Definition tx_tee : TxTee := mkDamysusTEE (mkSgxEnclave (Initialized (tx_automaton 0)) false 2) [Some PubKey_default; None] PubKey_default.

Lemma dam_tee_refines_automaton_witness :
  exists c, host_call (B := N) Op_re_sign tx_tee
      = Val (Ok c, mkDamysusTEE (mkSgxEnclave (Initialized ((tx_automaton 0).[da_view := 1%N])) false 3)
                     [Some PubKey_default; None] PubKey_default) /\ SC_get_view c = 0%N.
Proof.
  destruct (da_call (B := N) (Enc := EnclaveTrustedImpl) Op_re_sign (tx_automaton 0)) as [[[c|e] a']| |] eqn:Hc;
    [|vm_compute in Hc; discriminate..].
  assert (a' = (tx_automaton 0).[da_view := 1%N]) as Ha by (vm_compute in Hc; injection Hc as _ <-; reflexivity).
  assert (length (bincode_serialize c) <= 4096 /\ SC_get_view c = 0%N) as [Hl Hv].
  { vm_compute in Hc. injection Hc as <- _. split; [apply Nat.leb_le; vm_compute; reflexivity|reflexivity]. }
  exists c. split; [|exact Hv]. rewrite <-Ha.
  apply (dam_tee_refines_automaton (B := N) Op_re_sign tx_tee (tx_automaton 0) (Ok c) a');
    [reflexivity..|exact I|exact Hc|]. intros c' [= <-]. exact Hl.
Defined.

(** Replica [0] of two, after the handshakes. *)
Definition tx_handshake : DamPeerMessage (N * N) TxTee := mkDamMessage 1 (Handshake (PubKey_default : de_PublicKey TxTee)).
Definition tx_run : Outcome (TxReplica * list (DamOutput (N * N) TxTee) * TxReplica) :=
  s ← Damysus_new dx_clock 0 0 2 1 2 1000 1000;
  r1 ← dam_init_handshake dx_clock 20 s;
  r2 ← dam_process_peer_message dx_clock 20 tx_handshake r1.2;
  Val (s, [r1.1; r2.1], r2.2).

Lemma tx_run_ok s os s' :
  tx_run = Val (s, os, s') -> Damysus_new dx_clock 0 0 2 1 2 1000 1000 = Val s /\ dam_run dx_clock s os s'.
Proof.
  unfold tx_run. intros (s0 & Hs & Hr)%outcome_bind_inv. apply outcome_bind_inv in Hr as ([o1 s1] & H1r & Hr).
  apply outcome_bind_inv in Hr as ([o2 s2] & H2r & [= <- <- <-]). split; [exact Hs|].
  change [o1; o2] with (([] ++ [o1]) ++ [o2]). eapply drun_snoc; [eapply drun_snoc; [apply drun_nil|]|].
  - by eapply dstep_handshake.
  - by eapply dstep_message; [|exact H2r].
Qed.

Lemma tx_run_Val (Q : TxReplica -> bool) :
  match tx_run with Val (_, _, s') => Q s' | _ => false end = true ->
  exists s os s', Damysus_new dx_clock 0 0 2 1 2 1000 1000 = Val s /\ dam_run dx_clock s os s' /\ Q s' = true.
Proof.
  destruct tx_run as [[[s os] s']| |] eqn:Hr; [|discriminate..]. intros Hq. apply tx_run_ok in Hr as [? ?]. by exists s, os, s'.
Qed.

Lemma dam_tee_replica_witness :
  exists (s : TxReplica) os s', dam_inv_upto 0 (dam_delivery os) s' /\ dam_grows s s' /\ dam_view s' = 1%N.
Proof.
  destruct (tx_run_Val (fun s => (dam_view s =? 1)%N)) as (s & os & s' & Hs & Hr & Hv); [vm_compute; reflexivity|].
  exists s, os, s'.
  destruct (dam_tee_replica (B := N) tx_created dx_clock 0 0 2 1 2 1000 1000 s os s') as (Hi & Hg & _);
    [reflexivity|vm_compute; discriminate|exact Hs|exact Hr|].
  split; [exact Hi|]. split; [exact Hg|]. apply N.eqb_eq. exact Hv.
Defined.

(** A commitment of a creator outside the group, sent to that replica. *)
Definition tx_stranger : SignedCommitment RawSignature :=
  SignedCommitment_new (mkCommitment 5 3 0 [] 0 [] NewView Usig) (mkRawSignature []).

Lemma dam_tee_unknown_creator_panics_witness :
  exists (s : TxReplica) os s', dam_run dx_clock s os s'
    /\ dam_dispatch dx_clock (mkDamMessage 5 (CommitmentMsg tx_stranger) : DamPeerMessage (N * N) TxTee) s' = Panic.
Proof.
  destruct (tx_run_Val (fun s => bool_decide (mjoin (nth_u64 (te_pub_keys (dam_enclave s)) 5) = None) && (dam_view s <=? 4)%N))
    as (s & os & s' & _ & Hr & [Hk%bool_decide_eq_true Hv%N.leb_le]%andb_true_iff); [vm_compute; reflexivity|].
  exists s, os, s'. split; [exact Hr|].
  apply (dam_tee_unknown_creator_panics (B := N) tx_created dx_clock s' tx_stranger); [exact Hk|vm_compute; reflexivity|exact Hv].
Defined.
