(* ===== verification/NxTee.v ===== *)
(** * NxBFT: the enclave in SGX

    Models [src/atomic-broadcast/nxbft/nxbft-tee-enclave] (the code in the
    enclave), [nxbft-tee-shared] (the errors that cross its boundary) and
    [nxbft-tee] (the host's side, an [Enclave] like [SimpleEnclave]).

    The key exchange, AES-GCM and the signatures of [sgx_crypto] are the class
    [NxCrypto]; what the random generators of the enclave return is the entropy of
    [new] and [init].  The host's [Signature] is a [RawSignature] and serializes as
    one, so it is not wrapped here. *)

From Stdlib Require Import ZArith Lia.
From stdpp Require Import base list gmap sets numbers option finite countable.
From S2P Require Import Prelude Ids Heaps NxBase NxEnclave Sgx.

(** ** [nxbft-tee-shared] *)

Inductive SgxEnclaveTrustedError :=
| InvalidHandshake | InvalidHandshakeLength | AesInitFailed | AesEncryptFailed | RngInitFailed | SigningFailed
| EcVerifyFailed.

Inductive InitPeerHandshakeError :=
| IH_DuplicateHello | IH_InvalidAttestation | IH_InvalidPeerId | IH_NotReady | IH_NotEnoughValidVertices
| IH_InvalidVertexRound | IH_AesInitFailed | IH_AesEncryptFailed | IH_RngInitFailed | IH_SigningFailed
| IH_EcVerifyFailed | IH_InvalidHandshake | IH_InvalidHandshakeLength.
Inductive CompletePeerHandshakeError :=
| CH_MissingAttestation | CH_DuplicateReply | CH_InvalidHandshakeEncryption | CH_InvalidPeerId | CH_NotReady
| CH_NotEnoughValidVertices | CH_InvalidVertexRound | CH_AesInitFailed | CH_AesEncryptFailed | CH_RngInitFailed
| CH_SigningFailed | CH_EcVerifyFailed | CH_InvalidHandshake | CH_InvalidHandshakeLength.
Inductive EnclaveAutomataFFIError :=
| FE_InvalidPeerId | FE_NotReady | FE_NotEnoughValidVertices | FE_InvalidVertexRound | FE_InvalidHandshakeEncryption
| FE_AesInitFailed | FE_AesEncryptFailed | FE_RngInitFailed | FE_SigningFailed | FE_EcVerifyFailed | FE_Bincode
| FE_ExportBufferToSmall | FE_NotInitialized | FE_AlreadyInitialized | FE_KeyGenFailed | FE_InvalidHandshake
| FE_InvalidHandshakeLength.
Inductive IsReadyResult := Ready | NotReady.

#[export] Instance InitPeerHandshakeError_eq_dec : EqDecision InitPeerHandshakeError.
Proof. solve_decision. Defined.
#[export] Instance CompletePeerHandshakeError_eq_dec : EqDecision CompletePeerHandshakeError.
Proof. solve_decision. Defined.
#[export] Instance EnclaveAutomataFFIError_eq_dec : EqDecision EnclaveAutomataFFIError.
Proof. solve_decision. Defined.

#[local] Ltac solve_finite := first [apply (bool_decide_unpack _); vm_compute; exact I | intros []; apply (bool_decide_unpack _); vm_compute; exact I].
#[export, refine] Instance InitPeerHandshakeError_finite : Finite InitPeerHandshakeError :=
  {| enum := [IH_DuplicateHello; IH_InvalidAttestation; IH_InvalidPeerId; IH_NotReady; IH_NotEnoughValidVertices;
              IH_InvalidVertexRound; IH_AesInitFailed; IH_AesEncryptFailed; IH_RngInitFailed; IH_SigningFailed;
              IH_EcVerifyFailed; IH_InvalidHandshake; IH_InvalidHandshakeLength] |}.
Proof. all: solve_finite. Defined.
#[export, refine] Instance CompletePeerHandshakeError_finite : Finite CompletePeerHandshakeError :=
  {| enum := [CH_MissingAttestation; CH_DuplicateReply; CH_InvalidHandshakeEncryption; CH_InvalidPeerId; CH_NotReady;
              CH_NotEnoughValidVertices; CH_InvalidVertexRound; CH_AesInitFailed; CH_AesEncryptFailed; CH_RngInitFailed;
              CH_SigningFailed; CH_EcVerifyFailed; CH_InvalidHandshake; CH_InvalidHandshakeLength] |}.
Proof. all: solve_finite. Defined.
#[export, refine] Instance EnclaveAutomataFFIError_finite : Finite EnclaveAutomataFFIError :=
  {| enum := [FE_InvalidPeerId; FE_NotReady; FE_NotEnoughValidVertices; FE_InvalidVertexRound;
              FE_InvalidHandshakeEncryption; FE_AesInitFailed; FE_AesEncryptFailed; FE_RngInitFailed; FE_SigningFailed;
              FE_EcVerifyFailed; FE_Bincode; FE_ExportBufferToSmall; FE_NotInitialized; FE_AlreadyInitialized;
              FE_KeyGenFailed; FE_InvalidHandshake; FE_InvalidHandshakeLength] |}.
Proof. all: solve_finite. Defined.

(** [From<EnclaveAutomataError<SgxEnclaveTrustedError>>] *)
Definition InitPeerHandshakeError_from (e : EnclaveAutomataError SgxEnclaveTrustedError) : InitPeerHandshakeError :=
  match e with
  | EA_InvalidPeerId => IH_InvalidPeerId
  | EA_NotReady => IH_NotReady
  | EA_NotEnoughValidVertices => IH_NotEnoughValidVertices
  | EA_InvalidVertexRound => IH_InvalidVertexRound
  | EA_EnclaveTrusted AesInitFailed => IH_AesInitFailed
  | EA_EnclaveTrusted AesEncryptFailed => IH_AesEncryptFailed
  | EA_EnclaveTrusted RngInitFailed => IH_RngInitFailed
  | EA_EnclaveTrusted SigningFailed => IH_SigningFailed
  | EA_EnclaveTrusted EcVerifyFailed => IH_EcVerifyFailed
  | EA_EnclaveTrusted InvalidHandshake => IH_InvalidHandshake
  | EA_EnclaveTrusted InvalidHandshakeLength => IH_InvalidHandshakeLength
  end.
Definition CompletePeerHandshakeError_from (e : EnclaveAutomataError SgxEnclaveTrustedError) : CompletePeerHandshakeError :=
  match e with
  | EA_InvalidPeerId => CH_InvalidPeerId
  | EA_NotReady => CH_NotReady
  | EA_NotEnoughValidVertices => CH_NotEnoughValidVertices
  | EA_InvalidVertexRound => CH_InvalidVertexRound
  | EA_EnclaveTrusted AesInitFailed => CH_AesInitFailed
  | EA_EnclaveTrusted AesEncryptFailed => CH_AesEncryptFailed
  | EA_EnclaveTrusted RngInitFailed => CH_RngInitFailed
  | EA_EnclaveTrusted SigningFailed => CH_SigningFailed
  | EA_EnclaveTrusted EcVerifyFailed => CH_EcVerifyFailed
  | EA_EnclaveTrusted InvalidHandshake => CH_InvalidHandshake
  | EA_EnclaveTrusted InvalidHandshakeLength => CH_InvalidHandshakeLength
  end.
Definition EnclaveAutomataFFIError_from (e : EnclaveAutomataError SgxEnclaveTrustedError) : EnclaveAutomataFFIError :=
  match e with
  | EA_InvalidPeerId => FE_InvalidPeerId
  | EA_NotReady => FE_NotReady
  | EA_NotEnoughValidVertices => FE_NotEnoughValidVertices
  | EA_InvalidVertexRound => FE_InvalidVertexRound
  | EA_EnclaveTrusted AesInitFailed => FE_AesInitFailed
  | EA_EnclaveTrusted AesEncryptFailed => FE_AesEncryptFailed
  | EA_EnclaveTrusted RngInitFailed => FE_RngInitFailed
  | EA_EnclaveTrusted SigningFailed => FE_SigningFailed
  | EA_EnclaveTrusted EcVerifyFailed => FE_EcVerifyFailed
  | EA_EnclaveTrusted InvalidHandshake => FE_InvalidHandshake
  | EA_EnclaveTrusted InvalidHandshakeLength => FE_InvalidHandshakeLength
  end.

(** [impl_result!] without an [Ok]. *)
Definition IsReadyResult_repr (r : IsReadyResult) : N := match r with Ready => 0%N | NotReady => 1%N end.
Definition IsReadyResult_from_repr (n : N) : option IsReadyResult :=
  if (n =? 0)%N then Some Ready else if (n =? 1)%N then Some NotReady else None.

(** ** [sgx_crypto] *)

(** A message authentication code, 16 bytes. *)
Definition Mac128bit : Type := list N.

(** [shared_key] is [EcPrivateKey::shared_key] with [derive_key]: [None] where one
    of them fails.  [AesGcm::new] is applied to that key, a nonce of zeros and no
    additional data. *)
Class NxCrypto `{Ecc} := {
  Key128bit : Type;
  AesGcm : Type;
  shared_key : KeyPair -> PubKey -> option Key128bit;
  AesGcm_new : Key128bit -> option AesGcm;
  aes_encrypt : AesGcm -> list N -> option (list N * Mac128bit);
  aes_decrypt : AesGcm -> list N -> Mac128bit -> option (list N);
  ec_try_sign : KeyPair -> list N -> option Ec256Signature;
  ec_try_verify : PubKey -> list N -> Ec256Signature -> Result bool SgxError;
}.
Class NxCryptoLaws `{NxCrypto} : Prop := {
  shared_key_sym : forall k k', shared_key k (kp_public_key k') = shared_key k' (kp_public_key k);
  aes_decrypt_encrypt : forall aes m c mac, aes_encrypt aes m = Some (c, mac) ->
    length c = length m /\ aes_decrypt aes c mac = Some m;
  ec_try_correct : forall k m s, ec_try_sign k m = Some s ->
    Ec256Signature_wf s /\ ec_try_verify (kp_public_key k) m s = Ok true;
}.

Section tee.
  Context {P : Profile} {B : Type} `{BitSet B} `{Digests} `{Rand} `{NxCrypto} `{SgxRuntime}.
  Context {M : Type -> Type} `{RangeInclusiveMap M}.

(** ** [nxbft-tee-enclave]: what the automaton uses *)

Record SgxEnclaveTrusted := mkSgxTrusted { st_key_pair : KeyPair }.

Definition gen_shared_key (priv_key : KeyPair) (pub_key : PubKey) : Outcome Key128bit := unwrap (shared_key priv_key pub_key).

Definition seal_seed_share (t : SgxEnclaveTrusted) (attestation : PubKey * list N) (share : list N)
    : Outcome (Result (list N * Mac128bit) SgxEnclaveTrustedError) :=
  key ← gen_shared_key (st_key_pair t) attestation.1;
  match AesGcm_new key with
  | None => Val (Err AesInitFailed)
  | Some aes =>
      match aes_encrypt aes share with
      | None => Val (Err AesEncryptFailed)
      | Some encrypted => Val (Ok encrypted)
      end
  end.

Definition unseal_seed_share (t : SgxEnclaveTrusted) (share : list N * Mac128bit) (attestation : PubKey * list N)
    : Outcome (Result (list N) SgxEnclaveTrustedError) :=
  key ← gen_shared_key (st_key_pair t) attestation.1;
  match AesGcm_new key with
  | None => Val (Err AesInitFailed)
  | Some aes =>
      if negb (length share.1 =? 32) then Val (Err InvalidHandshakeLength) else
      match aes_decrypt aes share.1 share.2 with
      | None => Val (Err InvalidHandshake)
      | Some handshake => Val (Ok handshake)
      end
  end.

(** The counter is appended big-endian. *)
Definition sign_data (message_hash : list N) (counter : N) : list N := message_hash ++ reverse (to_le_bytes counter).

Definition SgxEnclaveTrusted_sign (t : SgxEnclaveTrusted) (message_hash : list N) (counter : N)
    : Result RawSignature SgxEnclaveTrustedError :=
  match ec_try_sign (st_key_pair t) (sign_data message_hash counter) with
  | None => Err SigningFailed
  | Some signature => Ok (RawSignature_from signature)
  end.

Definition SgxEnclaveTrusted_verify (attestation : PubKey * list N) (counter : N) (message_hash : list N)
    (signature : RawSignature) : Result bool SgxEnclaveTrustedError :=
  match ec_try_verify attestation.1 (sign_data message_hash counter) (Ec256Signature_from signature) with
  | Ok valid => Ok valid
  | Err _ => Err EcVerifyFailed
  end.

(** The entropy is what the random generator returns, [None] if it cannot be created. *)
#[export] Instance SgxEnclaveTrusted_impl : EnclaveTrusted SgxEnclaveTrusted := {|
  et_Attestation := PubKey * list N;
  et_Error := SgxEnclaveTrustedError;
  et_Handshake := list N * Mac128bit;
  et_Signature := RawSignature;
  et_Entropy := option (list N);
  et_gen_seed_share := fun ent _ => match ent with Some seed_share => Ok seed_share | None => Err RngInitFailed end;
  et_seal_seed_share := seal_seed_share;
  et_unseal_seed_share := unseal_seed_share;
  et_sign := fun t message_hash counter => (SgxEnclaveTrusted_sign t message_hash counter, t);
  et_verify := SgxEnclaveTrusted_verify;
  et_get_attestation_certificate := fun t => (Ok (kp_public_key (st_key_pair t), []), t);
|}.

(** ** [nxbft-tee-enclave]: the state and the calls *)

Local Abbreviation Automata := (EnclaveAutomata M SgxEnclaveTrusted).
Local Abbreviation Exported := (EnclaveAutomataExport M SgxEnclaveTrusted).
Context `{Bincode (list (SignedVertex B RawSignature))} `{Bincode (EnclaveAutomataExport M SgxEnclaveTrusted)}.

(** [SHARED_STATE], which is set once. *)
Definition SharedState : Type := option Automata.

(** What [EcKeyPair::create] and the random generator return. *)
Record TeeEntropy := mkTeeEntropy { en_key_pair : option KeyPair; en_seed_share : option (list N) }.

(** [SharedState::init] *)
Definition SharedState_init (ent : TeeEntropy) (n : N) : Outcome (Result Automata EnclaveAutomataFFIError) :=
  match en_key_pair ent with
  | None => Val (Err FE_KeyGenFailed)
  | Some key_pair =>
      automata ← EnclaveAutomata_new n (mkSgxTrusted key_pair);
      r ← EnclaveAutomata_init (Enc := SgxEnclaveTrusted) (en_seed_share ent) automata;
      match r.1 with
      | Ok () => Val (Ok r.2)
      | Err e => Val (Err (EnclaveAutomataFFIError_from e))
      end
  end.

(** [shared_state]: unwraps the state. *)
Definition shared_state {A} (f : Automata -> Outcome (A * Automata)) : St SharedState A := fun s =>
  automata ← unwrap s;
  r ← f automata;
  Val (r.1, Some r.2).

Definition init_safe (ent : TeeEntropy) (n : N) : St SharedState (Result () EnclaveAutomataFFIError * ()) := fun s =>
  r ← SharedState_init ent n;
  match r with
  | Err e => Val ((Err e, ()), s)
  | Ok automata =>
      match s with
      | Some _ => Val ((Err FE_AlreadyInitialized, ()), s)
      | None => Val ((Ok (), ()), Some automata)
      end
  end.

Definition attest_safe (local_pub_key : PubKey) (local_ra : list N) (local_ra_len : nat)
    : St SharedState (Result () EnclaveAutomataFFIError * (PubKey * (list N * nat))) :=
  shared_state (fun a =>
    r ← EnclaveAutomata_get_attestation_certificate a;
    Val (match r.1 with
         | Ok (key, _) => (Ok (), (key, (local_ra, 0)))
         | Err e => (Err (EnclaveAutomataFFIError_from e), (local_pub_key, (local_ra, local_ra_len)))
         end, r.2)).

(** [SharedState::init_peer_handshake]; the slice of the buffer is out of range
    when the secret is longer. *)
Definition init_peer_handshake_safe (peer_id : N) (remote_pub_key : PubKey) (remote_ra secret : list N) (secret_len : nat)
    (mac : Mac128bit) : St SharedState (Result () InitPeerHandshakeError * (list N * nat * Mac128bit)) :=
  shared_state (fun a =>
    r ← EnclaveAutomata_init_peer_handshake (Enc := SgxEnclaveTrusted) a peer_id (remote_pub_key, remote_ra);
    match r.1 with
    | IHR_Ok (s, m) =>
        rust_assert (length s <=? length secret) ;;
        Val ((Ok (), (s ++ drop (length s) secret, length s, m)), r.2)
    | IHR_DuplicateHello => Val ((Err IH_DuplicateHello, (secret, secret_len, mac)), r.2)
    | IHR_InvalidAttestation => Val ((Err IH_InvalidAttestation, (secret, secret_len, mac)), r.2)
    | IHR_EnclaveError e => Val ((Err (InitPeerHandshakeError_from e), (secret, secret_len, mac)), r.2)
    end).

Definition complete_peer_handshake_safe (peer_id : N) (remote_proposed_secret : list N) (mac : Mac128bit)
    : St SharedState (Result () CompletePeerHandshakeError * ()) :=
  shared_state (fun a =>
    r ← EnclaveAutomata_complete_peer_handshake (Enc := SgxEnclaveTrusted) a peer_id (remote_proposed_secret, mac);
    Val (match r.1 with
         | HR_MissingAttestation => (Err CH_MissingAttestation, ())
         | HR_DuplicateReply => (Err CH_DuplicateReply, ())
         | HR_InvalidHandshakeEncryption => (Err CH_InvalidHandshakeEncryption, ())
         | HR_Ok => (Ok (), ())
         | HR_EnclaveError e => (Err (CompletePeerHandshakeError_from e), ())
         end, r.2)).

Definition is_ready_safe : St SharedState IsReadyResult := fun s =>
  Val (match s with Some a => if EnclaveAutomata_is_ready a then Ready else NotReady | None => NotReady end, s).

Definition sign_safe (message : list N) (signature : Ec256Signature) (counter : N)
    : St SharedState (Result () EnclaveAutomataFFIError * (Ec256Signature * N)) :=
  shared_state (fun a =>
    r ← EnclaveAutomata_sign (Enc := SgxEnclaveTrusted) a message;
    Val (match r.1 with
         | Ok (sig, count) => (Ok (), (Ec256Signature_from sig, count))
         | Err e => (Err (EnclaveAutomataFFIError_from e), (signature, counter))
         end, r.2)).

Definition toss_safe (proof : list N) (peer_id : N) : St SharedState (Result () EnclaveAutomataFFIError * N) :=
  shared_state (fun a =>
    match bincode_deserialize (T := list (SignedVertex B RawSignature)) proof with
    | None => Val ((Err FE_Bincode, peer_id), a)
    | Some proof =>
        r ← EnclaveAutomata_toss (Enc := SgxEnclaveTrusted) a proof;
        Val (match r.1 with
             | Ok id => (Ok (), as_u64 id)
             | Err e => (Err (EnclaveAutomataFFIError_from e), peer_id)
             end, r.2)
    end).

Definition export_safe (export : list N) (export_len : nat)
    : St SharedState (Result () EnclaveAutomataFFIError * (list N * nat)) :=
  shared_state (fun a =>
    r ← EnclaveAutomata_export a;
    Val (match r with
         | Ok ex => write_out (bincode_serialize (T := Exported) ex) export export_len FE_ExportBufferToSmall
         | Err e => (Err (EnclaveAutomataFFIError_from e), (export, export_len))
         end, a)).

Definition recover_safe (ent : TeeEntropy) (export : list N) : St SharedState (Result () EnclaveAutomataFFIError * ()) :=
  match bincode_deserialize (T := Exported) export with
  | None => mret (Err FE_Bincode, ())
  | Some export =>
      r ← init_safe ent (ex_n export);
      match r.1 with
      | Err e => mret (Err e, ())
      | Ok () =>
          shared_state (fun a =>
            r ← EnclaveAutomata_recover a export;
            Val (match r.1 with Ok () => (Ok (), ()) | Err e => (Err (EnclaveAutomataFFIError_from e), ()) end, r.2))
      end
  end.

(** [SharedState::replace_peer] passes on an error and drops the [bool]. *)
Definition replace_peer_safe (peer_id : N) (remote_pub_key : PubKey) (remote_ra : list N) (max_round : N)
    : St SharedState (Result () EnclaveAutomataFFIError * ()) :=
  shared_state (fun a =>
    r ← EnclaveAutomata_replace_peer (Enc := SgxEnclaveTrusted) a peer_id (remote_pub_key, remote_ra) max_round;
    Val (match r.1 with Ok _ => (Ok (), ()) | Err e => (Err (EnclaveAutomataFFIError_from e), ()) end, r.2)).

(** *** The functions the enclave exports *)

Definition ecall_init (ent : TeeEntropy) (n : N) : St SharedState (N * ()) := returns (init_safe ent n).

Definition ecall_attest (local_pub_key : PubKey) (local_ra : Ptr N * N) (local_ra_len : nat)
    : St SharedState (N * (PubKey * (list N * nat))) :=
  local_ra ← lift (call_param_to_slice local_ra.1 local_ra.2);
  returns (attest_safe local_pub_key local_ra local_ra_len).

Definition ecall_init_peer_handshake (peer_id : N) (remote_pub_key : PubKey) (remote_ra secret : Ptr N * N) (secret_len : nat)
    (mac : Mac128bit) : St SharedState (N * (list N * nat * Mac128bit)) :=
  remote_ra ← lift (call_param_to_slice remote_ra.1 remote_ra.2);
  secret ← lift (call_param_to_slice secret.1 secret.2);
  returns (init_peer_handshake_safe peer_id remote_pub_key remote_ra secret secret_len mac).

Definition ecall_complete_peer_handshake (peer_id : N) (secret : Ptr N * N) (mac : Mac128bit) : St SharedState (N * ()) :=
  secret ← lift (call_param_to_slice secret.1 secret.2);
  returns (complete_peer_handshake_safe peer_id secret mac).

Definition ecall_is_ready : St SharedState N := r ← is_ready_safe; mret (IsReadyResult_repr r).

Definition ecall_sign (payload : Ptr N * N) (signature : Ec256Signature) (counter : N) : St SharedState (N * (Ec256Signature * N)) :=
  payload ← lift (call_param_to_slice payload.1 payload.2);
  returns (sign_safe payload signature counter).

Definition ecall_toss (proof : Ptr N * N) (peer_id : N) : St SharedState (N * N) :=
  proof ← lift (call_param_to_slice proof.1 proof.2);
  returns (toss_safe proof peer_id).

Definition ecall_export (export : Ptr N * N) (export_len : nat) : St SharedState (N * (list N * nat)) :=
  export ← lift (call_param_to_slice export.1 export.2);
  returns (export_safe export export_len).

Definition ecall_recover (ent : TeeEntropy) (export : Ptr N * N) : St SharedState (N * ()) :=
  export ← lift (call_param_to_slice export.1 export.2);
  returns (recover_safe ent export).

Definition ecall_replace_peer (peer_id : N) (remote_pub_key : PubKey) (remote_ra : Ptr N * N) (max_round : N)
    : St SharedState (N * ()) :=
  remote_ra ← lift (call_param_to_slice remote_ra.1 remote_ra.2);
  returns (replace_peer_safe peer_id remote_pub_key remote_ra max_round).

(** ** [nxbft-tee]: the host *)

Local Abbreviation Enclave' := (SgxEnclave SharedState).
Local Abbreviation Sgx A := (Outcome (A * Enclave')).

(** The defaults the host's buffers start with. *)
Definition PubKey_default : PubKey := mkPubKey (replicate 32 0%N) (replicate 32 0%N).
Definition Ec256Signature_default : Ec256Signature := mkEc256Signature (replicate 8 0%N) (replicate 8 0%N).
Definition Mac128bit_default : Mac128bit := replicate 16 0%N.

(** [result.map(|()| ..)] of what the call left in its parameters. *)
Definition call_map {E A X} `{Finite E} (body : St SharedState (N * A)) (f : A -> X) (e : Enclave')
    : Sgx (Result (Result X E) SgxError) :=
  r ← enclave_fn (E := E) body e;
  Val (match r.1 with
       | Err error => Err error
       | Ok (Err error, _) => Ok (Err error)
       | Ok (Ok (), a) => Ok (Ok (f a))
       end, r.2).

Definition NxbftEnclave_init (ent : TeeEntropy) (n : N) (e : Enclave') : Sgx (Result (Result () EnclaveAutomataFFIError) SgxError) :=
  call_map (ecall_init ent n) (fun _ => ()) e.

Definition NxbftEnclave_attest (max_len : nat) (e : Enclave')
    : Sgx (Result (Result (PubKey * list N) EnclaveAutomataFFIError) SgxError) :=
  call_map (ecall_attest PubKey_default (call_param_to_ptr (replicate max_len 0%N)) 0)
    (fun '(local_pub_key, (local_ra, len)) => (local_pub_key, take len local_ra)) e.

Definition NxbftEnclave_init_peer_handshake (peer_id : N) (remote_pub_key : PubKey) (remote_ra : list N) (max_len : nat)
    (e : Enclave') : Sgx (Result (Result (list N * Mac128bit) InitPeerHandshakeError) SgxError) :=
  call_map (ecall_init_peer_handshake peer_id remote_pub_key (call_param_to_ptr remote_ra)
              (call_param_to_ptr (replicate max_len 0%N)) 0 Mac128bit_default)
    (fun '(secret, len, mac) => (take len secret, mac)) e.

Definition NxbftEnclave_complete_peer_handshake (peer_id : N) (secret : list N) (mac : Mac128bit) (e : Enclave')
    : Sgx (Result (Result () CompletePeerHandshakeError) SgxError) :=
  call_map (ecall_complete_peer_handshake peer_id (call_param_to_ptr secret) mac) (fun _ => ()) e.

Definition NxbftEnclave_is_ready (e : Enclave') : Sgx (Result IsReadyResult SgxError) :=
  r ← ecall ecall_is_ready e;
  match r.1 with
  | Err error => Val (Err error, r.2)
  | Ok ret_val => res ← unwrap (IsReadyResult_from_repr ret_val); Val (Ok res, r.2)
  end.

Definition NxbftEnclave_sign (message : list N) (e : Enclave')
    : Sgx (Result (Result (Ec256Signature * N) EnclaveAutomataFFIError) SgxError) :=
  call_map (ecall_sign (call_param_to_ptr message) Ec256Signature_default 0) id e.

Definition NxbftEnclave_toss (proof : list N) (e : Enclave') : Sgx (Result (Result N EnclaveAutomataFFIError) SgxError) :=
  call_map (ecall_toss (call_param_to_ptr proof) 0) id e.

Definition NxbftEnclave_export (max_len : nat) (e : Enclave')
    : Sgx (Result (Result (list N) EnclaveAutomataFFIError) SgxError) :=
  call_map (ecall_export (call_param_to_ptr (replicate max_len 0%N)) 0) (fun '(export, len) => take len export) e.

Definition NxbftEnclave_recover (ent : TeeEntropy) (export : list N) (e : Enclave')
    : Sgx (Result (Result () EnclaveAutomataFFIError) SgxError) :=
  call_map (ecall_recover ent (call_param_to_ptr export)) (fun _ => ()) e.

Definition NxbftEnclave_replace_peer (peer_id : N) (remote_pub_key : PubKey) (remote_ra : list N) (max_round : N) (e : Enclave')
    : Sgx (Result (Result () EnclaveAutomataFFIError) SgxError) :=
  call_map (ecall_replace_peer peer_id remote_pub_key (call_param_to_ptr remote_ra) max_round) (fun _ => ()) e.

(** [EnclaveError] *)
Inductive NxbftError :=
| NE_SgxError (e : SgxError)
| NE_EnclaveAutomataFFI (e : EnclaveAutomataFFIError)
| NE_InitPeerHandshake (e : InitPeerHandshakeError)
| NE_CompletePeerHandshake (e : CompletePeerHandshakeError)
| NE_Bincode
| NE_UnknownPeerId (id : N).

Record TeeAttestation := mkAttestation { at_pub_key : PubKey; at_intel_report : list N }.
Record TeeHandshake := mkHandshake { hs_proposed_secret : list N; hs_proposed_secret_mac : Mac128bit }.
#[export] Instance TeeAttestation_eq_dec : EqDecision TeeAttestation.
Proof. solve_decision. Defined.
#[export, refine] Instance TeeAttestation_countable : Countable TeeAttestation :=
  inj_countable' (fun a => (pk_gx (at_pub_key a), pk_gy (at_pub_key a), at_intel_report a))
    (fun '(x, y, r) => mkAttestation (mkPubKey x y) r) _.
Proof. by intros [[] ?]. Defined.

Record NxbftTEE := mkNxbftTEE {
  tn_enclave : Enclave';
  tn_pubkeys : list (option (PubKey * M PubKey));
  tn_n : N;
  (** What the enclave's generators will return. *)
  tn_entropy : TeeEntropy;
}.
#[export] Instance NxbftTEE_eta : Eta NxbftTEE := fun t => mkNxbftTEE (tn_enclave t) (tn_pubkeys t) (tn_n t) (tn_entropy t).

(** [NxbftEnclave::new] *)
Definition NxbftEnclave_new : Outcome Enclave' :=
  match sgx_create with Some _ => Panic | None => Val (mkSgxEnclave None false 0) end.

Definition NxbftTEE_new (ent : TeeEntropy) (n : N) : Outcome NxbftTEE :=
  rust_assert (3 <=? n)%N ;;
  enclave ← NxbftEnclave_new;
  Val (mkNxbftTEE enclave (IdMap_new None n) n ent).

(** [self.enclave.f(..)??] *)
Definition ffi {X} (call : Enclave' -> Sgx (Result (Result X EnclaveAutomataFFIError) SgxError)) (t : NxbftTEE)
    : Outcome (Result X NxbftError * NxbftTEE) :=
  r ← call (tn_enclave t);
  Val (match r.1 with
       | Err e => Err (NE_SgxError e)
       | Ok (Err e) => Err (NE_EnclaveAutomataFFI e)
       | Ok (Ok x) => Ok x
       end, t.[tn_enclave := r.2]).

Definition NxbftTEE_init (ent : TeeEntropy) (t : NxbftTEE) : Outcome (Result () NxbftError * NxbftTEE) :=
  ffi (NxbftEnclave_init ent (tn_n t)) t.

Definition NxbftTEE_get_attestation_certificate (t : NxbftTEE) : Outcome (Result TeeAttestation NxbftError * NxbftTEE) :=
  r ← ffi (NxbftEnclave_attest 4096) t;
  Val (match r.1 with Ok (pubkey, local_ra) => Ok (mkAttestation pubkey local_ra) | Err e => Err e end, r.2).

Definition NxbftTEE_init_peer_handshake (t : NxbftTEE) (peer_id : N) (attestation : TeeAttestation)
    : Outcome (InitHandshakeResult TeeHandshake NxbftError * NxbftTEE) :=
  r ← NxbftEnclave_init_peer_handshake peer_id (at_pub_key attestation) (at_intel_report attestation) 4096 (tn_enclave t);
  let t := t.[tn_enclave := r.2] in
  match r.1 with
  | Err e => Val (IHR_EnclaveError (NE_SgxError e), t)
  | Ok (Err IH_DuplicateHello) => Val (IHR_DuplicateHello, t)
  | Ok (Err IH_InvalidAttestation) => Val (IHR_InvalidAttestation, t)
  | Ok (Err e) => Val (IHR_EnclaveError (NE_InitPeerHandshake e), t)
  | Ok (Ok (proposed_secret, mac)) =>
      x ← IdMap_index (tn_pubkeys t) peer_id;
      rust_assert (match x with None => true | Some _ => false end) ;;
      pubkeys ← IdMap_index_mut (tn_pubkeys t) peer_id (Some (at_pub_key attestation, rim_new));
      Val (IHR_Ok (mkHandshake proposed_secret mac), t.[tn_pubkeys := pubkeys])
  end.

Definition NxbftTEE_complete_peer_handshake (t : NxbftTEE) (peer_id : N) (handshake : TeeHandshake)
    : Outcome (HandshakeResult NxbftError * NxbftTEE) :=
  r ← NxbftEnclave_complete_peer_handshake peer_id (hs_proposed_secret handshake) (hs_proposed_secret_mac handshake) (tn_enclave t);
  let t := t.[tn_enclave := r.2] in
  Val (match r.1 with
       | Err e => HR_EnclaveError (NE_SgxError e)
       | Ok (Ok ()) => HR_Ok
       | Ok (Err CH_MissingAttestation) => HR_MissingAttestation
       | Ok (Err CH_DuplicateReply) => HR_DuplicateReply
       | Ok (Err CH_InvalidHandshakeEncryption) => HR_InvalidHandshakeEncryption
       | Ok (Err e) => HR_EnclaveError (NE_CompletePeerHandshake e)
       end, t).

Definition NxbftTEE_sign (t : NxbftTEE) (payload : SignableVertex B) : Outcome (Result (RawSignature * N) NxbftError * NxbftTEE) :=
  r ← ffi (NxbftEnclave_sign (SignableVertex_to_hash payload)) t;
  Val (match r.1 with Ok (signature, counter) => Ok (RawSignature_from signature, counter) | Err e => Err e end, r.2).

Definition NxbftTEE_toss (t : NxbftTEE) (proof : list (SignedVertex B RawSignature)) : Outcome (Result N NxbftError * NxbftTEE) :=
  r ← ffi (NxbftEnclave_toss (bincode_serialize proof)) t;
  Val (match r.1 with Ok peer_id => Ok (from_u64 peer_id) | Err e => Err e end, r.2).

(** The key a vertex of [round] is checked against. *)
Definition pubkey_for (entry : option (PubKey * M PubKey)) (round : N) : option PubKey :=
  match entry with Some (key, old_keys) => Some (from_option id key (rim_get old_keys round)) | None => None end.

Definition NxbftTEE_verify (t : NxbftTEE) (peer_id counter : N) (payload : SignableVertex B) (signature : RawSignature)
    : Outcome (Result bool NxbftError) :=
  key ← ((fun entry => pubkey_for entry (as_u64 (da_round (SignableVertex_address payload)))) <$> IdMap_index (tn_pubkeys t) peer_id);
  Val match key with
      | None => Err (NE_UnknownPeerId peer_id)
      | Some pubkey =>
          match ec_try_verify pubkey (sign_data (SignableVertex_to_hash payload) counter) (Ec256Signature_from signature) with
          | Ok valid => Ok valid
          | Err e => Err (NE_SgxError e)
          end
      end.

Definition NxbftTEE_is_ready (t : NxbftTEE) : Outcome (bool * NxbftTEE) :=
  r ← NxbftEnclave_is_ready (tn_enclave t);
  match r.1 with
  | Err _ => Panic
  | Ok Ready => Val (true, t.[tn_enclave := r.2])
  | Ok NotReady => Val (false, t.[tn_enclave := r.2])
  end.

Definition NxbftTEE_export (t : NxbftTEE)
    : Outcome (Result (list N * list (option (PubKey * M PubKey))) NxbftError * NxbftTEE) :=
  r ← ffi (NxbftEnclave_export 4096) t;
  Val (match r.1 with Ok export => Ok (export, tn_pubkeys t) | Err e => Err e end, r.2).

Definition NxbftTEE_recover (t : NxbftTEE) (export : list N * list (option (PubKey * M PubKey)))
    : Outcome (Result () NxbftError * NxbftTEE) :=
  r ← ffi (NxbftEnclave_recover (tn_entropy t) export.1) t;
  Val (r.1, match r.1 with Ok () => r.2.[tn_pubkeys := export.2] | Err _ => r.2 end).

Definition NxbftTEE_replace_peer (t : NxbftTEE) (peer_id : N) (attestation : TeeAttestation) (max_round : N)
    : Outcome (Result bool NxbftError * NxbftTEE) :=
  r ← NxbftEnclave_replace_peer peer_id (at_pub_key attestation) (at_intel_report attestation) max_round (tn_enclave t);
  let t := t.[tn_enclave := r.2] in
  match r.1 with
  | Err e => Val (Err (NE_SgxError e), t)
  | Ok (Err FE_NotReady) => Val (Ok false, t)
  | Ok (Err e) => Val (Err (NE_EnclaveAutomataFFI e), t)
  | Ok (Ok ()) =>
      x ← IdMap_index (tn_pubkeys t) peer_id;
      x ← unwrap x;
      let '(old, old_keys) := x in
      let lo := from_option (fun '(_, hi, _) => hi) 0%N (rim_last_range_value old_keys) in
      old_keys ← rim_insert old_keys lo max_round old;
      pubkeys ← IdMap_index_mut (tn_pubkeys t) peer_id (Some (at_pub_key attestation, old_keys));
      Val (Ok true, t.[tn_pubkeys := pubkeys])
  end.

#[export] Instance NxbftTEE_impl : Enclave B NxbftTEE := {|
  Signature := RawSignature;
  EnclaveError := NxbftError;
  Attestation := TeeAttestation;
  Handshake := TeeHandshake;
  Export := list N * list (option (PubKey * M PubKey));
  Entropy := TeeEntropy;
  enc_new := NxbftTEE_new;
  enc_get_n := tn_n;
  enc_init := NxbftTEE_init;
  enc_get_attestation_certificate := NxbftTEE_get_attestation_certificate;
  enc_verify_attestation := fun _ _ => Val (Ok true);
  enc_init_peer_handshake := NxbftTEE_init_peer_handshake;
  enc_complete_peer_handshake := NxbftTEE_complete_peer_handshake;
  enc_export := NxbftTEE_export;
  enc_recover := NxbftTEE_recover;
  enc_replace_peer := NxbftTEE_replace_peer;
  enc_sign := NxbftTEE_sign;
  enc_toss := NxbftTEE_toss;
  enc_verify := NxbftTEE_verify;
  enc_is_ready := NxbftTEE_is_ready;
|}.
End tee.
