(* ===== verification/NxTeeFacts.v ===== *)
(** * NxBFT: the enclave in SGX behaves like the automaton

    What crosses the boundary of the enclave is what was put in at the other side
    ([*_call]), so every call of the host is a call of the automaton or leaves the
    state as it was ([ecall_cases]); [NxbftTEE_coin_laws]: the host's side
    discharges [CommonCoinLaws], on which total order rests. *)

From Stdlib Require Import ZArith Lia.
From stdpp Require Import base list gmap sets numbers option finite.
From S2P Require Import Prelude Ids Heaps NxBase NxEnclave NxEnclaveFacts Sgx NxTee.

Section facts.
  Context {P : Profile} {B : Type} `{BitSetLaws B} `{Digests} `{RandLaws} `{NxCrypto} `{SgxRuntime}.
  Context {M : Type -> Type} `{RangeInclusiveMapLaws M}.
  Context `{BincodeLaws (list (SignedVertex B RawSignature))}.
  Context `{BincodeLaws (EnclaveAutomataExport M SgxEnclaveTrusted)}.
  Local Abbreviation Automata := (EnclaveAutomata M SgxEnclaveTrusted).
  Local Abbreviation Enclave' := (SgxEnclave (SharedState (M := M))).
  Local Abbreviation Tee := (NxbftTEE (M := M)).

(** ** Calls *)

Lemma call_map_returns {E A X} `{Finite E} (body : St (SharedState (M := M)) (N * A)) (m : St SharedState (Result () E * A)) (f : A -> X) e r e' :
  (forall s, body s = returns m s) -> call_map (E := E) body f e = Val (r, e') ->
  (sg_state e' = sg_state e /\ exists error, r = Err error)
  \/ exists x a, m (sg_state e) = Val ((x, a), sg_state e')
       /\ r = Ok (match x with Ok () => Ok (f a) | Err error => Err error end).
Proof.
  intros Hb. unfold call_map.
  assert (enclave_fn (E := E) body e = ecall m e) as ->.
  { rewrite <-enclave_fn_returns. unfold enclave_fn, ecall. by rewrite Hb. }
  intros ([x e1] & Hx%ecall_inv & [= <- <-])%outcome_bind_inv. cbn [fst snd].
  destruct Hx as [(er & -> & ->)|([[[]|er] a] & -> & Hm)]; [left; eauto|right..]; by eexists _, a.
Qed.

Lemma shared_state_inv {A} (f : Automata -> Outcome (A * Automata)) s x s' :
  shared_state f s = Val (x, s') -> exists a a', s = Some a /\ f a = Val (x, a') /\ s' = Some a'.
Proof.
  unfold shared_state. intros (a & Ha & (r & Hr & [= <- <-])%outcome_bind_inv)%outcome_bind_inv.
  destruct s as [a0|]; [|done]. injection Ha as ->. destruct r as [r a']. by exists a, a'.
Qed.

(** The result of a method of the host that ends with [??]. *)
Lemma ffi_inv {X} (call : Enclave' -> Outcome (Result (Result X EnclaveAutomataFFIError) SgxError * Enclave')) (t : Tee) r t' :
  ffi call t = Val (r, t') ->
  exists x, call (tn_enclave t) = Val (x, tn_enclave t') /\ tn_n t' = tn_n t /\ tn_pubkeys t' = tn_pubkeys t
    /\ tn_entropy t' = tn_entropy t /\ forall v, r = Ok v <-> x = Ok (Ok v).
Proof.
  unfold ffi. intros ([x e] & Hx & [= <- <-])%outcome_bind_inv. cbn [fst snd]. exists x.
  split; [done|]. split; [done|]. split; [done|]. split; [done|]. destruct x as [[y|]|]; naive_solver.
Qed.

(** What a call does to the state: nothing, or what the automaton does. *)
Definition automata_step (R : Automata -> Automata -> Prop) (e e' : Enclave') : Prop :=
  sg_state e' = sg_state e \/ exists a a', sg_state e = Some a /\ sg_state e' = Some a' /\ R a a'.

Lemma attest_call k e r e' :
  NxbftEnclave_attest k e = Val (r, e') ->
  automata_step (fun a a' => exists x, EnclaveAutomata_get_attestation_certificate a = Val (x, a')) e e'.
Proof.
  intros [[Hs _]|(x & a & Hm & _)]%(call_map_returns _ (attest_safe PubKey_default (replicate k 0%N) 0)); [by left| |].
  - apply shared_state_inv in Hm as (b & b' & Hb & (y & Hy & [= _ <-])%outcome_bind_inv & Hb').
    right. exists b, y.2. destruct y as [y b2]. eauto 10.
  - intros s. unfold ecall_attest. by rewrite with_slice.
Qed.

Lemma init_peer_call i k ra len e r e' :
  NxbftEnclave_init_peer_handshake i k ra len e = Val (r, e') ->
  automata_step (fun a a' => exists x, EnclaveAutomata_init_peer_handshake (Enc := SgxEnclaveTrusted) a i (k, ra) = Val (x, a')) e e'.
Proof.
  intros [[Hs _]|(x & a & Hm & _)]%(call_map_returns _ (init_peer_handshake_safe i k ra (replicate len 0%N) 0 Mac128bit_default)); [by left| |].
  - apply shared_state_inv in Hm as (b & b' & Hb & ([y b2] & Hy & Hr)%outcome_bind_inv & Hb'). right. exists b, b'.
    split; [done|]. split; [done|]. exists y. rewrite Hy. cbn [fst snd] in Hr.
    destruct y as [[s m]| | |]; [apply assert_inv in Hr as [_ Hr]|..]; by injection Hr as _ _ <-.
  - intros s. unfold ecall_init_peer_handshake. by rewrite !with_slice.
Qed.

Lemma complete_call i secret mac e r e' :
  NxbftEnclave_complete_peer_handshake i secret mac e = Val (r, e') ->
  automata_step (fun a a' => exists x,
    EnclaveAutomata_complete_peer_handshake (Enc := SgxEnclaveTrusted) a i (secret, mac) = Val (x, a')) e e'.
Proof.
  intros [[Hs _]|(x & a & Hm & _)]%(call_map_returns _ (complete_peer_handshake_safe i secret mac)); [by left| |].
  - apply shared_state_inv in Hm as (b & b' & Hb & ([y b2] & Hy & [= _ <-])%outcome_bind_inv & Hb').
    right. exists b, b2. eauto.
  - intros s. unfold ecall_complete_peer_handshake. by rewrite with_slice.
Qed.

(** The call of the automaton behind a call that the runtime let through. *)
Definition automata_call {X Y} (call : Automata -> Outcome (X * Automata)) (r : Result Y SgxError)
    (agree : X -> Y -> Prop) (e e' : Enclave') : Prop :=
  (sg_state e' = sg_state e /\ exists error, r = Err error)
  \/ exists a a' x y, sg_state e = Some a /\ sg_state e' = Some a' /\ call a = Val (x, a') /\ r = Ok y /\ agree x y.

Lemma automata_call_step {X Y} call (r : Result Y SgxError) (agree : X -> Y -> Prop) e e' :
  automata_call call r agree e e' -> automata_step (fun a a' => exists x, call a = Val (x, a')) e e'.
Proof. intros [[? _]|(a & a' & x & y & ? & ? & ? & _)]; [by left|right; eauto 10]. Qed.

Lemma sign_call msg e r e' :
  NxbftEnclave_sign msg e = Val (r, e') ->
  automata_call (fun a => EnclaveAutomata_sign (Enc := SgxEnclaveTrusted) a msg) r (fun x y =>
    y = match x with
        | Ok (sig, c) => Ok (Ec256Signature_from sig, c)
        | Err er => Err (EnclaveAutomataFFIError_from er)
        end) e e'.
Proof.
  intros [[Hs [er ->]]|(x & [sg ct] & Hm & ->)]%(call_map_returns _ (sign_safe msg Ec256Signature_default 0)); [left; eauto| |].
  - apply shared_state_inv in Hm as (b & b' & Hb & ([y b2] & Hy & Hr)%outcome_bind_inv & Hb').
    right. exists b, b2, y. cbn [fst snd] in Hr.
    destruct y as [[sig c]|er]; injection Hr as <- <- <- <-; eexists; by split_and!.
  - intros s. unfold ecall_sign. by rewrite with_slice.
Qed.

Lemma toss_call (proof : list (SignedVertex B RawSignature)) e r e' :
  NxbftEnclave_toss (bincode_serialize proof) e = Val (r, e') ->
  automata_call (fun a => EnclaveAutomata_toss (Enc := SgxEnclaveTrusted) a proof) r (fun x y =>
    y = match x with Ok l => Ok l | Err er => Err (EnclaveAutomataFFIError_from er) end) e e'.
Proof.
  intros [[Hs [er ->]]|(x & pid & Hm & ->)]%(call_map_returns _ (toss_safe (bincode_serialize proof) 0)); [left; eauto| |].
  - apply shared_state_inv in Hm as (b & b' & Hb & Hr & Hb'). rewrite bincode_roundtrip in Hr.
    apply outcome_bind_inv in Hr as ([y b2] & Hy & Hr). cbn [fst snd] in Hr.
    right. exists b, b2, y. destruct y as [l|er]; injection Hr as <- <- <-; eexists; by split_and!.
  - intros s. unfold ecall_toss. by rewrite with_slice.
Qed.

Lemma export_call k e r e' : NxbftEnclave_export k e = Val (r, e') -> sg_state e' = sg_state e.
Proof.
  intros [[Hs _]|(x & a & Hm & _)]%(call_map_returns _ (export_safe (replicate k 0%N) 0)); [done| |].
  - apply shared_state_inv in Hm as (b & b' & Hb & (y & Hy & [= _ <-])%outcome_bind_inv & Hb'). congruence.
  - intros s. unfold ecall_export. by rewrite with_slice.
Qed.

Lemma replace_call i k ra m e r e' :
  NxbftEnclave_replace_peer i k ra m e = Val (r, e') ->
  automata_step (fun a a' => exists x,
    EnclaveAutomata_replace_peer (Enc := SgxEnclaveTrusted) a i (k, ra) m = Val (x, a')) e e'.
Proof.
  intros [[Hs _]|(x & a & Hm & _)]%(call_map_returns _ (replace_peer_safe i k ra m)); [by left| |].
  - apply shared_state_inv in Hm as (b & b' & Hb & ([y b2] & Hy & [= _ <-])%outcome_bind_inv & Hb').
    right. exists b, b2. eauto.
  - intros s. unfold ecall_replace_peer. by rewrite with_slice.
Qed.

Lemma init_call ent n e r e' :
  NxbftEnclave_init (M := M) ent n e = Val (r, e') ->
  sg_state e' = sg_state e
  \/ exists a, sg_state e = None /\ sg_state e' = Some a /\ SharedState_init (M := M) ent n = Val (Ok a).
Proof.
  intros [[Hs _]|(x & a & Hm & _)]%(call_map_returns _ (init_safe (M := M) ent n)); [by left| |done].
  apply outcome_bind_inv in Hm as (y & Hy & Hm). destruct y as [b|]; [|injection Hm as _ _ ->; by left].
  destruct (sg_state e); [injection Hm as _ _ <-; by left|]. injection Hm as _ _ <-. right. by exists b.
Qed.

(** ** The coin *)

#[local] Ltac keeps_by lem := let Hk := fresh in pose proof lem as Hk; by eapply Hk.

#[export] Instance NxbftTEE_coin : CommonCoin B Tee := {|
  coin_inv := fun n t => tn_n t = n /\ (3 <= n)%N /\ is_u64 n
    /\ match sg_state (tn_enclave t) with None => True | Some a => ea_coin_inv n a end;
  coin_tossed := fun t => match sg_state (tn_enclave t) with None => 0%N | Some a => ea_tossed a end;
  coin_of := fun t w => match sg_state (tn_enclave t) with None => 0%N | Some a => ea_coin a w end;
|}.

(** A call that the coin does not notice. *)
Lemma automata_step_keeps n (t t' : Tee) (R : Automata -> Automata -> Prop) :
  tn_n t' = tn_n t -> automata_step R (tn_enclave t) (tn_enclave t') -> (forall a a', R a a' -> ea_keeps n a a') ->
  coin_keeps n t t'.
Proof.
  intros Hn Hs HR (Ht & Hge & Hu & Hi). unfold coin_inv, coin_tossed, coin_of. cbn. rewrite Hn.
  destruct Hs as [->|(a & a' & Ha & -> & Hr)]; [done|]. rewrite Ha in *.
  destruct (HR _ _ Hr Hi) as (Hi' & Ht' & Hc). by split_and!.
Qed.

(** The automaton that [init] creates has not tossed. *)
Lemma SharedState_init_coin ent n (a : Automata) :
  is_u64 n -> SharedState_init ent n = Val (Ok a) -> ea_coin_inv n a /\ ea_tossed a = 0%N.
Proof.
  intros Hn. unfold SharedState_init. destruct (en_key_pair ent) as [k|]; [|done].
  intros (a0 & Ha0 & ([r a1] & Ha1 & Hr)%outcome_bind_inv)%outcome_bind_inv.
  destruct r as [[]|]; [|done]. injection Hr as <-. cbn.
  destruct (ea_new_coin n _ _ Hn Ha0) as [Hi Ht]. pose proof (ea_init_keeps (M := M) (Enc := SgxEnclaveTrusted) n (en_seed_share ent)) as Hk.
  destruct (Hk _ _ _ Ha1 Hi) as (Hi' & Ht' & _).
  split; [done|congruence].
Qed.

Lemma NxbftTEE_init_keeps n ent (t : Tee) r t' : NxbftTEE_init ent t = Val (r, t') -> coin_keeps n t t'.
Proof.
  intros (x & Hx%init_call & Hn & _)%ffi_inv (Ht & Hge & Hu & Hi). unfold coin_inv, coin_tossed, coin_of. cbn. rewrite Hn.
  destruct Hx as [->|(a & Hnone & -> & Ha)]; [done|]. rewrite Hnone, Ht in *.
  destruct (SharedState_init_coin _ _ _ Hu Ha) as [Hia ->]. split_and!; [done..|lia].
Qed.

Context (Hchecks : overflow_checks = true).

Lemma NxbftTEE_toss_coin n (t : Tee) (proof : list (SignedVertex B RawSignature)) leader t' :
  coin_inv n t -> NxbftTEE_toss t proof = Val (Ok leader, t') ->
  coin_inv n t' /\ coin_tossed t' = (coin_tossed t + 1)%N
  /\ leader = coin_of t (coin_tossed t + 1) /\ forall w, coin_of t' w = coin_of t w.
Proof.
  intros (Ht & Hge & Hu & Hi) ([r1 t1] & Hf & Hr)%outcome_bind_inv. cbn [fst snd] in Hr.
  destruct r1 as [l|]; [|done]. injection Hr as <- <-.
  apply ffi_inv in Hf as (x & Hc%toss_call & Hn & _ & _ & Hok). pose proof (proj1 (Hok l) eq_refl) as ->.
  unfold coin_inv, coin_tossed, coin_of in *. cbn in *. rewrite Hn.
  destruct Hc as [[_ [er [=]]]|(a & a' & x & y & Ha & -> & Hc & [= <-] & Hy)]. rewrite Ha in *.
  destruct x as [l'|]; [|done]. injection Hy as <-.
  pose proof (ea_toss_coin (B := B) (Enc := SgxEnclaveTrusted) Hchecks n a proof) as Hk. destruct (Hk l a' Hi Hc) as (Hi' & Ht' & Hl & Hco). by split_and!.
Qed.

Lemma NxbftTEE_coin_laws : CommonCoinLaws B Tee.
Proof.
  split.
  - intros ent n t Hu (Hn & (e & He & [= <-])%outcome_bind_inv)%assert_inv. apply N.leb_le in Hn.
    unfold NxbftEnclave_new in He. destruct sgx_create; [done|]. injection He as <-. by split.
  - intros n t w (Ht & Hge & Hu & Hi). unfold coin_of. cbn. destruct (sg_state _) as [a|]; [|lia]. by apply ea_coin_range.
  - intros ent n t r t'. apply NxbftTEE_init_keeps.
  - intros n t r t' ([r1 t1] & (x & Hc%attest_call & Hn & _)%ffi_inv & [= _ <-])%outcome_bind_inv.
    eapply automata_step_keeps; [done|exact Hc|]. intros a a' [y Hy]. keeps_by (ea_certificate_keeps (Enc := SgxEnclaveTrusted) (M := M)).
  - intros n t i att r t' ([x e] & Hc%init_peer_call & Hr)%outcome_bind_inv. cbn [fst snd] in Hr.
    assert (tn_n t' = tn_n t /\ tn_enclave t' = e) as [Hn He].
    { destruct x as [[[s m]|[]]|]; [|by injection Hr as _ <-..].
      apply outcome_bind_inv in Hr as (y & _ & [_ (ks & _ & [= _ <-])%outcome_bind_inv]%assert_inv). done. }
    rewrite <-He in Hc. eapply automata_step_keeps; [done|exact Hc|]. intros a a' [y Hy]. keeps_by (ea_init_peer_keeps (Enc := SgxEnclaveTrusted) (M := M)).
  - intros n t i h r t' ([x e] & Hc%complete_call & [= _ <-])%outcome_bind_inv.
    eapply automata_step_keeps; [done|exact Hc|]. intros a a' [y Hy]. keeps_by (ea_complete_keeps (Enc := SgxEnclaveTrusted) (M := M)).
  - intros n t i att m r t' ([x e] & Hc%replace_call & Hr)%outcome_bind_inv. cbn [fst snd] in Hr.
    assert (tn_n t' = tn_n t /\ tn_enclave t' = e) as [Hn He].
    { destruct x as [[[]|[]]|]; [|by injection Hr as _ <-..].
      apply outcome_bind_inv in Hr as (y & _ & ([k ks] & _ & Hr)%outcome_bind_inv).
      by apply outcome_bind_inv in Hr as (z & _ & (ps & _ & [= _ <-])%outcome_bind_inv). }
    rewrite <-He in Hc. eapply automata_step_keeps; [done|exact Hc|]. intros a a' [y Hy]. keeps_by (ea_replace_keeps (Enc := SgxEnclaveTrusted) (M := M)).
  - intros n t r t' ([r1 t1] & (x & Hc%export_call & Hn & _)%ffi_inv & [= _ <-])%outcome_bind_inv.
    apply (automata_step_keeps n t t1 (fun _ _ => False)); [done|by left|done].
  - intros n t v r t' ([r1 t1] & (x & Hc%sign_call%automata_call_step & Hn & _)%ffi_inv & [= _ <-])%outcome_bind_inv.
    eapply automata_step_keeps; [done|exact Hc|]. intros a a' [y Hy]. keeps_by (ea_sign_keeps (Enc := SgxEnclaveTrusted) (M := M) Hchecks).
  - intros n t proof er t' ([r1 t1] & (x & Hc%toss_call & Hn & _ & _ & Hok)%ffi_inv & Hr)%outcome_bind_inv.
    cbn [fst snd] in Hr. destruct r1 as [l|er1]; [done|]. injection Hr as _ <-.
    apply (automata_step_keeps n t t1 (fun a a' => exists e, EnclaveAutomata_toss (Enc := SgxEnclaveTrusted) a proof = Val (Err e, a')));
      [done| |intros a a' [e He]; keeps_by (ea_toss_err_keeps (B := B) (Enc := SgxEnclaveTrusted) (M := M))].
    destruct Hc as [[? _]|(a & a' & y & z & Ha & Ha' & Hc & -> & Hz)]; [by left|right].
    exists a, a'. split; [done|]. split; [done|]. destruct y as [l|e]; [|by exists e].
    subst z. by pose proof (proj2 (Hok l) eq_refl).
  - apply NxbftTEE_toss_coin.
Qed.
End facts.
