(* ===== verification/NxTeeTheorems.v ===== *)
(** * NxBFT: theorems about the enclave in SGX

    What a host can and cannot do with the enclave, that signatures and seed
    shares reach the other side, that replicas on the enclave agree, and three
    defects of the code around the automaton. *)

From Stdlib Require Import ZArith Lia.
From stdpp Require Import base list gmap sets numbers option finite sorting.
From S2P Require Import Prelude Ids Heaps Requests NxBase NxDag NxDagFacts NxDagGraph NxEnclave NxMessages NxReplica.
From S2P Require Import NxDagSearch NxDagPath NxEnclaveFacts NxCommit NxDagBuilt NxDecide NxOrder NxReplicaFacts NxInvariant NxLog.
From S2P Require Import Sgx NxTee NxTeeFacts.

(** ** A host that is not trusted *)

Section session.
  Context {P : Profile} {B : Type} `{BitSet B} `{Digests} `{Rand} `{NxCrypto} `{SgxRuntime}.
  Context {M : Type -> Type} `{RangeInclusiveMap M}.
  Context `{Bincode (list (SignedVertex B RawSignature))}.
  Context `{Bincode (EnclaveAutomataExport M SgxEnclaveTrusted)}.
  Local Abbreviation Automata := (EnclaveAutomata M SgxEnclaveTrusted).
  Local Abbreviation Enclave' := (SgxEnclave (SharedState (M := M))).

(** The functions the enclave exports, with the arguments the host chooses; the
    entropy is what the enclave's generators return. *)
Inductive nx_ecall :=
| Ec_init (ent : TeeEntropy) (n : N)
| Ec_attest (local_pub_key : PubKey) (local_ra : Ptr N * N) (local_ra_len : nat)
| Ec_init_peer_handshake (peer_id : N) (remote_pub_key : PubKey) (remote_ra secret : Ptr N * N) (secret_len : nat) (mac : Mac128bit)
| Ec_complete_peer_handshake (peer_id : N) (secret : Ptr N * N) (mac : Mac128bit)
| Ec_is_ready
| Ec_sign (payload : Ptr N * N) (signature : Ec256Signature) (counter : N)
| Ec_toss (proof : Ptr N * N) (peer_id : N)
| Ec_export (export : Ptr N * N) (export_len : nat)
| Ec_recover (ent : TeeEntropy) (export : Ptr N * N)
| Ec_replace_peer (peer_id : N) (remote_pub_key : PubKey) (remote_ra : Ptr N * N) (max_round : N).

(** The signatures the host is handed. *)
Definition signed (r : N * (Ec256Signature * N)) : option (Ec256Signature * N) := if (r.1 =? 0)%N then Some r.2 else None.

Definition nx_body (c : nx_ecall) : St (SharedState (M := M)) (option (Ec256Signature * N)) :=
  match c with
  | Ec_init ent n => ecall_init ent n ;; mret None
  | Ec_attest k ra len => ecall_attest k ra len ;; mret None
  | Ec_init_peer_handshake i k ra secret len mac => ecall_init_peer_handshake i k ra secret len mac ;; mret None
  | Ec_complete_peer_handshake i secret mac => ecall_complete_peer_handshake i secret mac ;; mret None
  | Ec_is_ready => ecall_is_ready ;; mret None
  | Ec_sign payload sig counter => r ← ecall_sign payload sig counter; mret (signed r)
  | Ec_toss proof i => ecall_toss proof i ;; mret None
  | Ec_export out len => ecall_export out len ;; mret None
  | Ec_recover ent export => ecall_recover ent export ;; mret None
  | Ec_replace_peer i k ra m => ecall_replace_peer i k ra m ;; mret None
  end.

(** *** The counter *)

Lemma check_ready_c (a a' : Automata) : EnclaveAutomata_check_ready a = Val a' -> ea_c a' = ea_c a.
Proof.
  unfold EnclaveAutomata_check_ready. intros [_ Hc]%assert_inv. by destruct (_ <? _)%N; injection Hc as <-.
Qed.

Lemma rand_c (a : Automata) x a' : EnclaveAutomata_rand a = Val (x, a') -> ea_c a' = ea_c a.
Proof.
  unfold EnclaveAutomata_rand. intros (k & _ & (g & _ & Hr)%outcome_bind_inv)%outcome_bind_inv.
  destruct (uniform_sample _ _). by injection Hr as _ <-.
Qed.

Lemma recover_c (a : Automata) x r a' : EnclaveAutomata_recover a x = Val (r, a') -> ea_c a' = ea_c a.
Proof.
  unfold EnclaveAutomata_recover. intros [_ (a1 & H1a%check_ready_c & Hr)%outcome_bind_inv]%assert_inv.
  apply outcome_bind_inv in Hr as (a2 & Hl & [_ [= _ <-]]%assert_inv).
  change (ea_c a) with (ea_c a.[ea_peers := ex_peers x].[ea_peers_added := ea_n a].[ea_seed := ex_seed x]). rewrite <-H1a.
  revert Hl. generalize (recover_fuel (ea_next_toss a1) (ex_next_toss x)). intros f. clear H1a.
  revert a1. induction f as [|f IH]; intros a1; [done|]. cbn [recover_loop].
  destruct (_ <? _)%N; [|by intros [= <-]]. intros ([y a3] & Hy%rand_c & Hl)%outcome_bind_inv. rewrite <-Hy. by apply IH.
Qed.

Lemma init_peer_c (a : Automata) i att r a' :
  EnclaveAutomata_init_peer_handshake (Enc := SgxEnclaveTrusted) a i att = Val (r, a') -> ea_c a' = ea_c a.
Proof.
  unfold EnclaveAutomata_init_peer_handshake. intros [_ Hr]%assert_inv. destruct (_ <=? _)%N; [by injection Hr as _ <-|].
  apply outcome_bind_inv in Hr as ([| |] & _ & Hr); [|by injection Hr as _ <-..].
  apply outcome_bind_inv in Hr as (sh & _ & ([s|e] & _ & Hr)%outcome_bind_inv); [|by injection Hr as _ <-].
  by apply outcome_bind_inv in Hr as (ps & _ & [= _ <-]).
Qed.

Lemma complete_c (a : Automata) i h r a' :
  EnclaveAutomata_complete_peer_handshake (Enc := SgxEnclaveTrusted) a i h = Val (r, a') -> ea_c a' = ea_c a.
Proof.
  unfold EnclaveAutomata_complete_peer_handshake. destruct (_ <=? _)%N; [by intros [= _ <-]|].
  intros ([|att|] & _ & Hr)%outcome_bind_inv; [by injection Hr as _ <-| |by injection Hr as _ <-].
  apply outcome_bind_inv in Hr as ([s|e] & _ & Hr); [|by injection Hr as _ <-].
  apply outcome_bind_inv in Hr as (k & _ & (ps & _ & (a1 & H1a%check_ready_c & [= _ <-])%outcome_bind_inv)%outcome_bind_inv).
  exact H1a.
Qed.

Lemma toss_c (a : Automata) (proof : list (SignedVertex B RawSignature)) r a' :
  EnclaveAutomata_toss (Enc := SgxEnclaveTrusted) a proof = Val (r, a') -> ea_c a' = ea_c a.
Proof.
  unfold EnclaveAutomata_toss. intros ([v|e] & _ & Hr)%outcome_bind_inv; [|by injection Hr as _ <-].
  destruct (_ <? _)%N; [by injection Hr as _ <-|]. by apply outcome_bind_inv in Hr as ([y a1] & Hy%rand_c & [= _ <-]).
Qed.

Lemma replace_c (a : Automata) i att m r a' :
  EnclaveAutomata_replace_peer (Enc := SgxEnclaveTrusted) a i att m = Val (r, a') -> ea_c a' = ea_c a.
Proof.
  unfold EnclaveAutomata_replace_peer. destruct (negb _); [by intros [= _ <-]|].
  intros ([| |k o] & _ & Hr)%outcome_bind_inv; [done..|].
  by apply outcome_bind_inv in Hr as (o' & _ & (ps & _ & [= _ <-])%outcome_bind_inv).
Qed.

Lemma init_c ent n (a : Automata) : SharedState_init ent n = Val (Ok a) -> ea_c a = 0%N.
Proof.
  unfold SharedState_init. destruct (en_key_pair ent); [|done].
  intros (a0 & [_ [= <-]]%assert_inv & ([r a1] & Hr & Ha)%outcome_bind_inv)%outcome_bind_inv.
  unfold EnclaveAutomata_init in Hr. apply assert_inv in Hr as [_ Hr]. cbn [ea_enclave fst snd] in *.
  destruct (et_gen_seed_share _ _); injection Hr as <- <-; [|done]. by injection Ha as <-.
Qed.

(** A signature carries the counter, which it uses up. *)
Lemma sign_c (a : Automata) msg r a' :
  (ea_c a + 1 < 2 ^ 64)%N -> EnclaveAutomata_sign (Enc := SgxEnclaveTrusted) a msg = Val (r, a') ->
  (ea_c a' = ea_c a /\ exists e, r = Err e) \/ (ea_c a' = (ea_c a + 1)%N /\ forall sig c, r = Ok (sig, c) -> c = ea_c a).
Proof.
  intros Hc. unfold EnclaveAutomata_sign. destruct (negb _); [intros [= <- <-]; left; eauto|].
  rewrite u64_add_Val by done. cbn [mbind Outcome_bind].
  change (ea_c a.[ea_c := (ea_c a + 1)%N]) with (ea_c a + 1)%N.
  rewrite u64_sub_Val by lia. rewrite N.add_sub. cbn [mbind Outcome_bind]. right.
  change (et_sign (ea_enclave a.[ea_c := (ea_c a + 1)%N]) msg (ea_c a)) with (et_sign (ea_enclave a) msg (ea_c a)) in *.
  destruct (et_sign (ea_enclave a) msg (ea_c a)) as [[sig|er] e]; cbn in *; [|by simplify_eq/=].
  match goal with Hr : context [u64_sub] |- _ => rewrite u64_sub_Val in Hr by lia end.
  simplify_eq/=. split; [done|]. intros sig' c [= _ <-]. lia.
Qed.

Definition count_of (s : SharedState (M := M)) : N := match s with None => 0%N | Some a => ea_c a end.

Lemma returns_inv {E A} `{Finite E} (m : St (SharedState (M := M)) (Result () E * A)) s r s' :
  returns m s = Val (r, s') -> exists x, m s = Val (x, s') /\ r = (result_repr x.1, x.2).
Proof. intros (x & s1 & Hx & [= <- <-])%st_bind_inv. by exists x. Qed.

(** A call of the automaton that keeps the counter. *)
Lemma shared_state_count {A} (f : Automata -> Outcome (A * Automata)) s x s' :
  (forall a x a', f a = Val (x, a') -> ea_c a' = ea_c a) -> shared_state f s = Val (x, s') -> count_of s' = count_of s.
Proof. intros Hf (a & a' & -> & Ha & ->)%shared_state_inv. by eapply Hf. Qed.

Lemma init_safe_count ent n s x s' : init_safe ent n s = Val (x, s') -> count_of s' = count_of s.
Proof.
  unfold init_safe. intros ([a|e] & Ha & Hr)%outcome_bind_inv; [|by injection Hr as _ <-].
  destruct s; injection Hr as _ <-; [done|]. by apply init_c in Ha.
Qed.

Lemma recover_safe_count ent export s x s' : recover_safe ent export s = Val (x, s') -> count_of s' = count_of s.
Proof.
  unfold recover_safe. destruct (bincode_deserialize export) as [ex|]; [|by intros [= _ <-]].
  intros ([[[]|e] u] & s1 & H1s%init_safe_count & Hr)%st_bind_inv; cbn [fst] in Hr; [|by injection Hr as _ <-].
  rewrite <-H1s. eapply shared_state_count; [|exact Hr]. intros a y a' ([z a1] & Hz%recover_c & [= _ <-])%outcome_bind_inv. done.
Qed.

Lemma sign_safe_count msg sig c s x s' :
  (count_of s + 1 < 2 ^ 64)%N -> sign_safe msg sig c s = Val (x, s') ->
  (count_of s' = count_of s /\ exists e, x.1 = Err e) \/ (count_of s' = (count_of s + 1)%N /\ (x.1 = Ok () -> x.2.2 = count_of s)).
Proof.
  intros Hc (a & a' & -> & ([r a1] & Hr & [= <- <-])%outcome_bind_inv & ->)%shared_state_inv. cbn in *.
  apply (sign_c a msg r a1 Hc) in Hr as [[-> [e ->]]|[-> Hok]]; [left; eauto|right]. split; [done|].
  destruct r as [[sg k]|e]; [|done]. intros _. by eapply Hok.
Qed.

Lemma nx_body_effect c s o s' :
  (count_of s + 1 < 2 ^ 64)%N -> nx_body c s = Val (o, s') ->
  (count_of s' = count_of s /\ o = None) \/ (count_of s' = (count_of s + 1)%N /\ forall x, o = Some x -> x.2 = count_of s).
Proof.
  intros Hc Hb. destruct c; apply st_bind_inv in Hb as (r & s1 & Hr & [= <- <-]).
  6: {
    apply bind_lift_inv in Hr as (p & _ & (x & Hx & ->)%returns_inv).
    apply sign_safe_count in Hx as [[-> [e He]]|[-> Hok]]; [left|right|done]; (split; [done|]).
    + destruct x as [x y]. cbn in He. subst x. unfold signed. cbn. by rewrite (proj2 (N.eqb_neq _ _)) by lia.
    + intros y. unfold signed. cbn. destruct x as [[[]|e] x]; cbn in *; [|by rewrite (proj2 (N.eqb_neq _ _)) by lia].
      intros [= <-]. by apply Hok.
  }
  all: left; split; [|done].
  - by apply returns_inv in Hr as (x & Hx%init_safe_count & _).
  - apply bind_lift_inv in Hr as (? & _ & (x & Hx & _)%returns_inv). eapply shared_state_count; [|exact Hx].
    intros a y a' ([z a1] & Hz & [= _ <-])%outcome_bind_inv. unfold EnclaveAutomata_get_attestation_certificate in Hz.
    destruct (et_get_attestation_certificate _). by injection Hz as _ <-.
  - apply bind_lift_inv in Hr as (? & _ & (? & _ & (x & Hx & _)%returns_inv)%bind_lift_inv).
    eapply shared_state_count; [|exact Hx]. intros a y a' ([z a1] & Hz%init_peer_c & Hy)%outcome_bind_inv. cbn [fst snd] in Hy.
    destruct z as [[sh m]| | |]; [apply assert_inv in Hy as [_ Hy]|..]; by injection Hy as _ <-.
  - apply bind_lift_inv in Hr as (? & _ & (x & Hx & _)%returns_inv). eapply shared_state_count; [|exact Hx].
    by intros a y a' ([z a1] & Hz%complete_c & [= _ <-])%outcome_bind_inv.
  - by injection Hr as _ <-.
  - apply bind_lift_inv in Hr as (? & _ & (x & Hx & _)%returns_inv). eapply shared_state_count; [|exact Hx].
    intros a y a'. destruct (bincode_deserialize _) as [l|]; [|by intros [= _ <-]].
    by intros ([z a1] & Hz%toss_c & [= _ <-])%outcome_bind_inv.
  - apply bind_lift_inv in Hr as (? & _ & (x & Hx & _)%returns_inv). eapply shared_state_count; [|exact Hx].
    by intros a y a' (z & _ & [= _ <-])%outcome_bind_inv.
  - by apply bind_lift_inv in Hr as (? & _ & (x & Hx%recover_safe_count & _)%returns_inv).
  - apply bind_lift_inv in Hr as (? & _ & (x & Hx & _)%returns_inv). eapply shared_state_count; [|exact Hx].
    by intros a y a' ([z a1] & Hz%replace_c & [= _ <-])%outcome_bind_inv.
Qed.

Lemma nx_session_counters cs (e : Enclave') out e' :
  (count_of (sg_state e) + N.of_nat (length cs) < 2 ^ 64)%N -> session nx_body cs e = Val (out, e') ->
  Forall (fun x => count_of (sg_state e) <= x.2)%N out /\ StronglySorted N.lt (snd <$> out).
Proof.
  revert e out. induction cs as [|c cs IH]; intros e out Hv; cbn [session].
  { intros [= <- <-]. split; constructor. }
  intros ([r e1] & Hc%ecall_inv & Hs)%outcome_bind_inv. apply outcome_bind_inv in Hs as ([out1 e2] & Hs & [= <- <-]).
  cbn [fst snd length] in *.
  destruct Hc as [(er & -> & Hst)|(o & -> & Hb)].
  { rewrite <-Hst. apply (IH e1 out1); [rewrite Hst; lia|done]. }
  apply nx_body_effect in Hb as [[Hn ->]|[Hn Ho]]; [..|lia].
  { rewrite <-Hn. apply (IH e1 out1); [lia|done]. }
  destruct (IH e1 out1) as [Hall Hsort]; [lia|done|]. rewrite Hn in Hall.
  assert (Forall (fun x => count_of (sg_state e) <= x.2)%N out1) as Hall' by (eapply Forall_impl; [exact Hall|]; intros x Hx; cbn beta in *; lia).
  destruct o as [x|]; [|done]. specialize (Ho x eq_refl). split; [constructor; [lia|done]|].
  cbn. constructor; [done|]. apply list.Forall_forall. intros y (z & -> & Hz)%list_elem_of_fmap.
  rewrite list.Forall_forall in Hall. specialize (Hall z Hz). lia.
Qed.
End session.

(** ** The theorems *)

Section theorems.
  Context {P : Profile} {B : Type} `{BitSetLaws B} `{Digests} `{RandLaws} `{NxCrypto} `{SgxRuntime}.
  Context {M : Type -> Type} `{RangeInclusiveMapLaws M}.
  Context `{BincodeLaws (list (SignedVertex B RawSignature))}.
  Context `{BincodeLaws (EnclaveAutomataExport M SgxEnclaveTrusted)}.
  Local Abbreviation Automata := (EnclaveAutomata M SgxEnclaveTrusted).
  Local Abbreviation Tee := (NxbftTEE (M := M)).

(** C15: No equivocation by the host.  Whatever sequence of fewer than 2^64 calls
    a host makes of the functions the enclave exports, recovery included and with
    whatever pointers, lengths and bytes, the counters of the signatures it is
    handed increase strictly. *)
Theorem nx_tee_counter_unique cs out e' :
  (N.of_nat (length cs) < 2 ^ 64)%N ->
  session (nx_body (B := B) (M := M)) cs (mkSgxEnclave None false 0) = Val (out, e') ->
  StronglySorted N.lt (snd <$> out).
Proof. intros Hl Hs. apply nx_session_counters in Hs as [_ ?]; [done|]. cbn [count_of sg_state]. lia. Qed.

(** *** Signatures and seed shares *)

Lemma RawSignature_from_again s : Ec256Signature_wf s ->
  Ec256Signature_from (RawSignature_from (Ec256Signature_from (RawSignature_from s))) = s.
Proof. intros Hs. rewrite (Ec256Signature_roundtrip s Hs). by apply Ec256Signature_roundtrip. Qed.

(** C36: What a replica's enclave signed is accepted by every host that holds its
    key for the round of the vertex, with the counter it was signed with. *)
Theorem nx_tee_sign_verify `{!NxCryptoLaws} (t t' u : Tee) v sig c i a entry :
  sg_state (tn_enclave t) = Some a -> NxbftTEE_sign t v = Val (Ok (sig, c), t') ->
  tn_pubkeys u !! N.to_nat i = Some entry ->
  pubkey_for entry (da_round (SignableVertex_address v)) = Some (kp_public_key (st_key_pair (ea_enclave a))) ->
  NxbftTEE_verify u i c v sig = Val (Ok true).
Proof.
  intros Ha ([r t1] & (x & Hc%sign_call & _ & _ & _ & Hok)%ffi_inv & Hr)%outcome_bind_inv Hen Hk. cbn [fst snd] in Hr.
  destruct r as [[s c']|]; [|done]. injection Hr as <- <- <-. pose proof (proj1 (Hok (s, c')) eq_refl) as ->.
  destruct Hc as [[_ [er [=]]]|(a1 & a' & x & y & Ha1 & _ & Hsign & [= <-] & Hy)].
  rewrite Ha in Ha1. injection Ha1 as <-. destruct x as [[raw k]|]; [|done]. injection Hy as -> ->.
  assert (exists s0, ec_try_sign (st_key_pair (ea_enclave a)) (sign_data (SignableVertex_to_hash v) k) = Some s0
    /\ raw = RawSignature_from s0) as (s0 & Hs0 & ->).
  { unfold EnclaveAutomata_sign in Hsign. destruct (negb _); [done|].
    apply outcome_bind_inv in Hsign as (c0 & Hc0 & (k0 & Hk0 & Hsign)%outcome_bind_inv). cbn in Hsign, Hk0.
    unfold SgxEnclaveTrusted_sign in Hsign. destruct (ec_try_sign _ _) as [s0|] eqn:Es; [|done].
    apply outcome_bind_inv in Hsign as (k1 & Hk1 & [= <- <- _]). rewrite Hk0 in Hk1. injection Hk1 as ->.
    by exists s0. }
  destruct (ec_try_correct _ _ _ Hs0) as [Hwf Hv].
  unfold NxbftTEE_verify, IdMap_index, index_u64. rewrite nth_u64_lookup, Hen.
  cbn [unwrap fmap Outcome_fmap mbind Outcome_bind]. unfold as_u64. rewrite Hk, (RawSignature_from_again s0 Hwf), Hv. done.
Qed.

(** The seed share an enclave seals for a peer is the share that peer's
    enclave unseals with the key of the sender. *)
Theorem nx_tee_seal_roundtrip `{!NxCryptoLaws} k k' ra ra' share h :
  length share = 32 ->
  seal_seed_share (mkSgxTrusted k) (kp_public_key k', ra) share = Val (Ok h) ->
  unseal_seed_share (mkSgxTrusted k') h (kp_public_key k, ra') = Val (Ok share).
Proof.
  intros Hl. unfold seal_seed_share, unseal_seed_share, gen_shared_key. cbn [st_key_pair fst]. rewrite shared_key_sym.
  destruct (shared_key k' (kp_public_key k)) as [key|]; [|done]. cbn [unwrap mbind Outcome_bind].
  destruct (AesGcm_new key) as [aes|]; [|done]. destruct (aes_encrypt aes share) as [[c mac]|] eqn:He; [|done].
  intros [= <-]. apply aes_decrypt_encrypt in He as [Hlen Hd]. cbn [fst snd]. by rewrite Hlen, Hl, Hd.
Qed.

(** *** Replicas *)

(** Total order of replicas on SGX enclaves, whatever their runtimes refuse. *)
Theorem nx_tee_total_order {Tx} `{Transaction Tx} `{Hashbar Tx} `{EqDecision B, EqDecision Tx}
    clock1 ent1 t1 me1 clock2 ent2 t2 me2 n timeout1 mn1 mx1 timeout2 mn2 mx2 (s1 s2 : NxBft B Tx Tee) os1 s1' os2 s2' :
  overflow_checks = true -> is_u64 n ->
  NxBft_new clock1 ent1 t1 me1 n timeout1 mn1 mx1 = Val s1 ->
  NxBft_new clock2 ent2 t2 me2 n timeout2 mn2 mx2 = Val s2 ->
  nx_trusted_run clock1 s1 os1 s1' -> nx_trusted_run clock2 s2 os2 s2' ->
  (forall w, coin_of (nx_enclave s1') w = coin_of (nx_enclave s2') w) ->
  consistent (nx_dag s1') (nx_dag s2') ->
  run_delivery os1 `prefix_of` run_delivery os2 \/ run_delivery os2 `prefix_of` run_delivery os1.
Proof.
  intros Hchecks Hn Hs1 Hs2 Hr1 Hr2 Hcoin Hcons.
  pose proof (NxbftTEE_coin_laws (B := B) (M := M) Hchecks) as Hlaws.
  destruct (N.le_ge_cases (nx_decided_wave s1') (nx_decided_wave s2')).
  - left. by eapply (trusted_runs_prefix clock1 ent1 t1 me1 clock2 ent2 t2 me2).
  - right. by eapply (trusted_runs_prefix clock2 ent2 t2 me2 clock1 ent1 t1 me1); [..|apply consistent_sym|].
Qed.

(** *** Defects *)

(** The export is not sealed: from the bytes the enclave hands out, the host
    computes the leader of every wave, tossed or not. *)
Theorem nx_tee_export_reveals_coin (t t' : Tee) bytes keys :
  NxbftTEE_export t = Val (Ok (bytes, keys), t') ->
  exists x : EnclaveAutomataExport M SgxEnclaveTrusted, bincode_deserialize bytes = Some x
    /\ forall w, coin_of t w = (uniform_sample (ex_n x) (tosses (ex_n x) (ex_seed x) (N.to_nat (w - 1)))).1.
Proof.
  intros ([r t1] & (x & Hc & _ & _ & _ & Hok)%ffi_inv & Hr)%outcome_bind_inv. cbn [fst snd] in Hr.
  destruct r as [b|]; [|done]. injection Hr as -> _ _. pose proof (proj1 (Hok bytes) eq_refl) as ->.
  apply (call_map_returns _ (export_safe (replicate 4096 0%N) 0)) in Hc; [|intros s; unfold ecall_export; by rewrite with_slice].
  destruct Hc as [[_ [er [=]]]|(y & [buf len] & Hm & Hy)].
  apply shared_state_inv in Hm as (a & a' & Ha & (ex & Hex & Hw)%outcome_bind_inv & _).
  unfold EnclaveAutomata_export in Hex. destruct (negb _); injection Hex as <-.
  - injection Hw as <- <- <- <-. done.
  - set (ex := mkExport _ _ _ _) in Hw. exists ex. injection Hw as Hw _. unfold write_out in Hw.
    destruct (_ <? _); injection Hw as <- <- <-; [done|]. injection Hy as ->. rewrite take_app_length, bincode_roundtrip.
    split; [done|]. intros w. unfold coin_of. cbn. by rewrite Ha.
Qed.

(** [replace_peer] before the enclave is ready.  The automaton declines and
    changes nothing; its answer is dropped on the way, the host replaces the
    peer's key on its side and reports success. *)
Theorem nx_tee_replace_diverges (t : Tee) a i att m old old_keys :
  sg_state (tn_enclave t) = Some a -> sg_crashed (tn_enclave t) = false ->
  sgx_refuses (sg_calls (tn_enclave t)) = None -> EnclaveAutomata_is_ready a = false ->
  tn_pubkeys t !! N.to_nat i = Some (Some (old, old_keys)) -> rim_last_range_value old_keys = None ->
  EnclaveAutomata_replace_peer (Enc := SgxEnclaveTrusted) a i (at_pub_key att, at_intel_report att) m = Val (Ok false, a)
  /\ exists t' ks, NxbftTEE_replace_peer t i att m = Val (Ok true, t')
     /\ sg_state (tn_enclave t') = Some a /\ tn_pubkeys t' !! N.to_nat i = Some (Some (at_pub_key att, ks)).
Proof.
  intros Ha Hcr Hre Hnr Hk Hlast.
  assert (EnclaveAutomata_replace_peer (Enc := SgxEnclaveTrusted) a i (at_pub_key att, at_intel_report att) m = Val (Ok false, a)) as Hrep
    by (unfold EnclaveAutomata_replace_peer; by rewrite Hnr).
  split; [done|].
  assert (NxbftEnclave_replace_peer i (at_pub_key att) (at_intel_report att) m (tn_enclave t)
    = Val (Ok (Ok ()), mkSgxEnclave (Some a) false (1 + sg_calls (tn_enclave t)))) as Hcall.
  { unfold NxbftEnclave_replace_peer, call_map, ecall_replace_peer, enclave_fn, ecall. rewrite Hcr, Hre, with_slice, Ha.
    unfold returns, replace_peer_safe, shared_state, mbind, St_bind. cbn [unwrap]. unfold mbind, Outcome_bind. by rewrite Hrep. }
  unfold NxbftTEE_replace_peer. rewrite Hcall. cbn [mbind Outcome_bind fst snd].
  unfold IdMap_index. simpl. rewrite (index_u64_Val _ _ _ Hk). simpl. rewrite Hlast. simpl. destruct (rim_insert_ok _ old_keys 0 m old) as (ks & -> & _); [lia|].
  unfold IdMap_index_mut. simpl. pose proof (lookup_lt_Some _ _ _ Hk).
  rewrite assign_u64_Val by lia. simpl. eexists _, ks. split; [done|]. split; [done|]. cbn. by rewrite list_lookup_insert_eq.
Qed.

(** A public key with which the key agreement fails, which a peer sends in its
    attestation and nothing checks, aborts the enclave: no later call succeeds. *)
Theorem nx_tee_bad_key_crashes (t : Tee) a i att share :
  sg_state (tn_enclave t) = Some a -> sg_crashed (tn_enclave t) = false ->
  sgx_refuses (sg_calls (tn_enclave t)) = None -> ea_seed_share a = Some share ->
  (i < ea_n a)%N -> ea_peers a !! N.to_nat i = Some Peer_None ->
  shared_key (st_key_pair (ea_enclave a)) (at_pub_key att) = None ->
  exists t', NxbftTEE_init_peer_handshake t i att = Val (IHR_EnclaveError (NE_SgxError sgx_crashed), t')
    /\ (forall v, NxbftTEE_sign t' v = Val (Err (NE_SgxError sgx_crashed), t'))
    /\ (forall p, NxbftTEE_toss t' p = Val (Err (NE_SgxError sgx_crashed), t')).
Proof.
  intros Ha Hcr Hre Hsh Hi Hp Hk.
  assert (EnclaveAutomata_init_peer_handshake (Enc := SgxEnclaveTrusted) a i (at_pub_key att, at_intel_report att) = Panic) as Hpanic.
  { unfold EnclaveAutomata_init_peer_handshake. rewrite bool_decide_eq_true_2 by (by rewrite Hsh).
    cbn [rust_assert mbind Outcome_bind]. rewrite (proj2 (N.leb_gt _ _)) by done. rewrite (index_u64_Val _ _ _ Hp).
    cbn [mbind Outcome_bind]. rewrite Hsh. cbn. unfold seal_seed_share, gen_shared_key. cbn. by rewrite Hk. }
  assert (NxbftEnclave_init_peer_handshake i (at_pub_key att) (at_intel_report att) 4096 (tn_enclave t)
    = Val (Err sgx_crashed, mkSgxEnclave (Some a) true (1 + sg_calls (tn_enclave t)))) as Hcall.
  { unfold NxbftEnclave_init_peer_handshake, call_map, ecall_init_peer_handshake, enclave_fn, ecall.
    rewrite Hcr, Hre, !with_slice, Ha.
    unfold returns, init_peer_handshake_safe, shared_state, mbind, St_bind. cbn [unwrap]. unfold mbind, Outcome_bind.
    by rewrite Hpanic. }
  unfold NxbftTEE_init_peer_handshake. rewrite Hcall. cbn [mbind Outcome_bind fst snd]. eexists. split; [done|].
  by split; intros ?.
Qed.
End theorems.

(** ** Witnesses *)

From S2P Require Import NxExamples SgxExamples.

(** *** Serializers *)

#[local] Instance PubKey_codec : Codec PubKey := iso_codec (fun k => (pk_gx k, pk_gy k)) (fun x => Some (mkPubKey x.1 x.2)).
#[local] Instance PubKey_codec_laws : CodecLaws PubKey.
Proof. apply iso_codec_laws. by intros []. Qed.

#[local] Instance SignedVertex_codec : Codec (SignedVertex N RawSignature) :=
  iso_codec (fun v => let s := signable_vertex v in
      (da_round (sv_address s), (da_creator (sv_address s), (sv_transactions_hash s, (Ids.set (sv_edges s), (sv_signature v, sv_counter v))))))
    (fun '(r, (c, (h, (b, (sig, k))))) => Some (mkSigned (mkSignable (mkDagAddress r c) h (mkIdSet b)) sig k)).
#[local] Instance SignedVertex_codec_laws : CodecLaws (SignedVertex N RawSignature).
Proof. apply iso_codec_laws. by intros [[[] ? []] ? ?]. Qed.

(** *** Cryptography *)

#[local] Instance tn_crypto : NxCrypto := {|
  Key128bit := N;
  AesGcm := N;
  shared_key := fun k pub => match pk_gx pub with [k'] => Some ((k mod 2 ^ 32) * k')%N | _ => None end;
  AesGcm_new := Some;
  aes_encrypt := fun aes m => Some ((fun b => b + aes)%N <$> m, [aes]);
  aes_decrypt := fun aes c mac => if bool_decide (mac = [aes]) then Some ((fun b => b - aes)%N <$> c) else None;
  ec_try_sign := fun k m => Some (kp_sign k m);
  ec_try_verify := fun pub m s => Ok (ec_verify pub m s);
|}.
#[local] Instance tn_crypto_laws : NxCryptoLaws.
Proof.
  split.
  - intros k k'. cbn. by rewrite N.mul_comm.
  - intros aes m c mac [= <- <-]. split; [by rewrite length_fmap|]. cbn. rewrite bool_decide_eq_true_2 by done. f_equal.
    rewrite <-list_fmap_compose. rewrite <-(list_fmap_id m) at 2. apply list_fmap_ext. intros i x _. unfold compose, id. lia.
  - intros k m s Hs. assert (kp_sign k m = s) as <- by (by injection Hs). split; [apply kp_sign_wf|].
    change (Ok (ec_verify (kp_public_key k) m (kp_sign k m)) = Ok (E := SgxError) true). by rewrite ec_correct.
Qed.

Abbreviation TnTrusted := (SgxEnclaveTrusted (H2 := sx_ecc)).
Abbreviation TnAutomata := (EnclaveAutomata Ranges TnTrusted).

#[local] Instance Peer_codec : Codec (Peer Ranges TnTrusted) :=
  iso_codec (T := Peer Ranges TnTrusted) (U := N * (PubKey * list N * list (N * N * (PubKey * list N))))
    (fun p : Peer Ranges TnTrusted => match p with
       | Peer_None => (0%N, ((mkPubKey [] [], []), []))
       | Peer_Attested att => (1%N, (att, []))
       | Peer_HandshakeComplete att old => (2%N, (att, old)) end)
    (fun '(k, (att, old)) => Some (if (k =? 0)%N then @Peer_None Ranges TnTrusted _ else if (k =? 1)%N then @Peer_Attested Ranges TnTrusted _ att
       else @Peer_HandshakeComplete Ranges TnTrusted _ att old)).
#[local] Instance Peer_codec_laws : CodecLaws (Peer Ranges TnTrusted).
Proof. apply iso_codec_laws. by intros []. Qed.

#[local] Instance Export_codec : Codec (EnclaveAutomataExport Ranges TnTrusted) :=
  iso_codec (fun x => (ex_seed x, (ex_next_toss x, (ex_n x, ex_peers x)))) (fun '(s, (t, (n, ps))) => Some (mkExport s t n ps)).
#[local] Instance Export_codec_laws : CodecLaws (EnclaveAutomataExport Ranges TnTrusted).
Proof. apply iso_codec_laws. by intros []. Qed.

(** *** States *)

Definition tn_key (k : N) : option (@KeyPair sx_ecc) := Some k.
Definition tn_entropy7 : TeeEntropy (H2 := sx_ecc) := mkTeeEntropy (tn_key 7) (Some (replicate 32 3%N)).

(** An export of a system of three, as a host can make it up. *)
Definition tn_export : EnclaveAutomataExport Ranges TnTrusted := mkExport (replicate 32 1%N) 4 3 [].

Definition tn_session_recovered : list (nx_ecall (H2 := sx_ecc)) := [
  Ec_is_ready;
  Ec_recover tn_entropy7 (call_param_to_ptr (bincode_serialize tn_export));
  Ec_sign (Some [1%N], 1%N) Ec256Signature_default 5;
  Ec_init tn_entropy7 3;
  Ec_recover tn_entropy7 (call_param_to_ptr (bincode_serialize tn_export));
  Ec_toss (Some [0%N], 1%N) 0;
  Ec_sign (None, 0%N) Ec256Signature_default 5;
  Ec_sign (Some [1%N], 1%N) Ec256Signature_default 5].

Lemma session_Val cs (Q : list N -> bool) :
  match session (nx_body (B := N) (M := Ranges)) cs (mkSgxEnclave None false 0) with Val (out, _) => Q (snd <$> out) | _ => false end = true ->
  exists out e', session (nx_body (B := N) (M := Ranges)) cs (mkSgxEnclave None false 0) = Val (out, e') /\ Q (snd <$> out) = true.
Proof. destruct (session _ _ _) as [[out e']| |]; [|discriminate..]. eauto. Qed.

Lemma nx_tee_counter_unique_witness :
  exists out e', session (nx_body (B := N) (M := Ranges)) tn_session_recovered (mkSgxEnclave None false 0) = Val (out, e')
    /\ (snd <$> out) = [0%N; 1%N; 2%N] /\ StronglySorted N.lt (snd <$> out).
Proof.
  pose proof (fun Q => session_Val tn_session_recovered Q) as Hv.
  destruct (Hv (fun out => bool_decide (out = [0%N; 1%N; 2%N]))) as (out & e' & Hs & Ho%bool_decide_eq_true); [vm_compute; reflexivity|].
  exists out, e'. split; [exact Hs|]. split; [exact Ho|].
  apply (nx_tee_counter_unique (B := N) (M := Ranges) tn_session_recovered out e'); [vm_compute; reflexivity|exact Hs].
Defined.

(** An enclave that is ready, and one in the middle of the handshake. *)
Definition tn_ready : TnAutomata :=
  mkAutomata (Enc := TnTrusted) 3 2 3 4 [] (replicate 32 1%N) None (Some (rng_from_seed (replicate 32 1%N))) 3 4 (mkSgxTrusted (H2 := sx_ecc) 7%N).
Definition tn_waiting : TnAutomata :=
  mkAutomata (Enc := TnTrusted) 3 2 0 0 [@Peer_Attested Ranges TnTrusted _ (mkPubKey [5%N] [], []); Peer_None; Peer_None] (replicate 32 0%N) (Some (replicate 32 3%N))
    None 3 4 (mkSgxTrusted (H2 := sx_ecc) 7%N).
Definition tn_tee (a : TnAutomata) (keys : list (option (PubKey * Ranges PubKey))) : NxbftTEE (M := Ranges) :=
  mkNxbftTEE (mkSgxEnclave (Some a) false 1) keys 3 tn_entropy7.
Definition tn_vertex : SignableVertex N := mkSignable (mkDagAddress 2 1) [1%N] (mkIdSet 3%N).
Definition tn_peer : NxbftTEE (M := Ranges) := tn_tee tn_waiting [Some (mkPubKey [5%N] [], []); Some (mkPubKey [7%N] [], []); None].

Lemma Ok_Val {A E T} (o : Outcome (Result A E * T)) (Q : A -> bool) :
  match o with Val (Ok a, _) => Q a | _ => false end = true -> exists a t, o = Val (Ok a, t) /\ Q a = true.
Proof. destruct o as [[[a|e] t]| |]; [|discriminate..]. eauto. Qed.

Lemma nx_tee_sign_verify_witness :
  exists sig t', NxbftTEE_sign (tn_tee tn_ready []) tn_vertex = Val (Ok (sig, 4%N), t')
    /\ NxbftTEE_verify tn_peer 1 4 tn_vertex sig = Val (Ok true).
Proof.
  destruct (Ok_Val (NxbftTEE_sign (tn_tee tn_ready []) tn_vertex) (fun x => (x.2 =? 4)%N)) as ([sig c] & t' & Hs & Hc);
    [vm_compute; reflexivity|]. apply N.eqb_eq in Hc. cbn in Hc. subst c.
  exists sig, t'. split; [exact Hs|].
  apply (nx_tee_sign_verify (tn_tee tn_ready []) t' tn_peer tn_vertex sig 4 1 tn_ready (Some (mkPubKey [7%N] [], [])));
    [reflexivity|exact Hs|reflexivity|reflexivity].
Defined.

Definition tn_pair (k : N) : @KeyPair sx_ecc := k.

Lemma nx_tee_seal_roundtrip_witness :
  exists h, seal_seed_share (mkSgxTrusted (tn_pair 5)) (kp_public_key (tn_pair 6), []) (replicate 32 9%N) = Val (Ok h)
    /\ unseal_seed_share (mkSgxTrusted (tn_pair 6)) h (kp_public_key (tn_pair 5), []) = Val (Ok (replicate 32 9%N)).
Proof.
  eexists. split; [reflexivity|].
  apply (nx_tee_seal_roundtrip (tn_pair 5) (tn_pair 6) [] [] (replicate 32 9%N)); [reflexivity|reflexivity].
Defined.

Lemma nx_tee_export_reveals_coin_witness :
  exists bytes keys t', NxbftTEE_export (tn_tee tn_ready []) = Val (Ok (bytes, keys), t')
    /\ exists x : EnclaveAutomataExport Ranges TnTrusted, bincode_deserialize bytes = Some x
       /\ forall w, coin_of (tn_tee tn_ready []) w = (uniform_sample (ex_n x) (tosses (ex_n x) (ex_seed x) (N.to_nat (w - 1)))).1.
Proof.
  destruct (Ok_Val (NxbftTEE_export (tn_tee tn_ready [])) (fun _ => true)) as ([bytes keys] & t' & Hs & _); [vm_compute; reflexivity|].
  exists bytes, keys, t'. split; [exact Hs|].
  exact (nx_tee_export_reveals_coin (tn_tee tn_ready []) t' bytes keys Hs).
Defined.

Lemma nx_tee_replace_diverges_witness :
  exists t' ks, NxbftTEE_replace_peer tn_peer 1 (mkAttestation (mkPubKey [8%N] []) []) 6 = Val (Ok true, t')
    /\ sg_state (tn_enclave t') = Some tn_waiting /\ tn_pubkeys t' !! 1 = Some (Some (mkPubKey [8%N] [], ks)).
Proof.
  destruct (nx_tee_replace_diverges tn_peer tn_waiting 1 (mkAttestation (mkPubKey [8%N] []) []) 6 (mkPubKey [7%N] []) [])
    as (_ & t' & ks & H1 & H2 & H3); [reflexivity..|].
  exists t', ks. split; [exact H1|]. split; [exact H2|exact H3].
Defined.

Lemma nx_tee_bad_key_crashes_witness :
  exists t', NxbftTEE_init_peer_handshake tn_peer 2 (mkAttestation (mkPubKey [] []) [])
      = Val (IHR_EnclaveError (NE_SgxError sgx_crashed), t')
    /\ NxbftTEE_sign t' tn_vertex = Val (Err (NE_SgxError sgx_crashed), t').
Proof.
  destruct (nx_tee_bad_key_crashes tn_peer tn_waiting 2 (mkAttestation (mkPubKey [] []) []) (replicate 32 3%N))
    as (t' & Hi & Hs & _); [reflexivity..|].
  exists t'. split; [exact Hi|exact (Hs tn_vertex)].
Defined.

(** Two replicas on two enclaves, after their first call. *)
Abbreviation TnTee := (NxbftTEE (M := Ranges)).
Abbreviation TnReplica := (NxBft N ExTx TnTee).
Definition tn_ent (k : N) : Entropy (B := N) TnTee := mkTeeEntropy (tn_key k) (Some (replicate 32 k)).
Definition tn_start (k : N) : Outcome TnReplica := NxBft_new ex_clock (tn_ent k) 0 k 3 1000 1 1.
Definition tn_run (k : N) : Outcome (TnReplica * Output N ExTx TnTee * TnReplica) :=
  s ← tn_start k; r ← init_handshake ex_clock ex_fuel (tn_ent k) s; Val (s, r.1, r.2).

(** The enclave was initialized and holds the seed it starts with. *)
Definition tn_fresh (s : TnReplica) : bool :=
  match sg_state (tn_enclave (nx_enclave s)) with
  | Some a => bool_decide (ea_n a = 3%N) && bool_decide (ea_seed a = replicate 32 0%N)
  | None => false
  end.

Lemma tn_fresh_coin (s : TnReplica) w :
  tn_fresh s = true -> coin_of (nx_enclave s) w = (uniform_sample 3 (tosses 3 (replicate 32 0%N) (N.to_nat (w - 1)))).1.
Proof.
  unfold tn_fresh, coin_of. cbn. destruct (sg_state _) as [a|]; [|discriminate].
  intros [Hn%bool_decide_eq_true Hs%bool_decide_eq_true]%andb_true_iff. unfold ea_coin. by rewrite Hn, Hs.
Qed.

(** No vertex was inserted. *)
Definition tn_empty (d : Dag N ExTx RawSignature) : bool :=
  forallb (fun r => forallb (fun c => match present d (mkDagAddress r c) with Some _ => false | None => true end)
    (range 0 (dag_n d))) (range 0 (dag_max_round d + 1)).

Lemma tn_empty_consistent d1 d2 : Dag_shape d1 -> tn_empty d1 = true -> consistent d1 d2.
Proof.
  intros Hs Hc a v1 v2 Hv1 _. exfalso. destruct (present_in d1 a v1 Hs Hv1) as [Hr Hcr].
  unfold tn_empty in Hc. rewrite forallb_forall in Hc.
  specialize (Hc (da_round a)). rewrite <-list_elem_of_In, elem_of_range in Hc. specialize (Hc ltac:(lia)).
  rewrite forallb_forall in Hc. specialize (Hc (da_creator a)).
  rewrite <-list_elem_of_In, elem_of_range in Hc. specialize (Hc ltac:(lia)).
  destruct a as [r c]. cbn in Hc. by rewrite Hv1 in Hc.
Qed.

Lemma tn_run_inv k s o s' :
  tn_run k = Val (s, o, s') -> tn_start k = Val s /\ nx_trusted_run ex_clock s [o] s' /\ Dag_shape (nx_dag s').
Proof.
  unfold tn_run. intros (s0 & Hs & ([o1 s1] & Hr & [= <- <- <-])%outcome_bind_inv)%outcome_bind_inv.
  assert (nx_trusted_run ex_clock s0 [o1] s1) as Hrun by (apply (trusted_handshake ex_clock s0 [] s0 ex_fuel (tn_ent k)); [constructor|done]).
  split; [done|]. split; [done|].
  destruct (NxBft_new_inv ex_clock (tn_ent k) 0 k 3 1000 1 1 s0 ex_n_u64 Hs) as [Hi _].
  apply (nx_trusted_run_inv ex_clock ex_checks s0 [o1] s1) in Hi; [|done]. apply Hi.
Qed.

Lemma tn_runs_Val (Q : TnReplica -> TnReplica -> bool) :
  match tn_run 0, tn_run 1 with Val (_, _, a), Val (_, _, b) => Q a b | _, _ => false end = true ->
  exists s1 o1 s1' s2 o2 s2', tn_run 0 = Val (s1, o1, s1') /\ tn_run 1 = Val (s2, o2, s2') /\ Q s1' s2' = true.
Proof. destruct (tn_run 0) as [[[s1 o1] s1']| |], (tn_run 1) as [[[s2 o2] s2']| |]; try discriminate. eauto 10. Qed.

Lemma nx_tee_total_order_witness :
  exists s1 o1 s1' s2 o2 s2', tn_run 0 = Val (s1, o1, s1') /\ tn_run 1 = Val (s2, o2, s2')
    /\ (run_delivery [o1] `prefix_of` run_delivery [o2] \/ run_delivery [o2] `prefix_of` run_delivery [o1]).
Proof.
  destruct (tn_runs_Val (fun a b => tn_empty (nx_dag a) && (tn_fresh a && tn_fresh b)))
    as (s1 & o1 & s1' & s2 & o2 & s2' & H1 & H2 & [Hc [Hf1 Hf2]%andb_true_iff]%andb_true_iff); [vm_compute; reflexivity|].
  exists s1, o1, s1', s2, o2, s2'. split; [exact H1|]. split; [exact H2|].
  destruct (tn_run_inv _ _ _ _ H1) as (Hs1 & Hr1 & Hd1), (tn_run_inv _ _ _ _ H2) as (Hs2 & Hr2 & _).
  apply (nx_tee_total_order ex_clock (tn_ent 0) 0 0 ex_clock (tn_ent 1) 0 1 3 1000 1 1 1000 1 1 s1 s2 [o1] s1' [o2] s2');
    [reflexivity|exact ex_n_u64|exact Hs1|exact Hs2|exact Hr1|exact Hr2| |].
  - intros w. rewrite (tn_fresh_coin s1' w Hf1), (tn_fresh_coin s2' w Hf2). reflexivity.
  - apply tn_empty_consistent; [exact Hd1|exact Hc].
Defined.
