(* ===== verification/MbTee.v ===== *)
(** * MinBFT: the USIG in SGX

    Models [src/atomic-broadcast/minbft/usig-tee-enclave] (the counter in the
    enclave) and [usig-tee] (the host's side, a [Usig] like [UsigSignature]), and
    proves that it satisfies [UsigLaws].

    [created] is what [EcKeyPair::create] returns in the enclave. *)

From Stdlib Require Import ZArith Lia.
From stdpp Require Import base list gmap sets numbers option sorting.
From S2P Require Import Prelude Triple Ids MbUsig Sgx.

Section tee.
  Context {P : Profile} `{Ecc} `{SgxRuntime} (created : option KeyPair).

(** ** [usig-tee-enclave] *)

Record SharedState := mkShared { ss_key_pair : KeyPair; ss_counter : N }.

(** [SharedState::init] *)
Definition SharedState_init : Outcome SharedState := k ← unwrap created; Val (mkShared k 0).

(** [SHARED_STATE], created at the first use. *)
Definition shared_state {A} (f : SharedState -> Outcome (A * SharedState)) : St (option SharedState) A := fun s =>
  state ← match s with Some state => Val state | None => SharedState_init end;
  r ← f state;
  Val (r.1, Some r.2).

(** The bytes that are signed: the message, then the counter. *)
Definition sign_data (message : list N) (counter : N) : list N := message ++ to_be_bytes counter.

Definition sign_safe (message : list N) : St (option SharedState) (Result () SgxError * (Ec256Signature * N)) :=
  shared_state (fun state =>
    let counter := ss_counter state in
    next ← u64_add (ss_counter state) 1;
    Val ((Ok (), (kp_sign (ss_key_pair state) (sign_data message counter), counter)), mkShared (ss_key_pair state) next)).

Definition attest_safe (cert_der : list N) : St (option SharedState) (Result () SgxError * (PubKey * N * list N * nat)) :=
  shared_state (fun state =>
    Val ((Ok (), (kp_public_key (ss_key_pair state), ss_counter state, cert_der, 0)), state)).

Definition ecall_sign (message : Ptr N * N) : St (option SharedState) (N * (Ec256Signature * N)) :=
  message ← lift (call_param_to_slice message.1 message.2);
  r ← sign_safe message;
  mret (into_status r.1, r.2).

Definition ecall_attest (cert_der : Ptr N * N) : St (option SharedState) (N * (PubKey * N * list N * nat)) :=
  cert_der ← lift (call_param_to_slice cert_der.1 cert_der.2);
  r ← attest_safe cert_der;
  mret (into_status r.1, r.2).

(** ** [usig-tee] *)

Record TeeSignature := mkTeeSignature { tsig_signature : RawSignature; tsig_counter : N }.
#[export] Instance TeeSignature_counter : Counter TeeSignature := tsig_counter.
Definition TeeSignature_hash (s : TeeSignature) : list N := rs_xy (tsig_signature s) ++ to_le_bytes (tsig_counter s).
#[export] Instance TeeSignature_Hashbar : Hashbar TeeSignature := TeeSignature_hash.

Record TeeAttestation := mkTeeAttestation { tatt_pub_key : PubKey; tatt_counter : N; tatt_intel_report : list N }.
Definition TeeAttestation_hash (a : TeeAttestation) : list N :=
  pk_gx (tatt_pub_key a) ++ pk_gy (tatt_pub_key a) ++ to_le_bytes (tatt_counter a) ++ tatt_intel_report a.
#[export] Instance TeeAttestation_Hashbar : Hashbar TeeAttestation := TeeAttestation_hash.
#[export] Instance TeeAttestation_eq_dec : EqDecision TeeAttestation.
Proof. solve_decision. Defined.

Local Abbreviation Enclave := (SgxEnclave (option SharedState)).

Record UsigTEESignHalf := mkTeeSignHalf { th_enclave : Enclave }.

Definition UsigTEESignHalf_sign (h : UsigTEESignHalf) (message : list N) : Outcome (Result TeeSignature UsigError * UsigTEESignHalf) :=
  r ← ecall (ecall_sign (call_param_to_ptr message)) (th_enclave h);
  Val (match both_results r.1 with
       | Ok (signature, counter) => Ok (mkTeeSignature (RawSignature_from signature) counter)
       | Err _ => Err SigningFailed
       end, mkTeeSignHalf r.2).

Definition UsigTEESignHalf_attest (h : UsigTEESignHalf) : Outcome (Result TeeAttestation UsigError * UsigTEESignHalf) :=
  r ← ecall (ecall_attest (call_param_to_ptr (replicate 4096 0%N))) (th_enclave h);
  Val (match both_results r.1 with
       | Ok (pubkey, counter, cert_der, len) => Ok (mkTeeAttestation pubkey counter (take len cert_der))
       | Err _ => Err RemoteAttestationFailed
       end, mkTeeSignHalf r.2).

Record UsigTEEVerifyHalf := mkTeeVerifyHalf { tv_pubkeys : gmap N PubKey }.

Definition UsigTEEVerifyHalf_verify (h : UsigTEEVerifyHalf) (remote_usig_id : N) (message : list N) (signature : TeeSignature)
    : Result () UsigError :=
  match tv_pubkeys h !! remote_usig_id with
  | None => Err (UnknownId remote_usig_id)
  | Some pubkey =>
      if ec_verify pubkey (sign_data message (tsig_counter signature)) (Ec256Signature_from (tsig_signature signature))
      then Ok () else Err InvalidSignature
  end.

Definition UsigTEEVerifyHalf_add_remote_party (h : UsigTEEVerifyHalf) (remote_usig_id : N) (attestation : TeeAttestation)
    : bool * UsigTEEVerifyHalf :=
  (true, mkTeeVerifyHalf (<[remote_usig_id := tatt_pub_key attestation]> (tv_pubkeys h))).

Record UsigTEE := mkUsigTEE { te_sign_half : UsigTEESignHalf; te_verify_half : UsigTEEVerifyHalf }.

Definition UsigTEE_init_panic : Outcome UsigTEE :=
  match sgx_create with
  | None => Val (mkUsigTEE (mkTeeSignHalf (mkSgxEnclave None false 0)) (mkTeeVerifyHalf ∅))
  | Some _ => Panic
  end.

Definition UsigTEE_split (u : UsigTEE) : UsigTEESignHalf * UsigTEEVerifyHalf := (te_sign_half u, te_verify_half u).

#[export] Instance UsigTEE_impl : Usig UsigTEE TeeSignature TeeAttestation := {|
  us_sign := fun u message => r ← UsigTEESignHalf_sign (te_sign_half u) message; Val (r.1, mkUsigTEE r.2 (te_verify_half u));
  us_attest := fun u => r ← UsigTEESignHalf_attest (te_sign_half u); Val (r.1, mkUsigTEE r.2 (te_verify_half u));
  us_verify := fun u id message signature => UsigTEEVerifyHalf_verify (te_verify_half u) id message signature;
  us_add_remote_party := fun u id attestation =>
    let r := UsigTEEVerifyHalf_add_remote_party (te_verify_half u) id attestation in
    (r.1, mkUsigTEE (te_sign_half u) r.2);
|}.

(** ** The calls *)

Definition count_of (s : option SharedState) : N := match s with None => 0%N | Some state => ss_counter state end.
(** The key of the enclave, before and after it was created. *)
Definition key_of (s : option SharedState) : option KeyPair := match s with None => created | Some state => Some (ss_key_pair state) end.

Lemma usig_state_inv {A} (f : SharedState -> Outcome (A * SharedState)) s a s' :
  shared_state f s = Val (a, s') ->
  exists st st', ss_counter st = count_of s /\ key_of s = Some (ss_key_pair st) /\ f st = Val (a, st') /\ s' = Some st'.
Proof.
  unfold shared_state, SharedState_init. intros (st & Hst & ([x st'] & Hf & [= <- <-])%outcome_bind_inv)%outcome_bind_inv.
  exists st, st'. destruct s as [st0|]; [by injection Hst as ->|].
  apply outcome_bind_inv in Hst as (k & Hk & [= <-]). cbn. destruct created; [|done]. by injection Hk as ->.
Qed.

(** A signature uses the counter up; nothing else changes it. *)
Lemma ecall_sign_inv (p : Ptr N * N) s r s' :
  overflow_checks = true -> ecall_sign p s = Val (r, s') ->
  exists message k, call_param_to_slice p.1 p.2 = Val message /\ key_of s = Some k /\ key_of s' = Some k
    /\ r = (0%N, (kp_sign k (sign_data message (count_of s)), count_of s)) /\ count_of s' = (count_of s + 1)%N.
Proof.
  intros Hoc (m & Hm & (x & s1 & (st & st' & Hc & Hk & (next & Hn & [= <- <-])%outcome_bind_inv & ->)%usig_state_inv
    & [= <- <-])%st_bind_inv)%bind_lift_inv.
  apply (u64_add_next Hoc) in Hn as ->. exists m, (ss_key_pair st). rewrite <-Hc. by split_and!.
Qed.

Lemma ecall_attest_inv (p : Ptr N * N) s r s' :
  ecall_attest p s = Val (r, s') ->
  exists buf k, key_of s = Some k /\ key_of s' = Some k /\ count_of s' = count_of s
    /\ r = (0%N, (kp_public_key k, count_of s, buf, 0)).
Proof.
  intros (m & Hm & (x & s1 & (st & st' & Hc & Hk & [= <- <-] & ->)%usig_state_inv & [= <- <-])%st_bind_inv)%bind_lift_inv.
  exists m, (ss_key_pair st). by rewrite <-Hc.
Qed.

Lemma slice_fuel {T} (p : Ptr T) n : call_param_to_slice p n <> NoFuel.
Proof. unfold call_param_to_slice. destruct (_ =? _)%N; [done|]. by destruct p. Qed.

Lemma shared_state_fuel {A} (f : SharedState -> Outcome (A * SharedState)) s :
  (forall st, f st <> NoFuel) -> shared_state f s <> NoFuel.
Proof.
  intros Hf. unfold shared_state. apply outcome_bind_fuel; [|intros st _; by apply outcome_bind_fuel].
  destruct s; [done|]. unfold SharedState_init. by destruct created.
Qed.

Lemma ecall_sign_fuel p s : ecall_sign p s <> NoFuel.
Proof.
  unfold ecall_sign, mbind, St_bind, lift. pose proof (slice_fuel p.1 p.2). destruct (call_param_to_slice _ _) as [m| |]; try done. cbn.
  pose proof (shared_state_fuel (fun state => next ← u64_add (ss_counter state) 1;
    Val ((Ok (E := SgxError) (), (kp_sign (ss_key_pair state) (sign_data m (ss_counter state)), ss_counter state)), mkShared (ss_key_pair state) next)) s) as Hf.
  unfold sign_safe. destruct (shared_state _ s) as [[]| |]; try done. destruct Hf; [|done]. intros st.
  apply outcome_bind_fuel; [apply u64_add_fuel|done].
Qed.

Lemma ecall_attest_fuel p s : ecall_attest p s <> NoFuel.
Proof.
  unfold ecall_attest, mbind, St_bind, lift. pose proof (slice_fuel p.1 p.2). destruct (call_param_to_slice _ _) as [m| |]; try done. cbn.
  unfold attest_safe. pose proof (shared_state_fuel (fun state => Val ((Ok (E := SgxError) (), (kp_public_key (ss_key_pair state), ss_counter state, m, 0)), state)) s) as Hf.
  destruct (shared_state _ s) as [[]| |]; try done. by destruct Hf.
Qed.

(** ** The laws *)

Context (Hoc : overflow_checks = true).

Lemma UsigTEE_sign_cases h message r h' :
  UsigTEESignHalf_sign h message = Val (r, h') ->
  (r = Err SigningFailed /\ sg_state (th_enclave h') = sg_state (th_enclave h))
  \/ exists k, let c := count_of (sg_state (th_enclave h)) in
       key_of (sg_state (th_enclave h)) = Some k /\ key_of (sg_state (th_enclave h')) = Some k
       /\ r = Ok (mkTeeSignature (RawSignature_from (kp_sign k (sign_data message c))) c)
       /\ count_of (sg_state (th_enclave h')) = (c + 1)%N.
Proof.
  unfold UsigTEESignHalf_sign. intros ([x e] & Hx%ecall_inv & [= <- <-])%outcome_bind_inv. cbn [fst snd th_enclave].
  destruct Hx as [(er & -> & ->)|(y & -> & Hy)]; [by left|right].
  apply (ecall_sign_inv _ _ _ _ Hoc) in Hy as (m & k & Hm & Hk & Hk' & -> & Hc). rewrite call_param_roundtrip in Hm.
  injection Hm as <-. by exists k.
Qed.

Lemma UsigTEE_attest_cases h r h' :
  UsigTEESignHalf_attest h = Val (r, h') ->
  count_of (sg_state (th_enclave h')) = count_of (sg_state (th_enclave h))
  /\ key_of (sg_state (th_enclave h')) = key_of (sg_state (th_enclave h))
  /\ forall att, r = Ok att -> exists k, key_of (sg_state (th_enclave h)) = Some k /\ tatt_pub_key att = kp_public_key k.
Proof.
  unfold UsigTEESignHalf_attest. intros ([x e] & Hx%ecall_inv & [= <- <-])%outcome_bind_inv. cbn [fst snd th_enclave].
  destruct Hx as [(er & -> & ->)|(y & -> & (buf & k & Hk & -> & -> & ->)%ecall_attest_inv)]; [done|].
  split; [done|]. split; [done|]. intros att [= <-]. by exists k.
Qed.

#[export, refine] Instance UsigTEE_laws : UsigLaws UsigTEE TeeSignature TeeAttestation := {|
  us_next := fun u => count_of (sg_state (th_enclave (te_sign_half u)));
|}.
Proof.
  - intros u msg sig u' ([r h] & Hs%UsigTEE_sign_cases & [= -> <-])%outcome_bind_inv. cbn.
    by destruct Hs as [[[=] _]|(k & _ & _ & [= ->] & ->)].
  - intros u msg e u' ([r h] & Hs%UsigTEE_sign_cases & [= -> <-])%outcome_bind_inv. cbn.
    by destruct Hs as [[_ ->]|(k & _ & _ & [=] & _)].
  - intros u msg. apply outcome_bind_fuel; [|done]. apply outcome_bind_fuel; [|done]. apply ecall_fuel. intros s. apply ecall_sign_fuel.
  - intros u r u' ([x h] & Hs%UsigTEE_attest_cases & [= _ <-])%outcome_bind_inv. cbn. apply Hs.
  - intros u. apply outcome_bind_fuel; [|done]. apply outcome_bind_fuel; [|done]. apply ecall_fuel. intros s. apply ecall_attest_fuel.
  - done.
Defined.
End tee.
