(* ===== verification/MbTeeTheorems.v ===== *)
(** * MinBFT: theorems about the USIG in SGX

    A host cannot make the enclave skip or reuse a number, its signatures verify,
    and a replica on it uses the numbers without a gap and answers every request
    once. *)

From Stdlib Require Import ZArith Lia.
From stdpp Require Import base list gmap sets numbers option sorting.
From S2P Require Import Prelude Triple Ids Heaps Requests MbUsig MbBase MbMessages MbOrder MbCollectors MbBatcher.
From S2P Require Import MbRequests MbReplica MbOrderFacts MbCertFacts MbCollectFacts MbRequestFacts MbInvariant.
From S2P Require Import MbRun Sgx MbTee.

(** ** A host that is not trusted *)

Section session.
  Context {P : Profile} `{Ecc} `{SgxRuntime} (created : option KeyPair).

Inductive usig_ecall :=
| Ec_sign (message : Ptr N * N)
| Ec_attest (cert_der : Ptr N * N).

(** The signatures the host is handed. *)
Definition usig_body (c : usig_ecall) : St (option SharedState) (option (Ec256Signature * N)) :=
  match c with
  | Ec_sign message => r ← ecall_sign created message; mret (if (r.1 =? 0)%N then Some r.2 else None)
  | Ec_attest cert_der => ecall_attest created cert_der ;; mret None
  end.

Lemma usig_session_counters cs e out e' :
  overflow_checks = true -> session usig_body cs e = Val (out, e') ->
  (snd <$> out) = range (count_of (sg_state e)) (count_of (sg_state e')) /\ (count_of (sg_state e) <= count_of (sg_state e'))%N.
Proof.
  intros Hoc. revert e out. induction cs as [|c cs IH]; intros e out; cbn [session].
  { intros [= <- <-]. by rewrite range_nil. }
  intros ([r e1] & Hc%ecall_inv & Hs)%outcome_bind_inv. apply outcome_bind_inv in Hs as ([out1 e2] & Hs & [= <- <-]).
  cbn [fst snd] in *. apply IH in Hs as [Hs Hle]. destruct Hc as [(er & -> & He)|(o & -> & Hb)]; [by rewrite <-He|].
  destruct c; cbn in Hb; apply st_bind_inv in Hb as (x & s1 & Hx & [= <- ->]).
  - apply (ecall_sign_inv created _ _ _ _ Hoc) in Hx as (m & k & _ & _ & _ & -> & Hc). rewrite Hc in *. cbn.
    split; [|lia]. by rewrite Hs, (range_cons (count_of (sg_state e))) by lia.
  - by apply ecall_attest_inv in Hx as (buf & k & _ & _ & <- & _).
Qed.

(** C16: A USIG whatever the host does.  Over any sequence of calls of the functions
    the enclave exports, with whatever pointers and lengths, the signatures the
    host is handed carry the numbers 0, 1, 2, ... in this order, each once. *)
Theorem mb_tee_sequential cs out e' :
  overflow_checks = true -> session usig_body cs (mkSgxEnclave None false 0) = Val (out, e') ->
  (snd <$> out) = range 0 (N.of_nat (length out)).
Proof.
  intros Hoc [Hs _]%usig_session_counters; [|done]. cbn [count_of sg_state] in Hs.
  assert (length out = length (range 0 (count_of (sg_state e')))) as Hl by (by rewrite <-Hs, length_fmap).
  rewrite length_range, N.sub_0_r in Hl. by rewrite Hs, Hl, N2Nat.id.
Qed.
End session.

(** ** The theorems *)

Section theorems.
  Context {Pr : Profile} `{EccLaws} `{SgxRuntime} (created : option KeyPair).
  #[local] Hint Extern 0 (Usig UsigTEE _ _) => exact (UsigTEE_impl created) : typeclass_instances.

(** Round trip.  A USIG that has loaded the attestation of another one accepts
    what that one signs, and the signature carries the number the enclave was at. *)
Theorem mb_tee_sign_verify (u u1 u2 v : UsigTEE) id att message sig :
  overflow_checks = true ->
  us_attest u = Val (Ok att, u1) -> us_sign u1 message = Val (Ok sig, u2) ->
  us_verify (us_add_remote_party v id att).2 id message sig = Ok ()
  /\ counter sig = count_of (sg_state (th_enclave (te_sign_half u))).
Proof.
  intros Hoc ([r h] & (Hc & Hk & Hatt)%UsigTEE_attest_cases & [= -> <-])%outcome_bind_inv
    ([r' h'] & Hs%(UsigTEE_sign_cases created Hoc) & [= -> <-])%outcome_bind_inv. cbn in Hs, Hc, Hk.
  destruct (Hatt att eq_refl) as (k & Hk0 & Hpk).
  destruct Hs as [[[=] _]|(k' & Hk' & _ & [= ->] & _)]. rewrite Hk, Hk0 in Hk'. injection Hk' as <-.
  split; [|exact Hc]. cbn [us_verify us_add_remote_party UsigTEE_impl snd te_verify_half].
  unfold UsigTEEVerifyHalf_verify, UsigTEEVerifyHalf_add_remote_party. cbn [snd tv_pubkeys tsig_counter tsig_signature].
  by rewrite lookup_insert_eq, Hpk, Ec256Signature_roundtrip, ec_correct by apply kp_sign_wf.
Qed.

Context (Hoc : overflow_checks = true).
#[local] Hint Extern 0 (UsigLaws UsigTEE _ _) => exact (UsigTEE_laws created Hoc) : typeclass_instances.

(** A replica on the enclave.  The messages a replica of MinBFT with the SGX USIG
    broadcasts over a run carry the numbers 0, 1, 2, ... up to the counter in the
    enclave, and the requests of one client are answered with increasing numbers. *)
Theorem mb_tee_replica {P Bt : Type} `{Hashbar P} `{Digests} `{HashOrderLaws} `{BatcherLaws Bt P TeeAttestation}
    (clock : nat -> N) cfg received outs (s : MinBft P UsigTEE TeeSignature TeeAttestation Bt) :
  mb_run clock cfg received outs s ->
  sent_counters outs = range 0 (count_of (sg_state (th_enclave (te_sign_half (mb_usig s)))))
  /\ forall i j client (x y : WrappedRequestPayload P TeeAttestation),
       responses outs !! i = Some (client, x) -> responses outs !! j = Some (client, y) -> i < j -> (WP_id x < WP_id y)%N.
Proof.
  intros Hr. split.
  - by destruct (mb_run_good clock cfg Hoc received _ _ _ Hr (reflexivity _)) as [(hist & _ & _ & _ & Hc) _].
  - intros i j client x y. by eapply mb_responses_increasing.
Qed.
End theorems.

(** ** Witnesses: USIGs on keys 7 and 8 *)

From S2P Require Import MbExamples SgxExamples.

(** A host that signs, asks for the attestation, signs the same bytes again and then nothing. *)
Definition tm_key (k : N) : option KeyPair := Some k.
Definition tm_calls : list usig_ecall :=
  [Ec_sign (call_param_to_ptr [1%N]); Ec_attest (call_param_to_ptr [0; 0]%N); Ec_sign (call_param_to_ptr [1%N]); Ec_sign (call_param_to_ptr [])].

Lemma outcome_test {A B} (q : B -> bool) (m : Outcome (A * B)) :
  match m with Val (_, b) => q b | _ => false end = true -> exists a b, m = Val (a, b) /\ q b = true.
Proof. destruct m as [[a b]| |]; try discriminate. eauto. Qed.

Lemma mb_tee_sequential_witness : exists out e',
  session (usig_body (tm_key 7)) tm_calls (mkSgxEnclave None false 0) = Val (out, e')
  /\ (snd <$> out) = range 0 (N.of_nat (length out)).
Proof.
  destruct (outcome_test (fun e => (count_of (sg_state e) =? 3)%N) (session (usig_body (tm_key 7)) tm_calls (mkSgxEnclave None false 0)))
    as (out & e' & Hs & _); [vm_compute; reflexivity|].
  exists out, e'. split; [exact Hs|]. exact (mb_tee_sequential (tm_key 7) tm_calls out e' eq_refl Hs).
Defined.

(** A USIG whose enclave is at number [c]. *)
Definition tm_usig (k : @KeyPair sx_ecc) (c : N) : UsigTEE :=
  mkUsigTEE (mkTeeSignHalf (mkSgxEnclave (Some (mkShared k c)) false 0)) (mkTeeVerifyHalf ∅).

Lemma mb_tee_sign_verify_witness : exists u1 u2 att sig,
  us_attest (Usig := UsigTEE_impl (tm_key 7)) (tm_usig 7%N 1) = Val (Ok att, u1)
  /\ us_sign (Usig := UsigTEE_impl (tm_key 7)) u1 [5%N] = Val (Ok sig, u2)
  /\ us_verify (Usig := UsigTEE_impl (tm_key 7))
       (us_add_remote_party (Usig := UsigTEE_impl (tm_key 7)) (tm_usig 8%N 0) 3 att).2 3 [5%N] sig = Ok ()
  /\ counter sig = 1%N.
Proof.
  eexists _, _, _, _. split; [vm_compute; reflexivity|]. split; [vm_compute; reflexivity|].
  eapply (mb_tee_sign_verify (tm_key 7) (tm_usig 7%N 1)); [reflexivity|vm_compute; reflexivity|vm_compute; reflexivity].
Defined.

(** Replica 0 of three is created, is greeted by the others and gets two requests: it
    is the primary and prepares them. *)
Abbreviation TmReplica :=
  (MinBft (list N) UsigTEE TeeSignature TeeAttestation (BoxedBatcher (list N) TeeAttestation)).
#[local] Hint Extern 0 (Usig UsigTEE _ _) => exact (UsigTEE_impl (tm_key 7)) : typeclass_instances.
#[local] Hint Extern 0 (UsigLaws UsigTEE _ _) => exact (UsigTEE_laws (tm_key 7) mx_checks) : typeclass_instances.
#[local] Instance tm_batcher : RequestBatcher (BoxedBatcher (list N) TeeAttestation) (list N) TeeAttestation :=
  BoxedBatcher_impl mx_clock mx_rng.
#[local] Instance tm_batcher_laws : BatcherLaws (BoxedBatcher (list N) TeeAttestation) (list N) TeeAttestation :=
  BoxedBatcher_laws mx_clock mx_rng.

Definition tm_hello (k : N) : PeerMessage (list N) TeeSignature TeeAttestation :=
  mkPeerMessage (Hello (mkTeeAttestation (mkPubKey [k] []) 0 [])).

Abbreviation tm_new := (MinBft_new (Bt := BoxedBatcher (list N) TeeAttestation) mx_clock 20 (tm_usig 7%N 0) (mx_config 0) false 7).

Definition tm_run : Outcome (list (Output (list N) TeeSignature TeeAttestation) * TmReplica) :=
  r ← tm_new;
  match r with
  | Err _ => Panic
  | Ok (s, o0) =>
      r1 ← handle_peer_message mx_clock 20 1 (tm_hello 8) s;
      r2 ← handle_peer_message mx_clock 20 2 (tm_hello 9) r1.2;
      r3 ← handle_client_message mx_clock 20 5 1 [42%N] r2.2;
      r4 ← handle_client_message mx_clock 20 6 1 [43%N] r3.2;
      Val (((([o0] ++ [r1.1]) ++ [r2.1]) ++ [r3.1]) ++ [r4.1], r4.2)
  end.

Lemma tm_run_inv outs s : tm_run = Val (outs, s) -> mb_run mx_clock (mx_config 0) [] outs s.
Proof.
  unfold tm_run. intros (r & Hn & H)%outcome_bind_inv. destruct r as [[s0 o0]|]; [|done].
  apply outcome_bind_inv in H as ([o1 s1] & H1 & H). apply outcome_bind_inv in H as ([o2 s2] & H2 & H).
  apply outcome_bind_inv in H as ([o3 s3] & H3 & H). apply outcome_bind_inv in H as ([o4 s4] & H4 & [= <- <-]).
  change [o0; o1; o2; o3; o4] with (((([o0] ++ [o1]) ++ [o2]) ++ [o3]) ++ [o4]). cbn [fst snd] in *.
  eapply run_client; [|exact H4]. eapply run_client; [|exact H3].
  change (@nil (UsigMessage (list N) TeeSignature TeeAttestation)) with (([] ++ usig_of (tm_hello 8)) ++ usig_of (tm_hello 9)).
  eapply run_message; [|exact H2]. eapply run_message; [|exact H1]. eapply run_new with (nonce := 7%N); [|exact Hn]. reflexivity.
Qed.

Lemma mb_tee_replica_witness : exists outs s,
  tm_run = Val (outs, s) /\ sent_counters outs = [0; 1]%N
  /\ sent_counters outs = range 0 (count_of (sg_state (th_enclave (te_sign_half (mb_usig s))))).
Proof.
  destruct (outcome_test (fun s => (count_of (sg_state (th_enclave (te_sign_half (mb_usig s)))) =? 2)%N) tm_run)
    as (outs & s & Hs & Hc%N.eqb_eq); [vm_compute; reflexivity|].
  exists outs, s. split; [exact Hs|].
  pose proof (proj1 (mb_tee_replica (tm_key 7) mx_checks mx_clock (mx_config 0) [] outs s (tm_run_inv outs s Hs))) as Hr.
  split; [|exact Hr]. rewrite Hr, Hc. reflexivity.
Defined.
