(* ===== verification/SmrClient.v ===== *)
(** * Clients of the replicated service

    Models [src/abcperf/abcperf/src/application/smr_client]: the numbers of clients
    and requests ([SharedFactory], [SharedClient]), the hint at the primary
    ([CurrentPrimary]), the client that compares [t + 1] answers ([bft.rs]) and the
    one that asks one replica after the other ([fallback.rs]).

    A future is polled after every event of the environment: an answer of a
    replica, a timer, or the cancellation of the client.  What the shuffling of a
    list returns is a parameter. *)

From Stdlib Require Import ZArith Lia.
From stdpp Require Import base list numbers option sorting sets.
From S2P Require Import Prelude Ids Triple.

(** ** Futures *)

Inductive Poll (R : Type) := Ready (r : R) | Pending.
Arguments Ready {R} r.
Arguments Pending {R}.

Inductive SMRClientError := Cancelled | GotAtLeastOneInvalidResponse | NotEnoughValidResponse.

(** The replies of the replicas, a timer, and [stop.cancelled()]. *)
Inductive Event (T E : Type) :=
| Answered (id : N) (r : Result T E)
| Elapsed
| Cancel.
Arguments Answered {T E} id r.
Arguments Elapsed {T E}.
Arguments Cancel {T E}.

(** [select! { biased; () = stop.cancelled() => .., res = fut => .. }]: the future is a
    function of the events since it was started. *)
Fixpoint select_biased {T E R} (fut : list (Event T E) -> Outcome (Poll R)) (seen events : list (Event T E))
    : Outcome (Poll (Result R SMRClientError)) :=
  p ← fut seen;
  match p with
  | Ready r => Val (Ready (Ok r))
  | Pending =>
      match events with
      | [] => Val Pending
      | Cancel :: _ => Val (Ready (Err Cancelled))
      | e :: events => select_biased fut (seen ++ [e]) events
      end
  end.

(** A token that is cancelled before the first poll keeps the future from starting. *)
Definition select_stop {T E R} (cancelled : bool) (fut : list (Event T E) -> Outcome (Poll R)) (events : list (Event T E))
    : Outcome (Poll (Result R SMRClientError)) :=
  if cancelled then Val (Ready (Err Cancelled)) else select_biased fut [] events.

(** ** [CurrentPrimary] *)

Definition NONE_STATE : N := 2 ^ 64 - 1.
Record CurrentPrimary := mkCurrentPrimary { cp_state : N }.
Definition CurrentPrimary_new : CurrentPrimary := mkCurrentPrimary NONE_STATE.
Definition CurrentPrimary_set (replica_id : option N) : St CurrentPrimary () := fun _ =>
  match replica_id with
  | Some id => if (as_u64 id =? NONE_STATE)%N then Panic else Val ((), mkCurrentPrimary (as_u64 id))
  | None => Val ((), mkCurrentPrimary NONE_STATE)
  end.
Definition CurrentPrimary_get (c : CurrentPrimary) : option N :=
  if (cp_state c =? NONE_STATE)%N then None else Some (from_u64 (cp_state c)).

Section clients.
  Context {P : Profile} {Req Resp Error Addr : Type} `{EqDecision Resp}.

(** ** Numbers of clients and requests *)

Record SharedFactory := mkSharedFactory { sf_replicas : list (N * Addr); sf_next_client_id : N; sf_shards : N }.

Definition SharedFactory_new (replicas : list (N * Addr)) (shard_id shards : N) : Outcome SharedFactory :=
  if (shard_id <? shards)%N then Val (mkSharedFactory replicas (from_u64 shard_id) shards) else Panic.

Definition get_next_client_id : St SharedFactory N := fun f =>
  next ← id_add_assign (sf_next_client_id f) (sf_shards f);
  Val (sf_next_client_id f, mkSharedFactory (sf_replicas f) next (sf_shards f)).

Record SharedClient := mkSharedClient { sc_replicas : list (N * Addr); sc_client_id : N; sc_next_request_id : N }.

Definition create_shared_client : St SharedFactory SharedClient := fun f =>
  r ← get_next_client_id f;
  Val (mkSharedClient (sf_replicas f) r.1 (from_u64 0), r.2).

Definition get_next_request_id : St SharedClient N := fun c =>
  next ← id_add_assign (sc_next_request_id c) 1;
  Val (sc_next_request_id c, mkSharedClient (sc_replicas c) (sc_client_id c) next).

(** ** [bft.rs] *)

Definition answer_of (e : Event Resp Error) : option (Result Resp Error) := match e with Answered _ r => Some r | _ => None end.
Definition ok_of (r : Result Resp Error) : option Resp := match r with Ok v => Some v | Err _ => None end.

(** The stream ends when every future has completed; [take] ends it before. *)
Definition get_t_plus_one (replicas : list (N * Addr)) (t : N) (seen : list (Event Resp Error))
    : Outcome (Poll (option (list Resp))) :=
  if negb (t <? N.of_nat (length replicas))%N then Panic else
  let answers := omap answer_of seen in
  let responses := take (S (N.to_nat t)) (omap ok_of answers) in
  if (length responses =? S (N.to_nat t)) then Val (Ready (Some responses))
  else if (length answers =? length replicas) then Val (Ready None)
  else Val Pending.

(** [resp.windows(2)], of which each pair must be equal. *)
Fixpoint all_windows_equal (resp : list Resp) : bool :=
  match resp with
  | a :: (b :: _) as rest => bool_decide (a = b) && all_windows_equal rest
  | _ => true
  end.

Definition check_responses (res : option (list Resp)) : Outcome (Result Resp SMRClientError) :=
  match res with
  | Some resp =>
      if all_windows_equal resp then v ← unwrap (last resp); Val (Ok v)
      else Val (Err GotAtLeastOneInvalidResponse)
  | None => Val (Err NotEnoughValidResponse)
  end.

Record BftClient := mkBftClient { bc_shared : SharedClient; bc_t : N }.

Definition BftClient_send_request (cancelled : bool) (events : list (Event Resp Error))
    : St BftClient (Poll (Result Resp SMRClientError)) := fun c =>
  r ← get_next_request_id (bc_shared c);
  let c := mkBftClient r.2 (bc_t c) in
  res ← select_stop cancelled (get_t_plus_one (sc_replicas (bc_shared c)) (bc_t c)) events;
  match res with
  | Pending => Val (Pending, c)
  | Ready (Err e) => Val (Ready (Err e), c)
  | Ready (Ok res) => x ← check_responses res; Val (Ready x, c)
  end.

Record BftClientFactory := mkBftFactory { bf_shared : SharedFactory; bf_t : N }.
Definition BftClientFactory_create_client : St BftClientFactory BftClient := fun f =>
  r ← create_shared_client (bf_shared f);
  Val (mkBftClient r.1 (bf_t f), mkBftFactory r.2 (bf_t f)).

(** ** [fallback.rs] *)

(** The order in which the replicas are asked. *)
Definition fallback_order (shuffle : list (N * Addr) -> list (N * Addr)) (replicas : list (N * Addr)) (first_replica : N)
    : Outcome (list N) :=
  first ← unwrap (snd <$> list_find (fun r => r.1 = first_replica) replicas);
  let others := shuffle (filter (fun r => r.1 <> first_replica) replicas) in
  Val (reverse (others ++ [first]).*1).

(** [running]: the replicas that were asked and have not answered; [futures]: those
    not asked yet.  One event at a time; an answer is one of a running future. *)
Fixpoint fallback_loop (running futures : list N) (seen : list (Event Resp Error)) : Outcome (Poll (option (N * Resp))) :=
  match running, futures with
  | [], [] => Val (Ready None)
  | [], _ :: _ => Panic
  | _ :: _, _ =>
      match seen with
      | [] => Val Pending
      | Answered id r :: seen =>
          if negb (bool_decide (id ∈ running)) then fallback_loop running futures seen else
          match r with
          | Ok v => Val (Ready (Some (id, v)))
          | Err _ =>
              let running := list_difference running [id] in
              match futures with
              | future :: futures => fallback_loop (running ++ [future]) futures seen
              | [] => fallback_loop running [] seen
              end
          end
      | Elapsed :: seen =>
          match futures with
          | future :: futures => fallback_loop (running ++ [future]) futures seen
          | [] => fallback_loop running [] seen
          end
      | Cancel :: seen => fallback_loop running futures seen
      end
  end.

Definition get_one_with_fallback (order : list N) (seen : list (Event Resp Error)) : Outcome (Poll (option (N * Resp))) :=
  match order with
  | [] => Panic
  | first :: futures => fallback_loop [first] futures seen
  end.

(** The cell of the hint is shared by all clients: [fc_primary_hint] is what it holds when
    a request is sent. *)
Record FallbackClient := mkFallbackClient { fc_shared : SharedClient; fc_default : N; fc_primary_hint : CurrentPrimary }.

Definition FallbackClient_send_request (shuffle : list (N * Addr) -> list (N * Addr)) (cancelled : bool)
    (events : list (Event Resp Error)) : St FallbackClient (Poll (Result Resp SMRClientError)) := fun c =>
  let first_replica := default (fc_default c) (CurrentPrimary_get (fc_primary_hint c)) in
  r ← get_next_request_id (fc_shared c);
  let c := mkFallbackClient r.2 (fc_default c) (fc_primary_hint c) in
  res ← select_stop cancelled (fun seen =>
          order ← fallback_order shuffle (sc_replicas (fc_shared c)) first_replica;
          get_one_with_fallback order seen) events;
  match res with
  | Pending => Val (Pending, c)
  | Ready (Err e) => Val (Ready (Err e), c)
  | Ready (Ok (Some (id, resp))) => Val (Ready (Ok resp), mkFallbackClient (fc_shared c) id (fc_primary_hint c))
  | Ready (Ok None) => Val (Ready (Err NotEnoughValidResponse), c)
  end.

Record FallbackClientFactory := mkFallbackFactory { ff_shared : SharedFactory; ff_primary_hint : CurrentPrimary }.
(** [gen_range n]: a number the generator draws below [n], which must not be zero. *)
Definition FallbackClientFactory_create_client (gen_range : nat -> N) : St FallbackClientFactory FallbackClient := fun f =>
  r ← create_shared_client (ff_shared f);
  if (length (sc_replicas r.1) =? 0) then Panic else
  Val (mkFallbackClient r.1 (from_u64 (gen_range (length (sc_replicas r.1)))) (ff_primary_hint f),
       mkFallbackFactory r.2 (ff_primary_hint f)).
End clients.
Arguments SharedFactory Addr : clear implicits.
Arguments SharedClient Addr : clear implicits.
Arguments BftClient Addr : clear implicits.
Arguments FallbackClient Addr : clear implicits.

(** ** Theorems about the clients of the replicated service *)

(** ** Futures *)

Definition is_cancel {T E} (e : Event T E) : bool := match e with Cancel => true | _ => false end.

Lemma select_biased_inv {T E R} (fut : list (Event T E) -> Outcome (Poll R)) seen events r :
  select_biased fut seen events = Val (Ready (Ok r)) ->
  exists pre, pre `prefix_of` events /\ fut (seen ++ pre) = Val (Ready r).
Proof.
  revert seen. induction events as [|e events IH]; intros seen; cbn [select_biased];
    intros ([x|] & Hf & He)%outcome_bind_inv.
  1, 3: injection He as <-; exists []; rewrite app_nil_r; split; [apply prefix_nil|done].
  - done.
  - destruct e; [..|done]; apply IH in He as (pre & Hp & Hr);
      (eexists (_ :: pre); split; [by apply prefix_cons|]; by rewrite <-app_assoc in Hr).
Qed.

(** Without a cancellation, a future that is ready after all events is ready. *)
Lemma select_biased_ready {T E R} (fut : list (Event T E) -> Outcome (Poll R)) seen events r :
  Forall (fun e => is_cancel e = false) events ->
  (forall pre, pre `prefix_of` events -> fut (seen ++ pre) = Val Pending \/ exists r', fut (seen ++ pre) = Val (Ready r')) ->
  fut (seen ++ events) = Val (Ready r) ->
  exists pre r', pre `prefix_of` events /\ fut (seen ++ pre) = Val (Ready r')
    /\ select_biased fut seen events = Val (Ready (Ok r')).
Proof.
  revert seen. induction events as [|e events IH]; intros seen Hc Hpre Hr; cbn [select_biased].
  - rewrite app_nil_r in Hr. rewrite Hr. exists [], r. rewrite app_nil_r. by split_and!; [apply prefix_nil|..].
  - inversion_clear Hc as [|? ? He Hc']. destruct (Hpre [] (prefix_nil _)) as [Hp|[r' Hp]].
    + rewrite app_nil_r in Hp. rewrite Hp. cbn.
      destruct (IH (seen ++ [e]) Hc') as (pre & r' & Hpe & Hf & Hs).
      * intros pre Hpe. rewrite <-app_assoc. apply Hpre. by apply prefix_cons.
      * by rewrite <-app_assoc.
      * exists (e :: pre), r'. split; [by apply prefix_cons|]. rewrite <-app_assoc in Hf. split; [done|].
        by destruct e.
    + exists [], r'. split; [apply prefix_nil|]. split; [done|]. rewrite app_nil_r in Hp. by rewrite Hp.
Qed.

Section bft.
  Context {P : Profile} {Resp Error Addr : Type} `{EqDecision Resp}.
  Local Abbreviation Ev := (Event Resp Error).

(** The answers that carry a response, with their senders. *)
Definition ok_answer (e : Ev) : option (N * Resp) := match e with Answered id (Ok v) => Some (id, v) | _ => None end.

Lemma ok_answers (seen : list Ev) : omap ok_of (omap answer_of seen) = (omap ok_answer seen).*2.
Proof. induction seen as [|[id [v|e]| |] seen IH]; cbn; by rewrite ?IH. Qed.

Lemma all_windows_equal_last (resp : list Resp) x y :
  all_windows_equal resp = true -> last resp = Some x -> y ∈ resp -> y = x.
Proof.
  induction resp as [|a [|b resp] IH]; intros Hw Hl Hy; [done|..].
  - injection Hl as ->. by apply list_elem_of_singleton in Hy.
  - cbn in Hw. apply andb_true_iff in Hw as [->%bool_decide_eq_true Hw]. apply elem_of_cons in Hy as [->|Hy]; [|by apply IH].
    apply IH; [done..|]. apply elem_of_cons. by left.
Qed.

(** More senders than faulty replicas: one of them is not faulty. *)
Lemma outside (ids F : list N) : NoDup ids -> length F < length ids -> exists id, id ∈ ids /\ id ∉ F.
Proof.
  intros Hnd Hl. destruct (decide (Exists (fun id => id ∉ F) ids)) as [He|He]; [by apply list.Exists_exists in He|].
  apply not_Exists_Forall in He; [|intros x; apply _]. exfalso.
  assert (ids ⊆+ F) as Hs; [|apply submseteq_length in Hs; lia].
  apply NoDup_submseteq; [done|]. intros id Hid. rewrite list.Forall_forall in He. by apply dec_stable, He.
Qed.

Definition sender (e : Ev) : option N := match e with Answered id _ => Some id | _ => None end.

Lemma ok_senders (l : list Ev) : (omap ok_answer l).*1 `sublist_of` omap sender l.
Proof. induction l as [|[id [v|e]| |] l IH]; cbn; [constructor|by constructor..| |]; done. Qed.

Lemma elem_of_ok_answers (l : list Ev) id y : (id, y) ∈ omap ok_answer l -> Answered id (Ok y) ∈ l.
Proof. intros ([id' [y'|]| |] & He & Hx)%list_elem_of_omap; try done. by injection Hx as -> ->. Qed.

Lemma check_responses_Ok res (x : Resp) : check_responses res = Val (Ok x) ->
  exists resp, res = Some resp /\ forall y, y ∈ resp -> y = x.
Proof.
  destruct res as [resp|]; [|done]. cbn. destruct (all_windows_equal resp) eqn:Hw; [|done].
  intros (y & Hy & [= ->])%outcome_bind_inv. exists resp. split; [done|]. intros z Hz.
  eapply all_windows_equal_last; [done| |done]. by destruct (last resp); [injection Hy as ->|].
Qed.

(** C21: the answer a client accepts.  Every replica answers at most once, at most [t] of
    them are faulty, and the others answer [v].  Whatever the faulty ones answer and in
    whatever order the answers arrive, a response the client returns is [v]. *)
Theorem smr_bft_sound cancelled (events : list Ev) (c c' : BftClient Addr) F v x :
  NoDup (omap sender events) -> (N.of_nat (length F) <= bc_t c)%N ->
  (forall id y, Answered id (Ok y) ∈ events -> id ∉ F -> y = v) ->
  BftClient_send_request cancelled events c = Val (Ready (Ok x), c') -> x = v.
Proof.
  intros Hnd HF Hv ([id sc] & _ & (res & Hs & Hr)%outcome_bind_inv)%outcome_bind_inv. cbn [fst snd bc_shared bc_t] in *.
  destruct res as [[res|]|]; [|done..]. apply outcome_bind_inv in Hr as (y & Hy & [= -> _]).
  destruct cancelled; [done|]. apply select_biased_inv in Hs as (pre & [post ->] & Hg). cbn in Hg.
  apply check_responses_Ok in Hy as (resp & -> & Hall).
  unfold get_t_plus_one in Hg. destruct (negb _); [done|]. rewrite ok_answers, <-fmap_take in Hg.
  destruct (length _ =? _) eqn:Hl in Hg; [|by destruct (_ =? _) in Hg]. injection Hg as <-. apply Nat.eqb_eq in Hl.
  set (oks := take _ (omap ok_answer pre)) in *. rewrite length_fmap in Hl.
  destruct (outside oks.*1 F) as (i & [[i' y'] [-> Hi]]%list_elem_of_fmap & HiF).
  - eapply sublist_NoDup; [exact Hnd|]. etrans; [apply fmap_sublist, sublist_take|]. etrans; [apply ok_senders|].
    rewrite omap_app. by apply sublist_inserts_r.
  - rewrite length_fmap. lia.
  - rewrite <-(Hall y') by (apply list_elem_of_fmap; by exists (i', y')). apply (Hv i'); [|done].
    apply elem_of_app. left. apply elem_of_ok_answers. by apply elem_of_take in Hi as (k & Hk%list_elem_of_lookup_2 & _).
Qed.
Lemma all_windows_equal_intro (resp : list Resp) v : (forall y, y ∈ resp -> y = v) -> all_windows_equal resp = true.
Proof.
  induction resp as [|a [|b resp] IH]; intros Hv; [done..|]. cbn. apply andb_true_iff. split.
  - apply bool_decide_eq_true. rewrite (Hv a), (Hv b); [done|set_solver..].
  - apply IH. set_solver.
Qed.

Lemma check_responses_all (resp : list Resp) v :
  (forall y, y ∈ resp -> y = v) -> resp <> [] -> check_responses (Some resp) = Val (Ok v).
Proof.
  intros Hv Hne. cbn. rewrite (all_windows_equal_intro resp v Hv). destruct (last resp) as [x|] eqn:Hl.
  - cbn. rewrite (Hv x); [done|]. apply last_Some in Hl as [l ->]. set_solver.
  - by apply last_None in Hl.
Qed.

Lemma get_t_plus_one_total (replicas : list (N * Addr)) t (seen : list Ev) :
  (t < N.of_nat (length replicas))%N ->
  get_t_plus_one replicas t seen = Val Pending \/ exists r, get_t_plus_one replicas t seen = Val (Ready r).
Proof.
  intros Ht%N.ltb_lt. unfold get_t_plus_one. rewrite Ht. cbn [negb]. repeat case_match; eauto.
Qed.

(** The client returns.  Without a cancellation, and once every replica has answered
    or failed, a client with [t + 1] responses, all of them equal, returns it. *)
Theorem smr_bft_returns (events : list Ev) (c : BftClient Addr) v :
  (sc_next_request_id (bc_shared c) + 1 < 2 ^ 64)%N ->
  (bc_t c < N.of_nat (length (sc_replicas (bc_shared c))))%N ->
  Forall (fun e => is_cancel e = false) events ->
  length (omap sender events) = length (sc_replicas (bc_shared c)) ->
  (forall id y, Answered id (Ok y) ∈ events -> y = v) -> (bc_t c < N.of_nat (length (omap ok_answer events)))%N ->
  exists c', BftClient_send_request false events c = Val (Ready (Ok v), c').
Proof.
  intros Hid Ht Hc Hn Hv Hok. unfold BftClient_send_request, get_next_request_id, id_add_assign.
  rewrite u64_add_Val by done. cbn [mbind Outcome_bind fst snd bc_shared bc_t sc_replicas select_stop].
  set (n := sc_replicas (bc_shared c)) in *. set (t := bc_t c) in *.
  assert (forall l : list Ev, length (omap answer_of l) = length (omap sender l)) as Hlen.
  { intros l. induction l as [|[]]; cbn; congruence. }
  assert (forall pre, S (N.to_nat t) <= length (omap ok_answer pre) ->
    get_t_plus_one n t pre = Val (Ready (Some (take (S (N.to_nat t)) (omap ok_answer pre).*2)))) as Hdone.
  { intros pre Hpre. unfold get_t_plus_one. rewrite (proj2 (N.ltb_lt _ _) Ht), ok_answers. cbn [negb].
    rewrite (proj2 (Nat.eqb_eq _ _)); [done|]. rewrite length_take, length_fmap. lia. }
  destruct (select_biased_ready (get_t_plus_one n t) [] events _ Hc ltac:(intros pre _; by apply get_t_plus_one_total)
    (Hdone events ltac:(lia))) as (pre & r & [post ->] & Hr & ->).
  cbn [app] in Hr. cbn [mbind Outcome_bind]. 
  destruct (decide (S (N.to_nat t) <= length (omap ok_answer pre))) as [Hle|Hlt].
  - rewrite Hdone in Hr by done. injection Hr as <-. rewrite (check_responses_all _ v).
    + cbn. eauto.
    + intros y (k & Hk%list_elem_of_lookup_2 & _)%elem_of_take. apply list_elem_of_fmap in Hk as ([id y'] & -> & Hy).
      apply (Hv id). apply elem_of_app. left. by apply elem_of_ok_answers.
    + intros Hnil%(f_equal length). rewrite length_take, length_fmap in Hnil. change (length (@nil Resp)) with 0 in Hnil. lia.
  - exfalso. unfold get_t_plus_one in Hr. rewrite (proj2 (N.ltb_lt _ _) Ht), ok_answers in Hr. cbn [negb] in Hr.
    rewrite (proj2 (Nat.eqb_neq _ _)) in Hr by (rewrite length_take, length_fmap; lia).
    destruct (_ =? _) eqn:Heq in Hr; [|done]. apply Nat.eqb_eq in Heq. rewrite Hlen in Heq.
    rewrite omap_app, length_app in Hn. rewrite omap_app, length_app in Hok.
    pose proof (sublist_length _ _ (ok_senders post)) as Hp. rewrite length_fmap in Hp. lia.
Qed.
End bft.

(** ** The client with a fallback *)

(** A future whose result stays once it is there is polled to that result. *)
Lemma select_biased_stable {T E R} (fut : list (Event T E) -> Outcome (Poll R)) (out : list (Event T E) -> Poll R) seen events :
  Forall (fun e => is_cancel e = false) events ->
  (forall pre, pre `prefix_of` events -> fut (seen ++ pre) = Val (out (seen ++ pre))) ->
  (forall pre r, pre `prefix_of` events -> out (seen ++ pre) = Ready r -> out (seen ++ events) = Ready r) ->
  select_biased fut seen events
  = Val (match out (seen ++ events) with Ready r => Ready (Ok r) | Pending => Pending end).
Proof.
  revert seen. induction events as [|e events IH]; intros seen Hc Hf Hs; cbn [select_biased].
  { pose proof (Hf [] (prefix_nil _)) as H0. rewrite app_nil_r in *. rewrite H0. cbn. by destruct (out seen). }
  pose proof (Hf [] (prefix_nil _)) as H0. pose proof (Hs [] ) as H1. rewrite app_nil_r in H0, H1. rewrite H0. cbn.
  destruct (out seen) as [r|] eqn:Ho; [by rewrite (H1 r (prefix_nil _) eq_refl)|].
  inversion_clear Hc as [|? ? He Hc']. replace (seen ++ e :: events) with ((seen ++ [e]) ++ events) in * by (by rewrite <-app_assoc).
  rewrite <-IH; [by destruct e|done|..].
  - intros pre Hp. rewrite <-app_assoc. apply Hf. by apply prefix_cons.
  - intros pre r Hp. rewrite <-(app_assoc _ [e] pre). apply Hs. by apply prefix_cons.
Qed.

Section fallback.
  Context {P : Profile} {Resp Error Addr : Type} `{EqDecision Resp}.
  Local Abbreviation Ev := (Event Resp Error).

(** A timeout and a failed answer make the client ask one more replica. *)
Definition asks (e : Ev) : bool := match e with Elapsed | Answered _ (Err _) => true | _ => false end.
Definition asked (order : list N) (seen : list Ev) : list N := take (S (length (List.filter asks seen))) order.

Definition failed_answer (e : Ev) : option N := match e with Answered id (Err _) => Some id | _ => None end.
Definition failed (seen : list Ev) : list N := omap failed_answer seen.

(** What can happen: a replica answers at most once, and after it was asked. *)
Definition fallback_possible (order : list N) (events : list Ev) : Prop :=
  forall pre id r post, events = pre ++ Answered id r :: post -> id ∈ asked order pre /\ id ∉ omap sender pre.

(** What the client returns: the first response, or nothing once every replica has failed. *)
Definition fallback_outcome (order : list N) (events : list Ev) : Poll (option (N * Resp)) :=
  match omap ok_answer events with
  | r :: _ => Ready (Some r)
  | [] => if forallb (fun id => bool_decide (id ∈ failed events)) order then Ready None else Pending
  end.

Lemma failed_sender (l : list Ev) id : id ∈ failed l -> id ∈ omap sender l.
Proof.
  unfold failed. rewrite !list_elem_of_omap. intros ([i [v|e]| |] & He & Hi); try done. exists (Answered i (Err e)). by injection Hi as ->.
Qed.

Lemma asked_order order (l : list Ev) id : id ∈ asked order l -> id ∈ order.
Proof. apply subseteq_take. Qed.

Lemma no_ok_answers (l : list Ev) : (forall id v, Answered id (Ok v) ∉ l) -> omap ok_answer l = [].
Proof.
  intros Hl. destruct (omap ok_answer l) as [|[id v] tl] eqn:E; [done|]. destruct (Hl id v).
  apply elem_of_ok_answers. rewrite E. set_solver.
Qed.

(** Once every replica has failed there are no more answers. *)
Lemma fallback_all_failed order (pre rest : list Ev) :
  fallback_possible order (pre ++ rest) -> omap ok_answer pre = [] -> (forall id, id ∈ order -> id ∈ failed pre) ->
  fallback_outcome order (pre ++ rest) = Ready None.
Proof.
  intros Hp Hok Hall. unfold fallback_outcome. rewrite omap_app, Hok, no_ok_answers; cbn [app].
  - rewrite (proj2 (forallb_forall _ _)); [done|]. intros id Hid%list_elem_of_In. apply bool_decide_eq_true.
    unfold failed. rewrite omap_app. apply elem_of_app. left. by apply Hall.
  - intros id v (l1 & l2 & ->)%list_elem_of_split. destruct (Hp (pre ++ l1) id (Ok v) l2) as [Ha Hs]; [by rewrite <-app_assoc|].
    apply Hs. rewrite omap_app. apply elem_of_app. left. by apply failed_sender, Hall, (asked_order _ _ _ Ha).
Qed.

Lemma filter_asks_snoc (pre : list Ev) e :
  length (List.filter asks (pre ++ [e])) = length (List.filter asks pre) + (if asks e then 1 else 0).
Proof. rewrite List.filter_app, length_app. cbn. by destruct (asks e). Qed.

(** The replicas that are running and those that were not asked yet, after [pre]. *)
Record fallback_state (order : list N) (pre : list Ev) (running futures : list N) : Prop := {
  fs_running : forall id, id ∈ running <-> id ∈ asked order pre /\ id ∉ failed pre;
  fs_futures : futures = drop (S (length (List.filter asks pre))) order;
  fs_failed : forall id, id ∈ failed pre -> id ∈ asked order pre;
  fs_some : running <> [] \/ futures = [];
}.

(** One more replica is asked, if there is one. *)
Lemma fallback_state_ask order pre running running' futures e :
  fallback_state order pre running futures -> asks e = true -> NoDup order ->
  (forall id, id ∈ running' <-> id ∈ running /\ id ∉ failed [e]) -> (forall id, id ∈ failed [e] -> id ∈ asked order pre) ->
  match futures with
  | future :: futures => fallback_state order (pre ++ [e]) (running' ++ [future]) futures
  | [] => fallback_state order (pre ++ [e]) running' []
  end.
Proof.
  intros [Hr Hf Hfa Hs] He Hnd Hr' Hin. set (k := S (length (List.filter asks pre))) in *.
  assert (forall id, id ∈ failed (pre ++ [e]) <-> id ∈ failed pre \/ id ∈ failed [e]) as Hfail.
  { intros id. unfold failed. by rewrite omap_app, elem_of_app. }
  assert (asked order (pre ++ [e]) = take (S k) order) as Hask.
  { unfold asked. rewrite filter_asks_snoc, He. unfold k. do 2 f_equal. lia. }
  assert (drop (S (length (List.filter asks (pre ++ [e])))) order = drop (S k) order) as Hdrop.
  { rewrite filter_asks_snoc, He. unfold k. f_equal. lia. }
  change (asked order pre) with (take k order) in *.
  destruct futures as [|future futures].
  - assert (length order <= k) as Hlen by (apply (f_equal length) in Hf; rewrite length_drop in Hf; cbn in Hf; lia).
    split; [|by rewrite Hdrop, drop_ge by lia| |by right]; rewrite Hask, !take_ge in * by lia;
      intros id; rewrite ?Hr', ?Hr, Hfail; naive_solver.
  - assert (order !! k = Some future) as Hget.
    { rewrite <-(Nat.add_0_r k), <-lookup_drop, <-Hf. done. }
    assert (future ∉ take k order) as Hnew.
    { rewrite <-(take_drop k order), <-Hf in Hnd. apply NoDup_app in Hnd as (_ & Hd & _). intros Hx.
      apply (Hd _ Hx), elem_of_cons. by left. }
    assert (forall id, id ∈ asked order (pre ++ [e]) <-> id ∈ take k order \/ id = future) as Hnext.
    { intros id. by rewrite Hask, (take_S_r _ _ _ Hget), elem_of_app, list_elem_of_singleton. }
    split; [| | |left; by destruct running'].
    + intros id. rewrite elem_of_app, list_elem_of_singleton, Hr', Hr, Hfail, Hnext. naive_solver.
    + rewrite Hdrop. replace (S k) with (k + 1) by lia. by rewrite <-drop_drop, <-Hf.
    + intros id. rewrite Hfail, Hnext. naive_solver.
Qed.

Lemma fallback_state_skip order pre running futures e :
  asks e = false -> failed_answer e = None ->
  fallback_state order pre running futures -> fallback_state order (pre ++ [e]) running futures.
Proof.
  intros He Hn [Hr Hf Hfa Hs].
  assert (failed (pre ++ [e]) = failed pre) as Hfail by (unfold failed; rewrite omap_app; cbn; by rewrite Hn, app_nil_r).
  assert (length (List.filter asks (pre ++ [e])) = length (List.filter asks pre)) as Hl by (rewrite filter_asks_snoc, He; lia).
  split; unfold asked in *; rewrite ?Hfail, ?Hl; done.
Qed.

Lemma fallback_loop_outcome order : NoDup order -> forall (rest pre : list Ev) running futures,
  omap ok_answer pre = [] -> fallback_possible order (pre ++ rest) -> fallback_state order pre running futures ->
  fallback_loop running futures rest = Val (fallback_outcome order (pre ++ rest)).
Proof.
  intros Hnd. induction rest as [|e rest IH]; intros pre running futures Hok Hp Hst.
  - pose proof Hst as [Hr Hf Hfa Hs]. destruct running as [|r0 running].
    + destruct Hs as [| ->]; [done|]. cbn. rewrite fallback_all_failed; [done..|]. intros id Hid.
      rewrite <-(take_drop (S (length (List.filter asks pre))) order), <-Hf, app_nil_r in Hid.
      destruct (decide (id ∈ failed pre)); [done|]. by assert (id ∈ []) as ?%elem_of_nil by (by apply Hr).
    + cbn. unfold fallback_outcome. rewrite app_nil_r, Hok. destruct (forallb _ order) eqn:E; [|done].
      rewrite forallb_forall in E. destruct (proj1 (Hr r0)) as [Ha Hn]; [set_solver|].
      specialize (E r0 (proj1 (list_elem_of_In _ _) (asked_order _ _ _ Ha))). by apply bool_decide_eq_true in E.
  - assert (forall r f, fallback_state order (pre ++ [e]) r f -> ok_answer e = None ->
      fallback_loop r f rest = Val (fallback_outcome order (pre ++ e :: rest))) as Hgo.
    { intros r f Hst' He. replace (pre ++ e :: rest) with ((pre ++ [e]) ++ rest) in * by (by rewrite <-app_assoc).
      apply IH; [|done|done]. rewrite omap_app, Hok. cbn. by rewrite He. }
    pose proof Hst as [Hr Hf Hfa Hs]. destruct running as [|r0 running'].
    { destruct Hs as [| ->]; [done|]. cbn. rewrite fallback_all_failed; [done..|]. intros id Hid.
      rewrite <-(take_drop (S (length (List.filter asks pre))) order), <-Hf, app_nil_r in Hid.
      destruct (decide (id ∈ failed pre)); [done|]. by assert (id ∈ []) as ?%elem_of_nil by (by apply Hr). }
    set (running := r0 :: running') in *. cbn [fallback_loop]. fold running.
    destruct e as [id [v|err]| |].
    + destruct (Hp pre id (Ok v) rest eq_refl) as [Ha Hn]. rewrite bool_decide_eq_true_2; cbn [negb].
      * unfold fallback_outcome. rewrite omap_app, Hok. done.
      * apply Hr. split; [done|]. by intros ?%failed_sender.
    + destruct (Hp pre id (Err err) rest eq_refl) as [Ha Hn].
      rewrite bool_decide_eq_true_2 by (apply Hr; split; [done|]; by intros ?%failed_sender). cbn [negb].
      pose proof (fallback_state_ask order pre running (list_difference running [id]) futures (Answered id (Err err)) Hst eq_refl Hnd) as Hnext.
      assert (failed [Answered id (Err err)] = [id]) as Hid by done.
      destruct futures as [|future futures];
        (apply Hgo; [|done]; apply Hnext; rewrite Hid; intros i; [by rewrite list_elem_of_difference|by intros ->%list_elem_of_singleton]).
    + pose proof (fallback_state_ask order pre running running futures Elapsed Hst eq_refl Hnd) as Hnext.
      destruct futures as [|future futures]; (apply Hgo; [|done]; apply Hnext); (intros i; cbn; rewrite ?elem_of_nil; tauto).
    + apply Hgo; [|done]. by apply fallback_state_skip.
Qed.

Lemma fallback_state_init first order :
  fallback_state (first :: order) [] [first] order.
Proof. split; cbn; [intros id; set_solver|done|by intros id ?%elem_of_nil|by left]. Qed.

Lemma fallback_possible_prefix order (pre events : list Ev) :
  pre `prefix_of` events -> fallback_possible order events -> fallback_possible order pre.
Proof. intros [post ->] Hp l1 id r l2 ->. apply (Hp l1 id r (l2 ++ post)). by rewrite <-app_assoc. Qed.

Lemma fallback_outcome_stable order (pre events : list Ev) r :
  pre `prefix_of` events -> fallback_possible order events ->
  fallback_outcome order pre = Ready r -> fallback_outcome order events = Ready r.
Proof.
  intros [post ->] Hp. destruct (omap ok_answer pre) as [|x l] eqn:E.
  - unfold fallback_outcome at 1. rewrite E. destruct (forallb _ order) eqn:Hall; [|done]. intros [= <-].
    apply fallback_all_failed; [done..|]. rewrite forallb_forall in Hall. intros id Hid%list_elem_of_In.
    by apply Hall, bool_decide_eq_true in Hid.
  - unfold fallback_outcome. rewrite E, omap_app, E. done.
Qed.

Lemma fallback_order_inv shuffle (replicas : list (N * Addr)) first :
  (forall l, shuffle l ≡ₚ l) -> NoDup replicas.*1 -> first ∈ replicas.*1 ->
  exists order, fallback_order shuffle replicas first = Val (first :: order) /\ first :: order ≡ₚ replicas.*1.
Proof.
  intros Hsh Hnd Hf. unfold fallback_order. apply list_elem_of_fmap in Hf as ([id a] & -> & Hin). cbn [fst].
  destruct (list_find_elem_of (fun r : N * Addr => r.1 = id) replicas (id, a) Hin eq_refl) as [[k [id' a']] Hk].
  rewrite Hk. apply list_find_Some in Hk as (Hk & Hid & _). cbn [fst] in Hid. subst id'. cbn.
  rewrite fmap_app, reverse_app. cbn [fmap list_fmap reverse app fst]. eexists. split; [done|].
  rewrite reverse_Permutation, Hsh. apply NoDup_Permutation; [|done|].
  - constructor; [intros ([i b] & -> & [Hne _]%list_elem_of_filter)%list_elem_of_fmap; done|].
    clear -Hnd. induction replicas as [|r replicas IH]; [constructor|]. rewrite filter_cons. cbn in Hnd.
    apply list.NoDup_cons in Hnd as [Hr Hnd]. case_decide; [|by apply IH]. cbn. constructor; [|by apply IH].
    intros (x & Hx & [_ Hin]%list_elem_of_filter)%list_elem_of_fmap. apply Hr, list_elem_of_fmap. by exists x.
  - intros i. rewrite elem_of_cons, !list_elem_of_fmap. split.
    + intros [->|([i' b] & -> & [_ Hi]%list_elem_of_filter)]; [by exists (id, a)|by exists (i', b)].
    + intros ([i' b] & -> & Hi). cbn. destruct (decide (i' = id)) as [->|Hne]; [by left|right].
      exists (i', b). split; [done|]. by apply list_elem_of_filter.
Qed.

End fallback.

(** ** Numbers of clients *)

Section ids.
  Context {P : Profile} {Addr : Type} (Hoc : overflow_checks = true).

Fixpoint create_clients (k : nat) (f : SharedFactory Addr) : Outcome (list (SharedClient Addr)) :=
  match k with
  | O => Val []
  | S k => r ← create_shared_client f; cs ← create_clients k r.2; Val (r.1 :: cs)
  end.

Lemma create_clients_ids k f cs : create_clients k f = Val cs ->
  sc_client_id <$> cs = (fun i => sf_next_client_id f + N.of_nat i * sf_shards f)%N <$> seq 0 k.
Proof using Hoc.
  revert f cs. induction k as [|k IH]; intros f cs; [by intros [= <-]|]. cbn [create_clients].
  intros ([c f'] & Hc & (cs' & Hcs & [= <-])%outcome_bind_inv)%outcome_bind_inv. cbn [fst snd] in *.
  unfold create_shared_client, get_next_client_id, id_add_assign in Hc.
  apply outcome_bind_inv in Hc as ([id f1] & (next & Hn & [= <- <-])%outcome_bind_inv & [= <- <-]).
  apply (u64_add_inv _ _ _ Hoc) in Hn as ->. apply IH in Hcs. cbn [fst snd sf_next_client_id sf_shards] in Hcs.
  rewrite !fmap_cons. cbn [seq fmap list_fmap sc_client_id]. f_equal; [lia|]. change (list_fmap _ _ sc_client_id cs') with (sc_client_id <$> cs').
  rewrite Hcs, <-fmap_S_seq, <-list_fmap_compose. apply list_fmap_ext. intros i x _. cbn. lia.
Qed.

(** The numbers of clients.  The clients that the emulators of different shards
    create have different numbers, and so have those of one shard. *)
Theorem smr_client_ids_disjoint replicas shards a b fa fb k l ca cb :
  SharedFactory_new replicas a shards = Val fa -> SharedFactory_new replicas b shards = Val fb -> a <> b ->
  create_clients k fa = Val ca -> create_clients l fb = Val cb ->
  NoDup ((sc_client_id <$> ca) ++ (sc_client_id <$> cb)).
Proof using Hoc.
  unfold SharedFactory_new. intros Ha Hb Hab Hca%create_clients_ids Hcb%create_clients_ids.
  destruct (a <? shards)%N eqn:Hla; [|done]. destruct (b <? shards)%N eqn:Hlb; [|done].
  apply N.ltb_lt in Hla, Hlb. injection Ha as <-. injection Hb as <-. rewrite Hca, Hcb. cbn [sf_next_client_id sf_shards].
  assert (forall c m, NoDup ((fun i => c + N.of_nat i * shards)%N <$> seq 0 m)) as Hnd.
  { intros c m. apply NoDup_fmap_2_strong; [|apply NoDup_seq]. intros x y _ _ Heq. nia. }
  apply NoDup_app. split; [apply Hnd|]. split; [|apply Hnd].
  intros x [i [-> _]]%list_elem_of_fmap [j [Heq _]]%list_elem_of_fmap. apply Hab.
  apply (f_equal (fun x => x mod shards)%N) in Heq. rewrite !N.Div0.mod_add in Heq. by rewrite !N.mod_small in Heq.
Qed.
End ids.

(** ** Witnesses: four replicas, of which one may be faulty *)

Definition sm_replicas : list (N * ()) := [(0, ()); (1, ()); (2, ()); (3, ())]%N.
Definition sm_client : BftClient () := mkBftClient (mkSharedClient sm_replicas 7 0) 1.
Definition sm_honest : list (Event N ()) := [Answered 2 (Ok 5); Answered 0 (Err ()); Answered 3 (Ok 5); Answered 1 (Ok 5)]%N.
#[local] Existing Instance prerelease.

Lemma smr_bft_sound_witness : exists x c',
  BftClient_send_request false sm_honest sm_client = Val (Ready (Ok x), c') /\ x = 5%N.
Proof.
  eexists _, _. split; [reflexivity|].
  eapply (smr_bft_sound false sm_honest sm_client _ [0%N]); [apply (bool_decide_unpack _); vm_compute; exact I|done| |reflexivity].
  intros id y Hin _. unfold sm_honest in Hin. rewrite !elem_of_cons, elem_of_nil in Hin. by decompose [or] Hin; simplify_eq.
Defined.

Lemma smr_bft_returns_witness : exists c', BftClient_send_request false sm_honest sm_client = Val (Ready (Ok 5%N), c').
Proof.
  apply smr_bft_returns; [done|done|repeat constructor|reflexivity| |reflexivity].
  intros id y Hin. unfold sm_honest in Hin. rewrite !elem_of_cons, elem_of_nil in Hin. by decompose [or] Hin; simplify_eq.
Defined.

(** The first replica answers with an error, the next one that is asked answers. *)
Definition sm_fallback : FallbackClient () := mkFallbackClient (mkSharedClient sm_replicas 7 0) 1 CurrentPrimary_new.
Definition sm_events : list (Event N ()) := [Answered 1 (Err ()); Answered 3 (Ok 5)]%N.

Lemma smr_client_ids_disjoint_witness : exists fa fb ca cb,
  SharedFactory_new sm_replicas 0 2 = Val fa /\ SharedFactory_new sm_replicas 1 2 = Val fb
  /\ create_clients 2 fa = Val ca /\ create_clients 3 fb = Val cb /\ NoDup ((sc_client_id <$> ca) ++ (sc_client_id <$> cb)).
Proof.
  eexists _, _, _, _. do 4 (split; [reflexivity|]).
  eapply (smr_client_ids_disjoint (P := prerelease) eq_refl sm_replicas 2 0 1 _ _ 2 3); [reflexivity|reflexivity|done|reflexivity|reflexivity].
Defined.

(** One liar.  A single faulty replica whose answer is among the first [t + 1] makes a
    request fail, although all the other replicas agree. *)
Theorem smr_bft_one_liar : exists c',
  BftClient_send_request (Error := ()) false [Answered 3 (Ok 9); Answered 0 (Ok 5); Answered 1 (Ok 5); Answered 2 (Ok 5)]%N sm_client
  = Val (Ready (Err GotAtLeastOneInvalidResponse), c').
Proof. by eexists. Qed.
