(* ===== verification/Maas.v ===== *)
(** * Mobility as a service: the data base

    Models [src/application/maas/maas-types] (requests) and
    [src/application/maas/maas-tee-enclave/src/db.rs]: the trips of users, the state
    that the replicas keep in their enclaves and change in the order of the atomic
    broadcast.  Locations, times and signatures, which the code leaves open (they
    have the type [()]), are left out. *)

From Stdlib Require Import ZArith Lia.
From stdpp Require Import base list gmap sets numbers option sorting.
From S2P Require Import Prelude Triple.

(** ** [maas-types] *)

Definition Key128bit : Type := list N.

Record Cack := mkCack { ck_pseu : N }.
Record RegisterMsg := mkRegister { rg_cack : Cack; rg_provider : N; rg_short_term_secret : N; rg_long_term_secret : N }.
Record Interaction := mkInteraction { in_short_term_secret : N }.
Record CheckinMsg := mkCheckin { ci_interaction : Interaction; ci_long_term_secret : N; ci_next_short_term_secret : N }.
Record CheckoutMsg := mkCheckout { co_interaction : Interaction; co_long_term_secret : N; co_next_short_term_secret : N }.

Inductive InnerClientRequest :=
| Client_PreRegister
| Client_Register (r : RegisterMsg)
| Client_Checkin (i : CheckinMsg)
| Client_Checkout (o : CheckoutMsg).

Record ClientRequest := mkClientRequest { cr_inner : InnerClientRequest; cr_response_key : Key128bit }.

(** ** [db.rs] *)

Record ResetMsg := mkReset { rs_long_term_secret : N; rs_new_short_term_secret : N }.
Record ReregisterMsg := mkReregister { rr_new_long_term_secret : N; rr_new_short_term_secret : N }.

Inductive InnerModifyMsg :=
| Modify_Register (r : RegisterMsg)
| Modify_Checkin (i : CheckinMsg)
| Modify_Checkout (o : CheckoutMsg)
| Modify_Reset (r : ResetMsg)
| Modify_Reregister (r : ReregisterMsg)
| Modify_Clearance.

Record ModifyMsg := mkModify { mm_inner : InnerModifyMsg; mm_enc_key : Key128bit }.

Record Trip := mkTrip { tr_trip_id : N }.
Record RunningTrip := mkRunning { rt_trip_id : N }.
Record UserData := mkUserData {
  ud_pseu : N;
  ud_next_short_term_secret : N;
  ud_current_trip : option RunningTrip;
  ud_trips : list Trip;
}.

Record Db := mkDb { db_next_trip_id : N; db_users : gmap N UserData; db_used_pseus : gset N }.
#[export] Instance Db_eta : Eta Db := fun d => mkDb (db_next_trip_id d) (db_users d) (db_used_pseus d).
Definition Db_default : Db := mkDb 0 ∅ ∅.

Section db.
  Context {P : Profile}.

(** [users.entry(long_term_secret).or_insert_with(..)], then [get_mut]. *)
Definition entry_or_insert (short_term_secret long_term_secret : N) : St Db UserData := fun d =>
  match db_users d !! long_term_secret with
  | Some user => Val (user, d)
  | None =>
      let user := mkUserData 0 short_term_secret None [] in
      Val (user, d.[db_users := <[long_term_secret := user]> (db_users d)])
  end.

Definition set_user (long_term_secret : N) (user : UserData) : St Db () :=
  fun d => Val ((), d.[db_users := <[long_term_secret := user]> (db_users d)]).

Definition register (reg : RegisterMsg) : St Db (Result () ()) := fun d =>
  if bool_decide (ck_pseu (rg_cack reg) ∈ db_used_pseus d) then Val (Err (), d)
  else if bool_decide (is_Some (db_users d !! rg_long_term_secret reg)) then Val (Err (), d)
  else
    let user := mkUserData (ck_pseu (rg_cack reg)) (rg_short_term_secret reg) None [] in
    Val (Ok (), mkDb (db_next_trip_id d) (<[rg_long_term_secret reg := user]> (db_users d))
                  ({[ck_pseu (rg_cack reg)]} ∪ db_used_pseus d)).

Definition checkin (m : CheckinMsg) : St Db (Result () ()) :=
  let secret := in_short_term_secret (ci_interaction m) in
  user ← entry_or_insert secret (ci_long_term_secret m);
  if negb (ud_next_short_term_secret user =? secret)%N then mret (Err ())
  else match ud_current_trip user with
  | Some _ => mret (Err ())
  | None =>
      trip_id ← self db_next_trip_id;
      update (fun d => next ← u64_add (db_next_trip_id d) 1; Val d.[db_next_trip_id := next]) ;;
      set_user (ci_long_term_secret m)
        (mkUserData (ud_pseu user) (ci_next_short_term_secret m) (Some (mkRunning trip_id)) (ud_trips user)) ;;
      mret (Ok ())
  end.

Definition checkout (m : CheckoutMsg) : St Db (Result () ()) :=
  let secret := in_short_term_secret (co_interaction m) in
  user ← entry_or_insert secret (co_long_term_secret m);
  if negb (ud_next_short_term_secret user =? secret)%N then mret (Err ())
  else match ud_current_trip user with
  | Some trip =>
      set_user (co_long_term_secret m)
        (mkUserData (ud_pseu user) (co_next_short_term_secret m) None (ud_trips user ++ [mkTrip (rt_trip_id trip)])) ;;
      mret (Ok ())
  | None => mret (Err ())
  end.

(** [unreachable!()] for a user that does not exist. *)
Definition reset (m : ResetMsg) : St Db (Result () ()) := fun d =>
  match db_users d !! rs_long_term_secret m with
  | Some user =>
      Val (Ok (), d.[db_users := <[rs_long_term_secret m :=
        mkUserData (ud_pseu user) (rs_new_short_term_secret m) (ud_current_trip user) (ud_trips user)]> (db_users d)])
  | None => Panic
  end.

Definition Db_modify (msg : InnerModifyMsg) : St Db (Result () ()) :=
  match msg with
  | Modify_Register reg => register reg
  | Modify_Checkin m => checkin m
  | Modify_Checkout m => checkout m
  | Modify_Reset m => reset m
  | Modify_Reregister _ => mret (Err ())
  | Modify_Clearance => lift Panic
  end.
End db.

(** ** Mobility as a service: what the data base keeps *)

(** The numbers of the trips of a user, finished ones first. *)
Definition user_ids (u : UserData) : list N :=
  (tr_trip_id <$> ud_trips u) ++ option_list (rt_trip_id <$> ud_current_trip u).

(** The numbers of trips are below the next one, increase for each user and belong to
    one user; the pseudonyms of users are marked as used, and each belongs to one user,
    except for the pseudonym 0, which every user that was never registered has and
    which a user may also register. *)
Record db_ok (d : Db) : Prop := {
  ok_bound : forall l u x, db_users d !! l = Some u -> x ∈ user_ids u -> (x < db_next_trip_id d)%N;
  ok_sorted : forall l u, db_users d !! l = Some u -> StronglySorted N.lt (user_ids u);
  ok_distinct : forall l l' u u' x, db_users d !! l = Some u -> db_users d !! l' = Some u' ->
    x ∈ user_ids u -> x ∈ user_ids u' -> l = l';
  ok_used : forall l u, db_users d !! l = Some u -> ud_pseu u <> 0%N -> ud_pseu u ∈ db_used_pseus d;
  ok_pseu : forall l l' u u', db_users d !! l = Some u -> db_users d !! l' = Some u' ->
    ud_pseu u = ud_pseu u' -> ud_pseu u <> 0%N -> l = l';
}.

Lemma db_ok_default : db_ok Db_default.
Proof. split; cbn; intros l; intros; by rewrite lookup_empty in *. Qed.

(** Replacing one user: its numbers are old ones of its own or new, its pseudonym is its
    old one, 0, or not used before. *)
Lemma db_ok_set d next used l u :
  db_ok d -> (db_next_trip_id d <= next)%N -> db_used_pseus d ⊆ used ->
  (forall x, x ∈ user_ids u -> (exists u0, db_users d !! l = Some u0 /\ x ∈ user_ids u0) \/ (db_next_trip_id d <= x < next)%N) ->
  StronglySorted N.lt (user_ids u) ->
  ud_pseu u = 0%N \/ (exists u0, db_users d !! l = Some u0 /\ ud_pseu u = ud_pseu u0)
    \/ (ud_pseu u ∉ db_used_pseus d /\ ud_pseu u ∈ used) ->
  db_ok (mkDb next (<[l := u]> (db_users d)) used).
Proof.
  intros [Hb Hs Hd Hu Hp] Hn Hus Hids Hso Hps. split; cbn.
  - intros l1 u1 x [[<- <-]|[_ H1]]%lookup_insert_Some Hx; [|specialize (Hb _ _ _ H1 Hx); lia].
    destruct (Hids x Hx) as [(u0 & H0 & Hx0)|]; [|lia]. specialize (Hb _ _ _ H0 Hx0). lia.
  - intros l1 u1 [[<- <-]|[_ H1]]%lookup_insert_Some; eauto.
  - assert (forall l1 u1 x, l <> l1 -> db_users d !! l1 = Some u1 -> x ∈ user_ids u -> x ∈ user_ids u1 -> False) as Ho.
    { intros l1 u1 x Hne H1 Hx Hx1. destruct (Hids x Hx) as [(u0 & H0 & Hx0)|].
      - apply Hne. by eapply Hd.
      - specialize (Hb _ _ _ H1 Hx1). lia. }
    intros l1 l2 u1 u2 x [[<- <-]|[N1 H1]]%lookup_insert_Some [[<- <-]|[N2 H2]]%lookup_insert_Some Hx1 Hx2;
      [done|exfalso; by eapply Ho..|by eapply Hd].
  - intros l1 u1 [[<- <-]|[_ H1]]%lookup_insert_Some Hz; [|apply Hus; by eapply Hu].
    destruct Hps as [?|[(u0 & H0 & Heq)|[_ ?]]]; [done| |done]. apply Hus. rewrite Heq in *. by eapply Hu.
  - assert (forall l1 u1, l <> l1 -> db_users d !! l1 = Some u1 -> ud_pseu u = ud_pseu u1 -> ud_pseu u1 <> 0%N -> False) as Ho.
    { intros l1 u1 Hne H1 Heq Hz. destruct Hps as [?|[(u0 & H0 & Heq0)|[Hni _]]]; [congruence| |].
      - apply Hne. eapply Hp; [done..|congruence|congruence].
      - apply Hni. rewrite Heq. by eapply Hu. }
    intros l1 l2 u1 u2 [[<- <-]|[N1 H1]]%lookup_insert_Some [[<- <-]|[N2 H2]]%lookup_insert_Some Heq Hz; [done|..].
    + exfalso. eapply Ho; [done..|congruence].
    + exfalso. eapply Ho; [done|done|by symmetry|done].
    + by eapply Hp.
Qed.

Section modify.
  Context {P : Profile} (Hoc : overflow_checks = true).

Lemma entry_or_insert_ok d secret l user d' :
  db_ok d -> entry_or_insert secret l d = Val (user, d') ->
  db_ok d' /\ db_users d' !! l = Some user /\ db_next_trip_id d' = db_next_trip_id d /\ db_used_pseus d' = db_used_pseus d.
Proof.
  intros Hd. unfold entry_or_insert. destruct (db_users d !! l) as [u|] eqn:Hl; intros [= <- <-]; [done|].
  simpl. rewrite lookup_insert_eq. split; [|done]. change (db_ok (mkDb (db_next_trip_id d) (<[l := mkUserData 0 secret None []]> (db_users d)) (db_used_pseus d))).
  apply db_ok_set; [done|lia|done|cbn; intros x Hx; by apply elem_of_nil in Hx|constructor|by left].
Qed.

Lemma checkin_inv m d r d' :
  checkin m d = Val (r, d') ->
  exists user d1, entry_or_insert (in_short_term_secret (ci_interaction m)) (ci_long_term_secret m) d = Val (user, d1)
    /\ (r = Err () /\ d' = d1
        \/ r = Ok () /\ ud_next_short_term_secret user = in_short_term_secret (ci_interaction m) /\ ud_current_trip user = None
           /\ d' = mkDb (db_next_trip_id d1 + 1)
                (<[ci_long_term_secret m := mkUserData (ud_pseu user) (ci_next_short_term_secret m)
                     (Some (mkRunning (db_next_trip_id d1))) (ud_trips user)]> (db_users d1)) (db_used_pseus d1)).
Proof using Hoc.
  intros (user & d1 & He & H)%st_bind_inv. exists user, d1. split; [done|].
  destruct (_ =? _)%N eqn:Hs; cbn [negb] in H; [|left; by injection H as <- <-]. apply N.eqb_eq in Hs.
  destruct (ud_current_trip user) eqn:Hc; [left; by injection H as <- <-|right].
  apply st_bind_inv in H as (tid & d2 & [= <- <-] & H). apply st_bind_inv in H as ([] & d3 & H3 & H).
  apply outcome_bind_inv in H3 as (d4 & (next & Hn & [= <-])%outcome_bind_inv & [= <-]).
  apply (u64_add_inv _ _ _ Hoc) in Hn as ->. apply st_bind_inv in H as ([] & d5 & [= <-] & [= <- <-]). done.
Qed.

Lemma checkout_inv m d r d' :
  checkout m d = Val (r, d') ->
  exists user d1, entry_or_insert (in_short_term_secret (co_interaction m)) (co_long_term_secret m) d = Val (user, d1)
    /\ (r = Err () /\ d' = d1
        \/ exists trip, r = Ok () /\ ud_next_short_term_secret user = in_short_term_secret (co_interaction m)
           /\ ud_current_trip user = Some trip
           /\ d' = mkDb (db_next_trip_id d1)
                (<[co_long_term_secret m := mkUserData (ud_pseu user) (co_next_short_term_secret m) None
                     (ud_trips user ++ [mkTrip (rt_trip_id trip)])]> (db_users d1)) (db_used_pseus d1)).
Proof.
  intros (user & d1 & He & H)%st_bind_inv. exists user, d1. split; [done|].
  destruct (_ =? _)%N eqn:Hs; cbn [negb] in H; [|left; by injection H as <- <-]. apply N.eqb_eq in Hs.
  destruct (ud_current_trip user) as [trip|] eqn:Hc; [right|left; by injection H as <- <-].
  apply st_bind_inv in H as ([] & d2 & [= <-] & [= <- <-]). by exists trip.
Qed.

Lemma sorted_snoc (l : list N) x : StronglySorted N.lt l -> (forall y, y ∈ l -> (y < x)%N) -> StronglySorted N.lt (l ++ [x]).
Proof.
  induction 1 as [|a l Hl IH Ha]; intros Hx; cbn; [by repeat constructor|]. constructor; [apply IH; set_solver|].
  apply list.Forall_app. split; [done|]. constructor; [set_solver|done].
Qed.

Lemma Db_modify_ok msg d r d' : db_ok d -> Db_modify msg d = Val (r, d') -> db_ok d'.
Proof using Hoc.
  intros Hd. destruct msg as [reg|m|m|m|m|]; cbn [Db_modify].
  - unfold register. case_bool_decide as Hps; [by intros [= _ <-]|]. case_bool_decide as Hus; [by intros [= _ <-]|].
    intros [= _ <-]. apply db_ok_set; [done|lia|set_solver|cbn; intros x Hx; by apply elem_of_nil in Hx|constructor|].
    right. right. set_solver.
  - intros (user & d1 & He & Hr)%checkin_inv. apply (entry_or_insert_ok d) in He as (Hd1 & Hl & Hn & Hu); [|done].
    destruct Hr as [[_ ->]|(_ & _ & Hc & ->)]; [done|]. assert (user_ids user = tr_trip_id <$> ud_trips user) as Hids.
    { unfold user_ids. by rewrite Hc, app_nil_r. }
    apply db_ok_set; [done|lia|done| | |right; left; by exists user]; unfold user_ids; cbn; rewrite <-Hids.
    + intros x [Hx|Hx]%elem_of_app; [by left; exists user|right]. apply list_elem_of_singleton in Hx. lia.
    + apply sorted_snoc; [by eapply ok_sorted|]. intros y Hy. by eapply ok_bound.
  - intros (user & d1 & He & Hr)%checkout_inv. apply (entry_or_insert_ok d) in He as (Hd1 & Hl & Hn & Hu); [|done].
    destruct Hr as [[_ ->]|(trip & _ & _ & Hc & ->)]; [done|].
    assert (forall u', user_ids (mkUserData u' (co_next_short_term_secret m) None (ud_trips user ++ [mkTrip (rt_trip_id trip)])) = user_ids user) as Hids.
    { intros u'. unfold user_ids. cbn. by rewrite Hc, fmap_app, app_nil_r. }
    apply db_ok_set; [done|lia|done| | |right; left; by exists user]; rewrite Hids; [by left; exists user|by eapply ok_sorted].
  - unfold reset. destruct (db_users d !! rs_long_term_secret m) as [user|] eqn:Hl; [|done]. intros [= _ <-].
    apply (db_ok_set d (db_next_trip_id d) (db_used_pseus d)); [done|lia|done|by left; exists user|exact (ok_sorted d Hd _ user Hl)|].
    right. left. by exists user.
  - by intros [= _ <-].
  - done.
Qed.

Lemma Db_modify_fuel msg d : Db_modify msg d <> NoFuel.
Proof.
  assert (forall a b, triple (fun _ => True) (entry_or_insert a b) (fun _ _ => True)) as He.
  { intros a b s _. unfold entry_or_insert. by destruct (db_users s !! b). }
  apply (triple_fuel (fun _ => True) _ (fun _ _ => True)); [|done]. destruct msg as [reg|m|m|m|m|]; cbn [Db_modify].
  - intros s _. unfold register. case_bool_decide; [done|]. by case_bool_decide.
  - eapply triple_bind; [apply He|]. intros user. destruct (negb _); [by apply triple_ret|].
    destruct (ud_current_trip user); [by apply triple_ret|]. eapply triple_bind; [by apply (triple_self _ _ (fun _ _ => True))|]. intros tid.
    eapply triple_bind; [apply (triple_update _ _ (fun _ _ => True)); [intros s _; apply outcome_bind_fuel; [apply u64_add_fuel|done]|done]|].
    intros []. by intros s _.
  - eapply triple_bind; [apply He|]. intros user. destruct (negb _); [by apply triple_ret|].
    destruct (ud_current_trip user); [by intros s _|by apply triple_ret].
  - intros s _. unfold reset. by destruct (db_users s !! _).
  - by apply triple_ret.
  - apply triple_panic.
Qed.

Fixpoint run_db (log : list InnerModifyMsg) (d : Db) : Outcome (list (Result () ()) * Db) :=
  match log with
  | [] => Val ([], d)
  | msg :: log => r ← Db_modify msg d; rs ← run_db log r.2; Val (r.1 :: rs.1, rs.2)
  end.

Lemma run_db_ok log d rs d' : db_ok d -> run_db log d = Val (rs, d') -> db_ok d'.
Proof using Hoc.
  revert d rs. induction log as [|msg log IH]; intros d rs Hd; cbn; [by intros [= _ <-]|].
  intros ([r d1] & Hm & ([rs' d2] & Hrs & [= _ <-])%outcome_bind_inv)%outcome_bind_inv.
  eapply IH; [by eapply Db_modify_ok|done].
Qed.
End modify.
