(* ===== verification/MaasTee.v ===== *)
(** * Mobility as a service: the enclave

    Models [src/application/maas/maas-tee-enclave/src/lib.rs] (the agreement on a key,
    requests of clients, requests ordered by the atomic broadcast), the calls out
    of the enclave ([ocall.rs]), the host's side ([maas-tee/src/enclave.rs],
    [ecall.rs]) and the encryption of the clients' requests
    ([abcperf-maas/src/payload.rs]).

    A call out of the enclave is recorded in its state: the runtime may refuse it,
    and what the host returns is ignored by the code. *)

From Stdlib Require Import ZArith Lia.
From stdpp Require Import base list gmap sets numbers option sorting.
From S2P Require Import Prelude Ids Heaps Triple DamBase Sgx Maas.

Definition Mac128bit : Type := list N.

(** [EcPrivateKey::shared_key] with [derive_key] and [EcKeyPair::create_with_seed] are
    [None] where they fail; AES-GCM is used with a nonce of zeros and no additional
    data; [aes_decrypt aes src dst_len mac] fills a buffer of [dst_len] bytes. *)
Class MaasCrypto `{Ecc} := {
  AesGcm : Type;
  derive_shared_key : KeyPair -> PubKey -> option Key128bit;
  create_with_seed : Key128bit -> option KeyPair;
  AesGcm_new : Key128bit -> Result AesGcm SgxError;
  aes_encrypt : AesGcm -> list N -> Result (list N * Mac128bit) SgxError;
  aes_decrypt : AesGcm -> list N -> nat -> Mac128bit -> Result (list N) SgxError;
}.
Class MaasCryptoLaws `{MaasCrypto} : Prop := {
  derive_shared_key_sym : forall k k', derive_shared_key k (kp_public_key k') = derive_shared_key k' (kp_public_key k);
  aes_roundtrip : forall aes m c mac, aes_encrypt aes m = Ok (c, mac) ->
    length c = length m /\ aes_decrypt aes c (length m) mac = Ok m;
  (** An [SgxError] holds a [NonZeroU32]. *)
  AesGcm_new_error : forall key e, AesGcm_new key = Err e -> se_inner e <> 0%N;
  aes_encrypt_error : forall aes m e, aes_encrypt aes m = Err e -> se_inner e <> 0%N;
  aes_decrypt_error : forall aes c n mac e, aes_decrypt aes c n mac = Err e -> se_inner e <> 0%N;
}.

(** [AesGcm::new(..).into_result()?.encrypt(..).into_result()?] *)
Definition gcm_encrypt `{MaasCrypto} (key : Key128bit) (m : list N) : Result (list N * Mac128bit) SgxError :=
  match AesGcm_new key with Err e => Err e | Ok aes => aes_encrypt aes m end.
Definition gcm_decrypt `{MaasCrypto} (key : Key128bit) (src : list N) (dst_len : nat) (mac : Mac128bit) : Result (list N) SgxError :=
  match AesGcm_new key with Err e => Err e | Ok aes => aes_decrypt aes src dst_len mac end.

Lemma gcm_roundtrip `{MaasCryptoLaws} key m c mac : gcm_encrypt key m = Ok (c, mac) ->
  length c = length m /\ gcm_decrypt key c (length m) mac = Ok m.
Proof. unfold gcm_encrypt, gcm_decrypt. destruct (AesGcm_new key); [apply aes_roundtrip|done]. Qed.

Section tee.
  Context {P : Profile} `{Digests} `{MaasCrypto} `{SgxRuntime}.
  Context `{Bincode ModifyMsg} `{Bincode ClientRequest} `{Bincode (Result () ())}.
  (** [created]: what [EcKeyPair::create] and the random generator return; [refused]: the
      errors with which the runtime refuses calls out of the enclave. *)
  Context (created : option KeyPair) (random : option Key128bit) (refused : nat -> option SgxError).

(** ** [maas-tee-enclave]: the state *)

Record MutableState := mkMutable { mu_db : Db; mu_id : N; mu_used_key : Key128bit; mu_used_key_pair : KeyPair }.
Record SharedState := mkShared { ss_key_pair : KeyPair; ss_proposed_key : Key128bit; ss_mutable : MutableState }.

Inductive Ocall :=
| To_bft (client_id request_id : N) (payload : list N) (mac : Mac128bit)
| To_client (client_id request_id : N) (payload : list N) (mac : Mac128bit).

(** [SHARED_STATE], and the calls out of the enclave that the host has seen. *)
Record MaasState := mkMaas { ms_shared : option SharedState; ms_ocalls : list Ocall; ms_attempts : nat }.

Definition SharedState_init : Outcome SharedState :=
  key_pair ← unwrap created;
  proposed_key ← unwrap random;
  used_key_pair ← unwrap (create_with_seed proposed_key);
  Val (mkShared key_pair proposed_key (mkMutable Db_default 0 proposed_key used_key_pair)).

Definition shared_state : St MaasState SharedState := fun s =>
  state ← match ms_shared s with Some state => Val state | None => SharedState_init end;
  Val (state, mkMaas (Some state) (ms_ocalls s) (ms_attempts s)).

(** Writing through the mutex. *)
Definition set_mutable (m : MutableState) : St MaasState () := fun s =>
  state ← unwrap (ms_shared s);
  Val ((), mkMaas (Some (mkShared (ss_key_pair state) (ss_proposed_key state) m)) (ms_ocalls s) (ms_attempts s)).

(** [ocall::to_bft], [ocall::to_client]: the inner status of the host is dropped. *)
Definition ocall (o : Ocall) : St MaasState (Result () SgxError) := fun s =>
  match refused (ms_attempts s) with
  | Some error => Val (Err error, mkMaas (ms_shared s) (ms_ocalls s) (S (ms_attempts s)))
  | None => Val (Ok (), mkMaas (ms_shared s) (ms_ocalls s ++ [o]) (S (ms_attempts s)))
  end.

(** ** [maas-tee-enclave]: requests *)

Definition gen_shared_key (priv_key : KeyPair) (pub_key : PubKey) : Outcome Key128bit := unwrap (derive_shared_key priv_key pub_key).

Definition init (id : N) : St MaasState N :=
  state ← shared_state;
  let m := ss_mutable state in
  set_mutable (mkMutable (mu_db m) id (mu_used_key m) (mu_used_key_pair m)) ;;
  mret 0%N.

Definition send_to_bft (client_id request_id : N) (enc_key : Key128bit) (inner : InnerModifyMsg) : St MaasState (Result () SgxError) :=
  state ← shared_state;
  match gcm_encrypt (mu_used_key (ss_mutable state)) (bincode_serialize (mkModify inner enc_key)) with
  | Err e => mret (Err e)
  | Ok (encrypted_bytes, mac) => ocall (To_bft client_id request_id encrypted_bytes mac)
  end.

Definition send_to_client (client_id request_id : N) (enc_key : Key128bit) (payload : Result () ()) : St MaasState (Result () SgxError) :=
  match gcm_encrypt enc_key (bincode_serialize payload) with
  | Err e => mret (Err e)
  | Ok (encrypted_bytes, mac) => ocall (To_client client_id request_id encrypted_bytes mac)
  end.

(** The result of [modify] is dropped. *)
Definition from_bft_safe (client_id request_id : N) (encrypted_payload : list N) (mac : Mac128bit) : St MaasState (Result () SgxError) :=
  state ← shared_state;
  let m := ss_mutable state in
  match gcm_decrypt (mu_used_key m) encrypted_payload (length encrypted_payload) mac with
  | Err e => mret (Err e)
  | Ok payload_bytes =>
      payload ← lift (unwrap (bincode_deserialize (T := ModifyMsg) payload_bytes));
      r ← lift (Db_modify (mm_inner payload) (mu_db m));
      set_mutable (mkMutable r.2 (mu_id m) (mu_used_key m) (mu_used_key_pair m)) ;;
      send_to_client client_id request_id (mm_enc_key payload) (Ok ())
  end.

Definition from_client_safe (client_id request_id : N) (client_pub_key : PubKey) (encrypted_payload : list N) (mac : Mac128bit)
    : St MaasState (Result () SgxError) :=
  state ← shared_state;
  enc_key ← lift (gen_shared_key (mu_used_key_pair (ss_mutable state)) client_pub_key);
  match gcm_decrypt enc_key encrypted_payload (length encrypted_payload) mac with
  | Err e => mret (Err e)
  | Ok payload_bytes =>
      request ← lift (unwrap (bincode_deserialize (T := ClientRequest) payload_bytes));
      let response_key := cr_response_key request in
      match cr_inner request with
      | Client_PreRegister => lift Panic
      | Client_Register r => send_to_bft client_id request_id response_key (Modify_Register r)
      | Client_Checkin i => send_to_bft client_id request_id response_key (Modify_Checkin i)
      | Client_Checkout o => send_to_bft client_id request_id response_key (Modify_Checkout o)
      end
  end.

(** ** [maas-tee-enclave]: the agreement on a key *)

(** The parameters by reference are returned beside the result. *)
Definition attest_safe (local_ra : list N) : St MaasState (Result () SgxError * (PubKey * list N * nat)) :=
  state ← shared_state;
  mret (Ok (), (kp_public_key (ss_key_pair state), local_ra, 0)).

Definition attest_shared_key_safe (local_ra : list N) : St MaasState (Result () SgxError * (PubKey * list N * nat)) :=
  state ← shared_state;
  mret (Ok (), (kp_public_key (mu_used_key_pair (ss_mutable state)), local_ra, 0)).

(** The slice of the buffer is out of range if the buffer is shorter than a key. *)
Definition ma_continue_safe (remote_pub_key : PubKey) (local_proposed_secret : list N) (mac : Mac128bit)
    : St MaasState (Result () SgxError * (list N * nat * Mac128bit)) :=
  state ← shared_state;
  enc_key ← lift (gen_shared_key (ss_key_pair state) remote_pub_key);
  let len := length (ss_proposed_key state) in
  match AesGcm_new enc_key with
  | Err e => mret (Err e, (local_proposed_secret, len, mac))
  | Ok aes =>
      if length local_proposed_secret <? len then lift Panic else
      match aes_encrypt aes (ss_proposed_key state) with
      | Err e => mret (Err e, (local_proposed_secret, len, mac))
      | Ok (encrypted, mac) => mret (Ok (), (encrypted ++ drop len local_proposed_secret, len, mac))
      end
  end.

(** [mutex.used_key > new_key], the derived order of arrays. *)
Definition ma_finish_safe (remote_pub_key : PubKey) (remote_proposed_secret : list N) (mac : Mac128bit)
    : St MaasState (Result () SgxError) :=
  state ← shared_state;
  enc_key ← lift (gen_shared_key (ss_key_pair state) remote_pub_key);
  match gcm_decrypt enc_key remote_proposed_secret 16 mac with
  | Err e => mret (Err e)
  | Ok new_key =>
      let m := ss_mutable state in
      match BlockHash_cmp (mu_used_key m) new_key with
      | Gt =>
          used_key_pair ← lift (unwrap (create_with_seed new_key));
          set_mutable (mkMutable (mu_db m) (mu_id m) new_key used_key_pair) ;;
          mret (Ok ())
      | _ => mret (Ok ())
      end
  end.

(** [sha256[0]]: a digest has 32 bytes. *)
Definition shared_secret_info_safe : St MaasState (Result () SgxError * N) :=
  state ← shared_state;
  mret (Ok (), default 0%N (head (sha256 (mu_used_key (ss_mutable state))))).

(** *** The functions the enclave exports *)

Definition ecall_from_bft (client_id request_id : N) (payload : Ptr N * N) (mac : Mac128bit) : St MaasState (N * ()) :=
  payload ← lift (call_param_to_slice payload.1 payload.2);
  r ← from_bft_safe client_id request_id payload mac;
  mret (into_status r, ()).

Definition ecall_from_client (client_id request_id : N) (client_pub_key : PubKey) (payload : Ptr N * N) (mac : Mac128bit)
    : St MaasState (N * ()) :=
  payload ← lift (call_param_to_slice payload.1 payload.2);
  r ← from_client_safe client_id request_id client_pub_key payload mac;
  mret (into_status r, ()).

Definition ecall_attest (local_ra : Ptr N * N) : St MaasState (N * (PubKey * list N * nat)) :=
  local_ra ← lift (call_param_to_slice local_ra.1 local_ra.2);
  r ← attest_safe local_ra;
  mret (into_status r.1, r.2).

Definition ecall_attest_shared_key (local_ra : Ptr N * N) : St MaasState (N * (PubKey * list N * nat)) :=
  local_ra ← lift (call_param_to_slice local_ra.1 local_ra.2);
  r ← attest_shared_key_safe local_ra;
  mret (into_status r.1, r.2).

Definition ecall_ma_continue (remote_pub_key : PubKey) (remote_ra local_proposed_secret : Ptr N * N) (mac : Mac128bit)
    : St MaasState (N * (list N * nat * Mac128bit)) :=
  _ ← lift (call_param_to_slice remote_ra.1 remote_ra.2);
  secret ← lift (call_param_to_slice local_proposed_secret.1 local_proposed_secret.2);
  r ← ma_continue_safe remote_pub_key secret mac;
  mret (into_status r.1, r.2).

Definition ecall_ma_finish (remote_pub_key : PubKey) (remote_ra remote_proposed_secret : Ptr N * N) (mac : Mac128bit)
    : St MaasState (N * ()) :=
  _ ← lift (call_param_to_slice remote_ra.1 remote_ra.2);
  secret ← lift (call_param_to_slice remote_proposed_secret.1 remote_proposed_secret.2);
  r ← ma_finish_safe remote_pub_key secret mac;
  mret (into_status r, ()).

Definition ecall_shared_secret_info : St MaasState (N * N) :=
  r ← shared_secret_info_safe;
  mret (into_status r.1, r.2).

(** ** [maas-tee]: the host *)

Local Abbreviation Sgx A := (Outcome (Result A SgxError * SgxEnclave MaasState)).

(** [ecall::f(..)]: the result of the runtime, then the status of the function. *)
Definition call_status {A} (body : St MaasState (N * A)) (e : SgxEnclave MaasState) : Sgx A :=
  r ← ecall body e; Val (both_results r.1, r.2).

Record MAttestation := mkMAttestation { ma_pub_key : PubKey; ma_intel_report : list N }.
Record SharedKeyAttestation := mkSharedKeyAttestation { sk_shared_pub_key : PubKey; sk_intel_report : list N }.
Record ProposedSecret := mkProposedSecret { ps_attestation : MAttestation; ps_secret : list N; ps_mac : Mac128bit }.

Record Enclave := mkEnclave {
  en_enclave : SgxEnclave MaasState;
  en_my_attestation : option MAttestation;
  en_shared_attestation : option SharedKeyAttestation;
}.

Definition Enclave_new (id : N) : Outcome (Result Enclave SgxError) :=
  match sgx_create with
  | Some error => Val (Err error)
  | None =>
      r ← call_status (status ← init id; mret (status, ())) (mkSgxEnclave (mkMaas None [] 0) false 0);
      Val (match r.1 with Ok _ => Ok (mkEnclave r.2 None None) | Err e => Err e end)
  end.

Definition Enclave_from_bft (client_id request_id : N) (payload : list N) (mac : Mac128bit) : St Enclave (Result () SgxError) := fun t =>
  r ← call_status (ecall_from_bft client_id request_id (call_param_to_ptr payload) mac) (en_enclave t);
  Val (r.1, mkEnclave r.2 (en_my_attestation t) (en_shared_attestation t)).

Definition Enclave_from_client (client_id request_id : N) (pub_key : PubKey) (payload : list N) (mac : Mac128bit)
    : St Enclave (Result () SgxError) := fun t =>
  r ← call_status (ecall_from_client client_id request_id pub_key (call_param_to_ptr payload) mac) (en_enclave t);
  Val (r.1, mkEnclave r.2 (en_my_attestation t) (en_shared_attestation t)).

(** The attestations are computed once. *)
Definition Enclave_attestation : St Enclave (Result MAttestation SgxError) := fun t =>
  match en_my_attestation t with
  | Some a => Val (Ok a, t)
  | None =>
      r ← call_status (ecall_attest (call_param_to_ptr (replicate 4096 0%N))) (en_enclave t);
      match r.1 with
      | Err e => Val (Err e, mkEnclave r.2 None (en_shared_attestation t))
      | Ok (pub_key, local_ra, len) =>
          let a := mkMAttestation pub_key (take len local_ra) in
          Val (Ok a, mkEnclave r.2 (Some a) (en_shared_attestation t))
      end
  end.

Definition Enclave_shared_attestation : St Enclave (Result SharedKeyAttestation SgxError) := fun t =>
  match en_shared_attestation t with
  | Some a => Val (Ok a, t)
  | None =>
      r ← call_status (ecall_attest_shared_key (call_param_to_ptr (replicate 4096 0%N))) (en_enclave t);
      match r.1 with
      | Err e => Val (Err e, mkEnclave r.2 (en_my_attestation t) None)
      | Ok (pub_key, local_ra, len) =>
          let a := mkSharedKeyAttestation pub_key (take len local_ra) in
          Val (Ok a, mkEnclave r.2 (en_my_attestation t) (Some a))
      end
  end.

Definition Enclave_ma_continue (remote_ra : MAttestation) : St Enclave (Result ProposedSecret SgxError) := fun t =>
  r ← call_status (ecall_ma_continue (ma_pub_key remote_ra) (call_param_to_ptr (ma_intel_report remote_ra))
        (call_param_to_ptr (replicate 4096 0%N)) (replicate 16 0%N)) (en_enclave t);
  let t := mkEnclave r.2 (en_my_attestation t) (en_shared_attestation t) in
  match r.1 with
  | Err e => Val (Err e, t)
  | Ok (secret, len, mac) =>
      a ← Enclave_attestation t;
      Val (match a.1 with Ok attestation => Ok (mkProposedSecret attestation (take len secret) mac) | Err e => Err e end, a.2)
  end.

Definition Enclave_ma_finish (remote : ProposedSecret) : St Enclave (Result () SgxError) := fun t =>
  r ← call_status (ecall_ma_finish (ma_pub_key (ps_attestation remote)) (call_param_to_ptr (ma_intel_report (ps_attestation remote)))
        (call_param_to_ptr (ps_secret remote)) (ps_mac remote)) (en_enclave t);
  Val (r.1, mkEnclave r.2 (en_my_attestation t) (en_shared_attestation t)).

Definition Enclave_shared_secret_info : St Enclave (Result N SgxError) := fun t =>
  r ← call_status ecall_shared_secret_info (en_enclave t);
  Val (r.1, mkEnclave r.2 (en_my_attestation t) (en_shared_attestation t)).

(** ** [abcperf-maas/src/payload.rs] *)

Record EncryptedRequest := mkEncryptedRequest { er_payload : list N; er_mac : Mac128bit; er_pubkey : PubKey }.
Record EncryptedResponse := mkEncryptedResponse { es_enc_payload : list N; es_mac : Mac128bit }.

Definition from_client_request (request : ClientRequest) (enc_key : Key128bit) (pubkey : PubKey) : Result EncryptedRequest SgxError :=
  match gcm_encrypt enc_key (bincode_serialize request) with
  | Err e => Err e
  | Ok (payload, mac) => Ok (mkEncryptedRequest payload mac pubkey)
  end.

(** The unwrapped [AesGcm::new] panics; the errors after it are an [anyhow::Error]. *)
Definition EncryptedResponse_decrypt (r : EncryptedResponse) (enc_key : Key128bit) : Outcome (Result () ()) :=
  match AesGcm_new enc_key with
  | Err _ => Panic
  | Ok aes =>
      match aes_decrypt aes (es_enc_payload r) (length (es_enc_payload r)) (es_mac r) with
      | Err _ => Val (Err ())
      | Ok payload_bytes =>
          match bincode_deserialize (T := Result () ()) payload_bytes with
          | None => Val (Err ())
          | Some response => Val response
          end
      end
  end.

(** [abcperf-maas/src/client.rs]: the requests of the emulated clients. *)
Definition client_request (is_checkin : bool) (client_id : N) (shared_key : Key128bit) : ClientRequest :=
  mkClientRequest
    (if is_checkin then Client_Checkin (mkCheckin (mkInteraction 0) (as_u64 client_id) 0)
     else Client_Checkout (mkCheckout (mkInteraction 0) (as_u64 client_id) 0))
    shared_key.
End tee.

(** ** Mobility as a service: what the calls of the enclave keep

    A property of the enclave's state that starting it, changing its number, changing
    its data base and taking in a key keep is kept by every call. *)

Definition with_mutable `{Ecc} (s : SharedState) (m : MutableState) : SharedState := mkShared (ss_key_pair s) (ss_proposed_key s) m.
Definition with_id `{Ecc} (s : SharedState) (id : N) : SharedState :=
  with_mutable s (mkMutable (mu_db (ss_mutable s)) id (mu_used_key (ss_mutable s)) (mu_used_key_pair (ss_mutable s))).
Definition with_db `{Ecc} (s : SharedState) (d : Db) : SharedState :=
  with_mutable s (mkMutable d (mu_id (ss_mutable s)) (mu_used_key (ss_mutable s)) (mu_used_key_pair (ss_mutable s))).
Definition with_key `{Ecc} (s : SharedState) (key : Key128bit) (kp : KeyPair) : SharedState :=
  with_mutable s (mkMutable (mu_db (ss_mutable s)) (mu_id (ss_mutable s)) key kp).

Section facts.
  Context {P : Profile} `{Digests} `{MaasCrypto} `{SgxRuntime}.
  Context `{Bincode ModifyMsg} `{Bincode ClientRequest} `{Bincode (Result () ())}.
  Context (created : option KeyPair) (random : option Key128bit) (refused : nat -> option SgxError).

(** [J0]: what holds before the enclave has started. *)
  Context (J0 : Prop) (J : SharedState -> Prop).
  Context (J_init : forall st, J0 -> SharedState_init created random = Val st -> J st).

Definition maas_ok (s : MaasState) : Prop := match ms_shared s with Some st => J st | None => J0 end.

Definition has_state (st : SharedState) (s : MaasState) : Prop := J st /\ ms_shared s = Some st.

Lemma shared_state_ok : triple maas_ok (shared_state created random) has_state.
Proof using J_init.
  intros s Hs. unfold shared_state, has_state, maas_ok in *. destruct (ms_shared s) as [st|]; [done|].
  unfold SharedState_init in *. destruct created; [|done]. destruct random; [|done]. cbn in *.
  destruct (create_with_seed _); [|done]. cbn in *. split; [|done]. by apply J_init.
Qed.

Lemma set_mutable_ok st m : J (with_mutable st m) -> triple (has_state st) (set_mutable m) (fun _ => maas_ok).
Proof. intros Hm s [_ Hs]. unfold set_mutable. by rewrite Hs. Qed.

Lemma ocall_ok o : triple maas_ok (ocall refused o) (fun _ => maas_ok).
Proof. intros s Hs. unfold ocall. by destruct (refused _). Qed.

Lemma has_state_ok st s : has_state st s -> maas_ok s.
Proof. unfold maas_ok. by intros [Hs ->]. Qed.

Lemma triple_state_ret {A} st (a : A) : triple (has_state st) (mret a) (fun _ => maas_ok).
Proof. intros s Hs. by eapply has_state_ok. Qed.

(** Writing what is known to be kept. *)
Lemma triple_set {A} st m (k : () -> St MaasState A) :
  (J st -> J (with_mutable st m)) -> triple maas_ok (k ()) (fun _ => maas_ok) ->
  triple (has_state st) (set_mutable m ≫= k) (fun _ => maas_ok).
Proof.
  intros HJ Hk. apply (triple_bind _ _ _ (fun _ => maas_ok)); [|by intros []].
  apply triple_pre. intros s Hs. eapply triple_weaken; [apply (set_mutable_ok st), HJ, Hs|by intros ? <-|done].
Qed.

Lemma send_to_bft_ok c r k m : triple maas_ok (send_to_bft created random refused c r k m) (fun _ => maas_ok).
Proof using J_init.
  eapply triple_bind; [apply shared_state_ok|]. intros st. destruct (gcm_encrypt _ _) as [[? ?]|e]; [|apply triple_state_ret].
  eapply triple_weaken; [apply ocall_ok|apply has_state_ok|done].
Qed.

Lemma send_to_client_ok c r k m : triple maas_ok (send_to_client refused c r k m) (fun _ => maas_ok).
Proof. unfold send_to_client. destruct (gcm_encrypt _ _) as [[? ?]|e]; [apply ocall_ok|by apply triple_ret]. Qed.

Lemma from_client_ok c r pk p mac : triple maas_ok (from_client_safe created random refused c r pk p mac) (fun _ => maas_ok).
Proof using J_init.
  eapply triple_bind; [apply shared_state_ok|]. intros st. apply triple_lift_pre; [apply unwrap_fuel|]. intros key _. cbn zeta.
  destruct (gcm_decrypt key p (length p) mac) as [bytes|e]; [|apply triple_state_ret].
  apply triple_lift_pre; [apply unwrap_fuel|]. intros request _. cbn zeta.
  destruct (cr_inner request); [apply triple_panic|..]; (eapply triple_weaken; [apply send_to_bft_ok|apply has_state_ok|done]).
Qed.

Lemma ma_continue_ok pk buf mac : triple maas_ok (ma_continue_safe created random pk buf mac) (fun _ => maas_ok).
Proof using J_init.
  eapply triple_bind; [apply shared_state_ok|]. intros st. apply triple_lift_pre; [apply unwrap_fuel|]. intros key _. cbn zeta.
  destruct (AesGcm_new key) as [aes|e]; [|apply triple_state_ret]. destruct (_ <? _); [apply triple_panic|].
  destruct (aes_encrypt aes _) as [[? ?]|e]; apply triple_state_ret.
Qed.

Lemma triple_slice {A} (q : Ptr N * N) (k : list N -> St MaasState A) :
  (forall l, triple maas_ok (k l) (fun _ => maas_ok)) ->
  triple maas_ok (lift (call_param_to_slice q.1 q.2) ≫= k) (fun _ => maas_ok).
Proof. intros Hk. apply triple_lift_pre; [|intros l _; apply Hk]. unfold call_param_to_slice. by repeat case_match. Qed.

Lemma triple_map {A B} (m : St MaasState A) (f : A -> B) :
  triple maas_ok m (fun _ => maas_ok) -> triple maas_ok (x ← m; mret (f x)) (fun _ => maas_ok).
Proof. intros Hm. eapply triple_bind; [exact Hm|]. intros x. by apply triple_ret. Qed.

Lemma ecall_from_client_ok c r pk p mac : triple maas_ok (ecall_from_client created random refused c r pk p mac) (fun _ => maas_ok).
Proof using J_init. apply triple_slice. intros l. apply triple_map, from_client_ok. Qed.
Lemma ecall_attest_ok ra : triple maas_ok (ecall_attest created random ra) (fun _ => maas_ok).
Proof using J_init.
  apply triple_slice. intros l. apply triple_map. eapply triple_bind; [apply shared_state_ok|]. intros st. apply triple_state_ret.
Qed.
Lemma ecall_attest_shared_key_ok ra : triple maas_ok (ecall_attest_shared_key created random ra) (fun _ => maas_ok).
Proof using J_init.
  apply triple_slice. intros l. apply triple_map. eapply triple_bind; [apply shared_state_ok|]. intros st. apply triple_state_ret.
Qed.
Lemma ecall_ma_continue_ok pk ra s mac : triple maas_ok (ecall_ma_continue created random pk ra s mac) (fun _ => maas_ok).
Proof using J_init. apply triple_slice. intros _. apply triple_slice. intros l. apply triple_map, ma_continue_ok. Qed.
Lemma ecall_shared_secret_info_ok : triple maas_ok (ecall_shared_secret_info created random) (fun _ => maas_ok).
Proof using J_init. apply triple_map. eapply triple_bind; [apply shared_state_ok|]. intros st. apply triple_state_ret. Qed.

  Context (J_id : forall st id, J st -> J (with_id st id)).

Lemma init_ok id : triple maas_ok (init created random id) (fun _ => maas_ok).
Proof using J_init J_id.
  eapply triple_bind; [apply shared_state_ok|]. intros st. cbn zeta. apply triple_set; [apply J_id|by apply triple_ret].
Qed.

  Context (J_db : forall st msg r d, J st -> Db_modify msg (mu_db (ss_mutable st)) = Val (r, d) -> J (with_db st d)).

Lemma ecall_from_bft_ok c r p mac : triple maas_ok (ecall_from_bft created random refused c r p mac) (fun _ => maas_ok).
Proof using J_init J_db.
  apply triple_slice. clear p. intros p. apply triple_map. eapply triple_bind; [apply shared_state_ok|]. intros st. cbn zeta.
  destruct (gcm_decrypt (mu_used_key (ss_mutable st)) p (length p) mac) as [bytes|e]; [|apply triple_state_ret].
  apply triple_lift_pre; [apply unwrap_fuel|]. intros payload _. apply triple_lift_pre; [apply Db_modify_fuel|]. intros [x d] Hm.
  apply triple_set; [intros Hs; by eapply J_db|apply send_to_client_ok].
Qed.

  Context (J_key : forall st key kp, J st -> create_with_seed key = Some kp -> J (with_key st key kp)).

Lemma ecall_ma_finish_ok pk ra s mac : triple maas_ok (ecall_ma_finish created random pk ra s mac) (fun _ => maas_ok).
Proof using J_init J_key.
  apply triple_slice. intros _. apply triple_slice. intros secret. apply triple_map.
  eapply triple_bind; [apply shared_state_ok|]. intros st. apply triple_lift_pre; [apply unwrap_fuel|]. intros key _. cbn zeta.
  destruct (gcm_decrypt key secret 16 mac) as [new_key|e]; [|apply triple_state_ret].
  destruct (BlockHash_cmp _ _); [apply triple_state_ret..|]. apply triple_lift_pre; [apply unwrap_fuel|]. intros kp Hkp.
  apply triple_set; [intros Hs; apply J_key; [done|]|by apply triple_ret]. by destruct (create_with_seed new_key); [injection Hkp as ->|].
Qed.

(** ** Any calls of a host *)

Inductive maas_ecall :=
| Ec_init (id : N)
| Ec_from_bft (client_id request_id : N) (payload : Ptr N * N) (mac : Mac128bit)
| Ec_from_client (client_id request_id : N) (pub_key : PubKey) (payload : Ptr N * N) (mac : Mac128bit)
| Ec_attest (local_ra : Ptr N * N)
| Ec_attest_shared_key (local_ra : Ptr N * N)
| Ec_ma_continue (pub_key : PubKey) (remote_ra secret : Ptr N * N) (mac : Mac128bit)
| Ec_ma_finish (pub_key : PubKey) (remote_ra secret : Ptr N * N) (mac : Mac128bit)
| Ec_shared_secret_info.

(** The status the host is handed. *)
Definition maas_body (c : maas_ecall) : St MaasState (option N) :=
  match c with
  | Ec_init id => x ← init created random id; mret (Some x)
  | Ec_from_bft c r p mac => x ← ecall_from_bft created random refused c r p mac; mret (Some x.1)
  | Ec_from_client c r pk p mac => x ← ecall_from_client created random refused c r pk p mac; mret (Some x.1)
  | Ec_attest ra => x ← ecall_attest created random ra; mret (Some x.1)
  | Ec_attest_shared_key ra => x ← ecall_attest_shared_key created random ra; mret (Some x.1)
  | Ec_ma_continue pk ra s mac => x ← ecall_ma_continue created random pk ra s mac; mret (Some x.1)
  | Ec_ma_finish pk ra s mac => x ← ecall_ma_finish created random pk ra s mac; mret (Some x.1)
  | Ec_shared_secret_info => x ← ecall_shared_secret_info created random; mret (Some x.1)
  end.

Lemma maas_body_ok c : triple maas_ok (maas_body c) (fun _ => maas_ok).
Proof using J_init J_id J_db J_key.
  destruct c; cbn [maas_body]; apply triple_map;
    auto using init_ok, ecall_from_bft_ok, ecall_from_client_ok, ecall_attest_ok, ecall_attest_shared_key_ok, ecall_ma_continue_ok,
      ecall_ma_finish_ok, ecall_shared_secret_info_ok.
Qed.

Lemma maas_session_ok cs e out e' :
  maas_ok (sg_state e) -> session maas_body cs e = Val (out, e') -> maas_ok (sg_state e').
Proof using J_init J_id J_db J_key.
  revert e out. induction cs as [|c cs IH]; intros e out He; cbn [session]; [by intros [= _ <-]|].
  intros ([r e1] & Hc%ecall_inv & Hs)%outcome_bind_inv. apply outcome_bind_inv in Hs as ([out1 e2] & Hs & [= _ <-]).
  cbn [fst snd] in *. eapply IH; [|exact Hs].
  destruct Hc as [(er & _ & ->)|(a & _ & Hb)]; [done|]. exact (triple_apply _ _ _ _ _ _ (maas_body_ok c) He Hb).
Qed.
End facts.
