(* ===== verification/MaasExamples.v ===== *)
(** * Mobility as a service: a concrete system

    Stand-ins for the cryptography and the serializer with their laws, and three
    enclaves: the inputs at which the theorems are evaluated. *)

From Stdlib Require Import ZArith Lia.
From stdpp Require Import base list gmap sets numbers option sorting.
From S2P Require Import Prelude Triple Ids Heaps DamBase Sgx Maas MaasTee SgxExamples.

#[export] Existing Instance prerelease.
#[export] Instance ax_digests : Digests := {| sha256 := fun l => l; blake2b512 := fun l => l |}.

(** A shared key is the sum of two keys; an encrypted message carries its key as the
    authentication code. *)
#[export] Instance ax_crypto : MaasCrypto := {|
  AesGcm := Key128bit;
  derive_shared_key := fun k pk => match pk_gx pk with [x] => Some (replicate 16 (k mod 2 ^ 32 + x)%N) | _ => None end;
  create_with_seed := head;
  AesGcm_new := Ok;
  aes_encrypt := fun k m => Ok (m, k);
  aes_decrypt := fun k c n mac => if bool_decide (mac = k) && (length c =? n) then Ok c else Err (mkSgxError 12289);
|}.
#[export] Instance ax_crypto_laws : MaasCryptoLaws.
Proof.
  split.
  - intros k k'. cbn [derive_shared_key ax_crypto kp_public_key sx_ecc pk_gx]. by rewrite N.add_comm.
  - intros aes m c mac [= -> ->]. split; [done|]. cbn. by rewrite bool_decide_eq_true_2, Nat.eqb_refl.
  - done.
  - done.
  - intros aes c n mac e. cbn. destruct (_ && _); [done|]. by intros [= <-].
Qed.

(** A request is written as a tag and the numbers of its message. *)
Definition register_list (r : RegisterMsg) : list N := [ck_pseu (rg_cack r); rg_provider r; rg_short_term_secret r; rg_long_term_secret r].
Definition checkin_list (m : CheckinMsg) : list N := [in_short_term_secret (ci_interaction m); ci_long_term_secret m; ci_next_short_term_secret m].
Definition checkout_list (m : CheckoutMsg) : list N := [in_short_term_secret (co_interaction m); co_long_term_secret m; co_next_short_term_secret m].

#[export] Instance ax_modify : Codec ModifyMsg :=
  iso_codec (fun m => (match mm_inner m with
      | Modify_Register r => 0%N :: register_list r
      | Modify_Checkin i => 1%N :: checkin_list i
      | Modify_Checkout o => 2%N :: checkout_list o
      | Modify_Reset r => [3%N; rs_long_term_secret r; rs_new_short_term_secret r]
      | Modify_Reregister r => [4%N; rr_new_long_term_secret r; rr_new_short_term_secret r]
      | Modify_Clearance => [5%N]
      end, mm_enc_key m))
    (fun x => i ← match x.1 with
      | [0%N; a; b; c; d] => Some (Modify_Register (mkRegister (mkCack a) b c d))
      | [1%N; a; b; c] => Some (Modify_Checkin (mkCheckin (mkInteraction a) b c))
      | [2%N; a; b; c] => Some (Modify_Checkout (mkCheckout (mkInteraction a) b c))
      | [3%N; a; b] => Some (Modify_Reset (mkReset a b))
      | [4%N; a; b] => Some (Modify_Reregister (mkReregister a b))
      | [5%N] => Some Modify_Clearance
      | _ => None
      end; Some (mkModify i x.2)).
#[export] Instance ax_modify_laws : CodecLaws ModifyMsg.
Proof. apply iso_codec_laws. by intros [[[[] ? ? ?]|[[] ? ?]|[[] ? ?]|[]|[]|] ?]. Qed.

#[export] Instance ax_request : Codec ClientRequest :=
  iso_codec (fun m => (match cr_inner m with
      | Client_PreRegister => [3%N]
      | Client_Register r => 0%N :: register_list r
      | Client_Checkin i => 1%N :: checkin_list i
      | Client_Checkout o => 2%N :: checkout_list o
      end, cr_response_key m))
    (fun x => i ← match x.1 with
      | [0%N; a; b; c; d] => Some (Client_Register (mkRegister (mkCack a) b c d))
      | [1%N; a; b; c] => Some (Client_Checkin (mkCheckin (mkInteraction a) b c))
      | [2%N; a; b; c] => Some (Client_Checkout (mkCheckout (mkInteraction a) b c))
      | [3%N] => Some Client_PreRegister
      | _ => None
      end; Some (mkClientRequest i x.2)).
#[export] Instance ax_request_laws : CodecLaws ClientRequest.
Proof. apply iso_codec_laws. by intros [[|[[] ? ? ?]|[[] ? ?]|[[] ? ?]] ?]. Qed.

#[export] Instance ax_result : Codec (Result () ()) :=
  iso_codec (fun r => match r with Ok _ => 0%N | Err _ => 1%N end) (fun n => Some (if (n =? 0)%N then Ok () else Err ())).
#[export] Instance ax_result_laws : CodecLaws (Result () ()).
Proof. apply iso_codec_laws. by intros [[]|[]]. Qed.

(** Three enclaves, whose keys are 30, 10 and 20. *)
Definition ax_key (n : N) : Key128bit := replicate 16 n.
Definition ax_created : option KeyPair := Some 30%N.
Definition ax_client_key : KeyPair := 5%N.
Definition ax_state (n : N) : SharedState := mkShared n (ax_key n) (mkMutable Db_default n (ax_key n) n).

