(* ===== verification/MaasTheorems.v ===== *)
(** * Mobility as a service: theorems

    The data base in an enclave keeps its invariant whatever the host does, enclaves
    that exchange their proposals agree on a key, enclaves with one key that are
    given one log have one data base, and a client's request takes effect as it was
    sent and is answered to it. *)

From Stdlib Require Import ZArith Lia.
From stdpp Require Import base list gmap sets numbers option sorting.
From S2P Require Import Prelude Triple Ids Heaps DamBase Sgx Maas MaasTee.

Section invariant.
  Context {P : Profile} `{Digests} `{MaasCrypto} `{SgxRuntime}.
  Context `{Bincode ModifyMsg} `{Bincode ClientRequest} `{Bincode (Result () ())}.
  Context (created : option KeyPair) (random : option Key128bit) (refused : nat -> option SgxError).

(** C23: the data base, whatever the host does.  After any sequence of calls of the
    functions the enclave exports, with whatever pointers and bytes, the numbers of the
    trips in its data base are different, increase for each user and were handed out,
    and no two users have one pseudonym, except for the pseudonym 0, which is that of
    every user that was never registered. *)
Theorem maas_enclave_invariant cs out e' st :
  overflow_checks = true ->
  session (maas_body created random refused) cs (mkSgxEnclave (mkMaas None [] 0) false 0) = Val (out, e') ->
  ms_shared (sg_state e') = Some st -> db_ok (mu_db (ss_mutable st)).
Proof.
  intros Hoc Hs Hst. apply (maas_session_ok _ _ _ True (fun st => db_ok (mu_db (ss_mutable st)))) in Hs; [|clear - Hoc..|done].
  - unfold maas_ok in Hs. by rewrite Hst in Hs.
  - intros st _. unfold SharedState_init. destruct created; [|done]. destruct random; [|done]. cbn.
    destruct (create_with_seed _); [|done]. intros [= <-]. apply db_ok_default.
  - done.
  - intros st msg r d Hd Hm. by eapply (Db_modify_ok Hoc).
  - done.
Qed.
End invariant.

(** ** The agreement on a key *)

Section agreement.
  Context `{MaasCryptoLaws} (created : option KeyPair) (random : option Key128bit).

(** One exchange: [j] sends its proposal to [i], which takes it in. *)
Definition exchange (si sj : SharedState) : Outcome (Result () SgxError * MaasState) :=
  r ← ma_continue_safe created random (kp_public_key (ss_key_pair si)) (replicate 4096 0%N) (replicate 16 0%N)
        (mkMaas (Some sj) [] 0);
  match r.1 with
  | (Err e, _) => Val (Err e, mkMaas (Some si) [] 0)
  | (Ok (), (secret, len, mac)) =>
      ma_finish_safe created random (kp_public_key (ss_key_pair sj)) (take len secret) mac (mkMaas (Some si) [] 0)
  end.

(** The order of keys is total. *)
Lemma cmp_opp (a b : list N) : BlockHash_cmp b a = CompOpp (BlockHash_cmp a b).
Proof.
  revert b. induction a as [|x a IH]; intros [|y b]; cbn; [done..|]. rewrite (N.compare_antisym x y), (IH b).
  by destruct (x ?= y)%N.
Qed.
Lemma cmp_refl (a : list N) : BlockHash_cmp a a <> Gt.
Proof. induction a as [|x a IH]; cbn; [done|]. by rewrite N.compare_refl. Qed.
Lemma cmp_eq (a b : list N) : BlockHash_cmp a b = Eq -> a = b.
Proof.
  revert b. induction a as [|x a IH]; intros [|y b]; cbn; [done..|]. destruct (N.compare_spec x y) as [->| |]; [|done..].
  intros <-%IH. done.
Qed.
Lemma cmp_le_trans (a b c : list N) : BlockHash_cmp a b <> Gt -> BlockHash_cmp b c <> Gt -> BlockHash_cmp a c <> Gt.
Proof.
  revert b c. induction a as [|x a IH]; intros [|y b] [|z c]; cbn; try done.
  destruct (x ?= y)%N eqn:Hxy, (y ?= z)%N eqn:Hyz; try done; rewrite ?N.compare_eq_iff, ?N.compare_lt_iff in *; subst.
  - rewrite N.compare_refl. apply IH.
  - by rewrite (proj2 (N.compare_lt_iff y z)).
  - by rewrite (proj2 (N.compare_lt_iff x z)).
  - by rewrite (proj2 (N.compare_lt_iff x z)) by lia.
Qed.

(** The least of a list of keys. *)
Definition least (k : Key128bit) (ks : list Key128bit) : Prop := k ∈ ks /\ forall k', k' ∈ ks -> BlockHash_cmp k k' <> Gt.

Lemma least_unique k1 k2 ks : least k1 ks -> least k2 ks -> k1 = k2.
Proof.
  intros [I1 L1] [I2 L2]. specialize (L1 _ I2). specialize (L2 _ I1). rewrite (cmp_opp k1 k2) in L2.
  destruct (BlockHash_cmp k1 k2) eqn:Hc; [by apply cmp_eq|by destruct L2|done].
Qed.

Lemma least_snoc k ks new : least k ks ->
  least (match BlockHash_cmp k new with Gt => new | _ => k end) (ks ++ [new]).
Proof.
  intros [Hk Hl]. assert (forall k', k' ∈ ks ++ [new] -> k' ∈ ks \/ k' = new) as Hin by set_solver.
  pose proof (cmp_refl new) as Hr.
  destruct (BlockHash_cmp k new) eqn:Hc; cbn iota.
  1, 2: split; [set_solver|]; intros k' [?| ->]%Hin; [by apply Hl|by rewrite Hc].
  split; [set_solver|]. intros k' [Hk'| ->]%Hin; [|done]. apply (cmp_le_trans _ k); [|by apply Hl].
  by rewrite (cmp_opp k new), Hc.
Qed.

(** The key a state uses is the least of [ks], and its key pair is made of it. *)
Definition uses_least (s : SharedState) (ks : list Key128bit) : Prop :=
  least (mu_used_key (ss_mutable s)) ks /\ create_with_seed (mu_used_key (ss_mutable s)) = Some (mu_used_key_pair (ss_mutable s)).

Lemma exchange_inv si sj s' ks :
  length (ss_proposed_key sj) = 16 -> uses_least si ks -> exchange si sj = Val (Ok (), s') ->
  exists si', ms_shared s' = Some si' /\ ss_key_pair si' = ss_key_pair si /\ uses_least si' (ks ++ [ss_proposed_key sj])
    /\ mu_db (ss_mutable si') = mu_db (ss_mutable si).
Proof.
  intros Hlen [Hl Hkp]. unfold exchange. intros ([r sj'] & Hc & Hf)%outcome_bind_inv. cbn [fst] in Hf.
  apply st_bind_inv in Hc as (st & s1 & [= <- <-] & Hc). apply bind_lift_inv in Hc as (key & Hkey & Hc). cbn zeta in Hc.
  destruct (AesGcm_new key) as [aes|] eqn:Haes; [|injection Hc as <- <-; by injection Hf as ?].
  rewrite length_replicate in Hc. destruct (_ <? _); [done|].
  destruct (aes_encrypt aes _) as [[c mac]|] eqn:He; [|injection Hc as <- <-; by injection Hf as ?].
  injection Hc as <- <-. apply aes_roundtrip in He as [Hcl Hd]. rewrite <-Hcl, take_app_length, Hlen in *. 
  apply st_bind_inv in Hf as (st & s1 & [= <- <-] & Hf). apply bind_lift_inv in Hf as (key' & Hkey' & Hf).
  unfold gen_shared_key in Hkey, Hkey'. rewrite derive_shared_key_sym in Hkey'. rewrite Hkey in Hkey'. injection Hkey' as <-.
  unfold gcm_decrypt in Hf. rewrite Haes, Hd in Hf. cbn zeta in Hf. pose proof (least_snoc _ _ (ss_proposed_key sj) Hl) as Hn.
  destruct (BlockHash_cmp _ _) eqn:Hcmp in Hf; rewrite Hcmp in Hn.
  1, 2: injection Hf as <-; by exists si.
  apply bind_lift_inv in Hf as (kp & Hkp' & Hf). apply st_bind_inv in Hf as ([] & s2 & Hset & [= <-]).
  injection Hset as <-. eexists. split; [done|]. split; [done|]. split; [|done]. split; [done|]. cbn.
  destruct (create_with_seed (ss_proposed_key sj)) as [kp'|]; [|done]. by injection Hkp' as ->.
Qed.

(** Enclave [i] takes in the proposals of the others, in some order. *)
Fixpoint exchange_all (si : SharedState) (others : list SharedState) : Outcome (option SharedState) :=
  match others with
  | [] => Val (Some si)
  | sj :: others =>
      r ← exchange si sj;
      match r.1, ms_shared r.2 with Ok (), Some si => exchange_all si others | _, _ => Val None end
  end.

Lemma exchange_all_inv si others ks si' :
  Forall (fun s => length (ss_proposed_key s) = 16) others -> uses_least si ks ->
  exchange_all si others = Val (Some si') -> uses_least si' (ks ++ (ss_proposed_key <$> others)).
Proof.
  revert si ks. induction others as [|sj others IH]; intros si ks Hlen Hu; cbn [exchange_all].
  { intros [= <-]. cbn. by rewrite app_nil_r. }
  inversion_clear Hlen as [|? ? Hj Hlen']. intros ([r s1] & He & Hr)%outcome_bind_inv. cbn [fst snd] in Hr.
  destruct r as [[]|]; [|done]. apply (exchange_inv si sj s1 ks Hj Hu) in He as (si1 & Hsi & _ & Hu1 & _).
  rewrite Hsi in Hr. apply (IH _ _ Hlen' Hu1) in Hr. cbn. by rewrite <-app_assoc in Hr.
Qed.

(** What an enclave holds when it has started. *)
Definition started (s : SharedState) : Prop :=
  length (ss_proposed_key s) = 16 /\ mu_used_key (ss_mutable s) = ss_proposed_key s
  /\ create_with_seed (ss_proposed_key s) = Some (mu_used_key_pair (ss_mutable s)).

(** Agreement on a key.  Two enclaves of a group have started and each has taken in
    the proposals of enclaves of the group, in any order and any number of times, such
    that between what it proposed and what it took in there is the proposal of every
    member.  Then both use the same key, and the same key pair for the clients. *)
Theorem maas_key_agreement group s1 s2 others1 others2 s1' s2' :
  Forall started group -> s1 ∈ group -> s2 ∈ group ->
  (forall s, s ∈ s1 :: others1 <-> s ∈ group) -> (forall s, s ∈ s2 :: others2 <-> s ∈ group) ->
  exchange_all s1 others1 = Val (Some s1') -> exchange_all s2 others2 = Val (Some s2') ->
  mu_used_key (ss_mutable s1') = mu_used_key (ss_mutable s2')
  /\ mu_used_key_pair (ss_mutable s1') = mu_used_key_pair (ss_mutable s2').
Proof.
  intros Hg Hs1 Hs2 Ho1 Ho2 He1 He2. rewrite list.Forall_forall in Hg.
  assert (forall s others s', s ∈ group -> (forall x, x ∈ s :: others <-> x ∈ group) -> exchange_all s others = Val (Some s') ->
    uses_least s' (ss_proposed_key <$> s :: others)) as Hall.
  { intros s others s' Hs Ho He. destruct (Hg s Hs) as (_ & Hk & Hkp). cbn. change (ss_proposed_key s :: ?l) with ([ss_proposed_key s] ++ l).
    eapply exchange_all_inv; [|split|exact He].
    - apply list.Forall_forall. intros x Hx. apply Hg, Ho. set_solver.
    - rewrite Hk. split; [set_solver|]. intros k ->%list_elem_of_singleton. apply cmp_refl.
    - by rewrite Hk. }
  destruct (Hall _ _ _ Hs1 Ho1 He1) as [L1 K1], (Hall _ _ _ Hs2 Ho2 He2) as [L2 K2].
  assert (forall k, k ∈ ss_proposed_key <$> s1 :: others1 <-> k ∈ ss_proposed_key <$> s2 :: others2) as Hsame.
  { intros k. rewrite !list_elem_of_fmap. split; intros (x & -> & Hx); exists x; (split; [done|]); [by apply Ho2, Ho1|by apply Ho1, Ho2]. }
  assert (mu_used_key (ss_mutable s1') = mu_used_key (ss_mutable s2')) as Heq.
  { apply (least_unique _ _ _ L1). destruct L2 as [I2 L2]. split; [by apply Hsame|]. intros k Hk. by apply L2, Hsame. }
  split; [done|]. rewrite Heq, K2 in K1. by injection K1.
Qed.
End agreement.

(** ** Requests, from the client to the data base and back *)

Section requests.
  Context {P : Profile} `{Digests} `{MaasCryptoLaws} `{SgxRuntime}.
  Context `{BincodeLaws ModifyMsg} `{BincodeLaws ClientRequest} `{BincodeLaws (Result () ())}.
  Context (created : option KeyPair) (random : option Key128bit).

(** What a request of a client asks the data base for. *)
Definition modify_of (r : InnerClientRequest) : option InnerModifyMsg :=
  match r with
  | Client_PreRegister => None
  | Client_Register r => Some (Modify_Register r)
  | Client_Checkin i => Some (Modify_Checkin i)
  | Client_Checkout o => Some (Modify_Checkout o)
  end.

Lemma ocall_free refused o s : refused (ms_attempts s) = None ->
  ocall refused o s = Val (Ok (), mkMaas (ms_shared s) (ms_ocalls s ++ [o]) (S (ms_attempts s))).
Proof. unfold ocall. by intros ->. Qed.

Lemma shared_state_some t o n : shared_state created random (mkMaas (Some t) o n) = Val (t, mkMaas (Some t) o n).
Proof. done. Qed.

(** [?lift] in the code: the value of a step that does not change the state. *)
Lemma bind_lift_Val {A B} (r : Outcome A) (f : A -> St MaasState B) a s : r = Val a -> (lift r ≫= f) s = f a s.
Proof. by intros ->. Qed.

Lemma from_client_sends refused client_id request_id request msg er kc key si o n c mac :
  modify_of (cr_inner request) = Some msg ->
  derive_shared_key kc (kp_public_key (mu_used_key_pair (ss_mutable si))) = Some key ->
  from_client_request request key (kp_public_key kc) = Ok er ->
  gcm_encrypt (mu_used_key (ss_mutable si)) (bincode_serialize (mkModify msg (cr_response_key request))) = Ok (c, mac) ->
  refused n = None ->
  from_client_safe created random refused client_id request_id (er_pubkey er) (er_payload er) (er_mac er) (mkMaas (Some si) o n)
  = Val (Ok (), mkMaas (Some si) (o ++ [To_bft client_id request_id c mac]) (S n)).
Proof.
  intros Hmsg Hkey Her Hbft Hr. unfold from_client_request in Her.
  destruct (gcm_encrypt key _) as [[p m]|] eqn:He; [|done]. injection Her as <-. cbn [er_pubkey er_payload er_mac].
  apply gcm_roundtrip in He as [Hlen Hd]. rewrite derive_shared_key_sym in Hkey.
  assert (forall i k, send_to_bft created random refused client_id request_id k i (mkMaas (Some si) o n)
    = match gcm_encrypt (mu_used_key (ss_mutable si)) (bincode_serialize (mkModify i k)) with
      | Err e => Val (Err e, mkMaas (Some si) o n)
      | Ok (c, mac) => Val (Ok (), mkMaas (Some si) (o ++ [To_bft client_id request_id c mac]) (S n))
      end) as Hsend.
  { intros i k. unfold send_to_bft. rewrite (st_bind_Val _ _ _ _ _ (shared_state_some si o n)).
    destruct (gcm_encrypt (mu_used_key (ss_mutable si)) (bincode_serialize (mkModify i k))) as [[? ?]|]; [|done].
    by apply ocall_free. }
  unfold from_client_safe, gen_shared_key. rewrite (st_bind_Val _ _ _ _ _ (shared_state_some si o n)).
  rewrite (bind_lift_Val _ _ key) by (by rewrite Hkey). rewrite Hlen, Hd.
  rewrite (bind_lift_Val _ _ request) by (by rewrite bincode_roundtrip). cbn zeta. 
  destruct (cr_inner request); [done|..]; injection Hmsg as <-; by rewrite Hsend, Hbft.
Qed.

Lemma from_bft_applies refused client_id request_id payload sj o n c mac c' mac' res d :
  gcm_encrypt (mu_used_key (ss_mutable sj)) (bincode_serialize payload) = Ok (c, mac) ->
  Db_modify (mm_inner payload) (mu_db (ss_mutable sj)) = Val (res, d) ->
  gcm_encrypt (mm_enc_key payload) (bincode_serialize (@Ok () () ())) = Ok (c', mac') -> refused n = None ->
  from_bft_safe created random refused client_id request_id c mac (mkMaas (Some sj) o n)
  = Val (Ok (), mkMaas (Some (with_db sj d)) (o ++ [To_client client_id request_id c' mac']) (S n))
  /\ EncryptedResponse_decrypt (mkEncryptedResponse c' mac') (mm_enc_key payload) = Val (Ok ()).
Proof.
  intros He Hm He' Hr. apply gcm_roundtrip in He as [Hlen Hd]. split.
  - unfold from_bft_safe. rewrite (st_bind_Val _ _ _ _ _ (shared_state_some sj o n)). cbn zeta. rewrite Hlen, Hd.
    rewrite (bind_lift_Val _ _ payload) by (by rewrite bincode_roundtrip). rewrite (bind_lift_Val _ _ _ _ Hm).
    erewrite st_bind_Val by done. unfold send_to_client. rewrite He'. by apply ocall_free.
  - apply gcm_roundtrip in He' as [Hlen' Hd']. unfold EncryptedResponse_decrypt. unfold gcm_decrypt in Hd'.
    destruct (AesGcm_new (mm_enc_key payload)); [|done]. cbn [es_enc_payload es_mac]. rewrite Hlen', Hd'. by rewrite bincode_roundtrip.
Qed.

(** C19: a request, end to end.  A client encrypts a request for the key pair that the
    enclaves agreed on.  The request is not a [PreRegister], on which the enclave
    panics ([todo!()]); encryption does not fail, and the host refuses no call.  Then
    the enclave that gets the request hands one message to the atomic broadcast, and
    every enclave that uses the same key, is given that message and whose data base
    does not panic on the transaction, applies to its data base exactly what the
    client asked for, and answers the client with a message that the client
    decrypts to [Ok], which is the answer whatever the data base made of it. *)
Theorem maas_end_to_end refused client_id request_id request msg er kc key si o n :
  (forall k m, exists c mac, gcm_encrypt k m = Ok (c, mac)) -> (forall i, refused i = None) ->
  modify_of (cr_inner request) = Some msg ->
  derive_shared_key kc (kp_public_key (mu_used_key_pair (ss_mutable si))) = Some key ->
  from_client_request request key (kp_public_key kc) = Ok er ->
  exists c mac,
    from_client_safe created random refused client_id request_id (er_pubkey er) (er_payload er) (er_mac er) (mkMaas (Some si) o n)
    = Val (Ok (), mkMaas (Some si) (o ++ [To_bft client_id request_id c mac]) (S n))
    /\ forall sj oj nj res d, mu_used_key (ss_mutable sj) = mu_used_key (ss_mutable si) ->
       Db_modify msg (mu_db (ss_mutable sj)) = Val (res, d) ->
       exists c' mac',
         from_bft_safe created random refused client_id request_id c mac (mkMaas (Some sj) oj nj)
         = Val (Ok (), mkMaas (Some (with_db sj d)) (oj ++ [To_client client_id request_id c' mac']) (S nj))
         /\ EncryptedResponse_decrypt (mkEncryptedResponse c' mac') (cr_response_key request) = Val (Ok ()).
Proof.
  intros Henc Hr Hmsg Hkey Her.
  destruct (Henc (mu_used_key (ss_mutable si)) (bincode_serialize (mkModify msg (cr_response_key request)))) as (c & mac & Hc).
  exists c, mac. split; [by eapply from_client_sends|]. intros sj oj nj res d Hk Hm.
  destruct (Henc (cr_response_key request) (bincode_serialize (@Ok () () ()))) as (c' & mac' & Hc'). exists c', mac'.
  apply (from_bft_applies refused client_id request_id (mkModify msg (cr_response_key request)) sj oj nj c mac c' mac' res d); [by rewrite Hk|done..].
Qed.

(** ** One log, one data base *)

Record bft_entry := mkBftEntry { be_client : N; be_request : N; be_payload : list N; be_mac : Mac128bit }.

Fixpoint run_bft (refused : nat -> option SgxError) (log : list bft_entry) : St MaasState () :=
  match log with
  | [] => mret ()
  | e :: log =>
      _ ← from_bft_safe created random refused (be_client e) (be_request e) (be_payload e) (be_mac e);
      run_bft refused log
  end.

(** One key, one data base. *)
Definition replicas (s1 s2 : MaasState) : Prop :=
  exists t1 t2, ms_shared s1 = Some t1 /\ ms_shared s2 = Some t2
    /\ mu_used_key (ss_mutable t1) = mu_used_key (ss_mutable t2) /\ mu_db (ss_mutable t1) = mu_db (ss_mutable t2).

Lemma from_bft_inv refused client_id request_id p mac s r s' t :
  ms_shared s = Some t -> from_bft_safe created random refused client_id request_id p mac s = Val (r, s') ->
  exists d, ms_shared s' = Some (with_db t d)
    /\ match gcm_decrypt (mu_used_key (ss_mutable t)) p (length p) mac with
       | Err _ => d = mu_db (ss_mutable t)
       | Ok bytes => exists payload res, bincode_deserialize bytes = Some payload /\ Db_modify (mm_inner payload) (mu_db (ss_mutable t)) = Val (res, d)
       end.
Proof.
  intros Ht (st & s1 & Hst & Hf)%st_bind_inv. unfold shared_state in Hst. rewrite Ht in Hst. injection Hst as <- <-. cbn zeta in Hf.
  destruct (gcm_decrypt (mu_used_key (ss_mutable t)) p (length p) mac) as [bytes|e].
  2: { injection Hf as _ <-. exists (mu_db (ss_mutable t)). split; [|done]. cbn. by destruct t as [? ? []]. }
  apply bind_lift_inv in Hf as (payload & Hp & Hf). apply bind_lift_inv in Hf as ([res d] & Hm & Hf).
  apply st_bind_inv in Hf as ([] & s2 & Hset & Hf). injection Hset as <-. exists d. split.
  - unfold send_to_client in Hf. destruct (gcm_encrypt _ _) as [[? ?]|]; [|by injection Hf as _ <-].
    unfold ocall in Hf. destruct (refused _); by injection Hf as _ <-.
  - exists payload, res. split; [|done]. by destruct (bincode_deserialize bytes); [injection Hp as ->|].
Qed.

Lemma from_bft_replicas refused1 refused2 e s1 s2 r1 r2 s1' s2' :
  replicas s1 s2 ->
  from_bft_safe created random refused1 (be_client e) (be_request e) (be_payload e) (be_mac e) s1 = Val (r1, s1') ->
  from_bft_safe created random refused2 (be_client e) (be_request e) (be_payload e) (be_mac e) s2 = Val (r2, s2') -> replicas s1' s2'.
Proof.
  intros (t1 & t2 & Ht1 & Ht2 & Hk & Hd) (d1 & E1 & M1)%(from_bft_inv _ _ _ _ _ _ _ _ _ Ht1) (d2 & E2 & M2)%(from_bft_inv _ _ _ _ _ _ _ _ _ Ht2).
  eexists _, _. split; [exact E1|]. split; [exact E2|]. split; [done|]. cbn. rewrite Hk, Hd in *.
  destruct (gcm_decrypt _ _ _ _); [|congruence]. 
  destruct M1 as (p1 & x1 & P1 & M1), M2 as (p2 & x2 & P2 & M2). rewrite P1 in P2. injection P2 as <-. rewrite M1 in M2. by injection M2.
Qed.

(** One log, one data base.  Two enclaves with the same key and the same data base
    that are given the same messages of the atomic broadcast have the same data base
    afterwards, whatever the messages hold and whichever calls to their hosts the
    runtimes refuse. *)
Theorem maas_replicas_agree refused1 refused2 log s1 s2 s1' s2' :
  replicas s1 s2 -> run_bft refused1 log s1 = Val ((), s1') -> run_bft refused2 log s2 = Val ((), s2') -> replicas s1' s2'.
Proof.
  revert s1 s2. induction log as [|e log IH]; intros s1 s2 Hr; [by intros [= <-] [= <-]|].
  intros (r1 & m1 & F1 & L1)%st_bind_inv (r2 & m2 & F2 & L2)%st_bind_inv. eapply IH; [|exact L1|exact L2].
  by eapply from_bft_replicas.
Qed.
End requests.

(** ** A concrete system *)

From S2P Require Import SgxExamples MaasExamples.

(** The host of an enclave starts it, hands it a request of a client and then a message
    of the atomic broadcast. *)
Definition ax_client_request : ClientRequest := client_request true 7 (ax_key 5).
Definition ax_calls : list maas_ecall :=
  [ Ec_init 1;
    Ec_from_client 7 0 (kp_public_key ax_client_key) (call_param_to_ptr (bincode_serialize ax_client_request)) (ax_key 35);
    Ec_from_bft 7 0 (call_param_to_ptr (bincode_serialize (mkModify (Modify_Checkin (mkCheckin (mkInteraction 0) 7 0)) (ax_key 5)))) (ax_key 30);
    Ec_from_bft 7 1 (None, 3%N) (ax_key 30) ].

Definition ax_session : option (list N * SharedState) :=
  match session (maas_body ax_created (Some (ax_key 30)) (fun _ => None)) ax_calls (mkSgxEnclave (mkMaas None [] 0) false 0) with
  | Val (out, e) => t ← ms_shared (sg_state e); Some (out, t)
  | _ => None
  end.

Lemma ax_session_runs : exists out e, session (maas_body ax_created (Some (ax_key 30)) (fun _ => None)) ax_calls
  (mkSgxEnclave (mkMaas None [] 0) false 0) = Val (out, e)
  /\ exists t, ms_shared (sg_state e) = Some t /\ db_next_trip_id (mu_db (ss_mutable t)) = 1%N.
Proof. eexists _, _. split; [vm_compute; reflexivity|]. eexists. split; reflexivity. Qed.

Lemma maas_enclave_invariant_witness : exists e t,
  ms_shared (sg_state e) = Some t /\ db_next_trip_id (mu_db (ss_mutable t)) = 1%N /\ db_ok (mu_db (ss_mutable t)).
Proof.
  destruct ax_session_runs as (out & e & He & t & Ht & Hn). exists e, t. split; [exact Ht|]. split; [exact Hn|].
  exact (maas_enclave_invariant ax_created (Some (ax_key 30)) (fun _ => None) ax_calls out e t eq_refl He Ht).
Defined.

Lemma ax_exchanges : exists t1 t2,
  exchange_all ax_created (Some (ax_key 30)) (ax_state 30) [ax_state 20; ax_state 10] = Val (Some t1)
  /\ exchange_all ax_created (Some (ax_key 30)) (ax_state 20) [ax_state 30; ax_state 10] = Val (Some t2)
  /\ mu_used_key (ss_mutable t1) = ax_key 10.
Proof. eexists _, _. split; [vm_compute; reflexivity|]. split; [vm_compute; reflexivity|]. reflexivity. Qed.

Lemma ax_started n : started (ax_state n).
Proof. done. Qed.

Lemma maas_key_agreement_witness : exists t1 t2,
  mu_used_key (ss_mutable t1) = ax_key 10 /\ mu_used_key (ss_mutable t2) = ax_key 10
  /\ mu_used_key_pair (ss_mutable t1) = mu_used_key_pair (ss_mutable t2).
Proof.
  destruct ax_exchanges as (t1 & t2 & E1 & E2 & Hk). exists t1, t2.
  destruct (maas_key_agreement ax_created (Some (ax_key 30)) [ax_state 30; ax_state 20; ax_state 10] (ax_state 30) (ax_state 20)
    [ax_state 20; ax_state 10] [ax_state 30; ax_state 10] t1 t2
    (Forall_cons_2 _ _ _ (ax_started 30) (Forall_cons_2 _ _ _ (ax_started 20) (Forall_cons_2 _ _ _ (ax_started 10) (Forall_nil_2 _))))
    ltac:(set_solver) ltac:(set_solver) ltac:(set_solver) ltac:(set_solver) E1 E2) as [H1 H2].
  split; [exact Hk|]. split; [by rewrite <-H1|exact H2].
Defined.

Lemma ax_encrypts k m : exists c mac, gcm_encrypt k m = Ok (c, mac).
Proof. by exists m, k. Qed.

Definition ax_checkin : InnerModifyMsg := Modify_Checkin (mkCheckin (mkInteraction 0) 7 0).

Lemma maas_end_to_end_witness : exists c mac c' mac' res d,
  from_client_safe ax_created (Some (ax_key 30)) (fun _ => None) 7 0 (kp_public_key ax_client_key)
    (bincode_serialize ax_client_request) (ax_key 35) (mkMaas (Some (ax_state 30)) [] 0)
  = Val (Ok (), mkMaas (Some (ax_state 30)) [To_bft 7 0 c mac] 1)
  /\ Db_modify ax_checkin (mu_db (ss_mutable (ax_state 30))) = Val (res, d)
  /\ from_bft_safe ax_created (Some (ax_key 30)) (fun _ => None) 7 0 c mac (mkMaas (Some (ax_state 30)) [] 0)
     = Val (Ok (), mkMaas (Some (with_db (ax_state 30) d)) [To_client 7 0 c' mac'] 1)
  /\ EncryptedResponse_decrypt (mkEncryptedResponse c' mac') (cr_response_key ax_client_request) = Val (Ok ()).
Proof.
  destruct (maas_end_to_end ax_created (Some (ax_key 30)) (fun _ => None) 7 0 ax_client_request ax_checkin
    (mkEncryptedRequest (bincode_serialize ax_client_request) (ax_key 35) (kp_public_key ax_client_key)) ax_client_key (ax_key 35) (ax_state 30) [] 0
    ax_encrypts (fun _ => eq_refl) eq_refl eq_refl eq_refl) as (c & mac & Hc & Hall).
  exists c, mac. destruct (Db_modify ax_checkin (mu_db (ss_mutable (ax_state 30)))) as [[res d]| |] eqn:Hd;
    [|vm_compute in Hd; discriminate Hd..].
  destruct (Hall (ax_state 30) [] 0 res d eq_refl Hd) as (c' & mac' & Hb & He).
  exists c', mac', res, d. split; [exact Hc|]. split; [reflexivity|]. split; [exact Hb|exact He].
Defined.

(** Two enclaves with one key, of which the runtime of the second refuses every call out. *)
Definition ax_log : list bft_entry :=
  [mkBftEntry 7 0 (bincode_serialize (mkModify (Modify_Checkin (mkCheckin (mkInteraction 0) 7 0)) (ax_key 5))) (ax_key 30);
   mkBftEntry 8 0 [1%N] (ax_key 1)].

Lemma ax_log_runs : exists s1 s2,
  run_bft ax_created (Some (ax_key 30)) (fun _ => None) ax_log (mkMaas (Some (ax_state 30)) [] 0) = Val ((), s1)
  /\ run_bft ax_created (Some (ax_key 30)) (fun _ => Some (mkSgxError 1)) ax_log (mkMaas (Some (ax_state 30)) [] 0) = Val ((), s2)
  /\ length (ms_ocalls s1) = 1 /\ length (ms_ocalls s2) = 0.
Proof. eexists _, _. split; [vm_compute; reflexivity|]. split; [vm_compute; reflexivity|]. split; reflexivity. Qed.

Lemma maas_replicas_agree_witness : exists s1 s2, length (ms_ocalls s1) = 1 /\ length (ms_ocalls s2) = 0 /\ replicas s1 s2.
Proof.
  destruct ax_log_runs as (s1 & s2 & R1 & R2 & L1 & L2). exists s1, s2. split; [exact L1|]. split; [exact L2|].
  refine (maas_replicas_agree ax_created (Some (ax_key 30)) (fun _ => None) (fun _ => Some (mkSgxError 1)) ax_log
    (mkMaas (Some (ax_state 30)) [] 0) (mkMaas (Some (ax_state 30)) [] 0) s1 s2 _ R1 R2).
  exists (ax_state 30), (ax_state 30). split; [reflexivity|]. split; [reflexivity|]. split; reflexivity.
Defined.
