(* ===== verification/MaasServer.v ===== *)
(** * Mobility as a service: servers and clients

    Models [src/application/maas/abcperf-maas/src/server.rs] (the tasks of a replica
    around its enclave), the host's side of the calls out of the enclave
    ([maas-tee/src/lib.rs]), the requests and responses of [payload.rs] and the
    emulated clients of [client.rs].

    The tasks of a server interleave at the messages they take.  A task that
    unwraps an error ends; the others go on with the state the enclave was left
    in. *)

From Stdlib Require Import ZArith Lia.
From stdpp Require Import base list gmap sets numbers option sorting relations.
From S2P Require Import Prelude Ids Heaps Triple DamBase Wrapper Sgx SmrClient Maas MaasTee MaasTheorems.

(** ** [payload.rs] *)

Record EncrypteTransaction := mkEncrypteTransaction { et_payload : list N; et_mac : Mac128bit }.
Definition EncrypteTransaction_hash (t : EncrypteTransaction) : list N := et_payload t ++ et_mac t.

Inductive InnerRequest := Req_Encrypted (r : EncryptedRequest) | Req_RequestRemoteAttestation.
Inductive InnerResponse := Resp_Encrypted (r : EncryptedResponse) | Resp_RemoteAttestation (a : SharedKeyAttestation).

Inductive MaasReplicaMessage := RM_RemoteAttestation (ra : MAttestation) | RM_ProposedSecret (s : ProposedSecret).

Section server.
  Context {P : Profile} `{Digests} `{MaasCrypto} {R : SgxRuntime}.
  Context `{Bincode ModifyMsg} `{Bincode ClientRequest} `{Bincode (Result () ())}.
  Context (created : option KeyPair) (random : option Key128bit) (refused : nat -> option SgxError).

(** ** [server.rs] *)

(** [sv_to_bft], [sv_to_client]: how many of the calls out of the enclave the tasks
    [to_bft] and [to_client] have passed on; the channels behind [TO_BFT_SAFE] and
    [TO_CLIENT_SAFE] are not bounded.  [sv_ready]: the message to [ready] was sent. *)
Record Server := mkServer {
  sv_replica_id : N;
  sv_n : N;
  sv_enclave : Enclave;
  sv_proposals_from : gset N;
  sv_ready : bool;
  sv_replica_send : list (MessageDestination * MaasReplicaMessage);
  sv_to_bft : nat;
  sv_abc_input : list (N * N * EncrypteTransaction);
  sv_to_client : nat;
  sv_smr_responses : list (N * N * InnerResponse);
  sv_replica_recv_ended : bool;
  sv_from_client_ended : bool;
  sv_abc_output_ended : bool;
}.
#[export] Instance Server_eta : Eta Server := fun s =>
  mkServer (sv_replica_id s) (sv_n s) (sv_enclave s) (sv_proposals_from s) (sv_ready s) (sv_replica_send s)
    (sv_to_bft s) (sv_abc_input s) (sv_to_client s) (sv_smr_responses s)
    (sv_replica_recv_ended s) (sv_from_client_ended s) (sv_abc_output_ended s).

(** [result.unwrap()] *)
Definition unwrap_ok {A E} (r : Result A E) : Outcome A := match r with Ok a => Val a | Err _ => Panic end.

(** The beginning of [run], up to the tasks. *)
Definition run_start (replica_id n : N) : Outcome Server :=
  r ← Enclave_new created random (as_u64 replica_id);
  enclave ← unwrap_ok r;
  a ← Enclave_attestation created random enclave;
  attestation ← unwrap_ok a.1;
  Val (mkServer replica_id n a.2 {[replica_id]} false [(MD_Broadcast, RM_RemoteAttestation attestation)] 0 [] 0 [] false false false).

(** The task [replica_recv]. *)
Definition replica_recv (id : N) (msg : MaasReplicaMessage) (s : Server) : Outcome Server :=
  if sv_replica_recv_ended s || (id =? sv_replica_id s)%N then Val s else
  match msg with
  | RM_RemoteAttestation ra =>
      r ← Enclave_ma_continue created random ra (sv_enclave s);
      let s := s.[sv_enclave := r.2] in
      match r.1 with
      | Err _ => Val s.[sv_replica_recv_ended := true]
      | Ok proposed_secret => Val s.[sv_replica_send := sv_replica_send s ++ [(MD_Unicast id, RM_ProposedSecret proposed_secret)]]
      end
  | RM_ProposedSecret proposed_secret =>
      r ← Enclave_ma_finish created random proposed_secret (sv_enclave s);
      let s := s.[sv_enclave := r.2] in
      match r.1 with
      | Err _ => Val s.[sv_replica_recv_ended := true]
      | Ok _ =>
          let proposals_from := {[id]} ∪ sv_proposals_from s in
          Val s.[sv_proposals_from := proposals_from]
               .[sv_ready := sv_ready s || (sv_n s <=? N.of_nat (size proposals_from))%N]
      end
  end.

(** [maas-tee/src/lib.rs]: [to_bft_safe] and [to_client_safe], once the functions are set:
    what the enclave's calls put into the two channels. *)
Definition to_bft_safe (o : Ocall) : option (N * N * EncrypteTransaction) :=
  match o with To_bft c r payload mac => Some (from_u64 c, from_u64 r, mkEncrypteTransaction payload mac) | _ => None end.
Definition to_client_safe (o : Ocall) : option (N * N * InnerResponse) :=
  match o with To_client c r payload mac => Some (from_u64 c, from_u64 r, Resp_Encrypted (mkEncryptedResponse payload mac)) | _ => None end.

Definition sv_ocalls (s : Server) : list Ocall := ms_ocalls (sg_state (en_enclave (sv_enclave s))).

(** The tasks [to_bft] and [to_client] pass on the next call. *)
Definition to_bft (s : Server) : option Server :=
  transaction ← omap to_bft_safe (sv_ocalls s) !! sv_to_bft s;
  Some s.[sv_to_bft := S (sv_to_bft s)].[sv_abc_input := sv_abc_input s ++ [transaction]].
Definition to_client (s : Server) : option Server :=
  response ← omap to_client_safe (sv_ocalls s) !! sv_to_client s;
  Some s.[sv_to_client := S (sv_to_client s)].[sv_smr_responses := sv_smr_responses s ++ [response]].

(** The task [from_client]. *)
Definition from_client (client_id request_id : N) (request : InnerRequest) (s : Server) : Outcome Server :=
  if sv_from_client_ended s then Val s else
  match request with
  | Req_Encrypted e =>
      r ← Enclave_from_client created random refused client_id request_id (er_pubkey e) (er_payload e) (er_mac e) (sv_enclave s);
      let s := s.[sv_enclave := r.2] in
      match r.1 with Err _ => Val s.[sv_from_client_ended := true] | Ok _ => Val s end
  | Req_RequestRemoteAttestation =>
      r ← Enclave_shared_attestation created random (sv_enclave s);
      let s := s.[sv_enclave := r.2] in
      match r.1 with
      | Err _ => Val s.[sv_from_client_ended := true]
      | Ok to_send => Val s.[sv_smr_responses := sv_smr_responses s ++ [(client_id, request_id, Resp_RemoteAttestation to_send)]]
      end
  end.

(** The task [abc_output]. *)
Definition abc_output (client_id request_id : N) (t : EncrypteTransaction) (s : Server) : Outcome Server :=
  if sv_abc_output_ended s then Val s else
  r ← Enclave_from_bft created random refused client_id request_id (et_payload t) (et_mac t) (sv_enclave s);
  let s := s.[sv_enclave := r.2] in
  match r.1 with Err _ => Val s.[sv_abc_output_ended := true] | Ok _ => Val s end.
End server.

(** ** [client.rs] *)

Section client.
  Context `{MaasCrypto} `{Bincode ClientRequest} `{Bincode (Result () ())}.
  (** The client of the replicated service. *)
  Context {C : Type} (send_request : InnerRequest -> St C (Result InnerResponse SMRClientError)).

(** [Either<SMRClientError, anyhow::Error>] *)
Definition single_request (my_pub_key : PubKey) (client_req : ClientRequest) (key : Key128bit)
    : St C (Result () (SMRClientError + ())) :=
  match from_client_request client_req key my_pub_key with
  | Err _ => mret (Err (inr ()))
  | Ok transaction =>
      response ← send_request (Req_Encrypted transaction);
      match response with
      | Err e => mret (Err (inl e))
      | Ok (Resp_RemoteAttestation _) => mret (Err (inr ()))
      | Ok (Resp_Encrypted r) =>
          d ← lift (EncryptedResponse_decrypt r key);
          mret (match d with Ok _ => Ok () | Err _ => Err (inr ()) end)
      end
  end.

(** The key shared with the enclaves, once it is known. *)
Definition shared_key_init (my_priv_key : KeyPair) (shared_key : option Key128bit) : St C (Result Key128bit (SMRClientError + ())) :=
  match shared_key with
  | Some key => mret (Ok key)
  | None =>
      resp ← send_request Req_RequestRemoteAttestation;
      match resp with
      | Err e => mret (Err (inl e))
      | Ok (Resp_Encrypted _) => mret (Err (inr ()))
      | Ok (Resp_RemoteAttestation attestation) =>
          key ← lift (gen_shared_key my_priv_key (sk_shared_pub_key attestation));
          mret (Ok key)
      end
  end.

(** [client_loop] on the permits of the generator, of which [fuel] arrive: the number of
    requests that were answered.  The times are left out. *)
Fixpoint client_loop (client_id : N) (my_key : KeyPair) (fuel : nat) (shared_key : option Key128bit) (is_checkin : bool) : St C nat :=
  match fuel with
  | O => mret 0
  | S fuel =>
      key ← shared_key_init my_key shared_key;
      match key with
      | Err _ => mret 0
      | Ok key =>
          r ← single_request (kp_public_key my_key) (client_request is_checkin client_id key) key;
          match r with
          | Err _ => mret 0
          | Ok _ => k ← client_loop client_id my_key fuel (Some key) (negb is_checkin); mret (S k)
          end
      end
  end.
End client.

(** ** Mobility as a service: the requests of the emulated clients

    The clients of [client.rs] check in and out in turn.  However the atomic broadcast
    orders the requests of different clients, the data base accepts all of them. *)

(** The requests in the order of the broadcast, [ids] the clients they are from:
    [client_loop] starts with a check-in and alternates. *)
Fixpoint ordered_requests (keys : N -> Key128bit) (is_checkin : N -> bool) (ids : list N) : list ClientRequest :=
  match ids with
  | [] => []
  | c :: ids =>
      client_request (is_checkin c) c (keys c)
      :: ordered_requests keys (fun c' => if (c' =? c)%N then negb (is_checkin c) else is_checkin c') ids
  end.

Section accepted.
  Context {P : Profile}.

(** What the data base knows of the clients. *)
Definition in_turn (is_checkin : N -> bool) (d : Db) : Prop :=
  forall c, match db_users d !! c with
    | None => is_checkin c = true
    | Some u => ud_next_short_term_secret u = 0%N /\ (ud_current_trip u = None <-> is_checkin c = true)
    end.

Lemma in_turn_set is_checkin d next used c u b :
  in_turn is_checkin d -> ud_next_short_term_secret u = 0%N -> (ud_current_trip u = None <-> b = true) ->
  in_turn (fun c' => if (c' =? c)%N then b else is_checkin c') (mkDb next (<[c := u]> (db_users d)) used).
Proof.
  intros Hd Hu Ht c'. cbn. destruct (N.eqb_spec c' c) as [->|Hne]; [by rewrite lookup_insert_eq|].
  rewrite lookup_insert_ne by done. apply Hd.
Qed.

(** The user of a request: the stored one, or the one that is created. *)
Lemma entry_user is_checkin d c :
  in_turn is_checkin d ->
  exists u, entry_or_insert 0 c d = Val (u, mkDb (db_next_trip_id d) (<[c := u]> (db_users d)) (db_used_pseus d))
    /\ ud_next_short_term_secret u = 0%N /\ (ud_current_trip u = None <-> is_checkin c = true).
Proof.
  intros Hd. specialize (Hd c). unfold entry_or_insert. destruct (db_users d !! c) as [u|] eqn:Hc.
  - exists u. split; [|done]. rewrite insert_id by done. by destruct d.
  - eexists. split; [simpl; reflexivity|]. by split.
Qed.

Lemma request_accepted is_checkin d c key msg :
  in_turn is_checkin d -> (db_next_trip_id d + 1 < 2 ^ 64)%N -> modify_of (cr_inner (client_request (is_checkin c) c key)) = Some msg ->
  exists d', Db_modify msg d = Val (Ok (), d') /\ (db_next_trip_id d' <= db_next_trip_id d + 1)%N
    /\ in_turn (fun c' => if (c' =? c)%N then negb (is_checkin c) else is_checkin c') d'.
Proof.
  intros Hd Hlt. destruct (entry_user is_checkin d c Hd) as (u & He & Hz & Ht).
  unfold client_request, as_u64. destruct (is_checkin c) eqn:Hc; intros [= <-]; cbn [Db_modify].
  - pose proof (proj2 Ht eq_refl) as Hn.
    exists (mkDb (db_next_trip_id d + 1) (<[c := mkUserData (ud_pseu u) 0 (Some (mkRunning (db_next_trip_id d))) (ud_trips u)]> (db_users d)) (db_used_pseus d)).
    split; [|split; [cbn; lia|]].
    + unfold checkin. cbn [ci_interaction in_short_term_secret ci_long_term_secret ci_next_short_term_secret].
      rewrite (st_bind_Val _ _ _ _ _ He), Hz, Hn. cbn [N.eqb negb]. erewrite st_bind_Val by done.
      erewrite st_bind_Val by (unfold update; simpl; rewrite u64_add_Val by done; simpl; reflexivity).
      erewrite st_bind_Val by reflexivity. unfold mret, St_ret. simpl. rewrite insert_insert_eq. reflexivity.
    + by apply (in_turn_set is_checkin d).
  - destruct (ud_current_trip u) as [trip|] eqn:Hn; [|discriminate (proj1 Ht eq_refl)].
    exists (mkDb (db_next_trip_id d) (<[c := mkUserData (ud_pseu u) 0 None (ud_trips u ++ [mkTrip (rt_trip_id trip)])]> (db_users d)) (db_used_pseus d)).
    split; [|split; [cbn; lia|]].
    + unfold checkout. cbn [co_interaction in_short_term_secret co_long_term_secret co_next_short_term_secret].
      rewrite (st_bind_Val _ _ _ _ _ He), Hz, Hn. cbn [N.eqb negb].
      erewrite st_bind_Val by reflexivity. unfold mret, St_ret. simpl. rewrite insert_insert_eq. reflexivity.
    + by apply (in_turn_set is_checkin d).
Qed.

Lemma requests_accepted keys is_checkin ids d :
  in_turn is_checkin d -> (db_next_trip_id d + N.of_nat (length ids) < 2 ^ 64)%N ->
  exists d', run_db (omap (modify_of ∘ cr_inner) (ordered_requests keys is_checkin ids)) d = Val (replicate (length ids) (Ok ()), d').
Proof.
  revert is_checkin d. induction ids as [|c ids IH]; intros is_checkin d Hd Hlt; [by exists d|].
  destruct (modify_of (cr_inner (client_request (is_checkin c) c (keys c)))) as [msg|] eqn:Hm; [|by destruct (is_checkin c)].
  cbn [length] in Hlt. destruct (request_accepted is_checkin d c (keys c) msg Hd ltac:(lia) Hm) as (d1 & Hmod & Hn & Hd1).
  destruct (IH _ d1 Hd1 ltac:(lia)) as (d2 & Hrun). exists d2. cbn [ordered_requests].
  assert (forall l, omap (modify_of ∘ cr_inner) (client_request (is_checkin c) c (keys c) :: l) = msg :: omap (modify_of ∘ cr_inner) l) as ->.
  { intros l. change (omap ?f (?x :: l)) with (match f x with Some y => y :: omap f l | None => omap f l end). cbn [compose]. by rewrite Hm. }
  cbn [run_db]. rewrite Hmod. cbn [mbind Outcome_bind fst snd]. by rewrite Hrun.
Qed.

(** The requests of the emulated clients.  Whatever the order in which the broadcast
    puts the requests of different clients, those of each in its own order, the data
    base of a new enclave accepts every one of them, as long as there are fewer than
    2^64. *)
Theorem maas_clients_accepted keys ids :
  (N.of_nat (length ids) < 2 ^ 64)%N ->
  exists d, run_db (omap (modify_of ∘ cr_inner) (ordered_requests keys (fun _ => true) ids)) Db_default
    = Val (replicate (length ids) (Ok ()), d).
Proof. intros Hlt. apply requests_accepted; [intros c; cbn; by rewrite lookup_empty|done]. Qed.
End accepted.

Lemma maas_clients_accepted_witness : exists d,
  run_db (P := prerelease) (omap (modify_of ∘ cr_inner) (ordered_requests (fun _ => []) (fun _ => true) [7; 8; 7; 7; 8]%N)) Db_default
  = Val (replicate 5 (Ok ()), d).
Proof. exact (maas_clients_accepted (P := prerelease) (fun _ => []) [7; 8; 7; 7; 8]%N ltac:(reflexivity)). Defined.

(** ** Mobility as a service: servers that agree on a key

    The servers of a group exchange their attestations and proposals over a network
    that may delay, reorder, repeat and lose messages, while clients and the atomic
    broadcast hand them anything.  Servers that have reported that they are ready use
    one key. *)

Section network.
  Context {P : Profile} `{Digests} `{MaasCrypto} {L : MaasCryptoLaws} (runtime : N -> SgxRuntime).
  Context `{Bincode ModifyMsg} `{Bincode ClientRequest} `{Bincode (Result () ())}.
  Context (n : N) (kp : N -> KeyPair) (key : N -> Key128bit) (refused : N -> nat -> option SgxError).

(** ** The steps of the network *)

Definition reaches (dest : MessageDestination) (i : N) : Prop :=
  match dest with MD_Unicast id => id = i | MD_Broadcast => True end.

(** What one server does on its own. *)
Inductive server_step (i : N) (s : Server) : Server -> Prop :=
| Step_from_client c r req s' :
    from_client (R := runtime i) (Some (kp i)) (Some (key i)) (refused i) c r req s = Val s' -> server_step i s s'
| Step_abc_output c r t s' :
    abc_output (R := runtime i) (Some (kp i)) (Some (key i)) (refused i) c r t s = Val s' -> server_step i s s'
| Step_to_bft s' : to_bft s = Some s' -> server_step i s s'
| Step_to_client s' : to_client s = Some s' -> server_step i s s'.

Inductive net_step (net : gmap N Server) : gmap N Server -> Prop :=
| Step_start i s :
    (i < n)%N -> net !! i = None -> run_start (R := runtime i) (Some (kp i)) (Some (key i)) i n = Val s ->
    net_step net (<[i := s]> net)
| Step_message i j s s' sender dest msg :
    net !! j = Some sender -> (dest, msg) ∈ sv_replica_send sender -> reaches dest i -> net !! i = Some s ->
    replica_recv (R := runtime i) (Some (kp i)) (Some (key i)) j msg s = Val s' ->
    net_step net (<[i := s']> net)
| Step_server i s s' : net !! i = Some s -> server_step i s s' -> net_step net (<[i := s']> net).

(** ** What the enclave of a server holds *)

(** The least key of the servers whose proposals were taken in, and the pair made of it. *)
Definition keys_ok (i : N) (from : gset N) (st : SharedState) : Prop :=
  ss_key_pair st = kp i /\ ss_proposed_key st = key i /\ uses_least st (key <$> elements from).

Abbreviation state_ok i from := (maas_ok False (keys_ok i from)).

Lemma state_ok_inv i from s : state_ok i from s -> exists st, ms_shared s = Some st /\ keys_ok i from st.
Proof. unfold maas_ok. destruct (ms_shared s); [|done]. eauto. Qed.

Lemma least_insert k (from : gset N) j new :
  least k (key <$> elements from) -> new = key j ->
  least (match BlockHash_cmp k new with Gt => new | _ => k end) (key <$> elements ({[j]} ∪ from)).
Proof.
  intros Hl ->. destruct (least_snoc _ _ (key j) Hl) as [Hi Hm].
  assert (forall x, x ∈ (key <$> elements from) ++ [key j] <-> x ∈ key <$> elements ({[j]} ∪ from)) as Heq.
  { intros x. rewrite elem_of_app, !list_elem_of_fmap. split.
    - intros [(y & -> & Hy)| ->%list_elem_of_singleton]; [exists y|exists j]; set_solver.
    - intros (y & -> & Hy). rewrite elem_of_elements, elem_of_union, elem_of_singleton in Hy.
      destruct Hy as [ ->|Hy]; [right; set_solver|left]. exists y. by rewrite elem_of_elements. }
  split; [by apply Heq|]. intros x Hx. by apply Hm, Heq.
Qed.

(** ** Calls of the enclave *)

Lemma call_status_ok {R : SgxRuntime} {A} I (body : St MaasState (N * A)) e r e' :
  triple I body (fun _ => I) -> I (sg_state e) -> call_status body e = Val (r, e') -> I (sg_state e').
Proof.
  intros Hb He. unfold call_status. intros ([x e1] & Hc%ecall_inv & [= _ <-])%outcome_bind_inv. cbn.
  destruct Hc as [(er & _ & ->)|(a & _ & Ha)]; [done|]. exact (triple_apply _ _ _ _ _ _ Hb He Ha).
Qed.

Lemma call_status_Ok {R : SgxRuntime} {A} (body : St MaasState (N * A)) e a e' :
  call_status body e = Val (Ok a, e') -> body (sg_state e) = Val ((0%N, a), sg_state e').
Proof.
  unfold call_status. intros ([x e1] & Hc%ecall_inv & [= Hx <-])%outcome_bind_inv. cbn in *.
  destruct Hc as [(er & -> & _)|([st a'] & -> & Ha)]; [done|]. cbn in Hx. unfold into_result, SgxError_try_from in Hx.
  destruct (N.eqb_spec st 0) as [->|]; [|done]. by injection Hx as ->.
Qed.

(** A key of the others, as it travels. *)
Definition sealed (j i : N) (s : ProposedSecret) : Prop :=
  ma_pub_key (ps_attestation s) = kp_public_key (kp j)
  /\ exists k, derive_shared_key (kp j) (kp_public_key (kp i)) = Some k /\ gcm_encrypt k (key j) = Ok (ps_secret s, ps_mac s).

Lemma ma_continue_sends i from pk buf mac s secret len mac' s' :
  length (key i) <= length buf -> state_ok i from s ->
  ma_continue_safe (Some (kp i)) (Some (key i)) pk buf mac s = Val ((Ok (), (secret, len, mac')), s') ->
  exists k, derive_shared_key (kp i) pk = Some k /\ gcm_encrypt k (key i) = Ok (take len secret, mac').
Proof.
  intros Hl (st & Hst & Hkp & Hkey & _)%state_ok_inv (st1 & s1 & Hs1 & Hc)%st_bind_inv.
  unfold shared_state in Hs1. rewrite Hst in Hs1. injection Hs1 as <- <-. rewrite Hkp, Hkey in Hc.
  apply bind_lift_inv in Hc as (k & Hk & Hc). exists k. cbn zeta in Hc. unfold gcm_encrypt.
  destruct (AesGcm_new k) as [aes|]; [|done]. rewrite (proj2 (Nat.ltb_ge _ _) Hl) in Hc.
  destruct (aes_encrypt aes (key i)) as [[c m]|] eqn:He; [|done]. injection Hc as <- <- <- _. split.
  - unfold gen_shared_key in Hk. by destruct (derive_shared_key _ _); [injection Hk as ->|].
  - apply aes_roundtrip in He as [<- _]. by rewrite take_app_length.
Qed.

Lemma ma_finish_takes i j from secret s r s' :
  length (key j) = 16 -> sealed j i secret -> state_ok i from s ->
  ma_finish_safe (Some (kp i)) (Some (key i)) (ma_pub_key (ps_attestation secret)) (ps_secret secret) (ps_mac secret) s = Val (r, s') ->
  r = Ok () /\ state_ok i ({[j]} ∪ from) s'.
Proof.
  intros Hlen (Hpk & k & Hk & He) (st & Hst & Hkp & Hkey & Hl & Hp)%state_ok_inv (st1 & s1 & Hs1 & Hf)%st_bind_inv.
  unfold shared_state in Hs1. rewrite Hst in Hs1. injection Hs1 as <- <-. rewrite Hpk, Hkp in Hf.
  apply bind_lift_inv in Hf as (k' & Hk' & Hf). unfold gen_shared_key in Hk'. rewrite derive_shared_key_sym, Hk in Hk'. injection Hk' as <-.
  apply gcm_roundtrip in He as [_ Hd]. rewrite Hlen in Hd. rewrite Hd in Hf. cbn zeta in Hf.
  pose proof (least_insert _ _ j (key j) Hl eq_refl) as Hn. destruct (BlockHash_cmp _ _) eqn:Hcmp in Hf; rewrite Hcmp in Hn.
  1, 2: injection Hf as <- <-; split; [done|]; unfold maas_ok; cbn; done.
  apply bind_lift_inv in Hf as (kp' & Hkp' & Hf). apply st_bind_inv in Hf as ([] & s2 & Hset & [= <- <-]). injection Hset as <-.
  split; [done|]. unfold maas_ok. cbn. split; [done|]. split; [done|]. split; [done|]. cbn.
  destruct (create_with_seed (key j)); [|done]. by injection Hkp' as ->.
Qed.

(** ** Host functions *)

Record enclave_ok (i : N) (from : gset N) (t : Enclave) : Prop := {
  eo_state : state_ok i from (sg_state (en_enclave t));
  eo_attestation : forall a, en_my_attestation t = Some a -> ma_pub_key a = kp_public_key (kp i);
}.

Lemma keys_ok_db i from st msg r d : keys_ok i from st -> Db_modify msg (mu_db (ss_mutable st)) = Val (r, d) -> keys_ok i from (with_db st d).
Proof. done. Qed.

Lemma Enclave_from_client_ok {R : SgxRuntime} i from c r pk p mac t x t' :
  enclave_ok i from t -> Enclave_from_client (Some (kp i)) (Some (key i)) (refused i) c r pk p mac t = Val (x, t') -> enclave_ok i from t'.
Proof.
  intros [Hs Ha] ([y e] & Hc & [= _ <-])%outcome_bind_inv. split; [|done]. cbn.
  eapply call_status_ok; [|exact Hs|exact Hc]. by apply ecall_from_client_ok.
Qed.

Lemma Enclave_from_bft_ok {R : SgxRuntime} i from c r p mac t x t' :
  enclave_ok i from t -> Enclave_from_bft (Some (kp i)) (Some (key i)) (refused i) c r p mac t = Val (x, t') -> enclave_ok i from t'.
Proof.
  intros [Hs Ha] ([y e] & Hc & [= _ <-])%outcome_bind_inv. split; [|done]. cbn.
  eapply call_status_ok; [|exact Hs|exact Hc]. apply ecall_from_bft_ok; [done|apply keys_ok_db].
Qed.

Lemma Enclave_shared_attestation_ok {R : SgxRuntime} i from t x t' :
  enclave_ok i from t -> Enclave_shared_attestation (Some (kp i)) (Some (key i)) t = Val (x, t') -> enclave_ok i from t'.
Proof.
  intros [Hs Ha]. unfold Enclave_shared_attestation. destruct (en_shared_attestation t); [by intros [= _ <-]|].
  intros ([y e] & Hc & Hr)%outcome_bind_inv. assert (state_ok i from (sg_state e)) as He.
  { eapply call_status_ok; [|exact Hs|exact Hc]. by apply ecall_attest_shared_key_ok. }
  cbn in Hr. destruct y as [[[? ?] ?]|]; injection Hr as _ <-; by split.
Qed.

Lemma Enclave_attestation_ok {R : SgxRuntime} i from t x t' :
  enclave_ok i from t -> Enclave_attestation (Some (kp i)) (Some (key i)) t = Val (x, t') ->
  enclave_ok i from t' /\ forall a, x = Ok a -> ma_pub_key a = kp_public_key (kp i).
Proof.
  intros [Hs Ha]. unfold Enclave_attestation. destruct (en_my_attestation t) as [a|] eqn:Hat.
  { intros [= <- <-]. split; [by split; [|rewrite Hat]|]. intros a' [= <-]. by apply Ha. }
  intros ([y e] & Hc & Hr)%outcome_bind_inv. assert (state_ok i from (sg_state e)) as He.
  { eapply call_status_ok; [|exact Hs|exact Hc]. by apply ecall_attest_ok. }
  cbn [fst snd] in Hr. destruct y as [[[pk ra] len]|]; injection Hr as <- <-; [|by split].
  apply call_status_Ok in Hc. unfold ecall_attest in Hc. rewrite with_slice in Hc.
  apply st_bind_inv in Hc as (y & s1 & Hc & [= _ Hy Hs1]). apply state_ok_inv in Hs as (st & Hst & Hkp & _).
  apply st_bind_inv in Hc as (st1 & s2 & Hs2 & [= <- <-]). unfold shared_state in Hs2. rewrite Hst in Hs2. injection Hs2 as <- _.
  cbn in Hy. injection Hy as <- _ _. rewrite Hkp in *. split; [split; [done|]|]; by intros a [= <-].
Qed.

Lemma Enclave_ma_continue_ok {R : SgxRuntime} i j from ra t x t' :
  length (key i) = 16 -> enclave_ok i from t -> ma_pub_key ra = kp_public_key (kp j) ->
  Enclave_ma_continue (Some (kp i)) (Some (key i)) ra t = Val (x, t') ->
  enclave_ok i from t' /\ forall s, x = Ok s -> sealed i j s.
Proof.
  intros Hlen [Hs Ha] Hpk. unfold Enclave_ma_continue. intros ([y e] & Hc & Hr)%outcome_bind_inv.
  assert (enclave_ok i from (mkEnclave e (en_my_attestation t) (en_shared_attestation t))) as He.
  { split; [|done]. eapply call_status_ok; [|exact Hs|exact Hc]. by apply ecall_ma_continue_ok. }
  cbn [fst snd] in Hr. cbn zeta in Hr. destruct y as [[[secret len] mac]|]; [|injection Hr as <- <-; by split].
  apply outcome_bind_inv in Hr as ([a t1] & Hat & [= <- <-]). apply (Enclave_attestation_ok i from) in Hat as [Ht Hpub]; [|done].
  split; [done|]. intros s. destruct a as [a|]; [|done]. intros [= <-]. split; [by apply Hpub|]. cbn [ps_secret ps_mac].
  apply call_status_Ok in Hc. unfold ecall_ma_continue in Hc. rewrite !with_slice in Hc.
  apply st_bind_inv in Hc as ([y ?] & s1 & Hc & [= Hy Heq _]). rewrite <-Hpk.
  eapply (ma_continue_sends i from _ (replicate 4096 0%N)); [rewrite Hlen, length_replicate; by apply Nat.leb_le|exact Hs|].
  cbn in Heq. subst. destruct y as [[]|e']; [exact Hc|]. exfalso. cbn in Hy. clear - Hy Hc L.
  apply st_bind_inv in Hc as (? & ? & _ & Hc). apply bind_lift_inv in Hc as (k & _ & Hc). cbn zeta in Hc.
  destruct (AesGcm_new k) eqn:Hn; [|injection Hc as <- _; by eapply AesGcm_new_error]. destruct (_ <? _); [done|].
  destruct (aes_encrypt _ _) as [[? ?]|] eqn:Hn'; [done|]. injection Hc as <- _. by eapply aes_encrypt_error.
Qed.

Lemma Enclave_ma_finish_ok {R : SgxRuntime} i j from secret t x t' :
  length (key j) = 16 -> enclave_ok i from t -> sealed j i secret ->
  Enclave_ma_finish (Some (kp i)) (Some (key i)) secret t = Val (x, t') ->
  (x = Ok () /\ enclave_ok i ({[j]} ∪ from) t') \/ ((exists e, x = Err e) /\ enclave_ok i from t').
Proof.
  intros Hlen [Hs Ha] Hse. unfold Enclave_ma_finish. intros ([y e] & Hc & [= <- <-])%outcome_bind_inv. cbn [fst].
  unfold call_status in Hc. apply outcome_bind_inv in Hc as ([z e1] & Hc%ecall_inv & [= <- <-]). cbn [fst snd] in *.
  destruct Hc as [(er & -> & Heq)|([st []] & -> & Hb)]; [right; split; [by eexists|]; split; [cbn; by rewrite Heq|done]|left].
  unfold ecall_ma_finish in Hb. rewrite !with_slice in Hb. apply st_bind_inv in Hb as (r & s1 & Hf & [= <- Hst]).
  apply (ma_finish_takes i j from) in Hf as [-> Hok]; [|done..]. split; [done|]. split; [cbn; by rewrite <-Hst|done].
Qed.

(** ** Servers *)

Definition sent_ok (i : N) (m : MessageDestination * MaasReplicaMessage) : Prop :=
  match m with
  | (_, RM_RemoteAttestation ra) => ma_pub_key ra = kp_public_key (kp i)
  | (MD_Unicast j, RM_ProposedSecret s) => sealed i j s
  | (MD_Broadcast, RM_ProposedSecret _) => False
  end.

Record server_ok (i : N) (s : Server) : Prop := {
  so_id : sv_replica_id s = i;
  so_n : sv_n s = n;
  so_enclave : enclave_ok i (sv_proposals_from s) (sv_enclave s);
  so_bound : forall x, x ∈ sv_proposals_from s -> (x < n)%N;
  so_ready : sv_ready s = true -> forall x, (x < n)%N -> x ∈ sv_proposals_from s;
  so_sent : forall m, m ∈ sv_replica_send s -> sent_ok i m;
}.

(** A set of [n] numbers below [n] holds all of them. *)
Lemma all_below (X : gset N) : (forall x, x ∈ X -> (x < n)%N) -> (n <= N.of_nat (size X))%N -> forall x, (x < n)%N -> x ∈ X.
Proof.
  intros Hb Hs x Hx. destruct (decide (x ∈ X)) as [|Hn]; [done|]. exfalso.
  set (U := list_to_set (N.of_nat <$> seq 0 (N.to_nat n)) : gset N).
  assert (forall y, y ∈ U <-> (y < n)%N) as HU.
  { intros y. unfold U. rewrite elem_of_list_to_set, list_elem_of_fmap. split.
    - intros (k & -> & Hk%elem_of_seq). lia.
    - intros Hy. exists (N.to_nat y). split; [lia|]. apply elem_of_seq. lia. }
  assert (X ⊂ U) as Hsub%subset_size by (split; [intros y Hy; by apply HU, Hb|]; intros Hc; by apply Hn, Hc, HU).
  assert (size U = N.to_nat n) as HsU; [|lia]. unfold U. rewrite size_list_to_set; [by rewrite length_fmap, length_seq|].
  apply NoDup_fmap_2; [|apply NoDup_seq]. intros a b. lia.
Qed.

Lemma run_start_ok {R : SgxRuntime} i s :
  (i < n)%N -> run_start (Some (kp i)) (Some (key i)) i n = Val s -> server_ok i s.
Proof.
  intros Hi (r & Hnew & Hs)%outcome_bind_inv. apply outcome_bind_inv in Hs as (t & Ht & Hs). destruct r as [t'|]; [|done]. injection Ht as ->.
  assert (enclave_ok i {[i]} t) as Het.
  { unfold Enclave_new in Hnew. destruct sgx_create; [done|]. apply outcome_bind_inv in Hnew as ([x e] & Hc & He). cbn [fst snd] in He.
    destruct x as [[]|]; [|done]. injection He as <-. split; [|done]. cbn [en_enclave]. apply call_status_Ok in Hc. cbn [sg_state] in Hc.
    apply st_bind_inv in Hc as (st & s1 & Hc & [= _ <-]). apply st_bind_inv in Hc as (sh & s2 & Hsh & Hc).
    unfold shared_state, SharedState_init in Hsh. cbn in Hsh. destruct (create_with_seed (key i)) as [kp'|] eqn:Hkp; [|done]. cbn in Hsh.
    injection Hsh as <- <-. cbn zeta in Hc. apply st_bind_inv in Hc as ([] & s3 & Hset & [= _ <-]). injection Hset as <-.
    unfold maas_ok. cbn. split; [done|]. split; [done|]. split; [|done]. rewrite elements_singleton. cbn.
    split; [set_solver|]. intros k' ->%list_elem_of_singleton. apply cmp_refl. }
  apply outcome_bind_inv in Hs as ([a t1] & Ha & Hs). apply (Enclave_attestation_ok i {[i]}) in Ha as [Ht1 Hpub]; [|done].
  apply outcome_bind_inv in Hs as (att & Hatt & [= <-]). cbn [fst snd] in *. destruct a as [a|]; [|done]. injection Hatt as ->.
  split; cbn; try done; [by intros x ->%elem_of_singleton|]. intros m ->%list_elem_of_singleton. by apply Hpub.
Qed.

Lemma replica_recv_ok {R : SgxRuntime} i j dest msg s s' :
  length (key i) = 16 -> length (key j) = 16 -> (j < n)%N -> server_ok i s -> sent_ok j (dest, msg) -> reaches dest i ->
  replica_recv (Some (kp i)) (Some (key i)) j msg s = Val s' -> server_ok i s'.
Proof.
  intros Hli Hlj Hj Hs Hm Hd. pose proof Hs as [Hid Hn He Hb Hr Hse]. unfold replica_recv. destruct (_ || _); [by intros [= <-]|].
  destruct msg as [ra|secret]; intros ([x t] & Hc & Hx)%outcome_bind_inv; cbn zeta in Hx; cbn [fst snd] in Hx.
  - apply (Enclave_ma_continue_ok i j (sv_proposals_from s)) in Hc as [Ht Hsec]; [|done..|by destruct dest].
    destruct x as [secret|]; injection Hx as <-; split; simpl; try done.
    intros m [Hm'| ->%list_elem_of_singleton]%elem_of_app; [by apply Hse|]. by apply Hsec.
  - destruct dest as [d|]; [|done]. cbn in Hm, Hd. subst d.
    apply (Enclave_ma_finish_ok i j (sv_proposals_from s)) in Hc as [[-> Ht]|[[e ->] Ht]]; [|injection Hx as <-; split; by simpl|done..].
    assert (forall x, x ∈ {[j]} ∪ sv_proposals_from s -> (x < n)%N) as Hb'.
    { intros x [->%elem_of_singleton|Hx']%elem_of_union; [done|by apply Hb]. }
    injection Hx as <-. split; simpl; try done. intros [Hrd|Hsz%N.leb_le]%orb_true_iff x Hx.
    + apply elem_of_union_r. by apply Hr.
    + apply all_below; [done| |done]. by rewrite <-Hn.
Qed.

Lemma server_step_ok i s s' : server_ok i s -> server_step i s s' -> server_ok i s'.
Proof.
  intros Hs Hstep. pose proof Hs as [Hid Hn He Hb Hr Hse]. destruct Hstep as [c r req s' Hf|c r t s' Hf|s' Hf|s' Hf].
  - unfold from_client in Hf. destruct (sv_from_client_ended s); [by injection Hf as <-|].
    destruct req as [e|]; apply outcome_bind_inv in Hf as ([x t] & Hc & Hx); cbn zeta in Hx; cbn [fst snd] in Hx.
    + apply (Enclave_from_client_ok i (sv_proposals_from s)) in Hc; [|done]. destruct x; injection Hx as <-; by split.
    + apply (Enclave_shared_attestation_ok i (sv_proposals_from s)) in Hc; [|done]. destruct x; injection Hx as <-; by split.
  - unfold abc_output in Hf. destruct (sv_abc_output_ended s); [by injection Hf as <-|].
    apply outcome_bind_inv in Hf as ([x t'] & Hc & Hx). cbn zeta in Hx. cbn [fst snd] in Hx.
    apply (Enclave_from_bft_ok i (sv_proposals_from s)) in Hc; [|done]. destruct x; injection Hx as <-; by split.
  - unfold to_bft in Hf. destruct (_ !! _); [|done]. injection Hf as <-. by split.
  - unfold to_client in Hf. destruct (_ !! _); [|done]. injection Hf as <-. by split.
Qed.

Definition net_ok (net : gmap N Server) : Prop := forall i s, net !! i = Some s -> (i < n)%N /\ server_ok i s.

Context (key_length : forall i, length (key i) = 16).

Lemma group_step_ok net net' : net_ok net -> net_step net net' -> net_ok net'.
Proof using key_length L.
  intros Hnet Hstep i' s0 Hi. destruct Hstep as [i s Hi' _ Hs|i j s s' sender dest msg Hj Hm Hd His Hr|i s s' His Hs];
    apply lookup_insert_Some in Hi as [[<- <-]|[_ Hi]]; try (by apply Hnet).
  - split; [done|]. by eapply run_start_ok.
  - destruct (Hnet _ _ His) as [? Hok], (Hnet _ _ Hj) as [Hjn Hsend]. split; [done|].
    eapply (replica_recv_ok i j dest msg s); [by auto..|by apply (so_sent _ _ Hsend)|done|exact Hr].
  - destruct (Hnet _ _ His) as [? Hok]. split; [done|]. by eapply server_step_ok.
Qed.

(** C18: servers that are ready agree.  Whatever the order in which the servers of a
    group start and their messages arrive, repeated or not at all, and whatever clients
    and the atomic broadcast hand them meanwhile: two servers that have reported that
    they are ready use one key and one key pair for the clients, the ones of the
    least proposal of the group. *)
Theorem maas_servers_agree net i j si sj :
  rtc net_step ∅ net -> net !! i = Some si -> net !! j = Some sj -> sv_ready si = true -> sv_ready sj = true ->
  exists ti tj, ms_shared (sg_state (en_enclave (sv_enclave si))) = Some ti
    /\ ms_shared (sg_state (en_enclave (sv_enclave sj))) = Some tj
    /\ mu_used_key (ss_mutable ti) = mu_used_key (ss_mutable tj)
    /\ mu_used_key_pair (ss_mutable ti) = mu_used_key_pair (ss_mutable tj)
    /\ forall k, (k < n)%N -> BlockHash_cmp (mu_used_key (ss_mutable ti)) (key k) <> Gt.
Proof using key_length L.
  intros Hreach Hi Hj Ri Rj. assert (net_ok net) as Hnet.
  { eapply (rtc_ind_l (fun a => net_ok a -> net_ok net)); [done| |exact Hreach|by intros ? ? ?%lookup_empty_Some].
    intros a b Hab _ IH Ha. apply IH. by eapply group_step_ok. }
  destruct (Hnet _ _ Hi) as [_ Hsi], (Hnet _ _ Hj) as [_ Hsj].
  assert (sv_proposals_from si = sv_proposals_from sj) as Heq.
  { apply set_eq. intros x. split; intros Hx.
    - by apply (so_ready _ _ Hsj Rj), (so_bound _ _ Hsi).
    - by apply (so_ready _ _ Hsi Ri), (so_bound _ _ Hsj). }
  destruct (state_ok_inv _ _ _ (eo_state _ _ _ (so_enclave _ _ Hsi))) as (ti & Hti & _ & _ & Li & Ki).
  destruct (state_ok_inv _ _ _ (eo_state _ _ _ (so_enclave _ _ Hsj))) as (tj & Htj & _ & _ & Lj & Kj).
  exists ti, tj. split; [done|]. split; [done|]. rewrite Heq in Li. pose proof (least_unique _ _ _ Li Lj) as Hk.
  split; [done|]. split; [rewrite Hk, Kj in Ki; by injection Ki|].
  intros k Hkn. apply Li, list_elem_of_fmap. exists k. split; [done|]. apply elem_of_elements. rewrite <-Heq. by apply (so_ready _ _ Hsi Ri).
Qed.
End network.

(** ** Two servers *)

From S2P Require Import SgxExamples MaasExamples.

Definition duo_kp (i : N) : KeyPair := (i + 5)%N.
Definition duo_key (i : N) : Key128bit := ax_key (20 - i).
Definition duo_runtime (_ : N) : SgxRuntime := sx_runtime.
Definition duo_refused (_ : N) (_ : nat) : option SgxError := None.

Inductive duo_action := Duo_start (i : N) | Duo_deliver (j : N) (k : nat) (i : N).

Definition dest_reaches (dest : MessageDestination) (i : N) : bool :=
  match dest with MD_Unicast id => (id =? i)%N | MD_Broadcast => true end.

Definition duo_exec (a : duo_action) (net : gmap N Server) : option (gmap N Server) :=
  match a with
  | Duo_start i =>
      match net !! i, (i <? 2)%N, run_start (R := duo_runtime i) (Some (duo_kp i)) (Some (duo_key i)) i 2 with
      | None, true, Val s => Some (<[i := s]> net)
      | _, _, _ => None
      end
  | Duo_deliver j k i =>
      sender ← net !! j; s ← net !! i; m ← sv_replica_send sender !! k;
      match dest_reaches m.1 i, replica_recv (R := duo_runtime i) (Some (duo_kp i)) (Some (duo_key i)) j m.2 s with
      | true, Val s' => Some (<[i := s']> net)
      | _, _ => None
      end
  end.

Fixpoint duo_run (l : list duo_action) (net : gmap N Server) : option (gmap N Server) :=
  match l with [] => Some net | a :: l => net ← duo_exec a net; duo_run l net end.

Lemma duo_exec_step a net net' : duo_exec a net = Some net' -> net_step duo_runtime 2 duo_kp duo_key duo_refused net net'.
Proof.
  destruct a as [i|j k i]; cbn [duo_exec].
  - destruct (net !! i) eqn:Hi; [done|]. destruct (N.ltb_spec i 2); [|done]. destruct (run_start _ _ _ _) eqn:Hr; [|done..].
    intros [= <-]. by eapply Step_start.
  - intros (sender & Hj & (s & Hi & (m & Hm & Hr)%bind_Some)%bind_Some)%bind_Some. destruct m as [dest msg]. cbn [fst snd] in Hr.
    destruct (dest_reaches dest i) eqn:Hd; [|done]. destruct (replica_recv _ _ _ _ _) eqn:Hrr in Hr; [|done..]. injection Hr as <-.
    eapply (Step_message _ _ _ _ _ _ i j s _ sender dest msg); [done|by eapply list_elem_of_lookup_2| |done|exact Hrr].
    destruct dest; [by apply N.eqb_eq|done].
Qed.

Lemma duo_run_steps l net net' : duo_run l net = Some net' -> rtc (net_step duo_runtime 2 duo_kp duo_key duo_refused) net net'.
Proof.
  revert net. induction l as [|a l IH]; intros net; cbn [duo_run]; [by intros [= <-]|].
  intros (net1 & Ha%duo_exec_step & Hl)%bind_Some. eapply rtc_l; [exact Ha|by apply IH].
Qed.

(** Both start, each gets the attestation and then the proposal of the other. *)
Definition duo_actions : list duo_action :=
  [Duo_start 0; Duo_start 1; Duo_deliver 0 0 1; Duo_deliver 1 0 0; Duo_deliver 1 1 0; Duo_deliver 0 1 1].

Lemma duo_both_ready : exists net s0 s1, duo_run duo_actions ∅ = Some net /\ net !! 0%N = Some s0 /\ net !! 1%N = Some s1
  /\ sv_ready s0 = true /\ sv_ready s1 = true.
Proof. eexists _, _, _. split; [vm_compute; reflexivity|]. split; [reflexivity|]. split; [reflexivity|]. split; reflexivity. Qed.

Lemma duo_key_length i : length (duo_key i) = 16.
Proof. done. Qed.

Lemma maas_servers_agree_witness : exists s0 s1, sv_ready s0 = true /\ sv_ready s1 = true /\
  exists t0 t1, ms_shared (sg_state (en_enclave (sv_enclave s0))) = Some t0
    /\ ms_shared (sg_state (en_enclave (sv_enclave s1))) = Some t1
    /\ mu_used_key (ss_mutable t0) = mu_used_key (ss_mutable t1).
Proof.
  destruct duo_both_ready as (net & s0 & s1 & Hrun & H0 & H1 & R0 & R1). exists s0, s1. split; [exact R0|]. split; [exact R1|].
  destruct (maas_servers_agree duo_runtime 2 duo_kp duo_key duo_refused duo_key_length net 0 1 s0 s1 (duo_run_steps _ _ _ Hrun) H0 H1 R0 R1)
    as (t0 & t1 & T0 & T1 & Hk & _). exists t0, t1. split; [exact T0|]. split; [exact T1|exact Hk].
Defined.
