(* ===== verification/WebServer.v ===== *)
(** * Requests and responses at a replica

    Models the pairing of requests and responses in
    [src/abcperf/abcperf/src/replica/webserver.rs]: the state kept for each client
    ([ClientHandlerState]), the map of the clients ([ResponseHandler]), and what the
    server does with a request ([run]) and with the responses of the application
    ([handle_responses]).

    The requests run concurrently, each on its own connection, and the responses are
    taken by one task.  What is done under the entry of a client in the map is one
    step; passing a request on to the application ([requests.send(..).await]), which
    comes after the entry was released, is another one, and others may come between.
    A panic ends the task it happens in: the connection of the request, or the task
    that takes the responses.

    The sender of a [oneshot] channel is a number; what is sent into channels is
    recorded.  A channel that is dropped without a message rejects its request.  What
    the server does when it is told to exit is not modelled. *)

From Stdlib Require Import ZArith Lia.
From stdpp Require Import base list gmap sets numbers option.
From S2P Require Import Prelude Ids Triple.

Section webserver.
  Context {Req Resp : Type}.

(** ** The state of a client *)

Inductive InnerClientHandlerState :=
| Neither
| Channel (channel : N)
| Response (resp : Resp).

Record ClientHandlerState := mkClientHandler { ch_id : N; ch_inner : InnerClientHandlerState }.
Definition ClientHandlerState_default : ClientHandlerState := mkClientHandler (from_u64 0) Neither.

(** [checked_add(1).unwrap()]: whether it panics, and the state, which a panic leaves as it is. *)
Definition next_id (s : ClientHandlerState) : bool * ClientHandlerState :=
  match id_checked_add (ch_id s) 1 with
  | Some id => (false, mkClientHandler id (ch_inner s))
  | None => (true, s)
  end.

(** Whether it panics and whether the request is to be passed on, what is sent into
    channels, and the state. *)
Definition ClientHandlerState_request (id channel : N) (s : ClientHandlerState)
    : bool * bool * list (N * Resp) * ClientHandlerState :=
  match (id ?= ch_id s)%N with
  | Lt => (false, false, [], s)
  | Eq =>
      match ch_inner s with
      | Neither => (false, true, [], mkClientHandler (ch_id s) (Channel channel))
      | Channel _ => (false, false, [], mkClientHandler (ch_id s) (Channel channel))
      | Response payload =>
          let '(panicked, s) := next_id (mkClientHandler (ch_id s) Neither) in
          (panicked, false, [(channel, payload)], s)
      end
  | Gt => (false, true, [], mkClientHandler id (Channel channel))
  end.

(** [self.inner.take()] leaves [Neither], also where the response is then ignored. *)
Definition ClientHandlerState_response (id : N) (payload : Resp) (s : ClientHandlerState)
    : bool * list (N * Resp) * ClientHandlerState :=
  match (id ?= ch_id s)%N with
  | Lt => (false, [], s)
  | Eq =>
      match ch_inner s with
      | Neither => (false, [], mkClientHandler (ch_id s) (Response payload))
      | Channel channel =>
          let '(panicked, s) := next_id (mkClientHandler (ch_id s) Neither) in
          (panicked, [(channel, payload)], s)
      | Response _ => (false, [], mkClientHandler (ch_id s) Neither)
      end
  | Gt => (false, [], mkClientHandler id (Response payload))
  end.

(** ** The clients *)

Definition ResponseHandler : Type := gmap N ClientHandlerState.

Definition ResponseHandler_request (client_id request_id channel : N) (h : ResponseHandler)
    : bool * bool * list (N * Resp) * ResponseHandler :=
  let '(panicked, should_send, sent, state) :=
    ClientHandlerState_request request_id channel (default ClientHandlerState_default (h !! client_id)) in
  (panicked, should_send, sent, <[client_id := state]> h).

Definition ResponseHandler_response (client_id request_id : N) (resp : Resp) (h : ResponseHandler)
    : bool * list (N * Resp) * ResponseHandler :=
  let '(panicked, sent, state) :=
    ClientHandlerState_response request_id resp (default ClientHandlerState_default (h !! client_id)) in
  (panicked, sent, <[client_id := state]> h).

Definition ResponseHandler_clear (_ : ResponseHandler) : ResponseHandler := ∅.

(** ** The server *)

(** [ws_next]: the next [oneshot] channel; [ws_opened]: the channel of each request;
    [ws_pending]: the requests that are to be passed on, each with its channel;
    [ws_requests]: those that were; [ws_gone]: the channels nobody receives from any
    more; [ws_replies]: what was received from channels; [ws_responses_run]: the task
    [handle_responses] runs. *)
Record WebServer := mkWebServer {
  ws_handler : ResponseHandler;
  ws_next : N;
  ws_opened : list (N * (N * N));
  ws_pending : list (N * (N * N * Req));
  ws_requests : list (N * N * Req);
  ws_gone : list N;
  ws_replies : list (N * Resp);
  ws_responses_run : bool;
}.
#[export] Instance WebServer_eta : Eta WebServer := fun s =>
  mkWebServer (ws_handler s) (ws_next s) (ws_opened s) (ws_pending s) (ws_requests s) (ws_gone s) (ws_replies s) (ws_responses_run s).
Definition WebServer_new : WebServer := mkWebServer ∅ 0 [] [] [] [] [] true.

(** A request whose body was parsed gets at the entry of its client; [requests.send]
    of a request succeeds, or fails because the channel is closed; the connection of a
    request is closed; the application responds. *)
Inductive WebEvent :=
| Ev_request (client_id request_id : N) (request : Req)
| Ev_send (channel : N)
| Ev_closed (channel : N)
| Ev_disconnect (channel : N)
| Ev_response (client_id request_id : N) (resp : Resp).

(** [let _ = channel.send(payload)]: lost if the receiver is gone. *)
Definition deliver (gone : list N) (sent : list (N * Resp)) : list (N * Resp) :=
  filter (fun m => m.1 ∉ gone) sent.

Definition not_of (channel : N) (p : N * (N * N * Req)) : Prop := p.1 <> channel.
#[global] Instance not_of_dec channel p : Decision (not_of channel p).
Proof. unfold not_of. apply _. Defined.

Definition web_step (e : WebEvent) (s : WebServer) : WebServer :=
  match e with
  | Ev_request client_id request_id request =>
      let channel := ws_next s in
      let '(panicked, should_send, sent, handler) := ResponseHandler_request client_id request_id channel (ws_handler s) in
      let s := s.[ws_handler := handler].[ws_next := (channel + 1)%N]
                .[ws_opened ::= fun l => l ++ [(channel, (client_id, request_id))]] in
      if (panicked : bool) then s.[ws_gone ::= fun l => l ++ [channel]] else
      let s := s.[ws_replies ::= fun l => l ++ deliver (ws_gone s) sent] in
      if (should_send : bool) then s.[ws_pending ::= fun l => l ++ [(channel, (client_id, request_id, request))]] else s
  | Ev_send channel =>
      s.[ws_requests ::= fun l => l ++ (filter (fun p => p.1 = channel) (ws_pending s)).*2].[ws_pending ::= filter (not_of channel)]
  | Ev_closed channel | Ev_disconnect channel =>
      if (channel <? ws_next s)%N
      then s.[ws_pending ::= filter (not_of channel)].[ws_gone ::= fun l => l ++ [channel]] else s
  | Ev_response client_id request_id resp =>
      if ws_responses_run s then
        let '(panicked, sent, handler) := ResponseHandler_response client_id request_id resp (ws_handler s) in
        s.[ws_handler := handler].[ws_replies ::= fun l => l ++ deliver (ws_gone s) sent].[ws_responses_run := negb panicked]
      else s
  end.

Definition web_run (es : list WebEvent) (s : WebServer) : WebServer := foldl (fun s e => web_step e s) s es.
End webserver.
Arguments InnerClientHandlerState Resp : clear implicits.
Arguments ClientHandlerState Resp : clear implicits.
Arguments ResponseHandler Resp : clear implicits.
Arguments WebServer Req Resp : clear implicits.
Arguments WebEvent Req Resp : clear implicits.

(** ** Requests and responses at a replica: theorems

    A reply reaches the request it belongs to, a request is passed on at most once, and
    a request is answered whichever of it and its response comes first. *)

Section facts.
  Context {Req Resp : Type}.
  Implicit Types (s : WebServer Req Resp) (e : WebEvent Req Resp).

Definition state_of (h : gmap N (ClientHandlerState Resp)) (c : N) : ClientHandlerState Resp := default ClientHandlerState_default (h !! c).

Lemma state_of_insert h c st c' : state_of (<[c := st]> h) c' = if decide (c = c') then st else state_of h c'.
Proof. unfold state_of. case_decide as Hc; [subst; by rewrite lookup_insert_eq|by rewrite lookup_insert_ne]. Qed.

(** The requests, by client and number, that were or are to be passed on.  The greatest
    number is left out: [next_id] cannot leave it behind. *)
Definition below_max (x : N * N) : Prop := (x.2 + 1 < 2 ^ 64)%N.
#[global] Instance below_max_dec x : Decision (below_max x).
Proof. unfold below_max. apply _. Defined.
Definition passed s : list (N * N) := filter below_max (ws_requests s ++ (ws_pending s).*2).*1.

(** A request was passed on: its client has a later number, or waits with this one. *)
Definition behind (st : ClientHandlerState Resp) (r : N) : Prop :=
  (r < ch_id st)%N \/ r = ch_id st /\ exists ch, ch_inner st = Channel ch.

Record web_ok (es : list (WebEvent Req Resp)) (s : WebServer Req Resp) : Prop := {
  wo_fresh : forall ch x, (ch, x) ∈ ws_opened s -> (ch < ws_next s)%N;
  wo_opened : forall ch x y, (ch, x) ∈ ws_opened s -> (ch, y) ∈ ws_opened s -> x = y;
  wo_gone : forall ch, ch ∈ ws_gone s -> (ch < ws_next s)%N;
  wo_channel : forall c ch, ch_inner (state_of (ws_handler s) c) = Channel ch ->
    (ch, (c, ch_id (state_of (ws_handler s) c))) ∈ ws_opened s /\ ch ∉ (ws_replies s).*1;
  wo_response : forall c v, ch_inner (state_of (ws_handler s) c) = Response v ->
    Ev_response c (ch_id (state_of (ws_handler s) c)) v ∈ es;
  wo_replies : forall ch v, (ch, v) ∈ ws_replies s -> exists c r, (ch, (c, r)) ∈ ws_opened s /\ Ev_response c r v ∈ es;
  wo_once : NoDup (ws_replies s).*1;
  wo_requests : forall c r q, (c, r, q) ∈ ws_requests s ++ (ws_pending s).*2 -> Ev_request c r q ∈ es;
  wo_passed : NoDup (passed s);
  wo_behind : forall c r, (c, r) ∈ passed s -> behind (state_of (ws_handler s) c) r;
}.

Lemma web_ok_new : web_ok [] WebServer_new.
Proof. split; try (by intros; set_solver); try done; constructor. Qed.

Lemma next_id_cases (st : ClientHandlerState Resp) :
  ((ch_id st + 1 < 2 ^ 64)%N /\ next_id st = (false, mkClientHandler (ch_id st + 1) (ch_inner st)))
  \/ ((2 ^ 64 <= ch_id st + 1)%N /\ next_id st = (true, st)).
Proof.
  unfold next_id, id_checked_add, checked_add. destruct (N.ltb_spec (ch_id st + 1) (2 ^ 64)); [by left|by right].
Qed.

(** The state after the answer to request [id]. *)
Definition answered_state (id : N) (panicked : bool) (st' : ClientHandlerState Resp) : Prop :=
  (panicked = false /\ (id + 1 < 2 ^ 64)%N /\ st' = mkClientHandler (id + 1) Neither)
  \/ (panicked = true /\ (2 ^ 64 <= id + 1)%N /\ st' = mkClientHandler id Neither).

(** The outcomes of a request, for the state of its client. *)
Lemma request_cases id ch (st : ClientHandlerState Resp) p b sent st' :
  ClientHandlerState_request id ch st = (p, b, sent, st') ->
  (id < ch_id st)%N /\ p = false /\ b = false /\ sent = [] /\ st' = st
  \/ (ch_id st <= id)%N /\ (id = ch_id st -> ch_inner st = Neither) /\ p = false /\ b = true /\ sent = [] /\ st' = mkClientHandler id (Channel ch)
  \/ id = ch_id st /\ (exists ch', ch_inner st = Channel ch') /\ p = false /\ b = false /\ sent = [] /\ st' = mkClientHandler id (Channel ch)
  \/ id = ch_id st /\ (exists v, ch_inner st = Response v /\ sent = [(ch, v)]) /\ b = false /\ answered_state id p st'.
Proof.
  unfold ClientHandlerState_request, answered_state. destruct (N.compare_spec id (ch_id st)) as [->|Hlt|Hgt].
  - destruct (ch_inner st) as [|ch'|v] eqn:Hi.
    + intros [= <- <- <- <-]. right. left. split_and!; [lia|done..].
    + intros [= <- <- <- <-]. do 2 right. left. split_and!; [done|by eexists|done..].
    + do 3 right. destruct (next_id_cases (mkClientHandler (ch_id st) Neither)) as [[Hlt Hn]|[Hge Hn]]; rewrite Hn in *;
        simplify_eq; (split; [done|]; split; [by exists v|]; split; [done|]); [by left|by right].
  - intros [= <- <- <- <-]. by left.
  - intros [= <- <- <- <-]. right. left. split; [lia|]. split_and!; [lia|done..].
Qed.

Lemma response_cases id (v : Resp) (st : ClientHandlerState Resp) p sent st' :
  ClientHandlerState_response id v st = (p, sent, st') ->
  (id < ch_id st)%N /\ p = false /\ sent = [] /\ st' = st
  \/ (ch_id st <= id)%N /\ (id = ch_id st -> ch_inner st = Neither) /\ p = false /\ sent = [] /\ st' = mkClientHandler id (Response v)
  \/ id = ch_id st /\ (exists ch, ch_inner st = Channel ch /\ sent = [(ch, v)]) /\ answered_state id p st'
  \/ id = ch_id st /\ (exists v', ch_inner st = Response v') /\ p = false /\ sent = [] /\ st' = mkClientHandler id Neither.
Proof.
  unfold ClientHandlerState_response, answered_state. destruct (N.compare_spec id (ch_id st)) as [->|Hlt|Hgt].
  - destruct (ch_inner st) as [|ch'|v'] eqn:Hi.
    + intros [= <- <- <-]. right. left. split_and!; [lia|done..].
    + do 2 right. left. destruct (next_id_cases (mkClientHandler (ch_id st) Neither)) as [[Hlt Hn]|[Hge Hn]]; rewrite Hn in *;
        simplify_eq; (split; [done|]; split; [by exists ch'|]); [by left|by right].
    + intros [= <- <- <-]. do 3 right. split_and!; [done|by eexists|done..].
  - intros [= <- <- <-]. by left.
  - intros [= <- <- <-]. right. left. split; [lia|]. split_and!; [lia|done..].
Qed.

(** A request that is passed on was not passed on before. *)
Lemma behind_not (st : ClientHandlerState Resp) id :
  (ch_id st <= id)%N -> (id = ch_id st -> ch_inner st = Neither) -> ~ behind st id.
Proof. intros Hle Hn [Hlt|[He (ch & Hc)]]; [lia|]. rewrite (Hn He) in Hc. done. Qed.

Lemma behind_request id ch st p b sent st' r :
  ClientHandlerState_request id ch st = (p, b, sent, st') -> (r + 1 < 2 ^ 64)%N -> behind st r -> behind st' r.
Proof.
  intros Hreq Hr Hb. apply request_cases in Hreq
    as [(_ & _ & _ & _ & ->)|[(Hle & Hn & _ & _ & _ & ->)|[(-> & _ & _ & _ & _ & ->)|(-> & (v & Hv & _) & _ & Ha)]]]; [done|..].
  - destruct (decide (id = r)) as [->|]; [by apply behind_not in Hb|]. left. cbn. destruct Hb as [|[-> _]]; lia.
  - destruct Hb as [|[-> _]]; [by left|right; cbn; eauto].
  - destruct Hb as [Hlt|[_ (ch' & Hc)]]; [|congruence]. left. destruct Ha as [(_ & _ & ->)|(_ & _ & ->)]; cbn; lia.
Qed.

Lemma behind_response id v st p sent st' r :
  ClientHandlerState_response id v st = (p, sent, st') -> (r + 1 < 2 ^ 64)%N -> behind st r -> behind st' r.
Proof.
  intros Hresp Hr Hb. apply response_cases in Hresp
    as [(_ & _ & _ & ->)|[(Hle & Hn & _ & _ & ->)|[(-> & _ & Ha)|(-> & (v' & Hv) & _ & _ & ->)]]]; [done|..].
  - destruct (decide (id = r)) as [->|]; [by apply behind_not in Hb|]. left. cbn. destruct Hb as [|[-> _]]; lia.
  - left. destruct Ha as [(_ & _ & ->)|(_ & Hge & ->)]; cbn; destruct Hb as [|[-> _]]; lia.
  - destruct Hb as [|[_ (ch & Hc)]]; [by left|congruence].
Qed.

Lemma reply_opened es s ch : web_ok es s -> ch ∈ (ws_replies s).*1 -> (ch < ws_next s)%N.
Proof.
  intros Hs ((ch' & v) & -> & Hv)%list_elem_of_fmap. destruct (wo_replies _ _ Hs _ _ Hv) as (c & r & Ho & _). by eapply wo_fresh.
Qed.

Lemma opened_snoc es s ch x y c r :
  web_ok es s -> (ch, x) ∈ ws_opened s ++ [(ws_next s, (c, r))] -> (ch, y) ∈ ws_opened s ++ [(ws_next s, (c, r))] ->
  (ch < ws_next s + 1)%N /\ x = y.
Proof.
  intros Hs. rewrite !elem_of_app, !list_elem_of_singleton. intros [Hx|Hx] [Hy|Hy]; simplify_eq.
  - split; [apply (wo_fresh _ _ Hs) in Hx; lia|by eapply wo_opened].
  - apply (wo_fresh _ _ Hs) in Hx. lia.
  - apply (wo_fresh _ _ Hs) in Hy. lia.
  - split; [lia|done].
Qed.

Lemma elem_of_deliver ch (v : Resp) gone sent : (ch, v) ∈ deliver gone sent <-> ch ∉ gone /\ (ch, v) ∈ sent.
Proof. unfold deliver. by rewrite list_elem_of_filter. Qed.

Lemma deliver_one gone ch (v : Resp) : ch ∉ gone -> deliver gone [(ch, v)] = [(ch, v)].
Proof. intros Hn. unfold deliver. by rewrite filter_cons_True. Qed.

Lemma deliver_nil gone : deliver (Resp := Resp) gone [] = [].
Proof. done. Qed.

(** Replies to channels that have got none. *)
Lemma deliver_once (replies : list (N * Resp)) gone sent :
  NoDup replies.*1 -> (sent = [] \/ exists ch v, sent = [(ch, v)] /\ ch ∉ replies.*1) -> NoDup (replies ++ deliver gone sent).*1.
Proof.
  intros Hnd Hsent. rewrite fmap_app. apply list.NoDup_app. split; [done|].
  destruct Hsent as [->|(ch & v & -> & Hn)]; [rewrite deliver_nil; split; [set_solver|constructor]|].
  unfold deliver. rewrite list.filter_cons. case_decide; cbn; (split; [set_solver|]); [apply NoDup_singleton|constructor].
Qed.

(** ** Steps that leave the handler as it is *)

(** Requests are passed on, or given up: nothing becomes new. *)
Lemma web_ok_pending es e s s' :
  web_ok es s -> ws_handler s' = ws_handler s -> ws_next s' = ws_next s -> ws_opened s' = ws_opened s -> ws_replies s' = ws_replies s ->
  (forall ch, ch ∈ ws_gone s' -> (ch < ws_next s)%N) ->
  (exists lost, ws_requests s ++ (ws_pending s).*2 ≡ₚ (ws_requests s' ++ (ws_pending s').*2) ++ lost) ->
  web_ok (es ++ [e]) s'.
Proof.
  intros [] Hh Hn Ho Hr Hg [lost Hp].
  assert (passed s ≡ₚ passed s' ++ filter below_max lost.*1) as Hpa.
  { unfold passed. rewrite <-list.filter_app, <-fmap_app. by rewrite Hp. }
  split; rewrite ?Hh, ?Hn, ?Ho, ?Hr; try done.
  - intros c v Hv. apply elem_of_app. left. by apply wo_response0.
  - intros ch v Hv. destruct (wo_replies0 _ _ Hv) as (c & r & ? & ?). exists c, r. set_solver.
  - intros c r q Hin. apply elem_of_app. left. apply wo_requests0. rewrite Hp. set_solver.
  - rewrite Hpa in wo_passed0. by apply list.NoDup_app in wo_passed0 as [? _].
  - intros c r Hin. apply wo_behind0. rewrite Hpa. set_solver.
Qed.

Lemma pending_split (l : list (N * (N * N * Req))) ch :
  l.*2 ≡ₚ (filter (not_of ch) l).*2 ++ (filter (fun p => p.1 = ch) l).*2.
Proof.
  induction l as [|p l IH]; [done|]. rewrite !list.filter_cons. unfold not_of at 1. rewrite fmap_cons, IH.
  destruct (decide (p.1 = ch)) as [He|Hne].
  - rewrite decide_False by (by intros ?). rewrite fmap_cons. apply Permutation_middle.
  - by rewrite decide_True.
Qed.

Lemma web_ok_send es s ch : web_ok es s -> web_ok (es ++ [Ev_send ch]) (web_step (Ev_send ch) s).
Proof.
  intros Hs. eapply web_ok_pending; [exact Hs|done..|apply Hs|]. exists []. cbn. rewrite app_nil_r, <-app_assoc.
  apply Permutation_app_head. rewrite (pending_split (ws_pending s) ch). apply Permutation_app_comm.
Qed.

Lemma web_ok_give_up es s ch e :
  web_ok es s -> e = Ev_closed ch \/ e = Ev_disconnect ch -> web_ok (es ++ [e]) (web_step e s).
Proof.
  intros Hs He.
  assert (web_step e s = if (ch <? ws_next s)%N
            then s.[ws_pending ::= filter (not_of ch)].[ws_gone ::= fun l => l ++ [ch]] else s) as -> by (by destruct He as [->| ->]).
  destruct (N.ltb_spec ch (ws_next s)) as [Hlt|_].
  - eapply web_ok_pending; [exact Hs|done..| |].
    + cbn. intros x [Hx| ->%list_elem_of_singleton]%elem_of_app; [by apply Hs|done].
    + exists (filter (fun p => p.1 = ch) (ws_pending s)).*2. cbn. rewrite <-app_assoc. apply Permutation_app_head, pending_split.
  - eapply web_ok_pending; [exact Hs|done..|apply Hs|]. exists []. by rewrite app_nil_r.
Qed.

(** ** Requests and responses *)

Lemma web_ok_request es s c id q : web_ok es s -> web_ok (es ++ [Ev_request c id q]) (web_step (Ev_request c id q) s).
Proof.
  intros Hs. cbn [web_step]. unfold ResponseHandler_request.
  change (default _ (ws_handler s !! c)) with (state_of (ws_handler s) c).
  destruct (ClientHandlerState_request id (ws_next s) (state_of (ws_handler s) c)) as [[[p b] sent] st'] eqn:Hreq.
  pose proof (fun r => behind_request _ _ _ _ _ _ _ r Hreq) as Hbeh. apply request_cases in Hreq.
  pose proof Hs as [Hf Ho Hg Hc Hr Hre Hon Hrq Hpa Hb].
  assert (ws_next s ∉ (ws_replies s).*1) as Hnr by (intros Hin; apply (reply_opened _ _ _ Hs) in Hin; lia).
  assert (forall ch x, (ch, x) ∈ ws_opened s -> ch <> ws_next s) as Hne by (intros ch x Hin; apply Hf in Hin; lia).
  assert (sent = [] \/ exists v, sent = [(ws_next s, v)] /\ Ev_response c id v ∈ es) as Hsent.
  { destruct Hreq as [(_ & _ & _ & -> & _)|[(_ & _ & _ & _ & -> & _)|[(_ & _ & _ & _ & -> & _)|(-> & (v & Hv & ->) & _)]]]; eauto. }
  assert (b = true -> p = false /\ (ch_id (state_of (ws_handler s) c) <= id)%N
            /\ (id = ch_id (state_of (ws_handler s) c) -> ch_inner (state_of (ws_handler s) c) = Neither)
            /\ st' = mkClientHandler id (Channel (ws_next s))) as Hbt.
  { intros ->. by destruct Hreq as [(_ & _ & ? & _)|[(? & ? & ? & _ & _ & ?)|[(_ & _ & _ & ? & _)|(_ & _ & ? & _)]]]. }
  assert (forall ch v, (ch, v) ∈ sent -> ch = ws_next s /\ Ev_response c id v ∈ es) as Hsent'.
  { intros ch v. destruct Hsent as [->|(v' & -> & Hv)]; [by intros ?%elem_of_nil|]. by intros [= -> ->]%list_elem_of_singleton. }
  set (replies' := ws_replies s ++ (if p then [] else deliver (ws_gone s) sent)).
  set (pending' := ws_pending s ++ (if p then [] else if b then [(ws_next s, (c, id, q))] else [])).
  set (gone' := ws_gone s ++ (if p then [ws_next s] else [])).
  set (t := mkWebServer (<[c := st']> (ws_handler s)) (ws_next s + 1)%N (ws_opened s ++ [(ws_next s, (c, id))])
              pending' (ws_requests s) gone' replies' (ws_responses_run s)).
  assert (web_ok (es ++ [Ev_request c id q]) t) as Ht; last first.
  { revert Ht. unfold t, replies', pending', gone'. destruct p; [|destruct b]; cbn; by rewrite ?app_nil_r. }
  assert (forall ch v, (ch, v) ∈ replies' -> (ch, v) ∈ ws_replies s \/ ch = ws_next s /\ Ev_response c id v ∈ es) as Hrep.
  { intros ch v [?|Hin]%elem_of_app; [by left|right]. destruct p; [by apply elem_of_nil in Hin|]. by apply elem_of_deliver in Hin as [_ ?%Hsent']. }
  assert (NoDup (passed t) /\ forall c' r, (c', r) ∈ passed t -> (c', r) ∈ passed s \/ (c', r) = (c, id) /\ b = true) as [Hpnd Hpin].
  { unfold passed, t. cbn. unfold pending'. destruct p, b; rewrite ?app_nil_r; try (split; [done|by left]).
    destruct (Hbt eq_refl) as (_ & Hle & Hn & _).
    replace (ws_requests s ++ (ws_pending s ++ [(ws_next s, (c, id, q))]).*2)
      with ((ws_requests s ++ (ws_pending s).*2) ++ [(c, id, q)]) by (by rewrite (fmap_app snd), app_assoc).
    rewrite (fmap_app fst), list.filter_app. cbn [fmap list_fmap fst]. rewrite list.filter_cons, list.filter_nil.
    case_decide; [|rewrite app_nil_r; split; [done|by left]]. split.
    - apply list.NoDup_app. split; [done|]. split; [|apply NoDup_singleton]. intros x Hx ->%list_elem_of_singleton.
      by apply (behind_not (state_of (ws_handler s) c) id), Hb.
    - intros c' r [?| ->%list_elem_of_singleton]%elem_of_app; [by left|by right]. }
  split; cbn [t ws_handler ws_next ws_opened ws_requests ws_replies ws_pending ws_gone].
  - intros ch x Hx. by apply (opened_snoc es s ch x x c id Hs).
  - intros ch x y Hx Hy. by apply (opened_snoc es s ch x y c id Hs).
  - unfold gone'. intros ch [Hx%Hg|Hx]%elem_of_app; [lia|]. destruct p; [|by apply elem_of_nil in Hx]. apply list_elem_of_singleton in Hx. lia.
  - intros c' ch. rewrite !state_of_insert. case_decide as Hcc; [subst c'|].
    + intros Hch. assert (sent = [] /\ (st' = state_of (ws_handler s) c \/ st' = mkClientHandler id (Channel (ws_next s)))) as [Hnil Hst].
      { destruct Hreq as [(_ & _ & _ & -> & ->)|[(_ & _ & _ & _ & -> & ->)|[(_ & _ & _ & _ & -> & ->)|(_ & _ & _ & Ha)]]]; [by auto..|].
        by destruct Ha as [(_ & _ & ->)|(_ & _ & ->)]. }
      assert (replies' = ws_replies s) as -> by (unfold replies'; rewrite Hnil, deliver_nil; destruct p; apply app_nil_r).
      destruct Hst as [-> | ->]; [apply Hc in Hch as [? ?]; set_solver|]. injection Hch as <-. set_solver.
    + intros [Hin Hni]%Hc. split; [set_solver|]. pose proof (Hne _ _ Hin).
      intros ([ch' v] & -> & Hv%Hrep)%list_elem_of_fmap. cbn in *. destruct Hv as [Hv|[? _]]; [|done]. apply Hni, list_elem_of_fmap. by exists (ch', v).
  - intros c' v. rewrite !state_of_insert. rewrite elem_of_app. case_decide as Hcc; [subst c'|intros Hv; left; by apply Hr].
    destruct Hreq as [(_ & _ & _ & _ & ->)|[(_ & _ & _ & _ & _ & ->)|[(_ & _ & _ & _ & _ & ->)|(_ & _ & _ & Ha)]]]; [|done..|].
    + intros Hv. left. by apply Hr.
    + by destruct Ha as [(_ & _ & ->)|(_ & _ & ->)].
  - intros ch v [Hin|[-> Hv]]%Hrep; [|exists c, id; set_solver]. destruct (Hre _ _ Hin) as (c' & r & ? & ?). exists c', r. set_solver.
  - unfold replies'. destruct p; [by rewrite app_nil_r|]. apply deliver_once; [done|].
    destruct Hsent as [->|(v & -> & _)]; [by left|right; eauto].
  - intros c' r q'. unfold pending'. rewrite fmap_app, app_assoc. intros [Hin%Hrq|Hin]%elem_of_app; [set_solver|]. destruct p, b; set_solver.
  - done.
  - intros c' r Hin. assert (r + 1 < 2 ^ 64)%N as Hlt by (by apply list_elem_of_filter in Hin as [? _]).
    rewrite state_of_insert. case_decide as Hcc; [subst c'|].
    + apply Hpin in Hin as [Hin|[[= ->] Hbb]]; [by apply Hbeh, Hb|]. destruct (Hbt Hbb) as (_ & _ & _ & ->). right. cbn. eauto.
    + apply Hpin in Hin as [Hin|[[= <- _] _]]; [by apply Hb|done].
Qed.

Lemma web_ok_response es s c id v : web_ok es s -> web_ok (es ++ [Ev_response c id v]) (web_step (Ev_response c id v) s).
Proof.
  intros Hs. cbn [web_step]. destruct (ws_responses_run s).
  2:{ eapply web_ok_pending; [exact Hs|done..|apply Hs|]. exists []. by rewrite app_nil_r. }
  unfold ResponseHandler_response.
  change (default _ (ws_handler s !! c)) with (state_of (ws_handler s) c).
  destruct (ClientHandlerState_response id v (state_of (ws_handler s) c)) as [[p sent] st'] eqn:Hresp.
  pose proof (fun r => behind_response _ _ _ _ _ _ r Hresp) as Hbeh. apply response_cases in Hresp.
  pose proof Hs as [Hf Ho Hg Hc Hr Hre Hon Hrq Hpa Hb].
  assert (sent = [] \/ exists ch, sent = [(ch, v)] /\ (ch, (c, id)) ∈ ws_opened s /\ ch ∉ (ws_replies s).*1) as Hsent.
  { destruct Hresp as [(_ & _ & -> & _)|[(_ & _ & _ & -> & _)|[(-> & (ch & [? ?]%Hc & ->) & _)|(_ & _ & _ & -> & _)]]]; eauto. }
  assert (forall ch v', (ch, v') ∈ deliver (ws_gone s) sent -> v' = v /\ (ch, (c, id)) ∈ ws_opened s) as Hdel.
  { intros ch v' [_ Hin]%elem_of_deliver. destruct Hsent as [->|(ch' & -> & ? & _)]; [by apply elem_of_nil in Hin|].
    by apply list_elem_of_singleton in Hin as [= -> ->]. }
  enough (web_ok (es ++ [Ev_response c id v])
    (mkWebServer (<[c := st']> (ws_handler s)) (ws_next s) (ws_opened s) (ws_pending s) (ws_requests s) (ws_gone s)
       (ws_replies s ++ deliver (ws_gone s) sent) (negb p))) as Ht by exact Ht.
  split; cbn [ws_handler ws_next ws_opened ws_requests ws_replies ws_pending ws_gone]; [done|done|done|..].
  - intros c' ch. rewrite !state_of_insert. case_decide as Hcc; [subst c'|].
    + destruct Hresp as [(_ & _ & -> & ->)|[(_ & _ & _ & _ & ->)|[(_ & _ & Ha)|(_ & _ & _ & _ & ->)]]]; [|done| |done].
      * rewrite deliver_nil, app_nil_r. apply Hc.
      * by destruct Ha as [(_ & _ & ->)|(_ & _ & ->)].
    + intros [Hin Hni]%Hc. split; [done|]. rewrite fmap_app, elem_of_app. intros [?|([ch' v'] & -> & Hd%Hdel)%list_elem_of_fmap]; [done|].
      destruct Hd as [_ Hd]. specialize (Ho _ _ _ Hin Hd). congruence.
  - intros c' v'. rewrite !state_of_insert, elem_of_app. case_decide as Hcc; [subst c'|intros Hv; left; by apply Hr].
    destruct Hresp as [(_ & _ & _ & ->)|[(_ & _ & _ & _ & ->)|[(_ & _ & Ha)|(_ & _ & _ & _ & ->)]]]; [|cbn| |done].
    + intros Hv. left. by apply Hr.
    + intros [= <-]. right. set_solver.
    + by destruct Ha as [(_ & _ & ->)|(_ & _ & ->)].
  - intros ch v' [Hin|Hin%Hdel]%elem_of_app; [|destruct Hin as [-> ?]; exists c, id; set_solver].
    destruct (Hre _ _ Hin) as (c' & r & ? & ?). exists c', r. set_solver.
  - apply deliver_once; [done|]. destruct Hsent as [->|(ch & -> & _ & ?)]; [by left|right; eauto].
  - intros c' r q Hin%Hrq. set_solver.
  - done.
  - intros c' r Hin. assert (r + 1 < 2 ^ 64)%N as Hlt by (by apply list_elem_of_filter in Hin as [? _]).
    rewrite state_of_insert. case_decide as Hcc; [subst c'; by apply Hbeh, Hb|by apply Hb].
Qed.

Lemma web_run_app es es' s : web_run (es ++ es') s = web_run es' (web_run es s).
Proof. apply foldl_app. Qed.

Lemma web_run_ok es : web_ok es (web_run es WebServer_new).
Proof.
  induction es as [|e es IH] using rev_ind; [apply web_ok_new|]. rewrite web_run_app. cbn.
  destruct e; [by apply web_ok_request|by apply web_ok_send|eapply web_ok_give_up; eauto..|by apply web_ok_response].
Qed.

(** C20: replies and requests match.  Whatever happens at the server of a replica, in
    whatever order, the reply that a request gets is a response of the application to
    that request of that client, and each request gets at most one; only received
    requests are passed on to the application, and no request number of a client but
    the greatest one twice. *)
Theorem web_replies_match (es : list (WebEvent Req Resp)) :
  let s := web_run es WebServer_new in
  (forall ch v, (ch, v) ∈ ws_replies s -> exists c r, (ch, (c, r)) ∈ ws_opened s /\ Ev_response c r v ∈ es)
  /\ (forall ch x y, (ch, x) ∈ ws_opened s -> (ch, y) ∈ ws_opened s -> x = y)
  /\ NoDup (ws_replies s).*1
  /\ (forall c r q, (c, r, q) ∈ ws_requests s -> Ev_request c r q ∈ es)
  /\ NoDup (filter below_max (ws_requests s).*1).
Proof.
  intros s. destruct (web_run_ok es) as [? Ho ? ? ? Hre Hon Hrq Hpa ?]. split_and!; [done|done|done| |].
  - intros c r q Hin. apply Hrq. set_solver.
  - unfold passed in Hpa. rewrite fmap_app, list.filter_app in Hpa. by apply list.NoDup_app in Hpa as [? _].
Qed.

(** ** Both orders of a request and its response *)

(** An event that does not concern request [r] of client [c] or a later one, does not
    end the connection with the channel [ch], and does not stop the task that takes the
    responses: no response is to a request with the greatest number. *)
Definition quiet (c r ch : N) e : Prop :=
  match e with
  | Ev_request c' r' _ => c' <> c \/ (r' < r)%N
  | Ev_response c' r' _ => (c' <> c \/ (r' < r)%N) /\ (r' + 1 < 2 ^ 64)%N
  | Ev_send _ => True
  | Ev_closed ch' | Ev_disconnect ch' => ch' <> ch
  end.

(** What a quiet event leaves as it is. *)
Lemma web_step_quiet c r ch e s :
  quiet c r ch e -> (r <= ch_id (state_of (ws_handler s) c))%N -> ws_responses_run s = true ->
  let s' := web_step e s in
  state_of (ws_handler s') c = state_of (ws_handler s) c /\ ws_responses_run s' = true
  /\ ((ch < ws_next s)%N /\ ch ∉ ws_gone s -> (ch < ws_next s')%N /\ ch ∉ ws_gone s').
Proof.
  intros Hq Hr Hrun. destruct e as [c' r' q|ch'|ch'|ch'|c' r' v]; cbn [quiet] in Hq.
  - cbn [web_step]. unfold ResponseHandler_request. change (default _ (ws_handler s !! c')) with (state_of (ws_handler s) c').
    destruct (ClientHandlerState_request r' (ws_next s) (state_of (ws_handler s) c')) as [[[p b] sent] st'] eqn:Hreq.
    assert (state_of (<[c' := st']> (ws_handler s)) c = state_of (ws_handler s) c) as Hst.
    { rewrite state_of_insert. case_decide as Hcc; [subst c'|done]. destruct Hq as [|Hq]; [done|].
      apply request_cases in Hreq as [(_ & _ & _ & _ & ->)|[(? & _)|[(? & _)|(? & _)]]]; [done|lia..]. }
    destruct p; [|destruct b]; cbn; (split; [done|]; split; [done|]; intros [Hlt Hng]; split; [lia|]); [|done..].
    rewrite elem_of_app, list_elem_of_singleton. intros [?| ->]; [done|lia].
  - done.
  - cbn [web_step]. destruct (ch' <? ws_next s)%N; [|done]. cbn. split; [done|]. split; [done|]. intros [? ?]. split; [done|]. set_solver.
  - cbn [web_step]. destruct (ch' <? ws_next s)%N; [|done]. cbn. split; [done|]. split; [done|]. intros [? ?]. split; [done|]. set_solver.
  - destruct Hq as [Hq Hmax]. cbn [web_step]. rewrite Hrun. unfold ResponseHandler_response.
    change (default _ (ws_handler s !! c')) with (state_of (ws_handler s) c').
    destruct (ClientHandlerState_response r' v (state_of (ws_handler s) c')) as [[p sent] st'] eqn:Hresp.
    apply response_cases in Hresp.
    assert (state_of (<[c' := st']> (ws_handler s)) c = state_of (ws_handler s) c) as Hst.
    { rewrite state_of_insert. case_decide as Hcc; [subst c'|done]. destruct Hq as [|Hq]; [done|].
      destruct Hresp as [(_ & _ & _ & ->)|[(? & _)|[(? & _)|(? & _)]]]; [done|lia..]. }
    assert (p = false) as ->; [|by cbn; split_and!].
    destruct Hresp as [(_ & ? & _)|[(_ & _ & ? & _)|[(_ & _ & [(? & _)|(_ & ? & _)])|(_ & _ & ? & _)]]]; done || lia.
Qed.

Lemma web_run_quiet c r ch es s :
  Forall (quiet c r ch) es -> (r <= ch_id (state_of (ws_handler s) c))%N -> ws_responses_run s = true ->
  let s' := web_run es s in
  state_of (ws_handler s') c = state_of (ws_handler s) c /\ ws_responses_run s' = true
  /\ ((ch < ws_next s)%N /\ ch ∉ ws_gone s -> (ch < ws_next s')%N /\ ch ∉ ws_gone s').
Proof.
  revert s. induction es as [|e es IH]; intros s Hq Hr Hrun; [done|]. inversion_clear Hq as [|? ? Hqe Hq'].
  destruct (web_step_quiet c r ch e s Hqe Hr Hrun) as (Hst & Hrun' & Hch).
  destruct (IH (web_step e s) Hq') as (Hst2 & Hrun2 & Hch2); [by rewrite Hst|done|]. cbn in *. split; [by etransitivity|]. split; [done|]. auto.
Qed.

(** The client has not used number [r] or a later one. *)
Definition unused (c r : N) (s : WebServer Req Resp) : Prop :=
  (ch_id (state_of (ws_handler s) c) < r)%N \/ state_of (ws_handler s) c = mkClientHandler r Neither.

Lemma request_waits c r q s :
  unused c r s ->
  let s' := web_step (Ev_request c r q) s in
  state_of (ws_handler s') c = mkClientHandler r (Channel (ws_next s))
  /\ ws_next s' = (ws_next s + 1)%N /\ ws_gone s' = ws_gone s /\ ws_responses_run s' = ws_responses_run s.
Proof.
  intros Hu. cbn [web_step]. unfold ResponseHandler_request. change (default _ (ws_handler s !! c)) with (state_of (ws_handler s) c).
  destruct (ClientHandlerState_request r (ws_next s) (state_of (ws_handler s) c)) as [[[p b] sent] st'] eqn:Hreq.
  apply request_cases in Hreq as [(? & _)|[(_ & _ & -> & -> & _ & ->)|[(? & (ch & Hch) & _)|(? & (v & Hv & _) & _)]]].
  2: cbn; by rewrite state_of_insert, decide_True.
  all: exfalso; destruct Hu as [?|Heq]; try lia; rewrite Heq in *; cbn in *; (done || lia).
Qed.

Lemma response_waits c r v s :
  unused c r s -> ws_responses_run s = true ->
  let s' := web_step (Ev_response c r v) s in
  state_of (ws_handler s') c = mkClientHandler r (Response v) /\ ws_responses_run s' = true.
Proof.
  intros Hu Hrun. cbn [web_step]. rewrite Hrun. unfold ResponseHandler_response.
  change (default _ (ws_handler s !! c)) with (state_of (ws_handler s) c).
  destruct (ClientHandlerState_response r v (state_of (ws_handler s) c)) as [[p sent] st'] eqn:Hresp.
  apply response_cases in Hresp as [(? & _)|[(_ & _ & -> & _ & ->)|[(? & (ch & Hch & _) & _)|(? & (v' & Hv) & _)]]].
  2: cbn; by rewrite state_of_insert, decide_True.
  all: exfalso; destruct Hu as [?|Heq]; try lia; rewrite Heq in *; cbn in *; (done || lia).
Qed.

Lemma response_answers c r v ch s :
  state_of (ws_handler s) c = mkClientHandler r (Channel ch) -> ws_responses_run s = true -> ch ∉ ws_gone s ->
  (ch, v) ∈ ws_replies (web_step (Ev_response c r v) s).
Proof.
  intros Hst Hrun Hng. cbn [web_step]. rewrite Hrun. unfold ResponseHandler_response, ClientHandlerState_response.
  change (default _ (ws_handler s !! c)) with (state_of (ws_handler s) c). rewrite Hst. cbn [ch_id ch_inner]. rewrite N.compare_refl.
  destruct (next_id _) as [p st]. cbn -[deliver]. rewrite deliver_one by done. set_solver.
Qed.

Lemma request_answered c r q v s :
  state_of (ws_handler s) c = mkClientHandler r (Response v) -> (r + 1 < 2 ^ 64)%N -> ws_next s ∉ ws_gone s ->
  let s' := web_step (Ev_request c r q) s in (ws_next s, (c, r)) ∈ ws_opened s' /\ (ws_next s, v) ∈ ws_replies s'.
Proof.
  intros Hst Hsm Hng. cbn [web_step]. unfold ResponseHandler_request, ClientHandlerState_request.
  change (default _ (ws_handler s !! c)) with (state_of (ws_handler s) c). rewrite Hst. cbn [ch_id ch_inner]. rewrite N.compare_refl.
  destruct (next_id_cases (mkClientHandler (Resp := Resp) r Neither)) as [[_ ->]|[? _]]; [|cbn in *; lia].
  cbn -[deliver]. rewrite deliver_one by done. set_solver.
Qed.

End facts.

(** ** Concrete runs *)

Definition web_events : list (WebEvent N N) :=
  [Ev_request 1 0 10; Ev_response 2 0 77; Ev_send 0; Ev_response 1 0 55; Ev_request 2 0 20; Ev_request 1 1 11; Ev_request 1 1 11; Ev_send 2]%N.

Lemma web_events_run : let s := web_run web_events WebServer_new in
  ws_replies s = [(0, 55); (1, 77)]%N /\ ws_requests s = [(1, 0, 10); (1, 1, 11)]%N.
Proof. split; vm_compute; reflexivity. Qed.


(** A response that arrives twice before its request.  The comment says that the
    second one is ignored; it removes the first, so the request is passed on again and
    not answered. *)
Theorem web_duplicate_response_lost :
  let s : WebServer N N := web_run [Ev_response 1 0 55; Ev_response 1 0 55; Ev_request 1 0 10; Ev_send 0]%N WebServer_new in
  ws_replies s = [] /\ ws_requests s = [(1, 0, 10)]%N.
Proof. split; vm_compute; reflexivity. Qed.

(** Requests of one client are not passed on in order: the entry of the client is free
    again before [requests.send], and the second request can be faster. *)
Theorem web_requests_reordered :
  let s : WebServer N N := web_run [Ev_request 1 0 10; Ev_request 1 1 11; Ev_send 1; Ev_send 0]%N WebServer_new in
  ws_requests s = [(1, 1, 11); (1, 0, 10)]%N.
Proof. vm_compute. reflexivity. Qed.

(** One client that uses the greatest number ends the task that takes the responses:
    after that nobody is answered, whatever the application responds. *)
Theorem web_greatest_number_stops_responses :
  let s : WebServer N N :=
    web_run [Ev_request 9 (2 ^ 64 - 1) 0; Ev_response 9 (2 ^ 64 - 1) 1; Ev_request 1 0 10; Ev_send 1; Ev_response 1 0 55]%N WebServer_new in
  ws_responses_run s = false /\ ws_requests s = [(1, 0, 10)]%N /\ ws_replies s = [(0, 1)]%N.
Proof. split_and!; vm_compute; reflexivity. Qed.

(** It is also passed on as often as it is sent. *)
Theorem web_greatest_number_repeated :
  let s : WebServer N N :=
    web_run [Ev_request 9 (2 ^ 64 - 1) 0; Ev_send 0; Ev_response 9 (2 ^ 64 - 1) 1; Ev_request 9 (2 ^ 64 - 1) 0; Ev_send 1]%N WebServer_new in
  ws_requests s = [(9, 2 ^ 64 - 1, 0); (9, 2 ^ 64 - 1, 0)]%N.
Proof. vm_compute. reflexivity. Qed.
