(* ===== verification/SpliteeMath.v ===== *)
(** * Splitee: polynomials and Lagrange coefficients

    Models [src/splitee/splitee-crypto/src/math.rs] (field elements, polynomials)
    and [util.rs] (the Lagrange coefficients with which shares are combined).  The
    scalars of curve25519 are the prime field of their order [p].  What is random
    is a parameter; an index out of range is [None]. *)

From mathcomp Require Import boot algebra.
Set Implicit Arguments.
Unset Strict Implicit.
Unset Printing Implicit Defensive.
Import GRing.Theory.
Local Open Scope ring_scope.

Section scalars.
Variable p : nat.

(** ** [FieldElement] *)

Definition FieldElement : Type := 'F_p.
Implicit Types (x y : 'F_p) (cs ps : seq 'F_p).

(** The exponent is the number its bytes stand for. *)
Definition FieldElement_exp base (exponent : 'F_p) : 'F_p := base ^+ (exponent : nat).
Definition FieldElement_mul (factor_1 factor_2 : 'F_p) : 'F_p := factor_1 * factor_2.
Definition FieldElement_mul_explicit_mod (factor_1 factor_2 modulus : 'F_p) : 'F_p := factor_1 * factor_2 * modulus^-1.
Definition FieldElement_add (summand_1 summand_2 : 'F_p) : 'F_p := summand_1 + summand_2.
Definition FieldElement_sub (input_1 input_2 : 'F_p) : 'F_p := input_1 - input_2.
Definition FieldElement_zero : 'F_p := 0.
Definition FieldElement_one : 'F_p := 1.
Definition FieldElement_equals (input_1 input_2 : 'F_p) : bool := input_1 == input_2.
(** [Scalar::invert] of zero is zero. *)
Definition FieldElement_inv (input : 'F_p) : 'F_p := input^-1.
Definition FieldElement_from_usize (input : nat) : 'F_p := input%:R.

(** ** [Polynomial] *)

Record Polynomial := mkPolynomial { coefficients : seq 'F_p }.

Definition Polynomial_get_coefficient (f : Polynomial) (index : nat) : option 'F_p :=
  nth None (map Some (coefficients f)) index.

Definition Polynomial_evaluate (f : Polynomial) x : 'F_p :=
  foldl FieldElement_add FieldElement_zero
    [seq FieldElement_mul c.2 (FieldElement_exp x (FieldElement_from_usize c.1))
    | c <- zip (iota 0 (size (coefficients f))) (coefficients f)].

(** [random i] is what the [i]-th call of [FieldElement::rand] returns. *)
Definition Polynomial_rand (random : nat -> 'F_p) (order : nat) : Polynomial := mkPolynomial (map random (iota 0 order)).

(** ** [LagrangeCoefficients] *)

Record LagrangeCoefficients := mkLagrange {
  positive_precomputed_inverse : seq 'F_p;
  negative_precomputed_inverse : seq 'F_p;
  optimized : bool;
}.

Definition coefficient_unoptimized ps (i : nat) : 'F_p :=
  foldl (fun party_coefficient j =>
    if j == i then party_coefficient else
    let denom := FieldElement_sub (nth 0 ps i) (nth 0 ps j) in
    let factor := FieldElement_mul (nth 0 ps j) (FieldElement_inv denom) in
    FieldElement_mul party_coefficient factor) FieldElement_one (iota 0 (size ps)).

Definition calculate_lagrange_coefficients_unoptimized (party_set : seq 'F_p) : seq 'F_p :=
  map (coefficient_unoptimized party_set) (iota 0 (size party_set)).

(** The inverse of the difference of two indices, from the tables. *)
Definition denom_inv (l : LagrangeCoefficients) (i j : nat) : option 'F_p :=
  if (i < j)%N then nth None (map Some (negative_precomputed_inverse l)) (j - i)
  else nth None (map Some (positive_precomputed_inverse l)) (i - j).

Definition coefficient_optimized (l : LagrangeCoefficients) ps (i : nat) : option 'F_p :=
  foldl (fun party_coefficient j =>
    if j == i then party_coefficient else
    obind (fun c => omap (fun d => FieldElement_mul c (FieldElement_mul (nth 0 ps j) d)) (denom_inv l i j)) party_coefficient)
    (Some FieldElement_one) (iota 0 (size ps)).

Definition calculate_lagrange_coefficients_optimized (l : LagrangeCoefficients) (party_set : seq 'F_p) : option (seq 'F_p) :=
  foldr (fun i out => obind (fun c => omap (cons c) out) (coefficient_optimized l party_set i))
    (Some [::]) (iota 0 (size party_set)).

Definition calculate_lagrange_coefficients (l : LagrangeCoefficients) (party_set : seq 'F_p) : option (seq 'F_p) :=
  if optimized l then calculate_lagrange_coefficients_optimized l party_set
  else Some (calculate_lagrange_coefficients_unoptimized party_set).

Definition precompute_inverse (l : LagrangeCoefficients) (number_of_parties : nat) : LagrangeCoefficients :=
  let ks := iota 1 (number_of_parties - 1) in
  mkLagrange
    (positive_precomputed_inverse l ++ FieldElement_zero :: [seq FieldElement_inv (FieldElement_from_usize i) | i <- ks])
    (negative_precomputed_inverse l
     ++ FieldElement_zero :: [seq FieldElement_inv (FieldElement_sub FieldElement_zero (FieldElement_from_usize i)) | i <- ks])
    true.

(** ** Evaluation *)

Hypothesis p_prime : prime p.

Lemma foldl_addE (s : seq 'F_p) a : foldl FieldElement_add a s = a + \sum_(x <- s) x.
Proof. elim: s a => [|x s IH] a /=; first by rw big_nil addr0. by rw IH big_cons addrA. Qed.

Lemma exp_small x i : (i < p)%N -> FieldElement_exp x (FieldElement_from_usize i) = x ^+ i.
Proof. by move=> Hi; rw /FieldElement_exp /FieldElement_from_usize val_Fp_nat ?modn_small. Qed.

Lemma evaluate_horner cs x : (size cs <= p)%N -> Polynomial_evaluate (mkPolynomial cs) x = (Poly cs).[x].
Proof.
  move=> Hs. rw /Polynomial_evaluate foldl_addE add0r big_map /=.
  rw (big_nth (0%N, 0)) size_zip size_iota minnn big_mkord (horner_coef_wide _ (size_Poly cs)).
  apply: eq_bigr => i _. rw nth_zip ?size_iota //= coef_Poly nth_iota // add0n exp_small //.
  exact: leq_trans (ltn_ord i) Hs.
Qed.

(** ** Interpolation *)

Lemma foldl_mulE (P : pred nat) (F : nat -> 'F_p) s a :
  foldl (fun c j => if P j then c else FieldElement_mul c (F j)) a s = a * \prod_(j <- s | ~~ P j) F j.
Proof.
  elim: s a => [|j s IH] a /=; first by rw big_nil mulr1.
  rw IH big_cons. by case: (P j); rw //= mulrA.
Qed.

(** The factor of the share at index [i]. *)
Lemma coefficient_unoptimizedE ps i :
  coefficient_unoptimized ps i = \prod_(j < size ps | j != i :> nat) (ps`_j / (ps`_i - ps`_j)).
Proof.
  rw -(big_mkord (fun j => j != i) (fun j => ps`_j / (ps`_i - ps`_j))) /index_iota subn0 -[RHS]mul1r.
  exact: (foldl_mulE (eq_op^~ i) (fun j => ps`_j / (ps`_i - ps`_j))).
Qed.

(** The polynomial that is 1 at [ps`_i] and 0 at the other points. *)
Definition basis ps (i : nat) : {poly 'F_p} := \prod_(j < size ps | j != i :> nat) ((ps`_i - ps`_j)^-1 *: ('X - (ps`_j)%:P)).

Lemma basis_horner ps i x : (basis ps i).[x] = \prod_(j < size ps | j != i :> nat) ((x - ps`_j) / (ps`_i - ps`_j)).
Proof. rw horner_prod. apply: eq_bigr => j _. by rw hornerZ hornerXsubC mulrC. Qed.

Lemma basis_at ps (i k : nat) : uniq ps -> (i < size ps)%N -> (k < size ps)%N -> (basis ps i).[ps`_k] = (k == i)%:R.
Proof.
  move=> Hu Hi Hk. rw basis_horner. case: (eqVneq k i) => [->|Hki].
    rw big1 // => j Hj. rw divff // subr_eq0 nth_uniq // eq_sym //.
  by rw (bigD1 (Ordinal Hk)) //= subrr mul0r mul0r.
Qed.

Lemma basis_size ps (i : nat) : (i < size ps)%N -> (size (basis ps i) <= size ps)%N.
Proof.
  move=> Hi. rw /basis scaler_prod. apply: leq_trans (size_scale_leq _ _) _.
  rw -big_filter size_prod_XsubC size_filter -sum1_count (eq_bigl (mem (predC1 (Ordinal Hi)))) //.
  by rw sum1_card cardC1 card_ord prednK // (leq_ltn_trans _ Hi).
Qed.

(** A polynomial of degree below the number of points is the sum of the basis
    polynomials, weighted with its values. *)
Lemma interpolate (f : {poly 'F_p}) ps :
  uniq ps -> (size f <= size ps)%N -> f = \sum_(i < size ps) f.[ps`_i] *: basis ps i.
Proof.
  move=> Hu Hf. apply/eqP. rw -subr_eq0. apply/negPn/negP => Hne.
  have Hsz : (size (f - \sum_(i < size ps) f.[ps`_i] *: basis ps i)%R <= size ps)%N.
    apply: leq_trans (size_polyD _ _) _. rw geq_max Hf size_polyN.
    apply: leq_trans (size_sum _ _ _) _. apply/bigmax_leqP => i _.
    apply: leq_trans (size_scale_leq _ _) _. exact: basis_size.
  have := max_poly_roots Hne _ Hu. rw ltnNge Hsz /= => H. suff : false by []. apply: H.
  apply/allP => x /(nthP 0) [k Hk <-]. rw rootE hornerD hornerN horner_sum.
  have H0 (i : 'I_(size ps)) : i != Ordinal Hk -> (f.[ps`_i] *: basis ps i).[ps`_k] = 0.
    by move=> Hi; rw hornerZ basis_at // eq_sym (negbTE (Hi : i != k :> nat)) mulr0.
  by rw (bigD1 (Ordinal Hk)) //= big1 // hornerZ basis_at // eqxx mulr1 addr0 subrr.
Qed.

(** The coefficients the code computes: its factors have the sign of [x_i - x_j] where
    those of Lagrange have that of [x_j - x_i]. *)
Lemma coefficient_basis ps (i : nat) : (i < size ps)%N ->
  coefficient_unoptimized ps i = (-1) ^+ (size ps).-1 * (basis ps i).[0].
Proof.
  move=> Hi. rw coefficient_unoptimizedE basis_horner.
  have -> : (-1) ^+ (size ps).-1 = \prod_(j < size ps | j != i :> nat) (-1) :> 'F_p.
    by rw prodr_const (eq_card (B := predC1 (Ordinal Hi))) // cardC1 card_ord.
  by rw -big_split /=; apply: eq_bigr => j _; rw sub0r mulNr mul1r mulNr opprK.
Qed.

Lemma combine_shares (f : {poly 'F_p}) ps : uniq ps -> (size f <= size ps)%N ->
  \sum_(i < size ps) coefficient_unoptimized ps i * f.[ps`_i] = (-1) ^+ (size ps).-1 * f.[0].
Proof.
  move=> Hu Hf. rw [in RHS](interpolate Hu Hf) horner_sum mulr_sumr. apply: eq_bigr => i _.
  by rw coefficient_basis // hornerZ -mulrA [(basis _ _).[0] * _]mulrC.
Qed.

(** ** The tables *)

(** Parties with consecutive numbers. *)
Definition consecutive (a k : nat) : seq 'F_p := [seq FieldElement_from_usize (a + i) | i <- iota 0 k].
Definition no_tables : LagrangeCoefficients := mkLagrange [::] [::] false.

Lemma nth_consecutive a k i : (i < k)%N -> (consecutive a k)`_i = (a + i)%:R.
Proof. by move=> Hi; rw (nth_map 0%N) ?size_iota // nth_iota. Qed.

Lemma denom_invE a k n i j : (i < k)%N -> (j < k)%N -> i != j -> (k <= n)%N ->
  denom_inv (precompute_inverse no_tables n) i j = Some ((consecutive a k)`_i - (consecutive a k)`_j)^-1.
Proof.
  move=> Hi Hj Hij Hn. rw !nth_consecutive // !natrD opprD addrACA subrr add0r /denom_inv.
  have Ht (F : nat -> 'F_p) d : (0 < d)%N -> (d < n)%N ->
      nth None (map Some (FieldElement_zero :: [seq F i | i <- iota 1 (n - 1)])) d = Some (F d).
    move=> Hd Hdn. have Hs : (d < (size [seq F i | i <- iota 1 (n - 1)]).+1)%N.
      by rw size_map size_iota subn1 prednK // (leq_ltn_trans _ Hdn).
    rw (nth_map 0) //. case: d Hd Hdn {Hs} => // d _ Hd /=. by rw (nth_map 0%N) ?size_iota ?nth_iota ?ltn_subRL ?add1n.
  case: (ltnP i j) => Hlt.
    rw /= Ht ?subn_gt0 ?(leq_ltn_trans (leq_subr _ _)) ?(leq_trans Hj) //.
    by rw /FieldElement_sub sub0r /FieldElement_from_usize natrB 1?ltnW // opprB.
  have {}Hlt : (j < i)%N by rw ltn_neqAle eq_sym Hij.
  rw /= Ht ?subn_gt0 ?(leq_ltn_trans (leq_subr _ _)) ?(leq_trans Hi) //.
  by rw /FieldElement_from_usize natrB 1?ltnW.
Qed.

Lemma optimized_at a k n i : (i < k)%N -> (k <= n)%N ->
  coefficient_optimized (precompute_inverse no_tables n) (consecutive a k) i = Some (coefficient_unoptimized (consecutive a k) i).
Proof.
  move=> Hi Hn. rw /coefficient_optimized /coefficient_unoptimized.
  have : all (fun j => j < k)%N (iota 0 (size (consecutive a k))).
    by apply/allP => j; rw mem_iota size_map size_iota add0n.
  elim: (iota 0 _) FieldElement_one => //= j s IH c /andP [Hj Hs]. case: (eqVneq j i) => Hji; first exact: IH.
  by rw (denom_invE a Hi Hj _ Hn) 1?eq_sym //= IH.
Qed.

(** C39: the optimization.  Once the tables are computed for [n] parties, the
    coefficients of up to [n] parties with consecutive numbers are those of the
    definition, without an inversion. *)
Theorem splitee_optimized_coefficients a k n : (k <= n)%N ->
  calculate_lagrange_coefficients (precompute_inverse no_tables n) (consecutive a k)
  = Some (calculate_lagrange_coefficients_unoptimized (consecutive a k)).
Proof.
  move=> Hn. rw /calculate_lagrange_coefficients /= /calculate_lagrange_coefficients_optimized.
  have : all (fun i => i < k)%N (iota 0 (size (consecutive a k))).
    by apply/allP => i; rw mem_iota size_map size_iota add0n.
  rw /calculate_lagrange_coefficients_unoptimized.
  elim: (iota 0 _) => //= i s IH /andP [Hi /IH ->]. by rw optimized_at.
Qed.

(** C38: combining shares.  Take a polynomial with at most as many coefficients as there
    are different parties.  The sum of its values at the parties, weighted with the
    coefficients the code computes, is its constant coefficient, the secret, with a
    sign: the secret itself for an odd number of parties, and its negation for an
    even one. *)
Theorem splitee_combine (cs ps : seq 'F_p) :
  uniq ps -> (size cs <= size ps)%N ->
  \sum_(i < size ps) (calculate_lagrange_coefficients_unoptimized ps)`_i * Polynomial_evaluate (mkPolynomial cs) ps`_i
  = (-1) ^+ (size ps).-1 * cs`_0.
Proof.
  move=> Hu Hs. have Hp : (size cs <= p)%N.
    have Hc := max_card (mem ps). rw (card_uniqP Hu) (card_Fp p_prime) in Hc. exact: leq_trans Hs Hc.
  rw -[cs`_0]coef_Poly -horner_coef0 -(combine_shares Hu (leq_trans (size_Poly _) Hs)).
  apply: eq_bigr => i _. by rw (nth_map 0%N) ?size_iota // nth_iota // add0n evaluate_horner.
Qed.
End scalars.

(** ** Witnesses over the field of seven elements *)

Lemma splitee_optimized_coefficients_witness :
  (3 <= 4)%N /\ calculate_lagrange_coefficients (precompute_inverse (no_tables 7) 4) (consecutive 7 2 3)
    = Some (calculate_lagrange_coefficients_unoptimized (consecutive 7 2 3)).
Proof. split; first by []. exact: (splitee_optimized_coefficients 7 2 (isT : (3 <= 4)%N)). Defined.

Lemma splitee_combine_witness :
  let ps := [:: 1; 3%:R] : seq 'F_7 in let cs := [:: 5%:R; 2%:R] : seq 'F_7 in
  uniq ps /\ \sum_(i < size ps) (calculate_lagrange_coefficients_unoptimized ps)`_i * Polynomial_evaluate (mkPolynomial cs) ps`_i
    = (-1) ^+ (size ps).-1 * cs`_0.
Proof. split; first by []. by apply: (@splitee_combine 7). Defined.

(** Gaps.  The tables hold the inverses of the differences of the positions in the list,
    not of the parties' numbers: where a party is missing the optimized coefficients
    are wrong. *)
Theorem splitee_gap_wrong :
  let ps := [:: 1; 3%:R] : seq 'F_7 in
  calculate_lagrange_coefficients (precompute_inverse (no_tables 7) 4) ps
  <> Some (calculate_lagrange_coefficients_unoptimized ps).
Proof. by []. Qed.
